(* ===== verification/_CoqProject ===== *)
-Q . S2P
Prelude.v
Utf8.v
Text.v
Paths.v
Framing.v
ModeState.v
ModeScan.v
Emulator.v
HistoryLog.v
DiskIO.v
History.v
Pty.v
Agent.v
Session.v
Checkpointer.v
Client.v
Gc.v
Json.v
Protocol.v
Server.v
Process.v
Supervisor.v
Probes.v
Remotes.v
GithubCli.v
Worktrees.v
Config.v
World.v
UiStores.v
GcInputs.v
ConfigFile.v
ConfigWriters.v
Source.v
Projects.v
Stacks.v
Loader.v
Missions.v
ProcessEnv.v
ToolHooks.v
Launcher.v
ClientCalls.v
Global.v
Panes.v
GitDiff.v
GitFiles.v
FileBrowser.v
TmuxSweep.v
Cookies.v
Ide.v
Browser.v
DesktopShell.v
Theme.v
