(* ===== verification/Prelude.v ===== *)
(** * Grove: verification of the terminal daemon, its client and the git core

    The repository is a set of tools for coding agents. Its Rust part, under
    src/grove, is the core of the Grove desktop app: a daemon that owns the
    terminals (grove-daemon), the library that both desktop shells call
    (grove-core), and a small launcher (grove-agent). This development models
    the path a terminal byte takes through daemon, wire, client and disk, the
    machinery that decides when sessions, histories and processes are dropped,
    the daemon's server and supervisor, and the part of the library that keeps
    the registry of projects, their worktrees and stacks and edits the user's
    repositories. Function names are those of the source, fields keep theirs up
    to a prefix where two records share one.

    ** Parts and how they interact

    A child process writes to its PTY. The daemon's reader thread tees every
    chunk into the session's ring, its emulator and its pending output, and
    pushes it to a coalescer whose flusher numbers batches with the delivered
    byte count and broadcasts them as binary frames. The client decodes the
    frames and hands them to the pane, which buffers them behind a gate until
    the snapshot that createOrAttach returned is in place. A checkpointer
    persists dirty sessions, by appending the pending output to a log or by
    writing a full checkpoint; a cold restore composes both. Agents report hook
    events, from which the daemon derives a badge. Garbage collection kills the
    sessions of removed worktrees and prunes their histories.

    The server admits connections by a handshake, answers the requests of
    control connections with the operations of the sessions, confines agent
    connections to the claims of their own session, and feeds stream
    connections from one mailbox each. The supervisor starts the daemon, keeps
    the one that runs or replaces it.

    Beside the terminals the library keeps a registry of projects in a
    configuration file, reads the worktrees of a repository from git, orders
    them in stacks, adds and removes them, refreshes the source repository and
    produces patches of selected lines of a diff.

    ** Files

    - Prelude: notation-free basics shared by all files: Rust's [Result], byte
      strings as [list Z], machine-width wrap-around, little-endian integers,
      loops with fuel and as a relation, invariants of transition systems.
    - Utf8, Text, Paths: the parts of [str], [String], [Path] and the ordered
      sets of the standard library that the code calls.
    - Framing (grove-core/src/daemon/framing.rs): [encode], [next_frame],
      [stream_reader], [SeqTracker].
    - ModeState, ModeScan (grove-daemon/src/mode_state.rs): the mode scanner
      [scan] with its index arithmetic, and a byte-at-a-time automaton it refines.
    - Emulator (grove-daemon/src/emulator.rs): [process], [snapshot] and
      [resize] over the vt100 crate, which is the class [Vt100].
    - HistoryLog, DiskIO, History (grove-daemon/src/history.rs): directory names,
      the log codec, [HistoryWriter] and the cold-restore reader. DiskIO is the
      meaning given to [std::fs]: files with synced and unsynced versions, an
      oracle that fails or stops any operation.
    - Pty (grove-core/src/pty.rs): scrollback ring, output coalescer, replay gate
      of a pane, ordered input writer.
    - Agent (grove-daemon/src/agent.rs, kernel.rs): claims, events, badge; the
      kernel is the class [Kernel].
    - Session (grove-daemon/src/session.rs): pending output, producer gate, tee,
      snapshot, exit, and the reader and flusher as one transition system.
    - Checkpointer (grove-daemon/src/checkpointer.rs): the persist pass, tick,
      flush and shutdown. It is proved against the class [CheckpointSource] with
      its laws, of which Session is the instance.
    - Client (grove-core/src/daemon/client.rs): cold cache, requests, frame
      dispatch, teardown and resync, and their interleaving.
    - Gc (grove-core/src/pty.rs, daemon/gc.rs): naming, attribution, the three
      plans, the process sweep, the whole pass.
    - Json, Protocol (grove-core/src/daemon/protocol.rs): the values and the
      records of the control protocol, their serialization as serde derives it,
      a line of the control socket. The text of JSON is the class [JsonText].
    - Server (grove-daemon/src/server.rs, main.rs): the handshake, the requests,
      createOrAttach as the steps of a caller, the stream hub with its
      mailboxes and the agent connections, and all of them interleaved.
    - Supervisor (grove-core/src/daemon/supervisor.rs): the probe, the
      decision to adopt or replace, killing by verified identity, spawning.
    - Remotes (grove-core/src/git_project.rs): urls, names of branches and
      projects, quoting, pull requests.
    - Worktrees (git_project.rs): the list of git's worktrees, their order, the
      parent links and the stacks they form.
    - Config (grove-core/src/config.rs): preferences, defaults, limits.
    - World: the outside of the library for the files that follow, as questions
      answered from the events so far, and a monad with the configuration file
      as its state.
    - Source, Projects, Stacks (git_project.rs): refreshing the source
      repository; the registry of projects, adding, cloning and removing them;
      adding and removing worktrees, their parents and copied files.
    - GitDiff (grove-core/src/git_diff.rs): parsing diffs, hunks and conflicts,
      the patch of selected lines, paths of the editor.
    - Missions (grove-core/src/mission.rs, note.rs, worktree_lifecycle.rs): the
      stores of missions and notes, what adding, removing and deleting do to
      worktrees, and the reconciliation with the registry.
    - ProcessEnv (grove-core/src/process_env.rs): PATH and SSH_AUTH_SOCK of
      subprocesses, merged from the process, launchd, its ancestors and shells.
    - ToolHooks (grove-core/src/tool_hooks.rs): the hook configuration of the
      agents, the shims and start-up files, and their installation.
    - Launcher (grove-agent): the real binary behind the shims, the planned
      arguments, the claim and the relay of one hook event, joined with the
      agent channel of Server.
    - UiStores (grove-core/src/config.rs): the stores of terminal snapshots,
      panel layouts and interface state; each read and write can fail.
    - ClientCalls (grove-core/src/daemon/client.rs): the errors, the handshakes,
      the typed calls and notifications, and the reader of reply lines, each
      line put before the dispatch of Server and back.
    - Panes (grove-core/src/pty.rs): the registry of attached panes, their
      creation, use and closing interleaved, the poll of bells, the snapshots
      saved of them, and the environment of their shells.
    - GitFiles (grove-core/src/git_diff.rs): status, log, diffs with the cache of
      contents, staging, discarding, and the merge of the default branch.
    - FileBrowser (grove-core/src/file_browser.rs): the listings of a tree, from
      git or the file system, and how an opened file is shown.
    - TmuxSweep (grove-core/src/tmux_sweep.rs): the one-time clean-up of tmux.
    - Cookies (grove-core/src/browser_cookies.rs): the browsers' cookie stores, the
      copy that is read, what surrounds the cipher, and Safari's binary file,
      whose parser answers None where the code panics.
    - Ide (grove-core/src/ide.rs, url_open.rs): the commands of a menu item and
      the attempts to run them; the text of an open-url connection.
    - Process (grove-daemon/src/server.rs, main.rs): the tasks of all connections,
      the accept loop, signals and the entry point, around the machine of Server.
    - Probes (grove-daemon/src/kernel.rs, daemon/supervisor.rs, daemon/protocol.rs):
      the record of a process decoded from the kernel's bytes, the other questions
      about processes, and the mode of files that hold secrets.
    - Global (grove-core/src/daemon/global.rs): the one client of the app and its
      configuration, and the blocking bridges of the shells.
    - GithubCli (git_project.rs): the calls of gh and git for pull requests, the
      scripts that stand in for them, and a reader of such scripts.
    - Loader (git_project.rs): the commands that only read, and the projects that
      are loaded by a pool of threads.
    - ConfigFile (grove-core/src/config.rs, worktree_lifecycle.rs): config.json as
      a file of UiStores, and the resources of a removed worktree.
    - ConfigWriters (config.rs, git_project.rs): the commands that change that file
      on threads of their own.
    - GcInputs (grove-core/src/pty.rs): what a pass of Gc reads, and kill.
    - Browser (src-tauri/src/browser.rs): the registry of browser tabs, its
      commands, and what a page can reach by navigating.
    - DesktopShell (src-tauri/src/dev_permissions.rs, browser_cookie_inject.rs): the
      permissions of macOS, and the cookies put into the web views.
    - Theme (grove-core/src/terminal_theme.rs): colours and font of the terminal.
    ** State, concurrency, integers

    A Rust struct is a record, a method a function on it that returns the new
    record, [Result] the type [result], an early return a branch. What the code
    does under one lock is one definition; threads and tasks are the steps of an
    inductive relation ([cs_step], [ws_step], [sys_step], [tee_step],
    [dirt_step], [client_step], [hub_step], [srv_step], [proc_step], [chain],
    [pane_step], [cache_step], [global_step], [pool_step], [browser_step],
    [write_step]), and a theorem about all
    interleavings is an invariant of it. Counters of fixed width are in Z with
    [wrap] or saturation where the code wraps or saturates; theorems that need a
    counter not to wrap say so. Loops whose recursion is not structural use
    [loop] with fuel, and a lemma with a measure shows the fuel is enough: the
    length of the buffer for the decoders and the scanner, edges left plus stack
    for the process sweep, the number of worktrees for the walk along parents.

    The library's calls of git, of the file system and of remote services are
    the events of [World]: a computation reads the configuration, asks the world,
    whose answer may depend on all events so far, and appends its own events.
    A theorem about such a computation holds for every world, or for every world
    with a stated law.

    ** What the theorems show

    - Wire: frames survive any chunking of the stream, a decoded frame is what
      was sent, a desync is final, a waiting decoder is bounded; a control line
      is read back as the message that was written.
    - Modes and emulator: scanning does not depend on chunking, the index-based
      scanner is the automaton, tracked values stay in their ranges.
    - Disk: a checkpoint cut by power loss leaves the old or the new state; an
      accepted log has no gap; a torn append costs only the torn batch; a
      restore is the checkpoint's ring and the logged tail; a reused id never
      shows the previous session.
    - Panes: output arrives in order, minus exactly what the cap dropped; a gate
      continues exactly where the snapshot ends; input is FIFO.
    - Sessions: the exit frame is last and unique; a lost resume never wedges
      the reader; counters differ by what was dropped; a snapshot is never ahead
      of its content.
    - Checkpointing: a pass persists exactly what it took or anchors; a failed
      append is covered by the next anchor; pending output is always dirty; a
      tick persists every dirty session and no other.
    - Client: no request hangs or is answered twice; one exit per life of a
      session; a reconnect resumes what was paused; the cold cache is bounded.
    - Agents and collection: the badge is that of the latest live claim, events
      may arrive in any order; only orphans are killed and pruned; the process
      walk ends and finds exactly the descendants.
    - Server: an id never has two live sessions whatever calls interleave; an
      agent connection changes nothing but its own claims; the hub serves the
      newest connection in order; who is admitted, and whose claims count.
    - Supervisor: nothing is signalled without its identity being verified; when
      a running daemon is kept; what a successful spawn has done.
    - Repositories: a refresh leaves the user's changes in place or in the
      stash; the registry is what the scan of its projects gives; a failed clone
      leaves no directory; a removal follows the registry; adding a stacked
      worktree is all or nothing; the parents recorded form a forest and the
      check for cycles is exact; git's listing is read back; accepted names
      descend from their root; quoted text is one word of the shell.
    - Preferences: whatever was stored, what is used is normalized.
    - Diffs: the patch of a selection is the selection; parsing keeps lines;
      paths stay inside the repository.
    - Missions: what the stores hold survives reloads and reconciliation; a
      deletion happens in the order that loses nothing.
    - Environment and hooks: PATH is the union of its sources, once each; the
      printed environment is read back; the hook command is two words for the
      shell; a plugin is whole when it is seen first.
    - Launcher: it never runs itself, chains of launches end, the user's settings
      are merged and never lost, and the claim it exports is the daemon's claim
      of its own process; a hook event changes that claim and nothing else.
    - Stores: snapshots are read back, also from a file with text after them; a
      removed worktree is forgotten under every one of its names.
    - Calls of the client: what a call answers is what the daemon's handler found;
      createOrAttach means the same at both ends; input arrives in order; the
      client connects exactly when the daemon admits it; replies are not mixed up.
    - Panes of the app: a listed pane is alive and the one that was made under
      its name, whatever interleaves; what is saved of it brings it back; the
      renderer's view is the daemon's answer; a worktree's panes are closed.
    - Git panel: only untracked files are removed as such; lines of context are of
      the diff asked for; the cache is not seen; a failed merge is aborted.
    - File browser: one level and the whole tree agree; the walk ends on any file
      system, within its cap; asked-for paths stay below the root; a file is shown
      as what it is. The tmux sweep kills only what Grove owns, once.
    - Cookies: a Safari file is read back, and no bytes make its parser read out
      of range; the host filter is exactly the suffix of labels; a copy of a
      store is removed on every path; a padded and encrypted value is recovered.
      An IDE is the first of its item's commands that launches.
    - Process: whatever its tasks do, the process is the machine of Server; the
      count of connected apps is exact; a shutdown ends the accept loop, but for
      one schedule that is shown. Global: one client, made once.
    - Pull requests: a script is the words of the call it stands in for. Loading
      on threads is loading in order, and ends.
    - Settings: what is saved is loaded, and the rest is kept; a clean-up reaches
      every store whatever another holds.
    - Browser: a page changes nothing in the app and speaks for its own tab only;
      every tab is its web view, and none is lost while closing succeeds. The
      theme that is detected is whole, and its reading does not panic on
      well-formed preferences; a prompt is only asked for with its description.
    Examples evaluated by the kernel show where the code departs from its own
    documentation: repeated output after an anchor, a flush that forgets late
    output, a snapshot whose stamp lags, a late frame that is repeated, an exit
    delivered twice or dropped, a stranded resume, a gate that a failed request
    opens, a stale daemon that is killed with its sessions.

    ** Parameters

    Third-party code is a parameter or a class with the laws the source relies
    on: the vt100 parser, serde's JSON (a round trip), SHA-256 (its output
    length), base64, the kernel's process facts, the answers of the file system,
    of git, of ps and kill, of Tauri, macOS and remote calls, the crate url,
    floating-point operations. Concrete instances
    ([RecordingVt], [ToySerde], [fake_kernel], [ToyWorld]) satisfy the laws and
    carry the examples.

    ** Not modelled, and next

    - logger.rs: output. The scripts that browser.rs injects into pages are
      JavaScript; the order and backing of windows are calls into AppKit.
    - The other commands of the desktop shells (src-tauri/src/lib.rs,
      src-electron) forward calls to grove-core; the front end is TypeScript, the
      command line tools are Go. *)

From stdpp Require Export base tactics list gmap strings.
From Stdlib Require Export ZArith Lia.

#[global] Open Scope Z_scope.

(** * Rust results *)

Inductive result (A E : Type) : Type :=
| Ok (a : A)
| Err (e : E).
Arguments Ok {A E} a.
Arguments Err {A E} e.

(** The [?] operator: [let? x := m in k] returns early on [Err]. *)
Declare Scope rust_scope.
Delimit Scope rust_scope with rust.

Definition result_bind {A B E} (m : result A E) (k : A -> result B E) : result B E :=
  match m with
  | Ok a => k a
  | Err e => Err e
  end.

Notation "'let?' x ':=' m 'in' k" := (result_bind m (fun x => k))
  (at level 10, x pattern, m at level 200, k at level 200) : rust_scope.

Definition result_map {A B E} (f : A -> B) (m : result A E) : result B E :=
  match m with
  | Ok a => Ok (f a)
  | Err e => Err e
  end.

Definition is_ok {A E} (r : result A E) : bool :=
  match r with Ok _ => true | Err _ => false end.

#[export] Instance result_eq_dec {A E} `{EqDecision A} `{EqDecision E} :
  EqDecision (result A E).
Proof. solve_decision. Defined.

Lemma result_bind_ok {A B E} (m : result A E) (k : A -> result B E) b :
  result_bind m k = Ok b <-> exists a, m = Ok a /\ k a = Ok b.
Proof.
  destruct m as [a|e]; simpl; split.
  - eauto.
  - intros (a' & [= <-] & H). done.
  - done.
  - intros (a' & H & _). done.
Qed.

(** * Bytes and strings *)

(** A byte is a [Z]; [bytes_ok] says every element fits in a [u8]. A Rust
    [String] or [&str] is the list of its UTF-8 bytes. *)
Abbreviation bytes := (list Z).

Definition byte_ok (b : Z) : Prop := 0 <= b < 256.
Definition bytes_ok (l : bytes) : Prop := Forall byte_ok l.

(** The bytes of a string literal. *)
Definition str (s : string) : bytes :=
  (fun a => Z.of_nat (Ascii.nat_of_ascii a)) <$> String.list_ascii_of_string s.

Definition bytes_eqb (a b : bytes) : bool := bool_decide (a = b).

Lemma bytes_eqb_eq a b : bytes_eqb a b = true <-> a = b.
Proof. apply bool_decide_eq_true. Qed.
Lemma bytes_eqbP a b : reflect (a = b) (bytes_eqb a b).
Proof. apply bool_decide_reflect. Qed.
Lemma bytes_eqb_refl a : bytes_eqb a a = true.
Proof. by apply bytes_eqb_eq. Qed.
Lemma bytes_eqb_ne a b : a <> b -> bytes_eqb a b = false.
Proof. apply bool_decide_eq_false_2. Qed.

(** [Vec::len] as a machine integer. *)
Definition zlen {A} (l : list A) : Z := Z.of_nat (length l).

(** [&l[a..b]] for indices that are in range. *)
Definition slice {A} (l : list A) (a b : Z) : list A :=
  take (Z.to_nat (b - a)) (drop (Z.to_nat a) l).

(** [l[i]] for an index that is in range. *)
Definition byte_at (l : bytes) (i : Z) : Z := nth (Z.to_nat i) l 0.

Lemma zlen_nonneg {A} (l : list A) : 0 <= zlen l.
Proof. unfold zlen; lia. Qed.

Lemma zlen_nil {A} : zlen (@nil A) = 0.
Proof. done. Qed.

Lemma zlen_cons {A} (x : A) l : zlen (x :: l) = 1 + zlen l.
Proof. unfold zlen; simpl; lia. Qed.

Lemma zlen_app {A} (l k : list A) : zlen (l ++ k) = zlen l + zlen k.
Proof. unfold zlen; rewrite length_app; lia. Qed.

Lemma zlen_zero_nil {A} (l : list A) : zlen l = 0 -> l = [].
Proof. destruct l; [done|]. rewrite zlen_cons. pose proof (zlen_nonneg l). lia. Qed.

Create HintDb grove discriminated.
Create Rewrite HintDb zlen.
#[export] Hint Rewrite @zlen_nil @zlen_cons @zlen_app : zlen.
#[export] Hint Resolve zlen_nonneg : grove.

(** Normalise lengths, then linear arithmetic. *)
Ltac zlen_lia :=
  autorewrite with zlen in *;
  repeat match goal with
  | |- context [zlen ?l] =>
      lazymatch goal with
      | H : 0 <= zlen l |- _ => fail
      | _ => pose proof (zlen_nonneg l)
      end
  | H : context [zlen ?l] |- _ =>
      lazymatch goal with
      | H' : 0 <= zlen l |- _ => fail
      | _ => pose proof (zlen_nonneg l)
      end
  end;
  lia.

(** A slice that starts at the end of a known prefix. *)
Lemma slice_app_exact {A} (p m r : list A) a b :
  a = zlen p -> b = zlen p + zlen m -> slice (p ++ m ++ r) a b = m.
Proof.
  intros -> ->. unfold slice, zlen.
  rewrite drop_app_length' by lia.
  by rewrite take_app_length' by lia.
Qed.

Lemma drop_app_exact {A} (p r : list A) a :
  a = zlen p -> drop (Z.to_nat a) (p ++ r) = r.
Proof. intros ->. unfold zlen. by rewrite drop_app_length' by lia. Qed.

Lemma slice_length {A} (l : list A) a b :
  0 <= a <= b -> b <= zlen l -> zlen (slice l a b) = b - a.
Proof. unfold slice, zlen. intros. rewrite length_take, length_drop. lia. Qed.

Lemma slice_app_l {A} (l r : list A) a b :
  0 <= a <= b -> b <= zlen l -> slice (l ++ r) a b = slice l a b.
Proof.
  unfold slice, zlen. intros.
  rewrite drop_app_le by lia. rewrite take_app_le; [done|].
  rewrite length_drop. lia.
Qed.

Lemma byte_at_app_l l r i :
  0 <= i < zlen l -> byte_at (l ++ r) i = byte_at l i.
Proof. unfold byte_at, zlen. intros. rewrite app_nth1; [done|lia]. Qed.

Lemma bytes_ok_app l r : bytes_ok (l ++ r) <-> bytes_ok l /\ bytes_ok r.
Proof. apply Forall_app. Qed.

Lemma bytes_ok_slice l a b : bytes_ok l -> bytes_ok (slice l a b).
Proof. intros. by apply Forall_take, Forall_drop. Qed.
#[export] Hint Resolve bytes_ok_slice : grove.

Lemma slice_drop {A} (l : list A) a b :
  0 <= a <= b -> slice l a b ++ drop (Z.to_nat b) l = drop (Z.to_nat a) l.
Proof.
  intros. unfold slice.
  replace (Z.to_nat b) with (Z.to_nat (b - a) + Z.to_nat a)%nat by lia.
  rewrite Nat.add_comm, <- drop_drop. apply take_drop.
Qed.

(** * Machine integers *)

(** [x as uN]: wrap to [w] bits. *)
Definition wrap (w z : Z) : Z := z mod 2 ^ w.

Definition u8_max : Z := 2 ^ 8 - 1.
Definition u16_max : Z := 2 ^ 16 - 1.
Definition u32_max : Z := 2 ^ 32 - 1.
Definition u64_max : Z := 2 ^ 64 - 1.

Definition saturating_sub (a b : Z) : Z := Z.max 0 (a - b).

Lemma wrap_range w z : 0 <= w -> 0 <= wrap w z < 2 ^ w.
Proof. intros. apply Z.mod_pos_bound. lia. Qed.

Lemma wrap_small w z : 0 <= z < 2 ^ w -> wrap w z = z.
Proof. apply Z.mod_small. Qed.

Lemma wrap_add_wrap_l w a b : wrap w (wrap w a + b) = wrap w (a + b).
Proof. unfold wrap. by rewrite Zplus_mod_idemp_l. Qed.

(** [uN::to_le_bytes] and [uN::from_le_bytes]. *)
Fixpoint to_le_bytes (n : nat) (v : Z) : bytes :=
  match n with
  | O => []
  | S n => v mod 256 :: to_le_bytes n (v / 256)
  end.

Fixpoint from_le_bytes (l : bytes) : Z :=
  match l with
  | [] => 0
  | b :: l => b + 256 * from_le_bytes l
  end.

Lemma length_to_le_bytes n v : length (to_le_bytes n v) = n.
Proof. revert v; induction n; simpl; auto. Qed.

Lemma zlen_to_le_bytes n v : zlen (to_le_bytes n v) = Z.of_nat n.
Proof. unfold zlen. by rewrite length_to_le_bytes. Qed.
#[export] Hint Rewrite @zlen_to_le_bytes : zlen.

Lemma to_le_bytes_ok n v : bytes_ok (to_le_bytes n v).
Proof.
  revert v; induction n; intros; simpl; constructor; [|apply IHn].
  apply Z.mod_pos_bound. lia.
Qed.

Lemma from_to_le_bytes n v :
  0 <= v < 256 ^ Z.of_nat n -> from_le_bytes (to_le_bytes n v) = v.
Proof.
  revert v; induction n; intros v Hv; cbn [to_le_bytes from_le_bytes].
  - simpl in Hv. lia.
  - rewrite IHn.
    + pose proof (Z.div_mod v 256). lia.
    + rewrite Nat2Z.inj_succ, Z.pow_succ_r in Hv by lia.
      split; [apply Z.div_pos; lia|]. apply Z.div_lt_upper_bound; lia.
Qed.

Lemma to_from_le_bytes l :
  bytes_ok l -> to_le_bytes (length l) (from_le_bytes l) = l.
Proof.
  induction 1 as [|b l Hb Hl IH]; [done|]. unfold byte_ok in Hb.
  cbn [length from_le_bytes to_le_bytes].
  rewrite (Z.mul_comm 256), Z.mod_add, Z.mod_small by lia.
  by rewrite Z.div_add, Z.div_small, Z.add_0_l, IH by lia.
Qed.

Lemma from_le_bytes_range l :
  bytes_ok l -> 0 <= from_le_bytes l < 256 ^ zlen l.
Proof.
  induction 1 as [|b l Hb Hl IH]; [done|].
  unfold byte_ok in Hb. cbn [from_le_bytes].
  rewrite zlen_cons, Z.pow_add_r by (auto with grove; lia). lia.
Qed.

Lemma byte_at_slice l i : 0 <= i < zlen l -> [byte_at l i] = slice l i (i + 1).
Proof.
  unfold byte_at, slice, zlen. intros.
  replace (Z.to_nat (i + 1 - i)) with 1%nat by lia.
  rewrite <- (take_drop (Z.to_nat i) l) at 1.
  rewrite app_nth2; rewrite length_take; [|lia].
  replace (_ - _)%nat with 0%nat by lia.
  assert (length (drop (Z.to_nat i) l) <> 0)%nat by (rewrite length_drop; lia).
  by destruct (drop (Z.to_nat i) l).
Qed.

Lemma from_le_slice_range b i j :
  bytes_ok b -> 0 <= i <= j -> j <= zlen b ->
  0 <= from_le_bytes (slice b i j) < 256 ^ (j - i).
Proof.
  intros Hb Hij Hj. rewrite <- (slice_length b i j) by done.
  apply from_le_bytes_range. auto with grove.
Qed.

(** A fixed-width field, decoded and encoded again. *)
Lemma le_slice_reencode b i j n :
  bytes_ok b -> 0 <= i <= j -> j <= zlen b -> j - i = Z.of_nat n ->
  to_le_bytes n (from_le_bytes (slice b i j)) = slice b i j.
Proof.
  intros Hb Hij Hj Hn. pose proof (slice_length b i j Hij Hj) as Hl.
  replace n with (length (slice b i j)) by (unfold zlen in Hl; lia).
  apply to_from_le_bytes. auto with grove.
Qed.

(** * Loops *)

(** A [while] or [loop] as iteration of a body that either continues with a new
    state ([inl]) or leaves the loop with a value ([inr]). *)
Section loop.
Context {S R : Type} (body : S -> S + R).

Fixpoint loop (fuel : nat) (s : S) : option R :=
  match fuel with
  | O => None
  | Datatypes.S fuel =>
      match body s with
      | inl s' => loop fuel s'
      | inr r => Some r
      end
  end.

(** The unbounded loop, as a relation. *)
Inductive loops : S -> R -> Prop :=
| loops_done s r : body s = inr r -> loops s r
| loops_step s s' r : body s = inl s' -> loops s' r -> loops s r.

Lemma loop_loops fuel s r : loop fuel s = Some r -> loops s r.
Proof.
  revert s; induction fuel as [|fuel IH]; simpl; intros s; [done|].
  destruct (body s) eqn:E; intros H; simplify_eq.
  - eapply loops_step; eauto.
  - by apply loops_done.
Qed.

Lemma loops_functional s r r' : loops s r -> loops s r' -> r = r'.
Proof.
  intros H; revert r'. induction H as [s r E|s s' r E _ IH]; intros r' H'.
  - inversion H'; congruence.
  - inversion H' as [? ? E'|? s'' ? E']; [congruence|].
    apply IH. congruence.
Qed.

(** A property every iteration keeps holds in the state that leaves the loop. *)
Lemma loops_invariant (I : S -> Prop) s r :
  (forall s s', I s -> body s = inl s' -> I s') ->
  I s -> loops s r -> exists s', I s' /\ body s' = inr r.
Proof.
  intros HI H Hl. induction Hl as [s r E|s s' r E _ IH]; [by exists s|].
  apply IH. by eapply HI.
Qed.

(** A natural measure that every iteration decreases bounds the fuel. *)
Context (m : S -> nat).

Lemma loop_total (I : S -> Prop) fuel s :
  (forall s s', I s -> body s = inl s' -> I s' /\ (m s' < m s)%nat) ->
  I s -> (m s < fuel)%nat -> exists r, loop fuel s = Some r.
Proof.
  intros Hdec. revert s. induction fuel as [|fuel IH]; intros s HI Hm; [lia|].
  simpl. destruct (body s) as [s'|r] eqn:E; [|eauto].
  destruct (Hdec _ _ HI E). apply IH; [done|lia].
Qed.

(** What the relation computes, a sufficiently fuelled loop computes. *)
Lemma loops_loop (I : S -> Prop) fuel s r :
  (forall s s', I s -> body s = inl s' -> I s' /\ (m s' < m s)%nat) ->
  I s -> (m s < fuel)%nat -> loops s r -> loop fuel s = Some r.
Proof.
  intros Hdec HI Hm Hr. destruct (loop_total I fuel s) as [r' Hr']; auto.
  rewrite Hr'. f_equal. eapply loops_functional; eauto using loop_loops.
Qed.
End loop.

(** * Transition systems *)

(** What every step keeps holds in every reachable state. *)
Lemma rtc_invariant {A} (R : relation A) (I : A -> Prop) x y :
  (forall x y, I x -> R x y -> I y) -> I x -> rtc R x y -> I y.
Proof. intros HI Hx H. induction H; eauto. Qed.

Lemma existsb_id {A} (f : A -> bytes) id l : existsb (fun e => bytes_eqb (f e) id) l = true <-> id ∈ (f <$> l).
Proof.
  rewrite existsb_exists, list_elem_of_fmap. split.
  - intros (x & Hx & Ex). apply bytes_eqb_eq in Ex. exists x. by rewrite list_elem_of_In.
  - intros (x & -> & Hx). exists x. rewrite <- list_elem_of_In. split; [done|apply bytes_eqb_refl].
Qed.
Lemma existsb_id_false {A} (f : A -> bytes) id l :
  existsb (fun e => bytes_eqb (f e) id) l = false <-> id ∉ (f <$> l).
Proof. rewrite <- existsb_id. by destruct (existsb _ _). Qed.

Lemma NoDup_snoc {A} (x : A) l : NoDup l -> x ∉ l -> NoDup (l ++ [x]).
Proof.
  intros Hl Hx. apply NoDup_app. split_and!; [done| |apply NoDup_singleton].
  by intros y Hy ->%list_elem_of_singleton.
Qed.

Lemma Forall_filtered {A} (P Q : A -> Prop) `{forall x, Decision (P x)} l : Forall Q l -> Forall Q (filter P l).
Proof. rewrite !Forall_forall. intros Hl x [_ Hx]%list_elem_of_filter. auto. Qed.

Lemma filter_all {A} (P : A -> Prop) `{forall x, Decision (P x)} l : Forall P l -> filter P l = l.
Proof. induction 1 as [|x l Hx _ IH]; [done|]. rewrite filter_cons_True by done. by f_equal. Qed.

Lemma NoDup_fmap_filter {A B} (f : A -> B) (P : A -> Prop) `{forall x, Decision (P x)} (l : list A) :
  NoDup (f <$> l) -> NoDup (f <$> filter P l).
Proof. intros Hl. eapply sublist_NoDup; [exact Hl|]. apply fmap_sublist, sublist_filter. Qed.

(** A sublist that is as long as the list is the list. *)
Lemma sublist_full {A} (l k : list A) :
  l `sublist_of` k -> (length k <= length l)%nat -> l = k.
Proof.
  induction 1 as [|x l k H IH|x l k H _]; simpl; intros Hl; [done|f_equal; auto with lia|].
  apply sublist_length in H. lia.
Qed.

(** * Finite ranges *)

(** A boolean property of a small range of integers, checked by evaluation. *)
Lemma below_cases (f : Z -> bool) n b :
  forallb f (seqZ 0 n) = true -> 0 <= b < n -> f b = true.
Proof.
  intros H Hb. rewrite forallb_forall in H. apply H.
  apply list_elem_of_In, elem_of_seqZ. lia.
Qed.

(** * Bit operations stay within the width *)

Lemma u32_ones x : 0 <= x <= u32_max <-> 0 <= x /\ Z.land x (Z.ones 32) = x.
Proof.
  unfold u32_max. rewrite Z.land_ones by lia. split.
  - intros. split; [lia|]. apply Z.mod_small. lia.
  - intros [? <-]. pose proof (Z.mod_pos_bound x (2 ^ 32)). lia.
Qed.

Lemma lor_u32 x y : 0 <= x <= u32_max -> 0 <= y <= u32_max -> 0 <= Z.lor x y <= u32_max.
Proof.
  rewrite !u32_ones. intros [Hx Ex] [Hy Ey]. split; [by apply Z.lor_nonneg|].
  by rewrite Z.land_lor_distr_l, Ex, Ey.
Qed.

Lemma land_u32 x y : 0 <= x <= u32_max -> 0 <= Z.land x y <= u32_max.
Proof.
  rewrite !u32_ones. intros [Hx Ex]. split; [apply Z.land_nonneg; by left|].
  by rewrite <- Z.land_assoc, (Z.land_comm y), Z.land_assoc, Ex.
Qed.
