(* ===== verification/Utf8.v ===== *)
(** UTF-8 as the Rust standard library reads it: [str::from_utf8],
    [String::from_utf8_lossy] and the helpers on [str] that the modelled code
    calls ([lines], [trim_end_matches], [starts_with], [find]). A Rust string is
    the list of its UTF-8 bytes. Nothing of this file models code under src/: it
    is the part of the standard library the other files stand on. *)

From S2P Require Import Prelude.

(** * Decoding one scalar value *)

Definition is_cont (b : Z) : bool := (128 <=? b) && (b <=? 191).

Definition in_range (lo hi b : Z) : bool := (lo <=? b) && (b <=? hi).

Definition utf8_char_width (b : Z) : Z :=
  if b <? 128 then 1
  else if in_range 194 223 b then 2
  else if in_range 224 239 b then 3
  else if in_range 240 244 b then 4
  else 0.

(** The second byte of a three or four byte sequence. *)
Definition second3_ok (b0 b1 : Z) : bool :=
  if b0 =? 224 then in_range 160 191 b1
  else if b0 =? 237 then in_range 128 159 b1
  else is_cont b1.

Definition second4_ok (b0 b1 : Z) : bool :=
  if b0 =? 240 then in_range 144 191 b1
  else if b0 =? 244 then in_range 128 143 b1
  else is_cont b1.

(** The next chunk of [core::str::lossy]: the length of a well-formed scalar
    value, or of the maximal ill-formed prefix that one U+FFFD replaces. A read
    past the end sees 0, which is never a continuation byte. *)
Inductive chunk :=
| Valid (n : nat)
| Invalid (n : nat).

Definition utf8_next (l : bytes) : chunk :=
  match l with
  | [] => Invalid 0
  | b0 :: t =>
      let g i := nth i t 0 in
      let w := utf8_char_width b0 in
      if w =? 1 then Valid 1
      else if w =? 2 then if is_cont (g 0%nat) then Valid 2 else Invalid 1
      else if w =? 3 then
        if second3_ok b0 (g 0%nat)
        then if is_cont (g 1%nat) then Valid 3 else Invalid 2
        else Invalid 1
      else if w =? 4 then
        if second4_ok b0 (g 0%nat)
        then if is_cont (g 1%nat)
             then if is_cont (g 2%nat) then Valid 4 else Invalid 3
             else Invalid 2
        else Invalid 1
      else Invalid 1
  end.

Fixpoint utf8_chunks (fuel : nat) (l : bytes) : list (bool * bytes) :=
  match fuel, l with
  | O, _ | _, [] => []
  | S fuel, _ =>
      match utf8_next l with
      | Valid n => (true, take n l) :: utf8_chunks fuel (drop n l)
      | Invalid n => (false, take n l) :: utf8_chunks fuel (drop n l)
      end
  end.

(** [str::from_utf8(l).is_ok()]. *)
Definition utf8_valid (l : bytes) : bool :=
  forallb fst (utf8_chunks (length l) l).

(** [str::from_utf8]. *)
Definition from_utf8 (l : bytes) : option bytes :=
  if utf8_valid l then Some l else None.

(** U+FFFD. *)
Definition replacement : bytes := [239; 191; 189].

(** [String::from_utf8_lossy]. *)
Definition from_utf8_lossy (l : bytes) : bytes :=
  concat ((fun c : bool * bytes => if c.1 then c.2 else replacement)
            <$> utf8_chunks (length l) l).

Definition is_ascii (b : Z) : bool := (0 <=? b) && (b <? 128).

(** * Lemmas *)

Definition chunk_len (c : chunk) : nat :=
  match c with Valid n | Invalid n => n end.

Lemma cont_in_range t i : is_cont (nth i t 0) = true -> (i < length t)%nat.
Proof.
  intros H. destruct (decide (i < length t)%nat); [done|].
  rewrite nth_overflow in H by lia. done.
Qed.

Lemma in_range_nonzero t i lo hi :
  0 < lo -> in_range lo hi (nth i t 0) = true -> (i < length t)%nat.
Proof.
  intros Hlo H. destruct (decide (i < length t)%nat); [done|].
  rewrite nth_overflow in H by lia. unfold in_range in H. lia.
Qed.

Lemma second3_in_range b0 t i :
  second3_ok b0 (nth i t 0) = true -> (i < length t)%nat.
Proof.
  unfold second3_ok. intros HH; repeat case_match;
    eauto using cont_in_range; eapply in_range_nonzero; try exact HH; lia.
Qed.

Lemma second4_in_range b0 t i :
  second4_ok b0 (nth i t 0) = true -> (i < length t)%nat.
Proof.
  unfold second4_ok. intros HH; repeat case_match;
    eauto using cont_in_range; eapply in_range_nonzero; try exact HH; lia.
Qed.

#[local] Hint Resolve cont_in_range second3_in_range second4_in_range : grove.

Lemma utf8_next_len l :
  l <> [] -> (1 <= chunk_len (utf8_next l) <= length l)%nat.
Proof.
  destruct l as [|b0 t]; [done|]. intros _. unfold utf8_next.
  repeat case_match; simpl;
    repeat match goal with
    | H : is_cont _ = true |- _ => apply cont_in_range in H
    | H : second3_ok _ _ = true |- _ => apply second3_in_range in H
    | H : second4_ok _ _ = true |- _ => apply second4_in_range in H
    end; lia.
Qed.

(** A well-formed scalar value stays one whatever follows it. *)
Lemma utf8_next_app l r n :
  utf8_next l = Valid n -> utf8_next (l ++ r) = Valid n.
Proof.
  destruct l as [|b0 t]; [done|]. simpl.
  repeat case_match; intros; simplify_eq; auto;
    repeat match goal with
    | H : ?f (nth ?i t 0) = true, H' : ?f (nth ?i (t ++ r) 0) = false |- _ =>
        rewrite app_nth1 in H' by eauto with grove; congruence
    | H : ?f ?b (nth ?i t 0) = true, H' : ?f ?b (nth ?i (t ++ r) 0) = false |- _ =>
        rewrite app_nth1 in H' by eauto with grove; congruence
    end.
Qed.

Lemma utf8_chunks_fuel f l :
  (length l <= f)%nat -> utf8_chunks f l = utf8_chunks (length l) l.
Proof.
  revert l. induction (lt_wf f) as [f _ IH]; intros l Hf.
  destruct l as [|b t]; [by destruct f|].
  destruct f as [|f]; [simpl in Hf; lia|].
  pose proof (utf8_next_len (b :: t) ltac:(done)) as Hn.
  set (l := b :: t) in *.
  assert (Hdrop : forall n, (1 <= n <= length l)%nat ->
    utf8_chunks f (drop n l) = utf8_chunks (length t) (drop n l)).
  { intros n Hn'. assert (length (drop n l) <= length t)%nat.
    { rewrite length_drop. subst l; simpl in *; lia. }
    subst l; simpl length in Hf.
    rewrite (IH f) by lia. symmetry.
    destruct (decide (length t = f)) as [->|]; [apply IH; lia|].
    apply IH; lia. }
  replace (utf8_chunks (length l) l) with (utf8_chunks (S (length t)) l)
    by (subst l; done).
  subst l. cbn [utf8_chunks].
  destruct (utf8_next (b :: t)) as [n|n]; simpl chunk_len in Hn;
    f_equal; by apply Hdrop.
Qed.

Lemma utf8_chunks_cons l :
  l <> [] ->
  utf8_chunks (length l) l =
    match utf8_next l with
    | Valid n => (true, take n l) :: utf8_chunks (length (drop n l)) (drop n l)
    | Invalid n => (false, take n l) :: utf8_chunks (length (drop n l)) (drop n l)
    end.
Proof.
  intros Hl. pose proof (utf8_next_len l Hl) as Hn.
  destruct l as [|b t]; [done|].
  cbn [utf8_chunks length].
  destruct (utf8_next (b :: t)) as [n|n]; simpl chunk_len in Hn; f_equal;
    apply utf8_chunks_fuel; rewrite length_drop; simpl in *; lia.
Qed.

Lemma utf8_chunks_concat l : concat (snd <$> utf8_chunks (length l) l) = l.
Proof.
  remember (length l) as k eqn:Hk. revert l Hk.
  induction (lt_wf k) as [k _ IH]; intros l ->.
  destruct (decide (l = [])) as [->|Hl]; [done|].
  pose proof (utf8_next_len l Hl) as Hn.
  rewrite utf8_chunks_cons by done.
  destruct (utf8_next l) as [n|n]; simpl in Hn |- *;
    rewrite (IH (length (drop n l))); rewrite ?length_drop;
      rewrite ?take_drop; auto; lia.
Qed.

(** Lossy decoding changes nothing of a well-formed string. *)
Lemma from_utf8_lossy_valid l : utf8_valid l = true -> from_utf8_lossy l = l.
Proof.
  unfold utf8_valid, from_utf8_lossy. intros H.
  etransitivity; [|apply utf8_chunks_concat]. f_equal.
  revert H. induction (utf8_chunks (length l) l) as [|[[] c] cs IH];
    simpl; intros H; [done| |done].
  f_equal. by apply IH.
Qed.

Lemma utf8_valid_app l r :
  utf8_valid l = true -> utf8_valid (l ++ r) = utf8_valid r.
Proof.
  remember (length l) as k eqn:Hk. revert l Hk.
  induction (lt_wf k) as [k _ IH]; intros l -> Hl.
  destruct (decide (l = [])) as [->|Hne]; [done|].
  pose proof (utf8_next_len l Hne) as Hn.
  unfold utf8_valid in *. rewrite utf8_chunks_cons in Hl by done.
  destruct (utf8_next l) as [n|n] eqn:E; [|done]. simpl in Hn, Hl.
  rewrite (utf8_chunks_cons (l ++ r)) by (by destruct l).
  rewrite (utf8_next_app _ _ _ E). simpl.
  rewrite drop_app_le by lia.
  eapply IH; [|reflexivity|exact Hl]. rewrite length_drop; lia.
Qed.

Lemma utf8_valid_ascii l : Forall (fun b => is_ascii b = true) l -> utf8_valid l = true.
Proof.
  intros H. unfold utf8_valid. induction H as [|b l Hb Hl IH]; [done|].
  rewrite utf8_chunks_cons by done.
  assert (utf8_next (b :: l) = Valid 1) as ->.
  { unfold utf8_next, utf8_char_width, is_ascii in *.
    destruct (b <? 128) eqn:?; [done|lia]. }
  done.
Qed.

Lemma replacement_valid r : utf8_valid (replacement ++ r) = utf8_valid r.
Proof. by apply utf8_valid_app. Qed.

Lemma utf8_next_take l n : utf8_next l = Valid n -> utf8_next (take n l) = Valid n.
Proof.
  destruct l as [|b0 [|b1 [|b2 [|b3 t]]]]; [done|..];
    simpl; repeat case_match; intros; simplify_eq; cbn in *;
    repeat match goal with H : ?x = true |- context [?x] => rewrite H end;
    repeat match goal with H : ?x = false |- context [?x] => rewrite H end;
    done.
Qed.

(** What lossy decoding produces is always well formed. *)
Lemma from_utf8_lossy_is_valid l : utf8_valid (from_utf8_lossy l) = true.
Proof.
  unfold from_utf8_lossy. remember (length l) as k eqn:Hk. revert l Hk.
  induction (lt_wf k) as [k _ IH]; intros l ->.
  destruct (decide (l = [])) as [->|Hne]; [done|].
  pose proof (utf8_next_len l Hne) as Hn.
  rewrite utf8_chunks_cons by done.
  destruct (utf8_next l) as [n|n] eqn:E; simpl in Hn; cbn [fmap list_fmap concat fst snd].
  - rewrite utf8_valid_app.
    + eapply IH; [|reflexivity]. rewrite length_drop; lia.
    + pose proof (utf8_next_take _ _ E) as Ht.
      assert (take n l <> []) by (intros H; apply (f_equal length) in H;
        rewrite length_take in H; simpl in H; lia).
      unfold utf8_valid. rewrite utf8_chunks_cons, Ht by done.
      rewrite drop_ge by (rewrite length_take; lia). done.
  - rewrite replacement_valid. eapply IH; [|reflexivity]. rewrite length_drop; lia.
Qed.

(** * Splitting and parsing *)

(** [slice::split] on one byte: ["a;"] has the two pieces ["a"] and [""]. *)
Fixpoint split_on (sep : Z) (l : bytes) : list bytes :=
  match l with
  | [] => [[]]
  | b :: l =>
      if b =? sep then [] :: split_on sep l
      else match split_on sep l with
           | p :: ps => (b :: p) :: ps
           | [] => [[b]]
           end
  end.

(** [iter().position(|b| b == x)]. *)
Fixpoint position (x : Z) (l : bytes) : option nat :=
  match l with
  | [] => None
  | b :: l => if b =? x then Some 0%nat else S <$> position x l
  end.

Definition dec_digit (b : Z) : option Z :=
  if in_range 48 57 b then Some (b - 48) else None.

Definition dec_step (acc : option Z) (b : Z) : option Z :=
  match acc, dec_digit b with
  | Some v, Some d => Some (10 * v + d)
  | _, _ => None
  end.

(** [str::parse::<uN>]: an optional leading plus, at least one digit, and no
    overflow past [max]. *)
Definition parse_unsigned (max : Z) (s : bytes) : option Z :=
  let ds := match s with 43 :: ((_ :: _) as t) => t | _ => s end in
  match ds with
  | [] => None
  | _ =>
      match fold_left dec_step ds (Some 0) with
      | Some v => if v <=? max then Some v else None
      | None => None
      end
  end.

Definition parse_u32 : bytes -> option Z := parse_unsigned u32_max.

(** [char::to_digit(16)] of an ASCII byte. *)
Definition hex_digit (b : Z) : option Z :=
  if in_range 48 57 b then Some (b - 48)
  else if in_range 97 102 b then Some (b - 97 + 10)
  else if in_range 65 70 b then Some (b - 65 + 10)
  else None.

Fixpoint starts_with (p l : bytes) : bool :=
  match p, l with
  | [], _ => true
  | x :: p, y :: l => (x =? y) && starts_with p l
  | _, [] => false
  end.

Definition strip_prefix (p l : bytes) : option bytes :=
  if starts_with p l then Some (drop (length p) l) else None.

(** Decimal rendering of a non-negative integer ([format!("{}", n)]). *)
Fixpoint dec_digits (fuel : nat) (n : Z) : bytes :=
  match fuel with
  | O => []
  | S fuel =>
      if n <? 10 then [48 + n] else dec_digits fuel (n / 10) ++ [48 + n mod 10]
  end.

Definition show_dec (n : Z) : bytes := dec_digits (S (Z.to_nat (Z.log2 n))) n.
Definition show_int (n : Z) : bytes := if n <? 0 then str "-" ++ show_dec (- n) else show_dec n.

(** * Trimming and lines *)

Definition LF : Z := 10.

(** The white space [str::trim] removes: one code point at the head of the list,
    and, on the reversed list, at the end. *)
Definition ws_head (l : bytes) : nat :=
  match l with
  | (9 | 10 | 11 | 12 | 13 | 32) :: _ => 1%nat
  | 194 :: (133 | 160) :: _ => 2%nat
  | 225 :: 154 :: 128 :: _ => 3%nat
  | 226 :: 128 :: b :: _ => if in_range 128 138 b || (b =? 168) || (b =? 169) || (b =? 175) then 3%nat else 0%nat
  | 226 :: 129 :: 159 :: _ => 3%nat
  | 227 :: 128 :: 128 :: _ => 3%nat
  | _ => 0%nat
  end.
Definition ws_last (l : bytes) : nat :=
  match l with
  | (9 | 10 | 11 | 12 | 13 | 32) :: _ => 1%nat
  | (133 | 160) :: 194 :: _ => 2%nat
  | 128 :: 154 :: 225 :: _ => 3%nat
  | 159 :: 129 :: 226 :: _ => 3%nat
  | 128 :: 128 :: 227 :: _ => 3%nat
  | b :: 128 :: 226 :: _ => if in_range 128 138 b || (b =? 168) || (b =? 169) || (b =? 175) then 3%nat else 0%nat
  | _ => 0%nat
  end.

Fixpoint strip_while (ws : bytes -> nat) (fuel : nat) (l : bytes) : bytes :=
  match fuel, ws l with
  | O, _ | _, O => l
  | S fuel, n => strip_while ws fuel (drop n l)
  end.

Definition trim (s : bytes) : bytes :=
  let s := strip_while ws_head (length s) s in
  rev (strip_while ws_last (length s) (rev s)).

Definition ends_with_lf (s : bytes) : bool := bool_decide (last s = Some LF).

(** [str::lines]: pieces that a line feed ends, each without one carriage return
    before it, and a last piece that none ends, if it is not empty. *)
Definition strip_cr (l : bytes) : bytes :=
  if bool_decide (last l = Some 13) then take (length l - 1) l else l.
Definition str_lines (s : bytes) : list bytes :=
  let ps := split_on LF s in
  (strip_cr <$> take (length ps - 1) ps) ++ filter (fun p => p <> []) (drop (length ps - 1) ps).

Lemma position_Some x l k :
  position x l = Some k ->
  (k < length l)%nat /\ nth k l 0 = x /\ position x (take k l) = None /\
  drop k l = x :: drop (S k) l.
Proof.
  revert k. induction l as [|b l IH]; intros k H; simpl in *; [done|].
  destruct (b =? x) eqn:E; simplify_eq/=.
  - split_and!; [lia|lia|done|]. f_equal; lia.
  - destruct (position x l) as [k'|] eqn:Ek; simplify_eq/=.
    destruct (IH k' eq_refl) as (? & ? & Ht & Hd). rewrite E, Ht.
    split_and!; auto with lia.
Qed.

Lemma split_on_nonempty sep l : split_on sep l <> [].
Proof. destruct l; simpl; repeat case_match; done. Qed.

Lemma parse_u32_range s v : parse_u32 s = Some v -> v <= u32_max.
Proof. unfold parse_u32, parse_unsigned. repeat case_match; intros; simplify_eq; lia. Qed.

Lemma parse_u32_nonneg s v : parse_u32 s = Some v -> 0 <= v.
Proof.
  unfold parse_u32, parse_unsigned.
  assert (Hf : forall l acc v, (forall a, acc = Some a -> 0 <= a) ->
    fold_left dec_step l acc = Some v -> 0 <= v).
  { intros l. induction l as [|b l IH]; intros acc v' Hacc; simpl; [auto|].
    apply IH. intros a. unfold dec_step, dec_digit, in_range.
    repeat case_match; intros; simplify_eq. specialize (Hacc _ eq_refl). lia. }
  intros H. repeat case_match; simplify_eq;
    match goal with E : fold_left _ _ _ = Some _ |- _ => eapply Hf, E; naive_solver lia end.
Qed.
