(* ===== verification/Text.v ===== *)
(** Text: what the standard library's string functions do on the UTF-8 bytes of a
    string (finding, splitting, trimming, ASCII case, taking characters), and
    ordered sets. *)

From Stdlib Require Import Sorted.
From S2P Require Import Prelude Utf8.

(** * Ordered sets *)

(** A [BTreeSet] is its elements in ascending order. *)
Class StrictOrder (A : Type) := {
  ltb : A -> A -> bool;
  ltb_irrefl : forall x, ltb x x = false;
  ltb_trans : forall x y z, ltb x y = true -> ltb y z = true -> ltb x z = true;
  ltb_total : forall x y, ltb x y = false -> ltb y x = false -> x = y
}.

#[export] Instance Z_order : StrictOrder Z.
Proof. exists Z.ltb; intros; lia. Defined.

(** Strings compare bytewise. *)
Fixpoint bytes_ltb (a b : bytes) : bool :=
  match a, b with
  | _, [] => false
  | [], _ :: _ => true
  | x :: a, y :: b => (x <? y) || ((x =? y) && bytes_ltb a b)
  end.

#[export] Instance bytes_order : StrictOrder bytes.
Proof.
  exists bytes_ltb.
  - induction x as [|x l IH]; [done|]. cbn. by rewrite Z.ltb_irrefl, Z.eqb_refl.
  - induction x as [|x l IH]; intros [|y k] [|z m]; cbn; try done.
    rewrite !orb_true_iff, !andb_true_iff, !Z.ltb_lt, !Z.eqb_eq.
    intros [?|[-> H1]] [?|[-> H2]]; [left; lia|by left|by left|right; eauto].
  - induction x as [|x l IH]; intros [|y k]; cbn; try done.
    rewrite !orb_false_iff, !andb_false_iff, !Z.ltb_ge. intros [? H1] [? H2].
    assert (x = y) as -> by lia. rewrite Z.eqb_refl in *.
    f_equal. apply IH; [by destruct H1|by destruct H2].
Defined.

Section btree.
Context `{StrictOrder A}.

Fixpoint bt_insert (x : A) (l : list A) : list A :=
  match l with
  | [] => [x]
  | y :: l' => if ltb x y then x :: l else if ltb y x then y :: bt_insert x l' else l
  end.

Definition bt_of_list (l : list A) : list A := foldl (fun s x => bt_insert x s) [] l.

Lemma elem_of_bt_insert x y l : x ∈ bt_insert y l <-> x = y \/ x ∈ l.
Proof.
  induction l as [|z l IH]; cbn; [by rewrite list_elem_of_singleton, elem_of_nil; tauto|].
  destruct (ltb y z) eqn:E1; [by rewrite elem_of_cons|].
  destruct (ltb z y) eqn:E2; rewrite ?elem_of_cons; [rewrite IH; tauto|].
  rewrite (ltb_total _ _ E1 E2). tauto.
Qed.

Lemma elem_of_foldl_insert x s l : x ∈ foldl (fun s x => bt_insert x s) s l <-> x ∈ s \/ x ∈ l.
Proof.
  revert s. induction l as [|y l IH]; intros s; cbn; [rewrite elem_of_nil; tauto|].
  rewrite IH, elem_of_bt_insert, elem_of_cons. tauto.
Qed.

Lemma elem_of_bt_of_list x l : x ∈ bt_of_list l <-> x ∈ l.
Proof. unfold bt_of_list. rewrite elem_of_foldl_insert, elem_of_nil. tauto. Qed.

Definition ascending : list A -> Prop := StronglySorted (fun x y => ltb x y = true).

Lemma bt_insert_ascending x l : ascending l -> ascending (bt_insert x l).
Proof.
  unfold ascending. induction l as [|y l IH]; cbn; intros Hs; [repeat constructor|].
  apply StronglySorted_inv in Hs as [Hs Hy].
  destruct (ltb x y) eqn:E1.
  - constructor; [by constructor|]. constructor; [done|].
    eapply Forall_impl; [exact Hy|]. intros z Hz. by eapply ltb_trans.
  - destruct (ltb y x) eqn:E2; [|by constructor]. constructor; [auto|].
    apply Forall_forall. intros z [->|Hz]%elem_of_bt_insert; [done|].
    rewrite Forall_forall in Hy. auto.
Qed.

Lemma bt_of_list_ascending l : ascending (bt_of_list l).
Proof.
  unfold bt_of_list. assert (Hg : forall s, ascending s -> ascending (foldl (fun s x => bt_insert x s) s l)).
  { induction l as [|y l IH]; intros s Hs; [done|]. cbn. auto using bt_insert_ascending. }
  apply Hg. constructor.
Qed.
End btree.

(** * Finding *)

(** [str::contains]. *)
Fixpoint contains (needle s : bytes) : bool :=
  starts_with needle s || match s with [] => false | _ :: s => contains needle s end.

(** [str::find] and [str::rfind]: the index of the first and the last match. *)
Fixpoint find (needle s : bytes) : option nat :=
  if starts_with needle s then Some 0%nat
  else match s with [] => None | _ :: s => S <$> find needle s end.

Fixpoint rfind (needle s : bytes) : option nat :=
  match s with
  | [] => if starts_with needle [] then Some 0%nat else None
  | _ :: t =>
      match rfind needle t with
      | Some k => Some (S k)
      | None => if starts_with needle s then Some 0%nat else None
      end
  end.

Definition ends_with (p s : bytes) : bool := starts_with (rev p) (rev s).
Definition strip_suffix (p s : bytes) : option bytes :=
  if ends_with p s then Some (take (length s - length p) s) else None.

Definition split_once (sep s : bytes) : option (bytes * bytes) :=
  (fun k => (take k s, drop (k + length sep) s)) <$> find sep s.

(** * Trimming *)

(** [trim_end_matches] of a nonempty pattern. *)
Fixpoint trim_end_fuel (fuel : nat) (p s : bytes) : bytes :=
  match fuel, strip_suffix p s with
  | S fuel, Some s => trim_end_fuel fuel p s
  | _, _ => s
  end.
Definition trim_end_matches (p s : bytes) : bytes := trim_end_fuel (length s) p s.

(** [split_whitespace]. *)
Definition flush (word : bytes) : list bytes := if bool_decide (word = []) then [] else [word].
Fixpoint words (fuel : nat) (word s : bytes) : list bytes :=
  match fuel with
  | O => flush word
  | S fuel =>
      match s with
      | [] => flush word
      | b :: t =>
          match ws_head s with
          | O => words fuel (word ++ [b]) t
          | n => flush word ++ words fuel [] (drop n s)
          end
      end
  end.
Definition split_whitespace (s : bytes) : list bytes := words (S (length s)) [] s.

(** [Vec::join]. *)
Fixpoint join (sep : bytes) (l : list bytes) : bytes :=
  match l with
  | [] => []
  | [s] => s
  | s :: l => s ++ sep ++ join sep l
  end.

(** * Characters *)

Definition to_ascii_lowercase (b : Z) : Z := if in_range 65 90 b then b + 32 else b.
Definition ascii_lower (s : bytes) : bytes := to_ascii_lowercase <$> s.
Definition eq_ignore_ascii_case (a b : bytes) : bool := bytes_eqb (ascii_lower a) (ascii_lower b).

(** [s.chars().take(n)], collected. *)
Fixpoint take_chars (n : nat) (s : bytes) : bytes :=
  match n, s with
  | S n, b :: _ => let w := Z.to_nat (Z.max 1 (utf8_char_width b)) in take w s ++ take_chars n (drop w s)
  | _, _ => []
  end.

Definition parse_u64 : bytes -> option Z := parse_unsigned u64_max.

(** * Laws *)

Lemma bytes_ltb_irrefl x : bytes_ltb x x = false.
Proof. exact (@ltb_irrefl _ bytes_order x). Qed.

Lemma starts_with_iff p s : starts_with p s = true <-> exists r, s = p ++ r.
Proof.
  revert s. induction p as [|x p IH]; intros [|y s]; cbn; try (by split; eauto); [split; [done|by intros [? ?]]|].
  rewrite andb_true_iff, Z.eqb_eq, IH. split; [intros [-> [r ->]]; eauto|intros [r [= -> ->]]; eauto].
Qed.

Lemma starts_with_app p r : starts_with p (p ++ r) = true.
Proof. apply starts_with_iff. eauto. Qed.

Lemma ends_with_iff p s : ends_with p s = true <-> exists r, s = r ++ p.
Proof.
  unfold ends_with. rewrite starts_with_iff. split; intros [r E].
  - exists (rev r). by rewrite <- (rev_involutive s), E, rev_app_distr, rev_involutive.
  - exists (rev r). by rewrite E, rev_app_distr.
Qed.

Lemma strip_prefix_Some p s r : strip_prefix p s = Some r <-> s = p ++ r.
Proof.
  unfold strip_prefix. destruct (starts_with p s) eqn:E.
  - apply starts_with_iff in E as [t ->]. rewrite drop_app_length. split; [by intros [= ->]|].
    intros Ha. by simplify_list_eq.
  - split; [done|]. intros ->. by rewrite starts_with_app in E.
Qed.

Lemma strip_suffix_Some p s r : strip_suffix p s = Some r <-> s = r ++ p.
Proof.
  unfold strip_suffix. destruct (ends_with p s) eqn:E.
  - apply ends_with_iff in E as [t ->]. rewrite length_app, Nat.add_sub, take_app_length.
    split; [by intros [= ->]|]. intros Ha. by simplify_list_eq.
  - split; [done|]. intros ->. rewrite <- not_true_iff_false in E. destruct E. apply ends_with_iff. eauto.
Qed.

Lemma contains_iff p s : contains p s = true <-> exists a b, s = a ++ p ++ b.
Proof.
  induction s as [|c s IH]; cbn [contains]; rewrite orb_true_iff.
  - split; [intros [E|?]; [|done]|].
    + apply starts_with_iff in E as [b E]. by exists [], b.
    + intros ([|] & b & E); [|done]. left. apply starts_with_iff. eauto.
  - rewrite IH, starts_with_iff. split.
    + intros [[b ->]|(a & b & ->)]; [by exists [], b|by exists (c :: a), b].
    + intros ([|x a] & b & E); [left; eauto|right]. injection E as -> ->. eauto.
Qed.

Lemma find_Some p s k :
  find p s = Some k -> exists r, s = take k s ++ p ++ r /\ length (take k s) = k.
Proof.
  revert k. induction s as [|c s IH]; intros k; cbn [find].
  - destruct (starts_with p []) eqn:E; [|done]. intros [= <-]. apply starts_with_iff in E as [r E]. by exists r.
  - destruct (starts_with p (c :: s)) eqn:E.
    + intros [= <-]. apply starts_with_iff in E as [r E]. by exists r.
    + destruct (find p s) as [k'|]; [|done]. intros [= <-].
      destruct (IH k' eq_refl) as (r & Hs & Hl). exists r. cbn. rewrite <- Hs, Hl. done.
Qed.

(** A separator that does not occur before. *)
Lemma find_first c p r : c ∉ p -> find [c] (p ++ c :: r) = Some (length p).
Proof.
  induction p as [|x p IH]; cbn; intros Hc; [by rewrite Z.eqb_refl|].
  rewrite not_elem_of_cons in Hc. destruct (Z.eqb_spec c x); [intuition congruence|]. cbn. by rewrite IH by tauto.
Qed.

Lemma split_once_first c p r : c ∉ p -> split_once [c] (p ++ c :: r) = Some (p, r).
Proof.
  intros Hc. unfold split_once. rewrite find_first by done. cbn. f_equal. f_equal; [by rewrite take_app_length|].
  rewrite Nat.add_comm. change (1 + length p)%nat with (S (length p)). rewrite cons_middle, app_assoc.
  apply drop_app_length'. rewrite length_app. cbn. lia.
Qed.

Lemma trim_end_none p s : ends_with p s = false -> trim_end_matches p s = s.
Proof. intros E. unfold trim_end_matches. destruct (length s); [done|]. cbn. unfold strip_suffix. by rewrite E. Qed.

Lemma trim_end_fuel_enough p s n m :
  p <> [] -> (length s <= n)%nat -> (length s <= m)%nat -> trim_end_fuel n p s = trim_end_fuel m p s.
Proof.
  intros Hp. revert s m. induction n as [|n IH]; intros s m Hn Hm; destruct m as [|m]; cbn; try done.
  - destruct s; [|cbn in *; lia]. destruct (strip_suffix p []) as [r|] eqn:E; [|done].
    apply strip_suffix_Some in E. by destruct r, p.
  - destruct s; [|cbn in *; lia]. destruct (strip_suffix p []) as [r|] eqn:E; [|done].
    apply strip_suffix_Some in E. by destruct r, p.
  - destruct (strip_suffix p s) as [r|] eqn:E; [|done]. apply strip_suffix_Some in E as ->.
    rewrite length_app in *. destruct p; [done|]. cbn in *. apply IH; lia.
Qed.

Lemma trim_end_app p s : p <> [] -> trim_end_matches p (s ++ p) = trim_end_matches p s.
Proof.
  intros Hp. unfold trim_end_matches. rewrite length_app. destruct (length p) as [|k] eqn:Hk; [by destruct p|].
  rewrite Nat.add_succ_r. cbn. rewrite (proj2 (strip_suffix_Some p (s ++ p) s) eq_refl).
  apply trim_end_fuel_enough; [done|lia..].
Qed.

(** What was trimmed, and that it was all of it. *)
Lemma trim_end_spec p s :
  p <> [] -> ends_with p (trim_end_matches p s) = false /\
    exists n, s = trim_end_matches p s ++ concat (replicate n p).
Proof.
  intros Hp. unfold trim_end_matches. assert (Hf : (length s <= length s)%nat) by done. revert Hf.
  generalize (length s) at 2 3 4 as f. intros f. revert s. induction f as [|f IH]; intros s Hf; cbn [trim_end_fuel].
  - destruct s; [|cbn in *; lia]. split; [|exists 0%nat; done].
    destruct (ends_with p []) eqn:E; [|done]. apply ends_with_iff in E as [r E]. by destruct r, p.
  - destruct (strip_suffix p s) as [r|] eqn:E.
    + apply strip_suffix_Some in E as ->. rewrite length_app in Hf. destruct p as [|c p]; [done|].
      destruct (IH r) as [He [n Hn]]; [cbn in *; lia|]. split; [done|]. exists (S n).
      replace (S n) with (n + 1)%nat by lia. rewrite replicate_add, concat_app. cbn [replicate concat].
      by rewrite app_nil_r, app_assoc, <- Hn.
    + split; [|exists 0%nat; cbn; by rewrite app_nil_r]. unfold strip_suffix in E. by destruct (ends_with p s).
Qed.

Lemma trim_end_idemp p s : p <> [] -> trim_end_matches p (trim_end_matches p s) = trim_end_matches p s.
Proof. intros Hp. apply trim_end_none. by apply trim_end_spec. Qed.

(** A pattern without the separator is at the end of the last piece, if at all. *)
Lemma starts_with_sep p c a b : c ∉ p -> starts_with p (a ++ c :: b) = starts_with p a.
Proof.
  revert a. induction p as [|x p IH]; intros a Hc; [done|]. rewrite not_elem_of_cons in Hc.
  destruct a as [|y a]; cbn; [destruct (Z.eqb_spec x c); [intuition congruence|done]|]. by rewrite IH by tauto.
Qed.

Lemma ends_with_sep p c a b : c ∉ p -> ends_with p (a ++ c :: b) = ends_with p b.
Proof.
  intros Hc. unfold ends_with. rewrite rev_app_distr. cbn. rewrite <- app_assoc. cbn.
  apply starts_with_sep. by rewrite list_elem_of_In, <- in_rev, <- list_elem_of_In.
Qed.

(** ** Pieces *)

Lemma split_on_sep sep p r : sep ∉ p -> split_on sep (p ++ sep :: r) = p :: split_on sep r.
Proof.
  induction p as [|x p IH]; cbn; intros Hp; [by rewrite Z.eqb_refl|]. rewrite not_elem_of_cons in Hp.
  destruct (Z.eqb_spec x sep); [intuition congruence|]. by rewrite IH by tauto.
Qed.

Lemma split_on_piece sep p : sep ∉ p -> split_on sep p = [p].
Proof.
  induction p as [|x p IH]; cbn; intros Hp; [done|]. rewrite not_elem_of_cons in Hp.
  destruct (Z.eqb_spec x sep); [intuition congruence|]. by rewrite IH by tauto.
Qed.

Lemma split_on_app_sep sep a b : split_on sep (a ++ sep :: b) = split_on sep a ++ split_on sep b.
Proof.
  induction a as [|x a IH]; cbn; [by rewrite Z.eqb_refl|]. destruct (x =? sep); cbn; [by rewrite IH|].
  rewrite IH. destruct (split_on sep a) eqn:E; [by apply split_on_nonempty in E|done].
Qed.

Lemma split_on_pieces sep s : Forall (fun p => sep ∉ p) (split_on sep s).
Proof.
  induction s as [|x s IH]; cbn; [constructor; [apply not_elem_of_nil|constructor]|].
  destruct (Z.eqb_spec x sep); [constructor; [apply not_elem_of_nil|done]|].
  destruct IH as [|p ps Hp Hps]; constructor; try done.
  - rewrite list_elem_of_singleton. congruence.
  - rewrite not_elem_of_cons. split; [congruence|done].
Qed.

Lemma join_cons sep p ps : ps <> [] -> join sep (p :: ps) = p ++ sep ++ join sep ps.
Proof. by destruct ps. Qed.

Lemma split_join sep ps : ps <> [] -> Forall (fun p => sep ∉ p) ps -> split_on sep (join [sep] ps) = ps.
Proof.
  intros Hne Hl. induction Hl as [|p ps Hp Hps IH]; [done|]. destruct ps as [|q ps]; [by apply split_on_piece|].
  rewrite join_cons by done. cbn [app]. rewrite split_on_sep by done. by rewrite IH.
Qed.

Lemma join_split sep s : join [sep] (split_on sep s) = s.
Proof.
  induction s as [|x s IH]; cbn; [done|]. pose proof (split_on_nonempty sep s) as Hne.
  destruct (Z.eqb_spec x sep); [subst; rewrite join_cons by done; cbn; by rewrite IH|].
  destruct (split_on sep s) as [|p [|q ps]]; [done|cbn in *; by rewrite IH|].
  rewrite join_cons in * by done. cbn in *. by rewrite IH.
Qed.

Lemma join_app sep a b : a <> [] -> b <> [] -> join sep (a ++ b) = join sep a ++ sep ++ join sep b.
Proof.
  intros Ha Hb. induction a as [|p [|q a] IH]; [done| |].
  - cbn [app]. by rewrite join_cons by done.
  - cbn [app] in *. rewrite (join_cons sep p (q :: a ++ b)), (join_cons sep p (q :: a)), IH by done.
    by rewrite <- !app_assoc.
Qed.

(** [lines] of lines that were all ended. *)
Definition unlines (ls : list bytes) : bytes := concat ((fun l => l ++ [LF]) <$> ls).

Lemma split_on_unlines ls : Forall (fun l => LF ∉ l) ls -> split_on LF (unlines ls) = ls ++ [[]].
Proof.
  induction 1 as [|l ls Hl _ IH]; [done|]. unfold unlines. rewrite fmap_cons. cbn [concat].
  rewrite <- app_assoc. cbn [app]. rewrite split_on_sep by done. by rewrite <- IH.
Qed.

Lemma str_lines_unlines ls :
  Forall (fun l => (LF ∉ l) /\ last l <> Some 13) ls -> str_lines (unlines ls) = ls.
Proof.
  intros Hls. unfold str_lines. rewrite split_on_unlines.
  - rewrite length_app. cbn [length]. rewrite Nat.add_sub, take_app_length, drop_app_length. cbn. rewrite app_nil_r.
    induction Hls as [|l ls [_ Hl] _ IH]; [done|]. cbn. f_equal; [|done].
    unfold strip_cr. by rewrite bool_decide_eq_false_2.
  - eapply Forall_impl; [exact Hls|]. intros l Hl. apply Hl.
Qed.

Lemma filter_iff_in {A} (P Q : A -> Prop) `{!forall x, Decision (P x)} `{!forall x, Decision (Q x)} (l : list A) :
  (forall x, x ∈ l -> P x <-> Q x) -> filter P l = filter Q l.
Proof.
  induction l as [|x l IH]; intros Hl; [done|].
  assert (Hx : P x <-> Q x) by (apply Hl, list_elem_of_here).
  assert (Ht : filter P l = filter Q l) by (apply IH; intros y Hy; apply Hl; by apply list_elem_of_further).
  destruct (decide (P x)).
  - rewrite !filter_cons_True by tauto. by rewrite Ht.
  - rewrite !filter_cons_False by tauto. done.
Qed.

Lemma filter_full {A} (P : A -> Prop) `{!forall x, Decision (P x)} (l : list A) :
  (forall x, x ∈ l -> P x) -> filter P l = l.
Proof.
  induction l as [|x l IH]; intros Hl; [done|]. rewrite filter_cons_True by apply Hl, list_elem_of_here.
  f_equal. apply IH. intros y Hy. by apply Hl, list_elem_of_further.
Qed.

(** ** Trimming *)

Lemma strip_while_zero ws f l : ws l = 0%nat -> strip_while ws f l = l.
Proof. intros E. destruct f; cbn; [done|]. by rewrite E. Qed.

Lemma strip_while_stops ws f l :
  (forall k, ws k <= length k)%nat -> (length l <= f)%nat -> ws (strip_while ws f l) = 0%nat.
Proof.
  intros Hws. revert l. induction f as [|f IH]; intros l Hl; cbn.
  - pose proof (Hws l). destruct (ws l); [done|lia].
  - destruct (ws l) as [|n] eqn:E; [done|]. apply IH. rewrite length_drop. lia.
Qed.

Lemma ws_head_le k : (ws_head k <= length k)%nat.
Proof. unfold ws_head. repeat case_match; cbn; lia. Qed.
Lemma ws_last_le k : (ws_last k <= length k)%nat.
Proof. unfold ws_last. repeat case_match; cbn; lia. Qed.

(** A prefix has white space at its head only if the whole has. *)
Lemma ws_head_prefix a b : ws_head (a ++ b) = 0%nat -> ws_head a = 0%nat.
Proof.
  destruct a as [|x [|y [|z a]]]; [done|..]; cbn [app]; unfold ws_head; repeat case_match; intros; simplify_eq/=; try done.
Qed.

(** Visible ASCII is no white space, at either end. *)
Lemma ws_visible c l : 33 <= c <= 126 -> ws_head (c :: l) = 0%nat /\ ws_last (c :: l) = 0%nat.
Proof.
  intros Hc. split; unfold ws_head, ws_last, in_range; repeat case_match; try done; try lia.
  all: rewrite ?orb_true_iff, ?andb_true_iff, ?Z.leb_le, ?Z.eqb_eq in *; lia.
Qed.

Lemma trim_fixed s : ws_head s = 0%nat -> ws_last (rev s) = 0%nat -> trim s = s.
Proof. intros H1 H2. unfold trim. rewrite (strip_while_zero ws_head), (strip_while_zero ws_last) by done. apply rev_involutive. Qed.

Lemma strip_while_suffix ws f l : exists p, l = p ++ strip_while ws f l.
Proof.
  revert l. induction f as [|f IH]; intros l; cbn; [by exists []|]. destruct (ws l) as [|n]; [by exists []|].
  destruct (IH (drop (S n) l)) as [p Hp]. exists (take (S n) l ++ p). by rewrite <- app_assoc, <- Hp, take_drop.
Qed.

Lemma trim_trimmed s : ws_head (trim s) = 0%nat /\ ws_last (rev (trim s)) = 0%nat.
Proof.
  unfold trim. set (t := strip_while ws_head _ s). rewrite rev_involutive. split.
  - destruct (strip_while_suffix ws_last (length t) (rev t)) as [p Hp].
    apply (ws_head_prefix _ (rev p)). rewrite <- rev_app_distr, <- Hp, rev_involutive.
    apply strip_while_stops; [apply ws_head_le|done].
  - apply strip_while_stops; [apply ws_last_le|by rewrite length_rev].
Qed.

Lemma trim_idemp s : trim (trim s) = trim s.
Proof. apply trim_fixed; apply trim_trimmed. Qed.

(** ** Characters *)

Lemma take_chars_nil n : take_chars n [] = [].
Proof. by destruct n. Qed.

Lemma take_chars_S n b s w :
  w = Z.to_nat (Z.max 1 (utf8_char_width b)) ->
  take_chars (S n) (b :: s) = take w (b :: s) ++ take_chars n (drop w (b :: s)).
Proof. by intros ->. Qed.

Lemma take_chars_idemp n s : take_chars n (take_chars n s) = take_chars n s.
Proof.
  revert s. induction n as [|n IH]; intros s; [by destruct s|]. destruct s as [|b s]; [done|].
  remember (Z.to_nat (Z.max 1 (utf8_char_width b))) as w eqn:Hw.
  rewrite (take_chars_S n b s w) by done. set (t := take_chars n (drop w (b :: s))).
  assert (Hl : exists l, take w (b :: s) = b :: l) by (destruct w as [|w]; [lia|]; cbn; eauto).
  destruct Hl as [l Hl]. rewrite Hl. cbn [app]. rewrite (take_chars_S n b (l ++ t) w) by done.
  change (b :: l ++ t) with ((b :: l) ++ t). rewrite <- Hl. destruct (Nat.le_gt_cases w (length (b :: s))).
  - rewrite take_app_length' by (rewrite length_take; lia). rewrite drop_app_length' by (rewrite length_take; lia).
    f_equal. apply IH.
  - assert (t = []) as -> by (unfold t; rewrite drop_ge by lia; apply take_chars_nil).
    rewrite !app_nil_r, (take_ge (b :: s)), take_ge, drop_ge, take_chars_nil by lia. apply app_nil_r.
Qed.
