(* ===== verification/Paths.v ===== *)
(** Paths: the operations of [std::path::Path] on Unix, on the bytes of a path.
    A path that an operation returns is written with single separators. *)

From S2P Require Import Prelude Utf8 Text.

Inductive Component := RootDir | CurDir | ParentDir | Normal (name : bytes).

(** [Path::components] on Unix: repeated and trailing separators and inner dots
    disappear, a leading dot stays. *)
Definition piece_component (first : bool) (p : bytes) : list Component :=
  if bytes_eqb p [] then []
  else if bytes_eqb p (str ".") then if first then [CurDir] else []
  else if bytes_eqb p (str "..") then [ParentDir]
  else [Normal p].

Definition components (p : bytes) : list Component :=
  match split_on 47 p with
  | [] :: rest => (if bytes_eqb p [] then [] else [RootDir]) ++ concat (piece_component false <$> rest)
  | first :: rest => piece_component true first ++ concat (piece_component false <$> rest)
  | [] => []
  end.


#[export] Instance Component_eq_dec : EqDecision Component.
Proof. solve_decision. Defined.

Definition component_text (c : Component) : bytes :=
  match c with
  | RootDir => []
  | CurDir => str "."
  | ParentDir => str ".."
  | Normal name => name
  end.
Definition path_of (cs : list Component) : bytes :=
  match cs with
  | [RootDir] => str "/"
  | _ => join (str "/") (component_text <$> cs)
  end.

(** [Path::join]: an absolute path replaces. *)
Definition path_join (p q : bytes) : bytes :=
  if starts_with (str "/") q then q
  else if bool_decide (p = []) || ends_with (str "/") p then p ++ q
  else p ++ str "/" ++ q.

(** [Path::parent] and [Path::file_name]. *)
Definition parent (p : bytes) : option bytes :=
  match rev (components p) with
  | [] | RootDir :: _ => None
  | _ :: cs => Some (path_of (rev cs))
  end.
Definition file_name (p : bytes) : option bytes :=
  match rev (components p) with
  | Normal name :: _ => Some name
  | _ => None
  end.

(** [Path::file_stem] of a name: the part before the last dot, unless the dot
    comes first. [Path::with_extension]. *)
Definition name_stem (name : bytes) : bytes :=
  match rfind (str ".") name with
  | None | Some O => name
  | Some i => take i name
  end.
Definition with_extension (p ext : bytes) : bytes :=
  match file_name p with
  | None => p
  | Some name => path_join (default [] (parent p)) (name_stem name ++ str "." ++ ext)
  end.

(** [Path::strip_prefix], [Path::starts_with] and [==] compare components. *)
Fixpoint strip_components (base cs : list Component) : option (list Component) :=
  match base, cs with
  | [], _ => Some cs
  | b :: base, c :: cs => if bool_decide (b = c) then strip_components base cs else None
  | _ :: _, [] => None
  end.
Definition path_strip_prefix (base p : bytes) : option bytes :=
  path_of <$> strip_components (components base) (components p).
Definition path_starts_with (base p : bytes) : bool :=
  match strip_components (components base) (components p) with Some _ => true | None => false end.
Definition path_eqb (p q : bytes) : bool := bool_decide (components p = components q).

(** * Laws *)

(** A name of one directory. *)
Definition proper (q : bytes) : Prop := (47 ∉ q) /\ q <> [] /\ q <> str "." /\ q <> str "..".

Definition comps (absolute : bool) (pieces : list bytes) : list Component :=
  match pieces with
  | [] :: rest => (if absolute then [RootDir] else []) ++ concat (piece_component false <$> rest)
  | first :: rest => piece_component true first ++ concat (piece_component false <$> rest)
  | [] => []
  end.

Lemma components_comps p : components p = comps (negb (bytes_eqb p [])) (split_on 47 p).
Proof.
  unfold components, comps. destruct (split_on 47 p) as [|[|b first] rest]; try done. by destruct (bytes_eqb p []).
Qed.

Lemma comps_snoc a l q : l <> [] -> proper q -> comps a (l ++ [q]) = comps a l ++ [Normal q].
Proof.
  intros Hl (_ & Hne & Hd & Hdd).
  assert (Hq : concat (piece_component false <$> [q]) = [Normal q]).
  { cbn. unfold piece_component. by rewrite !bytes_eqb_ne by done. }
  destruct l as [|[|b first] rest]; [by destruct Hl|..]; cbn [comps app]; rewrite fmap_app, concat_app, Hq, app_assoc; done.
Qed.

Lemma components_join p q : proper q -> components (path_join p q) = components p ++ [Normal q].
Proof.
  intros Hq. pose proof Hq as (Hs & Hne & Hd & Hdd). unfold path_join.
  assert (starts_with (str "/") q = false) as ->.
  { destruct q as [|b q]; [done|]. change (str "/") with [47]. cbn [starts_with]. destruct (Z.eqb_spec 47 b); [|done]. subst. destruct Hs. apply list_elem_of_here. }
  assert (Hp : forall a, bytes_eqb (a ++ 47 :: q) [] = false) by (intros a; apply bytes_eqb_ne; by destruct a).
  assert (Hsplit : forall a, split_on 47 (a ++ 47 :: q) = split_on 47 a ++ [q])
    by (intros a; by rewrite split_on_app_sep, (split_on_piece _ q)).
  destruct (bool_decide_reflect (p = [])) as [->|Hpn]; cbn [orb].
  - rewrite components_comps. cbn [app]. rewrite split_on_piece by done. rewrite bytes_eqb_ne by done. cbn.
    destruct q as [|b q]; [done|]. unfold piece_component. by rewrite !bytes_eqb_ne by done.
  - destruct (ends_with (str "/") p) eqn:E.
    + apply ends_with_iff in E as [a ->]. change (str "/") with [47] in *. rewrite <- app_assoc. cbn [app].
      rewrite !components_comps, Hp, Hsplit, split_on_app_sep. cbn [split_on].
      rewrite (bytes_eqb_ne (a ++ [47])) by done. rewrite comps_snoc by (done || apply split_on_nonempty).
      f_equal. pose proof (split_on_nonempty 47 a).
      destruct (split_on 47 a) as [|[|b f] r]; [tauto|..]; cbn [comps app]; rewrite fmap_app, concat_app; cbn;
        by rewrite app_nil_r.
    + change (str "/" ++ q) with (47 :: q). rewrite !components_comps, Hp, Hsplit, (bytes_eqb_ne p) by done.
      apply comps_snoc; [apply split_on_nonempty|done].
Qed.

Lemma strip_components_app a r : strip_components a (a ++ r) = Some r.
Proof. induction a as [|c a IH]; [done|]. cbn. by rewrite bool_decide_eq_true_2. Qed.
