(* ===== verification/Framing.v ===== *)
(** The binary stream-frame codec of the daemon's STREAM socket
    (grove-core/src/daemon/framing.rs): frames, the encoder, the incremental
    decoder with its buffer, and the per-session sequence guard. *)

From S2P Require Import Prelude Utf8.

(** * Constants and data *)

Definition STREAM_FRAME_MAGIC : bytes := str "GCKL".
Definition STREAM_FRAME_HEADER_BYTES : Z := 4 + 1 + 2 + 8 + 4.
Definition MAX_STREAM_FRAME_PAYLOAD : Z := 16 * 1024 * 1024.
Definition MAX_SESSION_ID_BYTES : Z := 4096.

Definition KIND_DATA : Z := 2.
Definition KIND_RESIZE : Z := 3.
Definition KIND_EXIT : Z := 16.

Inductive StreamFrameKind := Data | Resize | Exit.

#[export] Instance StreamFrameKind_eq_dec : EqDecision StreamFrameKind.
Proof. solve_decision. Defined.

Definition kind_to_u8 (k : StreamFrameKind) : Z :=
  match k with
  | Data => KIND_DATA
  | Resize => KIND_RESIZE
  | Exit => KIND_EXIT
  end.

Definition kind_from_u8 (v : Z) : option StreamFrameKind :=
  if v =? KIND_DATA then Some Data
  else if v =? KIND_RESIZE then Some Resize
  else if v =? KIND_EXIT then Some Exit
  else None.

Record ExitStatus := mkExitStatus {
  exit_code : option Z;
  exit_signal : option Z;
}.

Record StreamFrame := mkStreamFrame {
  kind : StreamFrameKind;
  session_id : bytes;
  seq : Z;
  payload : bytes;
}.

#[export] Instance StreamFrame_eq_dec : EqDecision StreamFrame.
Proof. solve_decision. Defined.

Inductive FrameError :=
| BadMagic
| UnknownKind (k : Z)
| OversizedPayload (len cap : Z)
| OversizedSessionId (len cap : Z)
| InvalidSessionId.

#[export] Instance FrameError_eq_dec : EqDecision FrameError.
Proof. solve_decision. Defined.

(** * Constructors and typed payloads *)

Definition data (sid : bytes) (s : Z) (p : bytes) : StreamFrame :=
  mkStreamFrame Data sid s p.

Definition resize (sid : bytes) (s cols rows : Z) : StreamFrame :=
  mkStreamFrame Resize sid s (to_le_bytes 2 cols ++ to_le_bytes 2 rows).

Definition as_resize (f : StreamFrame) : option (Z * Z) :=
  if negb (bool_decide (kind f = Resize)) || negb (zlen (payload f) =? 4) then None
  else Some (from_le_bytes (slice (payload f) 0 2),
             from_le_bytes (slice (payload f) 2 4)).

(** The JSON of an exit payload is serde_json's: a parameter. *)
Section exit_payload.
Context (to_json : ExitStatus -> bytes) (from_json : bytes -> option ExitStatus).

Definition exit (sid : bytes) (s : Z) (status : ExitStatus) : StreamFrame :=
  mkStreamFrame Exit sid s (to_json status).

Definition as_exit (f : StreamFrame) : option ExitStatus :=
  if negb (bool_decide (kind f = Exit)) then None else from_json (payload f).
End exit_payload.

(** * Encoding *)

(** [encode] appends to [out], and leaves it alone on an error. *)
Definition encode (f : StreamFrame) (out : bytes) : result bytes FrameError :=
  let sid := session_id f in
  if MAX_SESSION_ID_BYTES <? zlen sid
  then Err (OversizedSessionId (zlen sid) MAX_SESSION_ID_BYTES)
  else if MAX_STREAM_FRAME_PAYLOAD <? zlen (payload f)
  then Err (OversizedPayload (zlen (payload f)) MAX_STREAM_FRAME_PAYLOAD)
  else
    Ok (out ++ STREAM_FRAME_MAGIC ++ [kind_to_u8 (kind f)]
          ++ to_le_bytes 2 (wrap 16 (zlen sid))
          ++ to_le_bytes 8 (seq f)
          ++ to_le_bytes 4 (wrap 32 (zlen (payload f)))
          ++ sid ++ payload f).

Definition to_bytes (f : StreamFrame) : result bytes FrameError := encode f [].

(** * The incremental decoder: its whole state is the unconsumed buffer *)

Record StreamDecoder := mkStreamDecoder { buf : bytes }.

Definition decoder_new : StreamDecoder := mkStreamDecoder [].

Definition feed (d : StreamDecoder) (bs : bytes) : StreamDecoder :=
  mkStreamDecoder (buf d ++ bs).

Definition buffered_len (d : StreamDecoder) : Z := zlen (buf d).

Definition next_frame (d : StreamDecoder)
    : result (option StreamFrame) FrameError * StreamDecoder :=
  let b := buf d in
  if zlen b <? STREAM_FRAME_HEADER_BYTES then (Ok None, d)
  else if negb (bytes_eqb (slice b 0 4) STREAM_FRAME_MAGIC) then (Err BadMagic, d)
  else
    match kind_from_u8 (byte_at b 4) with
    | None => (Err (UnknownKind (byte_at b 4)), d)
    | Some k =>
        let sid_len := from_le_bytes (slice b 5 7) in
        let sq := from_le_bytes (slice b 7 15) in
        let payload_len := from_le_bytes (slice b 15 19) in
        if MAX_SESSION_ID_BYTES <? sid_len
        then (Err (OversizedSessionId sid_len MAX_SESSION_ID_BYTES), d)
        else if MAX_STREAM_FRAME_PAYLOAD <? payload_len
        then (Err (OversizedPayload payload_len MAX_STREAM_FRAME_PAYLOAD), d)
        else
          let sid_start := STREAM_FRAME_HEADER_BYTES in
          let sid_end := sid_start + sid_len in
          let payload_end := sid_end + payload_len in
          if zlen b <? payload_end then (Ok None, d)
          else
            match from_utf8 (slice b sid_start sid_end) with
            | None => (Err InvalidSessionId, d)
            | Some sid =>
                (Ok (Some (mkStreamFrame k sid sq (slice b sid_end payload_end))),
                 mkStreamDecoder (drop (Z.to_nat payload_end) b))
            end
    end.

(** The consumer's loop: pull frames until the decoder wants more bytes or
    reports a desync. *)
Definition drain_body (s : list StreamFrame * StreamDecoder)
    : list StreamFrame * StreamDecoder
      + (list StreamFrame * option FrameError * StreamDecoder) :=
  let (acc, d) := s in
  match next_frame d with
  | (Ok (Some f), d') => inl (acc ++ [f], d')
  | (Ok None, d') => inr (acc, None, d')
  | (Err e, d') => inr (acc, Some e, d')
  end.

Definition drain (d : StreamDecoder)
    : option (list StreamFrame * option FrameError * StreamDecoder) :=
  loop drain_body (S (length (buf d))) ([], d).

(** [stream_reader] of daemon/client.rs over the chunks the socket returns: feed
    a chunk, drain it, stop at the first desync. The frames are those handed to
    the dispatcher, in order. *)
Fixpoint stream_reader (d : StreamDecoder) (reads : list bytes)
    : option (list StreamFrame * option FrameError * StreamDecoder) :=
  match reads with
  | [] => Some ([], None, d)
  | chunk :: reads =>
      match drain (feed d chunk) with
      | None => None
      | Some (fs, Some e, d') => Some (fs, Some e, d')
      | Some (fs, None, d') =>
          match stream_reader d' reads with
          | None => None
          | Some (fs', e, d'') => Some (fs ++ fs', e, d'')
          end
      end
  end.

(** What a sender that encodes frame after frame into one buffer writes. *)
Fixpoint encode_all (fs : list StreamFrame) (out : bytes) : result bytes FrameError :=
  match fs with
  | [] => Ok out
  | f :: fs => result_bind (encode f out) (encode_all fs)
  end.

(** * Sequence guard *)

Definition seq_is_monotonic (prev : option Z) (next : Z) : bool :=
  match prev with
  | None => true
  | Some p => p <=? next
  end.

Record SeqTracker := mkSeqTracker { last_seq : option Z }.

Definition tracker_new : SeqTracker := mkSeqTracker None.

Definition observe (t : SeqTracker) (s : Z) : bool * SeqTracker :=
  let ok := seq_is_monotonic (last_seq t) s in
  (ok, if ok then mkSeqTracker (Some s) else t).

(** * Well-formedness: what the Rust types guarantee of a frame *)

Definition frame_wf (f : StreamFrame) : Prop :=
  utf8_valid (session_id f) = true /\ bytes_ok (session_id f) /\
  0 <= seq f <= u64_max /\ bytes_ok (payload f).

(** * Lemmas *)

Lemma kind_from_to_u8 k : kind_from_u8 (kind_to_u8 k) = Some k.
Proof. by destruct k. Qed.

Lemma kind_to_from_u8 v k : kind_from_u8 v = Some k -> kind_to_u8 k = v.
Proof. unfold kind_from_u8. repeat case_match; intros; simplify_eq; simpl; lia. Qed.

(** The nineteen header bytes. *)
Definition header (k sid_len sq payload_len : Z) : bytes :=
  STREAM_FRAME_MAGIC ++ [k] ++ to_le_bytes 2 sid_len ++ to_le_bytes 8 sq
    ++ to_le_bytes 4 payload_len.

Lemma encode_ok_inv f out b :
  encode f out = Ok b ->
  zlen (session_id f) <= MAX_SESSION_ID_BYTES /\
  zlen (payload f) <= MAX_STREAM_FRAME_PAYLOAD /\
  b = out ++ header (kind_to_u8 (kind f)) (zlen (session_id f)) (seq f)
               (zlen (payload f)) ++ session_id f ++ payload f.
Proof.
  unfold encode, header. intros H.
  destruct (_ <? zlen (session_id f)) eqn:E1; [done|].
  destruct (_ <? zlen (payload f)) eqn:E2; [done|]. simplify_eq.
  apply Z.ltb_ge in E1, E2. split_and!; [done..|].
  rewrite !wrap_small; unfold MAX_SESSION_ID_BYTES, MAX_STREAM_FRAME_PAYLOAD in *;
    [by rewrite <- !app_assoc|zlen_lia..].
Qed.

Lemma zlen_header k s q p : zlen (header k s q p) = 19.
Proof. done. Qed.

(** What the header fields read back as, with anything behind the header. *)
Section header_fields.
Context (k s q p : Z) (r : bytes).
Context (Hs : 0 <= s <= u16_max) (Hq : 0 <= q <= u64_max) (Hp : 0 <= p <= u32_max).
#[local] Abbreviation hb := (header k s q p ++ r).

Lemma header_magic : slice hb 0 4 = STREAM_FRAME_MAGIC.
Proof. done. Qed.
Lemma header_kind : byte_at hb 4 = k.
Proof. done. Qed.
Lemma header_sid_len : from_le_bytes (slice hb 5 7) = s.
Proof.
  change (slice hb 5 7) with (to_le_bytes 2 s).
  apply from_to_le_bytes. unfold u16_max in *. simpl. lia.
Qed.
Lemma header_seq : from_le_bytes (slice hb 7 15) = q.
Proof.
  change (slice hb 7 15) with (to_le_bytes 8 q).
  apply from_to_le_bytes. unfold u64_max in *. simpl. lia.
Qed.
Lemma header_payload_len : from_le_bytes (slice hb 15 19) = p.
Proof.
  change (slice hb 15 19) with (to_le_bytes 4 p).
  apply from_to_le_bytes. unfold u32_max in *. simpl. lia.
Qed.
End header_fields.

(** One encoded frame, whatever follows it, is decoded and consumed. *)
Lemma next_frame_encoded f b rest :
  frame_wf f -> encode f [] = Ok b ->
  next_frame (mkStreamDecoder (b ++ rest)) = (Ok (Some f), mkStreamDecoder rest).
Proof.
  intros (Hutf & _ & Hseq & _) (Hsid & Hpay & ->)%encode_ok_inv.
  unfold next_frame. cbn [buf app].
  unfold MAX_SESSION_ID_BYTES, MAX_STREAM_FRAME_PAYLOAD, STREAM_FRAME_HEADER_BYTES in *.
  rewrite <- !app_assoc.
  rewrite header_magic, header_kind, kind_from_to_u8.
  pose proof (zlen_nonneg (session_id f)). pose proof (zlen_nonneg (payload f)).
  rewrite header_sid_len, header_seq, header_payload_len
    by (unfold u16_max, u32_max; lia).
  pose proof (zlen_header (kind_to_u8 (kind f)) (zlen (session_id f)) (seq f)
    (zlen (payload f))) as Hh.
  set (h := header _ _ _ _) in *.
  destruct (_ <? 4 + 1 + 2 + 8 + 4) eqn:E1; [zlen_lia|].
  unfold bytes_eqb. rewrite bool_decide_eq_true_2 by done. cbn [negb].
  destruct (4096 <? _) eqn:E2; [lia|].
  destruct (16 * 1024 * 1024 <? _) eqn:E3; [lia|].
  destruct (_ <? _ + zlen (payload f)) eqn:E4; [zlen_lia|].
  rewrite (slice_app_exact h (session_id f)) by lia.
  unfold from_utf8. rewrite Hutf.
  rewrite (app_assoc h), (slice_app_exact (h ++ session_id f)) by zlen_lia.
  rewrite (app_assoc _ (payload f)), drop_app_exact by zlen_lia.
  by destruct f.
Qed.


(** Encoding only ever appends. *)
Lemma encode_app f o o' : encode f (o ++ o') = result_map (app o) (encode f o').
Proof. unfold encode. repeat case_match; simpl; [done..|]. by rewrite <- !app_assoc. Qed.

Lemma encode_all_app fs o o' :
  encode_all fs (o ++ o') = result_map (app o) (encode_all fs o').
Proof.
  revert o'. induction fs as [|f fs IH]; intros o'; simpl; [done|].
  rewrite encode_app. by destruct (encode f o'); simpl.
Qed.

Lemma encode_all_cons f fs b :
  encode_all (f :: fs) [] = Ok b ->
  exists e es, encode f [] = Ok e /\ encode_all fs [] = Ok es /\ b = e ++ es.
Proof.
  simpl. intros (e & He & Hb)%result_bind_ok.
  rewrite <- (app_nil_r e), encode_all_app in Hb.
  destruct (encode_all fs []) as [es|]; simplify_eq/=. eauto.
Qed.

(** More bytes never change what the decoder already decided: a decoded frame
    stays the same, and a desync stays a desync. *)
Lemma next_frame_feed d r :
  bytes_ok (buf d) ->
  match next_frame d with
  | (Ok (Some f), d') => next_frame (feed d r) = (Ok (Some f), feed d' r)
  | (Ok None, d') => d' = d
  | (Err e, d') => d' = d /\ next_frame (feed d r) = (Err e, feed d r)
  end.
Proof.
  destruct d as [b]. unfold feed; cbn [buf]. intros Hok.
  unfold next_frame; cbn [buf].
  unfold STREAM_FRAME_HEADER_BYTES, MAX_SESSION_ID_BYTES, MAX_STREAM_FRAME_PAYLOAD.
  destruct (zlen b <? _) eqn:E1; [done|].
  assert (19 <= zlen b) by lia.
  rewrite zlen_app. pose proof (zlen_nonneg r).
  destruct (zlen b + zlen r <? _) eqn:E1'; [lia|]. clear E1 E1'.
  rewrite !(slice_app_l b r) by lia. rewrite byte_at_app_l by lia.
  destruct (negb _); [done|].
  destruct (kind_from_u8 _) as [k|]; [|done].
  pose proof (from_le_slice_range b 5 7 Hok). pose proof (from_le_slice_range b 15 19 Hok).
  set (sl := from_le_bytes (slice b 5 7)) in *.
  set (pl := from_le_bytes (slice b 15 19)) in *.
  destruct (4096 <? sl) eqn:E2; [done|].
  destruct (_ <? pl) eqn:E3; [done|].
  destruct (zlen b <? _) eqn:E4; [done|].
  destruct (zlen b + zlen r <? _) eqn:E5; [lia|].
  rewrite !(slice_app_l b r) by lia.
  destruct (from_utf8 _) as [sid|]; [|done].
  f_equal; f_equal; rewrite drop_app_le; [done|unfold zlen in *; lia].
Qed.

(** A buffer cut at the field boundaries of its first frame. *)
Lemma frame_fields b sl pl :
  0 <= sl -> 0 <= pl -> 19 <= zlen b ->
  b = (slice b 0 4 ++ [byte_at b 4] ++ slice b 5 7 ++ slice b 7 15 ++ slice b 15 19
         ++ slice b 19 (19 + sl) ++ slice b (19 + sl) (19 + sl + pl))
      ++ drop (Z.to_nat (19 + sl + pl)) b.
Proof.
  intros Hsl Hpl Hb. rewrite byte_at_slice by lia. rewrite <- !app_assoc.
  rewrite !slice_drop by lia. done.
Qed.

(** A decoded frame is exactly what its own encoding puts on the wire, so the
    decoder accepts one byte sequence per frame. *)
Lemma next_frame_reencode d f d' :
  bytes_ok (buf d) -> next_frame d = (Ok (Some f), d') ->
  frame_wf f /\ bytes_ok (buf d') /\
  exists e, encode f [] = Ok e /\ buf d = e ++ buf d'.
Proof.
  destruct d as [b]. cbn [buf]. intros Hok.
  unfold next_frame; cbn [buf]. change STREAM_FRAME_HEADER_BYTES with 19.
  destruct (zlen b <? _) eqn:E1; [done|]. assert (19 <= zlen b) by lia.
  destruct (bytes_eqb _ _) eqn:Em; [|done]. apply bool_decide_eq_true in Em. cbn [negb].
  destruct (kind_from_u8 _) as [k|] eqn:Ek; [|done]. apply kind_to_from_u8 in Ek.
  pose proof (from_le_slice_range b 5 7 Hok ltac:(lia) ltac:(lia)) as Hsl.
  pose proof (from_le_slice_range b 7 15 Hok ltac:(lia) ltac:(lia)) as Hsq.
  pose proof (from_le_slice_range b 15 19 Hok ltac:(lia) ltac:(lia)) as Hpl.
  pose proof (le_slice_reencode b 5 7 2 Hok ltac:(lia) ltac:(lia) eq_refl) as H2.
  pose proof (le_slice_reencode b 7 15 8 Hok ltac:(lia) ltac:(lia) eq_refl) as H8.
  pose proof (le_slice_reencode b 15 19 4 Hok ltac:(lia) ltac:(lia) eq_refl) as H4.
  set (sl := from_le_bytes (slice b 5 7)) in *.
  set (sq := from_le_bytes (slice b 7 15)) in *.
  set (pl := from_le_bytes (slice b 15 19)) in *.
  destruct (_ <? sl) eqn:E2; [done|]. destruct (_ <? pl) eqn:E3; [done|].
  destruct (zlen b <? _ + pl) eqn:E4; [done|].
  unfold from_utf8. destruct (utf8_valid _) eqn:Eu; [|done].
  intros [= <- <-]. cbn [buf].
  split; [|split; [by apply Forall_drop|]].
  { unfold frame_wf; cbn. split_and!; auto with grove; unfold u64_max; simpl in Hsq; lia. }
  unfold encode; cbn [session_id payload kind seq]. rewrite !slice_length by lia.
  replace (19 + sl - 19) with sl by lia.
  replace (19 + sl + pl - (19 + sl)) with pl by lia.
  rewrite E2, E3. eexists; split; [done|].
  rewrite !wrap_small by (simpl in *; lia). rewrite Ek, H2, H8, H4, <- Em.
  apply frame_fields; lia.
Qed.

(** Every decoded frame consumes at least the header. *)
Lemma next_frame_consumes d f d' :
  bytes_ok (buf d) -> next_frame d = (Ok (Some f), d') ->
  bytes_ok (buf d') /\ (length (buf d') + 19 <= length (buf d))%nat.
Proof.
  intros Hok H. destruct (next_frame_reencode _ _ _ Hok H) as (_ & Hok' & e & He & Hb).
  split; [done|]. rewrite Hb, length_app.
  apply encode_ok_inv in He as (_ & _ & ->).
  pose proof (zlen_header (kind_to_u8 (kind f)) (zlen (session_id f)) (seq f)
    (zlen (payload f))) as Hh.
  unfold zlen in *. rewrite !length_app. simpl length. lia.
Qed.

(** ** The drain loop *)

Lemma drain_decreases (s s' : list StreamFrame * StreamDecoder) :
  bytes_ok (buf s.2) -> drain_body s = inl s' ->
  bytes_ok (buf s'.2) /\ (length (buf s'.2) < length (buf s.2))%nat.
Proof.
  destruct s as [acc d]. unfold drain_body; cbn [snd]. intros Hok H.
  destruct (next_frame d) as [[[f|]|e] d'] eqn:E; simplify_eq/=.
  apply next_frame_consumes in E as []; [|done]. split; [done|lia].
Qed.

(** Draining always ends, within as many rounds as the buffer has bytes. *)
Theorem drain_total d : bytes_ok (buf d) -> exists r, drain d = Some r.
Proof.
  intros Hok. unfold drain.
  apply (loop_total drain_body (fun s => length (buf s.2)) (fun s => bytes_ok (buf s.2)));
    [apply drain_decreases|done|simpl; lia].
Qed.

Lemma drain_loops d r : bytes_ok (buf d) -> loops drain_body ([], d) r -> drain d = Some r.
Proof.
  intros Hok H. unfold drain.
  eapply (loops_loop drain_body (fun s => length (buf s.2)) (fun s => bytes_ok (buf s.2)));
    eauto using drain_decreases.
Qed.

(** The decoder's invariant while it reads the encoding of [fs]: what it holds
    and what is still to come are together the encoding of the frames it has
    not delivered yet. *)
Lemma next_frame_stream fs d rest T :
  Forall frame_wf fs -> encode_all fs [] = Ok T -> buf d ++ rest = T -> bytes_ok (buf d) ->
  (next_frame d = (Ok None, d) /\ (rest = [] -> fs = [] /\ d = decoder_new)) \/
  exists f fs' T' d', fs = f :: fs' /\ encode_all fs' [] = Ok T' /\
    next_frame d = (Ok (Some f), d') /\ buf d' ++ rest = T'.
Proof.
  intros Hwf HT Hd Hok. pose proof (next_frame_feed d rest Hok) as Hfeed.
  destruct fs as [|f fs].
  { simpl in HT. simplify_eq. symmetry in HT. apply app_nil in HT as [Hb ->].
    left. destruct d as [b]; simpl in Hb; subst b. done. }
  apply encode_all_cons in HT as (e & es & He & Hes & ->).
  apply Forall_cons in Hwf as [Hf Hwf].
  assert (Hn : next_frame (feed d rest) = (Ok (Some f), mkStreamDecoder es)).
  { unfold feed. rewrite Hd. by apply next_frame_encoded. }
  destruct (next_frame d) as [[[g|]|er] d'] eqn:E.
  - right. rewrite Hn in Hfeed. unfold feed in Hfeed. simplify_eq.
    eexists _, _, _, _. split_and!; eauto.
  - left. subst d'. split; [done|]. intros ->.
    unfold feed in Hn. rewrite app_nil_r in Hn. destruct d; simpl in *. congruence.
  - destruct Hfeed as [_ Hfeed]. congruence.
Qed.

Lemma drain_stream fs d rest T acc :
  Forall frame_wf fs -> encode_all fs [] = Ok T -> buf d ++ rest = T -> bytes_ok (buf d) ->
  exists now later T' d', fs = now ++ later /\ encode_all later [] = Ok T' /\
    buf d' ++ rest = T' /\ next_frame d' = (Ok None, d') /\
    loops drain_body (acc, d) (acc ++ now, None, d').
Proof.
  revert d T acc. induction fs as [|f fs IH]; intros d T acc Hwf HT Hd Hok;
    destruct (next_frame_stream _ d rest T Hwf HT Hd Hok)
      as [[Hn Hr]|(g & gs & T' & d' & Hg & HT' & Hn & Hd')]; [|done| |].
  1: exists [], [], T, d. 2: exists [], (f :: fs), T, d.
  1, 2: split_and!; auto;
    apply loops_done; simpl; by rewrite Hn, app_nil_r.
  simplify_eq. apply Forall_cons in Hwf as [_ Hwf].
  destruct (next_frame_consumes _ _ _ Hok Hn) as [Hok' _].
  destruct (IH d' _ (acc ++ [g]) Hwf HT' eq_refl Hok')
    as (now & later & T'' & d'' & -> & ? & ? & ? & Hl).
  exists (g :: now), later, T'', d''. split_and!; [done..|].
  eapply loops_step; [simpl; by rewrite Hn|].
  by rewrite <- app_assoc in Hl.
Qed.

Lemma encode_bytes_ok f e : frame_wf f -> encode f [] = Ok e -> bytes_ok e.
Proof.
  intros (_ & Hsid & _ & Hp) (_ & _ & ->)%encode_ok_inv. unfold header.
  repeat (apply bytes_ok_app; split); auto using to_le_bytes_ok;
    destruct (kind f); repeat constructor; done.
Qed.

Lemma encode_all_bytes_ok fs b :
  Forall frame_wf fs -> encode_all fs [] = Ok b -> bytes_ok b.
Proof.
  intros Hwf. revert b. induction Hwf as [|f fs Hf Hwf IH]; intros b HT.
  { simpl in HT. simplify_eq. constructor. }
  apply encode_all_cons in HT as (e & es & He & Hes & ->).
  apply bytes_ok_app. split; [by eapply encode_bytes_ok|by apply IH].
Qed.

(** The reader, started with a partial frame in its buffer. *)
Lemma stream_reader_resume fs reads d T :
  Forall frame_wf fs -> encode_all fs [] = Ok T -> buf d ++ concat reads = T ->
  next_frame d = (Ok None, d) ->
  stream_reader d reads = Some (fs, None, decoder_new).
Proof.
  revert fs d T. induction reads as [|chunk reads IH]; intros fs d T Hwf HT Hd Hn;
    pose proof (encode_all_bytes_ok _ _ Hwf HT) as Hok; rewrite <- Hd in Hok.
  - simpl in Hd, Hok |- *.
    destruct (next_frame_stream fs d [] T Hwf HT Hd)
      as [[_ Hr]|(g & gs & T' & d' & Hg & _ & Hn' & _)];
      [by apply bytes_ok_app in Hok as []| |congruence].
    by destruct (Hr eq_refl) as [-> ->].
  - cbn [concat] in Hd, Hok. rewrite app_assoc in Hd, Hok. cbn [stream_reader].
    apply bytes_ok_app in Hok as [Hok _].
    destruct (drain_stream fs (feed d chunk) (concat reads) T [] Hwf HT Hd Hok)
      as (now & later & T' & d' & -> & HT' & Hd' & Hn' & Hl).
    rewrite (drain_loops (feed d chunk) _ Hok Hl). cbn [app].
    apply Forall_app in Hwf as [_ Hwf].
    by rewrite (IH later d' T').
Qed.

(** * Properties *)

(** C1: however the socket cuts the byte stream of a sequence of encoded frames
    into reads, the reader's loop ends, delivers exactly those frames in order,
    reports no desync, and leaves nothing buffered. *)
Theorem stream_reader_any_chunking fs reads b :
  Forall frame_wf fs -> encode_all fs [] = Ok b -> concat reads = b ->
  stream_reader decoder_new reads = Some (fs, None, decoder_new).
Proof. intros Hwf HT Hr. by apply (stream_reader_resume fs reads decoder_new b). Qed.

Definition ex_frames : list StreamFrame :=
  [data (str "s1") 5 (str "hello"); resize (str "s1") 5 80 24; data (str "s2") 300 [255; 0]].

Lemma stream_reader_any_chunking_witness :
  exists b, encode_all ex_frames [] = Ok b /\
    stream_reader decoder_new [take 7 b; slice b 7 30; drop 30 b]
      = Some (ex_frames, None, decoder_new).
Proof.
  eexists. split; [reflexivity|].
  apply (stream_reader_any_chunking ex_frames _
           (match encode_all ex_frames [] with Ok b => b | Err _ => [] end)).
  - repeat constructor; try done; vm_compute; intros; discriminate.
  - reflexivity.
  - reflexivity.
Defined.

(** The decoder accepts a frame only where the buffer starts with that
    frame's own encoding, which it consumes; the frame is well formed. Together
    with C1 the wire format is a bijection between frames and accepted bytes. *)
Theorem next_frame_sound d f d' :
  bytes_ok (buf d) -> next_frame d = (Ok (Some f), d') ->
  frame_wf f /\ exists e, to_bytes f = Ok e /\ buf d = e ++ buf d'.
Proof.
  intros Hok H. destruct (next_frame_reencode _ _ _ Hok H) as (? & _ & ?). eauto.
Qed.

Lemma next_frame_sound_witness :
  exists f, frame_wf f /\ exists e, to_bytes f = Ok e.
Proof.
  destruct (to_bytes (data (str "pane") 7 [1; 2])) as [b|] eqn:E; [|discriminate].
  destruct (next_frame_sound (mkStreamDecoder b) (data (str "pane") 7 [1; 2]) decoder_new)
    as (? & e & ? & _); [|vm_compute in E; simplify_eq; reflexivity|eauto].
  vm_compute in E. simplify_eq. repeat constructor; vm_compute; discriminate.
Defined.

(** A desync is sticky: on an error the buffer is left as it was, and
    whatever is fed afterwards the decoder reports the same error again. *)
Theorem desync_is_sticky d e d' more :
  bytes_ok (buf d) -> next_frame d = (Err e, d') ->
  d' = d /\ fst (next_frame (feed d more)) = Err e.
Proof.
  intros Hok H. pose proof (next_frame_feed d more Hok) as Hf. rewrite H in Hf.
  destruct Hf as [-> ->]. done.
Qed.

Lemma desync_is_sticky_witness :
  let d := mkStreamDecoder (str "GCKX" ++ repeat 0 20) in
  fst (next_frame (feed d [1; 2; 3])) = Err BadMagic.
Proof.
  apply (desync_is_sticky _ _ (mkStreamDecoder (str "GCKX" ++ repeat 0 20)));
    [|reflexivity].
  repeat constructor; vm_compute; discriminate.
Defined.

(** A decoder that waits for more bytes holds less than one frame of maximal
    size, so a hostile length prefix cannot make it buffer without bound. *)
Theorem waiting_decoder_is_bounded d d' :
  bytes_ok (buf d) -> next_frame d = (Ok None, d') ->
  buffered_len d' <
    STREAM_FRAME_HEADER_BYTES + MAX_SESSION_ID_BYTES + MAX_STREAM_FRAME_PAYLOAD.
Proof.
  intros Hok. unfold next_frame, buffered_len.
  unfold STREAM_FRAME_HEADER_BYTES, MAX_SESSION_ID_BYTES, MAX_STREAM_FRAME_PAYLOAD.
  intros H. repeat case_match; simplify_eq; lia.
Qed.

Lemma waiting_decoder_is_bounded_witness :
  buffered_len (mkStreamDecoder (str "GCKL"))
    < STREAM_FRAME_HEADER_BYTES + MAX_SESSION_ID_BYTES + MAX_STREAM_FRAME_PAYLOAD.
Proof.
  apply (waiting_decoder_is_bounded (mkStreamDecoder (str "GCKL")));
    [repeat constructor; vm_compute; discriminate|reflexivity].
Defined.
