(* ===== verification/ModeState.v ===== *)
(** The terminal-mode scanner of the daemon (grove-daemon/src/mode_state.rs): an
    index-based forward automaton over the teed PTY bytes that tracks the modes
    the VT library cannot report, parks an incomplete escape sequence across
    chunks, and emits the split points the emulator honours. *)

From S2P Require Import Prelude Utf8.

(** * Constants and data *)

Definition MAX_PARTIAL_ESCAPE_TAIL : Z := 4096.
Definition KITTY_STACK_CAP : Z := 16.

Definition ESC : Z := 27.
Definition CAN : Z := 24.
Definition SUB : Z := 26.
Definition BEL : Z := 7.
Definition ST_FINAL : Z := 92.

Inductive Split := SnapshotPrimary | CaptureSavedCursor.

Record ScanResult := mkScanResult { splits : list (Z * Split) }.

Inductive ScanState :=
| Ground | Esc | EscIntermediate | Csi | Osc | OscEsc | Str | StrEsc.

#[export] Instance ScanState_eq_dec : EqDecision ScanState.
Proof. solve_decision. Defined.

Record ModeState := mkModeState {
  scan_tail : bytes;
  focus : bool;
  sgr_pixels : bool;
  alt : bool;
  kitty_stack : list Z;
  cwd : option bytes;
  title : option bytes;
  scroll_region : option (Z * Z);
  bell_count : Z;
}.

Definition mode_new : ModeState := mkModeState [] false false false [] None None None 0.

(** Field updates. *)
Definition set_tail t m := mkModeState t (focus m) (sgr_pixels m) (alt m) (kitty_stack m)
  (cwd m) (title m) (scroll_region m) (bell_count m).
Definition set_focus b m := mkModeState (scan_tail m) b (sgr_pixels m) (alt m) (kitty_stack m)
  (cwd m) (title m) (scroll_region m) (bell_count m).
Definition set_sgr_pixels b m := mkModeState (scan_tail m) (focus m) b (alt m) (kitty_stack m)
  (cwd m) (title m) (scroll_region m) (bell_count m).
Definition set_alt b m := mkModeState (scan_tail m) (focus m) (sgr_pixels m) b (kitty_stack m)
  (cwd m) (title m) (scroll_region m) (bell_count m).
Definition set_kitty k m := mkModeState (scan_tail m) (focus m) (sgr_pixels m) (alt m) k
  (cwd m) (title m) (scroll_region m) (bell_count m).
Definition set_cwd c m := mkModeState (scan_tail m) (focus m) (sgr_pixels m) (alt m)
  (kitty_stack m) c (title m) (scroll_region m) (bell_count m).
Definition set_title t m := mkModeState (scan_tail m) (focus m) (sgr_pixels m) (alt m)
  (kitty_stack m) (cwd m) t (scroll_region m) (bell_count m).
Definition set_region r m := mkModeState (scan_tail m) (focus m) (sgr_pixels m) (alt m)
  (kitty_stack m) (cwd m) (title m) r (bell_count m).
Definition set_bells n m := mkModeState (scan_tail m) (focus m) (sgr_pixels m) (alt m)
  (kitty_stack m) (cwd m) (title m) (scroll_region m) n.

(** * Readers *)

(** Top of the kitty stack, 0 when empty. *)
Definition kitty_flags (m : ModeState) : Z := default 0 (last (kitty_stack m)).

Definition partial_escape_tail (m : ModeState) : bytes := scan_tail m.

Definition take_bells (m : ModeState) : Z * ModeState := (bell_count m, set_bells 0 m).

(** * Helpers *)

Record ChunkMap := mkChunkMap { old_tail_len : Z; chunk_len : Z }.

Definition offset (map : ChunkMap) (combined_index : Z) : Z :=
  Z.min (saturating_sub combined_index (old_tail_len map)) (chunk_len map).

Definition count_bel (run : bytes) : Z := zlen (filter (fun b => b = BEL) run).

(** [self.bell_count += n] on a [u32] (release arithmetic). *)
Definition add_bells (n : Z) (m : ModeState) : ModeState :=
  set_bells (wrap 32 (bell_count m + n)) m.

(** The numeric parameters of a CSI; empty and unparsable entries are skipped. *)
Definition split_params (params : bytes) : list Z :=
  omap (fun p =>
    if bool_decide (p = []) then None
    else match from_utf8 p with Some s => parse_u32 s | None => None end)
    (split_on 59 params).

Fixpoint percent_decode_bytes (l : bytes) : bytes :=
  match l with
  | [] => []
  | b :: t =>
      if b =? 37 then
        match t with
        | h :: (lo :: t') =>
            match hex_digit h, hex_digit lo with
            | Some hi, Some lo => (hi * 16 + lo) :: percent_decode_bytes t'
            | _, _ => b :: percent_decode_bytes t
            end
        | _ => b :: percent_decode_bytes t
        end
      else b :: percent_decode_bytes t
  end.

Definition percent_decode (s : bytes) : bytes := from_utf8_lossy (percent_decode_bytes s).

Definition parse_osc7_cwd (pt : bytes) : option bytes :=
  let s := from_utf8_lossy pt in
  let path :=
    match strip_prefix (str "file://") s with
    | Some rest =>
        match position 47 rest with
        | Some idx => Some (drop idx rest)
        | None => None
        end
    | None => Some s
    end in
  match path with
  | None => None
  | Some path =>
      let decoded := percent_decode path in
      if bool_decide (decoded = []) then None else Some decoded
  end.

(** * Effects of completed sequences *)

(** RIS, [ESC c]. *)
Definition reset_modes (m : ModeState) : ModeState :=
  set_region None (set_alt false (set_kitty [] (set_sgr_pixels false (set_focus false m)))).

(** One parameter of [CSI ? ... h] or [CSI ? ... l]. *)
Definition dec_private_mode (enabled : bool) (chunk_start p : Z)
    (s : ModeState * list (Z * Split)) : ModeState * list (Z * Split) :=
  let (m, out) := s in
  if p =? 1004 then (set_focus enabled m, out)
  else if p =? 1016 then (set_sgr_pixels enabled m, out)
  else if (p =? 1049) || (p =? 47) || (p =? 1047) then
    let out := if enabled && negb (alt m) then out ++ [(chunk_start, SnapshotPrimary)] else out in
    (set_region None (set_alt enabled m), out)
  else (m, out).

Definition kitty_push (params : bytes) (m : ModeState) : ModeState :=
  let flags := default 0 (head (split_params params)) in
  if zlen (kitty_stack m) <? KITTY_STACK_CAP
  then set_kitty (kitty_stack m ++ [flags]) m else m.

Definition kitty_pop (params : bytes) (m : ModeState) : ModeState :=
  let n := Z.max (default 1 (head (split_params params))) 1 in
  set_kitty (take (Z.to_nat (zlen (kitty_stack m) - n)) (kitty_stack m)) m.

Definition u32_not (x : Z) : Z := Z.lxor x u32_max.

Definition kitty_set (params : bytes) (m : ModeState) : ModeState :=
  let it := split_params params in
  let flags := default 0 (head it) in
  let mode := default 1 (it !! 1%nat) in
  let cur := kitty_flags m in
  let next :=
    if mode =? 2 then Z.lor cur flags
    else if mode =? 3 then Z.land cur (u32_not flags)
    else flags in
  match kitty_stack m with
  | [] => set_kitty [next] m
  | ks => set_kitty (take (length ks - 1) ks ++ [next]) m
  end.

Definition decstbm (params : bytes) (m : ModeState) : ModeState :=
  let it := split_params params in
  set_region
    (match it !! 0%nat, it !! 1%nat with
     | Some t, Some b => if (1 <=? t) && (t <? b) then Some (wrap 16 t, wrap 16 b) else None
     | _, _ => None
     end) m.

Definition apply_csi (marker : option Z) (params : bytes) (final_byte chunk_start chunk_end : Z)
    (s : ModeState * list (Z * Split)) : ModeState * list (Z * Split) :=
  let (m, out) := s in
  match marker with
  | Some 63 => (* ? *)
      if (final_byte =? 104) || (final_byte =? 108) then
        fold_left (fun s p => dec_private_mode (final_byte =? 104) chunk_start p s)
          (split_params params) s
      else s
  | Some 62 => (* > *) if final_byte =? 117 then (kitty_push params m, out) else s
  | Some 60 => (* < *) if final_byte =? 117 then (kitty_pop params m, out) else s
  | Some 61 => (* = *) if final_byte =? 117 then (kitty_set params m, out) else s
  | None =>
      if final_byte =? 114 then (decstbm params m, out)
      else if (final_byte =? 115) && bool_decide (params = [])
      then (m, out ++ [(chunk_end, CaptureSavedCursor)])
      else s
  | _ => s
  end.

(** Split the body of a CSI into its private marker and its parameters. *)
Definition csi_marker (body : bytes) : option Z * bytes :=
  match body with
  | m :: rest => if in_range 60 63 m then (Some m, rest) else (None, body)
  | [] => (None, body)
  end.

Definition apply_osc (payload : bytes) (m : ModeState) : ModeState :=
  match position 59 payload with
  | None => m
  | Some sep =>
      let ps := take sep payload in
      let pt := drop (S sep) payload in
      if bytes_eqb ps (str "0") || bytes_eqb ps (str "2")
      then set_title (Some (from_utf8_lossy pt)) m
      else if bytes_eqb ps (str "7")
      then match parse_osc7_cwd pt with
           | Some c => set_cwd (Some c) m
           | None => m
           end
      else m
  end.

(** * The scanner *)

(** The locals of [walk] and what it mutates. *)
Record Walk := mkWalk {
  w_state : ScanState;
  w_seq_start : Z;
  w_body_start : Z;
  w_i : Z;
  w_modes : ModeState;
  w_out : list (Z * Split);
}.

(** The follower of a pending ESC: the next state, the new [seq_start] and
    [body_start], and the effects. *)
Definition esc_follower (code i seq_start body_start : Z) (map : ChunkMap)
    (m : ModeState) (out : list (Z * Split)) : Walk :=
  if code =? ESC then mkWalk Esc i body_start i m out
  else if (code =? CAN) || (code =? SUB) then mkWalk Ground seq_start body_start i m out
  else if code =? 91 then mkWalk Csi seq_start (i + 1) i m out
  else if code =? 93 then mkWalk Osc seq_start (i + 1) i m out
  else if (code =? 80) || (code =? 88) || (code =? 94) || (code =? 95)
  then mkWalk Str seq_start body_start i m out
  else if in_range 32 47 code then mkWalk EscIntermediate seq_start body_start i m out
  else if code =? 99 then mkWalk Ground seq_start body_start i (reset_modes m) out
  else if code =? 55
  then mkWalk Ground seq_start body_start i m
         (out ++ [(offset map (i + 1), CaptureSavedCursor)])
  else if (code <? 32) || (code =? 127) then mkWalk Esc seq_start body_start i m out
  else mkWalk Ground seq_start body_start i m out.

(** One step of the state machine on [bytes[i]], outside Ground. *)
Definition walk_byte (bs : bytes) (map : ChunkMap) (w : Walk) : Walk :=
  let i := w_i w in
  let code := byte_at bs i in
  let goto st := mkWalk st (w_seq_start w) (w_body_start w) i (w_modes w) (w_out w) in
  let restart := mkWalk Esc i (w_body_start w) i (w_modes w) (w_out w) in
  match w_state w with
  | Ground => w
  | Esc => esc_follower code i (w_seq_start w) (w_body_start w) map (w_modes w) (w_out w)
  | EscIntermediate =>
      if code =? ESC then restart
      else if (code =? CAN) || (code =? SUB) then goto Ground
      else if in_range 48 126 code then goto Ground
      else goto EscIntermediate
  | Csi =>
      if code =? ESC then restart
      else if (code =? CAN) || (code =? SUB) then goto Ground
      else if in_range 64 126 code then
        let (marker, params) := csi_marker (slice bs (w_body_start w) i) in
        let (m, out) := apply_csi marker params code (offset map (w_seq_start w))
                          (offset map (i + 1)) (w_modes w, w_out w) in
        mkWalk Ground (w_seq_start w) (w_body_start w) i m out
      else goto Csi
  | Osc =>
      if (code =? BEL) || (code =? CAN) || (code =? SUB)
      then mkWalk Ground (w_seq_start w) (w_body_start w) i
             (apply_osc (slice bs (w_body_start w) i) (w_modes w)) (w_out w)
      else if code =? ESC then goto OscEsc
      else goto Osc
  | OscEsc =>
      let m := apply_osc (slice bs (w_body_start w) (i - 1)) (w_modes w) in
      if code =? ST_FINAL
      then mkWalk Ground (w_seq_start w) (w_body_start w) i m (w_out w)
      else esc_follower code i (i - 1) (w_body_start w) map m (w_out w)
  | Str =>
      if (code =? CAN) || (code =? SUB) then goto Ground
      else if code =? ESC then goto StrEsc
      else goto Str
  | StrEsc =>
      if code =? ST_FINAL then goto Ground
      else esc_follower code i (i - 1) (w_body_start w) map (w_modes w) (w_out w)
  end.

Definition advance (w : Walk) : Walk :=
  mkWalk (w_state w) (w_seq_start w) (w_body_start w) (w_i w + 1) (w_modes w) (w_out w).

(** The loop body of [walk]: leave at the end of the bytes, skip plain text to
    the next ESC from Ground, or step one byte. The value is the index at which
    the pending sequence begins. *)
Definition walk_body (bs : bytes) (map : ChunkMap) (w : Walk)
    : Walk + (Z * ModeState * list (Z * Split)) :=
  if zlen bs <=? w_i w then
    inr (if decide (w_state w = Ground) then zlen bs else w_seq_start w,
         w_modes w, w_out w)
  else if decide (w_state w = Ground) then
    let rest := drop (Z.to_nat (w_i w)) bs in
    match position ESC rest with
    | Some k =>
        let m := add_bells (count_bel (take k rest)) (w_modes w) in
        let i := w_i w + Z.of_nat k in
        inl (mkWalk Esc i (w_body_start w) (i + 1) m (w_out w))
    | None =>
        inr (zlen bs, add_bells (count_bel rest) (w_modes w), w_out w)
    end
  else inl (advance (walk_byte bs map w)).

Definition walk_start (m : ModeState) : Walk := mkWalk Ground 0 0 0 m [].

Definition walk (m : ModeState) (bs : bytes) (map : ChunkMap)
    : Z * ModeState * list (Z * Split) :=
  default (0, m, []) (loop (walk_body bs map) (S (length bs)) (walk_start m)).

Definition scan (m : ModeState) (chunk : bytes) : ScanResult * ModeState :=
  let map := mkChunkMap (zlen (scan_tail m)) (zlen chunk) in
  let combined := scan_tail m ++ chunk in
  let '(pending_start, m', out) := walk (set_tail [] m) combined map in
  let combined := drop (Z.to_nat pending_start) combined in
  let combined := if MAX_PARTIAL_ESCAPE_TAIL <? zlen combined then [] else combined in
  (mkScanResult out, set_tail combined m').
