(* ===== verification/ModeScan.v ===== *)
(** What the terminal-mode scanner of ModeState.v promises: a reference automaton
    that reads one byte at a time and keeps the pending sequence itself, the
    proof that the index-based scanner with its fast skip computes exactly that
    automaton, and from it fold-safety under any chunking, the canonical parked
    tail, ordered split points and the bounds of the tracked state. *)

From Stdlib Require Import Sorted.
From S2P Require Import Prelude Utf8 ModeState.

(** * The reference automaton *)

Record Auto := mkAuto {
  a_st : ScanState;
  a_pend : bytes;   (* the bytes of the pending sequence, from its opening ESC *)
  a_body : bytes;   (* CSI parameters or OSC payload read so far *)
  a_pos : Z;        (* how many bytes were read *)
  a_m : ModeState;
  a_out : list (Z * Split);
}.

Definition auto_start (m : ModeState) : Auto := mkAuto Ground [] [] 0 m [].

(** Back to ground: nothing is pending. *)
Definition to_ground (m : ModeState) (out : list (Z * Split)) (a : Auto) : Auto :=
  mkAuto Ground [] [] (a_pos a + 1) m out.

(** The byte belongs to the pending sequence [p]. *)
Definition pending (st : ScanState) (p body : bytes) (m : ModeState) (a : Auto) : Auto :=
  mkAuto st p body (a_pos a + 1) m (a_out a).

Section auto.
Context (off : Z -> Z).

(** The byte after a pending ESC; [p] is the pending sequence so far. *)
Definition a_follow (p : bytes) (code : Z) (m : ModeState) (a : Auto) : Auto :=
  if code =? ESC then pending Esc [code] [] m a
  else if (code =? CAN) || (code =? SUB) then to_ground m (a_out a) a
  else if code =? 91 then pending Csi (p ++ [code]) [] m a
  else if code =? 93 then pending Osc (p ++ [code]) [] m a
  else if (code =? 80) || (code =? 88) || (code =? 94) || (code =? 95)
  then pending Str (p ++ [code]) [] m a
  else if in_range 32 47 code then pending EscIntermediate (p ++ [code]) [] m a
  else if code =? 99 then to_ground (reset_modes m) (a_out a) a
  else if code =? 55
  then to_ground m (a_out a ++ [(off (a_pos a + 1), CaptureSavedCursor)]) a
  else if (code <? 32) || (code =? 127) then pending Esc (p ++ [code]) [] m a
  else to_ground m (a_out a) a.

Definition a_step (a : Auto) (code : Z) : Auto :=
  let p := a_pend a in
  let m := a_m a in
  let keep st := pending st (p ++ [code]) (a_body a) m a in
  let keep_body st := pending st (p ++ [code]) (a_body a ++ [code]) m a in
  let ground := to_ground m (a_out a) a in
  match a_st a with
  | Ground =>
      if code =? ESC then pending Esc [code] [] m a
      else if code =? BEL then to_ground (add_bells 1 m) (a_out a) a
      else ground
  | Esc => a_follow p code m a
  | EscIntermediate =>
      if code =? ESC then pending Esc [code] [] m a
      else if (code =? CAN) || (code =? SUB) then ground
      else if in_range 48 126 code then ground
      else keep EscIntermediate
  | Csi =>
      if code =? ESC then pending Esc [code] [] m a
      else if (code =? CAN) || (code =? SUB) then ground
      else if in_range 64 126 code then
        let (marker, params) := csi_marker (a_body a) in
        let (m', out) := apply_csi marker params code (off (a_pos a - zlen p))
                           (off (a_pos a + 1)) (m, a_out a) in
        to_ground m' out a
      else keep_body Csi
  | Osc =>
      if (code =? BEL) || (code =? CAN) || (code =? SUB)
      then to_ground (apply_osc (a_body a) m) (a_out a) a
      else if code =? ESC then keep OscEsc
      else keep_body Osc
  | OscEsc =>
      let m := apply_osc (a_body a) m in
      if code =? ST_FINAL then to_ground m (a_out a) a
      else a_follow [ESC] code m a
  | Str =>
      if (code =? CAN) || (code =? SUB) then ground
      else if code =? ESC then keep StrEsc
      else keep Str
  | StrEsc =>
      if code =? ST_FINAL then ground else a_follow [ESC] code m a
  end.

Definition a_run (a : Auto) (bs : bytes) : Auto := fold_left a_step bs a.

Lemma a_run_app a l r : a_run a (l ++ r) = a_run (a_run a l) r.
Proof. apply fold_left_app. Qed.
End auto.

(** * The scanner computes the automaton *)

(** The pending sequence is what lies between [seq_start] and [i]; the body what
    lies between [body_start] and [i], short of the ESC that ends an OSC. *)
Record matches (bs : bytes) (w : Walk) (a : Auto) : Prop := {
  mt_st : w_state w = a_st a;
  mt_pos : w_i w = a_pos a;
  mt_m : w_modes w = a_m a;
  mt_out : w_out w = a_out a;
  mt_i : 0 <= w_i w <= zlen bs;
  mt_pend : a_pend a = if decide (a_st a = Ground) then []
                       else slice bs (w_seq_start w) (w_i w);
  mt_start : a_st a <> Ground -> 0 <= w_seq_start w < w_i w;
  mt_body : (a_st a = Csi \/ a_st a = Osc) ->
            a_body a = slice bs (w_body_start w) (w_i w) /\ 0 <= w_body_start w <= w_i w;
  mt_osc_esc : a_st a = OscEsc ->
               a_body a = slice bs (w_body_start w) (w_i w - 1) /\
               0 <= w_body_start w <= w_i w - 1;
  mt_esc : (a_st a = OscEsc \/ a_st a = StrEsc) -> byte_at bs (w_i w - 1) = ESC;
}.

Lemma slice_snoc bs s i :
  0 <= s <= i -> i < zlen bs -> slice bs s i ++ [byte_at bs i] = slice bs s (i + 1).
Proof.
  intros Hs Hi. rewrite byte_at_slice by (split; [lia|done]).
  unfold slice, zlen in *.
  rewrite <- (take_drop (Z.to_nat (i - s)) (drop (Z.to_nat s) bs)) at 2.
  rewrite take_app_ge by (rewrite length_take, length_drop; lia).
  f_equal. rewrite drop_drop, length_take, length_drop. f_equal; [lia|]. f_equal. lia.
Qed.

Lemma slice_singleton bs i : 0 <= i < zlen bs -> slice bs i (i + 1) = [byte_at bs i].
Proof. intros. by rewrite byte_at_slice. Qed.

Lemma follow_matches bs map w a i s b p m :
  w_i w = i -> a_pos a = i -> 0 <= s < i -> i < zlen bs ->
  w_out w = a_out a -> p = slice bs s i ->
  matches bs (advance (esc_follower (byte_at bs i) i s b map m (w_out w)))
    (a_follow (offset map) p (byte_at bs i) m a).
Proof.
  intros Hw Ha Hs Hi Hout ->.
  unfold esc_follower, a_follow.
  repeat case_match;
    (constructor; unfold advance, to_ground, pending;
      cbn [w_state w_i w_modes w_out w_seq_start w_body_start a_st a_pos a_m a_out a_pend a_body];
      try lia; try congruence; intuition (try discriminate; try lia));
    rewrite ?decide_False, ?decide_True by done;
    rewrite ?slice_singleton by lia; rewrite ?slice_snoc by lia; auto.
  all: try (unfold slice; rewrite Z.sub_diag; done).
  all: try (f_equal; lia).
Qed.

Ltac matches_solve :=
  constructor; unfold advance, to_ground, pending;
  cbn [w_state w_i w_modes w_out w_seq_start w_body_start a_st a_pos a_m a_out a_pend a_body];
  try lia; try congruence; intuition (try discriminate; try lia);
  rewrite ?decide_False, ?decide_True by done;
  rewrite ?slice_singleton by lia; rewrite ?slice_snoc by lia; auto.

Lemma walk_byte_matches bs map w a :
  matches bs w a -> a_st a <> Ground -> w_i w < zlen bs ->
  matches bs (advance (walk_byte bs map w)) (a_step (offset map) a (byte_at bs (w_i w))).
Proof.
  intros [Hst Hpos Hm Hout Hi Hpend Hstart Hbody Hosc Hesc] Hne Hlt.
  destruct w as [st s b i m out]; destruct a as [ast p body pos am aout].
  cbn in *. subst ast pos am aout.
  rewrite decide_False in Hpend by done. specialize (Hstart Hne).
  set (code := byte_at bs i) in *.
  unfold walk_byte, a_step. cbn [w_state w_seq_start w_body_start w_i w_modes w_out
    a_st a_pend a_body a_pos a_m a_out].
  fold code. subst p. destruct st; [done|..].
  - apply (follow_matches bs map (mkWalk Esc s b i m out)); cbn; auto; lia.
  - repeat case_match; subst code; matches_solve.
  - destruct (Hbody (or_introl eq_refl)) as [-> Hb].
    destruct (code =? ESC); [subst code; matches_solve|].
    destruct (_ || _); [subst code; matches_solve|].
    destruct (in_range 64 126 code); [|subst code; matches_solve].
    destruct (csi_marker _) as [marker params].
    replace (i - zlen (slice bs s i)) with s by (rewrite slice_length by lia; lia).
    destruct (apply_csi _ _ _ _ _ _) as [m' out']. subst code; matches_solve.
  - destruct (Hbody (or_intror eq_refl)) as [-> Hb].
    repeat case_match; subst code; matches_solve.
    all: replace (i + 1 - 1) with i by lia; lia || done.
  - destruct (Hosc eq_refl) as [-> Hb].
    pose proof (Hesc (or_introl eq_refl)) as He.
    destruct (code =? ST_FINAL); [subst code; matches_solve|].
    subst code. rewrite <- He.
    apply (follow_matches bs map (mkWalk OscEsc s b i m out)); cbn; auto; try lia.
    rewrite byte_at_slice by lia. f_equal; lia.
  - repeat case_match; subst code; matches_solve.
    all: replace (i + 1 - 1) with i by lia; lia || done.
  - pose proof (Hesc (or_intror eq_refl)) as He.
    destruct (code =? ST_FINAL); [subst code; matches_solve|].
    subst code. rewrite <- He.
    apply (follow_matches bs map (mkWalk StrEsc s b i m out)); cbn; auto; try lia.
    rewrite byte_at_slice by lia. f_equal; lia.
Qed.

(** * The tracked modes stay in range *)

Definition valid_text (o : option bytes) : Prop :=
  match o with Some s => utf8_valid s = true | None => True end.

(** What the Rust types and the caps guarantee of the tracked modes. *)
Record mode_ok (m : ModeState) : Prop := {
  ok_bells : 0 <= bell_count m <= u32_max;
  ok_kitty_cap : zlen (kitty_stack m) <= KITTY_STACK_CAP;
  ok_kitty : Forall (fun k => 0 <= k <= u32_max) (kitty_stack m);
  ok_cwd : valid_text (cwd m);
  ok_title : valid_text (title m);
}.

Lemma mode_new_ok : mode_ok mode_new.
Proof. constructor; simpl; try done; constructor. Qed.

Lemma split_params_range l : Forall (fun p => 0 <= p <= u32_max) (split_params l).
Proof.
  unfold split_params. induction (split_on 59 l) as [|p ps IH]; simpl; [constructor|].
  repeat case_match; simplify_eq; auto.
  constructor; [|done]. eauto using parse_u32_nonneg, parse_u32_range.
Qed.

Lemma split_params_default l i d :
  0 <= d <= u32_max -> 0 <= default d (split_params l !! i) <= u32_max.
Proof.
  intros Hd. destruct (split_params l !! i) eqn:E; simpl; [|done].
  eapply Forall_lookup_1 in E; [exact E|apply split_params_range].
Qed.

Lemma kitty_flags_range m : mode_ok m -> 0 <= kitty_flags m <= u32_max.
Proof.
  intros [_ _ H _ _]. unfold kitty_flags, u32_max.
  destruct (last (kitty_stack m)) eqn:E; simpl; [|lia].
  apply last_Some in E as [l E]. rewrite E in H.
  apply Forall_app in H as [_ H]. by inversion H.
Qed.

Lemma add_bells_ok n m : mode_ok m -> mode_ok (add_bells n m).
Proof.
  intros []. constructor; simpl; auto.
  pose proof (wrap_range 32 (bell_count m + n)). unfold u32_max. lia.
Qed.

Lemma reset_modes_ok m : mode_ok m -> mode_ok (reset_modes m).
Proof. intros []. constructor; simpl; auto. done. Qed.

Lemma dec_private_mode_ok e c p s : mode_ok s.1 -> mode_ok (dec_private_mode e c p s).1.
Proof.
  destruct s as [m out]. intros []. unfold dec_private_mode.
  repeat case_match; constructor; simpl; auto.
Qed.

Lemma kitty_push_ok ps m : mode_ok m -> mode_ok (kitty_push ps m).
Proof.
  intros Hm. unfold kitty_push. destruct (_ <? _) eqn:E; [|done].
  destruct Hm. constructor; simpl; auto.
  - unfold KITTY_STACK_CAP in *. zlen_lia.
  - apply Forall_app. split; [done|]. constructor; [|done].
    rewrite head_lookup. apply split_params_default. unfold u32_max. lia.
Qed.

Lemma kitty_pop_ok ps m : mode_ok m -> mode_ok (kitty_pop ps m).
Proof.
  intros []. constructor; simpl; auto.
  - unfold zlen in *. rewrite length_take. lia.
  - by apply Forall_take.
Qed.

Lemma kitty_set_next_range ps m :
  mode_ok m ->
  let flags := default 0 (head (split_params ps)) in
  let mode := default 1 (split_params ps !! 1%nat) in
  0 <= (if mode =? 2 then Z.lor (kitty_flags m) flags
        else if mode =? 3 then Z.land (kitty_flags m) (u32_not flags)
        else flags) <= u32_max.
Proof.
  intros Hm flags mode. pose proof (kitty_flags_range m Hm) as Hcur.
  assert (0 <= flags <= u32_max).
  { unfold flags. rewrite head_lookup. apply split_params_default. unfold u32_max. lia. }
  repeat case_match; auto using lor_u32, land_u32.
Qed.

Lemma kitty_set_ok ps m : mode_ok m -> mode_ok (kitty_set ps m).
Proof.
  intros Hm. pose proof (kitty_set_next_range ps m Hm) as Hn.
  unfold kitty_set. cbn zeta in *. match type of Hn with _ <= ?n <= _ => set (next := n) in *; clearbody next end.
  destruct Hm as [? Hcap Hk ? ?].
  destruct (kitty_stack m) as [|k ks] eqn:E; constructor; cbn [kitty_stack set_kitty bell_count cwd title]; auto.
  - rewrite zlen_app, zlen_cons, zlen_nil. unfold zlen in *. rewrite length_take.
    simpl length in *. lia.
  - apply Forall_app. split; [by apply Forall_take|auto].
Qed.

Lemma apply_csi_ok mk ps f s e st : mode_ok st.1 -> mode_ok (apply_csi mk ps f s e st).1.
Proof.
  destruct st as [m out]. intros Hm. unfold apply_csi.
  repeat case_match; simpl; auto using kitty_push_ok, kitty_pop_ok, kitty_set_ok.
  - clear -Hm. generalize (split_params ps) as l.
    set (st := (m, out)). assert (mode_ok st.1) as Hst by done. clearbody st. clear -Hst.
    intros l. revert st Hst. induction l as [|p l IH]; intros st Hst; simpl; [done|].
    apply IH. by apply dec_private_mode_ok.
  - destruct Hm. constructor; simpl; auto.
Qed.

Lemma percent_decode_valid s : utf8_valid (percent_decode s) = true.
Proof. apply from_utf8_lossy_is_valid. Qed.

Lemma apply_osc_ok p m : mode_ok m -> mode_ok (apply_osc p m).
Proof.
  intros Hm. unfold apply_osc, parse_osc7_cwd.
  repeat case_match; simplify_eq; auto;
    destruct Hm; constructor; simpl; auto using from_utf8_lossy_is_valid, percent_decode_valid.
Qed.

Lemma a_follow_ok off p c m a : mode_ok m -> mode_ok (a_m (a_follow off p c m a)).
Proof. intros. unfold a_follow. repeat case_match; simpl; auto using reset_modes_ok. Qed.

Lemma a_step_ok off a c : mode_ok (a_m a) -> mode_ok (a_m (a_step off a c)).
Proof.
  intros Hm. unfold a_step. destruct (a_st a).
  4: { repeat (case_match; auto).
    match goal with E : apply_csi ?mk ?ps ?f ?s ?e ?st = _ |- _ =>
      pose proof (apply_csi_ok mk ps f s e st Hm) as H'; by rewrite E in H' end. }
  all: repeat case_match; simpl; auto using add_bells_ok, a_follow_ok, apply_osc_ok.
Qed.

Lemma a_run_ok off a bs : mode_ok (a_m a) -> mode_ok (a_m (a_run off a bs)).
Proof. revert a. induction bs as [|b bs IH]; intros a Ha; simpl; auto using a_step_ok. Qed.

(** * The fast skip over plain text *)

Lemma add_bells_0 m : mode_ok m -> add_bells 0 m = m.
Proof.
  intros [Hb _ _ _ _]. unfold add_bells. rewrite Z.add_0_r, wrap_small.
  - by destruct m.
  - unfold u32_max in Hb. lia.
Qed.

Lemma add_bells_add n k m : add_bells k (add_bells n m) = add_bells (n + k) m.
Proof.
  unfold add_bells, set_bells. simpl. f_equal.
  rewrite wrap_add_wrap_l. f_equal. lia.
Qed.

Lemma count_bel_cons b l : count_bel (b :: l) = (if b =? BEL then 1 else 0) + count_bel l.
Proof.
  unfold count_bel. rewrite filter_cons.
  destruct (decide (b = BEL)), (b =? BEL) eqn:E; try lia; zlen_lia.
Qed.

Lemma skip_run off l a :
  a_st a = Ground -> a_pend a = [] -> mode_ok (a_m a) -> position ESC l = None ->
  let a' := a_run off a l in
  a_st a' = Ground /\ a_pend a' = [] /\ a_pos a' = a_pos a + zlen l /\
  a_out a' = a_out a /\ a_m a' = add_bells (count_bel l) (a_m a).
Proof.
  revert a. induction l as [|b l IH]; intros a Hst Hp Hm Hpos; simpl in *.
  - unfold count_bel. simpl. rewrite zlen_nil, add_bells_0 by done. auto with lia.
  - destruct (b =? ESC) eqn:Eb; [done|].
    assert (Hpos' : position ESC l = None) by (destruct (position ESC l); done).
    rewrite count_bel_cons, zlen_cons.
    unfold a_step. rewrite Hst, Eb.
    destruct (b =? BEL) eqn:El.
    + destruct (IH (to_ground (add_bells 1 (a_m a)) (a_out a) a)) as (H1 & H2 & H3 & H4 & H5);
        [done|done|by apply add_bells_ok|done|].
      split_and!; auto; [rewrite H3; simpl; lia|]. rewrite H5. apply add_bells_add.
    + destruct (IH (to_ground (a_m a) (a_out a) a)) as (H1 & H2 & H3 & H4 & H5); auto.
      split_and!; auto. rewrite H3; simpl; lia.
Qed.

(** * The scanner computes the automaton *)

Lemma walk_start_matches bs m : matches bs (walk_start m) (auto_start m).
Proof.
  constructor; simpl; try done; try (pose proof (zlen_nonneg bs); lia);
    intuition discriminate.
Qed.

Lemma drop_cons_byte_at bs i :
  0 <= i < zlen bs -> drop (Z.to_nat i) bs = byte_at bs i :: drop (Z.to_nat (i + 1)) bs.
Proof.
  intros Hi. rewrite <- (slice_drop bs i (i + 1)) by lia.
  by rewrite <- byte_at_slice by lia.
Qed.

(** The state of the scanner after the run of plain text that ends in an ESC. *)
Lemma skip_matches bs map w a k :
  matches bs w a -> a_st a = Ground -> mode_ok (a_m a) ->
  position ESC (drop (Z.to_nat (w_i w)) bs) = Some k ->
  let m := add_bells (count_bel (take k (drop (Z.to_nat (w_i w)) bs))) (w_modes w) in
  let i := w_i w + Z.of_nat k in
  exists a', matches bs (mkWalk Esc i (w_body_start w) (i + 1) m (w_out w)) a' /\
    mode_ok (a_m a') /\
    a_run (offset map) a (drop (Z.to_nat (w_i w)) bs)
      = a_run (offset map) a' (drop (Z.to_nat (i + 1)) bs).
Proof.
  intros Hmt Hg Hok Hk. pose proof Hmt as [Hst Hpos Hm Hout Hi Hpend _ _ _ _].
  rewrite decide_True in Hpend by done.
  destruct (position_Some _ _ _ Hk) as (Hlt & _ & Hpre & Hcut).
  rewrite length_drop in Hlt. rewrite drop_drop in Hcut.
  replace (Z.to_nat (w_i w) + k)%nat with (Z.to_nat (w_i w + Z.of_nat k)) in Hcut by lia.
  set (rest := drop (Z.to_nat (w_i w)) bs) in *. intros m i.
  assert (Hib : 0 <= i < zlen bs) by (unfold i, zlen; lia).
  pose proof (drop_cons_byte_at bs i Hib) as Hbi.
  assert (byte_at bs i = ESC) as Hesc by (unfold i in *; congruence).
  destruct (skip_run (offset map) (take k rest) a Hg Hpend Hok Hpre)
    as (S1 & S2 & S3 & S4 & S5).
  set (a1 := a_run (offset map) a (take k rest)) in *.
  assert (zlen (take k rest) = Z.of_nat k) as Hlk.
  { unfold zlen, rest. rewrite length_take, length_drop. lia. }
  exists (a_step (offset map) a1 ESC). split_and!.
  - unfold a_step. rewrite S1. simpl. constructor; simpl; try lia; try congruence;
      intuition (try discriminate; try lia).
    + unfold m. by rewrite S5, Hm.
    + by rewrite slice_singleton, Hesc by lia.
  - apply a_step_ok. rewrite S5. by apply add_bells_ok.
  - transitivity (a_run (offset map) a1 (drop k rest)).
    + unfold a1. by rewrite <- a_run_app, take_drop.
    + unfold rest. rewrite drop_drop.
      replace (Z.to_nat (w_i w) + k)%nat with (Z.to_nat i) by (unfold i; lia).
      rewrite Hbi, Hesc. done.
Qed.

Lemma walk_loops bs map w a :
  matches bs w a -> mode_ok (a_m a) ->
  let a' := a_run (offset map) a (drop (Z.to_nat (w_i w)) bs) in
  exists ps, loops (walk_body bs map) w (ps, a_m a', a_out a') /\
    0 <= ps <= zlen bs /\ drop (Z.to_nat ps) bs = a_pend a'.
Proof.
  remember (Z.to_nat (zlen bs - w_i w)) as n eqn:Hn. revert w a Hn.
  induction (lt_wf n) as [n _ IH]; intros w a -> Hmt Hok.
  pose proof Hmt as [Hst Hpos Hm Hout Hi Hpend Hstart _ _ _].
  destruct (decide (w_i w = zlen bs)) as [Hend|Hmore].
  - rewrite drop_ge by (unfold zlen in *; lia). cbn [a_run fold_left].
    eexists. split; [apply loops_done; unfold walk_body|].
    { rewrite (proj2 (Z.leb_le _ _)) by lia. by rewrite Hm, Hout. }
    rewrite Hst, Hpend. case_decide as Hg; split; try lia.
    + apply drop_ge. unfold zlen. lia.
    + specialize (Hstart Hg). lia.
    + specialize (Hstart Hg). rewrite Hend. unfold slice. rewrite take_ge; [done|].
      rewrite length_drop. unfold zlen. lia.
  - assert (Hgo : (zlen bs <=? w_i w) = false) by lia.
    destruct (decide (a_st a = Ground)) as [Hg|Hng].
    + destruct (position ESC (drop (Z.to_nat (w_i w)) bs)) as [k|] eqn:Hk.
      * destruct (skip_matches bs map w a k Hmt Hg Hok Hk) as (a1 & Hmt1 & Hok1 & ->).
        cbn zeta in *.
        match type of Hmt1 with matches _ ?w1 _ =>
          destruct (IH (Z.to_nat (zlen bs - w_i w1)) ltac:(simpl; lia) w1 a1 eq_refl Hmt1 Hok1)
            as (ps & Hl & Hps) end.
        exists ps. split; [|done]. eapply loops_step; [|exact Hl].
        unfold walk_body. rewrite Hgo, Hst, decide_True by done. by rewrite Hk.
      * destruct (skip_run (offset map) _ a Hg Hpend Hok Hk) as (S1 & S2 & S3 & S4 & S5).
        eexists. split; [apply loops_done; unfold walk_body|].
        { rewrite Hgo, Hst, decide_True by done. by rewrite Hk, S4, S5, Hm, Hout. }
        rewrite S2. split; [pose proof (zlen_nonneg bs); lia|].
        apply drop_ge. unfold zlen. lia.
    + pose proof (walk_byte_matches bs map w a Hmt Hng ltac:(lia)) as Hmt1.
      pose proof (a_step_ok (offset map) a (byte_at bs (w_i w)) Hok) as Hok1.
      assert (w_i (advance (walk_byte bs map w)) = w_i w + 1) as Hadv.
      { unfold walk_byte, esc_follower. repeat case_match; done. }
      destruct (IH (Z.to_nat (zlen bs - (w_i w + 1))) ltac:(lia) _ _
        ltac:(by rewrite Hadv) Hmt1 Hok1) as (ps & Hl & Hps).
      rewrite drop_cons_byte_at by lia. exists ps.
      rewrite Hadv in Hl, Hps. split; [|done]. eapply loops_step; [|exact Hl].
      unfold walk_body. by rewrite Hgo, Hst, decide_False by done.
Qed.

Lemma walk_auto m bs map :
  mode_ok m ->
  let a := a_run (offset map) (auto_start m) bs in
  exists ps, walk m bs map = (ps, a_m a, a_out a) /\ drop (Z.to_nat ps) bs = a_pend a.
Proof.
  intros Hok a.
  destruct (walk_loops bs map (walk_start m) (auto_start m)) as (ps & Hl & _ & Hps);
    auto using walk_start_matches.
  exists ps. split; [|done]. unfold walk.
  erewrite (loops_loop (walk_body bs map) (fun w => Z.to_nat (zlen bs - w_i w)) (fun _ => True));
    [|..|exact Hl]; [done| |done|unfold zlen; simpl; lia].
  intros w w' _. unfold walk_body. destruct (_ <=? _) eqn:E; [done|].
  destruct (decide _); [destruct (position _ _)|]; intros; simplify_eq; simpl.
  - split; [done|lia].
  - split; [done|]. unfold walk_byte, esc_follower. repeat case_match; simpl; lia.
Qed.

Definition cap_tail (t : bytes) : bytes :=
  if MAX_PARTIAL_ESCAPE_TAIL <? zlen t then [] else t.

Lemma scan_eq m chunk :
  mode_ok m ->
  let map := mkChunkMap (zlen (scan_tail m)) (zlen chunk) in
  let a := a_run (offset map) (auto_start (set_tail [] m)) (scan_tail m ++ chunk) in
  scan m chunk = (mkScanResult (a_out a), set_tail (cap_tail (a_pend a)) (a_m a)).
Proof.
  intros Hok map a. unfold scan.
  destruct (walk_auto (set_tail [] m) (scan_tail m ++ chunk) map) as (ps & Hw & Hps).
  { destruct Hok. by constructor. }
  fold map. rewrite Hw, Hps. done.
Qed.

(** * Replaying the parked tail *)

Definition replays (a : Auto) : Prop :=
  forall off m',
    let r := a_run off (auto_start m') (a_pend a) in
    a_st r = a_st a /\ a_pend r = a_pend a /\ a_body r = a_body a /\
    a_m r = m' /\ a_out r = [].

Lemma ground_replays m out a : replays (to_ground m out a).
Proof. intros off m'. done. Qed.

(** A sequence that just grew by one byte replays if it did before. *)
Lemma grown_replays a p st st' body body' code m :
  replays (mkAuto st p body (a_pos a) (a_m a) (a_out a)) ->
  (forall off r, a_st r = st -> a_pend r = p -> a_body r = body ->
    a_step off r code = pending st' (p ++ [code]) body' (a_m r) r) ->
  replays (pending st' (p ++ [code]) body' m a).
Proof.
  intros Hr Hstep off m'. destruct (Hr off m') as (H1 & H2 & H3 & H4 & H5). simpl in *.
  rewrite a_run_app. simpl. rewrite (Hstep off _ H1 H2 H3). by rewrite H4.
Qed.

Lemma esc_replays a m : replays (pending Esc [ESC] [] m a).
Proof. intros off m'. done. Qed.

Lemma follow_replays off p code m a :
  replays (mkAuto Esc p [] (a_pos a) (a_m a) (a_out a)) ->
  replays (a_follow off p code m a).
Proof.
  intros Hr. unfold a_follow.
  destruct (code =? ESC) eqn:E1.
  { apply Z.eqb_eq in E1 as ->. apply esc_replays. }
  repeat case_match; auto using ground_replays;
    (eapply (grown_replays a p Esc); [exact Hr|]); intros off' r H1' H2' H3';
    unfold a_step; rewrite H1', H2'; unfold a_follow; rewrite E1;
    repeat match goal with H : ?b = _ |- context [if ?b then _ else _] => rewrite H end; done.
Qed.

Definition quiet (a : Auto) : Prop := a_st a = Esc -> a_body a = [].

Lemma step_replays off a code :
  quiet a -> replays a -> replays (a_step off a code) /\ quiet (a_step off a code).
Proof.
  intros Hq Hr. destruct a as [st p body pos m out]. unfold quiet in *. cbn in Hq.
  assert (Hf : forall q m0, quiet (a_follow off q code m0 (mkAuto st p body pos m out))).
  { intros. unfold a_follow, quiet. repeat case_match; done. }
  assert (Hesc2 : forall m0, replays (a_follow off [ESC] code m0 (mkAuto st p body pos m out))).
  { intros. apply follow_replays. intros off' m'. done. }
  destruct st; unfold a_step; cbn [a_st a_pend a_body a_m a_out].
  2: { split; [|apply Hf]. apply follow_replays. rewrite (Hq eq_refl) in Hr. exact Hr. }
  all: repeat match goal with
       | |- context [if ?c =? ESC then _ else _] =>
           is_var c; let H := fresh in destruct (c =? ESC) eqn:H;
           [apply Z.eqb_eq in H; subst c|]
       | |- context [if ?b then _ else _] => destruct b eqn:?
       | |- context [csi_marker ?b] => destruct (csi_marker b) as [mk ps]
       | |- context [apply_csi ?a1 ?a2 ?a3 ?a4 ?a5 ?a6] => destruct (apply_csi a1 a2 a3 a4 a5 a6)
       end; split; try done; auto using ground_replays, esc_replays; try (apply Hf).
  all: (eapply grown_replays; [exact Hr|]); intros off' r H1' H2' H3';
    unfold a_step; rewrite H1', H2', ?H3';
    repeat match goal with H : ?b = _ |- context [if ?b then _ else _] => rewrite H end; done.
Qed.

Lemma run_replays off a bs :
  quiet a -> replays a -> replays (a_run off a bs) /\ quiet (a_run off a bs).
Proof.
  revert a. induction bs as [|b bs IH]; intros a Hq Hr; simpl; [done|].
  destruct (step_replays off a b Hq Hr). by apply IH.
Qed.

(** * Runs that differ only in positions and emitted splits *)

Definition same (a a' : Auto) : Prop :=
  a_st a = a_st a' /\ a_pend a = a_pend a' /\ a_body a = a_body a' /\ a_m a = a_m a'.

Lemma same_trans a b c : same a b -> same b c -> same a c.
Proof. unfold same. intuition congruence. Qed.

Lemma apply_csi_modes mk ps f s e s' e' m out out' :
  (apply_csi mk ps f s e (m, out)).1 = (apply_csi mk ps f s' e' (m, out')).1.
Proof.
  unfold apply_csi. repeat case_match; try done.
  generalize (split_params ps) as l. clear. intros l. revert m out out'.
  induction l as [|p l IH]; intros m out out'; [done|].
  cbn [fold_left]. unfold dec_private_mode at 2 4.
  repeat case_match; apply IH.
Qed.

Lemma step_same off off' a a' c : same a a' -> same (a_step off a c) (a_step off' a' c).
Proof.
  destruct a as [st p body pos m out], a' as [st' p' body' pos' m' out'].
  intros (H1 & H2 & H3 & H4); cbn in *; subst st' p' body' m'.
  unfold a_step; cbn [a_st a_pend a_body a_pos a_m a_out].
  destruct (csi_marker body) as [mk ps].
  pose proof (apply_csi_modes mk ps c (off (pos - zlen p)) (off (pos + 1))
    (off' (pos' - zlen p)) (off' (pos' + 1)) m out out') as Hcsi.
  destruct (apply_csi _ _ _ _ _ (m, out)) as [m1 o1].
  destruct (apply_csi _ _ _ _ _ (m, out')) as [m2 o2]. cbn in Hcsi. subst m2.
  unfold a_follow, pending, to_ground; cbn. repeat case_match; done.
Qed.

Lemma run_same off off' a a' bs : same a a' -> same (a_run off a bs) (a_run off' a' bs).
Proof.
  revert a a'. induction bs as [|b bs IH]; intros a a' H; simpl; [done|].
  apply IH. by apply step_same.
Qed.

Lemma start_quiet m : quiet (auto_start m).
Proof. done. Qed.

Lemma start_replays m : replays (auto_start m).
Proof. intros off m'. done. Qed.

(** Resuming from the parked tail is resuming the automaton. *)
Lemma resume_same off off' m l r :
  same (a_run off (auto_start (a_m (a_run off' (auto_start m) l)))
          (a_pend (a_run off' (auto_start m) l) ++ r))
       (a_run off' (auto_start m) (l ++ r)).
Proof.
  rewrite !a_run_app.
  destruct (run_replays off' (auto_start m) l (start_quiet m) (start_replays m)) as [Hr _].
  set (a := a_run off' (auto_start m) l) in *.
  apply run_same. destruct (Hr off (a_m a)) as (? & ? & ? & ? & _). done.
Qed.

(** * Split points *)

Definition off_sorted (ub : Z) (l : list (Z * Split)) : Prop :=
  StronglySorted (fun x y => x.1 <= y.1) l /\ Forall (fun x => 0 <= x.1 <= ub) l.

Lemma off_sorted_snoc ub v s l :
  off_sorted ub l -> 0 <= ub <= v -> off_sorted v (l ++ [(v, s)]).
Proof.
  intros [Hs Hf] Hv. split.
  - induction Hs as [|x l Hs IH Hx]; simpl; [repeat constructor|].
    apply Forall_cons in Hf as [Hxb Hf].
    constructor; [by apply IH|]. apply Forall_app. split; [done|].
    constructor; [simpl; lia|done].
  - apply Forall_app. split; [|constructor; [simpl; lia|done]].
    eapply Forall_impl; [exact Hf|]. simpl. lia.
Qed.

Lemma off_sorted_weaken ub v l : off_sorted ub l -> ub <= v -> off_sorted v l.
Proof.
  intros [Hs Hf] Hv. split; [done|].
  eapply Forall_impl; [exact Hf|]. simpl. lia.
Qed.

Lemma dec_private_modes_sorted en c l s :
  0 <= c -> off_sorted c s.2 ->
  off_sorted c (fold_left (fun s p => dec_private_mode en c p s) l s).2.
Proof.
  intros Hc. revert s. induction l as [|p l IH]; intros s Hs; simpl; [done|].
  apply IH. destruct s as [m out]. unfold dec_private_mode. simpl in *.
  repeat case_match; simpl; auto. eapply off_sorted_snoc; eauto. lia.
Qed.

Lemma apply_csi_sorted mk ps f s e st ub :
  off_sorted ub st.2 -> 0 <= ub <= s -> s <= e ->
  off_sorted e (apply_csi mk ps f s e st).2.
Proof.
  destruct st as [m out]. intros H Hs He.
  assert (Hw : off_sorted e out) by (eapply off_sorted_weaken; [exact H|lia]).
  unfold apply_csi. repeat case_match; simpl; auto.
  - apply off_sorted_weaken with s; [|lia]. apply dec_private_modes_sorted; [lia|].
    eapply off_sorted_weaken; [exact H|lia].
  - eapply off_sorted_snoc; eauto. lia.
Qed.

(** Every split so far lies at or before the start of the pending sequence. *)
Definition split_inv (off : Z -> Z) (a : Auto) : Prop :=
  off_sorted (off (a_pos a - zlen (a_pend a))) (a_out a) /\ zlen (a_pend a) <= a_pos a /\
  ((a_st a = OscEsc \/ a_st a = StrEsc) -> 1 <= zlen (a_pend a)).

Section split_order.
Context (off : Z -> Z).
Context (off_mono : forall x y, x <= y -> 0 <= off x <= off y).

Lemma follow_split_inv p c m a :
  off_sorted (off (a_pos a - zlen p)) (a_out a) -> zlen p <= a_pos a ->
  split_inv off (a_follow off p c m a).
Proof.
  intros H Hp. pose proof (zlen_nonneg p).
  unfold a_follow. repeat case_match; unfold split_inv, pending, to_ground; cbn;
    (split; [|split; [zlen_lia|intuition discriminate]]);
    try (eapply off_sorted_weaken; [exact H|]; apply off_mono; zlen_lia).
  rewrite zlen_nil, Z.sub_0_r. eapply off_sorted_snoc; [exact H|]. apply off_mono. lia.
Qed.

Lemma step_split_inv a c : split_inv off a -> split_inv off (a_step off a c).
Proof.
  intros (H & Hp & He). pose proof (zlen_nonneg (a_pend a)).
  unfold a_step. destruct (a_st a).
  4: { destruct (csi_marker _) as [mk ps].
    pose proof (apply_csi_sorted mk ps c (off (a_pos a - zlen (a_pend a)))
      (off (a_pos a + 1)) (a_m a, a_out a) (off (a_pos a - zlen (a_pend a)))) as Hcsi.
    destruct (apply_csi _ _ _ _ _ _) as [m' o']. cbn in Hcsi.
    repeat case_match; unfold split_inv, pending, to_ground; cbn;
      (split; [|split; [zlen_lia|intuition discriminate]]);
      try (eapply off_sorted_weaken; [exact H|]; apply off_mono; zlen_lia).
    rewrite zlen_nil, Z.sub_0_r. apply Hcsi; [done|apply off_mono; lia|apply off_mono; lia]. }
  all: try specialize (He (or_introl eq_refl)); try specialize (He (or_intror eq_refl)).
  all: repeat case_match; try (apply follow_split_inv; [|zlen_lia]);
    unfold split_inv, pending, to_ground; cbn;
    try (split; [|split; [zlen_lia|intuition (try discriminate; zlen_lia)]]);
    try (eapply off_sorted_weaken; [exact H|]; apply off_mono; zlen_lia).
Qed.

Lemma run_split_inv a bs : split_inv off a -> split_inv off (a_run off a bs).
Proof. revert a. induction bs; intros; simpl; auto using step_split_inv. Qed.
End split_order.

(** * Properties *)

(** The modes after a chunk, and whether the cap made the scanner forget an
    unfinished sequence. *)
Definition scan_modes (m : ModeState) (chunk : bytes) : ModeState := snd (scan m chunk).

Definition unfinished (m : ModeState) (chunk : bytes) : bytes :=
  let combined := scan_tail m ++ chunk in
  let map := mkChunkMap (zlen (scan_tail m)) (zlen chunk) in
  let '(ps, _, _) := walk (set_tail [] m) combined map in drop (Z.to_nat ps) combined.

Definition fits (m : ModeState) (chunk : bytes) : bool :=
  zlen (unfinished m chunk) <=? MAX_PARTIAL_ESCAPE_TAIL.

Fixpoint scan_all (m : ModeState) (chunks : list bytes) : ModeState :=
  match chunks with
  | [] => m
  | c :: cs => scan_all (scan_modes m c) cs
  end.

(** No chunk boundary falls into a sequence longer than the cap. *)
Fixpoint all_fit (m : ModeState) (chunks : list bytes) : bool :=
  match chunks with
  | [] => true
  | c :: cs => (bool_decide (cs = []) || fits m c) && all_fit (scan_modes m c) cs
  end.

Lemma unfinished_eq m chunk :
  mode_ok m ->
  unfinished m chunk =
    a_pend (a_run (offset (mkChunkMap (zlen (scan_tail m)) (zlen chunk)))
              (auto_start (set_tail [] m)) (scan_tail m ++ chunk)).
Proof.
  intros Hok. unfold unfinished.
  destruct (walk_auto (set_tail [] m) (scan_tail m ++ chunk)
    (mkChunkMap (zlen (scan_tail m)) (zlen chunk))) as (ps & -> & <-); [|done].
  destruct Hok. by constructor.
Qed.

Lemma set_tail_ok t m : mode_ok m -> mode_ok (set_tail t m).
Proof. intros []. by constructor. Qed.

Lemma set_tail_set_tail t t' m : set_tail t (set_tail t' m) = set_tail t m.
Proof. done. Qed.

Lemma scan_modes_ok m chunk : mode_ok m -> mode_ok (scan_modes m chunk).
Proof.
  intros Hok. unfold scan_modes. rewrite scan_eq by done. cbn [snd].
  apply set_tail_ok, a_run_ok. by apply set_tail_ok.
Qed.

Lemma dec_private_mode_tail e c p s :
  scan_tail (dec_private_mode e c p s).1 = scan_tail s.1.
Proof. destruct s. unfold dec_private_mode. repeat case_match; done. Qed.

Lemma dec_private_modes_tail en c l s :
  scan_tail (fold_left (fun s p => dec_private_mode en c p s) l s).1 = scan_tail s.1.
Proof.
  revert s. induction l as [|p l IH]; intros s; simpl; [done|].
  by rewrite IH, dec_private_mode_tail.
Qed.

Lemma apply_csi_tail mk ps f s e st :
  scan_tail (apply_csi mk ps f s e st).1 = scan_tail st.1.
Proof.
  destruct st as [m out]. unfold apply_csi, kitty_push, kitty_set.
  repeat case_match; rewrite ?dec_private_modes_tail; done.
Qed.

Lemma apply_osc_tail p m : scan_tail (apply_osc p m) = scan_tail m.
Proof. unfold apply_osc. repeat case_match; done. Qed.

Lemma a_follow_tail off p c m a : scan_tail (a_m (a_follow off p c m a)) = scan_tail m.
Proof. unfold a_follow. repeat case_match; done. Qed.

Lemma a_step_tail off a c : scan_tail (a_m (a_step off a c)) = scan_tail (a_m a).
Proof.
  unfold a_step. destruct (a_st a).
  4: { destruct (csi_marker _) as [mk ps].
    pose proof (apply_csi_tail mk ps c (off (a_pos a - zlen (a_pend a))) (off (a_pos a + 1))
      (a_m a, a_out a)) as H.
    destruct (apply_csi _ _ _ _ _ _). repeat case_match; done. }
  all: repeat case_match; simpl; rewrite ?a_follow_tail, ?apply_osc_tail; done.
Qed.

Lemma a_run_tail off a bs : scan_tail (a_m (a_run off a bs)) = scan_tail (a_m a).
Proof.
  revert a. induction bs as [|b bs IH]; intros a; simpl; [done|]. by rewrite IH, a_step_tail.
Qed.

Lemma scan_two m c r :
  mode_ok m -> fits m c = true -> scan_modes (scan_modes m c) r = scan_modes m (c ++ r).
Proof.
  intros Hok Hfit. unfold fits in Hfit. rewrite unfinished_eq in Hfit by done.
  pose proof (scan_modes_ok m c Hok) as Hok1. unfold scan_modes in *.
  rewrite (scan_eq (snd (scan m c))) by done. rewrite (scan_eq m (c ++ r)) by done.
  cbn [snd]. rewrite (scan_eq m c) by done. cbn [snd scan_tail set_tail].
  set (off1 := offset (mkChunkMap (zlen (scan_tail m)) (zlen c))) in *.
  set (A := a_run off1 (auto_start (set_tail [] m)) (scan_tail m ++ c)) in *.
  assert (cap_tail (a_pend A) = a_pend A) as ->.
  { unfold cap_tail. destruct (_ <? _) eqn:E; [lia|done]. }
  replace (set_tail [] (set_tail (a_pend A) (a_m A))) with (a_m A).
  2: { rewrite set_tail_set_tail. pose proof (a_run_tail off1 (auto_start (set_tail [] m))
         (scan_tail m ++ c)) as Ht. fold A in Ht. cbn in Ht. destruct (a_m A); simpl in *.
       by subst. }
  change (scan_tail (set_tail (a_pend A) (a_m A))) with (a_pend A).
  rewrite (app_assoc (scan_tail m)).
  match goal with |- set_tail (cap_tail (a_pend ?x)) _ = set_tail (cap_tail (a_pend ?y)) _ =>
    assert (same x y) as (_ & -> & _ & ->) end; [|done].
  eapply (same_trans _ _ _ (resume_same _ off1 (set_tail [] m) (scan_tail m ++ c) r)).
  by apply run_same.
Qed.

Lemma scan_splits_facts m chunk :
  mode_ok m ->
  StronglySorted (fun x y => x.1 <= y.1) (splits (fst (scan m chunk))) /\
  Forall (fun x => 0 <= x.1 <= zlen chunk) (splits (fst (scan m chunk))).
Proof.
  intros Hok. rewrite scan_eq by done. cbn [fst splits].
  set (off := offset _). set (a := a_run _ _ _).
  assert (Hmono : forall x y, x <= y -> 0 <= off x <= off y).
  { intros x y. unfold off, offset, saturating_sub. simpl. pose proof (zlen_nonneg chunk). lia. }
  assert (split_inv off a) as ([Hs Hf] & _).
  { apply run_split_inv; [exact Hmono|]. split; [|split; [done|intuition discriminate]].
    split; constructor. }
  split; [done|]. eapply Forall_impl; [exact Hf|]. intros x [H0 Hx]. split; [lia|].
  etransitivity; [exact Hx|]. unfold off, offset. simpl. lia.
Qed.

(** C14: fold-safety. However a byte stream is cut into chunks, as long as no cut
    falls into an escape sequence longer than the cap, scanning the chunks one
    after the other leaves exactly the tracked modes, parked tail and bell count
    that scanning the whole stream at once leaves. *)
Theorem scan_is_chunking_independent m c cs :
  mode_ok m -> all_fit m (c :: cs) = true ->
  scan_all m (c :: cs) = scan_modes m (concat (c :: cs)).
Proof.
  revert m c. induction cs as [|c2 cs IH]; intros m c Hok Hfit.
  - simpl. by rewrite app_nil_r.
  - cbn [all_fit] in Hfit. apply andb_prop in Hfit as [Hc Hcs].
    rewrite bool_decide_eq_false_2 in Hc by done.
    change (scan_all m (c :: c2 :: cs)) with (scan_all (scan_modes m c) (c2 :: cs)).
    rewrite IH; [|by apply scan_modes_ok|exact Hcs].
    change (concat (c :: c2 :: cs)) with (c ++ concat (c2 :: cs)).
    by apply scan_two.
Qed.

Definition ex_stream : bytes :=
  str "a" ++ [ESC] ++ str "[?1049;1004h" ++ [BEL; ESC] ++ str "]0;ti" ++ [ESC] ++ str "[>5u"
    ++ [ESC] ++ str "[3".

Lemma scan_is_chunking_independent_witness :
  scan_all mode_new [take 5 ex_stream; slice ex_stream 5 20; drop 20 ex_stream]
    = scan_modes mode_new ex_stream /\
  kitty_flags (scan_modes mode_new ex_stream) = 5.
Proof.
  split; [|vm_compute; reflexivity].
  apply (scan_is_chunking_independent mode_new (take 5 ex_stream)
    [slice ex_stream 5 20; drop 20 ex_stream]);
    [apply mode_new_ok|vm_compute; reflexivity].
Defined.

(** C31: the index-based scanner, with its jump over plain text and its parked
    tail, computes the byte-at-a-time reference automaton started in ground on
    the parked tail followed by the chunk. *)
Theorem scan_refines_automaton m chunk :
  mode_ok m ->
  let a := a_run (offset (mkChunkMap (zlen (scan_tail m)) (zlen chunk)))
             (auto_start (set_tail [] m)) (scan_tail m ++ chunk) in
  scan m chunk = (mkScanResult (a_out a), set_tail (cap_tail (a_pend a)) (a_m a)).
Proof. apply scan_eq. Qed.

Lemma scan_refines_automaton_witness :
  let a := a_run (offset (mkChunkMap 0 (zlen ex_stream))) (auto_start mode_new) ex_stream in
  scan mode_new ex_stream
    = (mkScanResult (a_out a), set_tail (cap_tail (a_pend a)) (a_m a)).
Proof. apply (scan_refines_automaton mode_new ex_stream mode_new_ok). Defined.

(** The split points of a chunk come in ascending order and are offsets into
    that chunk, even for a sequence that began in the parked tail. *)
Theorem scan_splits_sorted m chunk :
  mode_ok m ->
  StronglySorted (fun x y => x.1 <= y.1) (splits (fst (scan m chunk))) /\
  Forall (fun x => 0 <= x.1 <= zlen chunk) (splits (fst (scan m chunk))).
Proof. apply scan_splits_facts. Qed.

Lemma scan_splits_sorted_witness :
  splits (fst (scan mode_new ex_stream)) = [(1, SnapshotPrimary)] /\
  Forall (fun x => 0 <= x.1 <= zlen ex_stream) (splits (fst (scan mode_new ex_stream))).
Proof.
  split; [vm_compute; reflexivity|].
  apply (scan_splits_sorted mode_new ex_stream mode_new_ok).
Defined.

(** C39: scanning keeps the tracked modes in range: the parked tail within its
    cap, the kitty stack within its cap and made of 32-bit flags, title and cwd
    well-formed text, the bell counter a 32-bit number. *)
Theorem scan_preserves_bounds m chunk :
  mode_ok m ->
  mode_ok (scan_modes m chunk) /\
  zlen (partial_escape_tail (scan_modes m chunk)) <= MAX_PARTIAL_ESCAPE_TAIL.
Proof.
  intros Hok. split; [by apply scan_modes_ok|].
  unfold scan_modes. rewrite scan_eq by done.
  unfold partial_escape_tail, cap_tail, MAX_PARTIAL_ESCAPE_TAIL. simpl.
  destruct (_ <? _) eqn:E; [rewrite zlen_nil; lia|lia].
Qed.

Lemma scan_preserves_bounds_witness :
  zlen (partial_escape_tail (scan_modes mode_new (ESC :: 93 :: repeat 65 5000)))
    <= MAX_PARTIAL_ESCAPE_TAIL.
Proof. apply (scan_preserves_bounds mode_new _ mode_new_ok). Defined.

(** The tracked scroll region is not always a region: a bottom margin past
    16 bits wraps, and the 1-based pair then has its bottom above its top, which
    the rehydrate preamble replays. *)
Theorem decstbm_can_invert_region :
  scroll_region (scan_modes mode_new ([ESC] ++ str "[2;65537r")) = Some (2, 1).
Proof. vm_compute. reflexivity. Qed.
