(* ===== verification/Emulator.v ===== *)
(** The daemon-side VT emulator (grove-daemon/src/emulator.rs): the vt100 parser,
    which is third-party code and an interface here, wrapped by the mode scanner,
    the frozen primary buffer and the saved-cursor mirror, and the snapshot
    serializer. *)

From Stdlib Require Import Sorted.
From S2P Require Import Prelude Utf8 ModeState ModeScan.

(** * The vt100 crate, as far as the emulator reads it *)

Inductive MouseProtocolMode := MouseNone | Press | PressRelease | ButtonMotion | AnyMotion.
Inductive MouseProtocolEncoding := EncDefault | EncUtf8 | EncSgr.

Class Vt100 (P : Type) := {
  vt_new : Z -> Z -> Z -> P;                (* rows, cols, scrollback *)
  vt_process : P -> bytes -> P;
  vt_set_size : P -> Z -> Z -> P;           (* rows, cols *)
  vt_set_scrollback : P -> Z -> P;
  vt_size : P -> Z * Z;                     (* rows, cols *)
  vt_alternate_screen : P -> bool;
  vt_contents_formatted : P -> bytes;
  vt_cursor_position : P -> Z * Z;          (* row, col *)
  vt_bracketed_paste : P -> bool;
  vt_application_cursor : P -> bool;
  vt_application_keypad : P -> bool;
  vt_mouse_protocol_mode : P -> MouseProtocolMode;
  vt_mouse_protocol_encoding : P -> MouseProtocolEncoding;
}.

(** A parser is a stream consumer: feeding a byte string in two pieces is feeding
    it at once. *)
Class Vt100Laws (P : Type) `{Vt100 P} : Prop := {
  vt_process_nil : forall p : P, vt_process p [] = p;
  vt_process_app : forall (p : P) a b, vt_process (vt_process p a) b = vt_process p (a ++ b);
}.

Definition DEFAULT_SCROLLBACK_LINES : Z := 2000.

Record SnapshotOptions := mkSnapshotOptions { absolute_cursor_tail : bool }.

Definition default_options : SnapshotOptions := mkSnapshotOptions false.

Record DaemonSnapshot := mkDaemonSnapshot {
  scrollback_ansi : bytes;
  rehydrate_sequences : bytes;
  snapshot_ansi : bytes;
  pending_escape_tail : bytes;
  snap_cols : Z;
  snap_rows : Z;
  is_alternate_screen : bool;
  kitty_keyboard_flags : Z;
  snap_cwd : option bytes;
  snap_title : option bytes;
  output_sequence : Z;
}.

Definition warm_payload (s : DaemonSnapshot) : bytes :=
  scrollback_ansi s ++ rehydrate_sequences s ++ snapshot_ansi s.

(** [ESC \[ row ; col H], 1-based. *)
Definition cup (row col : Z) : bytes :=
  [ESC] ++ str "[" ++ show_dec (wrap 16 (row + 1)) ++ str ";" ++ show_dec (wrap 16 (col + 1))
    ++ str "H".

(** Re-arm the saved cursor: absolute position, then DECSC. Skipped at home. *)
Definition saved_cursor_injection (saved : option (Z * Z)) (cols rows : Z) : option bytes :=
  match saved with
  | None => None
  | Some (row, col) =>
      let y := Z.min row (saturating_sub rows 1) in
      let x := Z.min col (saturating_sub cols 1) in
      if (x =? 0) && (y =? 0) then None else Some (cup y x ++ [ESC] ++ str "7")
  end.

Section emulator.
Context {P : Type} `{Vt100 P}.

Record DaemonEmulator := mkEmulator {
  parser : P;
  modes : ModeState;
  primary_frozen : option bytes;
  saved_cursor : option (Z * Z);
}.

Definition emulator_new (rows cols scrollback_lines : Z) : DaemonEmulator :=
  mkEmulator (vt_new rows cols scrollback_lines) mode_new None None.

(** Drop the frozen primary once the parser has left the alternate screen. *)
Definition reconcile_alt (e : DaemonEmulator) : DaemonEmulator :=
  if negb (vt_alternate_screen (parser e))
  then mkEmulator (parser e) (modes e) None (saved_cursor e)
  else e.

(** One split point: feed up to it, then act. [cursor] is how far the chunk was
    fed. *)
Definition process_split (chunk : bytes) (s : DaemonEmulator * Z) (sp : Z * Split)
    : DaemonEmulator * Z :=
  let (e, cursor) := s in
  let offset := Z.min sp.1 (zlen chunk) in
  let (p, cursor) :=
    if cursor <? offset then (vt_process (parser e) (slice chunk cursor offset), offset)
    else (parser e, cursor) in
  match sp.2 with
  | SnapshotPrimary =>
      if negb (vt_alternate_screen p)
      then (mkEmulator p (modes e) (Some (vt_contents_formatted p)) (saved_cursor e), cursor)
      else (mkEmulator p (modes e) (primary_frozen e) (saved_cursor e), cursor)
  | CaptureSavedCursor =>
      (mkEmulator p (modes e) (primary_frozen e) (Some (vt_cursor_position p)), cursor)
  end.

Definition process (e : DaemonEmulator) (chunk : bytes) : DaemonEmulator :=
  let (sc, m) := scan (modes e) chunk in
  let e := mkEmulator (parser e) m (primary_frozen e) (saved_cursor e) in
  if bool_decide (splits sc = []) then
    reconcile_alt (mkEmulator (vt_process (parser e) chunk) m (primary_frozen e) (saved_cursor e))
  else
    let (e, cursor) := fold_left (process_split chunk) (splits sc) (e, 0) in
    let e :=
      if cursor <? zlen chunk
      then mkEmulator (vt_process (parser e) (drop (Z.to_nat cursor) chunk)) (modes e)
             (primary_frozen e) (saved_cursor e)
      else e in
    reconcile_alt e.

Definition resize (e : DaemonEmulator) (cols rows : Z) : DaemonEmulator :=
  mkEmulator (vt_set_size (parser e) rows cols) (modes e) (primary_frozen e) (saved_cursor e).

Definition clear_scrollback (e : DaemonEmulator) : DaemonEmulator :=
  mkEmulator (vt_set_scrollback (parser e) 0) (modes e) (primary_frozen e) (saved_cursor e).

Definition applied_size (e : DaemonEmulator) : Z * Z :=
  let (rows, cols) := vt_size (parser e) in (cols, rows).

Definition emulator_take_bells (e : DaemonEmulator) : Z * DaemonEmulator :=
  let (n, m) := take_bells (modes e) in
  (n, mkEmulator (parser e) m (primary_frozen e) (saved_cursor e)).

Definition serialize_body (e : DaemonEmulator) (opts : SnapshotOptions) : bytes :=
  let out := vt_contents_formatted (parser e) in
  if negb (absolute_cursor_tail opts) then out
  else
    let (rows, cols) := vt_size (parser e) in
    let (row, col) := vt_cursor_position (parser e) in
    if (cols <=? col) || (rows <=? row) then out
    else out ++ default [] (saved_cursor_injection (saved_cursor e) cols rows) ++ cup row col.

Definition mouse_mode_sequence (m : MouseProtocolMode) : bytes :=
  match m with
  | MouseNone => []
  | Press => [ESC] ++ str "[?9h"
  | PressRelease => [ESC] ++ str "[?1000h"
  | ButtonMotion => [ESC] ++ str "[?1002h"
  | AnyMotion => [ESC] ++ str "[?1003h"
  end.

Definition rehydrate_preamble (e : DaemonEmulator) : bytes :=
  let p := parser e in
  (if vt_alternate_screen p then [ESC] ++ str "[0m" ++ [ESC] ++ str "[?1049h" else [])
  ++ (if vt_bracketed_paste p then [ESC] ++ str "[?2004h" else [])
  ++ (if vt_application_cursor p then [ESC] ++ str "[?1h" else [])
  ++ (if vt_application_keypad p then [ESC] ++ str "=" else [])
  ++ mouse_mode_sequence (vt_mouse_protocol_mode p)
  ++ (if sgr_pixels (modes e) then [ESC] ++ str "[?1016h"
      else match vt_mouse_protocol_encoding p with
           | EncSgr => [ESC] ++ str "[?1006h"
           | _ => []
           end)
  ++ (if focus (modes e) then [ESC] ++ str "[?1004h" else [])
  ++ match scroll_region (modes e) with
     | Some (top, bottom) =>
         let (row, col) := vt_cursor_position p in
         [ESC] ++ str "[" ++ show_dec top ++ str ";" ++ show_dec bottom ++ str "r"
           ++ cup row col
     | None => []
     end.

Definition snapshot (e : DaemonEmulator) (opts : SnapshotOptions) (output_sequence : Z)
    : DaemonSnapshot :=
  let p := parser e in
  let (rows, cols) := vt_size p in
  let is_alt := vt_alternate_screen p in
  let body := serialize_body e opts in
  let (sb, sn) := if is_alt then (default [] (primary_frozen e), body) else (body, []) in
  mkDaemonSnapshot sb (rehydrate_preamble e) sn (partial_escape_tail (modes e)) cols rows
    is_alt (kitty_flags (modes e)) (cwd (modes e)) (title (modes e)) output_sequence.

(** * Lemmas *)

Definition emulator_ok (e : DaemonEmulator) : Prop :=
  mode_ok (modes e) /\
  (primary_frozen e <> None -> vt_alternate_screen (parser e) = true).

Lemma reconcile_alt_frozen e :
  primary_frozen (reconcile_alt e) <> None ->
  vt_alternate_screen (parser (reconcile_alt e)) = true.
Proof. unfold reconcile_alt. destruct (vt_alternate_screen (parser e)) eqn:E; simpl; done. Qed.

Lemma reconcile_alt_parser e : parser (reconcile_alt e) = parser e.
Proof. unfold reconcile_alt. by destruct (negb _). Qed.

Lemma reconcile_alt_modes e : modes (reconcile_alt e) = modes e.
Proof. unfold reconcile_alt. by destruct (negb _). Qed.

Context `{!Vt100Laws P}.

(** The segments fed so far are a prefix of the chunk. *)
Lemma process_split_inv chunk e p0 cursor sp :
  0 <= cursor <= zlen chunk -> 0 <= sp.1 ->
  parser e = vt_process p0 (take (Z.to_nat cursor) chunk) ->
  let r := process_split chunk (e, cursor) sp in
  0 <= r.2 <= zlen chunk /\ parser r.1 = vt_process p0 (take (Z.to_nat r.2) chunk) /\
  modes r.1 = modes e.
Proof.
  intros Hc Hsp Hp. unfold process_split. destruct sp as [o s]; cbn [fst snd] in *.
  destruct (cursor <? Z.min o (zlen chunk)) eqn:E.
  - assert (Heq : vt_process (parser e) (slice chunk cursor (Z.min o (zlen chunk)))
      = vt_process p0 (take (Z.to_nat (Z.min o (zlen chunk))) chunk)).
    { rewrite Hp, vt_process_app. f_equal. unfold slice.
      rewrite <- (take_drop (Z.to_nat cursor) (take (Z.to_nat (Z.min o (zlen chunk))) chunk)).
      rewrite take_take, skipn_firstn_comm. f_equal; f_equal; lia. }
    destruct s; [destruct (negb _)|]; simpl; split_and!; (lia || done).
  - destruct s; [destruct (negb _)|]; simpl; split_and!; (lia || done).
Qed.

Lemma process_splits_inv chunk sps e p0 cursor :
  Forall (fun sp : Z * Split => 0 <= sp.1) sps -> 0 <= cursor <= zlen chunk ->
  parser e = vt_process p0 (take (Z.to_nat cursor) chunk) ->
  let r := fold_left (process_split chunk) sps (e, cursor) in
  0 <= r.2 <= zlen chunk /\ parser r.1 = vt_process p0 (take (Z.to_nat r.2) chunk) /\
  modes r.1 = modes e.
Proof.
  intros Hs. revert e cursor. induction Hs as [|sp sps Hsp Hs IH]; intros e cursor Hc Hp.
  { simpl. auto. }
  pose proof (process_split_inv chunk e p0 cursor sp Hc Hsp Hp) as (H1 & H2 & H3).
  cbn [fold_left]. destruct (process_split chunk (e, cursor) sp) as [e' cursor'].
  cbn [fst snd] in H1, H2, H3. rewrite <- H3. apply (IH e' cursor' H1 H2).
Qed.

Lemma process_parser_modes e chunk :
  mode_ok (modes e) ->
  parser (process e chunk) = vt_process (parser e) chunk /\
  modes (process e chunk) = scan_modes (modes e) chunk.
Proof.
  intros Hok. unfold process, scan_modes.
  pose proof (scan_splits_facts (modes e) chunk Hok) as [_ Hf].
  destruct (scan (modes e) chunk) as [sc m]. cbn [fst snd] in *.
  case_bool_decide; [by rewrite reconcile_alt_parser, reconcile_alt_modes|].
  set (e0 := mkEmulator (parser e) m _ _).
  destruct (process_splits_inv chunk (splits sc) e0 (parser e) 0) as (Hc & Hp & Hm).
  { eapply Forall_impl; [exact Hf|]. simpl. lia. }
  { pose proof (zlen_nonneg chunk). lia. }
  { simpl. by rewrite vt_process_nil. }
  destruct (fold_left _ _ _) as [e1 cursor]. cbn [fst snd] in *.
  rewrite reconcile_alt_parser, reconcile_alt_modes.
  destruct (_ <? _) eqn:E; cbn [parser modes].
  - split; [|by rewrite Hm]. by rewrite Hp, vt_process_app, take_drop.
  - split; [|by rewrite Hm]. rewrite Hp, take_ge; [done|]. unfold zlen in *. lia.
Qed.
End emulator.

Arguments DaemonEmulator P : clear implicits.

(** A concrete parser for the witnesses: it records what it is fed and takes the
    alternate screen from the number of bytes it saw. *)
Module RecordingVt.
Definition t : Type := (Z * Z * bytes)%type.

#[global] Instance vt : Vt100 t := {|
  vt_new rows cols _ := (rows, cols, []);
  vt_process p bs := (p.1, p.2 ++ bs);
  vt_set_size p rows cols := ((rows, cols), p.2);
  vt_set_scrollback p _ := p;
  vt_size p := p.1;
  vt_alternate_screen p := 9 <=? zlen p.2;
  vt_contents_formatted p := p.2;
  vt_cursor_position p := (0, zlen p.2);
  vt_bracketed_paste _ := false;
  vt_application_cursor _ := false;
  vt_application_keypad _ := false;
  vt_mouse_protocol_mode _ := MouseNone;
  vt_mouse_protocol_encoding _ := EncDefault;
|}.

#[global] Instance vt_laws : Vt100Laws t.
Proof.
  split.
  - intros [p l]. simpl. by rewrite app_nil_r.
  - intros [p l] a b. simpl. by rewrite app_assoc.
Qed.
End RecordingVt.

Section properties.
Context {P : Type} `{!Vt100 P}.

(** The terminal state does not depend on how the PTY output was cut into
    reads: although a chunk is fed to the parser in segments between split
    points, parser and tracked modes after two chunks are those after their
    concatenation. *)
Theorem process_is_chunking_independent (e : DaemonEmulator P) a b :
  Vt100Laws P -> mode_ok (modes e) -> fits (modes e) a = true ->
  parser (process (process e a) b) = parser (process e (a ++ b)) /\
  modes (process (process e a) b) = modes (process e (a ++ b)).
Proof.
  intros HL Hok Hfit.
  destruct (process_parser_modes e a Hok) as [Hp1 Hm1].
  destruct (process_parser_modes e (a ++ b) Hok) as [Hp2 Hm2].
  destruct (process_parser_modes (process e a) b) as [Hp3 Hm3].
  { rewrite Hm1. by apply scan_modes_ok. }
  rewrite Hp2, Hm2, Hp3, Hm3, Hp1, Hm1. split; [apply vt_process_app|by apply scan_two].
Qed.

(** The frozen copy of the primary buffer exists only while the parser is
    in the alternate screen, so a snapshot in the normal screen serializes the
    live buffer, and its payload holds no alternate body. *)
Theorem frozen_primary_only_in_alt (e : DaemonEmulator P) chunk opts seq :
  let e' := process e chunk in
  (primary_frozen e' <> None -> vt_alternate_screen (parser e') = true) /\
  (vt_alternate_screen (parser e') = false ->
   primary_frozen e' = None /\
   scrollback_ansi (snapshot e' opts seq) = serialize_body e' opts /\
   snapshot_ansi (snapshot e' opts seq) = []).
Proof.
  intros e'.
  assert (Hf : primary_frozen e' <> None -> vt_alternate_screen (parser e') = true).
  { unfold e', process. destruct (scan _ _) as [sc m].
    case_bool_decide; [apply reconcile_alt_frozen|].
    destruct (fold_left _ _ _). apply reconcile_alt_frozen. }
  split; [done|]. intros Halt. split.
  - destruct (primary_frozen e'); [|done]. rewrite Hf in Halt by done. done.
  - unfold snapshot. rewrite Halt. by destruct (vt_size _).
Qed.
End properties.

Lemma process_is_chunking_independent_witness :
  let e := emulator_new (P := RecordingVt.t) 24 80 2000 in
  let a := str "$ vim" ++ [ESC] ++ str "[?10" in
  let b := str "49h" ++ [BEL] in
  parser (process (process e a) b) = parser (process e (a ++ b)) /\
  modes (process (process e a) b) = modes (process e (a ++ b)).
Proof.
  apply (process_is_chunking_independent (emulator_new (P := RecordingVt.t) 24 80 2000)
    (str "$ vim" ++ [ESC] ++ str "[?10") (str "49h" ++ [BEL])).
  - apply RecordingVt.vt_laws.
  - apply mode_new_ok.
  - vm_compute. reflexivity.
Defined.

