(* ===== verification/HistoryLog.v ===== *)
(** The disk format of the terminal history (grove-daemon/src/history.rs): the
    percent-encoded directory name of a session and the framed incremental log
    [output.log]. The reader of the log is the source's loop over an offset;
    the theorems relate it to the encoder, whole logs and torn ones. *)

From S2P Require Import Prelude Utf8 Framing.

(** * Constants *)

Definition LOG_HEADER_BYTES : Z := 9.
Definition LOG_FORMAT_VERSION : Z := 1.
Definition FRAME_BATCH : Z := 1.
Definition FRAME_OUTPUT : Z := 2.
Definition FRAME_RESIZE : Z := 3.
Definition FRAME_CLEAR : Z := 4.
Definition FRAME_HEADER_BYTES : Z := 5.

(** * Directory names *)

Definition hex_upper (nibble : Z) : Z :=
  if nibble <=? 9 then 48 + nibble else 65 + (nibble - 10).

Definition from_hex (b : Z) : option Z :=
  if in_range 48 57 b then Some (b - 48)
  else if in_range 97 102 b then Some (b - 97 + 10)
  else if in_range 65 70 b then Some (b - 65 + 10)
  else None.

(** [is_ascii_alphanumeric() || matches!(b, b'-' | b'.' | b'_' | b'~')]. *)
Definition unreserved (b : Z) : bool :=
  in_range 48 57 b || in_range 65 90 b || in_range 97 122 b
  || (b =? 45) || (b =? 46) || (b =? 95) || (b =? 126).

Definition encode_byte (b : Z) : bytes :=
  if unreserved b then [b]
  else [37; hex_upper (Z.shiftr b 4); hex_upper (Z.land b 15)].

Definition percent_encode (pty_id : bytes) : bytes := concat (encode_byte <$> pty_id).

(** One turn of [while i < bytes.len()]: the state is [(i, out)]; leaving with
    [None] is the early [return None]. *)
Definition percent_decode_body (bs : bytes) (s : Z * bytes) :
    (Z * bytes) + option bytes :=
  let '(i, out) := s in
  if negb (i <? zlen bs) then inr (Some out)
  else if byte_at bs i =? 37 then
    if zlen bs <=? i + 2 then inr None
    else match from_hex (byte_at bs (i + 1)), from_hex (byte_at bs (i + 2)) with
         | Some hi, Some lo => inl (i + 3, out ++ [Z.lor (Z.shiftl hi 4) lo])
         | _, _ => inr None
         end
  else inl (i + 1, out ++ [byte_at bs i]).

Definition percent_decode (segment : bytes) : option bytes :=
  match loop (percent_decode_body segment) (S (length segment)) (0, []) with
  | Some (Some out) => from_utf8 out
  | _ => None
  end.

(** A path is its list of components; [join] of a relative segment appends. *)
Definition session_dir (root : list bytes) (pty_id : bytes) : list bytes :=
  root ++ [percent_encode pty_id].

(** * Records *)

Inductive HistoryRecord :=
| Output (b : bytes)
| Resize (cols rows : Z)
| Clear.

#[export] Instance history_record_eq_dec : EqDecision HistoryRecord.
Proof. solve_decision. Defined.

Definition output_bytes (r : HistoryRecord) : Z :=
  match r with Output b => zlen b | _ => 0 end.

(** [records.iter().map(HistoryRecord::output_bytes).sum()]. *)
Definition sum_output (rs : list HistoryRecord) : Z :=
  foldr (fun r n => output_bytes r + n) 0 rs.

Record LogBatch := mkLogBatch { seq : Z; records : list HistoryRecord }.

Record DecodedLog := mkDecodedLog {
  generation : Z;
  batches : list LogBatch;
  truncated_tail : bool
}.

(** * Encoder *)

Definition encode_log_header (generation : Z) : bytes :=
  STREAM_FRAME_MAGIC ++ [LOG_FORMAT_VERSION] ++ to_le_bytes 4 generation.

Definition decode_log_header (buf : bytes) : option Z :=
  if zlen buf <? LOG_HEADER_BYTES then None
  else if negb (bytes_eqb (slice buf 0 4) STREAM_FRAME_MAGIC)
          || negb (byte_at buf 4 =? LOG_FORMAT_VERSION) then None
  else Some (from_le_bytes (slice buf 5 9)).

Definition push_frame (out : bytes) (kind : Z) (payload : bytes) : bytes :=
  out ++ [kind] ++ to_le_bytes 4 (wrap 32 (zlen payload)) ++ payload.

Definition push_record (out : bytes) (record : HistoryRecord) : bytes :=
  match record with
  | Output b => push_frame out FRAME_OUTPUT b
  | Resize cols rows =>
      push_frame out FRAME_RESIZE (to_le_bytes 2 cols ++ to_le_bytes 2 rows)
  | Clear => push_frame out FRAME_CLEAR []
  end.

Definition encode_log_batch (seq : Z) (records : list HistoryRecord) : bytes :=
  foldl push_record (push_frame [] FRAME_BATCH (to_le_bytes 8 seq)) records.

(** * Decoder *)

Record LogWalk := mkLogWalk {
  w_batches : list LogBatch;
  w_current : option LogBatch;
  w_running : Z;
  w_offset : Z;
  w_truncated : bool
}.

(** [current.take()] and its byte accounting; [None] is the sequence gap. *)
Definition close_batch (current : option LogBatch) (running : Z)
    (batches : list LogBatch) : option (Z * list LogBatch) :=
  match current with
  | None => Some (running, batches)
  | Some prev =>
      if negb (seq prev =? running + sum_output (records prev)) then None
      else Some (seq prev, batches ++ [prev])
  end.

(** The record a frame that is no batch carries, [None] for a broken one. *)
Definition frame_record (kind len : Z) (payload : bytes) : option HistoryRecord :=
  if kind =? FRAME_OUTPUT then Some (Output payload)
  else if kind =? FRAME_RESIZE then
    if negb (len =? 4) then None
    else Some (Resize (from_le_bytes (slice payload 0 2)) (from_le_bytes (slice payload 2 4)))
  else if kind =? FRAME_CLEAR then Some Clear
  else None.

Definition decode_frame (kind len : Z) (payload : bytes) (next : Z) (s : LogWalk) :
    option LogWalk :=
  if kind =? FRAME_BATCH then
    if negb (len =? 8) then None
    else match close_batch (w_current s) (w_running s) (w_batches s) with
         | None => None
         | Some (running, bs) =>
             Some (mkLogWalk bs (Some (mkLogBatch (from_le_bytes payload) []))
                     running next (w_truncated s))
         end
  else
    match w_current s with
    | None => None
    | Some cur =>
        match frame_record kind len payload with
        | None => None
        | Some r =>
            Some (mkLogWalk (w_batches s)
                    (Some (mkLogBatch (seq cur) (records cur ++ [r])))
                    (w_running s) next (w_truncated s))
        end
    end.

(** One turn of [while offset < buf.len()]. *)
Definition decode_log_body (buf : bytes) (s : LogWalk) : LogWalk + option LogWalk :=
  let torn := inr (Some (mkLogWalk (w_batches s) (w_current s) (w_running s) (w_offset s) true)) in
  let offset := w_offset s in
  if negb (offset <? zlen buf) then inr (Some s)
  else if zlen buf <? offset + FRAME_HEADER_BYTES then torn
  else
    let kind := byte_at buf offset in
    let len := from_le_bytes (slice buf (offset + 1) (offset + 5)) in
    let payload_start := offset + FRAME_HEADER_BYTES in
    let payload_end := payload_start + len in
    if u64_max <? payload_end then inr None
    else if zlen buf <? payload_end then torn
    else
      match decode_frame kind len (slice buf payload_start payload_end) payload_end s with
      | None => inr None
      | Some s' => inl s'
      end.

Definition decode_log (buf : bytes) : option DecodedLog :=
  match decode_log_header buf with
  | None => None
  | Some generation =>
      match loop (decode_log_body buf) (S (length buf))
                 (mkLogWalk [] None 0 LOG_HEADER_BYTES false) with
      | Some (Some s) =>
          match close_batch (w_current s) (w_running s) (w_batches s) with
          | None => None
          | Some (_, bs) => Some (mkDecodedLog generation bs (w_truncated s))
          end
      | _ => None
      end
  end.

(** * Directory names: the encoding is injective and gives one path segment *)

Lemma hex_roundtrip n : 0 <= n < 16 -> from_hex (hex_upper n) = Some n.
Proof.
  intros Hn. eapply bool_decide_eq_true_1.
  exact (below_cases (fun n => bool_decide (from_hex (hex_upper n) = Some n)) 16 n eq_refl Hn).
Qed.

Lemma nibbles b : byte_ok b ->
  (0 <= Z.shiftr b 4 < 16 /\ 0 <= Z.land b 15 < 16) /\
  Z.lor (Z.shiftl (Z.shiftr b 4) 4) (Z.land b 15) = b.
Proof.
  intros Hb.
  pose proof (below_cases (fun b =>
    in_range 0 15 (Z.shiftr b 4) && in_range 0 15 (Z.land b 15)
    && (Z.lor (Z.shiftl (Z.shiftr b 4) 4) (Z.land b 15) =? b)) 256 b eq_refl Hb) as H.
  unfold in_range in H. lia.
Qed.

Lemma percent_encode_cons b id : percent_encode (b :: id) = encode_byte b ++ percent_encode id.
Proof. done. Qed.

Lemma encode_byte_alphabet b : byte_ok b ->
  Forall (fun c => unreserved c || (c =? 37) = true) (encode_byte b).
Proof.
  intros Hb. apply Forall_forall. intros c Hc%list_elem_of_In. revert c Hc.
  apply forallb_forall.
  exact (below_cases (fun b => forallb (fun c => unreserved c || (c =? 37)) (encode_byte b))
           256 b eq_refl Hb).
Qed.

Lemma percent_encode_alphabet id : bytes_ok id ->
  Forall (fun c => unreserved c || (c =? 37) = true) (percent_encode id).
Proof.
  induction 1 as [|b id Hb _ IH]; [constructor|].
  rewrite percent_encode_cons. apply Forall_app; auto using encode_byte_alphabet.
Qed.

Lemma byte_at_mid pre x post i :
  i = zlen pre -> byte_at (pre ++ x :: post) i = x.
Proof.
  intros ->. unfold byte_at, zlen. rewrite app_nth2 by lia.
  replace (_ - _)%nat with 0%nat by lia. done.
Qed.

(** The decoder's loop after it has read the encoding of a prefix. *)
Lemma percent_decode_loops pre id done :
  bytes_ok id ->
  loops (percent_decode_body (pre ++ percent_encode id)) (zlen pre, done) (Some (done ++ id)).
Proof.
  intros Hid. revert pre done. induction Hid as [|b id Hb _ IH]; intros pre out.
  - apply loops_done. unfold percent_decode_body. rewrite !app_nil_r.
    by rewrite (proj2 (Z.ltb_ge _ _)) by lia.
  - rewrite percent_encode_cons. unfold encode_byte.
    replace (out ++ b :: id) with ((out ++ [b]) ++ id) by by rewrite <- app_assoc.
    destruct (unreserved b) eqn:Eu; cbn [app].
    + eapply loops_step.
      * unfold percent_decode_body.
        rewrite (proj2 (Z.ltb_lt (zlen pre) _)) by zlen_lia. rewrite byte_at_mid by done.
        destruct (b =? 37) eqn:E; [|done]. apply Z.eqb_eq in E as ->. done.
      * rewrite (cons_middle b), app_assoc.
        replace (zlen pre + 1) with (zlen (pre ++ [b])) by zlen_lia. apply IH.
    + destruct (nibbles b Hb) as ((Hh & Hl) & Hr). eapply loops_step.
      * unfold percent_decode_body.
        rewrite (proj2 (Z.ltb_lt (zlen pre) _)) by zlen_lia. rewrite byte_at_mid by done.
        change (37 =? 37) with true. cbn iota.
        rewrite (proj2 (Z.leb_gt _ _)) by zlen_lia.
        rewrite (cons_middle 37), (app_assoc pre), byte_at_mid by zlen_lia.
        rewrite (cons_middle (hex_upper (Z.shiftr b 4))), (app_assoc (pre ++ [37])),
          byte_at_mid by zlen_lia.
        rewrite !hex_roundtrip by done. by rewrite Hr.
      * set (e := [37; hex_upper (Z.shiftr b 4); hex_upper (Z.land b 15)]).
        replace (pre ++ _) with ((pre ++ e) ++ percent_encode id) by by rewrite <- app_assoc.
        replace (zlen pre + 3) with (zlen (pre ++ e)) by (by rewrite zlen_app). apply IH.
Qed.

Lemma percent_decode_progress bs s s' :
  0 <= s.1 -> percent_decode_body bs s = inl s' ->
  0 <= s'.1 /\ (Z.to_nat (zlen bs - s'.1) < Z.to_nat (zlen bs - s.1))%nat.
Proof.
  destruct s as [i out]. unfold percent_decode_body. intros Hi H.
  repeat case_match; simplify_eq/=;
  match goal with HH : negb (_ <? _) = false |- _ =>
    apply negb_false_iff, Z.ltb_lt in HH end; lia.
Qed.

(** A session's directory name decodes to the session id, for every id
    (ids are Rust strings, hence well-formed UTF-8), so two sessions never share
    a directory. *)
Theorem percent_roundtrip id :
  bytes_ok id -> utf8_valid id = true ->
  percent_decode (percent_encode id) = Some id.
Proof.
  intros Hb Hu. unfold percent_decode.
  erewrite (loops_loop _ (fun s => Z.to_nat (zlen (percent_encode id) - s.1)) (fun s => 0 <= s.1));
    [..|exact (percent_decode_loops [] id [] Hb)]; simpl.
  - unfold from_utf8. by rewrite Hu.
  - intros. by eapply percent_decode_progress.
  - lia.
  - unfold zlen. lia.
Qed.

Lemma percent_roundtrip_witness :
  bytes_ok (str "wt:a/b%") /\
  percent_decode (percent_encode (str "wt:a/b%")) = Some (str "wt:a/b%").
Proof.
  assert (H : bytes_ok (str "wt:a/b%")) by (vm_compute; repeat constructor; discriminate).
  split; [exact H|]. apply percent_roundtrip; [exact H|reflexivity].
Defined.

Lemma encode_byte_nonempty b : encode_byte b <> [].
Proof. unfold encode_byte. by case_match. Qed.

(** An encoding that is made of dots only is literal. *)
Lemma percent_encode_dots id n :
  percent_encode id = replicate n 46 -> id = replicate n 46.
Proof.
  revert n. induction id as [|b id IH]; intros n.
  - destruct n; done.
  - rewrite percent_encode_cons. unfold encode_byte.
    destruct (unreserved b) eqn:E; destruct n; simpl; try done.
    intros [= -> ?]. f_equal. auto.
Qed.

(** The directory name of a session is a real entry of the history root,
    free of separators and NUL, exactly when the id is none of the empty string,
    [.] and [..]; those three pass through unencoded. *)
Theorem encoded_name_is_entry id :
  bytes_ok id ->
  let name := percent_encode id in
  (~ (47 ∈ name)) /\ (~ (0 ∈ name)) /\
  (name ∈ [[]; str "."; str ".."] <-> id ∈ [[]; str "."; str ".."]).
Proof.
  intros Hb name. pose proof (percent_encode_alphabet id Hb) as Ha.
  rewrite Forall_forall in Ha. split_and!.
  - intros H%Ha. done.
  - intros H%Ha. done.
  - subst name. rewrite !elem_of_cons, !elem_of_nil. split.
    + intros [H|[H|[H|[]]]].
      * left. exact (percent_encode_dots id 0 H).
      * right; left. exact (percent_encode_dots id 1 H).
      * right; right; left. exact (percent_encode_dots id 2 H).
    + intros [->|[->|[->|[]]]]; auto.
Qed.

Lemma encoded_name_is_entry_witness :
  bytes_ok (str "..") /\ percent_encode (str "..") ∈ [[]; str "."; str ".."].
Proof.
  assert (H : bytes_ok (str "..")) by (vm_compute; repeat constructor; discriminate).
  split; [exact H|]. apply (proj2 (proj2 (encoded_name_is_entry (str "..") H))).
  apply list_elem_of_In. simpl. auto.
Defined.

(** * Whole logs *)

(** A frame, and a record as its frame. *)
Definition frame_bytes (kind : Z) (payload : bytes) : bytes := push_frame [] kind payload.
Definition frame (r : HistoryRecord) : bytes := push_record [] r.
Definition frames (rs : list HistoryRecord) : bytes := concat (frame <$> rs).

Definition record_ok (r : HistoryRecord) : Prop :=
  match r with
  | Output b => bytes_ok b /\ zlen b <= u32_max
  | Resize cols rows => 0 <= cols <= u16_max /\ 0 <= rows <= u16_max
  | Clear => True
  end.

(** The batches of a log with the cumulative sequence numbers the writer stamps. *)
Fixpoint stamp (base : Z) (groups : list (list HistoryRecord)) : list LogBatch :=
  match groups with
  | [] => []
  | rs :: gs =>
      mkLogBatch (base + sum_output rs) rs :: stamp (base + sum_output rs) gs
  end.

Definition encode_batches (bs : list LogBatch) : bytes :=
  concat ((fun b => encode_log_batch (seq b) (records b)) <$> bs).

Definition encode_log (g : Z) (bs : list LogBatch) : bytes :=
  encode_log_header g ++ encode_batches bs.

Lemma push_record_app out r : push_record out r = out ++ frame r.
Proof. destruct r; unfold frame, push_record, push_frame; by rewrite app_nil_l. Qed.

Lemma foldl_push_record out rs : foldl push_record out rs = out ++ frames rs.
Proof.
  revert out; induction rs as [|r rs IH]; intros out; simpl; [by rewrite app_nil_r|].
  rewrite IH, push_record_app. unfold frames. simpl. by rewrite app_assoc.
Qed.

Lemma encode_log_batch_frames q rs :
  encode_log_batch q rs = frame_bytes FRAME_BATCH (to_le_bytes 8 q) ++ frames rs.
Proof. apply foldl_push_record. Qed.

Lemma sum_output_nonneg rs : 0 <= sum_output rs.
Proof.
  induction rs as [|r rs IH]; simpl; [lia|].
  destruct r; unfold output_bytes; zlen_lia.
Qed.

Lemma sum_output_app rs rs' : sum_output (rs ++ rs') = sum_output rs + sum_output rs'.
Proof. induction rs; simpl; lia. Qed.

Definition sum_groups (groups : list (list HistoryRecord)) : Z := sum_output (concat groups).

Lemma frame_bytes_split kind payload :
  frame_bytes kind payload =
  [kind] ++ to_le_bytes 4 (wrap 32 (zlen payload)) ++ payload.
Proof. done. Qed.

Lemma zlen_frame_bytes kind payload : zlen (frame_bytes kind payload) = 5 + zlen payload.
Proof. rewrite frame_bytes_split. zlen_lia. Qed.

(** What a record's frame is: kind and payload. *)
Definition record_kind (r : HistoryRecord) : Z :=
  match r with Output _ => FRAME_OUTPUT | Resize _ _ => FRAME_RESIZE | Clear => FRAME_CLEAR end.
Definition record_payload (r : HistoryRecord) : bytes :=
  match r with
  | Output b => b
  | Resize c w => to_le_bytes 2 c ++ to_le_bytes 2 w
  | Clear => []
  end.

Lemma frame_is r : frame r = frame_bytes (record_kind r) (record_payload r).
Proof. by destruct r. Qed.

Lemma record_ok_payload r : record_ok r ->
  bytes_ok (record_payload r) /\ zlen (record_payload r) <= u32_max.
Proof.
  destruct r; intros H; [done| |split; [constructor|done]]. unfold record_payload.
  split; [apply bytes_ok_app; auto using to_le_bytes_ok|].
  unfold u32_max. zlen_lia.
Qed.

Lemma record_ok_decodes r : record_ok r ->
  frame_record (record_kind r) (zlen (record_payload r)) (record_payload r) = Some r.
Proof.
  destruct r as [b|c w|]; intros H; [done| |done]. destruct H as [Hc Hw]. unfold u16_max in *.
  unfold record_kind, record_payload, frame_record.
  replace (zlen _) with 4 by zlen_lia. cbn -[to_le_bytes from_le_bytes slice Z.pow].
  set (cb := to_le_bytes 2 c). set (wb := to_le_bytes 2 w).
  replace (slice (cb ++ wb) 0 2) with cb
    by (symmetry; exact (slice_app_exact [] cb wb 0 2 eq_refl eq_refl)).
  replace (slice (cb ++ wb) 2 4) with wb
    by (symmetry; rewrite <- (app_nil_r wb) at 1;
        exact (slice_app_exact cb wb [] 2 4 eq_refl eq_refl)).
  subst cb wb. unfold u16_max in *.
  by rewrite !from_to_le_bytes by lia.
Qed.

(** One turn of the decoder's loop on a complete frame. *)
Lemma body_frame pre kind payload rest s :
  w_offset s = zlen pre -> zlen payload <= u32_max ->
  zlen (pre ++ frame_bytes kind payload ++ rest) <= u64_max ->
  decode_log_body (pre ++ frame_bytes kind payload ++ rest) s =
    match decode_frame kind (zlen payload) payload
            (zlen (pre ++ frame_bytes kind payload)) s with
    | None => inr None
    | Some s' => inl s'
    end.
Proof.
  intros Hoff Hp Hu. unfold decode_log_body, FRAME_HEADER_BYTES. rewrite Hoff.
  rewrite frame_bytes_split in *. rewrite !zlen_app, zlen_to_le_bytes, zlen_cons in Hu.
  set (le := to_le_bytes 4 _) in *.
  assert (Hle : zlen le = 4) by apply zlen_to_le_bytes.
  rewrite (proj2 (Z.ltb_lt (zlen pre) _)) by zlen_lia. cbn [negb].
  rewrite (proj2 (Z.ltb_ge _ (zlen pre + 5))) by zlen_lia.
  assert (Hslice : slice (pre ++ ([kind] ++ le ++ payload) ++ rest) (zlen pre + 1) (zlen pre + 5) = le).
  { replace (pre ++ _) with ((pre ++ [kind]) ++ le ++ (payload ++ rest))
      by by rewrite <- !app_assoc.
    apply slice_app_exact; zlen_lia. }
  assert (Hpay : slice (pre ++ ([kind] ++ le ++ payload) ++ rest)
            (zlen pre + 5) (zlen pre + 5 + zlen payload) = payload).
  { replace (pre ++ _) with ((pre ++ [kind] ++ le) ++ payload ++ rest)
      by by rewrite <- !app_assoc.
    apply slice_app_exact; zlen_lia. }
  assert (Hlen : from_le_bytes le = zlen payload).
  { unfold le. rewrite wrap_small, from_to_le_bytes by (unfold u32_max in *; zlen_lia). done. }
  rewrite Hslice, Hlen, Hpay.
  cbn [app]. rewrite byte_at_mid by done.
  rewrite (proj2 (Z.ltb_ge u64_max _)) by zlen_lia.
  rewrite (proj2 (Z.ltb_ge _ (zlen pre + 5 + zlen payload))) by zlen_lia.
  replace (zlen (pre ++ kind :: le ++ payload)) with (zlen pre + 5 + zlen payload) by zlen_lia.
  done.
Qed.

(** One turn on a frame that the end of the file cuts. *)
Lemma body_torn pre kind payload n s :
  w_offset s = zlen pre -> zlen payload <= u32_max ->
  zlen (pre ++ frame_bytes kind payload) <= u64_max ->
  (0 < n < length (frame_bytes kind payload))%nat ->
  decode_log_body (pre ++ take n (frame_bytes kind payload)) s =
    inr (Some (mkLogWalk (w_batches s) (w_current s) (w_running s) (w_offset s) true)).
Proof.
  intros Hoff Hp Hu Hn. unfold decode_log_body, FRAME_HEADER_BYTES.
  pose proof (zlen_frame_bytes kind payload) as Hfl.
  assert (Ht : zlen (take n (frame_bytes kind payload)) = Z.of_nat n)
    by (unfold zlen in *; rewrite length_take; lia).
  rewrite Hoff, zlen_app, Ht. rewrite zlen_app, Hfl in Hu.
  rewrite (proj2 (Z.ltb_lt (zlen pre) _)) by zlen_lia. cbn [negb].
  destruct (zlen pre + Z.of_nat n <? zlen pre + 5) eqn:E5; [done|].
  apply Z.ltb_ge in E5.
  replace (slice _ (zlen pre + 1) (zlen pre + 5)) with (to_le_bytes 4 (wrap 32 (zlen payload))).
  2: { rewrite frame_bytes_split, take_app, take_ge by (simpl; lia).
       rewrite take_app, take_ge by (rewrite length_to_le_bytes; simpl; lia).
       rewrite app_assoc, app_assoc.
       rewrite <- (app_assoc (pre ++ [kind])).
       symmetry. apply slice_app_exact; zlen_lia. }
  rewrite wrap_small, from_to_le_bytes by (unfold u32_max in *; zlen_lia).
  rewrite (proj2 (Z.ltb_ge u64_max _)) by zlen_lia.
  rewrite (proj2 (Z.ltb_lt _ (zlen pre + 5 + zlen payload))) by (unfold zlen in *; lia).
  done.
Qed.

(** The decoder's loop over the frames of records, whole or cut after [n] bytes. *)
Fixpoint whole_frames (n : nat) (rs : list HistoryRecord) : nat :=
  match rs with
  | [] => 0
  | r :: rs =>
      if (length (frame r) <=? n)%nat then S (whole_frames (n - length (frame r)) rs) else 0
  end.

Lemma frame_nonempty r : (0 < length (frame r))%nat.
Proof.
  rewrite frame_is. pose proof (zlen_frame_bytes (record_kind r) (record_payload r)).
  unfold zlen in *. lia.
Qed.

Lemma frames_cons r rs : frames (r :: rs) = frame r ++ frames rs.
Proof. done. Qed.

Lemma decode_frame_record s cur r next :
  w_current s = Some cur -> record_ok r ->
  decode_frame (record_kind r) (zlen (record_payload r)) (record_payload r) next s =
    Some (mkLogWalk (w_batches s) (Some (mkLogBatch (seq cur) (records cur ++ [r])))
            (w_running s) next (w_truncated s)).
Proof.
  intros Hc Hr. unfold decode_frame.
  replace (record_kind r =? FRAME_BATCH) with false by by destruct r.
  by rewrite Hc, record_ok_decodes.
Qed.

Definition torn_state (s : LogWalk) (cur : LogBatch) (rs : list HistoryRecord)
    (start : Z) (n : nat) : LogWalk :=
  let k := take (whole_frames n rs) rs in
  mkLogWalk (w_batches s) (Some (mkLogBatch (seq cur) (records cur ++ k))) (w_running s)
    (start + zlen (frames k)) (w_truncated s || negb (n =? length (frames k))%nat).

Lemma walk_records rs : forall pre s cur n,
  Forall record_ok rs -> zlen (pre ++ frames rs) <= u64_max ->
  w_current s = Some cur -> w_offset s = zlen pre -> w_truncated s = false ->
  (n <= length (frames rs))%nat ->
  loops (decode_log_body (pre ++ take n (frames rs))) s
        (Some (torn_state s cur rs (zlen pre) n)).
Proof.
  induction rs as [|r rs IH]; intros pre s cur n Hok Hu Hc Hoff Htr Hn.
  - simpl in Hn. assert (n = 0%nat) as -> by lia. apply loops_done.
    unfold decode_log_body. rewrite Hoff, app_nil_r.
    rewrite (proj2 (Z.ltb_ge _ _)) by lia. simpl. unfold torn_state. simpl.
    rewrite app_nil_r, Z.add_0_r, Htr. simpl. repeat f_equal.
    destruct s, cur; simpl in *; congruence.
  - apply Forall_cons in Hok as [Hr Hok].
    pose proof (record_ok_payload r Hr) as [_ Hpl]. pose proof (frame_nonempty r).
    unfold torn_state. cbn [whole_frames]. rewrite frames_cons in *.
    rewrite app_assoc in Hu. destruct (Nat.leb_spec (length (frame r)) n) as [Hl|Hl].
    + rewrite take_app, take_ge by lia. eapply loops_step.
      * rewrite frame_is, body_frame; rewrite ?zlen_app in *; rewrite ?frame_is in *; [|done|done|].
        -- by rewrite (decode_frame_record s cur).
        -- unfold zlen in *. rewrite length_take in *. lia.
      * rewrite <- frame_is, app_assoc.
        rewrite length_app in Hn.
        specialize (IH (pre ++ frame r) (mkLogWalk (w_batches s)
          (Some (mkLogBatch (seq cur) (records cur ++ [r]))) (w_running s)
          (zlen (pre ++ frame r)) (w_truncated s))
          (mkLogBatch (seq cur) (records cur ++ [r])) (n - length (frame r))%nat).
        unfold torn_state in IH. cbn [w_batches w_current w_running w_offset w_truncated seq records] in IH.
        cbn [take]. rewrite frames_cons.
        replace (zlen pre + zlen (frame r ++ frames _)) with
          (zlen (pre ++ frame r) + zlen (frames (take (whole_frames (n - length (frame r)) rs) rs)))
          by zlen_lia.
        replace (n =? _)%nat with (n - length (frame r) =?
          length (frames (take (whole_frames (n - length (frame r)) rs) rs)))%nat.
        2: { rewrite length_app. apply eq_bool_prop_intro. rewrite !Is_true_true, !Nat.eqb_eq. lia. }
        rewrite <- (zlen_app pre (frame r)).
        rewrite <- (app_assoc (records cur) [r]) in IH. cbn [app] in IH.
        apply IH; auto. lia.
    + simpl take at 2 3. rewrite take_app_le by lia.
      rewrite app_nil_r. unfold frames at 1. simpl. rewrite Z.add_0_r.
      destruct (decide (n = 0%nat)) as [->|].
      * apply loops_done. rewrite app_nil_r. unfold decode_log_body. rewrite Hoff.
        rewrite (proj2 (Z.ltb_ge _ _)) by lia. simpl. rewrite Htr. repeat f_equal.
        destruct s, cur; simpl in *; congruence.
      * apply loops_done. rewrite frame_is in *.
        rewrite body_torn; rewrite ?zlen_app in *; [|done|done|zlen_lia|lia].
        rewrite (proj2 (Nat.eqb_neq n 0)), orb_true_r by done. repeat f_equal; [|done].
        rewrite Hc. by destruct cur.
Qed.

Lemma walk_records_whole rs : forall pre rest s cur x,
  Forall record_ok rs -> zlen (pre ++ frames rs ++ rest) <= u64_max ->
  w_current s = Some cur -> w_offset s = zlen pre ->
  loops (decode_log_body (pre ++ frames rs ++ rest))
        (mkLogWalk (w_batches s) (Some (mkLogBatch (seq cur) (records cur ++ rs)))
           (w_running s) (zlen (pre ++ frames rs)) (w_truncated s)) x ->
  loops (decode_log_body (pre ++ frames rs ++ rest)) s x.
Proof.
  induction rs as [|r rs IH]; intros pre rest s cur x Hok Hu Hc Hoff Hx.
  - unfold frames in Hx. simpl in Hx. rewrite !app_nil_r, <- Hoff in Hx.
    destruct s, cur; simpl in *; subst. exact Hx.
  - apply Forall_cons in Hok as [Hr Hok]. rewrite frames_cons in *.
    pose proof (record_ok_payload r Hr) as [_ Hpl].
    rewrite <- app_assoc in *. eapply loops_step.
    + rewrite frame_is in *. rewrite body_frame by done.
      by rewrite (decode_frame_record s cur).
    + rewrite <- frame_is in *. rewrite !(app_assoc pre (frame r)) in *.
      eapply (IH (pre ++ frame r)); [done|done|done|done|].
      cbn [seq records w_batches w_running w_truncated].
      rewrite <- (app_assoc (records cur)). exact Hx.
Qed.

Definition close_state (s : LogWalk) : option (Z * list LogBatch) :=
  close_batch (w_current s) (w_running s) (w_batches s).

Lemma walk_batch_head pre q rest s tot bs :
  close_state s = Some (tot, bs) -> w_offset s = zlen pre -> 0 <= q <= u64_max ->
  zlen (pre ++ frame_bytes FRAME_BATCH (to_le_bytes 8 q) ++ rest) <= u64_max ->
  decode_log_body (pre ++ frame_bytes FRAME_BATCH (to_le_bytes 8 q) ++ rest) s =
    inl (mkLogWalk bs (Some (mkLogBatch q [])) tot
           (zlen (pre ++ frame_bytes FRAME_BATCH (to_le_bytes 8 q))) (w_truncated s)).
Proof.
  intros Hc Hoff Hq Hu.
  rewrite body_frame; [|done|rewrite zlen_to_le_bytes; unfold u32_max; lia|done].
  unfold decode_frame. rewrite zlen_to_le_bytes. unfold close_state in Hc.
  rewrite Hc. rewrite from_to_le_bytes by (unfold u64_max in Hq; lia). done.
Qed.

Lemma close_batch_closed bs tot rs :
  close_batch (Some (mkLogBatch (tot + sum_output rs) rs)) tot bs =
    Some (tot + sum_output rs, bs ++ [mkLogBatch (tot + sum_output rs) rs]).
Proof. unfold close_batch. simpl. by rewrite Z.eqb_refl. Qed.

Lemma sum_groups_cons rs gs : sum_groups (rs :: gs) = sum_output rs + sum_groups gs.
Proof. unfold sum_groups. simpl. apply sum_output_app. Qed.

Lemma sum_groups_nonneg gs : 0 <= sum_groups gs.
Proof. apply sum_output_nonneg. Qed.

Lemma encode_batches_cons b bs :
  encode_batches (b :: bs) = encode_log_batch (seq b) (records b) ++ encode_batches bs.
Proof. done. Qed.

(** The loop reaches a state at the end of the batches, all of them accounted. *)
Definition reaches (buf : bytes) (s s' : LogWalk) : Prop :=
  forall x, loops (decode_log_body buf) s' x -> loops (decode_log_body buf) s x.

Lemma walk_batches groups : forall buf pre rest s tot bs,
  buf = pre ++ encode_batches (stamp tot groups) ++ rest -> zlen buf <= u64_max ->
  Forall (Forall record_ok) groups -> 0 <= tot -> tot + sum_groups groups <= u64_max ->
  close_state s = Some (tot, bs) -> w_offset s = zlen pre -> w_truncated s = false ->
  exists s', reaches buf s s' /\
    close_state s' = Some (tot + sum_groups groups, bs ++ stamp tot groups) /\
    w_offset s' = zlen (pre ++ encode_batches (stamp tot groups)) /\
    w_truncated s' = false.
Proof.
  induction groups as [|rs gs IH]; intros buf pre rest s tot bs Hb Hu Hok Ht Hs Hc Hoff Htr.
  - exists s. unfold encode_batches, sum_groups, reaches. simpl.
    rewrite !app_nil_r, Z.add_0_r. auto.
  - apply Forall_cons in Hok as [Hrs Hok].
    rewrite sum_groups_cons in *. pose proof (sum_groups_nonneg gs).
    pose proof (sum_output_nonneg rs). cbn [stamp] in *.
    rewrite encode_batches_cons, encode_log_batch_frames in *. cbn [seq records] in *.
    set (q := tot + sum_output rs) in *. set (h := frame_bytes FRAME_BATCH (to_le_bytes 8 q)) in *.
    set (E := encode_batches (stamp q gs)) in *.
    destruct (IH buf ((pre ++ h) ++ frames rs) rest
      (mkLogWalk bs (Some (mkLogBatch q rs)) tot (zlen ((pre ++ h) ++ frames rs)) false)
      q (bs ++ [mkLogBatch q rs])) as (s' & Hr & Hc' & Ho' & Ht'); try done; try lia.
    + by rewrite Hb, <- !app_assoc.
    + apply close_batch_closed.
    + exists s'. split_and!; [|by rewrite Hc', <- app_assoc; unfold q; rewrite Z.add_assoc
                             |by rewrite Ho', <- !app_assoc|done].
      intros x Hx. eapply loops_step.
      { rewrite Hb, <- !app_assoc in *. apply walk_batch_head; eauto; lia. }
      replace buf with ((pre ++ h) ++ frames rs ++ (E ++ rest)) in *
        by by rewrite Hb, <- !app_assoc.
      eapply walk_records_whole; [done|done|done|done|].
      rewrite Htr. cbn [seq records w_batches w_running w_truncated app]. auto.
Qed.

(** * The decoder as a whole *)

Lemma zlen_magic : zlen STREAM_FRAME_MAGIC = 4.
Proof. done. Qed.
#[local] Hint Rewrite zlen_magic : zlen.

Lemma decode_header_encoded g rest :
  0 <= g <= u32_max -> decode_log_header (encode_log_header g ++ rest) = Some g.
Proof.
  intros Hg. unfold decode_log_header, encode_log_header.
  rewrite (proj2 (Z.ltb_ge _ LOG_HEADER_BYTES)) by (unfold LOG_HEADER_BYTES; zlen_lia).
  rewrite <- !app_assoc.
  replace (slice (STREAM_FRAME_MAGIC ++ _) 0 4) with STREAM_FRAME_MAGIC
    by (symmetry; exact (slice_app_exact [] STREAM_FRAME_MAGIC _ 0 4 eq_refl eq_refl)).
  unfold bytes_eqb. rewrite bool_decide_eq_true_2 by done.
  cbn [app]. rewrite (byte_at_mid STREAM_FRAME_MAGIC) by done.
  rewrite Z.eqb_refl. cbn [negb orb].
  rewrite (cons_middle LOG_FORMAT_VERSION), app_assoc.
  rewrite slice_app_exact by zlen_lia.
  rewrite from_to_le_bytes; [done|]. unfold u32_max in Hg. lia.
Qed.

Lemma decode_frame_next kind len payload next s s' :
  decode_frame kind len payload next s = Some s' ->
  w_offset s' = next /\ w_truncated s' = w_truncated s.
Proof.
  unfold decode_frame. intros H.
  repeat first [case_match | progress simplify_eq/=]; done.
Qed.

Lemma bytes_ok_frame_len buf i :
  bytes_ok buf -> 0 <= i -> i + 4 <= zlen buf -> 0 <= from_le_bytes (slice buf i (i + 4)).
Proof. intros. apply from_le_slice_range; auto; lia. Qed.

Lemma decode_log_progress buf s s' :
  bytes_ok buf -> 0 <= w_offset s -> decode_log_body buf s = inl s' ->
  0 <= w_offset s' /\
  (Z.to_nat (zlen buf - w_offset s') < Z.to_nat (zlen buf - w_offset s))%nat.
Proof.
  intros Hb Ho. unfold decode_log_body. rewrite negb_if.
  destruct (w_offset s <? zlen buf) eqn:E1; [|done].
  destruct (zlen buf <? w_offset s + FRAME_HEADER_BYTES) eqn:E2; [done|].
  destruct (u64_max <? _); [done|].
  destruct (zlen buf <? w_offset s + FRAME_HEADER_BYTES + _) eqn:E3; [done|].
  destruct (decode_frame _ _ _ _ s) eqn:E4; intros [= ->].
  apply decode_frame_next in E4 as [-> _].
  apply Z.ltb_lt in E1. apply Z.ltb_ge in E2, E3. unfold FRAME_HEADER_BYTES in *.
  pose proof (bytes_ok_frame_len buf (w_offset s + 1) Hb).
  replace (w_offset s + 1 + 4) with (w_offset s + 5) in H by lia. lia.
Qed.

(** The fuel of [decode_log] never runs out. *)
Lemma decode_log_loops buf g s :
  bytes_ok buf -> decode_log_header buf = Some g ->
  loops (decode_log_body buf) (mkLogWalk [] None 0 LOG_HEADER_BYTES false) s ->
  decode_log buf =
    (s ← s; c ← close_state s; Some (mkDecodedLog g c.2 (w_truncated s))).
Proof.
  intros Hb Hg Hl. unfold decode_log. rewrite Hg.
  rewrite (loops_loop _ (fun s => Z.to_nat (zlen buf - w_offset s)) (fun s => 0 <= w_offset s)
             _ _ s); try done.
  - destruct s as [s|]; [|done]. simpl. unfold close_state. by case_match; [case_match|].
  - intros. by apply decode_log_progress.
  - simpl. unfold LOG_HEADER_BYTES, zlen. lia.
Qed.

Lemma bytes_ok_frames rs : Forall record_ok rs -> bytes_ok (frames rs).
Proof.
  induction 1 as [|r rs Hr _ IH]; [constructor|]. rewrite frames_cons.
  apply bytes_ok_app. split; [|done]. rewrite frame_is, frame_bytes_split.
  apply bytes_ok_app. split.
  - constructor; [|constructor]. destruct r; vm_compute; split; congruence.
  - apply bytes_ok_app. split; [apply to_le_bytes_ok|]. by apply record_ok_payload.
Qed.

Lemma bytes_ok_encode_log_batch q rs : Forall record_ok rs -> bytes_ok (encode_log_batch q rs).
Proof.
  intros. rewrite encode_log_batch_frames, frame_bytes_split.
  rewrite !bytes_ok_app. split_and!; auto using to_le_bytes_ok, bytes_ok_frames.
  constructor; [|constructor]. vm_compute; split; congruence.
Qed.

Lemma bytes_ok_encode_log g tot groups :
  Forall (Forall record_ok) groups -> bytes_ok (encode_log g (stamp tot groups)).
Proof.
  intros H. unfold encode_log. apply bytes_ok_app. split.
  - unfold encode_log_header. rewrite !bytes_ok_app.
    split_and!; [|constructor; [|constructor]|apply to_le_bytes_ok].
    + repeat constructor; discriminate.
    + vm_compute; split; congruence.
  - revert tot. induction H as [|rs gs Hrs _ IH]; intros tot; [constructor|].
    cbn [stamp]. rewrite encode_batches_cons. apply bytes_ok_app.
    auto using bytes_ok_encode_log_batch.
Qed.

(** A log of stamped batches followed by anything: the loop reads the batches
    and goes on behind them. *)
Lemma decode_log_prefix g groups rest :
  0 <= g <= u32_max -> Forall (Forall record_ok) groups -> bytes_ok rest ->
  sum_groups groups <= u64_max ->
  let buf := encode_log g (stamp 0 groups) ++ rest in
  zlen buf <= u64_max ->
  exists s', close_state s' = Some (sum_groups groups, stamp 0 groups) /\
    w_offset s' = zlen (encode_log g (stamp 0 groups)) /\ w_truncated s' = false /\
    forall x, loops (decode_log_body buf) s' x ->
      decode_log buf =
        (s ← x; c ← close_state s; Some (mkDecodedLog g c.2 (w_truncated s))).
Proof.
  intros Hg Hok Hr Hs buf Hu.
  destruct (walk_batches groups buf (encode_log_header g) rest
    (mkLogWalk [] None 0 LOG_HEADER_BYTES false) 0 []) as (s' & Hx & Hc & Ho & Ht); try done.
  exists s'. split_and!; try done. intros x Hl. apply decode_log_loops.
  - apply bytes_ok_app. auto using bytes_ok_encode_log.
  - unfold buf, encode_log. rewrite <- app_assoc. by apply decode_header_encoded.
  - by apply Hx.
Qed.

(** * Properties of the log *)

Lemma loop_done_at_end buf s : w_offset s = zlen buf -> loops (decode_log_body buf) s (Some s).
Proof.
  intros H. apply loops_done. unfold decode_log_body. rewrite H.
  by rewrite (proj2 (Z.ltb_ge _ _)) by lia.
Qed.

Lemma decode_encode_log g groups :
  0 <= g <= u32_max -> Forall (Forall record_ok) groups ->
  sum_groups groups <= u64_max -> zlen (encode_log g (stamp 0 groups)) <= u64_max ->
  decode_log (encode_log g (stamp 0 groups)) =
    Some (mkDecodedLog g (stamp 0 groups) false).
Proof.
  intros Hg Hok Hs Hu.
  destruct (decode_log_prefix g groups []) as (s' & Hc & Ho & Ht & Hd); try done.
  { constructor. } { by rewrite app_nil_r. }
  rewrite app_nil_r in Hd. rewrite (Hd (Some s')); [|by apply loop_done_at_end].
  simpl. by rewrite Hc, Ht.
Qed.

(** What a session appended batch by batch under one log header, the
    reader gets back: the same batches with their cumulative sequence numbers,
    and no torn tail. *)
Theorem log_roundtrip g groups :
  0 <= g <= u32_max -> Forall (Forall record_ok) groups ->
  sum_groups groups <= u64_max -> zlen (encode_log g (stamp 0 groups)) <= u64_max ->
  decode_log (encode_log g (stamp 0 groups)) =
    Some (mkDecodedLog g (stamp 0 groups) false).
Proof. apply decode_encode_log. Qed.

Lemma log_roundtrip_witness :
  let groups := [[Output [27; 91]; Resize 120 40]; [Clear; Output [0; 255; 7]]] in
  sum_groups groups <= u64_max /\
  decode_log (encode_log 3 (stamp 0 groups)) = Some (mkDecodedLog 3 (stamp 0 groups) false).
Proof.
  split; [discriminate|]. apply log_roundtrip.
  - split; discriminate.
  - repeat constructor; discriminate.
  - discriminate.
  - discriminate.
Defined.

(** A final append that the end of the file cuts after [n] of its bytes.
    Cut inside its first frame, only the torn flag remains of it. Cut later, the
    log is kept exactly when the whole records before the cut already hold all
    the output bytes the batch announced; otherwise the reader takes the missing
    output for a lost range and drops the whole log, complete batches included. *)
Theorem torn_append g groups rs n :
  0 <= g <= u32_max -> Forall (Forall record_ok) groups -> Forall record_ok rs ->
  let q := sum_groups groups + sum_output rs in
  let batch := encode_log_batch q rs in
  q <= u64_max -> zlen (encode_log g (stamp 0 groups) ++ batch) <= u64_max ->
  (n <= length batch)%nat ->
  decode_log (encode_log g (stamp 0 groups) ++ take n batch) =
    if (n <? 13)%nat
    then Some (mkDecodedLog g (stamp 0 groups) (0 <? n)%nat)
    else
      let kept := take (whole_frames (n - 13) rs) rs in
      if sum_output kept =? sum_output rs
      then Some (mkDecodedLog g (stamp 0 groups ++ [mkLogBatch q kept])
                   (negb (n - 13 =? length (frames kept)))%nat)
      else None.
Proof.
  intros Hg Hok Hrs q batch Hq Hu Hn.
  pose proof (sum_output_nonneg rs). pose proof (sum_groups_nonneg groups).
  set (L := encode_log g (stamp 0 groups)) in *.
  assert (Hul : zlen (L ++ take n batch) <= u64_max).
  { unfold zlen in *. rewrite length_app in *. rewrite length_take. lia. }
  destruct (decode_log_prefix g groups (take n batch)) as (s' & Hc & Ho & Ht & Hd); try done; try lia.
  { apply Forall_take, bytes_ok_encode_log_batch; done. }
  fold L in Ho, Hd. unfold batch in *. clear batch.
  rewrite encode_log_batch_frames in *. set (h := frame_bytes FRAME_BATCH (to_le_bytes 8 q)) in *.
  assert (Hh : length h = 13%nat).
  { pose proof (zlen_frame_bytes FRAME_BATCH (to_le_bytes 8 q)) as Hl.
    rewrite zlen_to_le_bytes in Hl. unfold zlen in Hl. fold h in Hl. lia. }
  destruct (Nat.ltb_spec n 13) as [Hlt|Hge].
  - rewrite take_app_le in * by lia. destruct (decide (n = 0%nat)) as [->|Hn0].
    + rewrite app_nil_r in *. rewrite (Hd (Some s')); [|by apply loop_done_at_end].
      simpl. by rewrite Hc, Ht.
    + erewrite Hd. 2: { apply loops_done. apply body_torn; try done.
        - fold h. rewrite app_assoc in Hu. rewrite zlen_app in Hu. pose proof (zlen_nonneg (frames rs)). lia.
        - fold h. lia. }
      simpl. unfold close_state in *. simpl. rewrite Hc.
      by rewrite (proj2 (Nat.ltb_lt 0 n)) by lia.
  - rewrite take_app, take_ge in * by lia. rewrite Hh in *.
    erewrite Hd.
    2: { eapply loops_step.
         { apply walk_batch_head; try done; lia. }
         rewrite app_assoc. apply walk_records; try done.
         - by rewrite <- app_assoc.
         - rewrite length_app in Hn. lia. }
    simpl. unfold close_state, torn_state. simpl.
    destruct (sum_output _ =? sum_output rs) eqn:E.
    + apply Z.eqb_eq in E. rewrite E. unfold q at 1. rewrite Z.eqb_refl. simpl.
      by rewrite Ht.
    + apply Z.eqb_neq in E. rewrite (proj2 (Z.eqb_neq q _)); [done|]. unfold q. lia.
Qed.

Lemma torn_append_witness :
  let batch := encode_log_batch 6 [Output [97; 98; 99]] in
  (13 <= length batch)%nat /\
  decode_log (encode_log 0 (stamp 0 [[Output [120; 121; 122]]]) ++ take 20 batch) = None.
Proof.
  split; [vm_compute; lia|].
  refine (eq_trans (torn_append 0 [[Output [120; 121; 122]]] [Output [97; 98; 99]] 20
                      _ _ _ _ _ _) _).
  - split; discriminate.
  - repeat constructor; discriminate.
  - repeat constructor; discriminate.
  - discriminate.
  - discriminate.
  - vm_compute. lia.
  - reflexivity.
Defined.

(** * What an accepted log holds *)

Definition current_len (c : option LogBatch) : Z :=
  match c with None => 0 | Some c => zlen (encode_log_batch (seq c) (records c)) end.

Definition log_inv (buf : bytes) (s : LogWalk) : Prop :=
  exists groups, w_batches s = stamp 0 groups /\ w_running s = sum_groups groups /\
    Forall (Forall record_ok) groups /\
    (forall c, w_current s = Some c -> Forall record_ok (records c)) /\
    9 + zlen (encode_batches (w_batches s)) + current_len (w_current s) <= w_offset s <= zlen buf.

Lemma stamp_app tot gs rs :
  stamp tot (gs ++ [rs]) =
    stamp tot gs ++ [mkLogBatch (tot + sum_groups gs + sum_output rs) rs].
Proof.
  revert tot; induction gs as [|g gs IH]; intros tot; simpl.
  - unfold sum_groups. simpl. by rewrite Z.add_0_r.
  - rewrite IH, sum_groups_cons. by rewrite !Z.add_assoc.
Qed.

Lemma sum_groups_app gs rs : sum_groups (gs ++ [rs]) = sum_groups gs + sum_output rs.
Proof. unfold sum_groups. rewrite concat_app, sum_output_app. simpl. by rewrite app_nil_r. Qed.

Lemma encode_batches_app bs b :
  encode_batches (bs ++ [b]) = encode_batches bs ++ encode_log_batch (seq b) (records b).
Proof. unfold encode_batches. rewrite fmap_app, concat_app. simpl. by rewrite app_nil_r. Qed.

Lemma frames_app rs r : frames (rs ++ [r]) = frames rs ++ frame r.
Proof. unfold frames. rewrite fmap_app, concat_app. simpl. by rewrite app_nil_r. Qed.

(** Closing a batch keeps the accounting: this is where a gap is refused. *)
Lemma close_batch_inv buf s running bs :
  log_inv buf s -> close_state s = Some (running, bs) ->
  exists groups, bs = stamp 0 groups /\ running = sum_groups groups /\
    Forall (Forall record_ok) groups /\ 9 + zlen (encode_batches bs) <= w_offset s.
Proof.
  intros (gs & Hb & Hr & Hok & Hc & Ho) H. unfold close_state, close_batch in H.
  destruct (w_current s) as [[q rs]|] eqn:Ec; simpl in *.
  - destruct (q =? w_running s + sum_output rs) eqn:E; simplify_eq/=. apply Z.eqb_eq in E.
    exists (gs ++ [rs]). rewrite stamp_app, sum_groups_app, Hb, encode_batches_app, zlen_app.
    rewrite Hb in Ho. simpl. rewrite Hr in E. try subst q; try subst running.
    split_and!; [done|done| |simpl in *; lia].
    apply Forall_app. split; [done|]. constructor; [|done]. by apply (Hc _ eq_refl).
  - simplify_eq. exists gs. split_and!; [done|done|done|lia].
Qed.

Lemma frame_record_ok buf i kind len payload r :
  bytes_ok buf -> 0 <= i -> i + len <= zlen buf -> 0 <= len <= u32_max ->
  payload = slice buf i (i + len) -> frame_record kind len payload = Some r ->
  record_ok r /\ zlen (frame r) <= 5 + len.
Proof.
  intros Hb Hi Hl Hl32 -> H.
  pose proof (slice_length buf i (i + len) ltac:(lia) Hl) as Hp.
  rewrite frame_is, zlen_frame_bytes. unfold frame_record in H.
  repeat case_match; simplify_eq; simpl.
  - split; [split; [auto with grove|]|]; lia.
  - assert (len = 4) as -> by (apply Z.eqb_eq, negb_false_iff; done).
    set (p := slice buf i (i + 4)) in *.
    assert (bytes_ok p) by (subst p; auto with grove).
    pose proof (from_le_slice_range p 0 2 H ltac:(lia) ltac:(lia)).
    pose proof (from_le_slice_range p 2 4 H ltac:(lia) ltac:(lia)).
    split; [unfold u16_max; lia|]. zlen_lia.
  - rewrite zlen_nil. lia.
Qed.

Lemma decode_log_body_inv buf s s' :
  bytes_ok buf -> log_inv buf s -> decode_log_body buf s = inl s' -> log_inv buf s'.
Proof.
  intros Hb Hi H. pose proof (fun a b => decode_log_progress buf s s' Hb a b) as Hpr.
  unfold decode_log_body, FRAME_HEADER_BYTES in H.
  destruct (w_offset s <? zlen buf) eqn:E1; [|done].
  destruct (zlen buf <? w_offset s + 5) eqn:E2; [done|]. cbn [negb] in H.
  destruct (u64_max <? _); [done|].
  set (len := from_le_bytes (slice buf (w_offset s + 1) (w_offset s + 5))) in *.
  destruct (zlen buf <? w_offset s + 5 + len) eqn:E3; [done|].
  apply Z.ltb_lt in E1. apply Z.ltb_ge in E2, E3.
  assert (Ho : 9 <= w_offset s).
  { destruct Hi as (gs & _ & _ & _ & _ & Ho). pose proof (zlen_nonneg (encode_batches (w_batches s))).
    destruct (w_current s); unfold current_len in Ho; zlen_lia. }
  pose proof (from_le_slice_range buf (w_offset s + 1) (w_offset s + 5) Hb ltac:(lia) ltac:(lia)) as Hlen.
  fold len in Hlen. replace (w_offset s + 5 - (w_offset s + 1)) with 4 in Hlen by lia.
  destruct (decode_frame _ len _ _ s) as [t|] eqn:Ed; [|done]. simplify_eq.
  unfold decode_frame in Ed. destruct (_ =? FRAME_BATCH).
  - destruct (len =? 8) eqn:E8; [|done]. apply Z.eqb_eq in E8. cbn [negb] in Ed.
    destruct (close_batch _ _ _) as [[run bs]|] eqn:Ec; [|done]. simplify_eq.
    destruct (close_batch_inv buf s run bs Hi Ec) as (gs & -> & -> & Hok & Hlo).
    exists gs. split_and!; [done|done|done| | |simpl; lia].
    + intros c [= <-]. constructor.
    + cbn [w_batches w_current w_offset current_len seq records]. rewrite encode_log_batch_frames.
      unfold frames. rewrite fmap_nil. cbn [concat].
      rewrite app_nil_r, zlen_frame_bytes, zlen_to_le_bytes. lia.
  - destruct (w_current s) as [cur|] eqn:Ecur; [|done].
    destruct (frame_record _ _ _) as [r|] eqn:Er; [|done]. simplify_eq.
    destruct (frame_record_ok buf (w_offset s + 5) _ _ _ r Hb ltac:(lia) E3
                ltac:(unfold u32_max; lia) eq_refl Er) as [Hr Hfl].
    destruct Hi as (gs & Hbs & Hrun & Hok & Hc & Hlo).
    exists gs. split_and!; [done|done|done| | |simpl; lia].
    + intros c [= <-]. apply Forall_app. split; [by apply Hc|by repeat constructor].
    + rewrite Ecur in Hlo. cbn [current_len w_batches w_current w_offset seq records] in *.
      rewrite encode_log_batch_frames in *. rewrite frames_app, app_assoc, zlen_app. lia.
Qed.

Lemma log_inv_exit buf s s' :
  log_inv buf s -> decode_log_body buf s = inr (Some s') -> log_inv buf s'.
Proof.
  unfold decode_log_body. intros Hi H.
  repeat first [case_match | progress simplify_eq/=]; done.
Qed.

Lemma header_generation_range buf g :
  bytes_ok buf -> decode_log_header buf = Some g -> 0 <= g <= u32_max /\ 9 <= zlen buf.
Proof.
  unfold decode_log_header, LOG_HEADER_BYTES. intros Hb H.
  destruct (zlen buf <? 9) eqn:E; [done|]. apply Z.ltb_ge in E.
  case_match; simplify_eq.
  pose proof (from_le_slice_range buf 5 9 Hb ltac:(lia) ltac:(lia)). unfold u32_max. lia.
Qed.

Lemma sum_output_frames rs : sum_output rs <= zlen (frames rs).
Proof.
  induction rs as [|r rs IH]; [done|]. rewrite frames_cons, frame_is, zlen_app, zlen_frame_bytes.
  simpl. assert (output_bytes r <= zlen (record_payload r)); [|lia].
  destruct r; simpl; [lia|zlen_lia|done].
Qed.

Lemma sum_groups_encoded tot gs : sum_groups gs <= zlen (encode_batches (stamp tot gs)).
Proof.
  revert tot; induction gs as [|rs gs IH]; intros tot; [done|].
  rewrite sum_groups_cons. cbn [stamp]. rewrite encode_batches_cons, encode_log_batch_frames.
  cbn [seq records]. rewrite !zlen_app, zlen_frame_bytes.
  pose proof (sum_output_frames rs). specialize (IH (tot + sum_output rs)). zlen_lia.
Qed.

Lemma log_inv_start buf :
  9 <= zlen buf -> log_inv buf (mkLogWalk [] None 0 LOG_HEADER_BYTES false).
Proof.
  intros H. by exists [].
Qed.

(** Whatever bytes the log file holds, if the reader accepts it then the
    batches it returns carry consecutive cumulative sequence numbers, so no
    range of output is missing between two of them, they take no more bytes
    than the file has, and they are themselves a log the reader decodes to the
    same batches. *)
Theorem accepted_log_has_no_gap buf d :
  bytes_ok buf -> zlen buf <= u64_max -> decode_log buf = Some d ->
  exists groups, batches d = stamp 0 groups /\
    zlen (encode_log (generation d) (batches d)) <= zlen buf /\
    decode_log (encode_log (generation d) (batches d)) =
      Some (mkDecodedLog (generation d) (batches d) false).
Proof.
  intros Hb Hu H. unfold decode_log in H.
  destruct (decode_log_header buf) as [g|] eqn:Hg; [|done].
  destruct (loop _ _ _) as [[s|]|] eqn:Hl; [|done..].
  destruct (header_generation_range _ _ Hb Hg) as [Hgr H9].
  destruct (loops_invariant (decode_log_body buf) (log_inv buf) _ _
    (fun s s' => decode_log_body_inv buf s s' Hb) (log_inv_start buf H9) (loop_loops _ _ _ _ Hl))
    as (s' & Hi & Hs').
  apply log_inv_exit in Hs'; [|done]. clear Hi.
  destruct (close_batch _ _ _) as [[run bs]|] eqn:Ec; [|done]. simplify_eq/=.
  destruct (close_batch_inv buf s run bs Hs' Ec) as (gs & -> & Hrun & Hok & Hlen).
  assert (Hz : zlen (encode_log g (stamp 0 gs)) <= zlen buf).
  { destruct Hs' as (_ & _ & _ & _ & _ & Hle). unfold encode_log.
    rewrite zlen_app. replace (zlen (encode_log_header g)) with 9 by done. lia. }
  exists gs. split_and!; [done|done|]. apply decode_encode_log; auto; [|lia].
  pose proof (sum_groups_encoded 0 gs). unfold encode_log in Hz.
  rewrite zlen_app in Hz. pose proof (zlen_nonneg (encode_log_header g)). lia.
Qed.

Lemma accepted_log_has_no_gap_witness :
  let buf := encode_log 2 (stamp 0 [[Output [97]]]) ++ [1; 8; 0] in
  let d := mkDecodedLog 2 [mkLogBatch 1 [Output [97]]] true in
  decode_log buf = Some d /\
  exists groups, batches d = stamp 0 groups /\
    zlen (encode_log (generation d) (batches d)) <= zlen buf /\
    decode_log (encode_log (generation d) (batches d)) =
      Some (mkDecodedLog (generation d) (batches d) false).
Proof.
  split; [reflexivity|]. apply accepted_log_has_no_gap; [|discriminate|reflexivity].
  repeat constructor; discriminate.
Defined.
