(* ===== verification/DiskIO.v ===== *)
(** The file system under the history of one session directory, as the source
    uses it through [std::fs]: a small monad of file operations over the four
    files of the directory, with an oracle that makes any operation fail or the
    machine stop in the middle of it. Nothing of this file models code under
    src/; it is the semantics History.v gives to the library calls.

    A file is the list of its versions, newest first. A version that was not
    synced may survive a power loss cut to any prefix, and the versions behind
    it may survive instead; syncing a file, or the directory after a rename,
    discards what lies behind a synced version. *)

From S2P Require Import Prelude.

Inductive file := META_JSON | CHECKPOINT_JSON | CHECKPOINT_TMP | OUTPUT_LOG.

#[export] Instance file_eq_dec : EqDecision file.
Proof. solve_decision. Defined.

Record version := mkVersion { content : option bytes; synced : bool }.
Definition slot := list version.
Definition Store := file -> slot.

(** What a process that keeps running reads. *)
Definition current (s : slot) : option bytes :=
  match s with [] => None | v :: _ => content v end.

(** The directory as read back after the machine stopped. *)
Definition Disk := file -> option bytes.
Definition disk_of (st : Store) : Disk := fun f => current (st f).

Definition version_survives (v : version) (c : option bytes) : Prop :=
  match content v, c with
  | None, None => True
  | Some b, Some b' => if synced v then b' = b else b' `prefix_of` b
  | _, _ => False
  end.

(** A file without any version was never created. *)
Definition survives (s : slot) (c : option bytes) : Prop :=
  (s = [] /\ c = None) \/ exists v, v ∈ s /\ version_survives v c.

Definition survived (st : Store) (d : Disk) : Prop := forall f, survives (st f) (d f).

(** A slot whose only version is synced. *)
Definition settled (s : slot) (c : option bytes) : Prop := s = [mkVersion c true].

Definition upd (f : file) (s : slot) (st : Store) : Store :=
  fun g => if decide (f = g) then s else st g.

Definition push (f : file) (c : option bytes) (st : Store) : Store :=
  upd f (mkVersion c false :: st f) st.

Definition settle (s : slot) : slot :=
  match s with
  | v :: _ => if synced v then [v] else s
  | [] => []
  end.

Definition sync_slot (s : slot) : slot :=
  match s with v :: _ => [mkVersion (content v) true] | [] => [] end.

(** * Faults and the monad *)

(** [Fail]/[Crash] with [Some k] happen after [k] bytes of a write. *)
Inductive fault := Good | Fail (k : option nat) | Crash (k : option nat).

Inductive io_error := OwnedElsewhere | IoError.

Record World := mkWorld {
  store : Store;
  owned : bool;             (* a live descriptor holds [.owner.lock] *)
  oracle : list fault;
}.

Inductive outcome (W A : Type) :=
| Done (r : result A io_error) (s : W) (w : World)
| Crashed (st : Store).
Arguments Done {W A} r s w.
Arguments Crashed {W A} st.

(** Computations over an object of type [W] (a [&mut self]) and the world. *)
Definition IO (W A : Type) : Type := W -> World -> outcome W A.

Definition ret {W A} (a : A) : IO W A := fun s w => Done (Ok a) s w.
Definition fail {W A} (e : io_error) : IO W A := fun s w => Done (Err e) s w.

(** Sequencing with [?]. *)
Definition bind {W A B} (m : IO W A) (k : A -> IO W B) : IO W B := fun s w =>
  match m s w with
  | Done (Ok a) s w => k a s w
  | Done (Err e) s w => Done (Err e) s w
  | Crashed st => Crashed st
  end.

(** A call whose [Result] is inspected instead of propagated. *)
Definition attempt {W A} (m : IO W A) : IO W (result A io_error) := fun s w =>
  match m s w with
  | Done r s w => Done (Ok r) s w
  | Crashed st => Crashed st
  end.

Definition get {W} : IO W W := fun s w => Done (Ok s) s w.
Definition put {W} (s : W) : IO W unit := fun _ w => Done (Ok tt) s w.

Declare Scope io_scope.
Delimit Scope io_scope with io.
Notation "x <-- m ;; k" := (bind m (fun x => k))
  (at level 100, m at next level, right associativity) : io_scope.
Notation "m ;;; k" := (bind m (fun _ => k))
  (at level 100, right associativity) : io_scope.

(** * Operations *)

(** An operation with its complete effect and its effect when cut after [k]
    bytes. *)
Definition prim {W} (whole : Store -> Store) (part : nat -> Store -> Store) : IO W unit :=
  fun s w =>
    let st := store w in
    let go st := mkWorld st (owned w) (tail (oracle w)) in
    match oracle w with
    | [] | Good :: _ => Done (Ok tt) s (go (whole st))
    | Fail None :: _ => Done (Err IoError) s (go st)
    | Fail (Some k) :: _ => Done (Err IoError) s (go (part k st))
    | Crash None :: _ => Crashed st
    | Crash (Some k) :: _ => Crashed (part k st)
    end.

(** [fs::write], and [File::create] followed by [write_all]. *)
Definition fs_write {W} (f : file) (data : bytes) : IO W unit :=
  prim (push f (Some data)) (fun k => push f (Some (take k data))).

(** [OpenOptions::new().append(true).open(f)?.write_all(data)]. *)
Definition fs_append {W} (f : file) (data : bytes) : IO W unit := fun s w =>
  match current (store w f) with
  | None => Done (Err IoError) s w
  | Some old =>
      prim (push f (Some (old ++ data))) (fun k => push f (Some (old ++ take k data))) s w
  end.

Definition fs_sync {W} (f : file) : IO W unit :=
  prim (fun st => upd f (sync_slot (st f)) st) (fun _ st => st).

(** Renaming moves the newest version; the old entry may survive until the
    directory is synced. *)
Definition renamed (f g : file) (st : Store) : Store :=
  match st f with
  | [] => st
  | v :: _ => upd g (v :: st g) (upd f (mkVersion None false :: st f) st)
  end.

Definition fs_rename {W} (f g : file) : IO W unit := prim (renamed f g) (fun _ st => st).

Definition fs_sync_dir {W} : IO W unit :=
  prim (fun st f => settle (st f)) (fun _ st => st).

Definition fs_remove {W} (f : file) : IO W unit := fun s w =>
  match current (store w f) with
  | None => Done (Err IoError) s w
  | Some _ => prim (push f None) (fun _ st => st) s w
  end.

(** [fs::read]: fails when there is no file. *)
Definition fs_read {W} (f : file) : IO W bytes := fun s w =>
  let go := mkWorld (store w) (owned w) (tail (oracle w)) in
  match oracle w with
  | [] | Good :: _ =>
      match current (store w f) with
      | Some b => Done (Ok b) s go
      | None => Done (Err IoError) s go
      end
  | Fail _ :: _ => Done (Err IoError) s go
  | Crash _ :: _ => Crashed (store w)
  end.

(** Creating the directory, or the lock file, touches none of the four files. *)
Definition fs_touch {W} : IO W unit := prim (fun st => st) (fun _ st => st).

(** [flock(LOCK_EX | LOCK_NB)] on a fresh descriptor, and its release. *)
Definition fs_flock {W} : IO W unit := fun s w =>
  if owned w then Done (Err OwnedElsewhere) s w
  else Done (Ok tt) s (mkWorld (store w) true (oracle w)).

Definition fs_unlock {W} : IO W unit := fun s w =>
  Done (Ok tt) s (mkWorld (store w) false (oracle w)).

(** * Lemmas *)

Lemma push_same f c st : push f c st f = mkVersion c false :: st f.
Proof. unfold push, upd. by rewrite decide_True. Qed.

Lemma push_other f g c st : f <> g -> push f c st g = st g.
Proof. intros. unfold push, upd. by rewrite decide_False. Qed.

Lemma survives_settled s c d : settled s c -> survives s d -> d = c.
Proof.
  intros ->. intros [[? _]|(v & Hv & H)]; [done|].
  apply list_elem_of_singleton in Hv as ->. unfold version_survives in H. simpl in H.
  destruct c, d; simpl in H; try done. by subst.
Qed.

Lemma survives_cons v s c : survives (v :: s) c -> version_survives v c \/ survives s c.
Proof.
  intros [[? _]|(v' & Hv & H)]; [done|].
  apply elem_of_cons in Hv as [->|Hv]; [by left|]. right. right. eauto.
Qed.

Lemma survives_mono v s c : s <> [] -> survives s c -> survives (v :: s) c.
Proof.
  intros Hs [[? _]|(v' & Hv & H)]; [done|]. right. exists v'.
  split; [by apply list_elem_of_further|done].
Qed.

Lemma survives_current s : survives s (current s).
Proof.
  destruct s as [|[c b] s]; [by left|]. right. exists (mkVersion c b).
  split; [apply list_elem_of_here|]. unfold version_survives. simpl.
  destruct c; [|done]. by destruct b.
Qed.

Lemma bind_run {W A B} (m : IO W A) (k : A -> IO W B) s w :
  bind m k s w =
    match m s w with
    | Done (Ok a) s w => k a s w
    | Done (Err e) s w => Done (Err e) s w
    | Crashed st => Crashed st
    end.
Proof. done. Qed.

(** The store an outcome leaves behind. *)
Definition final_store {W A} (o : outcome W A) : Store :=
  match o with Done _ _ w => store w | Crashed st => st end.

Lemma settle_sub s v : v ∈ settle s -> v ∈ s.
Proof.
  destruct s as [|v' s]; [done|]. simpl. destruct (synced v'); [|done].
  intros ->%list_elem_of_singleton. apply list_elem_of_here.
Qed.

Lemma settle_survives s c : survives (settle s) c -> survives s c.
Proof.
  intros [[Hs ->]|(v & Hv & H)].
  - left. destruct s as [|v s]; [done|]. simpl in Hs. by destruct (synced v).
  - right. exists v. split; [by apply settle_sub|done].
Qed.

(** What any outcome of an operation satisfies, from its three kinds of end. *)
Lemma prim_cases {W} (whole : Store -> Store) (part : nat -> Store -> Store) (s : W) w :
  (prim whole part s w = Done (Ok tt) s (mkWorld (whole (store w)) (owned w) (tail (oracle w))) /\
     (forall f, head (oracle w) = Some f -> f = Good)) \/
  (exists st k, (st = store w \/ st = part k (store w)) /\
    ((prim whole part s w = Done (Err IoError) s (mkWorld st (owned w) (tail (oracle w))) /\
      exists k, head (oracle w) = Some (Fail k)) \/
     prim whole part s w = Crashed st)).
Proof.
  unfold prim. destruct (oracle w) as [|[|[k|]|[k|]] o]; simpl;
    first [left; split; [done|congruence] | right].
  - exists (part k (store w)), k. split; [by right|]. left; eauto.
  - exists (store w), 0%nat. split; [by left|]. left; eauto.
  - exists (part k (store w)), k. split; [by right|]. by right.
  - exists (store w), 0%nat. split; [by left|]. by right.
Qed.
