(* ===== verification/History.v ===== *)
(** The history store of a session (grove-daemon/src/history.rs): the writer of
    [meta.json], [checkpoint.json] and [output.log], and the reader that composes
    a cold restore from what a dead daemon left. The JSON of the two records is
    serde's and an interface here; the files are those of DiskIO. *)

From S2P Require Import Prelude Utf8 Framing ModeState Emulator HistoryLog DiskIO.

#[local] Open Scope io_scope.

Definition DEFAULT_LOG_MAX_BYTES : Z := 256 * 1024.

(** * Records *)

Record SessionMeta := mkSessionMeta {
  meta_cwd : option bytes;
  meta_cols : Z;
  meta_rows : Z;
  started_at_ms : Z;
  ended_at_ms : option Z;
  exit_code : option Z
}.

(** The clock is an argument. *)
Definition SessionMeta_new (cwd : option bytes) (cols rows now_ms : Z) : SessionMeta :=
  mkSessionMeta cwd cols rows now_ms None None.

Record Checkpoint := mkCheckpoint {
  cp_snapshot_ansi : bytes;
  cp_scrollback_ansi : bytes;
  cp_rehydrate_sequences : bytes;
  cp_pending_escape_tail : bytes;
  cp_cwd : option bytes;
  cp_cols : Z;
  cp_rows : Z;
  cp_is_alternate_screen : bool;
  cp_kitty_keyboard_flags : Z;
  cp_last_title : option bytes;
  scrollback_seq : Z;
  cp_generation : Z;
  checkpointed_at_ms : Z
}.

#[export] Instance session_meta_eq_dec : EqDecision SessionMeta.
Proof. solve_decision. Defined.
#[export] Instance checkpoint_eq_dec : EqDecision Checkpoint.
Proof. solve_decision. Defined.

(** serde_json (and base64) over the two records. *)
Class Serde := {
  meta_to_json : SessionMeta -> bytes;
  meta_from_json : bytes -> option SessionMeta;
  checkpoint_to_json : Checkpoint -> bytes;
  checkpoint_from_json : bytes -> option Checkpoint
}.

Class SerdeLaws `{Serde} : Prop := {
  meta_json_roundtrip : forall m, meta_from_json (meta_to_json m) = Some m;
  checkpoint_json_roundtrip : forall c, checkpoint_from_json (checkpoint_to_json c) = Some c;
  checkpoint_json_nonempty : forall c, checkpoint_to_json c <> []
}.

Section history.
Context `{Serde}.

(** [Checkpoint::read] and [SessionMeta::read] on the bytes of the file. *)
Definition checkpoint_of (raw : option bytes) : option Checkpoint :=
  match raw with
  | None => None
  | Some raw => if bool_decide (raw = []) then None else checkpoint_from_json raw
  end.

Definition meta_of (raw : option bytes) : option SessionMeta := raw ≫= meta_from_json.

(** * The writer *)

Record HistoryWriter := mkHistoryWriter {
  log_generation : option Z;
  log_bytes : option Z;
  appended_output_bytes : Z;
  needs_full_anchor : bool;
  log_max_bytes : Z
}.

Inductive AppendOutcome := Appended | NeedsCheckpoint.

Definition ok_or_none {W A} (m : IO W A) : IO W (option A) :=
  r <-- attempt m;; ret (match r with Ok a => Some a | Err _ => None end).

Definition read_meta {W} : IO W (option SessionMeta) :=
  raw <-- ok_or_none (fs_read META_JSON);; ret (meta_of raw).

Definition write_meta {W} (m : SessionMeta) : IO W unit := fs_write META_JSON (meta_to_json m).

Definition read_checkpoint {W} : IO W (option Checkpoint) :=
  raw <-- ok_or_none (fs_read CHECKPOINT_JSON);; ret (checkpoint_of raw).

(** Opening the lock file and [flock]; a failure other than contention is [Io]. *)
Definition acquire {W} : IO W unit := fs_touch ;;; fs_flock.

(** The lock is dropped with the writer that was not returned. *)
Definition or_unlock {W A} (m : IO W A) : IO W A :=
  r <-- attempt m;;
  match r with
  | Ok a => ret a
  | Err e => fs_unlock ;;; fail e
  end.

Definition open_session (meta : SessionMeta) : IO unit HistoryWriter :=
  fs_touch ;;;
  acquire ;;;
  or_unlock (
    attempt (fs_remove CHECKPOINT_JSON) ;;;
    attempt (fs_remove OUTPUT_LOG) ;;;
    write_meta meta ;;;
    ret (mkHistoryWriter (Some 0) (Some 0) 0 true DEFAULT_LOG_MAX_BYTES)).

Definition register_writer : IO unit HistoryWriter :=
  fs_touch ;;;
  acquire ;;;
  ret (mkHistoryWriter None None 0 true DEFAULT_LOG_MAX_BYTES).

Definition set_log_state (w : HistoryWriter) (gen size appended : Z) : HistoryWriter :=
  mkHistoryWriter (Some gen) (Some size) appended (needs_full_anchor w) (log_max_bytes w).

Definition force_full_anchor : IO HistoryWriter unit :=
  w <-- get;;
  put (mkHistoryWriter (log_generation w) (log_bytes w) (appended_output_bytes w) true
         (log_max_bytes w)).

Definition checkpoint_generation {W} : IO W (option Z) :=
  c <-- read_checkpoint;; ret (cp_generation <$> c).

(** The last batch's sequence number, from which a warm writer continues. *)
Definition resumed_output_bytes (buf : bytes) : Z :=
  match decode_log buf with
  | Some d => match last (batches d) with Some b => seq b | None => 0 end
  | None => 0
  end.

Definition resolve_log_state : IO HistoryWriter unit :=
  w <-- get;;
  match log_bytes w, log_generation w with
  | Some _, Some _ => ret tt
  | _, _ =>
      buf <-- ok_or_none (fs_read OUTPUT_LOG);;
      match buf with
      | Some buf =>
          match decode_log_header buf with
          | Some gen => put (set_log_state w gen (zlen buf) (resumed_output_bytes buf))
          | None =>
              g <-- checkpoint_generation;;
              put (set_log_state w (default 0 g) 0 0)
          end
      | None =>
          g <-- checkpoint_generation;;
          put (set_log_state w (default 0 g) 0 0)
      end
  end.

Definition set_log_bytes (w : HistoryWriter) (n : Z) : HistoryWriter :=
  mkHistoryWriter (log_generation w) (Some n) (appended_output_bytes w) (needs_full_anchor w)
    (log_max_bytes w).

Definition append_increments (records : list HistoryRecord) : IO HistoryWriter AppendOutcome :=
  if bool_decide (records = []) then ret Appended
  else
    resolve_log_state ;;;
    w <-- get;;
    let seq := appended_output_bytes w + sum_output records in
    let batch := encode_log_batch seq records in
    let current := Z.max (default 0 (log_bytes w)) LOG_HEADER_BYTES in
    if log_max_bytes w <? current + zlen batch then ret NeedsCheckpoint
    else
      (if bool_decide (log_bytes w = Some 0) then
         fs_write OUTPUT_LOG (encode_log_header (default 0 (log_generation w))) ;;;
         put (set_log_bytes w LOG_HEADER_BYTES)
       else ret tt) ;;;
      fs_append OUTPUT_LOG batch ;;;
      w <-- get;;
      put (mkHistoryWriter (log_generation w)
             (Some (default LOG_HEADER_BYTES (log_bytes w) + zlen batch)) seq
             (needs_full_anchor w) (log_max_bytes w)) ;;;
      ret Appended.

(** Write the temporary, sync it, rename it over the target, sync the directory
    (whose failure the code ignores). *)
Definition write_durable {W} (data : bytes) : IO W unit :=
  fs_write CHECKPOINT_TMP data ;;;
  fs_sync CHECKPOINT_TMP ;;;
  fs_rename CHECKPOINT_TMP CHECKPOINT_JSON ;;;
  attempt fs_sync_dir ;;;
  ret tt.

Definition with_generation (c : Checkpoint) (generation now_ms : Z) : Checkpoint :=
  mkCheckpoint (cp_snapshot_ansi c) (cp_scrollback_ansi c) (cp_rehydrate_sequences c)
    (cp_pending_escape_tail c) (cp_cwd c) (cp_cols c) (cp_rows c) (cp_is_alternate_screen c)
    (cp_kitty_keyboard_flags c) (cp_last_title c) (scrollback_seq c) generation now_ms.

Definition checkpoint (cp : Checkpoint) (now_ms : Z) : IO HistoryWriter unit :=
  resolve_log_state ;;;
  w <-- get;;
  let generation := wrap 32 (default 0 (log_generation w) + 1) in
  let cp := with_generation cp generation now_ms in
  write_durable (checkpoint_to_json cp) ;;;
  fs_write OUTPUT_LOG (encode_log_header generation) ;;;
  put (mkHistoryWriter (Some generation) (Some LOG_HEADER_BYTES) 0 false (log_max_bytes w)).

Definition with_end (m : SessionMeta) (ended code : option Z) : SessionMeta :=
  mkSessionMeta (meta_cwd m) (meta_cols m) (meta_rows m) (started_at_ms m) ended code.

Definition stamp_ended (code : option Z) (now_ms : Z) : IO HistoryWriter unit :=
  m <-- read_meta;;
  match m with
  | None => ret tt
  | Some m => write_meta (with_end m (Some now_ms) code)
  end.

Definition reopen : IO HistoryWriter unit :=
  m <-- read_meta;;
  (match m with
   | None => ret tt
   | Some m => write_meta (with_end m None None)
   end) ;;;
  force_full_anchor.

(** * The reader *)

Record ColdRestore := mkColdRestore {
  scrollback_for_replay : bytes;
  final_screen_ansi : bytes;
  cold_cwd : option bytes;
  cold_cols : Z;
  cold_rows : Z;
  cold_alternate : bool;
  cold_pending_escape_tail : bytes;
  degraded : bool
}.

Definition cold_snapshot (r : ColdRestore) : bytes :=
  if cold_alternate r then final_screen_ansi r else scrollback_for_replay r.

Context (P : Type) `{Vt100 P}.

Definition has_restorable_history (d : Disk) : bool :=
  match meta_of (d META_JSON) with
  | Some m => bool_decide (ended_at_ms m = None)
  | None => false
  end.

Definition checkpoint_base_bytes (cp : Checkpoint) : bytes :=
  if bool_decide (cp_scrollback_ansi cp = []) && cp_is_alternate_screen cp
  then [27] ++ str "[?1049h" ++ cp_rehydrate_sequences cp ++ cp_snapshot_ansi cp
  else cp_scrollback_ansi cp.

Definition or_else {A} (a b : option A) : option A := match a with Some _ => a | None => b end.

Definition finish (scratch : DaemonEmulator P) (scrollback : bytes)
    (checkpoint : option Checkpoint) (meta : SessionMeta) (degraded : bool) : ColdRestore :=
  let snap := snapshot scratch default_options 0 in
  mkColdRestore scrollback
    (if is_alternate_screen snap && bool_decide (scrollback_ansi snap = [])
     then snapshot_ansi snap else scrollback_ansi snap)
    (or_else (checkpoint ≫= cp_cwd) (or_else (snap_cwd snap) (meta_cwd meta)))
    (snap_cols snap) (snap_rows snap) (is_alternate_screen snap)
    (match checkpoint with Some c => cp_pending_escape_tail c | None => pending_escape_tail snap end)
    degraded.

(** One record of the log, replayed on the scratch emulator and the scrollback. *)
Definition replay_record (s : DaemonEmulator P * bytes) (r : HistoryRecord) :
    DaemonEmulator P * bytes :=
  match r with
  | Output b => (process s.1 b, s.2 ++ b)
  | Resize cols rows => (Emulator.resize s.1 cols rows, s.2)
  | Clear => (s.1, [])
  end.

Definition replay_batch (s : DaemonEmulator P * bytes) (b : LogBatch) :
    DaemonEmulator P * bytes := foldl replay_record s (records b).

Definition restore_from_log (d : Disk) (meta : SessionMeta) (checkpoint : option Checkpoint)
    (checkpoint_torn : bool) : option ColdRestore :=
  buf ← d OUTPUT_LOG;
  log ← decode_log buf;
  if bool_decide (batches log = []) then None
  else if
    match checkpoint with
    | Some cp => negb (generation log =? cp_generation cp)
    | None => negb checkpoint_torn && negb (generation log =? 0)
    end
  then None
  else
    let degraded := bool_decide (checkpoint = None) && checkpoint_torn in
    let cols := Z.max (from_option cp_cols (meta_cols meta) checkpoint) 1 in
    let rows := Z.max (from_option cp_rows (meta_rows meta) checkpoint) 1 in
    let scratch := emulator_new rows cols DEFAULT_SCROLLBACK_LINES in
    let start :=
      match checkpoint with
      | Some cp => (process scratch (checkpoint_base_bytes cp), cp_scrollback_ansi cp)
      | None => (scratch, [])
      end in
    let (scratch, scrollback) := foldl replay_batch start (batches log) in
    Some (finish scratch scrollback checkpoint meta degraded).

Definition restore_from_checkpoint (cp : Checkpoint) (meta : SessionMeta) : ColdRestore :=
  let cols := Z.max (cp_cols cp) 1 in
  let rows := Z.max (cp_rows cp) 1 in
  let scratch := process (emulator_new rows cols DEFAULT_SCROLLBACK_LINES)
                   (checkpoint_base_bytes cp) in
  let scrollback :=
    if bool_decide (cp_scrollback_ansi cp = []) && cp_is_alternate_screen cp
    then cp_snapshot_ansi cp else cp_scrollback_ansi cp in
  finish scratch scrollback (Some cp) meta false.

Definition detect_cold_restore (d : Disk) (ignore_clean_end : bool) : option ColdRestore :=
  meta ← meta_of (d META_JSON);
  if bool_decide (ended_at_ms meta <> None) && negb ignore_clean_end then None
  else
    let raw_checkpoint := checkpoint_of (d CHECKPOINT_JSON) in
    if match raw_checkpoint with
       | Some cp => negb (checkpointed_at_ms cp =? 0)
                    && (checkpointed_at_ms cp <? started_at_ms meta)
       | None => false
       end
    then None
    else
      let checkpoint_torn :=
        bool_decide (raw_checkpoint = None) && bool_decide (d CHECKPOINT_JSON <> None) in
      match restore_from_log d meta raw_checkpoint checkpoint_torn with
      | Some r => Some r
      | None => (fun cp => restore_from_checkpoint cp meta) <$> raw_checkpoint
      end.
End history.

(** * Replacing the checkpoint *)

Section crash.
Context `{SerdeLaws} (P : Type) `{Vt100 P}.

(** The three states the durable replacement of a checkpoint goes through, with
    the other files at most narrowed to what could survive before. *)
Definition narrowed (s0 s : slot) : Prop :=
  (forall c, survives s c -> survives s0 c) /\ forall v, v ∈ s -> v ∈ s0.

Lemma narrowed_refl s : narrowed s s.
Proof. by split. Qed.

Lemma narrowed_settle s : narrowed s (settle s).
Proof. split; [apply settle_survives|apply settle_sub]. Qed.

Definition replacing (data : bytes) (st0 st : Store) : Prop :=
  narrowed (st0 META_JSON) (st META_JSON) /\ narrowed (st0 OUTPUT_LOG) (st OUTPUT_LOG) /\
  (st CHECKPOINT_JSON = st0 CHECKPOINT_JSON \/
   st CHECKPOINT_JSON = mkVersion (Some data) true :: st0 CHECKPOINT_JSON).

Definition replaced (data : bytes) (st0 st : Store) : Prop :=
  narrowed (st0 META_JSON) (st META_JSON) /\ narrowed (st0 OUTPUT_LOG) (st OUTPUT_LOG) /\
  st CHECKPOINT_JSON = [mkVersion (Some data) true].

(** The directory sync is the fourth file operation. *)
Definition dir_sync_ok (o : list fault) : Prop := forall k, nth_error o 3 <> Some (Fail k).

Lemma renamed_synced data st :
  let st' := renamed CHECKPOINT_TMP CHECKPOINT_JSON
    (upd CHECKPOINT_TMP (sync_slot (push CHECKPOINT_TMP (Some data) st CHECKPOINT_TMP))
       (push CHECKPOINT_TMP (Some data) st)) in
  st' CHECKPOINT_JSON = mkVersion (Some data) true :: st CHECKPOINT_JSON /\
  st' META_JSON = st META_JSON /\ st' OUTPUT_LOG = st OUTPUT_LOG.
Proof. done. Qed.

Ltac same_slots :=
  unfold replaced, replacing; split_and!; cbn; try apply narrowed_refl; try apply narrowed_settle; try done;
  try by (left + right).

Lemma write_durable_effect {W} data (s : W) w :
  dir_sync_ok (oracle w) ->
  match write_durable data s w with
  | Done (Ok _) s' w' => s' = s /\ replaced data (store w) (store w') /\
                         oracle w' = drop 4 (oracle w)
  | o => replacing data (store w) (final_store o)
  end.
Proof.
  destruct w as [st ow o]. intros Hd.
  unfold write_durable, bind, attempt, fs_write, fs_sync, fs_rename, fs_sync_dir, prim.
  destruct o as [|[|[k|]|[k|]] o]; cbn; [same_slots| |same_slots..].
  destruct o as [|[|[k1|]|[k1|]] o]; cbn; [same_slots| |same_slots..].
  destruct o as [|[|[k2|]|[k2|]] o]; cbn; [same_slots| |same_slots..].
  destruct o as [|[|k3|[k3|]] o]; cbn; [same_slots|same_slots| |same_slots..].
  by destruct (Hd k3).
Qed.

(** A log whose readable versions all belong to another generation. *)
Definition foreign_log (s : slot) (generation : Z) : Prop :=
  forall v b g, v ∈ s -> content v = Some b -> decode_log_header b = Some g -> g <> generation.

Lemma decode_log_header_prefix b b' g :
  b' `prefix_of` b -> decode_log_header b' = Some g -> decode_log_header b = Some g.
Proof.
  intros [k ->]. unfold decode_log_header, LOG_HEADER_BYTES.
  destruct (zlen b' <? 9) eqn:E; [done|]. apply Z.ltb_ge in E.
  rewrite (proj2 (Z.ltb_ge (zlen (b' ++ k)) 9)) by zlen_lia.
  by rewrite !slice_app_l, byte_at_app_l by lia.
Qed.

Lemma decode_log_generation b log :
  decode_log b = Some log -> decode_log_header b = Some (generation log).
Proof.
  unfold decode_log. intros H2. repeat first [case_match | progress simplify_eq/=]; done.
Qed.

Lemma decode_log_header_only g :
  0 <= g <= u32_max -> decode_log (encode_log_header g) = Some (mkDecodedLog g [] false).
Proof.
  intros Hg. rewrite <- (app_nil_r (encode_log_header g)).
  by apply (decode_encode_log g [] Hg).
Qed.

(** A log that is absent, cut inside a fresh header, empty or of another
    generation adds nothing to a checkpoint. *)
Lemma restore_from_log_ignored d m c torn :
  0 <= cp_generation c <= u32_max ->
  (forall b log, d OUTPUT_LOG = Some b -> decode_log b = Some log ->
     batches log = [] \/ generation log <> cp_generation c) ->
  restore_from_log P d m (Some c) torn = None.
Proof.
  intros Hg Hd. unfold restore_from_log. destruct (d OUTPUT_LOG) as [b|]; [|done]. simpl.
  destruct (decode_log b) as [log|] eqn:E; [|done]. simpl.
  destruct (Hd b log eq_refl E) as [->|Hne].
  - by rewrite bool_decide_eq_true_2.
  - rewrite (proj2 (Z.eqb_neq _ _) Hne). by destruct (bool_decide _).
Qed.

Definition checkpoint_alone (d : Disk) (c : Checkpoint) : Disk := fun f =>
  match f with
  | META_JSON => d META_JSON
  | CHECKPOINT_JSON => Some (checkpoint_to_json c)
  | _ => None
  end.

Lemma checkpoint_of_json c : checkpoint_of (Some (checkpoint_to_json c)) = Some c.
Proof.
  unfold checkpoint_of. rewrite bool_decide_eq_false_2 by apply checkpoint_json_nonempty.
  apply checkpoint_json_roundtrip.
Qed.

Lemma detect_checkpoint_alone d c ignore :
  0 <= cp_generation c <= u32_max -> d CHECKPOINT_JSON = Some (checkpoint_to_json c) ->
  (forall b log, d OUTPUT_LOG = Some b -> decode_log b = Some log ->
     batches log = [] \/ generation log <> cp_generation c) ->
  detect_cold_restore P d ignore = detect_cold_restore P (checkpoint_alone d c) ignore.
Proof.
  intros Hg Hcp Hlog. unfold detect_cold_restore, checkpoint_alone. rewrite Hcp.
  rewrite checkpoint_of_json.
  destruct (meta_of _) as [m|]; [|done]. simpl.
  by rewrite !(restore_from_log_ignored _ m c _ Hg).
Qed.

Lemma detect_ext d d' ignore :
  (forall f, f <> CHECKPOINT_TMP -> d f = d' f) ->
  detect_cold_restore P d ignore = detect_cold_restore P d' ignore.
Proof.
  intros He. unfold detect_cold_restore, restore_from_log.
  by rewrite !(He META_JSON), !(He CHECKPOINT_JSON), !(He OUTPUT_LOG) by done.
Qed.

(** What survives of a log to which at most a part of a fresh header was written. *)
Lemma surviving_log s g k c :
  0 <= g <= u32_max -> foreign_log s g ->
  survives s c \/ survives (mkVersion (Some (take k (encode_log_header g))) false :: s) c ->
  forall b log, c = Some b -> decode_log b = Some log ->
    batches log = [] \/ generation log <> g.
Proof.
  intros Hg Hf Hs b log -> Hl.
  assert (Hfor : survives s (Some b) -> generation log <> g).
  { intros [[_ ?]|(v & Hv & Hsv)]; [done|]. unfold version_survives in Hsv.
    destruct (content v) as [b0|] eqn:Ec; [|done].
    apply (Hf v b0 _ Hv Ec). eapply decode_log_header_prefix; [|by apply decode_log_generation].
    destruct (synced v); [by subst|done]. }
  destruct Hs as [Hs|[Hs|Hs]%survives_cons]; [right; auto| |right; auto].
  left. unfold version_survives in Hs. simpl in Hs.
  assert (b = encode_log_header g) as ->.
  { pose proof (decode_log_generation _ _ Hl) as Hh. unfold decode_log_header in Hh.
    destruct (zlen b <? LOG_HEADER_BYTES) eqn:E; [done|]. apply Z.ltb_ge in E.
    destruct Hs as [t Ht]. apply (f_equal (take (length b))) in Ht.
    rewrite take_app_length in Ht. rewrite <- Ht, take_take, take_ge; [done|].
    unfold LOG_HEADER_BYTES, zlen in E. change (length (encode_log_header g)) with 9%nat.
    apply (f_equal length) in Ht. rewrite take_take, length_take in Ht. lia. }
  rewrite decode_log_header_only in Hl by done. by simplify_eq.
Qed.

Lemma replacing_survived data st0 st d :
  replacing data st0 st -> survived st d ->
  survives (st0 META_JSON) (d META_JSON) /\ survives (st0 OUTPUT_LOG) (d OUTPUT_LOG) /\
  (survives (st0 CHECKPOINT_JSON) (d CHECKPOINT_JSON) \/ d CHECKPOINT_JSON = Some data).
Proof.
  intros ([Hm _] & [Hl _] & Hc) Hs. split_and!; [by apply Hm|by apply Hl|].
  destruct Hc as [Hc|Hc]; specialize (Hs CHECKPOINT_JSON); rewrite Hc in Hs; [by left|].
  apply survives_cons in Hs as [Hs|Hs]; [right|by left].
  unfold version_survives in Hs. simpl in Hs. destruct (d CHECKPOINT_JSON); [|done]. by subst.
Qed.

(** Whatever survives is either a state that could have survived before, as far
    as the reader looks, or holds the new checkpoint and no log that extends it. *)
Definition old_or_new (st0 : Store) (new : Checkpoint) (d : Disk) : Prop :=
  (exists d0, survived st0 d0 /\
     forall ignore, detect_cold_restore P d ignore = detect_cold_restore P d0 ignore) \/
  (survives (st0 META_JSON) (d META_JSON) /\
   forall ignore, detect_cold_restore P d ignore =
                  detect_cold_restore P (checkpoint_alone d new) ignore).

Lemma old_or_new_intro st0 new d k :
  0 <= cp_generation new <= u32_max ->
  foreign_log (st0 OUTPUT_LOG) (cp_generation new) ->
  survives (st0 META_JSON) (d META_JSON) ->
  (survives (st0 OUTPUT_LOG) (d OUTPUT_LOG) /\ survives (st0 CHECKPOINT_JSON) (d CHECKPOINT_JSON) \/
   d CHECKPOINT_JSON = Some (checkpoint_to_json new) /\
   (survives (st0 OUTPUT_LOG) (d OUTPUT_LOG) \/
    survives (mkVersion (Some (take k (encode_log_header (cp_generation new)))) false
              :: st0 OUTPUT_LOG) (d OUTPUT_LOG))) ->
  old_or_new st0 new d.
Proof.
  intros Hg Hf Hm [[Hl Hc]|[Hc Hl]].
  - left. exists (fun f => match f with CHECKPOINT_TMP => current (st0 f) | _ => d f end). split.
    + intros []; try done. apply survives_current.
    + intros ignore. apply detect_ext. by intros [].
  - right. split; [done|]. intros ignore. apply detect_checkpoint_alone; [done|done|].
    by apply (surviving_log (st0 OUTPUT_LOG) _ k).
Qed.

Definition next_generation (w : HistoryWriter) : Z := wrap 32 (default 0 (log_generation w) + 1).

Lemma next_generation_range w : 0 <= next_generation w <= u32_max.
Proof. unfold next_generation, u32_max. pose proof (wrap_range 32 (default 0 (log_generation w) + 1)). lia. Qed.

Lemma checkpoint_resolved cp now w wd :
  log_generation w <> None -> log_bytes w <> None ->
  let new := with_generation cp (next_generation w) now in
  checkpoint cp now w wd =
    (write_durable (checkpoint_to_json new) ;;;
     fs_write OUTPUT_LOG (encode_log_header (cp_generation new)) ;;;
     put (mkHistoryWriter (Some (cp_generation new)) (Some LOG_HEADER_BYTES) 0 false
            (log_max_bytes w))) w wd.
Proof.
  intros Hg Hb. unfold checkpoint, resolve_log_state, bind, get. cbn.
  destruct (log_bytes w); [|done]. by destruct (log_generation w) as [g|].
Qed.

End crash.

(** * Appending and resuming *)

Section append.
Context `{SerdeLaws}.

(** The writer's picture of the log agrees with the file, which holds [groups]
    at generation [g] (or will, once the lazy header is written). *)
Definition in_sync (w : HistoryWriter) (st : Store) (g : Z)
    (groups : list (list HistoryRecord)) : Prop :=
  log_generation w = Some g /\ appended_output_bytes w = sum_groups groups /\
  ((log_bytes w = Some 0 /\ groups = []) \/
   (current (st OUTPUT_LOG) = Some (encode_log g (stamp 0 groups)) /\
    log_bytes w = Some (zlen (encode_log g (stamp 0 groups))))).

Lemma encode_log_snoc g groups rs :
  encode_log g (stamp 0 (groups ++ [rs])) =
    encode_log g (stamp 0 groups) ++ encode_log_batch (sum_groups groups + sum_output rs) rs.
Proof.
  unfold encode_log. rewrite stamp_app, encode_batches_app. cbn [seq records].
  by rewrite Z.add_0_l, app_assoc.
Qed.

Lemma zlen_encode_log g bs : LOG_HEADER_BYTES <= zlen (encode_log g bs).
Proof.
  unfold encode_log. rewrite zlen_app. change (zlen (encode_log_header g)) with LOG_HEADER_BYTES.
  zlen_lia.
Qed.

Lemma encode_log_nil g : encode_log g (stamp 0 []) = encode_log_header g.
Proof. apply app_nil_r. Qed.

Lemma append_healthy w st own g groups rs :
  in_sync w st g groups -> rs <> [] ->
  let grown := encode_log g (stamp 0 (groups ++ [rs])) in
  match append_increments rs w (mkWorld st own []) with
  | Done (Ok Appended) w' wd' =>
      oracle wd' = [] /\
      in_sync w' (store wd') g (groups ++ [rs]) /\ zlen grown <= log_max_bytes w /\
      log_max_bytes w' = log_max_bytes w /\ needs_full_anchor w' = needs_full_anchor w /\
      (forall f, f <> OUTPUT_LOG -> store wd' f = st f)
  | Done (Ok NeedsCheckpoint) w' wd' =>
      w' = w /\ wd' = mkWorld st own [] /\ log_max_bytes w < zlen grown
  | _ => False
  end.
Proof.
  intros (Hg & Ha & Hb) Hne grown.
  assert (Hcur : Z.max (default 0 (log_bytes w)) LOG_HEADER_BYTES = zlen (encode_log g (stamp 0 groups))).
  { pose proof (zlen_encode_log g (stamp 0 groups)).
    destruct Hb as [[-> ->]|[_ ->]]; simpl; [by rewrite encode_log_nil|lia]. }
  assert (Hres : resolve_log_state w (mkWorld st own []) = Done (Ok tt) w (mkWorld st own [])).
  { unfold resolve_log_state, bind, get. rewrite Hg. by destruct Hb as [[-> _]|[_ ->]]. }
  unfold append_increments. rewrite bool_decide_eq_false_2 by done.
  unfold bind at 1. rewrite Hres. unfold bind at 1, get at 1.
  rewrite Hcur, Ha. set (batch := encode_log_batch _ rs).
  assert (Hz : zlen grown = zlen (encode_log g (stamp 0 groups)) + zlen batch)
    by (unfold grown; by rewrite encode_log_snoc, zlen_app).
  rewrite <- Hz. destruct (Z.ltb_spec (log_max_bytes w) (zlen grown)) as [Hlt|Hle]; [done|].
  assert (Hsum : sum_groups groups + sum_output rs = sum_groups (groups ++ [rs]))
    by by rewrite sum_groups_app.
  assert (Hend : forall (st' : Store) n, current (st' OUTPUT_LOG) = Some grown -> n = zlen grown ->
    (forall f, f <> OUTPUT_LOG -> st' f = st f) ->
    let w' := mkHistoryWriter (log_generation w) (Some n) (sum_groups groups + sum_output rs)
                (needs_full_anchor w) (log_max_bytes w) in
    in_sync w' st' g (groups ++ [rs]) /\ zlen grown <= log_max_bytes w /\
    log_max_bytes w' = log_max_bytes w /\ needs_full_anchor w' = needs_full_anchor w /\
    (forall f, f <> OUTPUT_LOG -> st' f = st f)).
  { intros st' n Hc -> Hf w'. split; [|done]. split; [done|]. split; [done|]. by right. }
  destruct Hb as [[Hb ->]|[Hf Hb]].
  - rewrite bool_decide_eq_true_2 by done.
    unfold bind, fs_write, fs_append, prim, put, get, ret, set_log_bytes.
    cbn [oracle store owned tail]. rewrite push_same. cbn [current content].
    split; [done|]. apply (Hend (push OUTPUT_LOG _ (push OUTPUT_LOG _ st))).
    + rewrite push_same. cbn [current content]. unfold grown.
      by rewrite encode_log_snoc, encode_log_nil, Hg.
    + rewrite Hz, encode_log_nil. done.
    + intros f Hf. by rewrite !push_other.
  - rewrite bool_decide_eq_false_2.
    2: by rewrite Hb.
    unfold bind, fs_append, prim, put, get, ret. cbn [oracle store owned tail].
    rewrite Hf. split; [done|]. apply (Hend (push OUTPUT_LOG _ st)).
    + rewrite push_same. cbn [current content]. unfold grown. by rewrite encode_log_snoc.
    + by rewrite Hb, Hz.
    + intros f Hf'. by rewrite push_other.
Qed.

(** An append on a healthy disk either extends the log by exactly one batch,
    stamped with the cumulative output, keeps writer and file in step and stays
    within the cap; or, when the batch would pass the cap, it touches neither the
    disk nor the writer and asks for a checkpoint. *)
Theorem append_increments_spec w st own g groups rs :
  in_sync w st g groups -> rs <> [] ->
  let grown := encode_log g (stamp 0 (groups ++ [rs])) in
  match append_increments rs w (mkWorld st own []) with
  | Done (Ok Appended) w' wd' =>
      in_sync w' (store wd') g (groups ++ [rs]) /\ zlen grown <= log_max_bytes w /\
      log_max_bytes w' = log_max_bytes w /\ needs_full_anchor w' = needs_full_anchor w /\
      (forall f, f <> OUTPUT_LOG -> store wd' f = st f)
  | Done (Ok NeedsCheckpoint) w' wd' =>
      w' = w /\ wd' = mkWorld st own [] /\ log_max_bytes w < zlen grown
  | _ => False
  end.
Proof.
  intros Hs Hne grown. pose proof (append_healthy w st own g groups rs Hs Hne) as Ha.
  destruct (append_increments _ _ _) as [[[]|]|]; try done. apply Ha.
Qed.

(** A daemon that adopts a running session reads generation, size and
    output count back from the log, so that its appends continue the log the
    previous writer left. *)
Theorem warm_writer_resumes st g groups :
  0 <= g <= u32_max -> Forall (Forall record_ok) groups -> sum_groups groups <= u64_max ->
  current (st OUTPUT_LOG) = Some (encode_log g (stamp 0 groups)) ->
  zlen (encode_log g (stamp 0 groups)) <= u64_max ->
  exists w w',
    register_writer tt (mkWorld st false []) = Done (Ok w) tt (mkWorld st true []) /\
    needs_full_anchor w = true /\
    resolve_log_state w (mkWorld st true []) = Done (Ok tt) w' (mkWorld st true []) /\
    in_sync w' st g groups /\ needs_full_anchor w' = true.
Proof.
  intros Hg Hok Hs Hf Hu. set (L := encode_log g (stamp 0 groups)) in *.
  exists (mkHistoryWriter None None 0 true DEFAULT_LOG_MAX_BYTES).
  exists (mkHistoryWriter (Some g) (Some (zlen L)) (resumed_output_bytes L) true
            DEFAULT_LOG_MAX_BYTES).
  split; [done|]. split; [done|]. split; [|split; [|done]].
  - unfold resolve_log_state, bind, ok_or_none, attempt, fs_read, get, put, bind, ret.
    cbn [oracle store owned tail log_bytes]. rewrite Hf.
    unfold L at 1. unfold encode_log. rewrite decode_header_encoded by done. done.
  - split; [done|]. split; [|by right].
    unfold resumed_output_bytes. cbn [appended_output_bytes]. subst L.
    rewrite decode_encode_log by done. cbn [batches].
    destruct groups as [|rs gs _] using rev_ind; [done|].
    rewrite stamp_app, last_snoc. cbn [seq]. by rewrite sum_groups_app.
Qed.
End append.

(** * Restoring *)

Section restore.
Context `{SerdeLaws} (P : Type) `{Vt100 P}.

(** All output of some records, in order. *)
Definition outputs (rs : list HistoryRecord) : bytes :=
  concat ((fun r => match r with Output b => b | _ => [] end) <$> rs).

Lemma outputs_app rs rs' : outputs (rs ++ rs') = outputs rs ++ outputs rs'.
Proof. unfold outputs. by rewrite fmap_app, concat_app. Qed.

Lemma outputs_cons r rs : outputs (r :: rs) = outputs [r] ++ outputs rs.
Proof. apply (outputs_app [r]). Qed.

Lemma replay_no_clear rs s :
  Clear ∉ rs -> (foldl (replay_record P) s rs).2 = s.2 ++ outputs rs.
Proof.
  revert s; induction rs as [|r rs IH]; intros s Hc; simpl.
  - by rewrite app_nil_r.
  - apply not_elem_of_cons in Hc as [Hr Hc]. rewrite IH by done. rewrite (outputs_cons r).
    unfold outputs at 2. destruct r; simpl; rewrite ?app_nil_r; try done.
    by rewrite app_assoc.
Qed.

Lemma replay_after_clear rs1 rs2 s :
  Clear ∉ rs2 -> (foldl (replay_record P) s (rs1 ++ Clear :: rs2)).2 = outputs rs2.
Proof. intros Hc. rewrite foldl_app. simpl. by rewrite replay_no_clear. Qed.

Lemma foldl_replay_batches groups tot s :
  foldl (replay_batch P) s (stamp tot groups) = foldl (replay_record P) s (concat groups).
Proof.
  revert tot s; induction groups as [|rs gs IH]; intros tot s; simpl; [done|].
  by rewrite foldl_app, IH.
Qed.


(** No operation fails; the machine may stop. *)
Definition no_failure (o : list fault) : Prop := forall f k, f ∈ o -> f <> Fail k.

(** Nothing of the previous incarnation is left, or it is still all there is:
    the new metadata is not written yet. *)
Definition hidden_or_untouched (st0 st : Store) : Prop :=
  st META_JSON = st0 META_JSON \/
  (current (st CHECKPOINT_JSON) = None /\ current (st OUTPUT_LOG) = None).

Lemma no_failure_tail o : no_failure o -> no_failure (tail o).
Proof. destruct o as [|f o]; [done|]. intros Hn g k Hg. by apply Hn, list_elem_of_further. Qed.

Lemma fs_remove_effect {W} f (s : W) w :
  no_failure (oracle w) ->
  match attempt (fs_remove f) s w with
  | Done _ s' w' => s' = s /\ current (store w' f) = None /\ owned w' = owned w /\
                    (forall g, g <> f -> store w' g = store w g) /\ no_failure (oracle w')
  | Crashed st => st = store w
  end.
Proof.
  intros Hn. unfold attempt, fs_remove. destruct (current (store w f)) as [b|] eqn:E; [|done].
  destruct (prim_cases (push f None) (fun _ st => st) s w)
    as [[-> _]|(st & k & Hst & [[-> [k' Hk]]| ->])].
  - cbn. rewrite push_same. split_and!; try done; [|by apply no_failure_tail].
    intros. by rewrite push_other.
  - exfalso. destruct (oracle w) as [|f' o] eqn:Eo; [done|]. simplify_eq/=.
    by apply (Hn (Fail k') k'); [apply list_elem_of_here|].
  - by destruct Hst.
Qed.

Lemma fs_touch_effect {W} (s : W) w :
  no_failure (oracle w) ->
  fs_touch s w = Done (Ok tt) s (mkWorld (store w) (owned w) (tail (oracle w))) \/
  fs_touch s w = Crashed (store w).
Proof.
  intros Hn. unfold fs_touch, prim. destruct (oracle w) as [|[|k|[k|]] o]; auto.
  by destruct (Hn (Fail k) k (list_elem_of_here _ _)).
Qed.

Lemma detect_hidden d ignore :
  d CHECKPOINT_JSON = None -> d OUTPUT_LOG = None -> detect_cold_restore P d ignore = None.
Proof.
  intros Hc Hl. unfold detect_cold_restore, restore_from_log. rewrite Hc, Hl.
  destruct (meta_of _); [|done]. simpl. by destruct (_ && _).
Qed.

(** What is left behind once the lock is held: the metadata is written last. *)
Lemma open_files_effect m w :
  no_failure (oracle w) ->
  hidden_or_untouched (store w) (final_store
    ((attempt (fs_remove CHECKPOINT_JSON) ;;;
      attempt (fs_remove OUTPUT_LOG) ;;;
      write_meta m ;;;
      ret (mkHistoryWriter (Some 0) (Some 0) 0 true DEFAULT_LOG_MAX_BYTES)) tt w)).
Proof.
  intros Hn. unfold bind at 1. pose proof (fs_remove_effect CHECKPOINT_JSON tt w Hn) as H1'.
  destruct (attempt _ tt w) as [[?|?] [] w1|st1]; [| |left; rewrite H1'; done].
  2: { left. destruct H1' as (_ & _ & _ & Ho & _). by apply Ho. }
  destruct H1' as (_ & Hc1 & _ & Ho1 & Hn1).
  unfold bind at 1. pose proof (fs_remove_effect OUTPUT_LOG tt w1 Hn1) as H2'.
  destruct (attempt _ tt w1) as [[?|?] [] w2|st2]; [..|left; rewrite H2'; by apply Ho1].
  2: { left. destruct H2' as (_ & _ & _ & Ho & _). cbn. rewrite Ho by done. by apply Ho1. }
  destruct H2' as (_ & Hl2 & _ & Ho2 & _).
  assert (Hc2 : current (store w2 CHECKPOINT_JSON) = None) by by rewrite Ho2.
  right. unfold bind, write_meta, fs_write.
  destruct (prim_cases (push META_JSON (Some (meta_to_json m)))
    (fun k => push META_JSON (Some (take k (meta_to_json m)))) tt w2)
    as [[-> _]|(st & k & Hst & [[-> _]| ->])]; cbn; [done| |]; by destruct Hst as [-> | ->].
Qed.

Lemma final_store_or_unlock {W A} (x : IO W A) s w :
  final_store (or_unlock x s w) = final_store (x s w).
Proof. unfold or_unlock, bind, attempt. by destruct (x s w) as [[a|e] s' w'|st]. Qed.

Lemma open_session_locks m w :
  no_failure (oracle w) ->
  final_store (open_session m tt w) = store w \/
  owned w = false /\ exists w1, store w1 = store w /\ no_failure (oracle w1) /\
    final_store (open_session m tt w) = final_store
      ((attempt (fs_remove CHECKPOINT_JSON) ;;;
        attempt (fs_remove OUTPUT_LOG) ;;;
        write_meta m ;;;
        ret (mkHistoryWriter (Some 0) (Some 0) 0 true DEFAULT_LOG_MAX_BYTES)) tt w1).
Proof.
  intros Hn. unfold open_session. rewrite bind_run.
  destruct (fs_touch_effect tt w Hn) as [-> | ->]; [|by left].
  rewrite bind_run. unfold acquire. rewrite bind_run.
  destruct (fs_touch_effect tt (mkWorld (store w) (owned w) (tail (oracle w)))
    (no_failure_tail _ Hn)) as [-> | ->]; [|by left].
  unfold fs_flock. cbn [owned store oracle]. destruct (owned w); [by left|].
  right. split; [done|]. exists (mkWorld (store w) true (tail (tail (oracle w)))).
  split_and!; [done|by do 2 apply no_failure_tail|]. apply final_store_or_unlock.
Qed.

(** Opening a session under an id that was used before. With the owner lock
    taken by another daemon nothing is touched. Otherwise, wherever the process
    dies during the open, the new metadata is never on disk together with the
    previous incarnation's checkpoint or log, so the previous content is never
    restored under the new session. *)
Theorem open_session_hides_previous m w :
  no_failure (oracle w) ->
  let o := open_session m tt w in
  (owned w = true -> final_store o = store w) /\
  hidden_or_untouched (store w) (final_store o) /\
  (final_store o META_JSON <> store w META_JSON ->
   forall ignore, detect_cold_restore P (disk_of (final_store o)) ignore = None).
Proof.
  intros Hn o.
  assert (Hh : hidden_or_untouched (store w) (final_store o)).
  { destruct (open_session_locks m w Hn) as [H3|(_ & w1 & Hs & Hn1 & H3)];
      unfold o; rewrite H3; [by left|]. rewrite <- Hs. by apply open_files_effect. }
  split_and!; [|done|].
  - intros Ho. destruct (open_session_locks m w Hn) as [?|[Ho' _]]; [done|congruence].
  - intros Hm ignore. destruct Hh as [?|[Hc Hl]]; [done|]. by apply detect_hidden.
Qed.
End restore.

(** * A store to evaluate the properties on *)

(** serde replaced by an injective coding of the records into one number. *)
Module ToySerde.
#[global] Instance meta_countable : Countable SessionMeta.
Proof.
  apply (inj_countable'
    (fun m => (meta_cwd m, meta_cols m, meta_rows m, started_at_ms m, ended_at_ms m, exit_code m))
    (fun '(a, b, c, d, e, f) => mkSessionMeta a b c d e f)).
  by intros [].
Defined.

#[global] Instance checkpoint_countable : Countable Checkpoint.
Proof.
  apply (inj_countable'
    (fun c => (cp_snapshot_ansi c, cp_scrollback_ansi c, cp_rehydrate_sequences c,
       cp_pending_escape_tail c, cp_cwd c, cp_cols c, cp_rows c, cp_is_alternate_screen c,
       cp_kitty_keyboard_flags c, cp_last_title c, scrollback_seq c, cp_generation c,
       checkpointed_at_ms c))
    (fun '(a, b, c, d, e, f, g, h, i, j, k, l, m) => mkCheckpoint a b c d e f g h i j k l m)).
  by intros [].
Defined.

Definition of_json {A} `{Countable A} (b : bytes) : option A :=
  match b with [Z.pos p] => countable.decode p | _ => None end.

#[global] Instance serde : Serde := {|
  meta_to_json m := [Z.pos (countable.encode m)];
  meta_from_json := of_json;
  checkpoint_to_json c := [Z.pos (countable.encode c)];
  checkpoint_from_json := of_json
|}.

#[global] Instance serde_laws : SerdeLaws.
Proof. split; [intros m; apply decode_encode|intros c; apply decode_encode|done]. Qed.

Definition cp (scrollback : string) (generation : Z) : Checkpoint :=
  mkCheckpoint [] (str scrollback) [] [] None 80 24 false 0 None 0 generation 7.

Definition meta : SessionMeta := SessionMeta_new None 80 24 5.

(** A session at generation 1 with one batch in its log, all of it synced. *)
Definition st : Store := fun f =>
  match f with
  | META_JSON => [mkVersion (Some (meta_to_json meta)) true]
  | CHECKPOINT_JSON => [mkVersion (Some (checkpoint_to_json (cp "old" 1))) true]
  | OUTPUT_LOG => [mkVersion (Some (encode_log 1 (stamp 0 [[Output (str "+tail")]]))) true]
  | CHECKPOINT_TMP => []
  end.

Definition writer : HistoryWriter := mkHistoryWriter (Some 1) (Some 32) 5 false 1000.

Definition restored (d : Disk) : option bytes :=
  scrollback_for_replay <$> detect_cold_restore RecordingVt.t d false.
End ToySerde.

Import ToySerde.

Example restored_before : restored (disk_of st) = Some (str "old+tail").
Proof. vm_compute. reflexivity. Qed.

Lemma foreign_log_example : foreign_log (st OUTPUT_LOG) (next_generation writer).
Proof.
  intros v b g Hv%list_elem_of_singleton. subst v. intros [= <-]. vm_compute.
  intros [= <-]. done.
Qed.


(** The directory sync is the one step whose failure the code ignores: the
    checkpoint then returns Ok and rewrites the log although the rename may not
    be durable. The old checkpoint with the new, empty log is among the states
    that survive, and the output that only the old log held is gone. *)
Example ignored_dir_sync_loses_output :
  let wd := mkWorld st true [Good; Good; Good; Fail None] in
  exists w' wd' d, checkpoint (cp "new" 0) 9 writer wd = Done (Ok tt) w' wd' /\
    survived (store wd') d /\ restored d = Some (str "old").
Proof.
  set (o := checkpoint (cp "new" 0) 9 writer (mkWorld st true [Good; Good; Good; Fail None])).
  exists (mkHistoryWriter (Some 2) (Some 9) 0 false 1000).
  exists (mkWorld (final_store o) true []).
  exists (fun f => match f with
     | OUTPUT_LOG => Some (encode_log_header 2)
     | CHECKPOINT_TMP => None
     | f => current (st f)
     end).
  split_and!; [reflexivity| |vm_compute; reflexivity].
  intros [].
  - apply (survives_current (st META_JSON)).
  - change (survives [mkVersion (Some (checkpoint_to_json (with_generation (cp "new" 0) 2 9))) true;
                      mkVersion (Some (checkpoint_to_json (cp "old" 1))) true]
              (Some (checkpoint_to_json (cp "old" 1)))).
    right. eexists. split; [apply list_elem_of_further, list_elem_of_here|done].
  - right. exists (mkVersion None false). split; [apply list_elem_of_here|done].
  - apply (survives_current [mkVersion (Some (encode_log_header 2)) false;
      mkVersion (Some (encode_log 1 (stamp 0 [[Output (str "+tail")]]))) true]).
Qed.

Definition log_of (groups : list (list HistoryRecord)) : Store := fun f =>
  match f with
  | OUTPUT_LOG => [mkVersion (Some (encode_log 1 (stamp 0 groups))) false]
  | f => st f
  end.

Lemma append_increments_spec_witness :
  let w := mkHistoryWriter (Some 1) (Some 32) 5 false 52 in
  in_sync w st 1 [[Output (str "+tail")]] /\
  match append_increments [Output (str "ab")] w (mkWorld st true []) with
  | Done (Ok a) w' wd' => a = Appended /\ log_bytes w' = Some 52
  | _ => False
  end /\
  match append_increments [Output (str "abc")] w (mkWorld st true []) with
  | Done (Ok NeedsCheckpoint) w' wd' =>
      w' = w /\ wd' = mkWorld st true [] /\
      log_max_bytes w < zlen (encode_log 1 (stamp 0 [[Output (str "+tail")]; [Output (str "abc")]]))
  | _ => False
  end.
Proof.
  assert (H : in_sync (mkHistoryWriter (Some 1) (Some 32) 5 false 52) st 1 [[Output (str "+tail")]]).
  { split; [reflexivity|]. split; [reflexivity|]. right. split; reflexivity. }
  split; [exact H|]. split; [vm_compute; split; reflexivity|].
  pose proof (append_increments_spec _ st true 1 _ [Output (str "abc")] H ltac:(discriminate)) as Hs.
  exact Hs.
Defined.

Lemma warm_writer_resumes_witness :
  exists w w',
    register_writer tt (mkWorld st false []) = Done (Ok w) tt (mkWorld st true []) /\
    needs_full_anchor w = true /\
    resolve_log_state w (mkWorld st true []) = Done (Ok tt) w' (mkWorld st true []) /\
    in_sync w' st 1 [[Output (str "+tail")]] /\ needs_full_anchor w' = true.
Proof.
  apply (warm_writer_resumes st 1 [[Output (str "+tail")]]).
  - split; discriminate.
  - repeat constructor; discriminate.
  - discriminate.
  - reflexivity.
  - discriminate.
Defined.


Lemma open_session_hides_previous_witness :
  let m := SessionMeta_new None 100 30 50 in
  let w := mkWorld st false [Good; Good; Good; Good; Crash (Some 1%nat)] in
  final_store (open_session m tt w) META_JSON <> store w META_JSON /\
  detect_cold_restore RecordingVt.t (disk_of (final_store (open_session m tt w))) true = None.
Proof.
  set (m := SessionMeta_new None 100 30 50).
  set (w := mkWorld st false [Good; Good; Good; Good; Crash (Some 1%nat)]).
  assert (H : final_store (open_session m tt w) META_JSON <> store w META_JSON) by discriminate.
  split; [exact H|].
  assert (Hn : no_failure (oracle w)).
  { intros f k Hf. repeat (apply elem_of_cons in Hf as [->|Hf]; [discriminate|]).
    by apply elem_of_nil in Hf. }
  exact (proj2 (proj2 (open_session_hides_previous RecordingVt.t m w Hn)) H true).
Defined.
