(* ===== verification/Pty.v ===== *)
(** The byte path of a terminal in grove-core/src/pty.rs: the capped scrollback
    ring, the output coalescer with its flusher thread, the create-time replay
    gate of a pane, and the ordered input writer. The threads are step relations
    over the state their mutex protects; a step is one critical section. *)

From Stdlib Require Import Sorted.
From S2P Require Import Prelude.

Definition MAX_SCROLLBACK_BYTES : Z := 256 * 1024.
Definition OUTPUT_FLUSH_INTERVAL : Z := 8.            (* milliseconds *)
Definition OUTPUT_FLUSH_SIZE : Z := 64 * 1024.
Definition MAX_PENDING_BYTES : Z := OUTPUT_FLUSH_SIZE * 64.
Definition MAX_WRITE_QUEUE_BYTES : Z := 1024 * 1024.

(** * The scrollback ring *)

Definition append_scrollback_capped (scrollback : bytes) (truncated : bool) (chunk : bytes)
    (limit : Z) : bytes * bool :=
  if (limit =? 0) || bool_decide (chunk = []) then (scrollback, truncated)
  else
    let scrollback := scrollback ++ chunk in
    if limit <? zlen scrollback
    then (drop (Z.to_nat (zlen scrollback - limit)) scrollback, true)
    else (scrollback, truncated).

(** * The output coalescer *)

Record CoalescerInner := mkCoalescer {
  pending : bytes;
  first_byte_at : option Z;       (* a clock reading, in milliseconds *)
  closed : bool;
  truncated : bool
}.

Definition coalescer_new : CoalescerInner := mkCoalescer [] None false false.

Definition is_continuation (b : Z) : bool := Z.land b 192 =? 128.

(** [while pending.get(overflow).is_some_and(..) { overflow += 1 }], then the
    drain: the continuation bytes behind the cut go too. *)
Fixpoint skip_continuation (l : bytes) : bytes :=
  match l with
  | b :: l' => if is_continuation b then skip_continuation l' else l
  | [] => []
  end.

Definition push (s : CoalescerInner) (data : bytes) (now : Z) : CoalescerInner :=
  if bool_decide (data = []) then s
  else if closed s then s
  else
    let grown := pending s ++ data in
    let over := MAX_PENDING_BYTES <? zlen grown in
    let kept :=
      if over then skip_continuation (drop (Z.to_nat (zlen grown - MAX_PENDING_BYTES)) grown)
      else grown in
    mkCoalescer kept (Some (default now (first_byte_at s))) false (truncated s || over).

Definition close (s : CoalescerInner) : CoalescerInner :=
  mkCoalescer (pending s) (first_byte_at s) true (truncated s).

(** What the flusher does when it holds the lock at time [now]. *)
Inductive flush :=
| Wait                              (* wait for a byte, or for the window *)
| Emit (drained : bytes) (s : CoalescerInner)
| Final (drained : bytes) (s : CoalescerInner).

Definition run_output_flusher_turn (s : CoalescerInner) (now : Z) : flush :=
  let emptied := mkCoalescer [] None (closed s) (truncated s) in
  if negb (closed s) && bool_decide (pending s = []) then Wait
  else if closed s then Final (pending s) emptied
  else
    let elapsed := now - default now (first_byte_at s) in
    if (OUTPUT_FLUSH_SIZE <=? zlen (pending s)) || (OUTPUT_FLUSH_INTERVAL <=? elapsed)
    then Emit (pending s) emptied
    else Wait.

(** The flusher calls the sink outside the lock. *)
Inductive flusher_pc :=
| Holding
| Calling (drained : bytes) (last : bool)
| Exited.

Record coalescer_system := mkCS {
  inner : CoalescerInner;
  pc : flusher_pc;
  sink : list bytes;                (* the batches [on_output] received *)
  accepted : bytes;                 (* all bytes pushed before the close *)
  lost : Z                          (* how many of them the cap dropped *)
}.

Definition cs_new : coalescer_system := mkCS coalescer_new Holding [] [] 0.

Inductive cs_step : coalescer_system -> coalescer_system -> Prop :=
| step_push cs data now :
    let s := push (inner cs) data now in
    let taken := if closed (inner cs) then [] else data in
    cs_step cs (mkCS s (pc cs) (sink cs) (accepted cs ++ taken)
                  (lost cs + (zlen (pending (inner cs)) + zlen taken - zlen (pending s))))
| step_close cs :
    cs_step cs (mkCS (close (inner cs)) (pc cs) (sink cs) (accepted cs) (lost cs))
| step_flush cs now drained s :
    pc cs = Holding -> run_output_flusher_turn (inner cs) now = Emit drained s ->
    cs_step cs (mkCS s (Calling drained false) (sink cs) (accepted cs) (lost cs))
| step_final cs now drained s :
    pc cs = Holding -> run_output_flusher_turn (inner cs) now = Final drained s ->
    cs_step cs (mkCS s (Calling drained true) (sink cs) (accepted cs) (lost cs))
| step_sink cs drained last :
    pc cs = Calling drained last ->
    cs_step cs (mkCS (inner cs) (if last then Exited else Holding)
                  (if last && bool_decide (drained = []) then sink cs else sink cs ++ [drained])
                  (accepted cs) (lost cs)).

(** * The replay gate of a pane *)

Inductive ReplayGate :=
| GateClosed (frames : list (Z * bytes)) (exited : bool)
| GateOpen.

(** The pane's side of the adapter: what the renderer was sent, the local
    scrollback mirror, whether the pane is in the registry and torn down. *)
Record pane := mkPane {
  gate : ReplayGate;
  sent : bytes;
  scrollback : bytes;
  scrollback_truncated : bool;
  registered : bool;
  reader_exited : bool
}.

Definition pane_new (scrollback : bytes) (trunc : bool) : pane :=
  mkPane (GateClosed [] false) [] scrollback trunc false false.

Definition ingest (p : pane) (data : bytes) : pane :=
  let (sb, t) := append_scrollback_capped (scrollback p) (scrollback_truncated p) data
                   MAX_SCROLLBACK_BYTES in
  mkPane (gate p) (sent p ++ data) sb t (registered p) (reader_exited p).

(** Idempotent: out of the registry, and unsubscribed. *)
Definition teardown (p : pane) : pane :=
  mkPane (gate p) (sent p) (scrollback p) (scrollback_truncated p) false true.

Definition set_gate (p : pane) (g : ReplayGate) : pane :=
  mkPane g (sent p) (scrollback p) (scrollback_truncated p) (registered p) (reader_exited p).

Definition register (p : pane) : pane :=
  mkPane (gate p) (sent p) (scrollback p) (scrollback_truncated p) true (reader_exited p).

(** One buffered frame: dropped, trimmed or forwarded. *)
Definition replay_frame (snapshot_seq : option Z) (p : pane) (f : Z * bytes) : pane :=
  let (seq, data) := f in
  match snapshot_seq with
  | Some snap =>
      let start := Z.max 0 (seq - zlen data) in
      if seq <=? snap then p
      else if start <? snap then ingest p (drop (Z.to_nat (Z.min (snap - start) (zlen data))) data)
      else ingest p data
  | None => ingest p data
  end.

Definition open_gate (p : pane) (snapshot_seq : option Z) : pane * bool :=
  let (frames, exited) :=
    match gate p with GateClosed frames exited => (frames, exited) | GateOpen => ([], false) end in
  let p := set_gate p GateOpen in
  let p := if exited then p else register p in
  let p := fold_left (replay_frame snapshot_seq) frames p in
  (if exited then teardown p else p, exited).

Definition on_data (p : pane) (seq : Z) (data : bytes) : pane :=
  match gate p with
  | GateClosed frames exited => set_gate p (GateClosed (frames ++ [(seq, data)]) exited)
  | GateOpen => ingest p data
  end.

Definition on_exit (p : pane) : pane :=
  match gate p with
  | GateClosed frames _ => set_gate p (GateClosed frames true)
  | GateOpen => teardown p
  end.

(** * The ordered input writer *)

Record QueuedWrite := mkQueuedWrite { job_id : Z; job_bytes : bytes }.

Record WriterInner := mkWriter {
  queue : list QueuedWrite;
  queued_bytes : Z;
  next_id : Z;
  writer_closed : bool
}.

Inductive enqueue :=
| WriterClosed                          (* WRITER_CLOSED_MSG *)
| Queued (id : Z) (s : WriterInner)
| Full.                                 (* wait for space, or time out *)

(** One pass of the enqueue loop of [write]. *)
Definition try_enqueue (s : WriterInner) (data : bytes) : enqueue :=
  if writer_closed s then WriterClosed
  else if (queued_bytes s =? 0) || (queued_bytes s + zlen data <=? MAX_WRITE_QUEUE_BYTES)
  then Queued (next_id s)
         (mkWriter (queue s ++ [mkQueuedWrite (next_id s) data]) (queued_bytes s + zlen data)
            (wrap 64 (next_id s + 1)) false)
  else Full.

(** [position] of the job, then [remove]. *)
Fixpoint remove_job (id : Z) (q : list QueuedWrite) : option (list QueuedWrite) :=
  match q with
  | [] => None
  | j :: q => if job_id j =? id then Some q else (fun q => j :: q) <$> remove_job id q
  end.

(** Out of the queue if it is still there. *)
Definition drop_queued_job (s : WriterInner) (id len : Z) : WriterInner :=
  match remove_job id (queue s) with
  | Some q => mkWriter q (saturating_sub (queued_bytes s) len) (next_id s) (writer_closed s)
  | None => s
  end.

Definition pop_job (s : WriterInner) : option (QueuedWrite * WriterInner) :=
  match queue s with
  | [] => None
  | j :: q =>
      Some (j, mkWriter q (saturating_sub (queued_bytes s) (zlen (job_bytes j))) (next_id s)
                 (writer_closed s))
  end.

Inductive writer_pc := WriterIdle | Writing (j : QueuedWrite) | WriterExited.

(** The writer thread, the callers it serves and what reached the PTY. *)
Record writer_system := mkWS {
  w : WriterInner;
  wpc : writer_pc;
  admitted : list QueuedWrite;              (* every job ever enqueued *)
  completed : list (QueuedWrite * bool);    (* written, with the result *)
  dropped : list Z                          (* pulled out on a deadline *)
}.

Definition ws_new : writer_system := mkWS (mkWriter [] 0 0 false) WriterIdle [] [] [].

Inductive ws_step : writer_system -> writer_system -> Prop :=
| ws_enqueue ws data id s :
    data <> [] -> try_enqueue (w ws) data = Queued id s ->
    ws_step ws (mkWS s (wpc ws) (admitted ws ++ [mkQueuedWrite id data]) (completed ws)
                  (dropped ws))
| ws_drop ws j :
    (* the caller's deadline: it knows the id and length of its own job *)
    j ∈ admitted ws ->
    ws_step ws (mkWS (drop_queued_job (w ws) (job_id j) (zlen (job_bytes j))) (wpc ws)
                  (admitted ws) (completed ws)
                  (if remove_job (job_id j) (queue (w ws)) is Some _ then dropped ws ++ [job_id j]
                   else dropped ws))
| ws_pop ws j s :
    wpc ws = WriterIdle -> pop_job (w ws) = Some (j, s) ->
    ws_step ws (mkWS s (Writing j) (admitted ws) (completed ws) (dropped ws))
| ws_written ws j ok :
    wpc ws = Writing j ->
    ws_step ws (mkWS (w ws)
                  (if negb ok && writer_closed (w ws) then WriterExited else WriterIdle)
                  (admitted ws) (completed ws ++ [(j, ok)]) (dropped ws))
| ws_exit ws :
    wpc ws = WriterIdle -> pop_job (w ws) = None -> writer_closed (w ws) = true ->
    ws_step ws (mkWS (w ws) WriterExited (admitted ws) (completed ws) (dropped ws))
| ws_close ws :
    ws_step ws (mkWS (mkWriter (queue (w ws)) (queued_bytes (w ws)) (next_id (w ws)) true)
                  (wpc ws) (admitted ws) (completed ws) (dropped ws)).

(** * The coalescer delivers what was pushed, in order *)

Definition inflight (pc : flusher_pc) : bytes :=
  match pc with Calling drained _ => drained | _ => [] end.

(** Everything the coalescer still has or has delivered, oldest first. *)
Definition carried (cs : coalescer_system) : bytes :=
  concat (sink cs) ++ inflight (pc cs) ++ pending (inner cs).

Definition drained_for_good (cs : coalescer_system) : Prop :=
  match pc cs with
  | Exited | Calling _ true => closed (inner cs) = true /\ pending (inner cs) = []
  | _ => True
  end.

Definition coalescer_inv (cs : coalescer_system) : Prop :=
  carried cs `sublist_of` accepted cs /\
  zlen (accepted cs) = zlen (carried cs) + lost cs /\ 0 <= lost cs /\
  (truncated (inner cs) = false -> lost cs = 0) /\
  zlen (pending (inner cs)) <= MAX_PENDING_BYTES /\ drained_for_good cs.

Lemma skip_continuation_suffix l : exists k, l = k ++ skip_continuation l.
Proof.
  induction l as [|b l [k IH]]; simpl; [by exists []|].
  destruct (is_continuation b); [|by exists []]. exists (b :: k). simpl. by f_equal.
Qed.

Lemma skip_continuation_head l :
  match skip_continuation l with b :: _ => is_continuation b = false | [] => True end.
Proof. induction l as [|b l IH]; simpl; [done|]. by destruct (is_continuation b) eqn:E. Qed.

(** A push keeps the tail of what was pending followed by the data. *)
Lemma push_suffix s data now :
  closed s = false -> zlen (pending s) <= MAX_PENDING_BYTES ->
  exists k, pending s ++ data = k ++ pending (push s data now) /\
    zlen (pending (push s data now)) <= MAX_PENDING_BYTES /\
    (truncated (push s data now) = false -> k = [] /\ truncated s = false) /\
    closed (push s data now) = false.
Proof.
  intros Hc Hl. unfold push. case_bool_decide as Hd.
  { subst. exists []. rewrite app_nil_r. auto. }
  rewrite Hc. cbn [pending truncated closed].
  destruct (Z.ltb_spec MAX_PENDING_BYTES (zlen (pending s ++ data))) as [Hlt|Hge].
  - set (grown := pending s ++ data) in *. set (n := Z.to_nat _).
    destruct (skip_continuation_suffix (drop n grown)) as [k Hk].
    exists (take n grown ++ k). rewrite <- app_assoc, <- Hk, take_drop.
    split_and!; [done| | |done].
    + assert (zlen (drop n grown) = MAX_PENDING_BYTES).
      { unfold zlen in *. rewrite length_drop. unfold n. unfold MAX_PENDING_BYTES in *. lia. }
      rewrite Hk in H. zlen_lia.
    + by rewrite orb_true_r.
  - exists []. rewrite orb_false_r. auto.
Qed.

Lemma push_closed s data now : closed s = true -> push s data now = s.
Proof. unfold push. intros ->. by case_bool_decide. Qed.

Lemma carried_push cs s' k data :
  pending (inner cs) ++ data = k ++ pending s' ->
  carried cs `sublist_of` accepted cs ->
  carried (mkCS s' (pc cs) (sink cs) (accepted cs ++ data) 0) `sublist_of` accepted cs ++ data.
Proof.
  intros Hk Hs. unfold carried in *. cbn.
  etrans; [|apply sublist_app; [exact Hs|reflexivity]].
  rewrite <- !app_assoc. rewrite Hk. repeat (apply sublist_app; [done|]).
  by apply sublist_inserts_l.
Qed.

Lemma cs_step_inv cs cs' : coalescer_inv cs -> cs_step cs cs' -> coalescer_inv cs'.
Proof.
  intros (Hs & Hl & H0 & Ht & Hm & Hd) Hstep.
  destruct Hstep as [cs data now s taken|cs|cs now drained s Hpc Hf|cs now drained s Hpc Hf|
                     cs drained last Hpc].
  - subst s taken. destruct (closed (inner cs)) eqn:Ec.
    + rewrite push_closed, app_nil_r, zlen_nil by done.
      unfold coalescer_inv, carried, drained_for_good in *; cbn in *.
      rewrite Ec in *. split_and!; try done; try lia. intros. rewrite Ht by done. lia.
    + destruct (push_suffix (inner cs) data now Ec Hm) as (k & Hk & Hm' & Ht' & Hc').
      pose proof (f_equal zlen Hk) as Hz. rewrite !zlen_app in Hz.
      split; [exact (carried_push _ _ _ _ Hk Hs)|].
      unfold carried, drained_for_good in *; cbn in *. rewrite !zlen_app in *. rewrite Hc'.
      split_and!; [lia|zlen_lia| |done|].
      * intros H. destruct (Ht' H) as [-> H2]. rewrite Ht by done. rewrite zlen_nil in Hz. lia.
      * destruct (pc cs) as [|? []|]; try done; destruct Hd; congruence.
  - unfold coalescer_inv, carried, drained_for_good in *; cbn in *. split_and!; try done.
    destruct (pc cs) as [|? []|]; try done; tauto.
  - unfold coalescer_inv, carried, drained_for_good in *; cbn in *. rewrite Hpc in *.
    unfold run_output_flusher_turn in Hf. repeat case_match; simplify_eq.
    cbn in *. rewrite app_nil_r in *. by split_and!.
  - unfold coalescer_inv, carried, drained_for_good in *; cbn in *. rewrite Hpc in *.
    unfold run_output_flusher_turn in Hf. repeat case_match; simplify_eq.
    cbn in *. rewrite app_nil_r in *. by split_and!.
  - unfold coalescer_inv, carried, drained_for_good in *; cbn in *. rewrite Hpc in *.
    assert (Hc : concat (if last && bool_decide (drained = []) then sink cs else sink cs ++ [drained])
                   = concat (sink cs) ++ drained).
    { destruct last; simpl; [case_bool_decide; subst|]; rewrite ?concat_app; simpl;
        by rewrite ?app_nil_r. }
    rewrite Hc. replace (inflight (if last then Exited else Holding)) with (@nil Z) by by destruct last.
    cbn. rewrite <- app_assoc. split_and!; try done. by destruct last.
Qed.

Lemma coalescer_reachable cs : rtc cs_step cs_new cs -> coalescer_inv cs.
Proof. apply rtc_invariant; [exact cs_step_inv|]. by split_and!. Qed.

(** C35: whatever the interleaving of reads, closes and flusher turns, the sink
    has received, in order and without repetition, the pushed bytes the cap did
    not drop: what it got, what the flusher holds and what is pending make up
    the input minus exactly the dropped bytes. Nothing is dropped unless the
    truncation flag is set, the buffer never exceeds its cap, and once the
    flusher has exited everything kept has been delivered, so that an exit frame
    sent after joining it follows all output. *)
Theorem coalescer_delivers_in_order cs :
  rtc cs_step cs_new cs ->
  carried cs `sublist_of` accepted cs /\
  zlen (accepted cs) = zlen (carried cs) + lost cs /\
  (truncated (inner cs) = false -> carried cs = accepted cs) /\
  zlen (pending (inner cs)) <= MAX_PENDING_BYTES /\
  (pc cs = Exited -> carried cs = concat (sink cs)).
Proof.
  intros H. destruct (coalescer_reachable cs H) as (Hs & Hl & _ & Ht & Hm & Hd).
  split_and!; try done.
  - intros Hf. rewrite (Ht Hf), Z.add_0_r in Hl.
    apply sublist_full; [done|]. unfold zlen in Hl. lia.
  - unfold drained_for_good, carried in *. intros E. rewrite E in *. destruct Hd as [_ ->].
    apply app_nil_r.
Qed.

(** After a close the flusher needs at most three more steps, whatever it
    was doing, to deliver all that is left and exit. *)
Theorem coalescer_drains_after_close cs :
  rtc cs_step cs_new cs -> closed (inner cs) = true ->
  exists cs' n, (n <= 3)%nat /\ nsteps cs_step n cs cs' /\ pc cs' = Exited /\
    accepted cs' = accepted cs /\ concat (sink cs') = carried cs.
Proof.
  intros Hr Hc. pose proof (coalescer_reachable cs Hr) as Hi.
  assert (Hfin : forall cs, coalescer_inv cs -> closed (inner cs) = true -> pc cs = Holding ->
    exists cs', nsteps cs_step 2 cs cs' /\ pc cs' = Exited /\ accepted cs' = accepted cs /\
      concat (sink cs') = carried cs).
  { clear. intros cs Hi Hc Hp. eexists. split.
    - eapply nsteps_l; [eapply (step_final cs 0); [done|]|].
      + unfold run_output_flusher_turn. by rewrite Hc.
      + eapply nsteps_l; [by eapply step_sink|apply nsteps_O].
    - cbn. split_and!; [done|done|]. unfold carried. rewrite Hp. cbn.
      case_bool_decide as E; [rewrite E|rewrite concat_app; cbn]; by rewrite !app_nil_r. }
  destruct (pc cs) as [|drained []|] eqn:Ep.
  - destruct (Hfin cs Hi Hc Ep) as (cs' & H1 & H2). exists cs', 2%nat. split; [lia|]. tauto.
  - exists (mkCS (inner cs) Exited (if bool_decide (drained = []) then sink cs else sink cs ++ [drained])
              (accepted cs) (lost cs)), 1%nat.
    split_and!; [lia| |done|done|].
    + eapply nsteps_l; [by apply (step_sink cs drained true)|apply nsteps_O].
    + destruct Hi as (_ & _ & _ & _ & _ & Hd). unfold drained_for_good, carried in *.
      rewrite Ep in *. destruct Hd as [_ ->]. cbn.
      case_bool_decide as E; [rewrite E|rewrite concat_app; cbn]; by rewrite !app_nil_r.
  - assert (Hst : cs_step cs (mkCS (inner cs) Holding (sink cs ++ [drained]) (accepted cs) (lost cs)))
      by exact (step_sink cs drained false Ep).
    destruct (Hfin _ (cs_step_inv _ _ Hi Hst) Hc eq_refl) as (cs' & H1 & H2 & H3 & H4).
    exists cs', 3%nat. split_and!; [lia|by eapply nsteps_l|done|done|].
    rewrite H4. unfold carried. rewrite Ep. cbn. rewrite concat_app. cbn.
    by rewrite app_nil_r, <- app_assoc.
  - exists cs, 0%nat. split_and!; [lia|apply nsteps_O|done|done|].
    destruct Hi as (_ & _ & _ & _ & _ & Hd). unfold drained_for_good, carried in *.
    rewrite Ep in *. destruct Hd as [_ ->]. cbn. by rewrite app_nil_r.
Qed.

Lemma coalescer_delivers_in_order_witness :
  let cs := mkCS (mkCoalescer [99] (Some 3) false false) (Calling [97; 98] false) [] [97; 98; 99] 0 in
  rtc cs_step cs_new cs /\ carried cs = accepted cs.
Proof.
  set (cs := mkCS _ _ _ _ _).
  assert (H : rtc cs_step cs_new cs).
  { eapply rtc_l; [exact (step_push cs_new [97; 98] 0)|].
    eapply rtc_l; [eapply (step_flush _ 20); reflexivity|].
    eapply rtc_l; [refine (step_push _ [99] 3)|]. apply rtc_refl. }
  split; [exact H|]. by apply (coalescer_delivers_in_order cs H).
Defined.

Lemma coalescer_drains_after_close_witness :
  exists cs' n, (n <= 3)%nat /\
    nsteps cs_step n (mkCS (mkCoalescer [97; 98] (Some 0) true false) Holding [] [97; 98] 0) cs' /\
    pc cs' = Exited /\ concat (sink cs') = [97; 98].
Proof.
  set (cs := mkCS (mkCoalescer [97; 98] (Some 0) true false) Holding [] [97; 98] 0).
  assert (H : rtc cs_step cs_new cs).
  { eapply rtc_l; [exact (step_push cs_new [97; 98] 0)|].
    eapply rtc_l; [apply step_close|]. apply rtc_refl. }
  destruct (coalescer_drains_after_close cs H eq_refl) as (cs' & n & H1 & H2 & H3 & _ & H4).
  by exists cs', n.
Defined.

(** When the cap forces a drop, the kept output never starts in the middle
    of a UTF-8 sequence, and it is a tail of what was pending and pushed. *)
Theorem overflow_cuts_at_lead_byte s data now :
  closed s = false -> zlen (pending s) <= MAX_PENDING_BYTES ->
  MAX_PENDING_BYTES < zlen (pending s ++ data) ->
  (exists k, pending s ++ data = k ++ pending (push s data now)) /\
  truncated (push s data now) = true /\
  match pending (push s data now) with b :: _ => is_continuation b = false | [] => True end.
Proof.
  intros Hc Hl Ho. destruct (push_suffix s data now Hc Hl) as (k & Hk & _).
  split; [by exists k|]. unfold push.
  rewrite bool_decide_eq_false_2 by (intros ->; rewrite app_nil_r in Ho; lia).
  rewrite Hc. cbn [pending truncated]. rewrite (proj2 (Z.ltb_lt _ _) Ho).
  split; [apply orb_true_r|apply skip_continuation_head].
Qed.

Lemma zlen_replicate {A} n (x : A) : 0 <= n -> zlen (replicate (Z.to_nat n) x) = n.
Proof. intros. unfold zlen. rewrite length_replicate. lia. Qed.

(** A full buffer of continuation bytes. *)
Definition full_buffer : CoalescerInner :=
  mkCoalescer (replicate (Z.to_nat MAX_PENDING_BYTES) 128) (Some 0) false false.

Lemma full_buffer_len : zlen (pending full_buffer) = MAX_PENDING_BYTES.
Proof. by apply zlen_replicate. Qed.

Lemma overflow_cuts_at_lead_byte_witness : truncated (push full_buffer [97] 5) = true.
Proof.
  assert (Hc : closed full_buffer = false) by reflexivity.
  assert (Hl : zlen (pending full_buffer) <= MAX_PENDING_BYTES).
  { rewrite full_buffer_len. apply Z.le_refl. }
  assert (Ho : MAX_PENDING_BYTES < zlen (pending full_buffer ++ [97])).
  { rewrite zlen_app, full_buffer_len, zlen_cons, zlen_nil. lia. }
  destruct (overflow_cuts_at_lead_byte full_buffer [97] 5 Hc Hl Ho) as (_ & Ht & _).
  exact Ht.
Defined.

(** * The gate releases exactly what the snapshot does not show *)

(** Frames of one stream: each sequence number is the byte total after it. *)
Fixpoint stream_from (base : Z) (fs : list (Z * bytes)) : Prop :=
  match fs with
  | [] => True
  | (seq, data) :: fs => seq = base + zlen data /\ stream_from seq fs
  end.

Definition payload (fs : list (Z * bytes)) : bytes := concat (fs.*2).

Definition feed (p : pane) (fs : list (Z * bytes)) : pane :=
  fold_left (fun p f => on_data p f.1 f.2) fs p.

Lemma ingest_sent p data :
  gate (ingest p data) = gate p /\ sent (ingest p data) = sent p ++ data /\
  registered (ingest p data) = registered p /\ reader_exited (ingest p data) = reader_exited p.
Proof. unfold ingest. by destruct (append_scrollback_capped _ _ _ _). Qed.

Lemma feed_closed p fs gs exited :
  gate p = GateClosed gs exited -> feed p fs = set_gate p (GateClosed (gs ++ fs) exited).
Proof.
  revert p gs; induction fs as [|[seq data] fs IH]; intros p gs Hg; simpl.
  - rewrite app_nil_r. destruct p; simpl in *; by subst.
  - change (feed (on_data p seq data) fs = set_gate p (GateClosed (gs ++ (seq, data) :: fs) exited)).
    rewrite (IH _ (gs ++ [(seq, data)])).
    + unfold on_data. rewrite Hg. unfold set_gate. simpl. by rewrite <- app_assoc.
    + unfold on_data. by rewrite Hg.
Qed.

Lemma feed_open fs p :
  gate p = GateOpen ->
  gate (feed p fs) = GateOpen /\ sent (feed p fs) = sent p ++ payload fs /\
  registered (feed p fs) = registered p /\ reader_exited (feed p fs) = reader_exited p.
Proof.
  revert p; induction fs as [|[seq data] fs IH]; intros p Hg; simpl.
  - unfold payload. by rewrite app_nil_r.
  - destruct (ingest_sent p data) as (H1 & H2 & H3 & H4).
    assert (Hon : on_data p seq data = ingest p data) by (unfold on_data; by rewrite Hg).
    unfold feed in IH |- *. simpl. rewrite Hon.
    destruct (IH (ingest p data)) as (-> & -> & -> & ->); [congruence|].
    rewrite H2, H3, H4. unfold payload. simpl. by rewrite app_assoc.
Qed.

Lemma stream_from_app_l base fs gs : stream_from base (fs ++ gs) -> stream_from base fs.
Proof.
  revert base. induction fs as [|[seq data] fs IH]; intros base; simpl; [done|].
  intros [? ?]. eauto.
Qed.

Lemma payload_cons seq data fs : payload ((seq, data) :: fs) = data ++ payload fs.
Proof. done. Qed.

Lemma replay_frames snap fs p base :
  stream_from base fs -> 0 <= base ->
  let p' := fold_left (replay_frame (Some snap)) fs p in
  sent p' = sent p ++ drop (Z.to_nat (snap - base)) (payload fs) /\
  gate p' = gate p /\ registered p' = registered p /\ reader_exited p' = reader_exited p.
Proof.
  revert p base; induction fs as [|[seq data] fs IH]; intros p base Hs Hb; cbn [fold_left].
  - unfold payload. simpl. rewrite drop_nil, app_nil_r. auto.
  - destruct Hs as [Hseq Hs]. rewrite payload_cons.
    destruct (IH (replay_frame (Some snap) p (seq, data)) seq Hs) as (-> & -> & -> & ->); [zlen_lia|].
    assert (Hd : drop (Z.to_nat (snap - base)) (data ++ payload fs) =
      drop (Z.to_nat (snap - base)) data ++ drop (Z.to_nat (snap - seq)) (payload fs)).
    { rewrite drop_app. f_equal. f_equal. unfold zlen in *. lia. }
    rewrite Hd. unfold replay_frame. cbn [fst snd].
    destruct (Z.leb_spec seq snap) as [Hle|Hgt].
    + rewrite (drop_ge data) by (unfold zlen in *; lia). auto.
    + replace (Z.max 0 (seq - zlen data)) with base by zlen_lia.
      destruct (Z.ltb_spec base snap) as [Hlt|Hge].
      * destruct (ingest_sent p (drop (Z.to_nat (Z.min (snap - base) (zlen data))) data))
          as (-> & -> & -> & ->).
        replace (Z.min (snap - base) (zlen data)) with (snap - base) by lia.
        by rewrite app_assoc.
      * destruct (ingest_sent p data) as (-> & -> & -> & ->).
        replace (Z.to_nat (snap - base)) with 0%nat by lia. rewrite drop_0.
        replace (Z.to_nat (snap - seq)) with 0%nat by lia. rewrite app_assoc. auto.
Qed.

(** C37: a pane whose frames [before] arrived while its create call was in
    flight and [after] once it had returned. The renderer, which shows the first
    [snap] bytes of the stream from the snapshot, is sent the rest of what was
    buffered and then everything that follows, in order. If the stream had
    reached the snapshot when the gate opened, snapshot and sent bytes together
    are the stream, each byte once. *)
Theorem gate_continues_snapshot sb t base before after snap :
  stream_from base (before ++ after) -> 0 <= base ->
  let (p, exited) := open_gate (feed (pane_new sb t) before) (Some snap) in
  let final := feed p after in
  exited = false /\ registered final = true /\
  sent final = drop (Z.to_nat (snap - base)) (payload before) ++ payload after /\
  (snap <= base + zlen (payload before) ->
   sent final = drop (Z.to_nat (snap - base)) (payload (before ++ after))).
Proof.
  intros Hs Hb. rewrite (feed_closed _ before [] false) by done. cbn [app]. unfold open_gate.
  cbn [gate set_gate pane_new].
  pose proof (stream_from_app_l _ _ _ Hs) as Hbef.
  destruct (replay_frames snap before
    (register (set_gate (set_gate (pane_new sb t) (GateClosed before false)) GateOpen)) base Hbef Hb)
    as (Hsent & Hg & Hr & _).
  destruct (feed_open after (fold_left (replay_frame (Some snap)) before
    (register (set_gate (set_gate (pane_new sb t) (GateClosed before false)) GateOpen))))
    as (_ & Hs2 & Hr2 & _); [by rewrite Hg|].
  rewrite Hs2, Hr2, Hsent, Hr. split_and!; try done.
  intros Hle. unfold payload. rewrite fmap_app, concat_app, drop_app. cbn. f_equal.
  replace (_ - _)%nat with 0%nat; [done|]. unfold payload, zlen in *. lia.
Qed.

Lemma gate_continues_snapshot_witness :
  let before := [(4, str "AAAA"); (10, str "BBCCCC"); (13, str "DDD")] in
  sent (feed (open_gate (feed (pane_new [] false) before) (Some 6)).1 [(14, str "E")]) = str "CCCCDDDE".
Proof.
  intros before. unfold before.
  pose proof (gate_continues_snapshot [] false 0 [(4, str "AAAA"); (10, str "BBCCCC"); (13, str "DDD")]
    [(14, str "E")] 6 ltac:(vm_compute; tauto) ltac:(lia)) as H.
  destruct (open_gate _ _) as [p e]. destruct H as (_ & _ & Hs & _). cbn [fst]. rewrite Hs.
  reflexivity.
Defined.

(** A frame that arrives only after the gate opened is not compared with the
    snapshot any more: bytes the snapshot already shows are sent again. *)
Example late_frame_is_repeated :
  let p := (open_gate (pane_new [] false) (Some 6)).1 in
  sent (feed p [(6, str "ABCDEF")]) = str "ABCDEF".
Proof. reflexivity. Qed.

(** An exit that overtakes the create reply. Whatever arrived before, the
    buffered output is still sent, the pane is never put in the registry and
    ends torn down; an exit after the gate opened tears it down at once. *)
Theorem early_exit_is_not_registered sb t base before snap :
  stream_from base before -> 0 <= base ->
  let (p, exited) := open_gate (on_exit (feed (pane_new sb t) before)) (Some snap) in
  exited = true /\ registered p = false /\ reader_exited p = true /\
  sent p = drop (Z.to_nat (snap - base)) (payload before) /\
  forall p', gate p' = GateOpen -> registered (on_exit p') = false /\ sent (on_exit p') = sent p'.
Proof.
  intros Hs Hb. rewrite (feed_closed _ before [] false) by done. cbn [app].
  unfold open_gate, on_exit at 1. cbn [gate set_gate pane_new].
  set (p0 := set_gate (set_gate (pane_new sb t) (GateClosed before true)) GateOpen).
  destruct (replay_frames snap before p0 base Hs Hb) as (Hsent & Hg & Hr & _).
  split_and!; try done.
  intros p' Hg'. unfold on_exit. by rewrite Hg'.
Qed.

Lemma early_exit_is_not_registered_witness :
  let (p, exited) := open_gate (on_exit (feed (pane_new [] false) [(3, str "bye")])) (Some 0) in
  exited = true /\ registered p = false /\ sent p = str "bye".
Proof.
  pose proof (early_exit_is_not_registered [] false 0 [(3, str "bye")] 0
    ltac:(vm_compute; tauto) ltac:(lia)) as H.
  destruct (open_gate _ _) as [p e]. destruct H as (-> & -> & _ & -> & _).
  split; [reflexivity|]. split; reflexivity.
Defined.

(** * The writer is a FIFO that forgets only what its caller took back *)

Definition job_total (q : list QueuedWrite) : Z :=
  foldr (fun j n => zlen (job_bytes j) + n) 0 q.

Definition being_written (pc : writer_pc) : list QueuedWrite :=
  match pc with Writing j => [j] | _ => [] end.

(** The jobs that were not taken back: written, being written, queued. *)
Definition retained (ws : writer_system) : list QueuedWrite :=
  (completed ws).*1 ++ being_written (wpc ws) ++ queue (w ws).

Definition ids (q : list QueuedWrite) : list Z := job_id <$> q.

Record writer_inv (ws : writer_system) : Prop := {
  wi_bytes : queued_bytes (w ws) = job_total (queue (w ws));
  wi_cap : queued_bytes (w ws) <= MAX_WRITE_QUEUE_BYTES \/ length (queue (w ws)) = 1%nat;
  wi_nonempty : Forall (fun j => job_bytes j <> []) (queue (w ws));
  wi_order : retained ws `sublist_of` admitted ws;
  wi_count : length (admitted ws) = (length (retained ws) + length (dropped ws))%nat;
  wi_next : next_id (w ws) = wrap 64 (zlen (admitted ws));
  wi_ids : ids (admitted ws) = seqZ 0 (zlen (admitted ws));
  wi_dropped :
    Forall (fun i => i ∈ ids (admitted ws) /\ i ∉ ids (retained ws)) (dropped ws)
}.

Lemma job_total_nonneg q : 0 <= job_total q.
Proof. induction q; simpl; [lia|]. zlen_lia. Qed.

Lemma job_total_app q q' : job_total (q ++ q') = job_total q + job_total q'.
Proof. induction q; simpl; lia. Qed.

Lemma job_total_zero q :
  Forall (fun j => job_bytes j <> []) q -> job_total q = 0 -> q = [].
Proof.
  destruct 1 as [|j q Hj Hq]; [done|]. simpl. intros H. pose proof (job_total_nonneg q).
  pose proof (zlen_nonneg (job_bytes j)). exfalso. apply Hj, zlen_zero_nil. lia.
Qed.

Lemma remove_job_spec id q q' :
  remove_job id q = Some q' ->
  exists j a b, q = a ++ j :: b /\ q' = a ++ b /\ job_id j = id.
Proof.
  revert q'; induction q as [|j q IH]; intros q'; simpl; [done|].
  destruct (Z.eqb_spec (job_id j) id) as [E|E].
  - intros [= <-]. by exists j, [], q.
  - destruct (remove_job id q) as [q0|]; [|done]. intros [= <-].
    destruct (IH q0 eq_refl) as (j' & a & b & -> & -> & Hj).
    by exists j', (j :: a), b.
Qed.

Lemma NoDup_ids ws : writer_inv ws -> NoDup (ids (admitted ws)).
Proof. intros Hi. rewrite (wi_ids _ Hi). apply NoDup_seqZ. Qed.

Lemma ids_sublist q q' : q `sublist_of` q' -> ids q `sublist_of` ids q'.
Proof. induction 1; simpl; by constructor. Qed.

(** Two admitted jobs with the same id are the same job. *)
Lemma same_job ws j k :
  writer_inv ws -> j ∈ admitted ws -> k ∈ admitted ws -> job_id j = job_id k -> j = k.
Proof.
  intros Hi Hj Hk E. apply (NoDup_ids ws) in Hi. unfold ids in Hi.
  apply list_elem_of_lookup in Hj as [m Hm]. apply list_elem_of_lookup in Hk as [n Hn].
  assert (m = n) as ->; [|congruence].
  eapply (NoDup_lookup _ m n (job_id j) Hi); rewrite list_lookup_fmap, ?Hm, ?Hn; simpl; congruence.
Qed.

Lemma enqueue_inv ws data id s :
  writer_inv ws -> zlen (admitted ws) + 1 <= 2 ^ 64 -> data <> [] ->
  try_enqueue (w ws) data = Queued id s ->
  writer_inv (mkWS s (wpc ws) (admitted ws ++ [mkQueuedWrite id data]) (completed ws) (dropped ws)).
Proof.
  intros [Hb Hc Hne Ho Hn Hx Hi Hd] Hl Hdata He. pose proof (zlen_nonneg (admitted ws)).
  unfold try_enqueue in He. destruct (writer_closed (w ws)); [done|].
  destruct (_ || _) eqn:E; [|done]. simplify_eq.
  assert (Hid : next_id (w ws) = zlen (admitted ws)) by (rewrite Hx; apply wrap_small; lia).
  assert (Hret : retained (mkWS (mkWriter (queue (w ws) ++ [mkQueuedWrite (next_id (w ws)) data])
      (queued_bytes (w ws) + zlen data) (wrap 64 (next_id (w ws) + 1)) false) (wpc ws)
      (admitted ws ++ [mkQueuedWrite (next_id (w ws)) data]) (completed ws) (dropped ws))
    = retained ws ++ [mkQueuedWrite (next_id (w ws)) data])
    by (unfold retained; cbn; by rewrite <- !app_assoc).
  split; cbn [w wpc admitted completed dropped queue queued_bytes next_id]; rewrite ?Hret.
  - rewrite job_total_app. simpl. lia.
  - apply orb_true_iff in E as [E|E]; [|left; lia]. apply Z.eqb_eq in E.
    right. rewrite Hb in E. by rewrite (job_total_zero _ Hne E).
  - apply Forall_app. by repeat constructor.
  - by apply sublist_app.
  - rewrite !length_app, Hn. simpl. lia.
  - rewrite zlen_app, zlen_cons, zlen_nil, Hid. f_equal; lia.
  - unfold ids. rewrite fmap_app. unfold ids in Hi. rewrite Hi.
    assert (zlen (admitted ws ++ [mkQueuedWrite (next_id (w ws)) data]) = zlen (admitted ws) + 1)
      as -> by zlen_lia.
    pose proof (seqZ_app 0 (zlen (admitted ws)) 1) as Hseq. rewrite Hseq by lia.
    cbn. by rewrite Hid.
  - eapply Forall_impl; [exact Hd|]. cbn. intros i [H1 H2]. unfold ids in *.
    rewrite !fmap_app, !elem_of_app. split; [by left|]. intros [?|H3]; [done|].
    cbn in H3. apply list_elem_of_singleton in H3 as ->. rewrite Hid in H1.
    rewrite Hi, elem_of_seqZ in H1. lia.
Qed.

(** A job that leaves the middle of the retained ones. *)
Lemma retained_without ws a j b rest :
  writer_inv ws -> retained ws = a ++ j :: b -> rest = a ++ b ->
  rest `sublist_of` admitted ws /\ (length (retained ws) = S (length rest))%nat /\
  job_id j ∈ ids (admitted ws) /\ job_id j ∉ ids rest.
Proof.
  intros Hi Hr ->. pose proof (wi_order _ Hi) as Ho. rewrite Hr in Ho.
  assert (Hsub : a ++ b `sublist_of` a ++ j :: b) by (apply sublist_app; [done|by constructor]).
  split_and!.
  - by etrans.
  - rewrite Hr, !length_app. simpl. lia.
  - apply ids_sublist in Ho. eapply elem_of_sublist; [|exact Ho].
    unfold ids. rewrite fmap_app. apply elem_of_app. right. apply list_elem_of_here.
  - apply ids_sublist in Ho. pose proof (sublist_NoDup _ _ (NoDup_ids _ Hi) Ho) as Hnd.
    unfold ids in *. rewrite fmap_app in *. cbn in Hnd.
    apply NoDup_app in Hnd as (_ & H1 & H2). apply NoDup_cons in H2 as [H2 _].
    rewrite elem_of_app. intros [H3|H3]; [|done]. by apply (H1 _ H3), list_elem_of_here.
Qed.

Lemma drop_inv ws j q :
  writer_inv ws -> j ∈ admitted ws -> remove_job (job_id j) (queue (w ws)) = Some q ->
  writer_inv (mkWS (drop_queued_job (w ws) (job_id j) (zlen (job_bytes j))) (wpc ws)
                (admitted ws) (completed ws) (dropped ws ++ [job_id j])).
Proof.
  intros Hi Hj Hq. unfold drop_queued_job. rewrite Hq.
  destruct (remove_job_spec _ _ _ Hq) as (k & a & b & Hqa & -> & Hk).
  assert (Hkj : k = j).
  { apply (same_job ws); try done. eapply elem_of_sublist; [|apply (wi_order _ Hi)].
    unfold retained. rewrite Hqa, !elem_of_app, elem_of_cons. auto. }
  subst k.
  destruct (retained_without ws ((completed ws).*1 ++ being_written (wpc ws) ++ a) j b
    ((completed ws).*1 ++ being_written (wpc ws) ++ a ++ b) Hi) as (Hsub & Hlen & Hin & Hnot).
  { unfold retained. rewrite Hqa, <- !app_assoc. done. }
  { by rewrite <- !app_assoc. }
  destruct Hi as [Hb Hc Hne Ho Hn Hx Hids Hd].
  rewrite Hqa in Hb, Hne. rewrite job_total_app in Hb. simpl in Hb.
  pose proof (job_total_nonneg a). pose proof (job_total_nonneg b).
  split; cbn [w wpc admitted completed dropped queue queued_bytes next_id]; try done.
  - rewrite job_total_app, Hb. unfold saturating_sub. zlen_lia.
  - unfold saturating_sub. rewrite Hqa, length_app in Hc. simpl in Hc.
    destruct Hc as [Hc|Hc].
    + left. pose proof (zlen_nonneg (job_bytes j)). unfold MAX_WRITE_QUEUE_BYTES in *. lia.
    + left. destruct a, b; simpl in Hc; try lia. simpl in Hb. unfold MAX_WRITE_QUEUE_BYTES. lia.
  - apply Forall_app in Hne as [Hna Hnb]. apply Forall_cons in Hnb as [_ Hnb].
    by apply Forall_app.
  - unfold retained in *. cbn [w wpc admitted completed dropped queue].
    rewrite (length_app (dropped ws)), Hn, Hlen. cbn [length]. lia.
  - apply Forall_app. split; [|by repeat constructor].
    eapply Forall_impl; [exact Hd|]. cbn. intros i [H1 H2]. split; [done|].
    intros H3. apply H2. unfold retained. cbn [w wpc completed queue] in H3. rewrite Hqa.
    eapply elem_of_sublist; [exact H3|]. apply ids_sublist.
    repeat (apply sublist_app; [done|]). by constructor.
Qed.

Lemma ws_step_inv ws ws' :
  (zlen (admitted ws) <= 2 ^ 64 -> writer_inv ws) -> ws_step ws ws' ->
  zlen (admitted ws') <= 2 ^ 64 -> writer_inv ws'.
Proof.
  intros Hi Hs Hl. destruct Hs as [ws data id s Hd He|ws j Hj|ws j s Hp Hpop|ws j ok Hp|ws Hp Hpop Hc|ws];
    cbn [admitted] in Hl.
  - rewrite zlen_app, zlen_cons, zlen_nil in Hl. apply enqueue_inv; try done. apply Hi. lia.
  - specialize (Hi Hl).
    destruct (remove_job (job_id j) (queue (w ws))) as [q|] eqn:Eq; [by apply (drop_inv ws j q)|].
    unfold drop_queued_job. rewrite Eq. by destruct ws.
  - destruct (Hi Hl) as [Hb Hcap Hne Ho Hn Hx Hids Hdr]. unfold pop_job in Hpop.
    destruct (queue (w ws)) as [|k q] eqn:Eq; [done|]. simplify_eq.
    unfold retained in *. rewrite Hp, Eq in *. simpl in Hb, Hcap. apply Forall_cons in Hne as [Hj Hne].
    pose proof (job_total_nonneg q).
    split; unfold retained; cbn [w wpc admitted completed dropped queue queued_bytes next_id being_written];
      try done.
    + rewrite Hb. unfold saturating_sub. zlen_lia.
    + unfold saturating_sub. destruct Hcap as [Hcap|Hcap].
      * left. pose proof (zlen_nonneg (job_bytes j)). unfold MAX_WRITE_QUEUE_BYTES in *. lia.
      * left. destruct q; simpl in *; [|lia]. unfold MAX_WRITE_QUEUE_BYTES. lia.
  - destruct (Hi Hl) as [Hb Hcap Hne Ho Hn Hx Hids Hdr].
    assert (Hret : retained (mkWS (w ws) (if negb ok && writer_closed (w ws) then WriterExited else WriterIdle)
        (admitted ws) (completed ws ++ [(j, ok)]) (dropped ws)) = retained ws).
    { unfold retained. cbn. rewrite Hp, fmap_app. cbn. rewrite <- app_assoc.
      by destruct (negb ok && _). }
    split; rewrite ?Hret; done.
  - destruct (Hi Hl) as [Hb Hcap Hne Ho Hn Hx Hids Hdr].
    split; unfold retained in *; cbn; rewrite ?Hp in *; done.
  - destruct (Hi Hl) as [Hb Hcap Hne Ho Hn Hx Hids Hdr]. by split.
Qed.

(** Input reaches the PTY in the order it was enqueued, whoever enqueued it
    and whatever times out meanwhile: the jobs written, being written and queued
    are, in this order, the jobs admitted minus exactly those whose caller took
    them back, and a job taken back is never written. The byte count is exact
    and within the cap, except that one oversized job may be queued alone. *)
Theorem writer_is_fifo ws :
  rtc ws_step ws_new ws -> zlen (admitted ws) <= 2 ^ 64 ->
  retained ws `sublist_of` admitted ws /\
  length (admitted ws) = (length (retained ws) + length (dropped ws))%nat /\
  (forall i, i ∈ dropped ws -> i ∉ ids ((completed ws).*1)) /\
  queued_bytes (w ws) = job_total (queue (w ws)) /\
  (queued_bytes (w ws) <= MAX_WRITE_QUEUE_BYTES \/ length (queue (w ws)) = 1%nat).
Proof.
  intros Hr Hl.
  assert (Hi : zlen (admitted ws) <= 2 ^ 64 -> writer_inv ws).
  { revert Hr. apply (rtc_invariant ws_step (fun ws => zlen (admitted ws) <= 2 ^ 64 -> writer_inv ws)).
    - exact ws_step_inv.
    - intros _. split; try done. by left. }
  destruct (Hi Hl) as [Hb Hc _ Ho Hn _ _ Hd]. split_and!; try done.
  intros i Hin. rewrite Forall_forall in Hd. destruct (Hd i Hin) as [_ Hnot].
  intros Hcm. apply Hnot. unfold ids, retained. rewrite fmap_app, elem_of_app. by left.
Qed.

Lemma writer_is_fifo_witness :
  let j0 := mkQueuedWrite 0 (str "ls") in
  let j1 := mkQueuedWrite 1 (str "rm") in
  let ws := mkWS (mkWriter [] 0 2 false) (Writing j0) [j0; j1] [] [1] in
  rtc ws_step ws_new ws /\ retained ws `sublist_of` admitted ws.
Proof.
  intros j0 j1 ws.
  assert (H : rtc ws_step ws_new ws).
  { eapply rtc_l; [apply (ws_enqueue ws_new (str "ls")); [discriminate|reflexivity]|].
    eapply rtc_l; [apply (ws_enqueue _ (str "rm")); [discriminate|reflexivity]|].
    eapply rtc_l; [apply (ws_drop _ j1); right; left|].
    eapply rtc_l; [eapply ws_pop; reflexivity|]. apply rtc_refl. }
  split; [exact H|]. apply (writer_is_fifo ws H). discriminate.
Defined.
