(* ===== verification/Agent.v ===== *)
(** Agent status (grove-daemon/src/agent.rs and the liveness facts of kernel.rs):
    the claims on a pane, the table from hook events to phases, and the badge
    that is derived from claims and kernel at read time. *)

From S2P Require Import Prelude.

(** * The kernel's view of a process *)

Record ProcFacts := mkProcFacts {
  facts_pid : Z;
  start_us : Z;
  stat : Z;
  tdev : Z
}.

Definition SSTOP : Z := 4.
Definition SZOMB : Z := 5.
Definition NODEV : Z := -1.

Definition alive (f : ProcFacts) : bool := negb (stat f =? SZOMB).
Definition stopped (f : ProcFacts) : bool := stat f =? SSTOP.
Definition has_ctty (f : ProcFacts) : bool := negb (tdev f =? NODEV).

(** The oracle is one query; the fake kernel of the tests is a table, and it is
    what the witnesses run on. *)
Class Kernel (K : Type) := facts : K -> Z -> option ProcFacts.

Definition FakeKernel : Type := gmap Z ProcFacts.
#[export] Instance fake_kernel : Kernel FakeKernel := fun k pid => k !! pid.

Definition fk_put (k : FakeKernel) (f : ProcFacts) : FakeKernel := <[facts_pid f := f]> k.
Definition fk_insert (k : FakeKernel) (pid start tdev : Z) : FakeKernel :=
  fk_put k (mkProcFacts pid start 2 tdev).
Definition fk_remove (k : FakeKernel) (pid : Z) : FakeKernel := delete pid k.
Definition fk_mutate (k : FakeKernel) (pid : Z) (f : ProcFacts -> ProcFacts) : FakeKernel :=
  alter f pid k.
Definition zombify (k : FakeKernel) (pid : Z) : FakeKernel :=
  fk_mutate k pid (fun f => mkProcFacts (facts_pid f) (start_us f) SZOMB (tdev f)).
Definition suspend (k : FakeKernel) (pid : Z) : FakeKernel :=
  fk_mutate k pid (fun f => mkProcFacts (facts_pid f) (start_us f) SSTOP (tdev f)).
Definition reuse_pid (k : FakeKernel) (pid new_start : Z) : FakeKernel :=
  fk_mutate k pid (fun f => mkProcFacts (facts_pid f) new_start (stat f) (tdev f)).

(** * Claims and events *)

Inductive Phase := Working | Waiting | Idle.

Record AgentClaim := mkAgentClaim {
  claim_id : bytes;
  tool : bytes;
  pid : Z;
  claim_start_us : Z;
  phase : Phase;
  last_at_ns : Z
}.

Definition map_event (event : bytes) (tool_name : option bytes) : option Phase :=
  if bytes_eqb event (str "SessionStart") then Some Idle
  else if bytes_eqb event (str "UserPromptSubmit") then Some Working
  else if bytes_eqb event (str "PreToolUse") then
    Some (if bool_decide (tool_name = Some (str "AskUserQuestion")) then Waiting else Working)
  else if bytes_eqb event (str "PermissionRequest") then Some Waiting
  else if bytes_eqb event (str "PostToolUse") || bytes_eqb event (str "PostToolUseFailure")
  then Some Working
  else if bytes_eqb event (str "Stop") || bytes_eqb event (str "StopFailure") then Some Idle
  else None.

Definition set_event (c : AgentClaim) (event : bytes) (tool_name : option bytes) (at_ns : Z) :
    AgentClaim :=
  mkAgentClaim (claim_id c) (tool c) (pid c) (claim_start_us c)
    (default (phase c) (map_event event tool_name)) at_ns.

(** [iter_mut().find] and the update of what it found. *)
Fixpoint apply_event (agents : list AgentClaim) (id event : bytes) (tool_name : option bytes)
    (at_ns : Z) : list AgentClaim * bool :=
  match agents with
  | [] => ([], false)
  | c :: agents =>
      if bytes_eqb (claim_id c) id then
        if at_ns <=? last_at_ns c then (c :: agents, false)
        else (set_event c event tool_name at_ns :: agents, true)
      else let (agents, accepted) := apply_event agents id event tool_name at_ns in
           (c :: agents, accepted)
  end.

Section resolve.
Context {K : Type} `{Kernel K}.

Definition status_of (f : ProcFacts) (c : AgentClaim) : bytes :=
  if stopped f then str "idle"
  else match phase c with
       | Working => str "running"
       | Waiting => str "attention"
       | Idle => str "idle"
       end.

(** The loop over the claims, most recent first. *)
Fixpoint resolve_rev (claims : list AgentClaim) (k : K) : option bytes :=
  match claims with
  | [] => None
  | c :: claims =>
      match facts k (pid c) with
      | None => resolve_rev claims k
      | Some f =>
          if negb (alive f) then resolve_rev claims k
          else if negb (start_us f =? claim_start_us c) then resolve_rev claims k
          else Some (tool c ++ str ":" ++ status_of f c)
      end
  end.

Definition resolve (agents : list AgentClaim) (k : K) : option bytes :=
  resolve_rev (rev agents) k.

(** The [retain] predicate. *)
Definition keeps (k : K) (c : AgentClaim) : bool :=
  match facts k (pid c) with
  | Some f => alive f && (start_us f =? claim_start_us c)
  | None => false
  end.

Definition prune (agents : list AgentClaim) (k : K) : list AgentClaim :=
  filter (fun c => keeps k c = true) agents.

(** [Session::record_agent_claim]. *)
Definition record_agent_claim (agents : list AgentClaim) (c : AgentClaim) (k : K) :
    list AgentClaim := prune agents k ++ [c].

(** * The badge *)

Definition badge (k : K) (c : AgentClaim) : option bytes :=
  match facts k (pid c) with
  | Some f => if keeps k c then Some (tool c ++ str ":" ++ status_of f c) else None
  | None => None
  end.

Lemma resolve_rev_cons k c claims :
  resolve_rev (c :: claims) k =
    match badge k c with Some b => Some b | None => resolve_rev claims k end.
Proof.
  unfold badge, keeps. simpl. destruct (facts k (pid c)) as [f|]; [|done].
  by destruct (alive f), (start_us f =? claim_start_us c).
Qed.

Lemma badge_dead k c : keeps k c = false -> badge k c = None.
Proof. unfold badge. intros ->. by destruct (facts k (pid c)). Qed.

Lemma resolve_snoc k agents c :
  resolve (agents ++ [c]) k =
    match badge k c with Some b => Some b | None => resolve agents k end.
Proof. unfold resolve. rewrite rev_app_distr. apply resolve_rev_cons. Qed.

(** The badge of a pane is that of the most recently recorded claim whose
    process still lives, is no zombie and has the start time the claim was made
    with; when there is no such claim there is no badge, so a killed, reaped or
    replaced process cannot keep one. *)
Theorem badge_is_latest_live_claim k agents :
  (Forall (fun c => keeps k c = false) agents /\ resolve agents k = None) \/
  (exists before c after f, agents = before ++ c :: after /\
     Forall (fun c => keeps k c = false) after /\
     facts k (pid c) = Some f /\ alive f = true /\ start_us f = claim_start_us c /\
     resolve agents k = Some (tool c ++ str ":" ++ status_of f c)).
Proof.
  induction agents as [|c agents IH] using rev_ind; [by left|].
  rewrite resolve_snoc. destruct (keeps k c) eqn:E.
  - right. unfold badge. rewrite E. unfold keeps in E.
    destruct (facts k (pid c)) as [f|] eqn:Ef; [|done].
    apply andb_true_iff in E as [Ha Hs%Z.eqb_eq].
    exists agents, c, [], f. by split_and!.
  - rewrite badge_dead by done.
    destruct IH as [[Hd ->]|(b & c' & a & f & -> & Hd & Hf & Ha & Hs & ->)].
    + left. split; [|done]. apply Forall_app. by repeat constructor.
    + right. exists b, c', (a ++ [c]), f. split_and!; try done; [by rewrite <- app_assoc|].
      apply Forall_app. by repeat constructor.
Qed.

(** Pruning dead claims when a new claim is recorded never changes a
    badge, now or later: resolving the pruned list against the same kernel
    gives what the full list gives, and a claim it removed would not have
    counted. *)
Theorem prune_keeps_badge k agents c :
  resolve (prune agents k) k = resolve agents k /\
  resolve (record_agent_claim agents c k) k = resolve (agents ++ [c]) k.
Proof.
  assert (Hp : resolve (prune agents k) k = resolve agents k).
  { induction agents as [|a agents IH] using rev_ind; [done|].
    unfold prune in *. rewrite filter_app, resolve_snoc, filter_cons, filter_nil.
    destruct (decide (keeps k a = true)) as [E|E].
    - rewrite resolve_snoc. by rewrite IH.
    - rewrite app_nil_r, badge_dead by (by apply not_true_is_false). done. }
  split; [done|]. unfold record_agent_claim. by rewrite !resolve_snoc, Hp.
Qed.
End resolve.

(** * Events *)

Record hook_event := mkHook { he_event : bytes; he_tool : option bytes; he_at : Z }.

Definition apply_events (agents : list AgentClaim) (id : bytes) (es : list hook_event) :
    list AgentClaim :=
  fold_left (fun a e => (apply_event a id (he_event e) (he_tool e) (he_at e)).1) es agents.

(** The claim an event with this id reaches. *)
Definition claim_named (agents : list AgentClaim) (id : bytes) : option AgentClaim :=
  find (fun c => bytes_eqb (claim_id c) id) agents.

(** What one event does to the claim it reaches. *)
Definition react (c : AgentClaim) (e : hook_event) : AgentClaim :=
  if he_at e <=? last_at_ns c then c else set_event c (he_event e) (he_tool e) (he_at e).

Lemma apply_event_named agents id e c :
  claim_named agents id = Some c ->
  claim_named (apply_event agents id (he_event e) (he_tool e) (he_at e)).1 id = Some (react c e) /\
  (apply_event agents id (he_event e) (he_tool e) (he_at e)).2 = (last_at_ns c <? he_at e).
Proof.
  unfold claim_named, react. induction agents as [|a agents IH]; simpl; [done|].
  destruct (bytes_eqb (claim_id a) id) eqn:E; intros Hc.
  - injection Hc as ->. destruct (Z.leb_spec (he_at e) (last_at_ns c)) as [Hle|Hgt]; simpl.
    + rewrite E. split; [done|]. symmetry. by apply Z.ltb_ge.
    + rewrite E. split; [done|]. symmetry. by apply Z.ltb_lt.
  - destruct (IH Hc) as [H1 H2]. destruct (apply_event agents id _ _ _). simpl in *.
    by rewrite E.
Qed.

Lemma apply_events_named agents id es c :
  claim_named agents id = Some c ->
  claim_named (apply_events agents id es) id = Some (fold_left react es c).
Proof.
  revert agents c. induction es as [|e es IH]; intros agents c Hc; [done|].
  apply IH, apply_event_named, Hc.
Qed.

Lemma react_fence c e : last_at_ns (react c e) = Z.max (last_at_ns c) (he_at e).
Proof. unfold react. destruct (Z.leb_spec (he_at e) (last_at_ns c)); simpl; lia. Qed.

Lemma older_events_ignored es c :
  Forall (fun e => he_at e <= last_at_ns c) es -> fold_left react es c = c.
Proof.
  revert c. induction es as [|e es IH]; intros c Hf; [done|].
  apply Forall_cons in Hf as [He Hf]. simpl. unfold react at 2.
  rewrite (proj2 (Z.leb_le _ _) He). auto.
Qed.

(** Hook events may arrive in any order, late or repeated. If the newest
    event of a claim, strictly newer than all others and than what the claim has
    seen, maps to a phase, the claim ends in that phase, with that event as its
    fence; identity, tool and process of the claim never change. *)
Theorem newest_event_wins agents id c before e after ph :
  claim_named agents id = Some c ->
  last_at_ns c < he_at e ->
  Forall (fun e' => he_at e' < he_at e) (before ++ after) ->
  map_event (he_event e) (he_tool e) = Some ph ->
  exists c', claim_named (apply_events agents id (before ++ e :: after)) id = Some c' /\
    phase c' = ph /\ last_at_ns c' = he_at e /\
    claim_id c' = claim_id c /\ tool c' = tool c /\ pid c' = pid c /\
    claim_start_us c' = claim_start_us c.
Proof.
  intros Hc Hl Hf Hm. apply Forall_app in Hf as [Hb Ha].
  rewrite (apply_events_named _ _ _ _ Hc). eexists. split; [done|].
  rewrite fold_left_app. simpl.
  set (d := fold_left react before c).
  assert (Hd : last_at_ns d < he_at e /\ claim_id d = claim_id c /\ tool d = tool c /\
               pid d = pid c /\ claim_start_us d = claim_start_us c).
  { subst d. clear Hc Hm. revert c Hl. induction Hb as [|e' es He _ IH]; intros c Hl; [done|].
    simpl. destruct (IH (react c e')) as (H1 & H2 & H3 & H4 & H5).
    - rewrite react_fence. lia.
    - rewrite H2, H3, H4, H5. split; [done|]. unfold react. by case_match. }
  destruct Hd as (Hd & H1 & H2 & H3 & H4).
  assert (He : react d e = set_event d (he_event e) (he_tool e) (he_at e)).
  { unfold react. by rewrite (proj2 (Z.leb_gt _ _) Hd). }
  rewrite He, older_events_ignored.
  - unfold set_event. rewrite Hm. by split_and!.
  - eapply Forall_impl; [exact Ha|]. simpl. lia.
Qed.

Lemma newest_event_wins_witness :
  let c := mkAgentClaim (str "k1") (str "claude") 42 7 Idle 0 in
  let late := mkHook (str "PreToolUse") (Some (str "Bash")) 5 in
  let ask := mkHook (str "PermissionRequest") None 9 in
  exists c', claim_named (apply_events [c] (str "k1") [ask; late]) (str "k1") = Some c' /\
    phase c' = Waiting.
Proof.
  intros c late ask.
  destruct (newest_event_wins [c] (str "k1") c [] ask [late] Waiting) as (c' & H1 & H2 & _).
  - reflexivity.
  - reflexivity.
  - constructor; [reflexivity|constructor].
  - reflexivity.
  - exists c'. split; [exact H1|exact H2].
Defined.
