(* ===== verification/Session.v ===== *)
(** A daemon-owned terminal session (grove-daemon/src/session.rs): the pending
    output for the checkpointer, the producer gate with its lost-resume failsafe,
    the reader's tee into ring, emulator and counters, the stream of data frames
    and the ordered exit frame. Atomics and mutex-protected fields are fields of
    one record; the reader, the flusher, the failsafe timers and the callers are
    the steps of a relation. *)

From S2P Require Import Prelude Framing ModeState Emulator HistoryLog Pty.

Definition RING_CAP_BYTES : Z := 256 * 1024.
Definition MIN_RING_CAP_BYTES : Z := 4 * 1024.
Definition PENDING_OUTPUT_MAX_BYTES : Z := 2 * 1024 * 1024.
Definition PENDING_SEGMENT_CAP : Z := 64 * 1024.

(** * Pending output *)

Record PendingOutput := mkPending {
  po_records : list HistoryRecord;
  po_bytes : Z;
  overflowed : bool
}.

Definition pending_default : PendingOutput := mkPending [] 0 false.

(** [records.last_mut()] extended in place when it is a short [Output], a new
    record otherwise. *)
Fixpoint extend_last (rs : list HistoryRecord) (data : bytes) : list HistoryRecord :=
  match rs with
  | [] => [Output data]
  | [Output l] =>
      if zlen l <? PENDING_SEGMENT_CAP then [Output (l ++ data)] else [Output l; Output data]
  | r :: rs => r :: extend_last rs data
  end.

Definition push_output (p : PendingOutput) (data : bytes) : PendingOutput :=
  if overflowed p then p
  else
    let n := po_bytes p + zlen data in
    if PENDING_OUTPUT_MAX_BYTES <? n then mkPending [] 0 true
    else mkPending (extend_last (po_records p) data) n false.

Definition push_record (p : PendingOutput) (r : HistoryRecord) : PendingOutput :=
  if overflowed p then p
  else mkPending (po_records p ++ [r]) (po_bytes p + 8) false.

Record PendingTake := mkTake { taken_records : list HistoryRecord; taken_overflowed : bool }.

Definition take_pending_output (p : PendingOutput) : PendingTake * PendingOutput :=
  (mkTake (po_records p) (overflowed p), mkPending [] 0 false).

(** What happened to a session since the last take. *)
Inductive pending_event :=
| EvOutput (data : bytes)
| EvResize (cols rows : Z)
| EvClear.

Definition pend (p : PendingOutput) (e : pending_event) : PendingOutput :=
  match e with
  | EvOutput d => push_output p d
  | EvResize cols rows => push_record p (HistoryLog.Resize cols rows)
  | EvClear => push_record p Clear
  end.

(** Records as a sequence of single bytes and markers: how output was cut into
    records does not matter to a replay. *)
Definition flat_record (r : HistoryRecord) : list (Z + HistoryRecord) :=
  match r with Output b => inl <$> b | r => [inr r] end.
Definition flat (rs : list HistoryRecord) : list (Z + HistoryRecord) := concat (flat_record <$> rs).
Definition flat_event (e : pending_event) : list (Z + HistoryRecord) :=
  match e with
  | EvOutput d => inl <$> d
  | EvResize cols rows => [inr (HistoryLog.Resize cols rows)]
  | EvClear => [inr Clear]
  end.

Definition event_weight (e : pending_event) : Z :=
  match e with EvOutput d => zlen d | _ => 8 end.

(** * The producer gate *)

Record Producer := mkProducer {
  paused : bool;
  generation : Z;
  timers : list Z            (* generations the armed failsafe threads captured *)
}.

Definition producer_default : Producer := mkProducer false 0 [].

Definition pause_producer (alive : bool) (p : Producer) : Producer :=
  if negb alive then p
  else let g := wrap 64 (generation p + 1) in mkProducer true g (timers p ++ [g]).

Definition resume_producer (p : Producer) : Producer :=
  mkProducer false (wrap 64 (generation p + 1)) (timers p).

(** The failsafe thread that captured [g], when its sleep is over. *)
Definition failsafe_fires (g : Z) (p : Producer) : Producer :=
  if (generation p =? g) && paused p
  then mkProducer false (wrap 64 (generation p + 1)) (timers p)
  else p.

Definition disarm (i : nat) (p : Producer) : Producer :=
  mkProducer (paused p) (generation p) (delete i (timers p)).

Inductive producer_step : Producer -> Producer -> Prop :=
| ps_pause p alive : producer_step p (pause_producer alive p)
| ps_resume p : producer_step p (resume_producer p)
| ps_timer p i g : timers p !! i = Some g -> producer_step p (disarm i (failsafe_fires g p)).

(** * The session *)

Section session.
Context {P : Type} `{Vt100 P}.

Record Session := mkSession {
  id : bytes;
  has_master : bool;
  ring : bytes;
  ring_truncated : bool;
  emulator : option (DaemonEmulator P);
  emulator_poisoned : bool;
  seq : Z;                       (* delivered bytes *)
  ingest_seq : Z;                (* teed bytes *)
  alive : bool;
  exit_emitted : bool;
  applied : Z * Z;               (* cols, rows *)
  pending : PendingOutput;
  history_enabled : bool;
  producer : Producer;
  bell : bool;
  background : bool;
  ring_cap : Z;
  hub : list StreamFrame;        (* frames that were encoded and emitted *)
  dirty_marks : nat;             (* calls of [reaper.mark_dirty] *)
  closed_with : option (option Z) (* the code [reaper.close_history] was given *)
}.

Definition spawn_with_ring_cap (id : bytes) (cols rows ring_cap_bytes : Z) : Session :=
  mkSession id true [] false (Some (emulator_new rows cols DEFAULT_SCROLLBACK_LINES)) false 0 0
    true false (cols, rows) pending_default false producer_default false false
    (Z.max ring_cap_bytes MIN_RING_CAP_BYTES) [] 0 None.

Definition set_ring (s : Session) (r : bytes) (t : bool) : Session :=
  mkSession (id s) (has_master s) r t (emulator s) (emulator_poisoned s) (seq s) (ingest_seq s)
    (alive s) (exit_emitted s) (applied s) (pending s) (history_enabled s) (producer s) (bell s)
    (background s) (ring_cap s) (hub s) (dirty_marks s) (closed_with s).

Definition set_emulator (s : Session) (e : option (DaemonEmulator P)) (poisoned bell : bool) : Session :=
  mkSession (id s) (has_master s) (ring s) (ring_truncated s) e poisoned (seq s) (ingest_seq s)
    (alive s) (exit_emitted s) (applied s) (pending s) (history_enabled s) (producer s) bell
    (background s) (ring_cap s) (hub s) (dirty_marks s) (closed_with s).

Definition set_pending (s : Session) (p : PendingOutput) (marks : nat) : Session :=
  mkSession (id s) (has_master s) (ring s) (ring_truncated s) (emulator s) (emulator_poisoned s)
    (seq s) (ingest_seq s) (alive s) (exit_emitted s) (applied s) p (history_enabled s)
    (producer s) (bell s) (background s) (ring_cap s) (hub s) marks (closed_with s).

Definition set_stream (s : Session) (sq ingest : Z) (emitted : bool) (h : list StreamFrame) : Session :=
  mkSession (id s) (has_master s) (ring s) (ring_truncated s) (emulator s) (emulator_poisoned s)
    sq ingest (alive s) emitted (applied s) (pending s) (history_enabled s) (producer s) (bell s)
    (background s) (ring_cap s) h (dirty_marks s) (closed_with s).

Definition set_life (s : Session) (master live : bool) (code : option (option Z)) : Session :=
  mkSession (id s) master (ring s) (ring_truncated s) (emulator s) (emulator_poisoned s) (seq s)
    (ingest_seq s) live (exit_emitted s) (applied s) (pending s) (history_enabled s) (producer s)
    (bell s) (background s) (ring_cap s) (hub s) (dirty_marks s) code.

Definition set_applied (s : Session) (a : Z * Z) : Session :=
  mkSession (id s) (has_master s) (ring s) (ring_truncated s) (emulator s) (emulator_poisoned s)
    (seq s) (ingest_seq s) (alive s) (exit_emitted s) a (pending s) (history_enabled s)
    (producer s) (bell s) (background s) (ring_cap s) (hub s) (dirty_marks s) (closed_with s).

Definition set_producer (s : Session) (p : Producer) (hist bg : bool) : Session :=
  mkSession (id s) (has_master s) (ring s) (ring_truncated s) (emulator s) (emulator_poisoned s)
    (seq s) (ingest_seq s) (alive s) (exit_emitted s) (applied s) (pending s) hist p (bell s) bg
    (ring_cap s) (hub s) (dirty_marks s) (closed_with s).

Definition append_ring (s : Session) (chunk : bytes) : Session :=
  let (r, t) := append_scrollback_capped (ring s) (ring_truncated s) chunk (ring_cap s) in
  set_ring s r t.

(** [panics] says whether the vt100 code unwinds on this chunk. *)
Definition feed_emulator (panics : bool) (s : Session) (chunk : bytes) : Session :=
  if emulator_poisoned s then s
  else
    match emulator s with
    | None => s
    | Some emu =>
        if panics then set_emulator s None true (bell s)
        else
          let emu := process emu chunk in
          let (bells, emu) := emulator_take_bells emu in
          set_emulator s (Some emu) false (if 0 <? bells then true else bell s)
    end.

Definition note_pending (s : Session) (e : pending_event) : Session :=
  if history_enabled s then set_pending s (pend (pending s) e) (S (dirty_marks s)) else s.

Definition advance_ingest (s : Session) (n : Z) : Session :=
  set_stream s (seq s) (wrap 64 (ingest_seq s + n)) (exit_emitted s) (hub s).

Definition tee (panics : bool) (s : Session) (chunk : bytes) : Session :=
  let s := append_ring s chunk in
  let s := feed_emulator panics s chunk in
  let s := note_pending s (EvOutput chunk) in
  advance_ingest s (zlen chunk).

Definition enable_history (s : Session) : Session :=
  set_producer s (producer s) true (background s).

Definition set_background (s : Session) (b : bool) : Session :=
  set_producer s (producer s) (history_enabled s) b.

Definition session_take_pending (s : Session) : PendingTake * Session :=
  let (t, p) := take_pending_output (pending s) in (t, set_pending s p (dirty_marks s)).

(** The sequence is read before the emulator's lock is taken. *)
Definition snapshot_at (panics : bool) (sq : Z) (s : Session) (opts : SnapshotOptions) :
    option DaemonSnapshot * Session :=
  match emulator s with
  | None => (None, s)
  | Some emu =>
      if panics then (None, set_emulator s None true (bell s))
      else (Some (snapshot emu opts sq), s)
  end.

Definition session_snapshot (panics : bool) (s : Session) (opts : SnapshotOptions) :
    option DaemonSnapshot * Session := snapshot_at panics (ingest_seq s) s opts.

Definition take_bell (s : Session) : bool * Session :=
  (bell s, set_emulator s (emulator s) (emulator_poisoned s) false).

(** [refused] says whether the PTY refused the new size. *)
Definition session_resize (refused : bool) (s : Session) (cols rows : Z) : result unit unit * Session :=
  if negb (alive s) then (Ok tt, s)
  else if negb (has_master s) then (Ok tt, s)
  else if refused then (Err tt, s)
  else
    let s := set_emulator s ((fun e => Emulator.resize e cols rows) <$> emulator s)
               (emulator_poisoned s) (bell s) in
    let s := set_applied s (cols, rows) in
    (Ok tt, note_pending s (EvResize cols rows)).

Definition clear_history (s : Session) : Session :=
  let s := set_ring s [] false in
  let s := set_emulator s (clear_scrollback <$> emulator s) (emulator_poisoned s) (bell s) in
  note_pending s EvClear.

Definition session_applied_size (s : Session) : Z * Z :=
  match emulator s with Some e => Emulator.applied_size e | None => applied s end.

(** [StreamSink::on_output]. *)
Definition on_output (s : Session) (batch : bytes) : Session :=
  let total := wrap 64 (seq s + zlen batch) in
  let frame := data (id s) total batch in
  set_stream s total (ingest_seq s) (exit_emitted s)
    (if is_ok (to_bytes frame) then hub s ++ [frame] else hub s).

Context (exit_json : ExitStatus -> bytes).

(** [status] is what [wait] on the child gives. *)
Definition emit_exit (status : ExitStatus) (s : Session) : option Z * Session :=
  if exit_emitted s then (None, s)
  else
    let frame := Framing.exit exit_json (id s) (seq s) status in
    (exit_code status,
     set_stream s (seq s) (ingest_seq s) true
       (if is_ok (to_bytes frame) then hub s ++ [frame] else hub s)).

(** The first half of [kill], and its watchdog five seconds later. *)
Definition kill (s : Session) : Session :=
  set_producer s (resume_producer (producer s)) (history_enabled s) (background s).

Definition kill_watchdog (s : Session) : Session :=
  if alive s then
    let s := set_producer s (resume_producer (producer s)) (history_enabled s) (background s) in
    set_life s false (alive s) (closed_with s)
  else s.

(** The end of [run_reader], before and after the flusher is joined. *)
Definition reader_stops (s : Session) : Session := set_life s (has_master s) false (closed_with s).

Definition reader_finishes (status : ExitStatus) (s : Session) : Session :=
  let (code, s) := emit_exit status s in
  set_life s false (alive s) (Some code).
End session.

(** * Pending output is the session's history since the last take *)

Definition flat_events (es : list pending_event) : list (Z + HistoryRecord) :=
  concat (flat_event <$> es).
Definition weight (es : list pending_event) : Z := foldr (fun e n => event_weight e + n) 0 es.

Lemma flat_app rs rs' : flat (rs ++ rs') = flat rs ++ flat rs'.
Proof. unfold flat. by rewrite fmap_app, concat_app. Qed.

Lemma flat_cons r rs : flat (r :: rs) = flat_record r ++ flat rs.
Proof. done. Qed.

Lemma extend_last_flat rs d : flat (extend_last rs d) = flat rs ++ (inl <$> d).
Proof.
  induction rs as [|r rs IH]; [unfold flat; simpl; by rewrite app_nil_r|].
  assert (Hc : forall t, flat (r :: extend_last t d) = flat_record r ++ flat (extend_last t d)) by done.
  rewrite (flat_cons r), <- app_assoc, <- IH.
  destruct r as [l| |]; [destruct rs as [|r' rs']|..]; try apply Hc.
  simpl. destruct (zlen l <? PENDING_SEGMENT_CAP); unfold flat; simpl;
    rewrite ?app_nil_r, ?fmap_app; done.
Qed.

Lemma extend_last_sum rs d : sum_output (extend_last rs d) = sum_output rs + zlen d.
Proof.
  induction rs as [|r rs IH]; [simpl; lia|].
  destruct r as [l| |]; [destruct rs as [|r' rs']|..].
  - simpl. destruct (zlen l <? PENDING_SEGMENT_CAP); simpl; zlen_lia.
  - change (extend_last (Output l :: r' :: rs') d) with (Output l :: extend_last (r' :: rs') d).
    change (zlen l + sum_output (extend_last (r' :: rs') d) = zlen l + sum_output (r' :: rs') + zlen d).
    lia.
  - simpl in *. lia.
  - simpl in *. lia.
Qed.

Definition pending_inv (es : list pending_event) (p : PendingOutput) : Prop :=
  if overflowed p then po_records p = [] /\ PENDING_OUTPUT_MAX_BYTES < weight es
  else flat (po_records p) = flat_events es /\ po_bytes p = weight es /\
       sum_output (po_records p) <= PENDING_OUTPUT_MAX_BYTES /\
       sum_output (po_records p) <= po_bytes p.

Lemma weight_app es es' : weight (es ++ es') = weight es + weight es'.
Proof. unfold weight. induction es; simpl; lia. Qed.

Lemma event_weight_nonneg e : 0 <= event_weight e.
Proof. destruct e; simpl; zlen_lia. Qed.

Lemma flat_events_app es es' : flat_events (es ++ es') = flat_events es ++ flat_events es'.
Proof. unfold flat_events. by rewrite fmap_app, concat_app. Qed.

Lemma pend_inv es p e : pending_inv es p -> pending_inv (es ++ [e]) (pend p e).
Proof.
  intros Hi. pose proof (event_weight_nonneg e) as Hw.
  assert (Hwt : weight (es ++ [e]) = weight es + event_weight e)
    by (rewrite weight_app; simpl; lia).
  assert (Hfl : flat_events (es ++ [e]) = flat_events es ++ flat_event e)
    by (rewrite flat_events_app; unfold flat_events at 2; simpl; by rewrite app_nil_r).
  unfold pending_inv in *.
  destruct e as [d|c r|]; unfold pend, push_output, push_record; destruct (overflowed p) eqn:Eo;
    cbn [overflowed po_records po_bytes]; rewrite ?Eo, ?Hwt, ?Hfl;
    try (destruct Hi; split; [done|lia]).
  - destruct Hi as (Hf & Hb & Hm & Hs).
    destruct (Z.ltb_spec PENDING_OUTPUT_MAX_BYTES (po_bytes p + zlen d)) as [Hlt|Hge];
      cbn [overflowed po_records po_bytes].
    + split; [done|]. simpl. lia.
    + rewrite extend_last_flat, Hf, extend_last_sum. simpl. split_and!; [done|lia..].
  - destruct Hi as (Hf & Hb & Hm & Hs). rewrite flat_app, Hf, sum_output_app. simpl.
    split_and!; [done|lia..].
  - destruct Hi as (Hf & Hb & Hm & Hs). rewrite flat_app, Hf, sum_output_app. simpl.
    split_and!; [done|lia..].
Qed.

(** What the checkpointer takes from a session is everything that happened
    since its last take, output bytes and resizes and clears in their order
    however the bytes were cut into records; or, once more than the cap was
    accumulated, nothing with the overflow flag set. It never takes more than
    the cap, and a take starts over. *)
Theorem take_returns_history es :
  let (t, p) := take_pending_output (fold_left pend es pending_default) in
  (if taken_overflowed t
   then taken_records t = [] /\ PENDING_OUTPUT_MAX_BYTES < weight es
   else flat (taken_records t) = flat_events es) /\
  sum_output (taken_records t) <= PENDING_OUTPUT_MAX_BYTES /\ p = pending_default.
Proof.
  assert (Hi : pending_inv es (fold_left pend es pending_default)).
  { induction es as [|e es IH] using rev_ind; [done|].
    rewrite fold_left_app. by apply pend_inv. }
  unfold take_pending_output, pending_inv in *. cbn [taken_records taken_overflowed].
  destruct (overflowed _); [destruct Hi as [-> ?]|destruct Hi as (? & ? & ? & ?)];
    split_and!; done.
Qed.

(** * A lost resume never wedges the reader *)

Definition gate_inv (n : nat) (p : Producer) : Prop :=
  0 <= generation p <= Z.of_nat n /\ Forall (fun g => g <= generation p) (timers p) /\
  (paused p = true -> generation p ∈ timers p).

Lemma wrap_succ n g : 0 <= g <= Z.of_nat n -> Z.of_nat n + 1 < 2 ^ 64 -> wrap 64 (g + 1) = g + 1.
Proof. intros. apply wrap_small. lia. Qed.

Lemma bump_timers p :
  Forall (fun g => g <= generation p) (timers p) ->
  Forall (fun g => g <= generation p + 1) (timers p).
Proof. intros H. eapply Forall_impl; [exact H|]. simpl. lia. Qed.

Lemma failsafe_inv n g p :
  Z.of_nat n + 1 < 2 ^ 64 -> gate_inv n p -> gate_inv (S n) (failsafe_fires g p).
Proof.
  intros Hn (Hg & Ht & Hp). unfold failsafe_fires, gate_inv.
  destruct (_ && _); cbn [generation timers paused].
  - rewrite (wrap_succ n) by lia. split_and!; [lia|lia|by apply bump_timers|done].
  - split_and!; [lia|lia|done|done].
Qed.

Lemma producer_step_inv n p p' :
  Z.of_nat n + 1 < 2 ^ 64 -> gate_inv n p -> producer_step p p' -> gate_inv (S n) p'.
Proof.
  intros Hn (Hg & Ht & Hp) Hs. destruct Hs as [p alive|p|p i g Hi].
  - unfold pause_producer, gate_inv. destruct alive; cbn [negb generation timers paused].
    + rewrite (wrap_succ n) by lia. split_and!; [lia|lia| |].
      * apply Forall_app. split; [by apply bump_timers|]. constructor; [lia|constructor].
      * intros _. apply elem_of_app. right. apply list_elem_of_here.
    + split_and!; [lia|lia|done|done].
  - unfold resume_producer, gate_inv. cbn [generation timers paused].
    rewrite (wrap_succ n) by lia. split_and!; [lia|lia|by apply bump_timers|done].
  - destruct (failsafe_inv n g p Hn) as (Hg' & Ht' & Hp'); [exact (conj Hg (conj Ht Hp))|].
    unfold disarm, gate_inv. cbn [generation timers paused].
    assert (Htm : timers (failsafe_fires g p) = timers p)
      by (unfold failsafe_fires; by destruct (_ && _)).
    split_and!; [lia|lia| |].
    + rewrite Htm in *. rewrite Forall_forall in *. intros x Hx. apply Ht'.
      by eapply elem_of_sublist; [|apply sublist_delete].
    + intros Hpa. specialize (Hp' Hpa). rewrite Htm in *.
      assert (Hne : g <> generation (failsafe_fires g p)).
      { unfold failsafe_fires in *. destruct ((generation p =? g) && paused p) eqn:E; [done|].
        intros Heq. rewrite Hpa, andb_true_r in E. apply Z.eqb_neq in E. congruence. }
      apply list_elem_of_lookup in Hp' as [j Hj]. apply list_elem_of_lookup.
      assert (j <> i) by congruence.
      destruct (decide (j < i)%nat).
      * exists j. by rewrite list_lookup_delete_lt.
      * exists (j - 1)%nat. rewrite list_lookup_delete_ge by lia.
        by replace (S (j - 1)) with j by lia.
Qed.

Lemma gate_reachable n p :
  nsteps producer_step n producer_default p -> Z.of_nat n < 2 ^ 64 -> gate_inv n p.
Proof.
  revert p. induction n as [|n IH]; intros p Hs Hn.
  - inversion Hs; subst. split; [simpl; lia|]. split; [constructor|done].
  - apply nsteps_inv_r in Hs as (q & Hq & Hs).
    eapply producer_step_inv; [lia|apply IH; [done|lia]|done].
Qed.



(** * The session as a system: reader, flusher and callers *)

Section system.
Context {P : Type} `{!Vt100 P} (exit_json : ExitStatus -> bytes).

Inductive reader_pc := Reading | Joining | ReaderDone.

#[local] Instance reader_pc_eq_dec : EqDecision reader_pc.
Proof. solve_decision. Defined.

Record sys := mkSys { ses : Session (P := P); co : coalescer_system; rpc : reader_pc }.

(** Calls from other threads. None of them touches the stream. *)
Inductive control : Session (P := P) -> Session (P := P) -> Prop :=
| ct_producer s p :
    producer_step (producer s) p ->
    control s (set_producer s p (history_enabled s) (background s))
| ct_resize s refused cols rows : control s (session_resize refused s cols rows).2
| ct_clear s : control s (clear_history s)
| ct_snapshot s panics sq opts : control s (snapshot_at panics sq s opts).2
| ct_take s : control s (session_take_pending s).2
| ct_bell s : control s (take_bell s).2
| ct_history s : control s (enable_history s)
| ct_background s b : control s (set_background s b)
| ct_kill s : control s (kill s)
| ct_watchdog s : control s (kill_watchdog s).

(** The coalescer's push, close, and the flusher's two halves. *)
Definition co_push (c : coalescer_system) (d : bytes) (now : Z) : coalescer_system :=
  let s := push (inner c) d now in
  let taken := if closed (inner c) then [] else d in
  mkCS s (pc c) (sink c) (accepted c ++ taken)
    (lost c + (zlen (Pty.pending (inner c)) + zlen taken - zlen (Pty.pending s))).

Definition co_close (c : coalescer_system) : coalescer_system :=
  mkCS (close (inner c)) (pc c) (sink c) (accepted c) (lost c).

Definition co_deliver (c : coalescer_system) (drained : bytes) (last : bool) : coalescer_system :=
  mkCS (inner c) (if last then Exited else Holding)
    (if last && bool_decide (drained = []) then sink c else sink c ++ [drained])
    (accepted c) (lost c).

Inductive sys_step : sys -> sys -> Prop :=
| sy_read x chunk panics now :
    rpc x = Reading -> paused (producer (ses x)) = false -> chunk <> [] ->
    sys_step x (mkSys (tee panics (ses x) chunk) (co_push (co x) chunk now) Reading)
| sy_eof x :
    (* end of file, a read error, or a caught panic *)
    rpc x = Reading ->
    sys_step x (mkSys (reader_stops (ses x)) (co_close (co x)) Joining)
| sy_flush x now drained s :
    pc (co x) = Holding -> run_output_flusher_turn (inner (co x)) now = Emit drained s ->
    sys_step x (mkSys (ses x) (mkCS s (Calling drained false) (sink (co x)) (accepted (co x))
                                 (lost (co x))) (rpc x))
| sy_final x now drained s :
    pc (co x) = Holding -> run_output_flusher_turn (inner (co x)) now = Final drained s ->
    sys_step x (mkSys (ses x) (mkCS s (Calling drained true) (sink (co x)) (accepted (co x))
                                 (lost (co x))) (rpc x))
| sy_deliver x drained last :
    pc (co x) = Calling drained last ->
    sys_step x (mkSys (if last && bool_decide (drained = []) then ses x
                       else on_output (ses x) drained)
                  (co_deliver (co x) drained last) (rpc x))
| sy_join x status :
    rpc x = Joining -> pc (co x) = Exited ->
    sys_step x (mkSys (reader_finishes exit_json status (ses x)) (co x) ReaderDone)
| sy_control x s :
    control (ses x) s -> sys_step x (mkSys s (co x) (rpc x)).

Definition sys_new (sid : bytes) (cols rows cap : Z) : sys :=
  mkSys (spawn_with_ring_cap sid cols rows cap) cs_new Reading.

(** The data frames of a sequence of batches. *)
Fixpoint frames_of (sid : bytes) (base : Z) (batches : list bytes) : list StreamFrame :=
  match batches with
  | [] => []
  | b :: bs => data sid (wrap 64 (base + zlen b)) b :: frames_of sid (wrap 64 (base + zlen b)) bs
  end.

Record sys_inv (sid : bytes) (x : sys) : Prop := {
  si_id : id (ses x) = sid;
  si_co : coalescer_inv (co x);
  si_inflight : zlen (inflight (pc (co x))) <= MAX_PENDING_BYTES;
  si_seq : seq (ses x) = wrap 64 (zlen (concat (sink (co x))));
  si_ingest : ingest_seq (ses x) = wrap 64 (zlen (accepted (co x)));
  si_closed : closed (inner (co x)) = bool_decide (rpc x <> Reading);
  si_exited : exit_emitted (ses x) = bool_decide (rpc x = ReaderDone);
  si_joined : rpc x = ReaderDone -> pc (co x) = Exited /\ alive (ses x) = false;
  si_dead : rpc x <> Reading -> alive (ses x) = false;
  si_hub : exists tail, hub (ses x) = frames_of sid 0 (sink (co x)) ++ tail /\
    (rpc x <> ReaderDone -> tail = []) /\
    (rpc x = ReaderDone -> exists status, tail = [Framing.exit exit_json sid (seq (ses x)) status])
}.

(** What every call leaves alone. *)
Definition same_stream (s s' : Session (P := P)) : Prop :=
  id s' = id s /\ seq s' = seq s /\ ingest_seq s' = ingest_seq s /\
  exit_emitted s' = exit_emitted s /\ hub s' = hub s /\ alive s' = alive s.

Lemma note_pending_stream s e : same_stream s (note_pending s e).
Proof. unfold note_pending. by destruct (history_enabled s). Qed.

Lemma control_same_stream s s' : control s s' -> same_stream s s'.
Proof.
  destruct 1; try done.
  - unfold session_resize, note_pending. by repeat case_match.
  - unfold clear_history, note_pending. by case_match.
  - unfold snapshot_at. by repeat case_match.
  - unfold kill_watchdog. by destruct (alive s).
Qed.

Lemma tee_stream panics s chunk :
  let s' := tee panics s chunk in
  id s' = id s /\ seq s' = seq s /\ ingest_seq s' = wrap 64 (ingest_seq s + zlen chunk) /\
  exit_emitted s' = exit_emitted s /\ hub s' = hub s /\ alive s' = alive s.
Proof.
  assert (Hf : same_stream s (feed_emulator panics (append_ring s chunk) chunk)).
  { unfold append_ring, feed_emulator. destruct (append_scrollback_capped _ _ _ _).
    cbn [set_ring emulator_poisoned emulator]. repeat case_match; done. }
  unfold tee. set (s1 := feed_emulator _ _ _) in *.
  destruct (note_pending_stream s1 (EvOutput chunk)) as (H1 & H2 & H3 & H4 & H5 & H6).
  destruct Hf as (G1 & G2 & G3 & G4 & G5 & G6). simpl.
  split_and!; try congruence.
Qed.

Lemma frames_of_app sid base bs b :
  frames_of sid base (bs ++ [b]) =
    frames_of sid base bs ++ [data sid (wrap 64 (base + zlen (concat bs) + zlen b)) b].
Proof.
  revert base. induction bs as [|c bs IH]; intros base; simpl.
  - by rewrite zlen_nil, Z.add_0_r.
  - rewrite IH. do 4 f_equal. rewrite zlen_app.
    rewrite <- Z.add_assoc, wrap_add_wrap_l. f_equal. lia.
Qed.

Lemma data_encodes sid sq b :
  zlen sid <= MAX_SESSION_ID_BYTES -> zlen b <= MAX_PENDING_BYTES ->
  is_ok (to_bytes (data sid sq b)) = true.
Proof.
  intros Hs Hb. unfold to_bytes, encode. cbn [data session_id Framing.payload].
  rewrite (proj2 (Z.ltb_ge _ _) Hs).
  rewrite (proj2 (Z.ltb_ge _ _)); [done|].
  etrans; [exact Hb|]. vm_compute. discriminate.
Qed.

(** Each step of the session is a step of the coalescer, or leaves it alone. *)
Lemma sys_step_co x x' : sys_step x x' -> coalescer_inv (co x) -> coalescer_inv (co x').
Proof.
  destruct 1; cbn [co]; try done; intros Hi; eapply cs_step_inv; try exact Hi.
  - apply step_push.
  - apply step_close.
  - by eapply step_flush.
  - by eapply step_final.
  - by apply step_sink.
Qed.

Lemma flush_drained c now drained s :
  (run_output_flusher_turn c now = Emit drained s \/ run_output_flusher_turn c now = Final drained s) ->
  drained = Pty.pending c /\ closed s = closed c.
Proof. unfold run_output_flusher_turn. intros [H|H]; repeat case_match; by simplify_eq. Qed.

Lemma push_keeps_closed c d now : closed (push c d now) = closed c.
Proof. unfold push. case_bool_decide; [done|]. by destruct (closed c) eqn:E. Qed.

Lemma concat_deliver c drained last :
  concat (sink (co_deliver c drained last)) = concat (sink c) ++ drained.
Proof.
  unfold co_deliver. cbn. destruct last; simpl; [case_bool_decide; subst|];
    rewrite ?concat_app; simpl; by rewrite ?app_nil_r.
Qed.

Lemma deliver_inv sid x drained last :
  zlen sid <= MAX_SESSION_ID_BYTES -> pc (co x) = Calling drained last -> sys_inv sid x ->
  let s := if last && bool_decide (drained = []) then ses x else on_output (ses x) drained in
  id s = sid /\ seq s = wrap 64 (zlen (concat (sink (co_deliver (co x) drained last)))) /\
  ingest_seq s = ingest_seq (ses x) /\ exit_emitted s = exit_emitted (ses x) /\
  alive s = alive (ses x) /\
  (rpc x <> ReaderDone -> hub s = frames_of sid 0 (sink (co_deliver (co x) drained last))).
Proof.
  intros Hsid Hpc [Hid Hco Hinf Hseq Hing Hcl Hex Hj Hd (tl & Hhub & Htl & _)] s.
  rewrite concat_deliver, zlen_app.
  rewrite Hpc in Hinf. cbn [inflight] in Hinf.
  unfold s, co_deliver. cbn [sink]. destruct (last && bool_decide (drained = [])) eqn:E.
  - apply andb_true_iff in E as [_ E%bool_decide_eq_true]. subst drained.
    rewrite zlen_nil, Z.add_0_r. split_and!; try done.
    intros Hr. by rewrite Hhub, (Htl Hr), app_nil_r.
  - unfold on_output. rewrite data_encodes by (rewrite ?Hid; done).
    cbn [set_stream id seq ingest_seq exit_emitted alive hub].
    rewrite Hseq, wrap_add_wrap_l. split_and!; try done.
    intros Hr. rewrite Hhub, (Htl Hr), app_nil_r, frames_of_app, Hid.
    by rewrite Z.add_0_l.
Qed.

Context (Hjson : forall status, zlen (exit_json status) <= MAX_STREAM_FRAME_PAYLOAD).

Lemma sys_step_inv sid x x' :
  zlen sid <= MAX_SESSION_ID_BYTES -> sys_inv sid x -> sys_step x x' -> sys_inv sid x'.
Proof.
  intros Hsid Hi Hs. pose proof (sys_step_co _ _ Hs (si_co _ _ Hi)) as Hco'.
  pose proof Hi as [Hid Hco Hinf Hseq Hing Hcl Hex Hj Hd (tl & Hhub & Htl & Htd)].
  destruct Hs as [x chunk panics now Hr Hp Hne|x Hr|x now drained s Hpc Hf|x now drained s Hpc Hf|
                  x drained last Hpc|x status Hr Hpc|x s Hc].
  - destruct (tee_stream panics (ses x) chunk) as (T1 & T2 & T3 & T4 & T5 & T6).
    rewrite Hr in *. specialize (Htl ltac:(done)) as ->.
    split; cbn [ses co rpc co_push pc sink accepted inner]; try done; try congruence.
    + rewrite T3, Hing, Hcl. simpl. by rewrite wrap_add_wrap_l, zlen_app.
    + by rewrite push_keeps_closed.
    + exists []. rewrite T5. split_and!; try done.
  - rewrite Hr in *. specialize (Htl ltac:(done)) as ->.
    split; cbn [ses co rpc co_close pc sink accepted inner reader_stops set_life id seq ingest_seq
                exit_emitted alive hub close closed]; try done.
    exists []. split_and!; try done.
  - destruct (flush_drained _ _ _ _ (or_introl Hf)) as [-> Hcs].
    destruct Hco as (_ & _ & _ & _ & Hm & _).
    split; cbn [ses co rpc pc sink accepted inner inflight]; try done; [congruence| |by exists tl].
    intros Hr. by destruct (Hj Hr) as [E _]; rewrite E in Hpc.
  - destruct (flush_drained _ _ _ _ (or_intror Hf)) as [-> Hcs].
    destruct Hco as (_ & _ & _ & _ & Hm & _).
    split; cbn [ses co rpc pc sink accepted inner inflight]; try done; [congruence| |by exists tl].
    intros Hr. by destruct (Hj Hr) as [E _]; rewrite E in Hpc.
  - assert (Hnd : rpc x <> ReaderDone) by (intros Hr; destruct (Hj Hr) as [E _]; congruence).
    destruct (deliver_inv sid x drained last Hsid Hpc Hi) as (D1 & D2 & D3 & D4 & D5 & D6).
    split; cbn [ses co rpc]; try done; try congruence.
    + unfold co_deliver. cbn [pc]. destruct last; unfold MAX_PENDING_BYTES, OUTPUT_FLUSH_SIZE; simpl; done.
    + by rewrite D3.
    + intros Hr. rewrite D5. by apply Hd.
    + exists []. rewrite app_nil_r. split; [by apply D6|]. by split.
  - rewrite Hr in *. specialize (Htl ltac:(done)) as ->.
    unfold reader_finishes, emit_exit. rewrite Hex. cbn [bool_decide].
    assert (He : is_ok (to_bytes (Framing.exit exit_json (id (ses x)) (seq (ses x)) status)) = true).
    { unfold to_bytes, encode. cbn [Framing.exit session_id Framing.payload]. rewrite Hid.
      rewrite (proj2 (Z.ltb_ge _ _) Hsid). by rewrite (proj2 (Z.ltb_ge _ _) (Hjson status)). }
    rewrite He. cbn.
    split; cbn [ses co rpc set_life set_stream id seq ingest_seq exit_emitted alive hub]; try done.
    + split; [done|]. by apply Hd.
    + intros _. by apply Hd.
    + eexists. split; [by rewrite Hhub, app_nil_r|]. split; [done|]. intros _.
      exists status. by rewrite Hid.
  - destruct (control_same_stream _ _ Hc) as (C1 & C2 & C3 & C4 & C5 & C6).
    split; cbn [ses co rpc]; try done; try congruence.
    + rewrite C6. done.
    + rewrite C6. done.
    + exists tl. rewrite C5, C2. auto.
Qed.

Lemma sys_reachable sid cols rows cap x :
  zlen sid <= MAX_SESSION_ID_BYTES -> rtc sys_step (sys_new sid cols rows cap) x -> sys_inv sid x.
Proof.
  intros Hsid. apply rtc_invariant; [intros; by eapply sys_step_inv|].
  split; cbn; try done. by exists [].
Qed.

(** C5: under every interleaving of reads, flushes, calls from clients and the
    end of the shell, the stream of a session carries its data frames and, after
    the last of them, exactly one exit frame whose sequence number is the number
    of bytes delivered. When the exit frame is out, every byte read and not
    dropped by the overflow cap has been delivered, so no exit overtakes
    output. *)
Theorem exit_follows_all_output sid cols rows cap x :
  zlen sid <= MAX_SESSION_ID_BYTES -> rtc sys_step (sys_new sid cols rows cap) x ->
  (rpc x <> ReaderDone ->
     hub (ses x) = frames_of sid 0 (sink (co x)) /\ exit_emitted (ses x) = false) /\
  (rpc x = ReaderDone -> exists status,
     hub (ses x) = frames_of sid 0 (sink (co x)) ++
       [Framing.exit exit_json sid (wrap 64 (zlen (concat (sink (co x))))) status] /\
     (truncated (inner (co x)) = false -> concat (sink (co x)) = accepted (co x)) /\
     zlen (accepted (co x)) = zlen (concat (sink (co x))) + lost (co x) /\
     alive (ses x) = false).
Proof.
  intros Hsid Hr. destruct (sys_reachable sid cols rows cap x Hsid Hr)
    as [Hid Hco Hinf Hseq Hing Hcl Hex Hj Hd (tl & Hhub & Htl & Htd)]. split.
  - intros Hnd. rewrite Hhub, (Htl Hnd), app_nil_r, Hex. split; [done|].
    by apply bool_decide_eq_false.
  - intros Hdone. destruct (Htd Hdone) as [status ->]. destruct (Hj Hdone) as [Hpc Ha].
    exists status. rewrite Hhub, Hseq.
    destruct Hco as (Hs & Hl & _ & Ht & _ & Hdr). unfold drained_for_good, carried in *.
    rewrite Hpc in *. destruct Hdr as [_ Hp]. rewrite Hp in *. cbn [inflight app] in *.
    rewrite app_nil_r in *. split_and!; try done.
    intros Hf. rewrite (Ht Hf), Z.add_0_r in Hl. apply sublist_full; [done|].
    unfold zlen in Hl. lia.
Qed.

Lemma frames_of_stream sid base bs :
  0 <= base -> base + zlen (concat bs) < 2 ^ 64 ->
  stream_from base ((fun f => (Framing.seq f, Framing.payload f)) <$> frames_of sid base bs).
Proof.
  revert base. induction bs as [|b bs IH]; intros base Hb Hl; [done|]. simpl in *.
  rewrite zlen_app in Hl. rewrite wrap_small by zlen_lia. split; [done|].
  apply IH; zlen_lia.
Qed.

(** The delivered and the ingested counter of a session count one stream:
    they differ by what is still buffered plus every byte the coalescer's cap
    has ever dropped, and the data frames number the delivered bytes
    consecutively. After a drop the two counters never meet again, although a
    snapshot is stamped with one and the frames with the other. *)
Theorem sequences_differ_by_loss sid cols rows cap x :
  zlen sid <= MAX_SESSION_ID_BYTES -> rtc sys_step (sys_new sid cols rows cap) x ->
  zlen (accepted (co x)) < 2 ^ 64 ->
  ingest_seq (ses x) = seq (ses x) + zlen (inflight (pc (co x)))
                       + zlen (Pty.pending (inner (co x))) + lost (co x) /\
  0 <= lost (co x) /\
  stream_from 0 ((fun f => (Framing.seq f, Framing.payload f)) <$> frames_of sid 0 (sink (co x))).
Proof.
  intros Hsid Hr Hlt. destruct (sys_reachable sid cols rows cap x Hsid Hr)
    as [Hid Hco Hinf Hseq Hing Hcl Hex Hj Hd _].
  destruct Hco as (_ & Hl & H0 & _ & _ & _). unfold carried in Hl. rewrite !zlen_app in Hl.
  pose proof (zlen_nonneg (concat (sink (co x)))). pose proof (zlen_nonneg (accepted (co x))).
  pose proof (zlen_nonneg (inflight (pc (co x)))).
  pose proof (zlen_nonneg (Pty.pending (inner (co x)))).
  split_and!; [|done|].
  - rewrite Hseq, Hing, !wrap_small by lia. lia.
  - apply frames_of_stream; lia.
Qed.

(** * A snapshot against the running tee *)

Inductive tee_pc := TeeIdle | TeeRinged (c : bytes) | TeeFed (c : bytes) | TeePended (c : bytes).

Record tee_sys := mkTee {
  t_ses : Session (P := P);
  t_pc : tee_pc;
  t_fed : Z;                                (* bytes the emulator was fed *)
  t_loaded : option Z;                      (* the sequence a snapshot call read *)
  t_taken : list (DaemonSnapshot * Z)       (* snapshots, and [t_fed] when serialized *)
}.

Inductive tee_step : tee_sys -> tee_sys -> Prop :=
| ts_ring t c :
    t_pc t = TeeIdle ->
    tee_step t (mkTee (append_ring (t_ses t) c) (TeeRinged c) (t_fed t) (t_loaded t) (t_taken t))
| ts_feed t c panics :
    t_pc t = TeeRinged c ->
    tee_step t (mkTee (feed_emulator panics (t_ses t) c) (TeeFed c) (t_fed t + zlen c) (t_loaded t)
                  (t_taken t))
| ts_pend t c :
    t_pc t = TeeFed c ->
    tee_step t (mkTee (note_pending (t_ses t) (EvOutput c)) (TeePended c) (t_fed t) (t_loaded t)
                  (t_taken t))
| ts_advance t c :
    t_pc t = TeePended c ->
    tee_step t (mkTee (advance_ingest (t_ses t) (zlen c)) TeeIdle (t_fed t) (t_loaded t) (t_taken t))
| ts_load t :
    tee_step t (mkTee (t_ses t) (t_pc t) (t_fed t) (Some (ingest_seq (t_ses t))) (t_taken t))
| ts_serialize t q opts snap s :
    t_loaded t = Some q -> snapshot_at false q (t_ses t) opts = (Some snap, s) ->
    tee_step t (mkTee s (t_pc t) (t_fed t) None (t_taken t ++ [(snap, t_fed t)])).

Definition tee_new (sid : bytes) (cols rows cap : Z) : tee_sys :=
  mkTee (spawn_with_ring_cap sid cols rows cap) TeeIdle 0 None [].

Definition in_tee (pc : tee_pc) : Z :=
  match pc with TeeFed c | TeePended c => zlen c | _ => 0 end.

Definition tee_inv (t : tee_sys) : Prop :=
  t_fed t < 2 ^ 64 ->
  ingest_seq (t_ses t) = t_fed t - in_tee (t_pc t) /\ 0 <= ingest_seq (t_ses t) /\
  (forall q, t_loaded t = Some q -> q <= ingest_seq (t_ses t)) /\
  Forall (fun r => output_sequence r.1 <= r.2) (t_taken t).

Lemma snapshot_at_sequence q s opts snap s' :
  snapshot_at false q s opts = (Some snap, s') -> output_sequence snap = q /\ s' = s.
Proof.
  unfold snapshot_at. destruct (emulator s) as [e|]; [|done]. intros [= <- <-].
  unfold snapshot. by destruct (vt_size _), (vt_alternate_screen _).
Qed.

Lemma tee_step_inv t t' : tee_inv t -> tee_step t t' -> tee_inv t'.
Proof.
  intros Hi Hs Hl.
  destruct Hs as [t c Hp|t c panics Hp|t c Hp|t c Hp|t|t q opts snap s Hq Hs]; cbn in *.
  - destruct (Hi Hl) as (H1 & H2 & H3 & H4). rewrite Hp in H1. simpl in H1.
    unfold append_ring. destruct (append_scrollback_capped _ _ _ _). by split_and!.
  - pose proof (zlen_nonneg c). destruct (Hi ltac:(lia)) as (H1 & H2 & H3 & H4).
    rewrite Hp in H1. simpl in H1.
    assert (E : ingest_seq (feed_emulator panics (t_ses t) c) = ingest_seq (t_ses t)).
    { unfold feed_emulator. by repeat case_match. }
    rewrite E. split_and!; [lia|done..].
  - destruct (Hi Hl) as (H1 & H2 & H3 & H4). rewrite Hp in H1. simpl in H1.
    destruct (note_pending_stream (t_ses t) (EvOutput c)) as (_ & _ & -> & _). by split_and!.
  - pose proof (zlen_nonneg c). destruct (Hi Hl) as (H1 & H2 & H3 & H4). rewrite Hp in H1. simpl in H1.
    rewrite wrap_small by lia. split_and!; [lia|lia| |done].
    intros q Hq. specialize (H3 q Hq). lia.
  - destruct (Hi Hl) as (H1 & H2 & H3 & H4). split_and!; [done|done| |done].
    intros q [= <-]. done.
  - destruct (snapshot_at_sequence _ _ _ _ _ Hs) as [Hsq ->].
    destruct (Hi Hl) as (H1 & H2 & H3 & H4). split_and!; [done|done|done|].
    apply Forall_app. split; [done|]. constructor; [|constructor]. simpl. rewrite Hsq.
    specialize (H3 q Hq). destruct (t_pc t); simpl in *; zlen_lia.
Qed.

(** A snapshot taken while the reader is running is never stamped with a
    sequence number beyond the bytes its content shows, so trimming the stream
    by it never loses output; when no read is in flight the stamp is exact. *)
Theorem snapshot_sequence_never_ahead sid cols rows cap t :
  rtc tee_step (tee_new sid cols rows cap) t -> t_fed t < 2 ^ 64 ->
  Forall (fun r => output_sequence r.1 <= r.2) (t_taken t) /\
  (t_pc t = TeeIdle -> ingest_seq (t_ses t) = t_fed t).
Proof.
  intros Hr Hl. assert (Hi : tee_inv t).
  { revert Hr. apply rtc_invariant; [exact tee_step_inv|]. intros _. by split_and!. }
  destruct (Hi Hl) as (H1 & _ & _ & H4). split; [done|].
  intros Hp. rewrite H1, Hp. simpl. lia.
Qed.
End system.

(** Witnesses on a session called "s" over the recording parser. *)
Module Example1.
Definition ej : ExitStatus -> bytes := fun _ => str "{}".
Definition start : sys (P := RecordingVt.t) := sys_new (str "s") 80 24 4096.
Definition s1 := tee false (ses start) (str "hi").
Definition c1 := co_push (co start) (str "hi") 0.
Definition finished : sys := mkSys
  (reader_finishes ej (mkExitStatus (Some 0) None) (on_output (reader_stops s1) (str "hi")))
  (co_deliver (mkCS (mkCoalescer [] None true false) (Calling (str "hi") true) [] (str "hi") 0)
     (str "hi") true) ReaderDone.

Lemma stream_run : rtc (sys_step ej) start finished.
Proof.
  eapply rtc_l; [apply (sy_read ej _ (str "hi") false 0); [reflexivity|reflexivity|discriminate]|].
  eapply rtc_l; [apply sy_eof; reflexivity|].
  eapply rtc_l; [eapply (sy_final ej _ 0); reflexivity|].
  eapply rtc_l; [eapply (sy_deliver ej _ (str "hi") true); reflexivity|].
  eapply rtc_l; [apply (sy_join ej _ (mkExitStatus (Some 0) None)); reflexivity|].
  apply rtc_refl.
Qed.
End Example1.

Lemma exit_follows_all_output_witness :
  exists status, hub (ses Example1.finished) =
    [data (str "s") 2 (str "hi")] ++ [Framing.exit Example1.ej (str "s") 2 status].
Proof.
  destruct (exit_follows_all_output Example1.ej ltac:(discriminate) (str "s") 80 24 4096
    Example1.finished ltac:(discriminate) Example1.stream_run) as [_ H].
  destruct (H eq_refl) as (status & Hh & _). exists status. exact Hh.
Defined.

Lemma sequences_differ_by_loss_witness :
  ingest_seq (ses Example1.finished) = 2 /\
  stream_from 0 ((fun f => (Framing.seq f, Framing.payload f))
                   <$> frames_of (str "s") 0 (sink (co Example1.finished))).
Proof.
  destruct (sequences_differ_by_loss Example1.ej ltac:(discriminate) (str "s") 80 24 4096
    Example1.finished ltac:(discriminate) Example1.stream_run ltac:(reflexivity)) as (H & _ & Hs).
  split; [exact H|exact Hs].
Defined.

(** The reader feeds a chunk between the two halves of a snapshot: its content
    is ahead of its stamp by that chunk. *)
Module Example2.
Definition t0 : tee_sys (P := RecordingVt.t) := tee_new (str "s") 80 24 4096.
Definition t1 : tee_sys (P := RecordingVt.t) :=
  let s := feed_emulator false (append_ring (t_ses t0) (str "hi")) (str "hi") in
  match snapshot_at false 0 s default_options with
  | (Some snap, s) => mkTee s (TeeFed (str "hi")) 2 None [(snap, 2)]
  | _ => t0
  end.

Lemma tee_run : rtc tee_step t0 t1.
Proof.
  eapply rtc_l; [apply ts_load|].
  eapply rtc_l; [apply (ts_ring _ (str "hi")); reflexivity|].
  eapply rtc_l; [eapply (ts_feed _ _ false); reflexivity|].
  eapply rtc_l; [eapply (ts_serialize _ 0 default_options); reflexivity|].
  apply rtc_refl.
Qed.

Example stamp_lags :
  (fun r : DaemonSnapshot * Z => (output_sequence r.1, scrollback_ansi r.1)) <$> t_taken t1
    = [(0, str "hi")].
Proof. reflexivity. Qed.
End Example2.

Lemma snapshot_sequence_never_ahead_witness :
  Forall (fun r => output_sequence r.1 <= r.2) (t_taken Example2.t1).
Proof.
  apply (snapshot_sequence_never_ahead (str "s") 80 24 4096 Example2.t1 Example2.tee_run).
  reflexivity.
Defined.
