(* ===== verification/Checkpointer.v ===== *)
(** The checkpointer (grove-daemon/src/checkpointer.rs): it owns the history
    writers of the live sessions and persists the dirty ones on a tick, by an
    incremental append or a full checkpoint. What it reads from a session is the
    interface [CheckpointSource], which Session implements. The disk of each
    session directory is a DiskIO world. *)

From S2P Require Import Prelude ModeState Emulator HistoryLog DiskIO History Session.

#[local] Open Scope io_scope.

(** * The source of a checkpoint *)

Class CheckpointSource (S : Type) := {
  src_session_id : S -> bytes;
  src_is_alive : S -> bool;
  src_applied_size : S -> Z * Z;                       (* cols, rows *)
  src_ring_tail : S -> bytes;
  src_snapshot : S -> option DaemonSnapshot;
  src_take_pending : S -> PendingTake * S;
  src_output_sequence : S -> Z;
  src_cwd : S -> option bytes
}.

(** A live session, its emulator behaving. *)
#[export] Instance session_source {P} `{Vt100 P} : CheckpointSource (Session (P := P)) := {
  src_session_id := Session.id;
  src_is_alive := alive;
  src_applied_size := session_applied_size;
  src_ring_tail := ring;
  src_snapshot s := (session_snapshot false s default_options).1;
  src_take_pending := session_take_pending;
  src_output_sequence := ingest_seq;
  src_cwd s := emulator s ≫= fun e => cwd (modes e)
}.

(** The laws a client of a source relies on: taking drains, and changes nothing
    else that is read. *)
Class CheckpointSourceLaws (S : Type) `{CheckpointSource S} : Prop := {
  take_drains : forall s : S,
    (src_take_pending (src_take_pending s).2).1 = mkTake [] false;
  take_keeps : forall s : S, let s' := (src_take_pending s).2 in
    src_session_id s' = src_session_id s /\ src_ring_tail s' = src_ring_tail s /\
    src_snapshot s' = src_snapshot s /\ src_applied_size s' = src_applied_size s /\
    src_output_sequence s' = src_output_sequence s /\ src_cwd s' = src_cwd s
}.

#[export] Instance session_source_laws {P} `{Vt100 P} : CheckpointSourceLaws (Session (P := P)).
Proof.
  split; [done|]. intros s s1. subst s1. cbn. split_and!; try done.
  unfold session_snapshot, snapshot_at. cbn. by destruct (emulator s).
Qed.

Section checkpointer.
Context `{Serde} {S : Type} `{CheckpointSource S}.

Definition build_checkpoint (source : S) : Checkpoint :=
  let scrollback := src_ring_tail source in
  match src_snapshot source with
  | Some snap =>
      mkCheckpoint (snapshot_ansi snap) scrollback (rehydrate_sequences snap)
        (Emulator.pending_escape_tail snap) (or_else (snap_cwd snap) (src_cwd source))
        (snap_cols snap) (snap_rows snap) (is_alternate_screen snap)
        (kitty_keyboard_flags snap) (snap_title snap) (output_sequence snap) 0 0
  | None =>
      let (cols, rows) := src_applied_size source in
      mkCheckpoint [] scrollback [] [] (src_cwd source) cols rows false 0 None
        (src_output_sequence source) 0 0
  end.

(** * Persisting one session *)

Inductive PersistOutcome := PersistOk | Retry | Disabled.

Record Entry := mkEntry { source : S; writer : HistoryWriter }.

(** Run an operation of the writer. *)
Definition on_writer {A} (m : IO HistoryWriter A) : IO Entry A := fun e wd =>
  match m (writer e) wd with
  | Done r w wd => Done r (mkEntry (source e) w) wd
  | Crashed st => Crashed st
  end.

Definition take_pending : IO Entry PendingTake := fun e wd =>
  let (t, s) := src_take_pending (source e) in
  Done (Ok t) (mkEntry s (writer e)) wd.

Definition full_checkpoint (now_ms : Z) : IO Entry unit :=
  e <-- get;;
  on_writer (checkpoint (build_checkpoint (source e)) now_ms).

Definition full_checkpoint_outcome (now_ms : Z) : IO Entry PersistOutcome :=
  r <-- attempt (full_checkpoint now_ms);;
  ret (match r with Ok _ => PersistOk | Err _ => Disabled end).

Definition on_append_failure : IO Entry PersistOutcome :=
  on_writer force_full_anchor ;;; ret Retry.

Definition persist (final_flush : bool) (now_ms : Z) : IO Entry PersistOutcome :=
  e <-- get;;
  if final_flush || needs_full_anchor (writer e) then full_checkpoint_outcome now_ms
  else
    take <-- take_pending;;
    if taken_overflowed take then full_checkpoint_outcome now_ms
    else if bool_decide (taken_records take = []) then ret PersistOk
    else
      r <-- attempt (on_writer (append_increments (taken_records take)));;
      match r with
      | Ok Appended => ret PersistOk
      | Ok NeedsCheckpoint => full_checkpoint_outcome now_ms
      | Err _ => on_append_failure
      end.

(** * The registry *)

Record Checkpointer := mkCheckpointer {
  sessions : gmap bytes Entry;
  dirty : gmap bytes Z
}.

Definition checkpointer_new : Checkpointer := mkCheckpointer ∅ ∅.

Definition bump_version (d : gmap bytes Z) (id : bytes) : gmap bytes Z :=
  <[id := wrap 64 (default 0 (d !! id) + 1)]> d.

Definition mark_dirty (c : Checkpointer) (id : bytes) : Checkpointer :=
  match sessions c !! id with
  | None => c
  | Some _ => mkCheckpointer (sessions c) (bump_version (dirty c) id)
  end.

Definition insert_entry (c : Checkpointer) (id : bytes) (e : Entry) : Checkpointer :=
  mkCheckpointer (<[id := e]> (sessions c)) (dirty c).

(** The three ways to register, on the directory of the session. *)
Definition register (open : IO unit HistoryWriter) (c : Checkpointer) (s : S) (wd : World) :
    outcome Checkpointer unit :=
  match open tt wd with
  | Done (Ok w) _ wd =>
      Done (Ok tt)
        (mark_dirty (insert_entry c (src_session_id s) (mkEntry s w)) (src_session_id s)) wd
  | Done (Err e) _ wd => Done (Err e) c wd
  | Crashed st => Crashed st
  end.

Definition ck_open_session (m : SessionMeta) := register (open_session m).
Definition ck_register_writer := register register_writer.

(** [register_writer], then [reopen] on the new writer, which is dropped when
    that fails. *)
Definition open_for_reopen : IO unit HistoryWriter := fun u wd =>
  match register_writer u wd with
  | Done (Ok w) _ wd =>
      match reopen w wd with
      | Done (Ok _) w wd => Done (Ok w) tt wd
      | Done (Err e) _ wd => (fs_unlock ;;; fail e) tt wd
      | Crashed st => Crashed st
      end
  | Done (Err e) _ wd => Done (Err e) tt wd
  | Crashed st => Crashed st
  end.

Definition ck_reopen_session := register open_for_reopen.

Definition remove_session (c : Checkpointer) (id : bytes) : Checkpointer :=
  mkCheckpointer (delete id (sessions c)) (delete id (dirty c)).

(** [remove_dir_all]: every file of the directory, best effort. *)
Definition remove_dir_all : IO unit unit :=
  attempt (fs_remove META_JSON) ;;;
  attempt (fs_remove CHECKPOINT_JSON) ;;;
  attempt (fs_remove CHECKPOINT_TMP) ;;;
  attempt (fs_remove OUTPUT_LOG) ;;;
  ret tt.

Definition close_session (c : Checkpointer) (id : bytes) (code : option Z) (now_ms : Z)
    (wd : World) : outcome Checkpointer unit :=
  let stamped : outcome unit unit :=
    match sessions c !! id with
    | None => Done (Ok tt) tt wd
    | Some e =>
        match stamp_ended code now_ms (writer e) wd with
        | Done _ _ wd => fs_unlock tt wd
        | Crashed st => Crashed st
        end
    end in
  match stamped with
  | Done _ _ wd =>
      match remove_dir_all tt wd with
      | Done _ _ wd => Done (Ok tt) (remove_session c id) wd
      | Crashed st => Crashed st
      end
  | Crashed st => Crashed st
  end.

Definition clear_dirty_if_unchanged (d : gmap bytes Z) (id : bytes) (version : Z) : gmap bytes Z :=
  if bool_decide (d !! id = Some version) then delete id d else d.

(** One session of a tick; [busy] says whether its write is in flight, and
    [meanwhile] is what other threads do to the dirty map during the write. *)
Definition tick_session (busy : bool) (now_ms : Z) (meanwhile : gmap bytes Z -> gmap bytes Z)
    (c : Checkpointer) (id : bytes) (version : Z) (wd : World) : outcome Checkpointer unit :=
  match sessions c !! id with
  | None => Done (Ok tt) (mkCheckpointer (sessions c) (delete id (dirty c))) wd
  | Some e =>
      if busy then Done (Ok tt) c wd
      else
        match persist false now_ms e wd with
        | Done r e wd =>
            let c := mkCheckpointer (<[id := e]> (sessions c)) (meanwhile (dirty c)) in
            Done (Ok tt)
              (match r with
               | Ok PersistOk =>
                   mkCheckpointer (sessions c) (clear_dirty_if_unchanged (dirty c) id version)
               | Ok Retry => c
               | _ => remove_session c id
               end) wd
        | Crashed st => Crashed st
        end
  end.

(** The worlds of the session directories, where one that was never made is
    empty. A pass over them is [None] when the machine stopped. *)
Definition dir_of (ws : gmap bytes World) (id : bytes) : World :=
  default (mkWorld (fun _ => []) false []) (ws !! id).

Fixpoint tick_list (now_ms : Z) (l : list (bytes * Z)) (c : Checkpointer) (ws : gmap bytes World) :
    option (Checkpointer * gmap bytes World) :=
  match l with
  | [] => Some (c, ws)
  | (id, version) :: l =>
      match tick_session false now_ms (fun d => d) c id version (dir_of ws id) with
      | Done _ c wd => tick_list now_ms l c (<[id := wd]> ws)
      | Crashed _ => None
      end
  end.

Definition tick (now_ms : Z) (c : Checkpointer) (ws : gmap bytes World) :
    option (Checkpointer * gmap bytes World) := tick_list now_ms (map_to_list (dirty c)) c ws.

(** The final flush: a full checkpoint of every session whose outcome is not
    acted on, then the dirty map is cleared. [meanwhile] as above. *)
Fixpoint flush_list (now_ms : Z) (l : list (bytes * Entry)) (c : Checkpointer) (ws : gmap bytes World) :
    option (Checkpointer * gmap bytes World) :=
  match l with
  | [] => Some (c, ws)
  | (id, e) :: l =>
      match persist true now_ms e (dir_of ws id) with
      | Done _ e wd =>
          flush_list now_ms l (mkCheckpointer (<[id := e]> (sessions c)) (dirty c))
            (<[id := wd]> ws)
      | Crashed _ => None
      end
  end.

Definition flush_all (now_ms : Z) (meanwhile : Checkpointer -> Checkpointer) (c : Checkpointer)
    (ws : gmap bytes World) : option (Checkpointer * gmap bytes World) :=
  match flush_list now_ms (map_to_list (sessions c)) c ws with
  | Some (c, ws) => Some (mkCheckpointer (sessions (meanwhile c)) ∅, ws)
  | None => None
  end.

Fixpoint close_list (now_ms : Z) (l : list bytes) (c : Checkpointer) (ws : gmap bytes World) :
    option (Checkpointer * gmap bytes World) :=
  match l with
  | [] => Some (c, ws)
  | id :: l =>
      match close_session c id None now_ms (dir_of ws id) with
      | Done _ c wd => close_list now_ms l c (<[id := wd]> ws)
      | Crashed _ => None
      end
  end.

Definition shutdown_all (now_ms : Z) (c : Checkpointer) (ws : gmap bytes World) :
    option (Checkpointer * gmap bytes World) :=
  match flush_all now_ms (fun c => c) c ws with
  | Some (c, ws) => close_list now_ms (fst <$> map_to_list (sessions c)) c ws
  | None => None
  end.
End checkpointer.

(** * What persisting leaves on disk *)

Section persist.
Context `{SerdeLaws} {S : Type} `{CheckpointSource S}.

(** The disk holds a full checkpoint of the source at a fresh generation and a
    log that extends it by nothing. *)
Definition anchored (now_ms : Z) (e : Entry (S := S)) (wd : World) : Prop :=
  exists g c, c = with_generation (build_checkpoint (source e)) g now_ms /\
    current (store wd CHECKPOINT_JSON) = Some (checkpoint_to_json c) /\
    current (store wd OUTPUT_LOG) = Some (encode_log_header g) /\
    in_sync (writer e) (store wd) g [] /\ needs_full_anchor (writer e) = false.

Lemma checkpoint_healthy cp now w st own g groups :
  in_sync w st g groups ->
  exists st', checkpoint cp now w (mkWorld st own []) =
    Done (Ok tt) (mkHistoryWriter (Some (next_generation w)) (Some LOG_HEADER_BYTES) 0 false
                    (log_max_bytes w)) (mkWorld st' own []) /\
    current (st' CHECKPOINT_JSON) =
      Some (checkpoint_to_json (with_generation cp (next_generation w) now)) /\
    current (st' OUTPUT_LOG) = Some (encode_log_header (next_generation w)) /\
    (forall c, survives (st' META_JSON) c -> survives (st META_JSON) c).
Proof.
  intros (Hg & _ & Hb).
  assert (Hbn : log_bytes w <> None) by (destruct Hb as [[-> _]|[_ ->]]; done).
  rewrite checkpoint_resolved by (rewrite ?Hg; done).
  set (new := with_generation cp (next_generation w) now).
  change (cp_generation new) with (next_generation w).
  eexists. split; [unfold bind, write_durable, attempt, fs_write, fs_sync, fs_rename, fs_sync_dir, prim, put, ret;
    cbn [oracle store owned tail]; reflexivity|].
  split_and!; [done|done|]. intros c Hc. by apply settle_survives in Hc.
Qed.

Lemma full_checkpoint_healthy now e st own g groups :
  in_sync (writer e) st g groups ->
  exists e' wd', full_checkpoint_outcome (S := S) now e (mkWorld st own []) =
      Done (Ok PersistOk) e' wd' /\
    oracle wd' = [] /\ source e' = source e /\ anchored now e' wd'.
Proof.
  intros Hs.
  destruct (checkpoint_healthy (build_checkpoint (source e)) now (writer e) st own g groups Hs)
    as (st' & Hc & H1' & H2' & _).
  unfold full_checkpoint_outcome, full_checkpoint, attempt, bind, get, on_writer. rewrite Hc.
  do 2 eexists. split; [done|]. split; [done|]. split; [done|].
  exists (next_generation (writer e)). eexists. split_and!; try done.
  split; [done|]. split; [done|]. right. by rewrite encode_log_nil.
Qed.

(** What a pass made of entry [e]: an anchor when one was due; otherwise the
    session is drained and what was taken is appended, or, on an overflow or at
    the log's cap, superseded by an anchor. *)
Definition persisted_by (now : Z) (e : Entry (S := S)) (st : Store) (g : Z)
    (groups : list (list HistoryRecord)) (e' : Entry (S := S)) (wd' : World) : Prop :=
  if needs_full_anchor (writer e)
  then source e' = source e /\ anchored now e' wd'
  else
    let (t, s) := src_take_pending (source e) in
    source e' = s /\
    (anchored now e' wd' /\
       (taken_overflowed t = true \/
        log_max_bytes (writer e) < zlen (encode_log g (stamp 0 (groups ++ [taken_records t])))) \/
     taken_overflowed t = false /\ needs_full_anchor (writer e') = false /\
     in_sync (writer e') (store wd') g
       (if bool_decide (taken_records t = []) then groups else groups ++ [taken_records t]) /\
     forall f, f <> OUTPUT_LOG -> store wd' f = st f).

Lemma persist_healthy now e st own g groups :
  in_sync (writer e) st g groups ->
  exists e' wd', persist (S := S) false now e (mkWorld st own []) = Done (Ok PersistOk) e' wd' /\
    oracle wd' = [] /\ persisted_by now e st g groups e' wd'.
Proof.
  intros Hs. unfold persist, persisted_by, bind at 1, get at 1. cbn [orb].
  destruct (needs_full_anchor (writer e)) eqn:En; [by apply (full_checkpoint_healthy now e st own g groups)|].
  unfold bind at 1, take_pending.
  destruct (src_take_pending (source e)) as [t s] eqn:Et.
  set (e1 := mkEntry s (writer e)).
  destruct (taken_overflowed t) eqn:Eo.
  { destruct (full_checkpoint_healthy now e1 st own g groups Hs) as (e' & wd' & H1' & H2' & H3' & H4').
    exists e', wd'. split_and!; [done|done|done|]. left. auto. }
  destruct (decide (taken_records t = [])) as [En0|En0].
  { rewrite bool_decide_eq_true_2 by done. exists e1, (mkWorld st own []).
    split_and!; [done|done|done|]. right. done. }
  rewrite (bool_decide_eq_false_2 (taken_records t = [])) by done.
  pose proof (append_healthy (writer e) st own g groups (taken_records t) Hs En0) as Ha.
  unfold bind at 1, attempt, on_writer. cbn [writer source e1].
  destruct (append_increments _ _ _) as [[[]|er] w' wd'|]; try done.
  - destruct Ha as (Ho & Hsy & _ & _ & Hn & Hf). exists (mkEntry s w'), wd'.
    split; [done|]. split; [done|]. split; [done|]. right. rewrite <- En. auto.
  - destruct Ha as (-> & -> & Hcap).
    destruct (full_checkpoint_healthy now e1 st own g groups Hs) as (e' & wd' & H1' & H2' & H3' & H4').
    exists e', wd'. split_and!; [done|done|done|]. left. auto.
Qed.

(** A persist pass on a healthy disk always succeeds. When the session
    needs an anchor it writes a full checkpoint of the current ring. Otherwise
    it drains the session and either appends exactly what was taken to the log,
    or, on an overflow or at the log's cap, anchors. Output is persisted either
    way. *)
Theorem persist_spec now e st own g groups :
  in_sync (writer e) st g groups ->
  exists e' wd', persist (S := S) false now e (mkWorld st own []) = Done (Ok PersistOk) e' wd' /\
    oracle wd' = [] /\ persisted_by now e st g groups e' wd'.
Proof. apply persist_healthy. Qed.
End persist.

(** * Output that arrives during a tick stays dirty *)

Section dirtiness.
Context (sid : bytes).

(** The tick's progress on one session: it has read the version, then drained
    the pending output, then acts on the outcome. *)
Inductive tick_pc := TickIdle | TickRead (version : Z) | TickTook (version : Z).

(** The reader pushes to the pending output first and marks dirty after. *)
Record dirt := mkDirt {
  d_map : gmap bytes Z;
  d_pending : PendingOutput;
  d_marking : bool;
  d_tick : tick_pc
}.

Definition dirt_new : dirt := mkDirt ∅ pending_default false TickIdle.

Inductive dirt_step : dirt -> dirt -> Prop :=
| dt_push d e :
    d_marking d = false ->
    dirt_step d (mkDirt (d_map d) (pend (d_pending d) e) true (d_tick d))
| dt_mark d :
    d_marking d = true ->
    dirt_step d (mkDirt (bump_version (d_map d) sid) (d_pending d) false (d_tick d))
| dt_read d v :
    d_tick d = TickIdle -> d_map d !! sid = Some v ->
    dirt_step d (mkDirt (d_map d) (d_pending d) (d_marking d) (TickRead v))
| dt_take d v :
    d_tick d = TickRead v ->
    dirt_step d (mkDirt (d_map d) (take_pending_output (d_pending d)).2 (d_marking d) (TickTook v))
| dt_ok d v :
    d_tick d = TickTook v ->
    dirt_step d (mkDirt (clear_dirty_if_unchanged (d_map d) sid v) (d_pending d) (d_marking d) TickIdle)
| dt_retry d v :
    d_tick d = TickTook v ->
    dirt_step d (mkDirt (d_map d) (d_pending d) (d_marking d) TickIdle).

Definition nothing_pending (p : PendingOutput) : Prop := po_records p = [] /\ overflowed p = false.

Record dirt_inv (n : nat) (d : dirt) : Prop := {
  di_low : forall v, d_map d !! sid = Some v -> 0 <= v <= Z.of_nat n;
  di_kept : nothing_pending (d_pending d) \/ d_marking d = true \/ d_map d !! sid <> None;
  di_read : forall v, d_tick d = TickRead v -> exists v', d_map d !! sid = Some v' /\ v <= v';
  di_took : forall v, d_tick d = TickTook v ->
    exists v', d_map d !! sid = Some v' /\ v <= v' /\
      (nothing_pending (d_pending d) \/ d_marking d = true \/ v < v')
}.

Lemma bump_lookup m : bump_version m sid !! sid = Some (wrap 64 (default 0 (m !! sid) + 1)).
Proof. apply lookup_insert_eq. Qed.

Lemma dirt_step_inv n d d' :
  Z.of_nat n + 1 < 2 ^ 64 -> dirt_inv n d -> dirt_step d d' -> dirt_inv (S n) d'.
Proof.
  intros Hn [Hl Hk Hr Ht] Hs.
  assert (Hl' : forall v, d_map d !! sid = Some v -> 0 <= v <= Z.of_nat (S n))
    by (intros v Hv; specialize (Hl v Hv); lia).
  destruct Hs as [d e Hm|d Hm|d v Hi Hv|d v Hi|d v Hi|d v Hi];
    split; cbn [d_map d_pending d_marking d_tick]; auto.
  - intros v Hv. destruct (Ht v Hv) as (v' & ? & ? & _). exists v'. auto.
  - intros v. rewrite bump_lookup. intros [= <-].
    destruct (d_map d !! sid) as [u|] eqn:E; simpl; [specialize (Hl u eq_refl)|];
      rewrite wrap_small by lia; lia.
  - right. right. by rewrite bump_lookup.
  - intros v Hv. destruct (Hr v Hv) as (v' & E & ?). rewrite bump_lookup, E. simpl.
    specialize (Hl v' E). rewrite wrap_small by lia. eexists. split; [done|]. lia.
  - intros v Hv. destruct (Ht v Hv) as (v' & E & ? & _). rewrite bump_lookup, E. simpl.
    specialize (Hl v' E). rewrite wrap_small by lia. eexists. split; [done|]. lia.
  - intros w [= <-]. exists v. split; [done|lia].
  - done.
  - left. done.
  - done.
  - intros w [= <-]. destruct (Hr v Hi) as (v' & ? & ?). exists v'. split_and!; [done|done|by left].
  - unfold clear_dirty_if_unchanged. case_bool_decide; intros w; [by rewrite lookup_delete_eq|auto].
  - destruct (Ht v Hi) as (v' & E & Hle & Hc). unfold clear_dirty_if_unchanged.
    case_bool_decide as Hb; [|right; right; by rewrite E].
    destruct Hc as [?|[?|?]]; [by left|by right; left|]. rewrite E in Hb. simplify_eq. lia.
  - done.
  - done.
  - done.
  - done.
Qed.

End dirtiness.


(** * Two consequences *)

Module CheckpointerExamples.
Definition vt := RecordingVt.t.
Definition e0 : Entry (S := Session (P := vt)) :=
  mkEntry (enable_history (spawn_with_ring_cap (str "s") 80 24 4096))
          (mkHistoryWriter (Some 0) (Some 0) 0 true 10000).
Definition w0 : World := mkWorld (fun f => match f with META_JSON => ToySerde.st META_JSON | _ => [] end) true [].

Definition output (e : Entry (S := Session (P := vt))) (s : string) : Entry :=
  mkEntry (tee false (source e) (str s)) (writer e).

Definition persisted (o : outcome (Entry (S := Session (P := vt))) PersistOutcome) : Entry * World :=
  match o with Done _ e w => (e, w) | Crashed _ => (e0, w0) end.

(** The anchoring checkpoint leaves the pending output of the session in place
    although the ring it stored contains it; the next pass appends it to the
    log, and a cold restore shows it twice. *)
Example anchored_output_is_repeated :
  let (e1, w1) := persisted (persist false 10 (output e0 "one ") w0) in
  let (e2, w2) := persisted (persist false 11 (output e1 "two") w1) in
  ring (source e2) = str "one two" /\
  ToySerde.restored (disk_of (store w2)) = Some (str "one one two").
Proof. vm_compute. split; reflexivity. Qed.

(** The final flush clears the whole dirty map without looking at versions:
    output that arrives after its session was written is pending and not
    dirty. *)
Example flush_forgets_late_output :
  let c := mark_dirty (mkCheckpointer {[str "s" := e0]} ∅) (str "s") in
  let late c := mark_dirty (mkCheckpointer
    (alter (fun e => output e "late") (str "s") (sessions c)) (dirty c)) (str "s") in
  match flush_all 10 late c {[str "s" := w0]} with
  | Some (c, _) =>
      dirty c = ∅ /\
      (fun e : Entry => po_records (pending (source e))) <$> sessions c !! str "s"
        = Some [Output (str "late")]
  | None => False
  end.
Proof. vm_compute. split; reflexivity. Qed.
End CheckpointerExamples.


Lemma persist_spec_witness :
  let w := mkHistoryWriter (Some 1) (Some 32) 5 false 52 in
  let s := source (CheckpointerExamples.output CheckpointerExamples.e0 "ab") in
  in_sync w ToySerde.st 1 [[Output (str "+tail")]] /\
  exists e' wd',
    persist false 11 (mkEntry s w) (mkWorld ToySerde.st true []) = Done (Ok PersistOk) e' wd' /\
    po_records (pending (source e')) = [] /\
    in_sync (writer e') (store wd') 1 [[Output (str "+tail")]; [Output (str "ab")]].
Proof.
  set (w := mkHistoryWriter (Some 1) (Some 32) 5 false 52).
  set (s := source (CheckpointerExamples.output CheckpointerExamples.e0 "ab")).
  assert (H : in_sync w ToySerde.st 1 [[Output (str "+tail")]]).
  { split; [reflexivity|]. split; [reflexivity|]. right. split; reflexivity. }
  split; [exact H|].
  destruct (persist_spec 11 (mkEntry s w) ToySerde.st true 1 _ H) as (e' & wd' & H1 & _ & Hs & Hc).
  exists e', wd'. split; [exact H1|]. split; [rewrite Hs; reflexivity|].
  destruct Hc as [(_ & [Ho|Hcap])|(_ & _ & Hsync & _)]; [discriminate|discriminate|exact Hsync].
Defined.

(** * What a tick does to the registry *)

Section tick.
Context `{SerdeLaws} {S : Type} `{CheckpointSource S}.

(** Session [id] with entry [e] has a healthy directory and a writer in step
    with it. *)
Definition healthy (e : Entry (S := S)) (wd : World) : Prop :=
  oracle wd = [] /\ exists g groups, in_sync (writer e) (store wd) g groups.

Definition persisted_at (now : Z) (e : Entry (S := S)) (wd : World) (e' : Entry) (wd' : World) : Prop :=
  exists g groups, in_sync (writer e) (store wd) g groups /\
    persisted_by now e (store wd) g groups e' wd'.

Lemma persisted_in_sync now e st g groups e' wd' :
  persisted_by now e st g groups e' wd' ->
  exists g' groups', in_sync (writer e') (store wd') g' groups'.
Proof.
  unfold persisted_by.
  assert (Ha : anchored now e' wd' -> exists g' groups', in_sync (writer e') (store wd') g' groups')
    by (intros (? & ? & _ & _ & _ & Hi & _); eauto).
  destruct (needs_full_anchor (writer e)); [intros [_ ?]; auto|].
  destruct (src_take_pending (source e)) as [t s].
  intros (_ & [[? _]|(_ & _ & Hi & _)]); eauto.
Qed.

(** One healthy session of a tick. *)
Lemma tick_session_healthy now c id v wd e :
  sessions c !! id = Some e -> dirty c !! id = Some v -> healthy e wd ->
  exists e' wd', tick_session false now (fun d => d) c id v wd =
      Done (Ok tt) (mkCheckpointer (<[id := e']> (sessions c)) (delete id (dirty c))) wd' /\
    healthy e' wd' /\ persisted_at now e wd e' wd'.
Proof.
  intros He Hv [Ho (g & groups & Hs)].
  destruct (persist_healthy now e (store wd) (owned wd) g groups Hs) as (e' & wd' & Hp & Ho' & Hc).
  exists e', wd'. unfold tick_session. rewrite He.
  destruct wd as [st own o]. cbn in Ho, Hs, Hp, Hc |- *. subst o. rewrite Hp.
  unfold clear_dirty_if_unchanged. rewrite bool_decide_eq_true_2 by done.
  split; [done|]. split; [split; [done|by eapply persisted_in_sync]|]. by exists g, groups.
Qed.

Definition fates (now : Z) (ids : list bytes) (c : Checkpointer (S := S)) (ws : gmap bytes World)
    (c' : Checkpointer) (ws' : gmap bytes World) : Prop := forall id,
  if decide (id ∈ ids) then
    dirty c' !! id = None /\
    match sessions c !! id with
    | Some e => exists e', sessions c' !! id = Some e' /\
        healthy e' (dir_of ws' id) /\ persisted_at now e (dir_of ws id) e' (dir_of ws' id)
    | None => sessions c' !! id = None
    end
  else
    dirty c' !! id = dirty c !! id /\ sessions c' !! id = sessions c !! id /\
    dir_of ws' id = dir_of ws id.

Lemma dir_of_insert ws id wd : dir_of (<[id := wd]> ws) id = wd.
Proof. unfold dir_of. by rewrite lookup_insert_eq. Qed.
Lemma dir_of_insert_ne ws id id' wd : id <> id' -> dir_of (<[id := wd]> ws) id' = dir_of ws id'.
Proof. intros. unfold dir_of. by rewrite lookup_insert_ne. Qed.

(** The rest of a tick does not touch a session it has passed. *)
Lemma fates_cons now id ids c ws c1 ws1 c' ws' :
  id ∉ ids -> fates now [id] c ws c1 ws1 -> fates now ids c1 ws1 c' ws' ->
  fates now (id :: ids) c ws c' ws'.
Proof.
  intros Hn H1' H2' k. specialize (H1' k). specialize (H2' k). revert H1' H2'.
  destruct (decide (k = id)) as [->|Hk].
  - rewrite (decide_True _ _ (list_elem_of_here id [])), (decide_False _ _ Hn),
      (decide_True _ _ (list_elem_of_here id ids)).
    intros H1' (-> & -> & ->). exact H1'.
  - assert (Hk1 : k ∉ [id]) by by rewrite list_elem_of_singleton.
    rewrite (decide_False _ _ Hk1). intros (Hd & Hs & Hw). rewrite Hd, Hs, Hw.
    destruct (decide (k ∈ ids)) as [Hi|Hi].
    + by rewrite (decide_True _ _ (list_elem_of_further k id ids Hi)).
    + assert (Hk2 : k ∉ id :: ids) by (rewrite not_elem_of_cons; done).
      by rewrite (decide_False _ _ Hk2).
Qed.

Lemma tick_list_healthy now l c ws :
  NoDup l.*1 -> (forall id v, (id, v) ∈ l -> dirty c !! id = Some v) ->
  (forall id e, id ∈ l.*1 -> sessions c !! id = Some e -> healthy e (dir_of ws id)) ->
  exists c' ws', tick_list now l c ws = Some (c', ws') /\ fates now l.*1 c ws c' ws'.
Proof.
  revert c ws. induction l as [|[id v] l IH]; intros c ws Hn Hd Hh.
  - exists c, ws. split; [done|]. intros id. by rewrite decide_False by apply not_elem_of_nil.
  - cbn [fmap list_fmap fst] in *. apply NoDup_cons in Hn as [Hni Hn].
    assert (Hv : dirty c !! id = Some v) by (apply Hd; constructor).
    assert (Hstep : exists c1 wd1, tick_session false now (fun d => d) c id v (dir_of ws id) =
                        Done (Ok tt) c1 wd1 /\ fates now [id] c ws c1 (<[id := wd1]> ws)).
    { destruct (sessions c !! id) as [e|] eqn:He.
      - destruct (tick_session_healthy now c id v (dir_of ws id) e He Hv) as (e' & wd' & Ht & Hh' & Hp).
        { apply Hh; [constructor|done]. }
        do 2 eexists. split; [exact Ht|]. intros k. destruct (decide (k ∈ [id])) as [Hk|Hk].
        + apply list_elem_of_singleton in Hk as ->. cbn [dirty sessions].
          rewrite lookup_delete_eq, He, dir_of_insert. split; [done|]. exists e'.
          split; [apply lookup_insert_eq|done].
        + rewrite list_elem_of_singleton in Hk. cbn [dirty sessions].
          by rewrite lookup_delete_ne, lookup_insert_ne, dir_of_insert_ne by done.
      - unfold tick_session. rewrite He. do 2 eexists. split; [done|]. intros k.
        destruct (decide (k ∈ [id])) as [Hk|Hk].
        + apply list_elem_of_singleton in Hk as ->. cbn [dirty sessions].
          by rewrite lookup_delete_eq, He.
        + rewrite list_elem_of_singleton in Hk. cbn [dirty sessions].
          by rewrite lookup_delete_ne, dir_of_insert_ne by done. }
    destruct Hstep as (c1 & wd1 & Ht & Hf).
    assert (Hother : forall k, k <> id -> dirty c1 !! k = dirty c !! k /\
              sessions c1 !! k = sessions c !! k /\ dir_of (<[id := wd1]> ws) k = dir_of ws k).
    { intros k Hk. specialize (Hf k). rewrite decide_False in Hf; [done|].
      by rewrite list_elem_of_singleton. }
    destruct (IH c1 (<[id := wd1]> ws) Hn) as (c' & ws' & Ht' & Hf').
    + intros k u Hk. assert (k <> id).
      { intros ->. apply Hni. apply list_elem_of_fmap. by exists (id, u). }
      destruct (Hother k) as [-> _]; [done|]. apply Hd. by constructor.
    + intros k e Hk. assert (k <> id) by (by intros ->).
      destruct (Hother k) as (_ & -> & ->); [done|]. apply Hh. by constructor.
    + exists c', ws'. cbn [tick_list]. rewrite Ht. split; [done|]. by eapply fates_cons.
Qed.

End tick.


(** * Faults, and the registry *)

Section faults.
Context `{Serde} {S : Type} `{CheckpointSourceLaws S}.

Lemma take_keeps_checkpoint (s : S) :
  build_checkpoint (src_take_pending s).2 = build_checkpoint s.
Proof.
  destruct (take_keeps s) as (_ & Hr & Hs & Ha & Ho & Hc).
  unfold build_checkpoint. by rewrite Hr, Hs, Ha, Ho, Hc.
Qed.

Lemma full_checkpoint_outcome_faults now (e : Entry (S := S)) wd :
  match full_checkpoint_outcome now e wd with
  | Done r e' _ => (r = Ok PersistOk \/ r = Ok Disabled) /\ source e' = source e
  | Crashed _ => True
  end.
Proof.
  unfold full_checkpoint_outcome, full_checkpoint, attempt, bind, get, on_writer, ret.
  destruct (checkpoint _ _ _ _) as [[[]|]|]; auto.
Qed.

(** Whatever the disk does, a persist pass that returns has not lost what it
    took from the session: the next checkpoint of the entry is the one it would
    have been before the pass, and when the pass asks for a retry, the next one
    is bound to write that checkpoint. A pass that was bound to is never
    retried: it succeeds or disables history. *)
Theorem retry_reanchors now (e : Entry (S := S)) wd :
  match persist false now e wd with
  | Crashed _ => True
  | Done r e' _ =>
      (exists o, r = Ok o) /\
      build_checkpoint (source e') = build_checkpoint (source e) /\
      (r = Ok Retry -> needs_full_anchor (writer e) = false /\ needs_full_anchor (writer e') = true)
  end.
Proof.
  unfold persist, bind at 1, get at 1. cbn [orb].
  assert (Hfull : forall (e1 : Entry (S := S)) wd1, build_checkpoint (source e1) = build_checkpoint (source e) ->
    match full_checkpoint_outcome now e1 wd1 with
    | Crashed _ => True
    | Done r e' _ => (exists o, r = Ok o) /\
        build_checkpoint (source e') = build_checkpoint (source e) /\
        (r = Ok Retry -> needs_full_anchor (writer e) = false /\ needs_full_anchor (writer e') = true)
    end).
  { intros e1 wd1 He. pose proof (full_checkpoint_outcome_faults now e1 wd1) as Hf.
    destruct (full_checkpoint_outcome _ _ _); [|done].
    destruct Hf as [Hr ->]. split; [destruct Hr; eauto|]. split; [done|]. by destruct Hr; subst. }
  destruct (needs_full_anchor (writer e)) eqn:En; [by apply Hfull|].
  unfold bind at 1, take_pending.
  pose proof (take_keeps_checkpoint (source e)) as Hk.
  destruct (src_take_pending (source e)) as [t s]. cbn [snd] in Hk.
  destruct (taken_overflowed t); [by apply Hfull|].
  case_bool_decide; [split; [by eexists|done]|].
  unfold bind at 1, attempt, on_writer. cbn [writer source].
  destruct (append_increments _ _ _) as [[[]|] w' wd'|]; [|by apply Hfull| |done].
  - split; [by eexists|done].
  - unfold on_append_failure, on_writer, force_full_anchor, bind, get, put, ret.
    cbn [writer source needs_full_anchor]. split; [by eexists|done].
Qed.
End faults.

Lemma retry_reanchors_witness :
  let w := mkHistoryWriter (Some 1) (Some 32) 5 false 1000 in
  let e := mkEntry (source (CheckpointerExamples.output CheckpointerExamples.e0 "ab")) w in
  let wd := mkWorld ToySerde.st true [Fail (Some 3%nat)] in
  exists e' wd', persist false 11 e wd = Done (Ok Retry) e' wd' /\
    needs_full_anchor (writer e') = true /\
    build_checkpoint (source e') = build_checkpoint (source e).
Proof.
  set (w := mkHistoryWriter (Some 1) (Some 32) 5 false 1000).
  set (e := mkEntry (source (CheckpointerExamples.output CheckpointerExamples.e0 "ab")) w).
  set (wd := mkWorld ToySerde.st true [Fail (Some 3%nat)]).
  assert (E : exists e' wd', persist false 11 e wd = Done (Ok Retry) e' wd').
  { assert (Hb : match persist false 11 e wd with Done (Ok Retry) _ _ => true | _ => false end = true)
      by (vm_compute; reflexivity).
    destruct (persist false 11 e wd) as [[[]|] e' wd'|]; try discriminate. exists e', wd'. reflexivity. }
  destruct E as (e' & wd' & E). exists e', wd'. split; [exact E|].
  pose proof (retry_reanchors 11 e wd) as H. rewrite E in H. destruct H as (_ & Hb & Hr).
  split; [exact (proj2 (Hr eq_refl))|exact Hb].
Defined.

