(* ===== verification/Client.v ===== *)
(** The app's client of the daemon (grove-core/src/daemon/client.rs): the sticky
    cold-restore cache, the state shared by the connection tasks, the routing of
    replies and stream frames, the teardown of a connection and the resync of a
    new one. A section of code under one lock is one definition; the tasks that
    interleave those sections are the steps of a relation at the end. *)

From S2P Require Import Prelude Framing.

(** * The sticky cold-restore cache *)

Definition COLD_CACHE_MAX_ENTRIES : Z := 64.

Record ColdRestorePayload := mkColdRestorePayload {
  cr_snapshot : bytes;
  cr_cols : Z;
  cr_rows : Z;
  cr_is_alternate_screen : bool;
  cr_pending_escape_tail : option bytes
}.

(** [entries] and the insertion [order] of its keys. *)
Record ColdCacheInner := mkColdCache {
  cc_entries : gmap bytes ColdRestorePayload;
  cc_order : list bytes
}.

Definition cold_cache_default : ColdCacheInner := mkColdCache ∅ [].

Definition cold_remove (c : ColdCacheInner) (id : bytes) : ColdCacheInner :=
  match cc_entries c !! id with
  | Some _ => mkColdCache (delete id (cc_entries c)) (filter (fun k => k <> id) (cc_order c))
  | None => c
  end.

(** The [while] of [set]: pop the oldest key until the bound holds. *)
Fixpoint evict (es : gmap bytes ColdRestorePayload) (order : list bytes) : ColdCacheInner :=
  match order with
  | oldest :: rest =>
      if COLD_CACHE_MAX_ENTRIES <? zlen order then evict (delete oldest es) rest
      else mkColdCache es order
  | [] => mkColdCache es []
  end.

Definition cold_set (c : ColdCacheInner) (id : bytes) (p : ColdRestorePayload) : ColdCacheInner :=
  let es := <[id := p]> (cc_entries c) in
  match cc_entries c !! id with
  | Some _ => mkColdCache es (cc_order c)
  | None => evict es (cc_order c ++ [id])
  end.

Definition cold_get (c : ColdCacheInner) (id : bytes) : option ColdRestorePayload :=
  cc_entries c !! id.
Definition cold_ack (c : ColdCacheInner) (id : bytes) : ColdCacheInner := cold_remove c id.
Definition on_fresh_data (c : ColdCacheInner) (id : bytes) : ColdCacheInner := cold_remove c id.

(** * Shared state *)

(** What reaches the outbound queue: requests, and notifies about a session. *)
Inductive ctl_msg :=
| CtlRequest (id : Z) (method params : bytes)
| CtlSession (method sid : bytes).

Inductive rpc_outcome :=
| RpcOk (value : bytes)
| RpcFailed (code : Z) (message : bytes)
| ConnectionLost
| TimedOut.

(** What callers and subscribers are told, with two records that only the proofs
    read: a request was sent, a session became known. A subscriber is a number;
    an exit claimed without one is not delivered. *)
Inductive event :=
| Sent (id : Z)
| Resolved (id : Z) (o : rpc_outcome)
| Known (sid : bytes)
| OnData (sub : nat) (sid : bytes) (seq : Z) (data : bytes)
| OnExit (sub : option nat) (sid : bytes) (status : ExitStatus)
| OnResize (sub : nat) (sid : bytes) (cols rows : Z).

(** What was handed to the writer task of a connection, in order, and whether
    the task still receives. *)
Record ControlTx := mkControlTx { queued : list ctl_msg; receiving : bool }.

Record Shared := mkShared {
  connected : bool;
  control_tx : option ControlTx;
  generation : Z;
  pending : gmap Z Z;                       (* request id to generation *)
  request_counter : Z;
  subscribers : gmap bytes nat;
  cold_cache : ColdCacheInner;
  seqs : gmap bytes SeqTracker;
  known_alive : gset bytes;
  producer_paused : gset bytes;
  producer_resumes_owed : gset bytes;
  events : list event
}.

Definition shared_new : Shared :=
  mkShared false None 0 ∅ 0 ∅ cold_cache_default ∅ ∅ ∅ ∅ [].

Definition set_conn (s : Shared) c tx g :=
  mkShared c tx g (pending s) (request_counter s) (subscribers s) (cold_cache s) (seqs s)
    (known_alive s) (producer_paused s) (producer_resumes_owed s) (events s).
Definition set_pending (s : Shared) p n evs :=
  mkShared (connected s) (control_tx s) (generation s) p n (subscribers s) (cold_cache s) (seqs s)
    (known_alive s) (producer_paused s) (producer_resumes_owed s) (events s ++ evs).
Definition set_subscribers (s : Shared) m :=
  mkShared (connected s) (control_tx s) (generation s) (pending s) (request_counter s) m
    (cold_cache s) (seqs s) (known_alive s) (producer_paused s) (producer_resumes_owed s) (events s).
Definition set_sessions (s : Shared) c q k evs :=
  mkShared (connected s) (control_tx s) (generation s) (pending s) (request_counter s)
    (subscribers s) c q k (producer_paused s) (producer_resumes_owed s) (events s ++ evs).
Definition set_producer (s : Shared) p o :=
  mkShared (connected s) (control_tx s) (generation s) (pending s) (request_counter s)
    (subscribers s) (cold_cache s) (seqs s) (known_alive s) p o (events s).

Definition subscribe (s : Shared) (sid : bytes) (sub : nat) : Shared :=
  set_subscribers s (<[sid := sub]> (subscribers s)).
Definition unsubscribe (s : Shared) (sid : bytes) : Shared :=
  set_subscribers s (delete sid (subscribers s)).

(** * Requests *)

(** [send_control]: queue on the current connection, or fail. *)
Definition send_control (s : Shared) (m : ctl_msg) : bool * Shared :=
  match control_tx s with
  | Some tx =>
      if receiving tx
      then (true, set_conn s (connected s) (Some (mkControlTx (queued tx ++ [m]) true)) (generation s))
      else (false, s)
  | None => (false, s)
  end.

(** The sending half of [request_raw]; [None] is NotConnected. *)
Definition request_send (s : Shared) (method params : bytes) : option Z * Shared :=
  let id := wrap 64 (request_counter s + 1) in
  let s := set_pending s (pending s) id [] in
  match control_tx s with
  | None => (None, s)
  | Some _ =>
      let s1 := set_pending s (<[id := generation s]> (pending s)) id [] in
      match send_control s1 (CtlRequest id method params) with
      | (true, s2) => (Some id, set_pending s2 (pending s2) id [Sent id])
      | (false, s2) => (None, set_pending s2 (delete id (pending s2)) id [])
      end
  end.

(** Hand an outcome to the caller that waits on [id], if one does. *)
Definition resolve_request (s : Shared) (id : Z) (o : rpc_outcome) : Shared :=
  match pending s !! id with
  | Some _ => set_pending s (delete id (pending s)) (request_counter s) [Resolved id o]
  | None => s
  end.

(** A reply line of the control reader. *)
Definition on_reply (s : Shared) (id : Z) (r : result bytes (Z * bytes)) : Shared :=
  resolve_request s id match r with Ok v => RpcOk v | Err (code, m) => RpcFailed code m end.

(** The deadline of a request elapses before its outcome arrives. *)
Definition on_timeout (s : Shared) (id : Z) : Shared := resolve_request s id TimedOut.

(** * Sessions *)

(** [known_alive.insert]. *)
Definition mark_known (s : Shared) (sid : bytes) : Shared :=
  set_sessions s (cold_cache s) (seqs s) ({[sid]} ∪ known_alive s)
    (if bool_decide (sid ∈ known_alive s) then [] else [Known sid]).

(** The atomic claim of a session's exit, shared by the stream and the resync,
    and the pruning that follows a won claim. *)
Definition claim_exit (s : Shared) (sid : bytes) (status : ExitStatus) : Shared :=
  if bool_decide (sid ∈ known_alive s) then
    set_producer
      (set_sessions s (cold_cache s) (delete sid (seqs s)) (known_alive s ∖ {[sid]})
         [OnExit (subscribers s !! sid) sid status])
      (producer_paused s ∖ {[sid]}) (producer_resumes_owed s ∖ {[sid]})
  else s.

Section frames.
Context (from_json : bytes -> option ExitStatus).

Definition dispatch_frame (s : Shared) (f : StreamFrame) : Shared :=
  let sid := session_id f in
  match kind f with
  | Data =>
      let tracker := default tracker_new (seqs s !! sid) in
      set_sessions s (on_fresh_data (cold_cache s) sid)
        (<[sid := (observe tracker (seq f)).2]> (seqs s)) (known_alive s)
        match subscribers s !! sid with
        | Some sub => [OnData sub sid (seq f) (payload f)]
        | None => []
        end
  | Exit => claim_exit s sid (default (mkExitStatus None None) (as_exit from_json f))
  | Resize =>
      match as_resize f, subscribers s !! sid with
      | Some (cols, rows), Some sub =>
          set_sessions s (cold_cache s) (seqs s) (known_alive s) [OnResize sub sid cols rows]
      | _, _ => s
      end
  end.
End frames.

Record WarmReattach := mkWarmReattach {
  wr_snapshot : bytes;
  wr_cols : Z;
  wr_rows : Z;
  wr_is_alternate_screen : bool;
  wr_output_sequence : Z;
  wr_pending_escape_tail : option bytes;
  wr_kitty_keyboard_flags : option Z;
  wr_cwd : option bytes;
  wr_last_title : option bytes;
  wr_emulator_degraded : bool
}.

Record CreateOrAttachResult := mkCreateResult {
  is_new : bool;
  is_cold_restore : bool;
  cold_restore : option ColdRestorePayload;
  warm_reattach : option WarmReattach
}.

(** The reply of the daemon as serde_json reads it; a warm payload that does not
    parse is absent. *)
Record CreateReply := mkCreateReply {
  reply_is_new : bool;
  reply_is_cold : bool;
  reply_payload : ColdRestorePayload;
  reply_is_reattach : bool;
  reply_warm : option WarmReattach
}.

Definition warm_from_result (r : CreateReply) : option WarmReattach :=
  if reply_is_reattach r then reply_warm r else None.

(** A retained payload answers without a request. *)
Definition create_cached (s : Shared) (sid : bytes) : option CreateOrAttachResult :=
  (fun p => mkCreateResult false true (Some p) None) <$> cold_get (cold_cache s) sid.

(** What follows the daemon's reply. *)
Definition create_finish (s : Shared) (sid : bytes) (r : CreateReply) :
    CreateOrAttachResult * Shared :=
  let s := mark_known s sid in
  let (cold, s) :=
    if reply_is_cold r then
      (Some (reply_payload r),
       set_sessions s (cold_set (cold_cache s) sid (reply_payload r)) (seqs s) (known_alive s) [])
    else (None, s) in
  (mkCreateResult (reply_is_new r) (reply_is_cold r) cold (warm_from_result r), s).

Definition ack_cold_restore (s : Shared) (sid : bytes) : Shared :=
  set_sessions s (cold_ack (cold_cache s) sid) (seqs s) (known_alive s) [].

(** The local record of [pause_pty], after its notify was queued, and of
    [resume_pty], whatever became of its notify. *)
Definition pause_record (s : Shared) (sid : bytes) : Shared :=
  set_producer s ({[sid]} ∪ producer_paused s) (producer_resumes_owed s).
Definition resume_record (s : Shared) (sid : bytes) : Shared :=
  set_producer s (producer_paused s ∖ {[sid]}) (producer_resumes_owed s ∖ {[sid]}).

Definition pause_pty (s : Shared) (sid : bytes) : bool * Shared :=
  match send_control s (CtlSession (str "pausePty") sid) with
  | (true, s) => (true, pause_record s sid)
  | r => r
  end.
Definition resume_pty (s : Shared) (sid : bytes) : bool * Shared :=
  let (ok, s) := send_control s (CtlSession (str "resumePty") sid) in (ok, resume_record s sid).

(** * Connections *)

(** The three sections of [handle_disconnect]. The first says whether this call
    tears the connection down. *)
Definition disconnect_begin (s : Shared) (g : Z) : bool * Shared :=
  if negb (generation s =? g) then (false, s)
  else if negb (connected s) then (false, s)
  else (true, set_conn s false None (generation s)).

Definition move_paused (s : Shared) : Shared :=
  set_producer s ∅ (producer_resumes_owed s ∪ producer_paused s).

Definition of_generation (p : gmap Z Z) (g : Z) : list Z :=
  (map_to_list (filter (fun '(_, g') => g' = g) p)).*1.

Definition reject_pending (s : Shared) (g : Z) : Shared :=
  set_pending s (filter (fun '(_, g') => g' <> g) (pending s)) (request_counter s)
    ((fun id => Resolved id ConnectionLost) <$> of_generation (pending s) g).

Definition handle_disconnect (s : Shared) (g : Z) : Shared :=
  match disconnect_begin s g with
  | (true, s) => reject_pending (move_paused s) g
  | (false, s) => s
  end.

Definition reset_connection (s : Shared) : Shared := handle_disconnect s (generation s).

(** The end of [do_connect], after both handshakes: a new generation, then the
    connection. *)
Definition new_generation (s : Shared) : Shared :=
  set_conn s (connected s) (control_tx s) (wrap 64 (generation s + 1)).
Definition install (s : Shared) : Shared :=
  set_conn s true (Some (mkControlTx [] true)) (generation s).

(** [resync] on the session list of the daemon. *)
Definition resync_gone (s : Shared) (live : gset bytes) : list bytes :=
  elements (known_alive s ∖ live).
Definition resync_claim (s : Shared) (sid : bytes) : Shared :=
  claim_exit s sid (mkExitStatus None None).
Definition resync_known (s : Shared) (live : gset bytes) : Shared :=
  foldl mark_known s (elements live).
Definition resync_drain (s : Shared) : list bytes * Shared :=
  (elements (producer_resumes_owed s), set_producer s (producer_paused s) ∅).
Definition resync_resume (s : Shared) (sid : bytes) : Shared :=
  let s := (send_control s (CtlSession (str "resumePty") sid)).2 in
  set_producer s (producer_paused s ∖ {[sid]}) (producer_resumes_owed s).

Definition resync (s : Shared) (live : gset bytes) : Shared :=
  let s := foldl resync_claim s (resync_gone s live) in
  let s := resync_known s live in
  let (owed, s) := resync_drain s in
  foldl resync_resume s owed.

(** [ensure_connected], with the outcome of the two handshakes and the daemon's
    answer to [listSessions], [None] when it fails. A failed list leaves the
    connection up and the sessions as they were. *)
Definition ensure_connected (s : Shared) (handshake : bool) (live : option (gset bytes)) :
    bool * Shared :=
  if connected s then (true, s)
  else if negb handshake then (false, s)
  else
    let s := install (new_generation s) in
    match request_send s (str "listSessions") (str "null") with
    | (None, s) => (true, s)
    | (Some id, s) =>
        (true,
         match live with
         | Some live => resync (resolve_request s id (RpcOk [])) live
         | None => resolve_request s id TimedOut
         end)
    end.

(** * The cold cache against a list *)

(** The specification: payloads in insertion order, newest last. *)

Inductive cold_op := ColdSet (id : bytes) (p : ColdRestorePayload) | ColdRemove (id : bytes).

Definition spec_step (l : list (bytes * ColdRestorePayload)) (o : cold_op) : list (bytes * ColdRestorePayload) :=
  match o with
  | ColdSet id p =>
      if bool_decide (id ∈ l.*1) then (fun '(k, q) => (k, if bool_decide (k = id) then p else q)) <$> l
      else let l := l ++ [(id, p)] in drop (length l - 64) l
  | ColdRemove id => filter (fun '(k, _) => k <> id) l
  end.

Definition cold_step (c : ColdCacheInner) (o : cold_op) : ColdCacheInner :=
  match o with ColdSet id p => cold_set c id p | ColdRemove id => cold_remove c id end.

Definition cold_rel (c : ColdCacheInner) (l : list (bytes * ColdRestorePayload)) : Prop :=
  NoDup l.*1 /\ cc_order c = l.*1 /\ cc_entries c = list_to_map l /\ (length l <= 64)%nat.

Lemma cold_rel_lookup c l id p :
  cold_rel c l -> cc_entries c !! id = Some p <-> (id, p) ∈ l.
Proof. intros (Hn & _ & -> & _). by rewrite elem_of_list_to_map. Qed.

Lemma cold_rel_key c l id : cold_rel c l -> cc_entries c !! id = None <-> id ∉ l.*1.
Proof. intros (Hn & _ & -> & _). by rewrite not_elem_of_list_to_map. Qed.

Lemma evict_drop l :
  NoDup l.*1 ->
  let k := drop (length l - 64) l in evict (list_to_map l) l.*1 = mkColdCache (list_to_map k) k.*1.
Proof.
  induction l as [|[id p] l IH]; intros Hn k; [done|]. subst k.
  cbn [fmap list_fmap fst evict]. cbn [fmap list_fmap fst] in Hn. apply NoDup_cons in Hn as [Hi Hn].
  unfold COLD_CACHE_MAX_ENTRIES, zlen. cbn [length]. rewrite length_fmap.
  destruct (Z.ltb_spec 64 (Z.of_nat (S (length l)))) as [Hlt|Hle].
  - replace (S (length l) - 64)%nat with (S (length l - 64)) by lia. cbn [drop].
    rewrite <- IH by done. f_equal. cbn [list_to_map foldr uncurry]. rewrite delete_insert_id; [done|].
    by apply not_elem_of_list_to_map.
  - replace (S (length l) - 64)%nat with 0%nat by lia. done.
Qed.

Lemma list_to_map_update (l : list (bytes * ColdRestorePayload)) id p :
  NoDup l.*1 -> id ∈ l.*1 ->
  (list_to_map ((fun '(k, q) => (k, if bool_decide (k = id) then p else q)) <$> l) : gmap _ _)
  = <[id := p]> (list_to_map l).
Proof.
  induction l as [|[k q] l IH]; intros Hn Hi; [by apply elem_of_nil in Hi|].
  cbn [fmap list_fmap fst] in Hn, Hi |- *. apply NoDup_cons in Hn as [Hk Hn].
  cbn [list_to_map foldr uncurry]. destruct (decide (k = id)) as [->|Hne].
  - rewrite bool_decide_eq_true_2 by done. rewrite insert_insert_eq. f_equal. f_equal.
    rewrite <- (list_fmap_id l) at 2. apply list_fmap_ext. intros ? [k q'] Hl. cbn.
    rewrite bool_decide_eq_false_2; [done|]. intros ->. apply Hk. apply list_elem_of_fmap.
    exists (id, q'). split; [done|]. by apply list_elem_of_lookup_2 in Hl.
  - rewrite bool_decide_eq_false_2 by done. rewrite IH.
    + by rewrite insert_insert_ne.
    + done.
    + by apply elem_of_cons in Hi as [->|].
Qed.

Lemma list_to_map_filter (l : list (bytes * ColdRestorePayload)) id :
  NoDup l.*1 ->
  (list_to_map (filter (fun '(k, _) => k <> id) l) : gmap _ _) = delete id (list_to_map l).
Proof.
  induction l as [|[k q] l IH]; intros Hn; [symmetry; apply delete_empty|].
  cbn [fmap list_fmap fst] in Hn. apply NoDup_cons in Hn as [Hk Hn]. rewrite filter_cons.
  cbn [list_to_map foldr uncurry]. destruct (decide (k = id)) as [->|Hne].
  - rewrite decide_False by (intros H; by apply H). rewrite IH by done. by rewrite delete_insert_eq.
  - rewrite decide_True by done. cbn [list_to_map foldr uncurry]. rewrite IH by done.
    by rewrite delete_insert_ne.
Qed.

Lemma keys_filter (l : list (bytes * ColdRestorePayload)) id :
  filter (fun k => k <> id) l.*1 = (filter (fun '(k, _) => k <> id) l).*1.
Proof.
  induction l as [|[k q] l IH]; [done|]. cbn [fmap list_fmap fst]. rewrite !filter_cons.
  destruct (decide (k = id)) as [->|].
  - by rewrite !decide_False by (intros H; by apply H).
  - rewrite !decide_True by done. cbn [fmap list_fmap fst]. by f_equal.
Qed.

Lemma filter_absent (l : list (bytes * ColdRestorePayload)) id :
  id ∉ l.*1 -> filter (fun '(k, _) => k <> id) l = l.
Proof.
  induction l as [|[k q] l IH]; [done|]. cbn [fmap list_fmap fst].
  rewrite not_elem_of_cons, filter_cons. intros [Hk Hl]. rewrite decide_True by congruence.
  f_equal. auto.
Qed.

Lemma keys_update (l : list (bytes * ColdRestorePayload)) id p :
  ((fun '(k, q) => (k, if bool_decide (k = id) then p else q)) <$> l).*1 = l.*1.
Proof. rewrite <- list_fmap_compose. apply list_fmap_ext. by intros ? [k q] _. Qed.

Lemma cold_step_rel c l o : cold_rel c l -> cold_rel (cold_step c o) (spec_step l o).
Proof.
  intros Hr. pose proof Hr as (Hn & Ho & He & Hl). destruct o as [id p|id]; cbn [cold_step spec_step].
  - unfold cold_set. destruct (cc_entries c !! id) as [q|] eqn:E.
    + rewrite bool_decide_eq_true_2.
      2: { apply (cold_rel_lookup c l) in E; [|done]. apply list_elem_of_fmap. by exists (id, q). }
      assert (Hi : id ∈ l.*1) by (apply (cold_rel_lookup c l) in E; [|done];
        apply list_elem_of_fmap; by exists (id, q)).
      unfold cold_rel. rewrite keys_update, length_fmap, list_to_map_update by done.
      cbn [cc_order cc_entries]. rewrite He. auto.
    + apply (cold_rel_key c l) in E; [|done]. rewrite bool_decide_eq_false_2 by done.
      set (k := l ++ [(id, p)]).
      assert (Hk : NoDup k.*1).
      { unfold k. rewrite fmap_app. apply NoDup_app. split; [done|]. split; [|apply NoDup_singleton].
        intros x Hx Hs. apply list_elem_of_singleton in Hs as ->. done. }
      rewrite He, Ho. replace (<[id := p]> (list_to_map l)) with (list_to_map k : gmap bytes ColdRestorePayload).
      2: { unfold k. rewrite list_to_map_snoc; [done|]. done. }
      replace (l.*1 ++ [id]) with k.*1 by (unfold k; by rewrite fmap_app).
      rewrite evict_drop by done. split_and!; [|done|done|].
      * rewrite fmap_drop. eapply sublist_NoDup; [exact Hk|apply sublist_drop].
      * rewrite length_drop. unfold k. rewrite length_app. cbn. lia.
  - unfold cold_remove. destruct (cc_entries c !! id) as [q|] eqn:E.
    + unfold cold_rel. cbn [cc_order cc_entries]. rewrite He, Ho, keys_filter, list_to_map_filter by done.
      split_and!; [|done|done|].
      * rewrite <- keys_filter. by apply NoDup_filter.
      * etransitivity; [apply length_filter|done].
    + apply (cold_rel_key c l) in E; [|done].
      by rewrite filter_absent.
Qed.

(** Whatever sequence of sets, acks and first outputs the cache sees, it
    holds what the list of the specification holds: a payload stays readable
    until its session is removed or 64 newer sessions were set, setting a
    session again replaces its payload without renewing its turn, and there are
    never more than 64. *)
Theorem cold_cache_refines ops :
  let c := foldl cold_step cold_cache_default ops in
  let l := foldl spec_step [] ops in
  (forall id p, cold_get c id = Some p <-> (id, p) ∈ l) /\
  NoDup l.*1 /\ cc_order c = l.*1 /\ (size (cc_entries c) <= 64)%nat.
Proof.
  assert (H : cold_rel (foldl cold_step cold_cache_default ops) (foldl spec_step [] ops)).
  { assert (Hg : forall c l, cold_rel c l -> cold_rel (foldl cold_step c ops) (foldl spec_step l ops)).
    { induction ops as [|o ops IH]; intros c l Hr; [done|]. cbn [foldl]. apply IH.
      by apply cold_step_rel. }
    apply Hg. split; [constructor|]. split_and!; [done|done|cbn; lia]. }
  intros c l. split; [intros id p; by apply cold_rel_lookup|].
  destruct H as (Hn & Ho & He & Hl). split; [done|]. split; [done|].
  fold l in Hl, He, Hn. fold c in He. rewrite He.
  rewrite <- (length_map_to_list (list_to_map l)), (map_to_list_to_map l Hn). done.
Qed.

(** * The interleaving of the connection tasks *)

(** A teardown that has passed its first section, and the progress of the one
    caller that holds the connect lock. *)
Inductive close_pc := MovePaused | RejectPending.
Inductive conn_pc :=
| NoConnect
| Connecting
| Listing
| Claiming (live : gset bytes) (gone : list bytes)
| Flushing (owed : list bytes).

Record Sys := mkSys { sh : Shared; closing : list (Z * close_pc); conn : conn_pc }.
Definition sys_new : Sys := mkSys shared_new [] NoConnect.

Section steps.
Context (from_json : bytes -> option ExitStatus).

Inductive client_step : Sys -> Sys -> Prop :=
| cs_request s m p : client_step s (mkSys (request_send (sh s) m p).2 (closing s) (conn s))
| cs_reply s id r : client_step s (mkSys (on_reply (sh s) id r) (closing s) (conn s))
| cs_timeout s id : client_step s (mkSys (on_timeout (sh s) id) (closing s) (conn s))
| cs_frame s f : client_step s (mkSys (dispatch_frame from_json (sh s) f) (closing s) (conn s))
| cs_created s sid r : client_step s (mkSys (create_finish (sh s) sid r).2 (closing s) (conn s))
| cs_ack s sid : client_step s (mkSys (ack_cold_restore (sh s) sid) (closing s) (conn s))
| cs_subscribe s sid n : client_step s (mkSys (subscribe (sh s) sid n) (closing s) (conn s))
| cs_unsubscribe s sid : client_step s (mkSys (unsubscribe (sh s) sid) (closing s) (conn s))
| cs_pause s sid : client_step s (mkSys (pause_pty (sh s) sid).2 (closing s) (conn s))
| cs_resume s sid : client_step s (mkSys (resume_pty (sh s) sid).2 (closing s) (conn s))
| cs_writer_ends s tx :
    control_tx (sh s) = Some tx ->
    client_step s (mkSys (set_conn (sh s) (connected (sh s)) (Some (mkControlTx (queued tx) false))
                            (generation (sh s))) (closing s) (conn s))
| cs_disconnect s g s' :
    disconnect_begin (sh s) g = (true, s') ->
    client_step s (mkSys s' (closing s ++ [(g, MovePaused)]) (conn s))
| cs_move s l1 g l2 :
    closing s = l1 ++ (g, MovePaused) :: l2 ->
    client_step s (mkSys (move_paused (sh s)) (l1 ++ (g, RejectPending) :: l2) (conn s))
| cs_reject s l1 g l2 :
    closing s = l1 ++ (g, RejectPending) :: l2 ->
    client_step s (mkSys (reject_pending (sh s) g) (l1 ++ l2) (conn s))
| cs_connect s :
    conn s = NoConnect -> connected (sh s) = false ->
    client_step s (mkSys (new_generation (sh s)) (closing s) Connecting)
| cs_install s :
    conn s = Connecting -> client_step s (mkSys (install (sh s)) (closing s) Listing)
| cs_listed s live :
    conn s = Listing ->
    client_step s (mkSys (sh s) (closing s) (Claiming live (resync_gone (sh s) live)))
| cs_list_fails s :
    conn s = Listing -> client_step s (mkSys (sh s) (closing s) NoConnect)
| cs_claim s live sid gone :
    conn s = Claiming live (sid :: gone) ->
    client_step s (mkSys (resync_claim (sh s) sid) (closing s) (Claiming live gone))
| cs_known s live s' owed :
    conn s = Claiming live [] -> resync_drain (resync_known (sh s) live) = (owed, s') ->
    client_step s (mkSys s' (closing s) (Flushing owed))
| cs_flush s sid owed :
    conn s = Flushing (sid :: owed) ->
    client_step s (mkSys (resync_resume (sh s) sid) (closing s) (Flushing owed))
| cs_connected s :
    conn s = Flushing [] -> client_step s (mkSys (sh s) (closing s) NoConnect).

(** ** No request is left hanging *)

Fixpoint sent (l : list event) : list Z :=
  match l with [] => [] | Sent id :: l => id :: sent l | _ :: l => sent l end.
Fixpoint resolved (l : list event) : list Z :=
  match l with [] => [] | Resolved id _ :: l => id :: resolved l | _ :: l => resolved l end.

Lemma sent_app l k : sent (l ++ k) = sent l ++ sent k.
Proof. induction l as [|[] l IH]; cbn; auto. by rewrite IH. Qed.
Lemma resolved_app l k : resolved (l ++ k) = resolved l ++ resolved k.
Proof. induction l as [|[] l IH]; cbn; auto. by rewrite IH. Qed.

(** The part of the state requests and connections live in. *)
Record rpc_view := mkRpcView {
  v_connected : bool; v_tx : bool; v_generation : Z;
  v_pending : gmap Z Z; v_counter : Z; v_sent : list Z; v_resolved : list Z
}.
Definition rpc_of (s : Shared) : rpc_view :=
  mkRpcView (connected s) (bool_decide (is_Some (control_tx s))) (generation s)
    (pending s) (request_counter s) (sent (events s)) (resolved (events s)).

(** Request numbers below [n], each sent one pending or resolved, none twice. *)
Record rpc_inv (n : nat) (v : rpc_view) : Prop := {
  ri_counter : 0 <= v_counter v <= Z.of_nat n;
  ri_pending : forall id g, v_pending v !! id = Some g -> id <= v_counter v /\ id ∉ v_resolved v;
  ri_nodup : NoDup (v_resolved v);
  ri_resolved : forall id, id ∈ v_resolved v -> id <= v_counter v;
  ri_sent : forall id, id ∈ v_sent v -> v_pending v !! id <> None \/ id ∈ v_resolved v
}.

(** Each pending request belongs to the live connection or to a teardown that
    has yet to reject it. *)
Record covered (v : rpc_view) (cl : list (Z * close_pc)) (c : conn_pc) : Prop := {
  co_pending : forall id g, v_pending v !! id = Some g ->
    v_connected v = true /\ v_generation v = g \/ exists pc, (g, pc) ∈ cl;
  co_tx : v_tx v = true -> v_connected v = true;
  co_conn : c = Connecting -> v_connected v = false
}.

(** A section that touches no request. *)
Definition same_rpc (s s' : Shared) : Prop := rpc_of s' = rpc_of s.

Lemma same_rpc_trans s s1 s2 : same_rpc s s1 -> same_rpc s1 s2 -> same_rpc s s2.
Proof. unfold same_rpc. congruence. Qed.

Lemma same_rpc_sessions s c q k evs :
  sent evs = [] -> resolved evs = [] -> same_rpc s (set_sessions s c q k evs).
Proof.
  intros H1 H2. unfold same_rpc, rpc_of, set_sessions. cbn.
  by rewrite sent_app, resolved_app, H1, H2, !app_nil_r.
Qed.

Lemma same_rpc_mark s sid : same_rpc s (mark_known s sid).
Proof. apply same_rpc_sessions; by case_bool_decide. Qed.

Lemma same_rpc_claim s sid st : same_rpc s (claim_exit s sid st).
Proof.
  unfold claim_exit. case_bool_decide; [|done].
  eapply same_rpc_trans; [by apply (same_rpc_sessions s (cold_cache s) (delete sid (seqs s))
    (known_alive s ∖ {[sid]}) [OnExit (subscribers s !! sid) sid st])|done].
Qed.

Lemma same_rpc_send s m : same_rpc s (send_control s m).2.
Proof.
  unfold send_control, same_rpc. destruct (control_tx s) as [tx|] eqn:E; [|done].
  destruct (receiving tx); [|done]. unfold rpc_of. cbn. by rewrite E.
Qed.

Lemma same_rpc_known live s : same_rpc s (resync_known s live).
Proof.
  unfold resync_known. revert s. induction (elements live) as [|x l IH]; intros s; [done|].
  cbn [foldl]. eapply same_rpc_trans; [apply same_rpc_mark|apply IH].
Qed.

Lemma same_rpc_frame s f : same_rpc s (dispatch_frame from_json s f).
Proof.
  unfold dispatch_frame. destruct (kind f).
  - apply same_rpc_sessions; by destruct (subscribers s !! _).
  - destruct (as_resize f) as [[]|]; [|done]. destruct (subscribers s !! _); [|done].
    by apply same_rpc_sessions.
  - apply same_rpc_claim.
Qed.

Lemma same_rpc_create s sid r : same_rpc s (create_finish s sid r).2.
Proof.
  unfold create_finish. destruct (reply_is_cold r); cbn [snd].
  - eapply same_rpc_trans; [apply (same_rpc_mark s sid)|by apply same_rpc_sessions].
  - apply same_rpc_mark.
Qed.

Lemma rpc_inv_S n v : rpc_inv n v -> rpc_inv (S n) v.
Proof. intros []. split; auto. lia. Qed.

Lemma rpc_inv_conn n s c tx g : rpc_inv n (rpc_of s) -> rpc_inv (S n) (rpc_of (set_conn s c tx g)).
Proof. intros []. split; auto. cbn in *. lia. Qed.

Lemma request_view n s m p :
  rpc_inv n (rpc_of s) -> Z.of_nat n + 1 < 2 ^ 64 ->
  let v := rpc_of s in let id := v_counter v + 1 in
  rpc_of (request_send s m p).2 =
    mkRpcView (v_connected v) (v_tx v) (v_generation v) (v_pending v) id (v_sent v) (v_resolved v) \/
  v_tx v = true /\
  rpc_of (request_send s m p).2 =
    mkRpcView (v_connected v) (v_tx v) (v_generation v) (<[id := v_generation v]> (v_pending v)) id
      (v_sent v ++ [id]) (v_resolved v).
Proof.
  intros [Hc Hp _ _ _] Hn v id. unfold request_send. cbn in Hc.
  assert (Hw : wrap 64 (request_counter s + 1) = id) 
    by (subst id v; cbn; apply wrap_small; lia).
  rewrite Hw. cbn [set_pending control_tx].
  destruct (control_tx s) as [tx|] eqn:E.
  2: { left. unfold rpc_of. cbn. by rewrite app_nil_r, E. }
  unfold send_control. cbn [set_pending control_tx connected generation pending]. rewrite E.
  destruct (receiving tx).
  - right. split; [cbn; by rewrite E|]. unfold rpc_of. cbn.
    by rewrite !app_nil_r, sent_app, resolved_app, E, app_nil_r.
  - left. unfold rpc_of. cbn. rewrite !app_nil_r, E. f_equal. rewrite delete_insert_id; [done|].
    destruct (pending s !! id) as [g|] eqn:Ep; [|done]. destruct (Hp id g Ep) as [Hle _]. subst id v. cbn in *. lia.
Qed.

Lemma rpc_request n s m p cl c :
  Z.of_nat n + 1 < 2 ^ 64 -> rpc_inv n (rpc_of s) -> covered (rpc_of s) cl c ->
  rpc_inv (S n) (rpc_of (request_send s m p).2) /\ covered (rpc_of (request_send s m p).2) cl c.
Proof.
  intros Hn Hi [Ho Ht Hk]. pose proof Hi as [Hc Hp Hd Hr Hs].
  destruct (request_view n s m p Hi Hn) as [->|[Htx ->]]; split; split; cbn -[rpc_of]; auto; try lia.
  - intros id g Hg. destruct (Hp id g Hg). split; [lia|done].
  - intros id Hid. specialize (Hr id Hid). lia.
  - intros id g [[<- <-]|[_ Hg]]%lookup_insert_Some.
    + split; [lia|]. intros Hid%Hr. lia.
    + destruct (Hp id g Hg). split; [lia|done].
  - intros id Hid. specialize (Hr id Hid). lia.
  - intros id [Hid|Hid%list_elem_of_singleton]%elem_of_app.
    + destruct (Hs id Hid) as [Hq|]; [left|by right]. rewrite lookup_insert.
      by case_decide.
    + subst. left. by rewrite lookup_insert_eq.
  - intros id g [[<- <-]|[_ Hg]]%lookup_insert_Some; [left; auto|by apply (Ho id)].
Qed.

Lemma rpc_resolve n s id o cl c :
  rpc_inv n (rpc_of s) -> covered (rpc_of s) cl c ->
  rpc_inv (S n) (rpc_of (resolve_request s id o)) /\ covered (rpc_of (resolve_request s id o)) cl c.
Proof.
  intros Hi Hv. unfold resolve_request. destruct (pending s !! id) as [g|] eqn:E.
  2: { split; [by apply rpc_inv_S|done]. }
  destruct Hi as [Hc Hp Hd Hr Hs], Hv as [Ho Ht Hk]. destruct (Hp id g E) as [Hle Hni].
  unfold rpc_of, set_pending in *. cbn in *. rewrite sent_app, resolved_app. cbn.
  rewrite app_nil_r. split; split; cbn.
  - lia.
  - intros k g' [Hk' Hg]%lookup_delete_Some. destruct (Hp k g' Hg) as [? Hn]. split; [done|].
    intros [?|?%list_elem_of_singleton]%elem_of_app; [done|]. congruence.
  - apply NoDup_app. split; [done|]. split; [|apply NoDup_singleton].
    intros x Hx Hs'%list_elem_of_singleton. subst x. done.
  - intros k [?|?%list_elem_of_singleton]%elem_of_app; [by apply Hr|]. subst k. done.
  - intros k Hks. rewrite elem_of_app, list_elem_of_singleton, lookup_delete.
    destruct (Hs k Hks); [|by right; left]. case_decide; [by right; right|by left].
  - intros k g' [_ Hg]%lookup_delete_Some. by apply (Ho k).
  - done.
  - done.
Qed.

Lemma resolved_lost ids : resolved ((fun id => Resolved id ConnectionLost) <$> ids) = ids.
Proof. induction ids as [|x l IH]; [done|]. cbn. by f_equal. Qed.
Lemma sent_lost ids : sent ((fun id => Resolved id ConnectionLost) <$> ids) = [].
Proof. by induction ids. Qed.

Lemma of_generation_spec p g id : id ∈ of_generation p g <-> p !! id = Some g.
Proof.
  unfold of_generation. rewrite list_elem_of_fmap. split.
  - intros ([k g'] & -> & Hk%elem_of_map_to_list). cbn.
    apply map_lookup_filter_Some in Hk as [Hk Hg]. cbn in Hg. by subst.
  - intros Hk. exists (id, g). split; [done|]. apply elem_of_map_to_list.
    by apply map_lookup_filter_Some.
Qed.

Lemma rpc_reject n s g l1 l2 c :
  rpc_inv n (rpc_of s) -> covered (rpc_of s) (l1 ++ (g, RejectPending) :: l2) c ->
  rpc_inv (S n) (rpc_of (reject_pending s g)) /\ covered (rpc_of (reject_pending s g)) (l1 ++ l2) c.
Proof.
  intros [Hc Hp Hd Hr Hs] [Ho Ht Hk]. unfold rpc_of, reject_pending, set_pending in *. cbn in *.
  rewrite sent_app, resolved_app, resolved_lost, sent_lost, app_nil_r. split; split; cbn.
  - lia.
  - intros id g' [Hg Hne]%map_lookup_filter_Some. cbn in Hne. destruct (Hp id g' Hg). split; [done|].
    rewrite elem_of_app, of_generation_spec. intros [?|?]; [done|]. congruence.
  - apply NoDup_app. split; [done|]. split; [|apply NoDup_fst_map_to_list].
    intros x Hx Hg%of_generation_spec. by destruct (Hp x g Hg).
  - intros id [?|Hg%of_generation_spec]%elem_of_app; [by apply Hr|]. by destruct (Hp id g Hg).
  - intros id Hid. rewrite elem_of_app, of_generation_spec.
    destruct (Hs id Hid) as [Hq|]; [|by right; left].
    destruct (pending s !! id) as [g'|] eqn:E; [|done].
    destruct (decide (g' = g)) as [->|Hne]; [by right; right|]. left.
    rewrite (proj2 (map_lookup_filter_Some _ _ id g')); [done|]. done.
  - intros id g' [Hg Hne]%map_lookup_filter_Some. cbn in Hne. destruct (Ho id g' Hg) as [?|[pc Hpc]]; [by left|].
    right. exists pc. rewrite elem_of_app, elem_of_cons in Hpc. rewrite elem_of_app.
    destruct Hpc as [?|[[= -> _]|?]]; [by left|done|by right].
  - done.
  - done.
Qed.

Definition sys_inv (n : nat) (s : Sys) : Prop :=
  rpc_inv n (rpc_of (sh s)) /\ covered (rpc_of (sh s)) (closing s) (conn s).

(** A step that leaves the view, the teardowns and the connecting flag alone. *)
Lemma sys_inv_same n s s' cl c :
  sys_inv n s -> same_rpc (sh s) s' ->
  (forall g pc, (g, pc) ∈ closing s -> exists pc', (g, pc') ∈ cl) ->
  (c = Connecting -> conn s = Connecting) ->
  sys_inv (S n) (mkSys s' cl c).
Proof.
  intros [Hi [Ho Ht Hk]] Hs Hcl Hc. unfold sys_inv. cbn [sh closing conn]. rewrite Hs.
  split; [by apply rpc_inv_S|]. split; [|done|auto].
  intros id g Hg. destruct (Ho id g Hg) as [?|[pc Hpc]]; [by left|]. right. by eapply Hcl.
Qed.

Lemma client_step_inv n s s' :
  Z.of_nat n + 1 < 2 ^ 64 -> sys_inv n s -> client_step s s' -> sys_inv (S n) s'.
Proof.
  intros Hn Hi Hs. pose proof Hi as [Hr Hv].
  assert (Hkeep : forall g pc, (g, pc) ∈ closing s -> exists pc', (g, pc') ∈ closing s) by eauto.
  destruct Hs; try (by apply (sys_inv_same n s); auto using same_rpc_frame, same_rpc_create, same_rpc_claim).
  - by apply rpc_request.
  - by apply rpc_resolve.
  - by apply rpc_resolve.
  - apply (sys_inv_same n s); auto. by apply same_rpc_sessions.
  - apply (sys_inv_same n s); auto. unfold pause_pty.
    pose proof (same_rpc_send (sh s) (CtlSession (str "pausePty") sid)) as Hp.
    by destruct (send_control _ _) as [[] ?].
  - apply (sys_inv_same n s); auto. unfold resume_pty.
    pose proof (same_rpc_send (sh s) (CtlSession (str "resumePty") sid)) as Hp.
    by destruct (send_control _ _) as [[] ?].
  - apply (sys_inv_same n s); auto. unfold same_rpc, rpc_of. cbn. by rewrite H.
  - unfold disconnect_begin in H. destruct (generation (sh s) =? g) eqn:Eg; [|done].
    destruct (connected (sh s)) eqn:Ec; [|done]. cbn in H. simplify_eq. apply Z.eqb_eq in Eg. subst g.
    split; [by apply rpc_inv_conn|]. destruct Hv as [Ho Ht Hk]. split; cbn; [|done|done].
    intros id g Hg. right. destruct (Ho id g Hg) as [[_ <-]|[pc Hpc]].
    + exists MovePaused. apply elem_of_app. right. constructor.
    + exists pc. apply elem_of_app. by left.
  - apply (sys_inv_same n s); [done|done| |done]. intros g' pc Hg. rewrite H in Hg.
    rewrite elem_of_app, elem_of_cons in Hg. destruct Hg as [?|[[= -> _]|?]];
      [exists pc|exists RejectPending|exists pc]; rewrite elem_of_app, elem_of_cons; auto.
  - rewrite H in Hv. by apply rpc_reject.
  - destruct Hv as [Ho Ht Hk]. split; [by apply rpc_inv_conn|]. split; cbn; [|done|done].
    intros id g Hg. destruct (Ho id g Hg) as [[Hc _]|?]; [cbn in Hc; congruence|by right].
  - destruct Hv as [Ho Ht Hk]. split; [by apply rpc_inv_conn|]. split; cbn; [|done|done].
    intros id g Hg. destruct (Ho id g Hg) as [[Hc _]|?]; [|by right].
    cbn in Hc. specialize (Hk H). cbn in Hk. congruence.
  - apply (sys_inv_same n s); [done|apply same_rpc_claim|auto|done].
  - apply (sys_inv_same n s); [done| |auto|done].
    unfold resync_drain in H0. simplify_eq.
    eapply same_rpc_trans; [apply (same_rpc_known live)|done].
  - apply (sys_inv_same n s); [done| |auto|done].
    eapply same_rpc_trans; [apply (same_rpc_send (sh s) (CtlSession (str "resumePty") sid))|done].
Qed.

(** C3: under every interleaving of requests, replies, deadlines, lost
    connections and reconnects, no caller is left hanging and none is answered
    twice: each request that was sent is still pending or has been resolved, at
    most once, and a pending one belongs to the live connection or to a dead one
    whose teardown has yet to reject it. *)
Theorem rpc_never_hangs n s :
  nsteps client_step n sys_new s -> Z.of_nat n < 2 ^ 64 ->
  NoDup (resolved (events (sh s))) /\
  (forall id, id ∈ sent (events (sh s)) ->
     pending (sh s) !! id <> None \/ id ∈ resolved (events (sh s))) /\
  forall id g, pending (sh s) !! id = Some g ->
    (id ∉ resolved (events (sh s))) /\
    (connected (sh s) = true /\ generation (sh s) = g \/ exists pc, (g, pc) ∈ closing s).
Proof.
  intros Hs Hn. assert (H : sys_inv n s).
  { revert s Hs Hn. induction n as [|n IH]; intros s Hs Hn.
    - inversion Hs; subst. split; split; cbn; try done; [constructor|by intros ? ?%elem_of_nil..].
    - apply nsteps_inv_r in Hs as (q & Hq & Hs). eapply client_step_inv; [lia|apply IH; [done|lia]|done]. }
  destruct H as [[_ Hp Hd _ Hse] [Ho _ _]]. split; [exact Hd|]. split; [exact Hse|].
  intros id g Hg. split; [by apply (Hp id g Hg)|by apply (Ho id g Hg)].
Qed.

(** ** A session exits once for each time it became known *)

Fixpoint knowns (sid : bytes) (l : list event) : nat :=
  match l with
  | [] => 0
  | Known k :: l => (if bool_decide (k = sid) then 1 else 0) + knowns sid l
  | _ :: l => knowns sid l
  end.
Fixpoint exits (sid : bytes) (l : list event) : nat :=
  match l with
  | [] => 0
  | OnExit _ k _ :: l => (if bool_decide (k = sid) then 1 else 0) + exits sid l
  | _ :: l => exits sid l
  end.

Lemma knowns_app sid l k : knowns sid (l ++ k) = (knowns sid l + knowns sid k)%nat.
Proof. induction l as [|[] l IH]; cbn; auto. rewrite IH. lia. Qed.
Lemma exits_app sid l k : exits sid (l ++ k) = (exits sid l + exits sid k)%nat.
Proof. induction l as [|[] l IH]; cbn; auto. rewrite IH. lia. Qed.

Definition lives (sid : bytes) (s : Shared) : Prop :=
  (exits sid (events s) + (if bool_decide (sid ∈ known_alive s) then 1 else 0))%nat
  = knowns sid (events s).

Lemma lives_sessions sid s c q evs :
  knowns sid evs = 0%nat -> exits sid evs = 0%nat -> lives sid s ->
  lives sid (set_sessions s c q (known_alive s) evs).
Proof. unfold lives. cbn. rewrite knowns_app, exits_app. intros -> ->. lia. Qed.

Lemma lives_pending sid s p n evs :
  knowns sid evs = 0%nat -> exits sid evs = 0%nat -> lives sid s -> lives sid (set_pending s p n evs).
Proof. unfold lives. cbn. rewrite knowns_app, exits_app. intros -> ->. lia. Qed.

Lemma lives_mark sid s k : lives sid s -> lives sid (mark_known s k).
Proof.
  unfold lives, mark_known. cbn. rewrite knowns_app, exits_app. intros H.
  destruct (decide (k ∈ known_alive s)) as [Hk|Hk].
  - rewrite (bool_decide_eq_true_2 (k ∈ _)) by done.
    replace ({[k]} ∪ known_alive s) with (known_alive s) 
      by (symmetry; apply subseteq_union_1_L, singleton_subseteq_l, Hk). cbn. lia.
  - rewrite (bool_decide_eq_false_2 (k ∈ _)) by done. cbn.
    destruct (decide (k = sid)) as [->|Hne].
    + rewrite (bool_decide_eq_false_2 (sid ∈ known_alive s)) in H by done.
      rewrite (bool_decide_eq_true_2 (sid = sid)) by done.
      rewrite bool_decide_eq_true_2 by (by apply elem_of_union_l, elem_of_singleton). lia.
    + rewrite (bool_decide_eq_false_2 (k = sid)) by done.
      rewrite (bool_decide_ext (sid ∈ {[k]} ∪ known_alive s) (sid ∈ known_alive s)); [lia|].
      rewrite elem_of_union, elem_of_singleton. split; [intros [?|?]; congruence|by right].
Qed.

Lemma lives_claim sid s k st : lives sid s -> lives sid (claim_exit s k st).
Proof.
  unfold claim_exit. intros H. destruct (decide (k ∈ known_alive s)) as [Hk|Hk];
    [rewrite (bool_decide_eq_true_2 _ Hk)|by rewrite (bool_decide_eq_false_2 _ Hk)].
  unfold lives in *. cbn.
  rewrite knowns_app, exits_app. cbn. destruct (decide (k = sid)) as [->|Hne].
  - rewrite bool_decide_eq_true_2 in H by done. rewrite (bool_decide_eq_true_2 (sid = sid)) by done.
    rewrite bool_decide_eq_false_2; [lia|]. rewrite elem_of_difference, elem_of_singleton. by intros [].
  - rewrite (bool_decide_eq_false_2 (k = sid)) by done.
    rewrite (bool_decide_ext (sid ∈ known_alive s ∖ {[k]}) (sid ∈ known_alive s)); [lia|].
    rewrite elem_of_difference, elem_of_singleton. split; [by intros []|]. intros; split; congruence.
Qed.

Lemma lives_send sid s m : lives sid s -> lives sid (send_control s m).2.
Proof.
  unfold lives, send_control. destruct (control_tx s) as [tx|]; [|auto].
  destruct (receiving tx); cbn; auto.
Qed.

Lemma lives_known sid live s : lives sid s -> lives sid (resync_known s live).
Proof.
  unfold resync_known. revert s. induction (elements live) as [|x l IH]; intros s H; [done|].
  cbn [foldl]. apply IH. by apply lives_mark.
Qed.

Lemma lives_request sid s m p : lives sid s -> lives sid (request_send s m p).2.
Proof.
  intros H. unfold request_send. cbn [set_pending control_tx].
  destruct (control_tx s) eqn:E; [|by apply lives_pending].
  set (id := wrap 64 _). set (s1 := set_pending (set_pending s _ id []) _ id []).
  assert (Hs : lives sid s1) by (by apply lives_pending, lives_pending).
  apply (lives_send sid s1 (CtlRequest id m p)) in Hs.
  destruct (send_control s1 _) as [[] s2]; by apply lives_pending.
Qed.

Lemma lives_frame sid s f : lives sid s -> lives sid (dispatch_frame from_json s f).
Proof.
  intros H. unfold dispatch_frame. destruct (kind f).
  - apply lives_sessions; [by destruct (subscribers s !! _)..|done].
  - destruct (as_resize f) as [[]|]; [|done]. destruct (subscribers s !! _); [|done].
    by apply lives_sessions.
  - by apply lives_claim.
Qed.

Lemma lost_no_life sid ids :
  knowns sid ((fun id => Resolved id ConnectionLost) <$> ids) = 0%nat /\
  exits sid ((fun id => Resolved id ConnectionLost) <$> ids) = 0%nat.
Proof. induction ids as [|x l IH]; [done|]. exact IH. Qed.

Lemma step_lives sid s s' : lives sid (sh s) -> client_step s s' -> lives sid (sh s').
Proof.
  intros H Hs.
  assert (Hres : forall id o, lives sid (resolve_request (sh s) id o)).
  { intros id o. unfold resolve_request. destruct (pending (sh s) !! id); [|done]. by apply lives_pending. }
  destruct Hs; cbn [sh]; try done.
  - by apply lives_request.
  - apply Hres.
  - apply Hres.
  - by apply lives_frame.
  - unfold create_finish. destruct (reply_is_cold r); cbn [snd]; [apply lives_sessions; try done|];
      by apply lives_mark.
  - by apply lives_sessions.
  - pose proof (lives_send sid _ (CtlSession (str "pausePty") sid0) H) as Hp. unfold pause_pty.
    by destruct (send_control _ _) as [[] ?].
  - pose proof (lives_send sid _ (CtlSession (str "resumePty") sid0) H) as Hp. unfold resume_pty.
    by destruct (send_control _ _) as [[] ?].
  - unfold disconnect_begin in H0. destruct (negb _); [done|]. destruct (negb _); [done|].
    by simplify_eq.
  - destruct (lost_no_life sid (of_generation (pending (sh s)) g)). by apply lives_pending.
  - by apply lives_claim.
  - pose proof (lives_known sid live _ H) as Hk. unfold resync_drain in *. by simplify_eq.
  - pose proof (lives_send sid _ (CtlSession (str "resumePty") sid0) H) as Hp. done.
Qed.

(** The claim of an exit is exclusive. Under every interleaving of stream
    frames, create replies and resyncs the exits delivered for a session are as
    many as the times it became known, less one while it is known: an exit
    frame and a reconnect never both deliver for one life of a session. *)
Theorem one_exit_per_life sid s :
  rtc client_step sys_new s ->
  (exits sid (events (sh s)) + (if bool_decide (sid ∈ known_alive (sh s)) then 1 else 0))%nat
  = knowns sid (events (sh s)).
Proof.
  apply (rtc_invariant client_step (fun s => lives sid (sh s))); [|done].
  intros x y. apply step_lives.
Qed.
End steps.

(** ** A reconnect resumes what the lost connection left paused *)

Definition producers (s : Shared) : gset bytes * gset bytes :=
  (producer_paused s, producer_resumes_owed s).

Lemma fold_claim_spec l s :
  NoDup l -> (forall x, x ∈ l -> x ∈ known_alive s) ->
  let s' := foldl resync_claim s l in
  control_tx s' = control_tx s /\ connected s' = connected s /\
  known_alive s' = known_alive s ∖ list_to_set l /\
  producer_paused s' = producer_paused s ∖ list_to_set l /\
  producer_resumes_owed s' = producer_resumes_owed s ∖ list_to_set l.
Proof.
  revert s. induction l as [|x l IH]; intros s Hn Hl; cbn [foldl list_to_set].
  - by rewrite !difference_empty_L.
  - apply NoDup_cons in Hn as [Hx Hn].
    assert (Hk : x ∈ known_alive s) by (apply Hl; constructor).
    unfold resync_claim at 2 4 6 8 10. unfold claim_exit. rewrite (bool_decide_eq_true_2 _ Hk).
    edestruct IH as (-> & -> & -> & -> & ->); [exact Hn| |].
    + intros y Hy. cbn. apply elem_of_difference. split; [apply Hl; by constructor|].
      rewrite elem_of_singleton. by intros ->.
    + cbn. by rewrite !difference_difference_l_L.
Qed.

Lemma resync_known_spec live s :
  let s' := resync_known s live in
  control_tx s' = control_tx s /\ connected s' = connected s /\
  known_alive s' = known_alive s ∪ live /\ producers s' = producers s.
Proof.
  unfold resync_known. cbn zeta. rewrite <- (list_to_set_elements_L live) at 4.
  revert s. induction (elements live) as [|x l IH]; intros s; cbn [foldl list_to_set].
  - by rewrite union_empty_r_L.
  - destruct (IH (mark_known s x)) as (-> & -> & -> & ->). cbn. split_and!; try done.
    by rewrite (union_comm_L {[x]}), union_assoc_L.
Qed.

Lemma fold_resume_spec l s q :
  control_tx s = Some (mkControlTx q true) ->
  let s' := foldl resync_resume s l in
  control_tx s' = Some (mkControlTx (q ++ (CtlSession (str "resumePty") <$> l)) true) /\
  connected s' = connected s /\ known_alive s' = known_alive s /\
  producer_paused s' = producer_paused s ∖ list_to_set l /\
  producer_resumes_owed s' = producer_resumes_owed s.
Proof.
  revert s q. induction l as [|x l IH]; intros s q Hq; cbn [foldl list_to_set fmap list_fmap].
  - by rewrite app_nil_r, difference_empty_L.
  - assert (H : resync_resume s x = set_producer (set_conn s (connected s)
        (Some (mkControlTx (q ++ [CtlSession (str "resumePty") x]) true)) (generation s))
        (producer_paused s ∖ {[x]}) (producer_resumes_owed s))
      by (unfold resync_resume, send_control; by rewrite Hq).
    rewrite H. destruct (IH (set_producer (set_conn s (connected s)
        (Some (mkControlTx (q ++ [CtlSession (str "resumePty") x]) true)) (generation s))
        (producer_paused s ∖ {[x]}) (producer_resumes_owed s)) (q ++ [CtlSession (str "resumePty") x]))
      as (Ht & Hc & Hk & Hp & Ho); [reflexivity|]. rewrite Ht, Hc, Hk, Hp, Ho. cbn.
    by rewrite <- app_assoc, difference_difference_l_L.
Qed.

Lemma resync_spec s live q :
  control_tx s = Some (mkControlTx q true) -> producer_paused s = ∅ ->
  let s' := resync s live in
  connected s' = connected s /\ known_alive s' = live /\ producers s' = (∅, ∅) /\
  exists owed,
    control_tx s' = Some (mkControlTx (q ++ (CtlSession (str "resumePty") <$> owed)) true) /\
    NoDup owed /\
    forall sid, sid ∈ owed <->
      sid ∈ producer_resumes_owed s /\ (sid ∈ live \/ sid ∉ known_alive s).
Proof.
  intros Hq Hpa. unfold resync. cbn zeta. set (gone := resync_gone s live).
  assert (Hgone : forall x, x ∈ gone <-> x ∈ known_alive s /\ x ∉ live)
    by (intros x; unfold gone, resync_gone; by rewrite elem_of_elements, elem_of_difference).
  destruct (fold_claim_spec gone s) as (Ht2 & Hc2 & Hk2 & Hp2 & Ho2).
  { apply NoDup_elements. } { intros x Hx. by apply Hgone in Hx as []. }
  set (s2 := foldl resync_claim s gone) in *.
  destruct (resync_known_spec live s2) as (Ht3 & Hc3 & Hk3 & Hp3).
  set (s3 := resync_known s2 live) in *. unfold resync_drain.
  set (owed := elements (producer_resumes_owed s3)).
  destruct (fold_resume_spec owed (set_producer s3 (producer_paused s3) ∅) q)
    as (Ht4 & Hc4 & Hk4 & Hp4 & Ho4); [cbn; by rewrite Ht3, Ht2|].
  set (s4 := foldl resync_resume _ owed) in *.
  unfold producers in Hp3. injection Hp3 as Hp3 Ho3. cbn in Hc4, Hk4, Hp4, Ho4.
  split; [by rewrite Hc4, Hc3, Hc2|]. split.
  { rewrite Hk4, Hk3, Hk2. apply set_eq. intros x.
    rewrite elem_of_union, elem_of_difference, elem_of_list_to_set, Hgone.
    destruct (decide (x ∈ live)); tauto. }
  split.
  { unfold producers. rewrite Ho4, Hp4, Hp3, Hp2, Hpa. f_equal. apply set_eq. intros x.
    rewrite !elem_of_difference, !elem_of_empty. tauto. }
  exists owed. split; [exact Ht4|]. split; [apply NoDup_elements|]. intros sid.
  unfold owed. rewrite elem_of_elements, Ho3, Ho2, elem_of_difference, elem_of_list_to_set, Hgone.
  destruct (decide (sid ∈ live)), (decide (sid ∈ known_alive s)); tauto.
Qed.

Lemma reset_spec s :
  connected s = true ->
  let s' := reset_connection s in
  connected s' = false /\ known_alive s' = known_alive s /\ producer_paused s' = ∅ /\
  producer_resumes_owed s' = producer_resumes_owed s ∪ producer_paused s.
Proof.
  intros Hc. unfold reset_connection, handle_disconnect, disconnect_begin.
  rewrite Z.eqb_refl, Hc. done.
Qed.

(** The list request of a resync on a fresh connection, answered. *)
Lemma list_request_spec s :
  control_tx s = Some (mkControlTx [] true) ->
  exists id req s1, request_send s (str "listSessions") (str "null") = (Some id, s1) /\
    let s2 := resolve_request s1 id (RpcOk []) in
    connected s2 = connected s /\ control_tx s2 = Some (mkControlTx [req] true) /\
    known_alive s2 = known_alive s /\ producers s2 = producers s.
Proof.
  intros Ht. unfold request_send, send_control. cbn [set_pending control_tx]. rewrite Ht.
  cbn [receiving queued]. do 3 eexists. split; [done|]. unfold resolve_request.
  cbn [set_pending set_conn pending]. rewrite lookup_insert_eq. done.
Qed.

(** When a connection is lost and the next one is set up after its
    teardown, the resync sends a resume for exactly the sessions that were
    paused or owed one and have not died in between, nothing is paused or owed
    any more, and the client knows the sessions the daemon listed. *)
Theorem reconnect_resumes s live :
  connected s = true ->
  let (ok, s') := ensure_connected (reset_connection s) true (Some live) in
  ok = true /\ connected s' = true /\ known_alive s' = live /\ producers s' = (∅, ∅) /\
  exists owed list_request,
    control_tx s' = Some (mkControlTx (list_request :: (CtlSession (str "resumePty") <$> owed)) true) /\
    NoDup owed /\
    forall sid, sid ∈ owed <->
      (sid ∈ producer_paused s \/ sid ∈ producer_resumes_owed s) /\
      (sid ∈ live \/ sid ∉ known_alive s).
Proof.
  intros Hc. destruct (reset_spec s Hc) as (Hc0 & Hk0 & Hp0 & Ho0).
  unfold ensure_connected. rewrite Hc0. cbn [negb].
  destruct (list_request_spec (install (new_generation (reset_connection s))) eq_refl)
    as (id & req & s1 & -> & Hc1 & Htx & Hk1 & [= Hp1 Ho1]).
  cbn in Hc1, Hk1, Hp1, Ho1. rewrite Hk0 in Hk1. rewrite Hp0 in Hp1. rewrite Ho0 in Ho1.
  set (s2 := resolve_request s1 id (RpcOk [])) in *.
  destruct (resync_spec s2 live [req] Htx Hp1) as (Hc2 & Hk2 & Hp2 & owed & Ht & Hn & Ho).
  split; [done|]. split; [by rewrite Hc2|]. split; [done|]. split; [done|].
  exists owed, req. split; [done|]. split; [done|]. intros sid.
  rewrite Ho, Ho1, Hk1, elem_of_union. tauto.
Qed.

(** * Runs *)

(** A schedule of the tasks, executable. *)
Inductive action :=
| ARequest (method params : bytes) | AReply (id : Z) (r : result bytes (Z * bytes)) | ATimeout (id : Z)
| AFrame (f : StreamFrame) | ACreated (sid : bytes) (r : CreateReply)
| ASubscribe (sid : bytes) (sub : nat) | APause (sid : bytes)
| ADisconnect (g : Z) | AMove | AReject
| AConnect | AInstall | AListed (live : gset bytes) | AClaim | AKnown | AFlush | AConnected.

Section runs.
Context (from_json : bytes -> option ExitStatus).

Definition exec (s : Sys) (a : action) : option Sys :=
  let on s' := Some (mkSys s' (closing s) (conn s)) in
  match a, closing s, conn s with
  | ARequest m p, _, _ => on (request_send (sh s) m p).2
  | AReply id r, _, _ => on (on_reply (sh s) id r)
  | ATimeout id, _, _ => on (on_timeout (sh s) id)
  | AFrame f, _, _ => on (dispatch_frame from_json (sh s) f)
  | ACreated sid r, _, _ => on (create_finish (sh s) sid r).2
  | ASubscribe sid n, _, _ => on (subscribe (sh s) sid n)
  | APause sid, _, _ => on (pause_pty (sh s) sid).2
  | ADisconnect g, _, _ =>
      match disconnect_begin (sh s) g with
      | (true, s') => Some (mkSys s' (closing s ++ [(g, MovePaused)]) (conn s))
      | _ => None
      end
  | AMove, (g, MovePaused) :: l, _ =>
      Some (mkSys (move_paused (sh s)) ((g, RejectPending) :: l) (conn s))
  | AReject, (g, RejectPending) :: l, _ => Some (mkSys (reject_pending (sh s) g) l (conn s))
  | AConnect, _, NoConnect =>
      if connected (sh s) then None else Some (mkSys (new_generation (sh s)) (closing s) Connecting)
  | AInstall, _, Connecting => Some (mkSys (install (sh s)) (closing s) Listing)
  | AListed live, _, Listing =>
      Some (mkSys (sh s) (closing s) (Claiming live (resync_gone (sh s) live)))
  | AClaim, _, Claiming live (sid :: gone) =>
      Some (mkSys (resync_claim (sh s) sid) (closing s) (Claiming live gone))
  | AKnown, _, Claiming live [] =>
      let (owed, s') := resync_drain (resync_known (sh s) live) in
      Some (mkSys s' (closing s) (Flushing owed))
  | AFlush, _, Flushing (sid :: owed) =>
      Some (mkSys (resync_resume (sh s) sid) (closing s) (Flushing owed))
  | AConnected, _, Flushing [] => Some (mkSys (sh s) (closing s) NoConnect)
  | _, _, _ => None
  end.

Fixpoint run (l : list action) (s : Sys) : option Sys :=
  match l with
  | [] => Some s
  | a :: l => exec s a ≫= run l
  end.

Lemma exec_step s a s' : exec s a = Some s' -> client_step from_json s s'.
Proof.
  unfold exec. destruct a.
  1-7: intros [= <-]; constructor.
  - destruct (disconnect_begin (sh s) g) as [[] s1] eqn:E; [|done]. intros [= <-]. by constructor.
  - destruct (closing s) as [|[g []] l] eqn:E; try done. intros [= <-]. by apply (cs_move _ s [] g l).
  - destruct (closing s) as [|[g []] l] eqn:E; try done. intros [= <-]. by apply (cs_reject _ s [] g l).
  - destruct (conn s) eqn:E; try done. destruct (connected (sh s)) eqn:Ec; [done|].
    intros [= <-]. by constructor.
  - destruct (conn s) eqn:E; try done. intros [= <-]. by constructor.
  - destruct (conn s) eqn:E; try done. intros [= <-]. by constructor.
  - destruct (conn s) as [| | |? []|] eqn:E; try done. intros [= <-]. by apply cs_claim.
  - destruct (conn s) as [| | |? []|] eqn:E; try done. destruct (resync_drain _) eqn:Ed.
    intros [= <-]. by eapply cs_known.
  - destruct (conn s) as [| | | |[]] eqn:E; try done. intros [= <-]. by apply cs_flush.
  - destruct (conn s) as [| | | |[]] eqn:E; try done. intros [= <-]. by apply cs_connected.
Qed.

Lemma run_nsteps l s s' : run l s = Some s' -> nsteps (client_step from_json) (length l) s s'.
Proof.
  revert s. induction l as [|a l IH]; intros s H; cbn in *.
  - simplify_eq. constructor.
  - destruct (exec s a) eqn:E; [|done]. eapply nsteps_l; [by apply exec_step in E|]. by apply IH.
Qed.
End runs.

Module ClientExamples.
Definition no_json : bytes -> option ExitStatus := fun _ => None.
Definition sid : bytes := str "s".
Definition fresh : CreateReply :=
  mkCreateReply true false (mkColdRestorePayload [] 0 0 false None) false None.
Definition exit_frame : StreamFrame := mkStreamFrame Exit sid 0 [].

(** Connect and resync with nothing gone and nothing owed. *)
Definition connect (live : gset bytes) : list action :=
  [AConnect; AInstall; AListed live; AKnown; AConnected].

(** The daemon lists a session, its exit frame overtakes the end of the resync,
    which then marks the dead session known again: the next resync delivers a
    second exit for it. *)
Example exit_delivered_twice :
  (fun s => exits sid (events (sh s))) <$>
    run no_json (connect ∅ ++ [ACreated sid fresh; ADisconnect 1; AMove; AReject;
      AConnect; AInstall; AListed {[sid]}; AFrame exit_frame; AKnown; AConnected;
      ADisconnect 2; AMove; AReject; AConnect; AInstall; AListed ∅; AClaim]) sys_new
  = Some 2%nat.
Proof. vm_compute. reflexivity. Qed.

(** An exit frame on the stream socket that overtakes the create reply on the
    control socket finds the session unknown and is dropped; the reply then
    records the dead session as alive. *)
Example early_exit_is_dropped :
  (fun s => (exits sid (events (sh s)), bool_decide (sid ∈ known_alive (sh s)))) <$>
    run no_json (connect ∅ ++ [ASubscribe sid 7; AFrame exit_frame; ACreated sid fresh]) sys_new
  = Some (0%nat, true).
Proof. vm_compute. reflexivity. Qed.

(** A reconnect that resyncs between the sections of the old teardown finds
    nothing owed; the paused session is recorded as owed only afterwards, and
    the new connection carries no resume for it. *)
Example slow_teardown_strands_resume :
  (fun s => (connected (sh s), queued <$> control_tx (sh s), conn s,
             bool_decide (sid ∈ producer_resumes_owed (sh s)))) <$>
    run no_json (connect ∅ ++ [ACreated sid fresh; APause sid; ADisconnect 1] ++
      connect {[sid]} ++ [AMove; AReject]) sys_new
  = Some (true, Some [], NoConnect, true).
Proof. vm_compute. reflexivity. Qed.

Definition lost_run : list action :=
  connect ∅ ++ [ARequest (str "kill") []; ARequest (str "list") []; AReply 1 (Ok []); ADisconnect 1].
End ClientExamples.

Lemma rpc_never_hangs_witness : exists s,
  nsteps (client_step ClientExamples.no_json) 9 sys_new s /\
  sent (events (sh s)) = [1; 2] /\ resolved (events (sh s)) = [1] /\
  connected (sh s) = false /\ exists pc, (1, pc) ∈ closing s.
Proof.
  set (r := run ClientExamples.no_json ClientExamples.lost_run sys_new).
  assert (Hb : match r with
    | Some s => sent (events (sh s)) = [1; 2] /\ resolved (events (sh s)) = [1] /\
        connected (sh s) = false /\ pending (sh s) !! 2 = Some 1
    | None => False end) by (vm_compute; repeat split).
  destruct r as [s|] eqn:E; [|contradiction]. exists s. destruct Hb as (H1 & H2 & H3 & H4).
  assert (Hs : nsteps (client_step ClientExamples.no_json) 9 sys_new s)
    by exact (run_nsteps _ ClientExamples.lost_run _ _ E).
  split; [exact Hs|]. split; [exact H1|]. split; [exact H2|]. split; [exact H3|].
  destruct (rpc_never_hangs _ 9 s Hs ltac:(reflexivity)) as (_ & _ & Hp).
  destruct (Hp 2 1 H4) as [_ [[Hc _]|Hc]]; [rewrite H3 in Hc; discriminate|exact Hc].
Defined.

Lemma one_exit_per_life_witness : exists s,
  rtc (client_step ClientExamples.no_json) sys_new s /\
  bool_decide (ClientExamples.sid ∈ known_alive (sh s)) = true /\
  knowns ClientExamples.sid (events (sh s)) = S (exits ClientExamples.sid (events (sh s))).
Proof.
  set (l := ClientExamples.connect ∅ ++ [ACreated ClientExamples.sid ClientExamples.fresh]).
  assert (Hb : match run ClientExamples.no_json l sys_new with
    | Some s => bool_decide (ClientExamples.sid ∈ known_alive (sh s)) = true
    | None => False end) by (vm_compute; reflexivity).
  destruct (run ClientExamples.no_json l sys_new) as [s|] eqn:E; [|contradiction]. exists s.
  assert (Hs : rtc (client_step ClientExamples.no_json) sys_new s)
    by exact (rtc_nsteps_2 _ _ _ (run_nsteps _ l _ _ E)).
  split; [exact Hs|]. split; [exact Hb|].
  pose proof (one_exit_per_life ClientExamples.no_json ClientExamples.sid s Hs) as H.
  rewrite Hb in H. rewrite <- H. apply Nat.add_1_r.
Defined.

Lemma reconnect_resumes_witness :
  let s := (pause_pty (create_finish (install (new_generation shared_new)) ClientExamples.sid
              ClientExamples.fresh).2 ClientExamples.sid).2 in
  let s' := (ensure_connected (reset_connection s) true (Some {[ClientExamples.sid]})).2 in
  connected s = true /\ producers s' = (∅, ∅) /\
  exists owed req,
    control_tx s' = Some (mkControlTx (req :: (CtlSession (str "resumePty") <$> owed)) true) /\
    ClientExamples.sid ∈ owed.
Proof.
  set (s := (pause_pty _ _).2). cbn zeta. assert (Hc : connected s = true) by reflexivity.
  split; [exact Hc|].
  pose proof (reconnect_resumes s {[ClientExamples.sid]} Hc) as Hr.
  destruct (ensure_connected (reset_connection s) true (Some {[ClientExamples.sid]})) as [ok s'].
  destruct Hr as (_ & _ & _ & Hp & owed & req & Ht & _ & Ho).
  split; [exact Hp|]. exists owed, req. split; [exact Ht|]. apply Ho. split.
  - left. apply elem_of_union_l. apply elem_of_singleton. reflexivity.
  - left. apply elem_of_singleton. reflexivity.
Defined.
