(* ===== verification/Gc.v ===== *)
(** Terminal garbage collection (grove-core/src/pty.rs, daemon/gc.rs): session
    naming, the attribution of daemon sessions to worktrees, the three plans
    (worktrees, registry, history directories), the sweep of leftover processes
    and the pass that runs them. What the file system, the configuration files,
    the daemon and the process table answer is an argument. *)

From Stdlib Require Import Sorted.
From S2P Require Import Prelude Utf8 Text HistoryLog Client.

Definition GC_MIN_AGE : Z := 5 * 60.                  (* seconds *)
Definition WORKTREE_HASH_LEN : nat := 12.
Definition PANE_PREFIX_LEN : nat := 8.
Definition PANE_HASH_LEN : nat := 4.

(** * Session names *)

Section naming.
Context (sha256 : bytes -> bytes).

(** Two lower-case hex digits. *)
Definition hex2 (b : Z) : bytes :=
  let digit d := if d <? 10 then 48 + d else 97 + (d - 10) in
  [digit (Z.shiftr b 4); digit (Z.land b 15)].

Definition short_hash (input : bytes) (len : nat) : bytes :=
  take len (concat (hex2 <$> sha256 input)).

Definition ascii_alphanumeric (b : Z) : bool :=
  in_range 48 57 b || in_range 65 90 b || in_range 97 122 b.

Definition pane_short_id (pane_id : bytes) : bytes :=
  let prefix := take PANE_PREFIX_LEN
    (to_ascii_lowercase <$> filter (fun b => ascii_alphanumeric b = true) pane_id) in
  let hash := short_hash pane_id PANE_HASH_LEN in
  if bool_decide (prefix = []) then hash else prefix ++ hash.

Definition session_worktree_prefix (worktree_path : bytes) : bytes :=
  str "grove-" ++ short_hash worktree_path WORKTREE_HASH_LEN ++ str "-".

Definition grove_session_name (worktree_path pane_id : bytes) : bytes :=
  str "grove-" ++ short_hash worktree_path WORKTREE_HASH_LEN ++ str "-" ++ pane_short_id pane_id.

(** * Layouts *)

(** A JSON document, as serde_json reads it. *)
#[local] Unset Elimination Schemes.
Inductive Value :=
| Null | Bool (b : bool) | Num (n : Z) | Str (s : bytes)
| Arr (l : list Value) | Obj (l : list (bytes * Value)).
#[local] Set Elimination Schemes.

Fixpoint assoc (k : bytes) (l : list (bytes * Value)) : option Value :=
  match l with
  | [] => None
  | (k', v) :: l => if bytes_eqb k k' then Some v else assoc k l
  end.

Definition get_str (k : string) (l : list (bytes * Value)) : option bytes :=
  match assoc (str k) l with Some (Str s) => Some s | _ => None end.

Fixpoint collect_layout_session_ids (worktree_path : bytes) (node : Value) (ids : gset bytes) :
    gset bytes :=
  match node with
  | Obj object =>
      let node_type := get_str "type" object in
      if bool_decide (node_type = Some (str "horizontal")) ||
         bool_decide (node_type = Some (str "vertical"))
      then
        (fix in_object (l : list (bytes * Value)) : gset bytes :=
           match l with
           | [] => ids
           | (k, v) :: l =>
               if bytes_eqb k (str "children") then
                 match v with
                 | Arr children =>
                     (fix each (l : list Value) (ids : gset bytes) : gset bytes :=
                        match l with
                        | [] => ids
                        | child :: l => each l (collect_layout_session_ids worktree_path child ids)
                        end) children ids
                 | _ => ids
                 end
               else in_object l
           end) object
      else
        match get_str "id" object with
        | Some pane_id => {[grove_session_name worktree_path pane_id]} ∪ ids
        | None => ids
        end
  | _ => ids
  end.

(** The referenced ids of the layouts of worktrees that exist, and of the global
    panel's tabs. *)
Definition panel_layout_session_ids (base_dir : bytes) (tabs : list Value) : gset bytes :=
  foldl (fun ids tab =>
    match tab with
    | Obj object =>
        match get_str "mirrorPtyId" object, get_str "paneId" object with
        | None, Some pane_id => {[grove_session_name base_dir pane_id]} ∪ ids
        | _, _ => ids
        end
    | _ => ids
    end) ∅ tabs.

Definition collect_referenced_session_ids (path_exists : bytes -> bool) (referenced_paths : list bytes)
    (layouts : list (bytes * Value)) (panel_ids : gset bytes) : gset bytes :=
  let existing := filter (fun p => path_exists p = true) referenced_paths in
  panel_ids ∪ foldl (fun ids '(worktree_path, layout) =>
    if bool_decide (worktree_path ∈ existing)
    then collect_layout_session_ids worktree_path layout ids else ids) ∅ layouts.

(** * Attribution *)

Record SessionInfo := mkSessionInfo {
  info_session_id : bytes;
  is_alive : bool;
  info_pid : option Z
}.

Definition known_session_ids (sessions : list SessionInfo) : gset bytes :=
  list_to_set (info_session_id <$> sessions).
Definition live_session_ids (sessions : list SessionInfo) : gset bytes :=
  list_to_set (info_session_id <$> filter (fun s => is_alive s = true) sessions).

Record TerminalGcSessionInfo := mkGcSession {
  session_name : bytes;
  worktree_path : bytes;
  attached : bool;
  pane_pid : option Z
}.

Definition attribute (referenced_paths : list bytes) (id : bytes) : option bytes :=
  snd <$> list_find (fun path => starts_with (session_worktree_prefix path) id = true) referenced_paths.

Definition daemon_gc_session_infos (sessions : list SessionInfo) (referenced_paths : list bytes)
    (attached_session_names : gset bytes) : list TerminalGcSessionInfo :=
  omap (fun s =>
    (fun path => mkGcSession (info_session_id s) path
                   (bool_decide (info_session_id s ∈ attached_session_names)) (info_pid s))
    <$> attribute referenced_paths (info_session_id s)) sessions.
End naming.

(** * The plans *)

Record TerminalGcPlan := mkGcPlan {
  stale_worktree_paths : list bytes;
  stale_session_names : list bytes;
  stale_session_pane_pids : list Z;
  skipped_attached_worktree_paths : list bytes
}.

Definition gc_plan_default : TerminalGcPlan := mkGcPlan [] [] [] [].

Definition missing_paths (path_exists : bytes -> bool) (referenced_paths : list bytes)
    (infos : list TerminalGcSessionInfo) : list bytes :=
  let gone := filter (fun p => path_exists p = false) in
  foldl (fun s x => bt_insert x s) (bt_of_list (gone referenced_paths)) (gone (worktree_path <$> infos)).

(** [sessions_by_worktree.get(path)]: the sessions of a path in order. *)
Definition sessions_of (infos : list TerminalGcSessionInfo) (path : bytes) : list TerminalGcSessionInfo :=
  filter (fun s => worktree_path s = path) infos.

Definition insert_session (s : TerminalGcSessionInfo) (p : TerminalGcPlan) : TerminalGcPlan :=
  if attached s then p
  else mkGcPlan (stale_worktree_paths p) (bt_insert (session_name s) (stale_session_names p))
         (match pane_pid s with
          | Some pid => bt_insert pid (stale_session_pane_pids p)
          | None => stale_session_pane_pids p
          end) (skipped_attached_worktree_paths p).

Definition plan_path (infos : list TerminalGcSessionInfo) (p : TerminalGcPlan) (path : bytes) : TerminalGcPlan :=
  let here := sessions_of infos path in
  if existsb attached here
  then mkGcPlan (stale_worktree_paths p) (stale_session_names p) (stale_session_pane_pids p)
         (skipped_attached_worktree_paths p ++ [path])
  else
    foldl (fun p s => insert_session s p)
      (mkGcPlan (stale_worktree_paths p ++ [path]) (stale_session_names p)
         (stale_session_pane_pids p) (skipped_attached_worktree_paths p)) here.

Definition build_terminal_gc_plan (path_exists : bytes -> bool) (referenced_paths : list bytes)
    (infos : list TerminalGcSessionInfo) : TerminalGcPlan :=
  foldl (plan_path infos) gc_plan_default (missing_paths path_exists referenced_paths infos).

Record RegistryReapEntry := mkReapEntry {
  pty_id : bytes;
  entry_session : bytes;
  reader_exited : bool
}.

Record RegistryReapPlan := mkReapPlan {
  reap_candidates : list (bytes * bytes);      (* pty id, session name *)
  dead_reader_pty_ids : list bytes
}.

Definition build_registry_reap_plan (snapshot : list RegistryReapEntry) (known : gset bytes) :
    RegistryReapPlan :=
  foldl (fun p e =>
    if negb (bool_decide (entry_session e ∈ known))
    then mkReapPlan (reap_candidates p ++ [(pty_id e, entry_session e)]) (dead_reader_pty_ids p)
    else if reader_exited e
    then mkReapPlan (reap_candidates p) (dead_reader_pty_ids p ++ [pty_id e])
    else p) (mkReapPlan [] []) snapshot.

Record HistoryDirInfo := mkHistoryDir { dir_session_id : bytes; age : Z }.

Record HistoryGcInput := mkHistoryGcInput {
  dirs : list HistoryDirInfo;
  daemon_session_ids : gset bytes;
  referenced_session_ids : gset bytes;
  any_app_connected : bool;
  min_age : Z
}.

Definition plan_history_gc (input : HistoryGcInput) : list bytes :=
  if any_app_connected input then []
  else dir_session_id <$> filter (fun dir =>
         (dir_session_id dir ∉ daemon_session_ids input) /\
         (dir_session_id dir ∉ referenced_session_ids input) /\
         min_age input <= age dir) (dirs input).

(** * The process sweep *)

Record ProcessSnapshot := mkProcess { pid : Z; ppid : Z }.

Definition children_of (processes : list ProcessSnapshot) (p : Z) : list Z :=
  pid <$> filter (fun q => ppid q = p) processes.

(** One turn of [while let Some(pid) = stack.pop()]; the top of the stack is the
    head of the list. *)
Definition visit_body (processes : list ProcessSnapshot) (s : list Z * list Z) :
    (list Z * list Z) + list Z :=
  match s with
  | ([], candidates) => inr candidates
  | (p :: stack, candidates) =>
      if bool_decide (p ∈ candidates) then inl (stack, candidates)
      else inl (rev (children_of processes p) ++ stack, bt_insert p candidates)
  end.

Definition visit (processes : list ProcessSnapshot) (candidates : list Z) (root : Z) : option (list Z) :=
  loop (visit_body processes) (length processes + 2)%nat ([root], candidates).

Fixpoint visit_all (processes : list ProcessSnapshot) (candidates : list Z) (roots : list Z) :
    option (list Z) :=
  match roots with
  | [] => Some candidates
  | root :: roots => visit processes candidates root ≫= fun c => visit_all processes c roots
  end.

(** [None] of the process table is a failed [ps]. *)
Definition collect_process_tree_candidates (table : option (list ProcessSnapshot)) (roots : list Z) :
    option (list Z) :=
  match table with
  | None => Some []
  | Some processes => visit_all processes [] roots
  end.

(** The pids that remain, and the signals sent to them in order: [true] is
    SIGTERM, [false] SIGKILL. [term_ok] says whether SIGTERM could be sent. *)
Definition terminate_leftover_processes (candidates : list Z) (after_kill after_term : option (list Z))
    (term_ok : bool) : list Z * list (bool * list Z) :=
  if bool_decide (candidates = []) then ([], [])
  else
    match after_kill with
    | None => ([], [])
    | Some live =>
        let leftover := filter (fun p => p ∈ live) candidates in
        if bool_decide (leftover = []) then (leftover, [])
        else if negb term_ok then (leftover, [(true, leftover)])
        else
          match after_term with
          | None => (leftover, [(true, leftover)])
          | Some live =>
              let still := filter (fun p => p ∈ live) leftover in
              if bool_decide (still = []) then (leftover, [(true, leftover)])
              else (leftover, [(true, leftover); (false, still)])
          end
    end.

(** * The pass *)

Record TerminalGcReport := mkGcReport {
  r_stale_worktree_paths : list bytes;
  r_stale_session_names : list bytes;
  pruned_worktree_paths : list bytes;
  killed_session_names : list bytes;
  r_skipped_attached_worktree_paths : list bytes;
  leftover_process_ids : list Z;
  reaped_pty_ids : list bytes;
  r_dead_reader_pty_ids : list bytes
}.

Definition gc_report_default : TerminalGcReport := mkGcReport [] [] [] [] [] [] [] [].

(** The pane registry: pty id to session name and whether its reader exited. *)
Definition Registry := gmap bytes (bytes * bool).

Definition registry_snapshot (reg : Registry) : list RegistryReapEntry :=
  (fun '(id, (session, exited)) => mkReapEntry id session exited) <$> map_to_list reg.

(** What the pass did to the world outside the registry, in order: the layouts,
    snapshot and panel layouts of a worktree removed, a session killed, signals
    sent, a history directory removed. *)
Inductive gc_action :=
| RemoveLayouts (path : bytes)
| Kill (session : bytes)
| SignalProcesses (term : bool) (pids : list Z)
| RemoveHistory (session : bytes).

(** The registry as the pass changes it, and its actions. *)
Record GcState := mkGcState { reg : Registry; actions : list gc_action }.

(** The answers of the world to one pass. [client] is [None] without a daemon;
    [connected] and [listed] are [None] when the RPC fails. *)
Record GcWorld := mkGcWorld {
  referenced : option (list bytes);
  path_exists : bytes -> bool;
  client : bool;
  connected_clients : option Z;
  listed : option (list SessionInfo);
  layouts_removable : bytes -> bool;
  kill_ok : bytes -> bool;
  processes : option (list ProcessSnapshot);
  after_kill : option (list Z);
  after_term : option (list Z);
  term_ok : bool;
  history_dirs : option (list HistoryDirInfo);
  terminal_layouts : list (bytes * Value);       (* worktree path to layout *)
  panel_ids : gset bytes                         (* see [panel_layout_session_ids] *)
}.

Fixpoint reap_dead_registry_entries (candidates : list (bytes * bytes)) (r : Registry) : list bytes * Registry :=
  match candidates with
  | [] => ([], r)
  | (id, _) :: l =>
      match r !! id with
      | Some _ => let (ids, r) := reap_dead_registry_entries l (delete id r) in (id :: ids, r)
      | None => reap_dead_registry_entries l r
      end
  end.

Definition drop_registry_entries_for_session (r : Registry) (session : bytes) : Registry :=
  filter (fun '(_, (s, _)) => s <> session) r.

(** The removal of the layouts of stale worktrees stops at the first failure. *)
Fixpoint prune_worktrees (w : GcWorld) (paths : list bytes) : bool * list bytes :=
  match paths with
  | [] => (true, [])
  | p :: paths =>
      if layouts_removable w p then let (ok, l) := prune_worktrees w paths in (ok, p :: l)
      else (false, [])
  end.

Fixpoint kill_sessions (w : GcWorld) (names : list bytes) (r : Registry) : list bytes * Registry :=
  match names with
  | [] => ([], r)
  | n :: names =>
      if kill_ok w n
      then let (ks, r) := kill_sessions w names (drop_registry_entries_for_session r n) in (n :: ks, r)
      else kill_sessions w names r
  end.

Definition run_terminal_gc_without_daemon (w : GcWorld) (referenced_paths : list bytes) (dry_run : bool)
    (s : GcState) : option TerminalGcReport * GcState :=
  let plan := build_terminal_gc_plan (path_exists w) referenced_paths [] in
  let report pruned := mkGcReport (stale_worktree_paths plan) [] pruned [] [] [] [] [] in
  if dry_run then (Some (report []), s)
  else
    let (ok, pruned) := prune_worktrees w (stale_worktree_paths plan) in
    ((if ok then Some (report pruned) else None),
     mkGcState (reg s) (actions s ++ (RemoveLayouts <$> pruned))).

Section pass.
Context (sha256 : bytes -> bytes).

Definition prune_daemon_history_dirs (w : GcWorld) (known : gset bytes) (referenced_paths : list bytes) :
    list bytes :=
  match history_dirs w with
  | None => []
  | Some dirs =>
      let ids := collect_referenced_session_ids sha256 (path_exists w) referenced_paths
                   (terminal_layouts w) (panel_ids w) in
      plan_history_gc (mkHistoryGcInput dirs known ids false GC_MIN_AGE)
  end.

Definition run_terminal_gc (w : GcWorld) (dry_run : bool) (s : GcState) : option TerminalGcReport * GcState :=
  match referenced w with
  | None => (None, s)
  | Some referenced_paths =>
      let snapshot := registry_snapshot (reg s) in
      if negb (client w) then run_terminal_gc_without_daemon w referenced_paths dry_run s
      else if default false ((fun count => 1 <? count) <$> connected_clients w)
      then (Some gc_report_default, s)
      else
        match listed w with
        | None => (None, s)
        | Some sessions =>
            let known := known_session_ids sessions in
            let attached_names := list_to_set (entry_session <$> snapshot) in
            let infos := daemon_gc_session_infos sha256 sessions referenced_paths attached_names in
            let plan := build_terminal_gc_plan (path_exists w) referenced_paths infos in
            let reap := build_registry_reap_plan snapshot known in
            let report := mkGcReport (stale_worktree_paths plan) (stale_session_names plan) in
            let report pruned killed left reaped :=
              report pruned killed (skipped_attached_worktree_paths plan) left reaped (dead_reader_pty_ids reap) in
            if dry_run then (Some (report [] [] [] (reap_candidates reap).*1), s)
            else
              let (reaped, r1) := reap_dead_registry_entries (reap_candidates reap) (reg s) in
              let candidates :=
                default [] (collect_process_tree_candidates (processes w) (stale_session_pane_pids plan)) in
              let (ok, pruned) := prune_worktrees w (stale_worktree_paths plan) in
              let s1 := mkGcState r1 (actions s ++ (RemoveLayouts <$> pruned)) in
              if negb ok then (None, s1)
              else
                let (killed, r2) := kill_sessions w (stale_session_names plan) r1 in
                let (left, signals) :=
                  terminate_leftover_processes candidates (after_kill w) (after_term w) (term_ok w) in
                let pruned_history := prune_daemon_history_dirs w known referenced_paths in
                (Some (report pruned killed left reaped),
                 mkGcState r2 (actions s1 ++ (Kill <$> killed) ++
                   ((fun '(t, ps) => SignalProcesses t ps) <$> signals) ++
                   (RemoveHistory <$> pruned_history)))
        end
  end.
End pass.

(** * The process sweep finds the descendants *)

Section sweep.
Context (processes : list ProcessSnapshot).

Definition child (p q : Z) : Prop := exists s, s ∈ processes /\ ppid s = p /\ pid s = q.

Lemma elem_of_children p q : q ∈ children_of processes p <-> child p q.
Proof.
  unfold children_of, child. rewrite list_elem_of_fmap. split.
  - intros (s & -> & Hs%list_elem_of_filter). exists s. tauto.
  - intros (s & Hs & Hp & <-). exists s. split; [done|]. by apply list_elem_of_filter.
Qed.

(** Edges not yet walked, plus the stack: one less every turn. *)
Definition todo (candidates : list Z) : list ProcessSnapshot :=
  filter (fun q => ppid q ∉ candidates) processes.
Definition visit_measure (s : list Z * list Z) : nat := (length s.1 + length (todo s.2))%nat.

Lemma todo_insert p candidates :
  p ∉ candidates ->
  (length (children_of processes p) + length (todo (bt_insert p candidates)) = length (todo candidates))%nat.
Proof.
  intros Hp. unfold children_of, todo. rewrite length_fmap.
  induction processes as [|q l IH]; [done|]. rewrite !filter_cons.
  destruct (decide (ppid q = p)) as [->|Hne].
  - rewrite (decide_False (P := p ∉ bt_insert p candidates)) by (rewrite elem_of_bt_insert; tauto).
    rewrite (decide_True (P := p ∉ candidates)) by done. cbn [length]. lia.
  - destruct (decide (ppid q ∈ candidates)) as [Hi|Hi].
    + rewrite (decide_False (P := ppid q ∉ candidates)) by tauto.
      rewrite (decide_False (P := ppid q ∉ bt_insert p candidates)) by (rewrite elem_of_bt_insert; tauto).
      done.
    + rewrite (decide_True (P := ppid q ∉ candidates)) by done.
      rewrite (decide_True (P := ppid q ∉ bt_insert p candidates)) by (rewrite elem_of_bt_insert; tauto).
      cbn [length]. lia.
Qed.

Lemma visit_body_decreases s s' :
  visit_body processes s = inl s' -> (visit_measure s' < visit_measure s)%nat.
Proof.
  destruct s as [[|p stack] c]; [done|]. cbn. unfold visit_measure. case_bool_decide as Hp; intros [= <-]; cbn.
  - lia.
  - rewrite length_app, length_rev. pose proof (todo_insert p c Hp). lia.
Qed.

(** What the walk keeps: everything found is a descendant of a root, and a found
    process's children are found or on the stack. *)
Record visiting (roots : list Z) (s : list Z * list Z) : Prop := {
  vi_reach : forall q, q ∈ s.1 \/ q ∈ s.2 -> exists r, r ∈ roots /\ rtc child r q;
  vi_closed : forall p q, p ∈ s.2 -> child p q -> q ∈ s.1 \/ q ∈ s.2;
  vi_sorted : ascending s.2
}.

Lemma visit_body_visiting roots s s' :
  visiting roots s -> visit_body processes s = inl s' ->
  visiting roots s' /\ (forall q, q ∈ s.1 \/ q ∈ s.2 -> q ∈ s'.1 \/ q ∈ s'.2).
Proof.
  destruct s as [[|p stack] c]; [done|]. intros [Hr Hc Hs]. cbn in *.
  case_bool_decide as Hp; intros [= <-]; cbn.
  - split; [split; cbn; [|intros a b Ha Hab; destruct (Hc a b Ha Hab) as [[->|?]%elem_of_cons|?]; auto|done]|].
    + intros q Hq. apply Hr. rewrite elem_of_cons. tauto.
    + intros q [[->|?]%elem_of_cons|?]; auto.
  - assert (Hin : forall q, q ∈ rev (children_of processes p) ++ stack <-> child p q \/ q ∈ stack).
    { intros q. rewrite elem_of_app, <- elem_of_children, list_elem_of_In, <- in_rev, <- list_elem_of_In. done. }
    split; [split; cbn|].
    + intros q. rewrite Hin, elem_of_bt_insert. intros [[Hq|Hq]|[->|Hq]].
      * destruct (Hr p) as (r & Hr' & Hp'); [left; constructor|]. exists r. split; [done|].
        eapply rtc_r; eauto.
      * apply Hr. left. by constructor.
      * apply Hr. left. constructor.
      * apply Hr. by right.
    + intros a b. rewrite Hin, !elem_of_bt_insert. intros [->|Ha] Hab; [by left; left|].
      destruct (Hc a b Ha Hab) as [[->|?]%elem_of_cons|?]; auto.
    + by apply bt_insert_ascending.
    + intros q. rewrite Hin, elem_of_bt_insert, elem_of_cons. tauto.
Qed.

Lemma visit_spec roots candidates root :
  visiting roots ([root], candidates) ->
  exists c, visit processes candidates root = Some c /\ visiting roots ([], c) /\
    root ∈ c /\ forall q, q ∈ candidates -> q ∈ c.
Proof.
  intros Hv. set (I := fun s => visiting roots s /\
    forall q, q ∈ [root] \/ q ∈ candidates -> q ∈ s.1 \/ q ∈ s.2).
  assert (Hstep : forall s s', I s -> visit_body processes s = inl s' ->
            I s' /\ (visit_measure s' < visit_measure s)%nat).
  { intros s s' [Hs Hk] Hb. destruct (visit_body_visiting roots s s' Hs Hb) as [Hs' Hk'].
    split; [split; auto|by apply visit_body_decreases]. }
  assert (H0 : I ([root], candidates)) by (split; [done|auto]).
  destruct (loop_total (visit_body processes) visit_measure I (length processes + 2) ([root], candidates))
    as [c Hc]; [exact Hstep|exact H0| |].
  { unfold visit_measure, todo. cbn. pose proof (length_filter (fun q => ppid q ∉ candidates) processes). lia. }
  exists c. split; [exact Hc|].
  destruct (loops_invariant (visit_body processes) I ([root], candidates) c) as (s & [Hs Hk] & Hd).
  - intros s s' Hs Hb. by apply (Hstep s s').
  - exact H0.
  - by eapply loop_loops.
  - destruct s as [[|p stack] c']; [|by cbn in Hd; case_bool_decide]. cbn in Hd. simplify_eq.
    split; [done|]. cbn in Hk. split.
    + destruct (Hk root) as [?%elem_of_nil|?]; [left; constructor|done|done].
    + intros q Hq. destruct (Hk q) as [?%elem_of_nil|?]; [by right|done|done].
Qed.

(** The sweep's walk of the process table ends on every table, cyclic ones
    included, and finds exactly the processes that descend from one of the given
    roots, the roots themselves included, in ascending order without repeats. *)
Theorem sweep_finds_descendants roots :
  exists c, collect_process_tree_candidates (Some processes) roots = Some c /\ ascending c /\
    forall q, q ∈ c <-> exists r, r ∈ roots /\ rtc child r q.
Proof.
  cbn [collect_process_tree_candidates].
  assert (Hg : forall rs c0, (forall r, r ∈ rs -> r ∈ roots) -> visiting roots ([], c0) ->
    exists c, visit_all processes c0 rs = Some c /\ visiting roots ([], c) /\
      (forall q, q ∈ c0 -> q ∈ c) /\ forall r, r ∈ rs -> r ∈ c).
  { induction rs as [|r rs IH]; intros c0 Hrs [Hr Hc Hs].
    - exists c0. split; [done|]. split; [done|]. split; [done|]. by intros r ?%elem_of_nil.
    - destruct (visit_spec roots c0 r) as (c1 & H1 & Hv & Hr1 & Hk1).
      { split; cbn; [|intros p q Hp Hpq|done].
        - intros q [->%list_elem_of_singleton|Hq].
          + exists r. split; [apply Hrs; constructor|constructor].
          + apply Hr. by right.
        - destruct (Hc p q Hp Hpq) as [?%elem_of_nil|?]; [done|by right]. }
      destruct (IH c1) as (c & H2 & Hv' & Hk2 & Hr2); [intros x Hx; apply Hrs; by constructor|done|].
      exists c. cbn [visit_all]. rewrite H1. split; [exact H2|]. split; [done|]. split; [auto|].
      intros x [->|Hx]%elem_of_cons; auto. }
  destruct (Hg roots []) as (c & Hc & [Hr Hcl Hs] & _ & Hroots); [done| |].
  - split; cbn; [intros q [?%elem_of_nil|?%elem_of_nil]; done|intros p q ?%elem_of_nil; done|constructor].
  - exists c. split; [exact Hc|]. split; [exact Hs|]. intros q. split; [intros Hq; apply Hr; by right|].
    intros (r & Hr'%Hroots & Hq). induction Hq as [x|x y z Hxy Hyz IH]; [done|]. apply IH.
    by destruct (Hcl x y Hr' Hxy) as [?%elem_of_nil|?].
Qed.
End sweep.

Example sweep_of_a_cycle :
  collect_process_tree_candidates
    (Some [mkProcess 5 4; mkProcess 4 5; mkProcess 6 4; mkProcess 9 1]) [4] = Some [4; 5; 6].
Proof. reflexivity. Qed.

(** * What a pass touches *)

Lemma elem_of_missing w refs infos path :
  path ∈ missing_paths w refs infos <->
  w path = false /\ (path ∈ refs \/ exists s, s ∈ infos /\ worktree_path s = path).
Proof.
  unfold missing_paths. rewrite elem_of_foldl_insert, elem_of_bt_of_list, !list_elem_of_filter,
    list_elem_of_fmap. split.
  - intros [[]|[? (s & -> & ?)]]; (split; [done|]); [by left|right; by exists s].
  - intros [? [?|(s & ? & <-)]]; [by left|right]. split; [done|]. by exists s.
Qed.

Lemma insert_session_names l p n :
  n ∈ stale_session_names (foldl (fun p s => insert_session s p) p l) <->
  n ∈ stale_session_names p \/ exists s, s ∈ l /\ attached s = false /\ session_name s = n.
Proof.
  revert p. induction l as [|s l IH]; intros p; cbn [foldl].
  - split; [by left|]. intros [?|(s & ?%elem_of_nil & _)]; done.
  - rewrite IH. unfold insert_session. destruct (attached s) eqn:Ea.
    + split; (intros [?|(s' & Hs & ? & ?)]; [by left|right]).
      * exists s'. split; [by constructor|done].
      * exists s'. apply elem_of_cons in Hs as [->|?]; [congruence|done].
    + cbn [stale_session_names]. rewrite elem_of_bt_insert. split.
      * intros [[->|?]|(s' & Hs & ? & ?)]; [right|by left|right].
        -- exists s. split; [constructor|done].
        -- exists s'. split; [by constructor|done].
      * intros [?|(s' & Hs & ? & ?)]; [by left; right|].
        apply elem_of_cons in Hs as [->|?]; [by left; left|right; by exists s'].
Qed.

Lemma plan_path_names infos paths p n :
  n ∈ stale_session_names (foldl (plan_path infos) p paths) <->
  n ∈ stale_session_names p \/ exists path s, path ∈ paths /\ s ∈ sessions_of infos path /\
    existsb attached (sessions_of infos path) = false /\ session_name s = n.
Proof.
  revert p. induction paths as [|path paths IH]; intros p; cbn [foldl].
  - split; [by left|]. intros [?|(? & ? & ?%elem_of_nil & _)]; done.
  - rewrite IH. unfold plan_path. destruct (existsb attached (sessions_of infos path)) eqn:Ea.
    + split; (intros [?|(q & s & Hq & ? & ? & ?)]; [by left|right; exists q, s]).
      * split; [by constructor|done].
      * apply elem_of_cons in Hq as [->|?]; [congruence|done].
    + rewrite insert_session_names. cbn [stale_session_names]. split.
      * intros [[?|(s & Hs & _ & ?)]|(q & s & Hq & ? & ? & ?)]; [by left|right; exists path, s|right; exists q, s].
        -- split; [constructor|done].
        -- split; [by constructor|done].
      * intros [?|(q & s & Hq & Hs & Hf & ?)]; [by left; left|].
        apply elem_of_cons in Hq as [->|?]; [left; right; exists s|right; by exists q, s].
        split; [done|]. split; [|done]. destruct (attached s) eqn:E; [|done].
        assert (existsb attached (sessions_of infos path) = true); [|congruence].
        apply existsb_exists. exists s. split; [by apply list_elem_of_In|done].
Qed.

Lemma kill_sessions_names w names r n : n ∈ (kill_sessions w names r).1 -> n ∈ names /\ kill_ok w n = true.
Proof.
  revert r. induction names as [|m names IH]; intros r; cbn; [by intros ?%elem_of_nil|].
  destruct (kill_ok w m) eqn:E.
  - specialize (IH (drop_registry_entries_for_session r m)).
    destruct (kill_sessions w names _) as [ks r2]. cbn in *. rewrite !elem_of_cons.
    intros [->|Hn]; [by split; [left|]|]. destruct (IH Hn). by split; [right|].
  - intros Hn. destruct (IH r Hn). split; [by constructor|done].
Qed.

Lemma elem_of_registry_sessions (r : Registry) n :
  n ∈ entry_session <$> registry_snapshot r <-> exists id b, r !! id = Some (n, b).
Proof.
  rewrite list_elem_of_fmap. unfold registry_snapshot. split.
  - intros (e & -> & He). apply list_elem_of_fmap in He as ([id [m b]] & -> & Hm).
    apply elem_of_map_to_list in Hm. by exists id, b.
  - intros (id & b & Hr). exists (mkReapEntry id n b). split; [done|].
    apply list_elem_of_fmap. exists (id, (n, b)). split; [done|]. by apply elem_of_map_to_list.
Qed.

Section touches.
Context (sha256 : bytes -> bytes).

Lemma elem_of_infos sessions refs names s :
  s ∈ daemon_gc_session_infos sha256 sessions refs names <->
  exists i path, i ∈ sessions /\ attribute sha256 refs (info_session_id i) = Some path /\
    s = mkGcSession (info_session_id i) path (bool_decide (info_session_id i ∈ names)) (info_pid i).
Proof.
  unfold daemon_gc_session_infos. rewrite list_elem_of_omap. split.
  - intros (i & Hi & H). destruct (attribute sha256 refs _) as [path|] eqn:E; [|done].
    cbn in H. simplify_eq. by exists i, path.
  - intros (i & path & Hi & E & ->). exists i. split; [done|]. by rewrite E.
Qed.

(** A session is the orphan of a worktree: the daemon lists it, its worktree is
    missing, and no listed session of that worktree is in a pane. *)
Definition orphan (w : GcWorld) (refs : list bytes) (sessions : list SessionInfo) (r : Registry)
    (name : bytes) : Prop :=
  exists path, attribute sha256 refs name = Some path /\ path_exists w path = false /\
    name ∈ info_session_id <$> sessions /\
    forall other, other ∈ info_session_id <$> sessions -> attribute sha256 refs other = Some path ->
      other ∉ entry_session <$> registry_snapshot r.

Lemma stale_names_orphans w refs sessions r n :
  let names : gset bytes := list_to_set (entry_session <$> registry_snapshot r) in
  n ∈ stale_session_names (build_terminal_gc_plan (path_exists w) refs (daemon_gc_session_infos sha256 sessions refs names)) <->
  orphan w refs sessions r n.
Proof.
  intros names. unfold build_terminal_gc_plan. rewrite plan_path_names. cbn [stale_session_names gc_plan_default].
  assert (Hs : forall path s, s ∈ sessions_of (daemon_gc_session_infos sha256 sessions refs names) path <->
    exists i, i ∈ sessions /\ attribute sha256 refs (info_session_id i) = Some path /\
      s = mkGcSession (info_session_id i) path (bool_decide (info_session_id i ∈ names)) (info_pid i)).
  { intros path s. unfold sessions_of. rewrite list_elem_of_filter, elem_of_infos. split.
    - intros (Hp & i & q & Hi & Ha & ->). cbn in Hp. subst q. by exists i.
    - intros (i & Hi & Ha & ->). split; [done|]. by exists i, path. }
  assert (Hn : forall m, m ∈ names <-> m ∈ entry_session <$> registry_snapshot r)
    by (intros m; apply elem_of_list_to_set).
  split.
  - intros [?%elem_of_nil|(path & s & Hm & Hi & Hf & <-)]; [done|].
    apply Hs in Hi as (i & Hi & Ha & ->). apply elem_of_missing in Hm as [Hp _].
    exists path. cbn. split; [done|]. split; [done|]. split; [apply list_elem_of_fmap; by exists i|].
    intros other (j & -> & Hj)%list_elem_of_fmap Hja Hr. apply Hn in Hr.
    apply not_true_iff_false in Hf. apply Hf. apply existsb_exists.
    exists (mkGcSession (info_session_id j) path (bool_decide (info_session_id j ∈ names)) (info_pid j)).
    split; [apply list_elem_of_In, Hs; by exists j|]. by apply bool_decide_eq_true_2.
  - intros (path & Ha & Hp & (i & -> & Hi)%list_elem_of_fmap & Hno). right.
    exists path, (mkGcSession (info_session_id i) path (bool_decide (info_session_id i ∈ names)) (info_pid i)).
    split_and!; [|apply Hs; by exists i| |done].
    + apply elem_of_missing. split; [done|]. right. eexists. split; [apply elem_of_infos; by exists i, path|done].
    + apply not_true_iff_false. intros (s & Hin & Hat)%existsb_exists.
      apply list_elem_of_In, Hs in Hin as (j & Hj & Hja & ->). cbn in Hat.
      apply bool_decide_eq_true in Hat. apply Hn in Hat. revert Hat. apply Hno; [|done].
      apply list_elem_of_fmap. by exists j.
Qed.

Lemma elem_of_history_plan input id :
  id ∈ plan_history_gc input <->
  any_app_connected input = false /\ (id ∉ daemon_session_ids input) /\
  (id ∉ referenced_session_ids input) /\
  exists d, d ∈ dirs input /\ dir_session_id d = id /\ min_age input <= age d.
Proof.
  unfold plan_history_gc. destruct (any_app_connected input); [split; [by intros ?%elem_of_nil|by intros []]|].
  rewrite list_elem_of_fmap. split.
  - intros (d & -> & ((? & ? & ?) & ?)%list_elem_of_filter). split_and!; try done. by exists d.
  - intros (_ & ? & ? & d & Hd & <- & ?). exists d. split; [done|]. by apply list_elem_of_filter.
Qed.

(** A pane of a layout: a leaf with an [id], under any nesting of splits. *)
Definition is_split (object : list (bytes * Value)) : bool :=
  bool_decide (get_str "type" object = Some (str "horizontal")) ||
  bool_decide (get_str "type" object = Some (str "vertical")).

Inductive pane_in (pane : bytes) : Value -> Prop :=
| pane_leaf object :
    is_split object = false -> get_str "id" object = Some pane -> pane_in pane (Obj object)
| pane_child object children child :
    is_split object = true -> assoc (str "children") object = Some (Arr children) ->
    child ∈ children -> pane_in pane child -> pane_in pane (Obj object).

Definition collect_children (path : bytes) (l : list Value) (ids : gset bytes) : gset bytes :=
  foldl (fun ids child => collect_layout_session_ids sha256 path child ids) ids l.

Lemma collect_obj path object ids :
  collect_layout_session_ids sha256 path (Obj object) ids =
  if is_split object then
    match assoc (str "children") object with
    | Some (Arr children) => collect_children path children ids
    | _ => ids
    end
  else
    match get_str "id" object with
    | Some pane => {[grove_session_name sha256 path pane]} ∪ ids
    | None => ids
    end.
Proof.
  cbn [collect_layout_session_ids]. fold (is_split object). destruct (is_split object); [|done].
  induction object as [|[k v] l IH]; [done|]. cbn [assoc].
  unfold bytes_eqb. rewrite (bool_decide_ext (str "children" = k) (k = str "children")) by done.
  case_bool_decide; [|exact IH]. destruct v as [| | | |children|]; try done.
  clear. revert ids. induction children as [|c children IH]; intros ids; [done|]. apply IH.
Qed.

Lemma value_induction (P : Value -> Prop) :
  P Null -> (forall b, P (Bool b)) -> (forall n, P (Num n)) -> (forall s, P (Str s)) ->
  (forall l, Forall P l -> P (Arr l)) -> (forall l, Forall (fun kv => P kv.2) l -> P (Obj l)) ->
  forall v, P v.
Proof.
  intros Hn Hb Hm Hs Ha Ho. fix IH 1. intros [| | | |l|l]; [done|auto..| |].
  - apply Ha. induction l; constructor; [apply IH|done].
  - apply Ho. induction l; constructor; [apply IH|done].
Qed.

Lemma assoc_in k l v : assoc k l = Some v -> exists k', (k', v) ∈ l.
Proof.
  induction l as [|[k' u] l IH]; [done|]. cbn. destruct (bytes_eqb k k').
  - intros [= ->]. exists k'. constructor.
  - intros (k1 & Hk)%IH. exists k1. by constructor.
Qed.

Lemma collect_grows path node : forall ids, ids ⊆ collect_layout_session_ids sha256 path node ids.
Proof.
  assert (H : (forall ids, ids ⊆ collect_layout_session_ids sha256 path node ids) /\
    match node with Arr l => forall ids, ids ⊆ collect_children path l ids | _ => True end); [|tauto].
  induction node as [| | | |l IH|object IH] using value_induction; try done.
  - split; [done|]. unfold collect_children.
    induction IH as [|c l [Hc _] _ IHl]; intros ids; [done|]. cbn [foldl].
    etransitivity; [apply Hc|apply IHl].
  - split; [|done]. intros ids. rewrite collect_obj. destruct (is_split object).
    + destruct (assoc (str "children") object) as [[| | | |children|]|] eqn:E; try done.
      apply assoc_in in E as [k Hk]. rewrite Forall_forall in IH. by destruct (IH _ Hk).
    + destruct (get_str "id" object); [apply union_subseteq_r|done].
Qed.

Lemma collect_children_grows path l ids : ids ⊆ collect_children path l ids.
Proof.
  revert ids. induction l as [|c l IH]; intros ids; [done|]. cbn.
  etransitivity; [apply collect_grows|apply IH].
Qed.

Lemma collect_pane path pane node ids :
  pane_in pane node -> grove_session_name sha256 path pane ∈ collect_layout_session_ids sha256 path node ids.
Proof.
  intros H. revert ids. induction H as [object Hs Hp|object children child Hs Hc Hi _ IH]; intros ids;
    rewrite collect_obj, Hs.
  - rewrite Hp. by apply elem_of_union_l, elem_of_singleton.
  - rewrite Hc. revert ids. unfold collect_children. clear Hc.
    induction children as [|c children IHc]; [by apply elem_of_nil in Hi|]. intros ids. cbn [foldl].
    apply elem_of_cons in Hi as [->|Hi]; [|by apply IHc].
    eapply collect_children_grows. apply IH.
Qed.

(** A session a pane of a surviving worktree's layout names. *)
Definition referenced_by_layout (w : GcWorld) (refs : list bytes) (id : bytes) : Prop :=
  exists path layout pane, (path, layout) ∈ terminal_layouts w /\ path ∈ refs /\
    path_exists w path = true /\ pane_in pane layout /\ id = grove_session_name sha256 path pane.

Lemma referenced_collected w refs id :
  referenced_by_layout w refs id ->
  id ∈ collect_referenced_session_ids sha256 (path_exists w) refs (terminal_layouts w) (panel_ids w).
Proof.
  intros (path & layout & pane & Hl & Hr & He & Hp & ->). unfold collect_referenced_session_ids.
  apply elem_of_union_r. generalize (∅ : gset bytes). revert Hl.
  set (existing := filter _ refs).
  assert (Hx : path ∈ existing) by by apply list_elem_of_filter.
  assert (Hg : forall l ids, ids ⊆ foldl (fun ids '(wp, layout) => if bool_decide (wp ∈ existing)
    then collect_layout_session_ids sha256 wp layout ids else ids) ids l).
  { induction l as [|[q v] l IH]; intros ids; [done|]. cbn [foldl]. etransitivity; [|apply IH].
    case_bool_decide; [apply collect_grows|done]. }
  induction (terminal_layouts w) as [|[q v] l IH]; intros Hl ids; [by apply elem_of_nil in Hl|].
  cbn [foldl]. apply elem_of_cons in Hl as [[= <- <-]|Hl]; [|by apply IH].
  rewrite bool_decide_eq_true_2 by done. apply Hg. by apply collect_pane.
Qed.

(** A pass may act: it is no dry run, the daemon answered, no other app is known
    to be connected. *)
Definition armed (w : GcWorld) (dry_run : bool) : Prop :=
  dry_run = false /\ client w = true /\ forall n, connected_clients w = Some n -> n <= 1.

(** C8: a garbage collection pass kills and forgets only what is proved dead or
    orphaned: it kills a session only when the daemon listed it, its worktree is
    missing and no pane holds a session of that worktree; it removes a history
    directory only when it is at least five minutes old, of a session the daemon
    did not list and no pane of a surviving layout names; and it does either only when armed. *)
Theorem gc_touches_only_orphans w dry_run r :
  let s' := (run_terminal_gc sha256 w dry_run (mkGcState r [])).2 in
  (forall name, Kill name ∈ actions s' ->
     armed w dry_run /\ kill_ok w name = true /\
     exists refs sessions, referenced w = Some refs /\ listed w = Some sessions /\
       orphan w refs sessions r name) /\
  (forall id, RemoveHistory id ∈ actions s' ->
     armed w dry_run /\ (id ∉ panel_ids w) /\
     exists refs sessions ds d, referenced w = Some refs /\ listed w = Some sessions /\
       history_dirs w = Some ds /\ ~ referenced_by_layout w refs id /\ d ∈ ds /\ dir_session_id d = id /\ GC_MIN_AGE <= age d /\
       id ∉ info_session_id <$> sessions).
Proof.
  intros s'. subst s'. unfold run_terminal_gc.
  assert (Hnil : forall a b, a ∈ actions (mkGcState b []) -> False) by (intros a b Ha; by apply elem_of_nil in Ha).
  assert (Hlay : forall l a, a ∈ (RemoveLayouts <$> l) -> exists p, a = RemoveLayouts p)
    by (intros l a (p & -> & _)%list_elem_of_fmap; eauto).
  destruct (referenced w) as [refs|] eqn:Eref; [|split; intros ? []%Hnil].
  destruct (client w) eqn:Ecl; cbn [negb].
  2: { unfold run_terminal_gc_without_daemon. destruct dry_run; [split; intros ? []%Hnil|].
       destruct (prune_worktrees w _) as [ok pruned]. cbn [snd actions app].
       split; intros x Hx; apply Hlay in Hx as [? ?]; discriminate. }
  destruct (default false _) eqn:Eapp; [split; intros ? []%Hnil|].
  destruct (listed w) as [sessions|] eqn:El; [|split; intros ? []%Hnil].
  destruct dry_run; [split; intros ? []%Hnil|].
  assert (Harm : armed w false).
  { split; [done|]. split; [done|]. intros n Hn. rewrite Hn in Eapp. cbn in Eapp. lia. }
  set (names := list_to_set (entry_session <$> registry_snapshot (reg (mkGcState r [])))).
  destruct (reap_dead_registry_entries _ _) as [reaped r1].
  destruct (prune_worktrees w _) as [ok pruned]. destruct ok; cbn [negb].
  2: { cbn [snd actions app]. split; intros x Hx; apply Hlay in Hx as [? ?]; discriminate. }
  set (stale := stale_session_names _).
  pose proof (kill_sessions_names w stale r1) as Hk.
  destruct (kill_sessions w stale r1) as [killed r2].
  destruct (terminate_leftover_processes _ _ _ _) as [left signals].
  cbn [snd actions app fst] in *. split.
  - intros name. rewrite !elem_of_app. intros [Hx|[Hx|[Hx|Hx]]].
    + apply Hlay in Hx as [? ?]. discriminate.
    + apply list_elem_of_fmap in Hx as (n & [= ->] & Hn). apply Hk in Hn as [Hn Hok].
      split; [done|]. split; [done|]. exists refs, sessions. split; [done|]. split; [done|].
      by apply stale_names_orphans in Hn.
    + apply list_elem_of_fmap in Hx as ([] & ? & _). discriminate.
    + apply list_elem_of_fmap in Hx as (? & ? & _). discriminate.
  - intros id. rewrite !elem_of_app. intros [Hx|[Hx|[Hx|Hx]]].
    + apply Hlay in Hx as [? ?]. discriminate.
    + apply list_elem_of_fmap in Hx as (? & ? & _). discriminate.
    + apply list_elem_of_fmap in Hx as ([] & ? & _). discriminate.
    + apply list_elem_of_fmap in Hx as (n & [= ->] & Hn). unfold prune_daemon_history_dirs in Hn.
      destruct (history_dirs w) as [ds|] eqn:Ed; [|by apply elem_of_nil in Hn].
      apply elem_of_history_plan in Hn as (_ & Hkn & Href & d & Hd & Hid & Hage). cbn in *.
      split; [done|]. split; [intros Hpan; by apply Href, elem_of_union_l|].
      exists refs, sessions, ds, d. split_and!; try done.
      * by intros Hl%referenced_collected.
      * intros Hin. apply Hkn. unfold known_session_ids. by apply elem_of_list_to_set.
Qed.
End touches.

(** * Attribution by name *)

Section attribution.
Context (sha256 : bytes -> bytes) (sha256_length : forall x, length (sha256 x) = 32%nat).

Lemma length_hexes l : length (concat (hex2 <$> l)) = (2 * length l)%nat.
Proof. induction l as [|x l IH]; [done|]. cbn in *. rewrite IH. lia. Qed.

Lemma length_short_hash x : length (short_hash sha256 x WORKTREE_HASH_LEN) = WORKTREE_HASH_LEN.
Proof.
  unfold short_hash. rewrite length_take, length_hexes, sha256_length. done.
Qed.

Lemma name_prefix p q pane :
  starts_with (session_worktree_prefix sha256 q) (grove_session_name sha256 p pane) = true <->
  short_hash sha256 p WORKTREE_HASH_LEN = short_hash sha256 q WORKTREE_HASH_LEN.
Proof.
  rewrite starts_with_iff. unfold grove_session_name, session_worktree_prefix. split.
  - intros [r Hr]. rewrite <- !app_assoc in Hr. apply app_inv_head in Hr.
    apply app_inj_1 in Hr as [Hr _]; [done|by rewrite !length_short_hash].
  - intros ->. exists (pane_short_id sha256 pane). by rewrite <- !app_assoc.
Qed.

(** The name of a pane's session carries its worktree: among the referenced
    worktrees the session is attributed to exactly its own, whatever the pane,
    unless another one has the same 48-bit hash prefix. *)
Theorem own_session_is_attributed refs path pane :
  path ∈ refs ->
  (forall q, q ∈ refs -> short_hash sha256 q WORKTREE_HASH_LEN = short_hash sha256 path WORKTREE_HASH_LEN ->
     q = path) ->
  attribute sha256 refs (grove_session_name sha256 path pane) = Some path.
Proof.
  intros Hin Hinj. unfold attribute.
  set (P := fun q => starts_with (session_worktree_prefix sha256 q) (grove_session_name sha256 path pane) = true).
  assert (HP : P path) by exact (proj2 (name_prefix path path pane) eq_refl).
  destruct (list_find P refs) as [[i q]|] eqn:E.
  - apply list_find_Some in E as (Hq & HPq & _). cbn. f_equal. apply Hinj.
    + by eapply list_elem_of_lookup_2.
    + symmetry. exact (proj1 (name_prefix path q pane) HPq).
  - apply list_find_None in E. rewrite Forall_forall in E. by destruct (E path Hin HP).
Qed.
End attribution.

Module GcExamples.
Definition sha256 (x : bytes) : bytes := take 32 (x ++ replicate 32 0).
Definition wt : bytes := str "/wt".
Definition name : bytes := grove_session_name sha256 wt (str "pane-1").
Definition w : GcWorld :=
  mkGcWorld (Some [wt; str "/other"]) (fun p => bytes_eqb p (str "/other")) true (Some 1)
    (Some [mkSessionInfo name true (Some 4)]) (fun _ => true) (fun _ => true)
    (Some [mkProcess 4 1; mkProcess 5 4]) (Some [5]) (Some []) true
    (Some [mkHistoryDir name 900; mkHistoryDir (str "old") 900; mkHistoryDir (str "new") 10;
           mkHistoryDir (grove_session_name sha256 (str "/other") (str "p2")) 900])
    [(str "/other", Obj [(str "type", Str (str "vertical"));
       (str "children", Arr [Obj [(str "id", Str (str "p1"))]; Obj [(str "id", Str (str "p2"))]])])] ∅.

(** The session of the removed worktree is killed, its surviving child is
    terminated, and of four history directories the old one nobody names goes. *)
Example a_pass :
  run_terminal_gc sha256 w false (mkGcState ∅ []) =
  (Some (mkGcReport [wt] [name] [wt] [name] [] [5] [] []),
   mkGcState ∅ [RemoveLayouts wt; Kill name; SignalProcesses true [5]; RemoveHistory (str "old")]).
Proof. vm_compute. reflexivity. Qed.

(** The gauge of connected apps fails and the pass goes on as if alone. *)
Example failed_gauge_is_no_gate :
  (run_terminal_gc sha256
     (mkGcWorld (referenced w) (path_exists w) true None (listed w) (layouts_removable w) (kill_ok w)
        (processes w) (after_kill w) (after_term w) true (history_dirs w) (terminal_layouts w) ∅)
     false (mkGcState ∅ [])).2 = (run_terminal_gc sha256 w false (mkGcState ∅ [])).2.
Proof. vm_compute. reflexivity. Qed.
End GcExamples.

Lemma gc_touches_only_orphans_witness :
  Kill GcExamples.name ∈
    actions (run_terminal_gc GcExamples.sha256 GcExamples.w false (mkGcState ∅ [])).2 /\
  path_exists GcExamples.w GcExamples.wt = false /\
  exists ds d, history_dirs GcExamples.w = Some ds /\ d ∈ ds /\ dir_session_id d = str "old" /\
    GC_MIN_AGE <= age d.
Proof.
  destruct (gc_touches_only_orphans GcExamples.sha256 GcExamples.w false ∅) as [Hk Hh].
  assert (H : Kill GcExamples.name ∈
    actions (run_terminal_gc GcExamples.sha256 GcExamples.w false (mkGcState ∅ [])).2)
    by (rewrite GcExamples.a_pass; right; left).
  split; [exact H|]. split; [reflexivity|].
  destruct (Hh (str "old")) as (_ & _ & rs & ss & ds & d & _ & _ & Hds & _ & Hd & Hid & Hage & _).
  { rewrite GcExamples.a_pass. right. right. right. left. }
  exists ds, d. auto.
Defined.

Lemma own_session_is_attributed_witness :
  attribute GcExamples.sha256 [str "/other"; GcExamples.wt] GcExamples.name = Some GcExamples.wt.
Proof.
  apply (own_session_is_attributed GcExamples.sha256).
  - intros x. unfold GcExamples.sha256. rewrite length_take, length_app, length_replicate.
    apply Nat.min_l. apply Nat.le_add_l.
  - right. left.
  - intros q Hq. repeat (apply elem_of_cons in Hq as [->|Hq]); [| |by apply elem_of_nil in Hq].
    + intros H. vm_compute in H. discriminate.
    + reflexivity.
Defined.
