(* ===== verification/Json.v ===== *)
(** JSON values as serde_json holds them, and the accessors the code calls on
    them ([get], [as_str], [as_u64], index assignment). An object is a
    [BTreeMap], so it is a list with ascending keys; a number is an integer or
    the text of a float. Nothing of this file models code under src/; the text
    form of a value is the class [JsonText]. *)

From Stdlib Require Import Sorted.
From S2P Require Import Prelude Utf8 Text.

#[warnings="-register-all"]
Inductive Value :=
| Null
| Bool (b : bool)
| Int (n : Z)
| Float (text : bytes)
| Str (s : bytes)
| Arr (l : list Value)
| Obj (m : list (bytes * Value)).

(** * Access *)

Fixpoint obj_get (k : bytes) (m : list (bytes * Value)) : option Value :=
  match m with
  | [] => None
  | (k', v) :: m => if bytes_eqb k k' then Some v else obj_get k m
  end.

Fixpoint obj_insert (k : bytes) (v : Value) (m : list (bytes * Value)) : list (bytes * Value) :=
  match m with
  | [] => [(k, v)]
  | (k', v') :: m' =>
      if bytes_eqb k k' then (k, v) :: m'
      else if bytes_ltb k k' then (k, v) :: m
      else (k', v') :: obj_insert k v m'
  end.

Definition obj_remove (k : bytes) (m : list (bytes * Value)) : list (bytes * Value) :=
  filter (fun e => e.1 <> k) m.

(** [json!({...})]. *)
Definition object (fields : list (bytes * Value)) : Value :=
  Obj (foldl (fun m f => obj_insert f.1 f.2 m) [] fields).

Definition get (k : string) (v : Value) : option Value :=
  match v with Obj m => obj_get (str k) m | _ => None end.

Definition as_str (v : Value) : option bytes := match v with Str s => Some s | _ => None end.
Definition as_bool (v : Value) : option bool := match v with Bool b => Some b | _ => None end.
Definition as_array (v : Value) : option (list Value) := match v with Arr l => Some l | _ => None end.
Definition as_object (v : Value) : option (list (bytes * Value)) :=
  match v with Obj m => Some m | _ => None end.
Definition as_u64 (v : Value) : option Z :=
  match v with
  | Int n => if (0 <=? n) && (n <? 2 ^ 64) then Some n else None
  | _ => None
  end.
Definition as_i32 (v : Value) : option Z :=
  match v with
  | Int n => if (- 2 ^ 31 <=? n) && (n <? 2 ^ 31) then Some n else None
  | _ => None
  end.
Definition as_u32 (v : Value) : option Z :=
  match v with
  | Int n => if (0 <=? n) && (n <? 2 ^ 32) then Some n else None
  | _ => None
  end.

(** [v[k] = x] on an object. *)
Definition set (k : string) (x v : Value) : Value :=
  match v with Obj m => Obj (obj_insert (str k) x m) | _ => v end.

(** What [#[serde(skip_serializing_if = "Option::is_none")]] and a [serde] field
    of type [Option] do. *)
Definition some_field (k : string) (v : option Value) : list (bytes * Value) :=
  match v with Some v => [(str k, v)] | None => [] end.
Definition opt (f : bytes -> Value) (v : option bytes) : Value :=
  match v with Some s => f s | None => Null end.
(** A field of type [Option<T>]: absent and null are [None], else it must parse. *)
Definition opt_field {A} (k : string) (p : Value -> option A) (v : Value) : option (option A) :=
  match get k v with
  | None | Some Null => Some None
  | Some x => Some <$> p x
  end.

(** The values that occur: numbers fit in an [i64] or a [u64], strings are
    UTF-8, keys ascend. *)
Fixpoint ascending (ks : list bytes) : bool :=
  match ks with
  | k :: (k' :: _) as ks' => bytes_ltb k k' && ascending ks'
  | _ => true
  end.

Fixpoint json_ok (v : Value) : bool :=
  match v with
  | Null | Bool _ | Float _ => true
  | Int n => (- 2 ^ 63 <=? n) && (n <? 2 ^ 64)
  | Str s => utf8_valid s
  | Arr l => forallb json_ok l
  | Obj m => forallb (fun e => utf8_valid e.1 && json_ok e.2) m && ascending m.*1
  end.

(** serde_json's text form: a value that was printed is read back, and its text
    is not empty and holds no line break. *)
Class JsonText := {
  to_string : Value -> bytes;
  from_str : bytes -> option Value
}.
Class JsonTextLaws `{JsonText} : Prop := {
  from_to_string v : json_ok v = true -> from_str (to_string v) = Some v;
  to_string_no_break v : Forall (fun b => b <> 10 /\ b <> 13) (to_string v);
  to_string_object m : exists t, to_string (Obj m) = 123 :: t ++ [125]
}.

(** * Laws *)



Lemma obj_get_insert_eq k v m : obj_get k (obj_insert k v m) = Some v.
Proof.
  induction m as [|[k' v'] m IH]; cbn; [by rewrite bytes_eqb_refl|].
  destruct (bytes_eqb k k') eqn:E; cbn; [by rewrite bytes_eqb_refl|].
  destruct (bytes_ltb k k'); cbn; [by rewrite bytes_eqb_refl|by rewrite E].
Qed.

Lemma obj_get_insert_ne k k' v m : k <> k' -> obj_get k (obj_insert k' v m) = obj_get k m.
Proof.
  intros Hk. induction m as [|[k1 v1] m IH]; cbn; [by rewrite bytes_eqb_ne|].
  destruct (bytes_eqb k' k1) eqn:E; cbn.
  - apply bytes_eqb_eq in E as ->. by rewrite bytes_eqb_ne.
  - destruct (bytes_ltb k' k1); cbn; [by rewrite bytes_eqb_ne|]. by rewrite IH.
Qed.

Lemma obj_insert_idem k v m : obj_insert k v (obj_insert k v m) = obj_insert k v m.
Proof.
  induction m as [|[k' v'] m IH]; cbn; [by rewrite bytes_eqb_refl|].
  destruct (bytes_eqb k k') eqn:E; cbn; [by rewrite bytes_eqb_refl|].
  destruct (bytes_ltb k k') eqn:El; cbn; [by rewrite bytes_eqb_refl|].
  by rewrite E, El, IH.
Qed.

(** Reading a field of a literal object: the last one written under its key. *)
Lemma get_object_aux k m fields :
  obj_get k (foldl (fun m f => obj_insert f.1 f.2 m) m fields) =
  foldl (fun r f => if bytes_eqb k f.1 then Some f.2 else r) (obj_get k m) fields.
Proof.
  revert m. induction fields as [|[k' v] fs IH]; intros m; [done|]. cbn. rewrite IH. f_equal.
  destruct (bytes_eqb k k') eqn:E.
  - apply bytes_eqb_eq in E as ->. apply obj_get_insert_eq.
  - apply obj_get_insert_ne. intros ->. by rewrite bytes_eqb_refl in E.
Qed.

Lemma get_object k fields :
  get k (object fields) =
  foldl (fun r f => if bytes_eqb (str k) f.1 then Some f.2 else r) None fields.
Proof. apply (get_object_aux (str k) []). Qed.

(** * Objects are sorted, and stay JSON *)

Lemma obj_get_remove_ne k k' m : k <> k' -> obj_get k (obj_remove k' m) = obj_get k m.
Proof.
  intros Hk. induction m as [|[k1 v] m IH]; [done|]. unfold obj_remove in *. destruct (decide (k1 = k')) as [->|Hne].
  - rewrite filter_cons_False by (cbn; tauto). cbn [obj_get]. by rewrite (bytes_eqb_ne k k').
  - rewrite filter_cons_True by done. cbn [obj_get]. by rewrite IH.
Qed.


Lemma obj_get_in k m : obj_get k m = None <-> k ∉ m.*1.
Proof.
  induction m as [|[k' v] m IH]; cbn [obj_get]; [split; [intros _; apply not_elem_of_nil|done]|].
  rewrite fmap_cons, not_elem_of_cons. cbn [fst]. destruct (bytes_eqb k k') eqn:E.
  - apply bytes_eqb_eq in E. split; [done|tauto].
  - rewrite IH. split; [|tauto]. intros H. split; [|done]. intros ->. by rewrite bytes_eqb_refl in E.
Qed.


Lemma keys_insert k v m : (obj_insert k v m).*1 = bt_insert k m.*1.
Proof.
  induction m as [|[k' v'] m IH]; [done|]. cbn [obj_insert fmap list_fmap bt_insert fst].
  destruct (bytes_eqb k k') eqn:E.
  - apply bytes_eqb_eq in E as ->. rewrite !fmap_cons. cbn [fst bt_insert]. by rewrite ltb_irrefl.
  - rewrite ?fmap_cons. cbn [fst bt_insert]. change (ltb k k') with (bytes_ltb k k'). change (ltb k' k) with (bytes_ltb k' k).
    destruct (bytes_ltb k k') eqn:E1; [by rewrite !fmap_cons|]. rewrite fmap_cons. cbn [fst]. destruct (bytes_ltb k' k) eqn:E2; [by rewrite IH|].
    pose proof (@ltb_total _ bytes_order k k' E1 E2) as ->. by rewrite bytes_eqb_refl in E.
Qed.


Lemma ascending_sorted ks : ascending ks = true <-> Text.ascending ks.
Proof.
  unfold Text.ascending. split.
  - intros H. apply Sorted_StronglySorted; [intros a b c; apply (@ltb_trans _ bytes_order)|].
    induction ks as [|k [|k' ks] IH]; [constructor|repeat constructor|]. cbn in H. apply andb_true_iff in H as [H1 H2].
    constructor; [by apply IH|by constructor].
  - induction ks as [|k [|k' ks] IH]; [done..|]. intros [Hs Hk]%StronglySorted_inv.
    cbn. rewrite andb_true_iff. split; [by apply Forall_cons in Hk as [? _]|by apply IH].
Qed.


Lemma obj_ok m :
  json_ok (Obj m) = true <-> Forall (fun e => utf8_valid e.1 = true /\ json_ok e.2 = true) m /\ Text.ascending m.*1.
Proof.
  cbn [json_ok]. rewrite andb_true_iff, ascending_sorted, forallb_forall, Forall_forall. split; intros [H1 H2]; (split; [|done]).
  - intros e He. apply andb_true_iff, H1. by apply list_elem_of_In.
  - intros e He. apply andb_true_iff, H1. by apply list_elem_of_In.
Qed.


Lemma json_insert_ok k v m : utf8_valid k = true -> json_ok v = true -> json_ok (Obj m) = true -> json_ok (Obj (obj_insert k v m)) = true.
Proof.
  rewrite !obj_ok, keys_insert. intros Hk Hv [Hm Ha]. split; [|by apply bt_insert_ascending].
  clear Ha. induction Hm as [|[k' v'] m He Hm IH]; cbn [obj_insert]; [by repeat constructor|].
  destruct (bytes_eqb k k'); [by constructor|]. destruct (bytes_ltb k k'); [constructor; [done|by constructor]|by constructor].
Qed.


Lemma json_remove_ok k m : json_ok (Obj m) = true -> json_ok (Obj (obj_remove k m)) = true.
Proof.
  rewrite !obj_ok. intros [Hm Ha]. split; [by apply Forall_filtered|]. unfold obj_remove, Text.ascending in *.
  clear Hm. induction m as [|e m IH]; [constructor|]. rewrite fmap_cons in Ha. apply StronglySorted_inv in Ha as [Hs He].
  destruct (decide (e.1 <> k)) as [Hk|Hk].
  - rewrite filter_cons_True by done. rewrite fmap_cons. constructor; [by apply IH|].
    apply Forall_forall. intros x (y & -> & [_ Hy]%list_elem_of_filter)%list_elem_of_fmap.
    rewrite Forall_forall in He. apply He, list_elem_of_fmap. eauto.
  - rewrite filter_cons_False by done. by apply IH.
Qed.


Lemma json_get_ok k m v : json_ok (Obj m) = true -> obj_get k m = Some v -> json_ok v = true.
Proof.
  rewrite obj_ok. intros [Hm _]. induction Hm as [|[k' v'] m [_ He] Hm IH]; [done|]. cbn [obj_get].
  destruct (bytes_eqb k k'); [by intros [= <-]|apply IH].
Qed.


Lemma object_keys_distinct m : json_ok (Obj m) = true -> NoDup m.*1.
Proof.
  rewrite obj_ok. intros [_ Ha]. unfold Text.ascending in Ha. induction Ha as [|k ks Ha IH Hk]; [constructor|].
  constructor; [|done]. intros Hin. rewrite Forall_forall in Hk. specialize (Hk k Hin). by rewrite ltb_irrefl in Hk.
Qed.


Lemma mapM_back {A B} (f : A -> B) (p : B -> option A) l :
  (forall x, p (f x) = Some x) -> mapM p (f <$> l) = Some l.
Proof. intros Hp. induction l as [|x l IH]; [done|]. cbn. rewrite Hp. cbn. cbn in IH. by rewrite IH. Qed.


(** A literal object with distinct keys holds its fields. *)
Lemma obj_insert_perm k v m : k ∉ m.*1 -> obj_insert k v m ≡ₚ (k, v) :: m.
Proof.
  induction m as [|[k' v'] m IH]; [done|]. rewrite fmap_cons, not_elem_of_cons. intros [Hk Hm]. cbn [obj_insert fst] in *.
  rewrite bytes_eqb_ne by done. destruct (bytes_ltb k k'); [done|]. rewrite IH by done. apply Permutation_swap.
Qed.

Lemma object_perm_aux fields m :
  NoDup (fields.*1 ++ m.*1) -> foldl (fun m f => obj_insert f.1 f.2 m) m fields ≡ₚ fields ++ m.
Proof.
  revert m. induction fields as [|[k v] fs IH]; intros m Hn; [done|]. cbn [foldl fst snd]. rewrite fmap_cons in Hn. cbn [fst app] in Hn.
  apply NoDup_cons in Hn as [Hk Hn]. assert (Hkm : k ∉ m.*1) by (intros ?; apply Hk, elem_of_app; by right).
  pose proof (obj_insert_perm k v m Hkm) as Hp. rewrite IH.
  - rewrite Hp. cbn [app]. symmetry. apply Permutation_middle.
  - rewrite Hp. rewrite fmap_cons. cbn [fst]. rewrite <- Permutation_middle. apply NoDup_cons. done.
Qed.

Lemma object_perm fields : NoDup fields.*1 -> exists m, object fields = Obj m /\ m ≡ₚ fields.
Proof.
  intros Hn. eexists. split; [done|]. rewrite object_perm_aux; [by rewrite app_nil_r|by rewrite app_nil_r].
Qed.

Lemma object_json_ok fields :
  Forall (fun f => utf8_valid f.1 = true /\ json_ok f.2 = true) fields -> json_ok (object fields) = true.
Proof.
  unfold object. assert (H : json_ok (Obj []) = true) by done. revert H. generalize (@nil (bytes * Value)) as m.
  intros m Hm Hf. revert m Hm. induction Hf as [|[k v] fs [Hk Hv] Hf IH]; intros m Hm; [done|]. cbn [foldl fst snd] in *.
  by apply IH, json_insert_ok.
Qed.

(** * Induction, equality and a coding *)

Section value_ind.
Context (P : Value -> Prop)
  (HNull : P Null) (HBool : forall b, P (Bool b)) (HInt : forall n, P (Int n))
  (HFloat : forall t, P (Float t)) (HStr : forall s, P (Str s))
  (HArr : forall l, Forall P l -> P (Arr l))
  (HObj : forall m, Forall (fun e => P e.2) m -> P (Obj m)).

Fixpoint value_ind (v : Value) : P v :=
  match v with
  | Null => HNull
  | Bool b => HBool b
  | Int n => HInt n
  | Float t => HFloat t
  | Str s => HStr s
  | Arr l =>
      HArr l ((fix go l : Forall P l :=
        match l with
        | [] => List.Forall_nil _
        | x :: l => List.Forall_cons _ _ _ (value_ind x) (go l)
        end) l)
  | Obj m =>
      HObj m ((fix go (m : list (bytes * Value)) : Forall (fun e => P e.2) m :=
        match m with
        | [] => List.Forall_nil _
        | e :: m => List.Forall_cons _ _ _ (value_ind e.2) (go m)
        end) m)
  end.
End value_ind.

(** Values as trees, from which equality is decided and values are numbered. *)
Abbreviation leaf := (bytes + (bool + (Z + bytes)))%type.
Fixpoint to_tree (v : Value) : gen_tree leaf :=
  match v with
  | Null => GenNode 0 []
  | Bool b => GenLeaf (inr (inl b))
  | Int n => GenLeaf (inr (inr (inl n)))
  | Float t => GenLeaf (inr (inr (inr t)))
  | Str s => GenLeaf (inl s)
  | Arr l => GenNode 1 (to_tree <$> l)
  | Obj m => GenNode 2 ((fun e => GenNode 3 [GenLeaf (inl e.1); to_tree e.2]) <$> m)
  end.

Fixpoint of_tree (t : gen_tree leaf) : Value :=
  match t with
  | GenLeaf (inl s) => Str s
  | GenLeaf (inr (inl b)) => Bool b
  | GenLeaf (inr (inr (inl n))) => Int n
  | GenLeaf (inr (inr (inr t))) => Float t
  | GenNode 1 l => Arr (of_tree <$> l)
  | GenNode 2 l =>
      Obj ((fun t => match t with
                     | GenNode _ [GenLeaf (inl k); t] => (k, of_tree t)
                     | _ => ([], Null)
                     end) <$> l)
  | GenNode _ _ => Null
  end.

Lemma of_to_tree v : of_tree (to_tree v) = v.
Proof.
  induction v as [| | | | |l IH|m IH] using value_ind; cbn; try done; f_equal.
  - induction IH as [|x l Hx _ IHl]; cbn; by rewrite ?Hx, ?IHl.
  - induction IH as [|[k x] m Hx _ IHm]; cbn in *; by rewrite ?Hx, ?IHm.
Qed.

#[export] Instance Value_eq_dec : EqDecision Value.
Proof.
  intros a b. destruct (decide (to_tree a = to_tree b)) as [E|E]; [left|right; congruence].
  by rewrite <- (of_to_tree a), <- (of_to_tree b), E.
Defined.
#[export] Instance Value_countable : Countable Value.
Proof. exact (inj_countable' to_tree of_tree of_to_tree). Defined.

(** A text form to evaluate examples on: the number of the value, shifted away
    from the line breaks. *)
Module ToyJson.
#[global] Instance text : JsonText := {|
  to_string v := [123; Z.pos (countable.encode v) * 16 + 15; 125];
  from_str b :=
    match b with
    | [_; n; _] => if n <? 16 then None else countable.decode (Z.to_pos (n / 16))
    | _ => None
    end
|}.
#[global] Instance text_laws : JsonTextLaws.
Proof.
  split.
  - intros v _. cbn [from_str to_string text].
    destruct (Z.ltb_spec (Z.pos (countable.encode v) * 16 + 15) 16); [lia|].
    rewrite Z.div_add_l, Z.add_0_r by lia. cbn. apply decode_encode.
  - intros v. cbn [to_string text]. repeat constructor; lia.
  - intros m. by eexists [_].
Qed.
End ToyJson.

(** A text form of ASCII letters, whose end is seen in a longer text. *)
Module AsciiJson.
Fixpoint bits (p : positive) : bytes :=
  match p with xH => [] | xO p => 97 :: bits p | xI p => 98 :: bits p end.
Fixpoint read_bits (l : bytes) : option (positive * bytes) :=
  match l with
  | [] => None
  | b :: l =>
      if b =? 125 then Some (xH, l)
      else x ← read_bits l;
        if b =? 97 then Some (xO x.1, x.2) else if b =? 98 then Some (xI x.1, x.2) else None
  end.
Definition first_value (b : bytes) : option (Value * bytes) :=
  match b with
  | 123 :: l => x ← read_bits l; v ← countable.decode x.1; Some (v, x.2)
  | _ => None
  end.
Definition text_of (v : Value) : bytes := 123 :: bits (countable.encode v) ++ [125].
#[global] Instance text : JsonText := {|
  to_string := text_of;
  from_str b := match first_value b with Some (v, []) => Some v | _ => None end
|}.

Lemma read_bits_back p rest : read_bits (bits p ++ 125 :: rest) = Some (p, rest).
Proof. induction p as [p IH|p IH|]; cbn [bits app read_bits]; [by rewrite IH|by rewrite IH|done]. Qed.
Lemma first_value_text v rest : first_value (text_of v ++ rest) = Some (v, rest).
Proof.
  unfold first_value, text_of. cbn [app]. rewrite <- app_assoc. cbn [app]. rewrite read_bits_back. cbn [mbind option_bind fst snd].
  by rewrite decode_encode.
Qed.
Lemma from_to_text v : from_str (text_of v) = Some v.
Proof. cbn [from_str text]. pose proof (first_value_text v []) as H. rewrite app_nil_r in H. by rewrite H. Qed.
Lemma text_ascii v : Forall (fun b => 97 <= b <= 125) (text_of v).
Proof.
  unfold text_of. constructor; [lia|]. apply Forall_app. split; [|repeat constructor; lia].
  induction (encode v) as [p IH|p IH|]; cbn [bits]; [constructor; [lia|done]|constructor; [lia|done]|constructor].
Qed.
Lemma text_utf8 v : utf8_valid (text_of v) = true.
Proof.
  apply utf8_valid_ascii. eapply Forall_impl; [apply text_ascii|]. intros b Hb. unfold is_ascii.
  rewrite andb_true_iff, Z.leb_le, Z.ltb_lt. cbn in Hb. lia.
Qed.
#[global] Instance text_laws : JsonTextLaws.
Proof.
  split.
  - intros v _. apply from_to_text.
  - intros v. eapply Forall_impl; [apply text_ascii|]. cbn. lia.
  - intros m. by eexists.
Qed.
End AsciiJson.
