(* ===== verification/Protocol.v ===== *)
(** The control protocol (grove-core/src/daemon/protocol.rs): the names of the
    endpoint's files, the handshake, the request, reply and notify envelopes as
    the JSON objects that serde derives for them, lines of the control channel,
    the pid file, and the session key. SHA-256 is an argument. *)

From S2P Require Import Prelude Utf8 Json.

Definition GROVE_DAEMON_PROTOCOL_VERSION : Z := 1.
Definition MAX_CONTROL_LINE_BYTES : Z := 16 * 1024 * 1024.
Definition METHOD_AGENT_CLAIM : bytes := str "agentClaim".
Definition METHOD_AGENT_EVENT : bytes := str "agentEvent".

#[local] Open Scope rust_scope.

(** * Endpoint names *)

(** [Path::join] with a relative name. *)
Definition path_join (base name : bytes) : bytes :=
  if bool_decide (base = []) || bool_decide (last base = Some 47) then base ++ name
  else base ++ [47] ++ name.

Definition versioned (prefix suffix : string) : bytes :=
  str prefix ++ show_dec GROVE_DAEMON_PROTOCOL_VERSION ++ str suffix.

Definition daemon_socket_path (base : bytes) : bytes := path_join base (versioned "daemon-v" ".sock").
Definition daemon_token_path (base : bytes) : bytes := path_join base (versioned "daemon-v" ".token").
Definition daemon_pid_path (base : bytes) : bytes := path_join base (versioned "daemon-v" ".pid").
Definition daemon_bin_path (base : bytes) : bytes := path_join base (versioned "daemon-bin-v" "").
Definition daemon_log_path (base : bytes) : bytes := path_join base (versioned "daemon-v" ".log").
Definition history_root (app_data : bytes) : bytes :=
  path_join (path_join app_data (str "terminal-history")) (versioned "v" "").

(** * Session keys *)

Definition hex_lower_digit (n : Z) : Z := if n <? 10 then 48 + n else 87 + n.
Definition hex_lower (bs : bytes) : bytes :=
  concat ((fun b => [hex_lower_digit (Z.shiftr b 4); hex_lower_digit (Z.land b 15)]) <$> bs).

Definition derive_session_key (sha256 : bytes -> bytes) (daemon_token session_id : bytes) : bytes :=
  hex_lower (take 16 (sha256 (str "grove-agent-v1:" ++ daemon_token ++ str ":" ++ session_id))).

(** [random] is what the generator fills the sixteen bytes with. *)
Definition new_claim_id (random : bytes) : bytes := hex_lower random.

(** * Messages *)

Inductive ClientKind := Control | Stream | Agent.

Record Hello := mkHello {
  h_version : Z;
  h_token : bytes;
  h_client_id : bytes;
  h_kind : ClientKind
}.
Record HelloAck := mkHelloAck { ack_ok : bool; ack_error : option bytes }.
Record RpcError := mkRpcError { code : Z; message : bytes }.
Record RpcRequest := mkRpcRequest { rq_id : Z; rq_method : bytes; rq_params : Value }.
Record RpcReply := mkRpcReply { rp_id : Z; rp_result : option Value; rp_error : option RpcError }.
Record Notify := mkNotify { nt_method : bytes; nt_params : Value }.
Record AgentClaimParams := mkAgentClaimParams { acp_session_id : bytes; acp_tool : bytes }.
Record AgentEventParams := mkAgentEventParams {
  aep_session_id : bytes;
  aep_claim_id : bytes;
  aep_event : bytes;
  aep_tool_name : option bytes;
  aep_at_ns : Z
}.
Record DaemonPidFile := mkDaemonPidFile {
  pf_pid : Z;
  pf_started_at_ms : option Z;
  pf_bin_path : option bytes;
  pf_app_version : option bytes
}.

Inductive ControlMessage :=
| MHello (h : Hello)
| MHelloAck (a : HelloAck)
| MRequest (r : RpcRequest)
| MReply (r : RpcReply)
| MNotify (n : Notify).

Definition hello_ack_ok : HelloAck := mkHelloAck true None.
Definition hello_ack_reject (reason : bytes) : HelloAck := mkHelloAck false (Some reason).
Definition reply_ok (id : Z) (result : Value) : RpcReply := mkRpcReply id (Some result) None.
Definition reply_err (id : Z) (e : RpcError) : RpcReply := mkRpcReply id None (Some e).

(** * The derived JSON *)

Definition kind_name (k : ClientKind) : bytes :=
  match k with Control => str "control" | Stream => str "stream" | Agent => str "agent" end.
Definition kind_of_name (s : bytes) : option ClientKind :=
  if bytes_eqb s (str "control") then Some Control
  else if bytes_eqb s (str "stream") then Some Stream
  else if bytes_eqb s (str "agent") then Some Agent
  else None.

Definition hello_fields (h : Hello) : list (bytes * Value) :=
  [(str "version", Int (h_version h)); (str "token", Str (h_token h));
   (str "clientId", Str (h_client_id h)); (str "role", Str (kind_name (h_kind h)))].
Definition hello_of (v : Value) : option Hello :=
  version ← get "version" v ≫= as_u32; token ← get "token" v ≫= as_str;
  client ← get "clientId" v ≫= as_str; kind ← (get "role" v ≫= as_str) ≫= kind_of_name;
  Some (mkHello version token client kind).

Definition hello_ack_fields (a : HelloAck) : list (bytes * Value) :=
  (str "ok", Bool (ack_ok a)) :: some_field "error" (Str <$> ack_error a).
Definition hello_ack_of (v : Value) : option HelloAck :=
  ok ← get "ok" v ≫= as_bool; error ← opt_field "error" as_str v; Some (mkHelloAck ok error).

Definition rpc_error_value (e : RpcError) : Value :=
  object [(str "code", Int (code e)); (str "message", Str (message e))].
Definition rpc_error_of (v : Value) : option RpcError :=
  c ← get "code" v ≫= as_i32; m ← get "message" v ≫= as_str; Some (mkRpcError c m).

Definition request_fields (r : RpcRequest) : list (bytes * Value) :=
  [(str "id", Int (rq_id r)); (str "method", Str (rq_method r)); (str "params", rq_params r)].
Definition request_of (v : Value) : option RpcRequest :=
  id ← get "id" v ≫= as_u64; m ← get "method" v ≫= as_str;
  Some (mkRpcRequest id m (default Null (get "params" v))).

Definition reply_fields (r : RpcReply) : list (bytes * Value) :=
  (str "id", Int (rp_id r)) :: some_field "result" (rp_result r)
    ++ some_field "error" (rpc_error_value <$> rp_error r).
Definition reply_of (v : Value) : option RpcReply :=
  id ← get "id" v ≫= as_u64; result ← opt_field "result" Some v;
  error ← opt_field "error" rpc_error_of v; Some (mkRpcReply id result error).

Definition notify_fields (n : Notify) : list (bytes * Value) :=
  [(str "method", Str (nt_method n)); (str "params", nt_params n)].
Definition notify_of (v : Value) : option Notify :=
  m ← get "method" v ≫= as_str; Some (mkNotify m (default Null (get "params" v))).

(** The internally tagged enum. *)
Definition tagged (tag : string) (fields : list (bytes * Value)) : Value :=
  object ((str "type", Str (str tag)) :: fields).
Definition control_value (m : ControlMessage) : Value :=
  match m with
  | MHello h => tagged "hello" (hello_fields h)
  | MHelloAck a => tagged "helloAck" (hello_ack_fields a)
  | MRequest r => tagged "request" (request_fields r)
  | MReply r => tagged "reply" (reply_fields r)
  | MNotify n => tagged "notify" (notify_fields n)
  end.
Definition control_of (v : Value) : option ControlMessage :=
  tag ← get "type" v ≫= as_str;
  if bytes_eqb tag (str "hello") then MHello <$> hello_of v
  else if bytes_eqb tag (str "helloAck") then MHelloAck <$> hello_ack_of v
  else if bytes_eqb tag (str "request") then MRequest <$> request_of v
  else if bytes_eqb tag (str "reply") then MReply <$> reply_of v
  else if bytes_eqb tag (str "notify") then MNotify <$> notify_of v
  else None.

Definition agent_claim_params_of (v : Value) : option AgentClaimParams :=
  s ← get "sessionId" v ≫= as_str; t ← get "tool" v ≫= as_str; Some (mkAgentClaimParams s t).
Definition agent_event_params_of (v : Value) : option AgentEventParams :=
  s ← get "sessionId" v ≫= as_str; c ← get "claimId" v ≫= as_str; e ← get "event" v ≫= as_str;
  t ← opt_field "toolName" as_str v; n ← get "atNs" v ≫= as_u64;
  Some (mkAgentEventParams s c e t n).
Definition agent_claim_result (claim_id : bytes) : Value := object [(str "claimId", Str claim_id)].

Definition pid_file_value (p : DaemonPidFile) : Value :=
  object ([(str "pid", Int (pf_pid p));
           (str "startedAtMs", match pf_started_at_ms p with Some t => Int t | None => Null end)]
          ++ some_field "binPath" (Str <$> pf_bin_path p)
          ++ some_field "appVersion" (Str <$> pf_app_version p)).
Definition pid_file_of (v : Value) : option DaemonPidFile :=
  pid ← get "pid" v ≫= as_u32; t ← opt_field "startedAtMs" as_u64 v;
  b ← opt_field "binPath" as_str v; a ← opt_field "appVersion" as_str v;
  Some (mkDaemonPidFile pid t b a).

(** * Lines *)

Inductive ProtocolError :=
| LineTooLong (len cap : Z)
| JsonError.

(** [trim_end_matches(['\n', '\r'])], on the reversed line. *)
Fixpoint drop_breaks (l : bytes) : bytes :=
  match l with
  | b :: t => if (b =? 10) || (b =? 13) then drop_breaks t else l
  | [] => []
  end.
Definition trim_end_breaks (s : bytes) : bytes := rev (drop_breaks (rev s)).

Section text.
Context `{JsonText}.

Definition encode_ndjson_line (v : Value) : bytes := to_string v ++ [LF].

Definition decode_ndjson_line {T} (of_value : Value -> option T) (line : bytes) : result T ProtocolError :=
  if MAX_CONTROL_LINE_BYTES <? zlen line then Err (LineTooLong (zlen line) MAX_CONTROL_LINE_BYTES)
  else
    match from_str (trim_end_breaks line) ≫= of_value with
    | Some t => Ok t
    | None => Err JsonError
    end.

Definition serialize_pid_file (p : DaemonPidFile) : bytes := to_string (pid_file_value p).
Definition parse_pid_file (contents : bytes) : option DaemonPidFile :=
  from_str (trim contents) ≫= pid_file_of.
End text.

(** * Round trips *)

(** The fixed-width fields of a message fit; a result is not null, which would
    be read back as no result. *)
Definition u64_ok (n : Z) : Prop := 0 <= n < 2 ^ 64.
Definition message_ok (m : ControlMessage) : Prop :=
  match m with
  | MHello h => 0 <= h_version h < 2 ^ 32
  | MHelloAck _ => True
  | MRequest r => u64_ok (rq_id r)
  | MReply r => u64_ok (rp_id r) /\ rp_result r <> Some Null /\
      (forall e, rp_error r = Some e -> - 2 ^ 31 <= code e < 2 ^ 31)
  | MNotify _ => True
  end.

Lemma as_u64_Int n : u64_ok n -> as_u64 (Int n) = Some n.
Proof. unfold as_u64, u64_ok. intros. destruct (Z.leb_spec 0 n), (Z.ltb_spec n (2 ^ 64)); done || lia. Qed.
Lemma as_u32_Int n : 0 <= n < 2 ^ 32 -> as_u32 (Int n) = Some n.
Proof. unfold as_u32. intros. destruct (Z.leb_spec 0 n), (Z.ltb_spec n (2 ^ 32)); done || lia. Qed.
Lemma as_i32_Int n : - 2 ^ 31 <= n < 2 ^ 31 -> as_i32 (Int n) = Some n.
Proof. unfold as_i32. intros. destruct (Z.leb_spec (- 2 ^ 31) n), (Z.ltb_spec n (2 ^ 31)); done || lia. Qed.

Lemma kind_roundtrip k : kind_of_name (kind_name k) = Some k.
Proof. by destruct k. Qed.

(** Reading the fields of a literal object: the keys are literals, so the search
    computes, and what remains are the conversions of the numbers. *)
Ltac read_fields :=
  repeat match goal with
  | |- context [get ?k ?v] => let r := eval vm_compute in (get k v) in change (get k v) with r
  end;
  cbn [mbind option_bind as_str as_bool default from_option];
  rewrite ?as_u64_Int, ?as_u32_Int, ?as_i32_Int by done;
  cbn [mbind option_bind]; try done.

Lemma hello_roundtrip h : 0 <= h_version h < 2 ^ 32 -> hello_of (tagged "hello" (hello_fields h)) = Some h.
Proof. destruct h as [v t c k]. cbn [h_version]. intros Hv. unfold hello_of. destruct k; read_fields. Qed.

Lemma hello_ack_roundtrip a : hello_ack_of (tagged "helloAck" (hello_ack_fields a)) = Some a.
Proof. by destruct a as [ok [e|]]. Qed.

Lemma request_roundtrip r : u64_ok (rq_id r) -> request_of (tagged "request" (request_fields r)) = Some r.
Proof. destruct r as [i m p]. cbn [rq_id]. intros Hi. unfold request_of. read_fields. Qed.

Lemma notify_roundtrip n : notify_of (tagged "notify" (notify_fields n)) = Some n.
Proof. by destruct n. Qed.

Lemma rpc_error_roundtrip e : - 2 ^ 31 <= code e < 2 ^ 31 -> rpc_error_of (rpc_error_value e) = Some e.
Proof. destruct e as [c m]. cbn [code]. intros Hc. unfold rpc_error_of. read_fields. Qed.

Lemma reply_roundtrip r :
  u64_ok (rp_id r) -> rp_result r <> Some Null ->
  (forall e, rp_error r = Some e -> - 2 ^ 31 <= code e < 2 ^ 31) ->
  reply_of (tagged "reply" (reply_fields r)) = Some r.
Proof.
  destruct r as [i res err]. cbn [rp_id rp_result rp_error]. intros Hi Hr He.
  set (v := tagged _ _).
  assert (Hg : get "id" v = Some (Int i)) by (unfold v; by destruct res, err).
  assert (Hres : get "result" v = res) by (unfold v; by destruct res, err).
  assert (Herr : get "error" v = rpc_error_value <$> err) by (unfold v; by destruct res, err).
  unfold reply_of, opt_field. rewrite Hg, Hres, Herr. cbn [mbind option_bind].
  rewrite as_u64_Int by done. cbn [mbind option_bind].
  destruct err as [e|].
  - cbn [fmap option_fmap option_map]. pose proof (rpc_error_roundtrip e (He e eq_refl)) as Hrt.
    destruct (rpc_error_value e) eqn:E; try done; rewrite Hrt; by destruct res as [[]|].
  - by destruct res as [[]|].
Qed.

(** The tag is read first, then the fields. *)
Lemma control_of_tagged tag fields :
  control_of (tagged tag fields) = 
    (tag' ← get "type" (tagged tag fields) ≫= as_str;
     if bytes_eqb tag' (str "hello") then MHello <$> hello_of (tagged tag fields)
     else if bytes_eqb tag' (str "helloAck") then MHelloAck <$> hello_ack_of (tagged tag fields)
     else if bytes_eqb tag' (str "request") then MRequest <$> request_of (tagged tag fields)
     else if bytes_eqb tag' (str "reply") then MReply <$> reply_of (tagged tag fields)
     else if bytes_eqb tag' (str "notify") then MNotify <$> notify_of (tagged tag fields)
     else None).
Proof. done. Qed.

Lemma control_roundtrip m : message_ok m -> control_of (control_value m) = Some m.
Proof.
  destruct m as [h|a|r|r|n]; cbn [message_ok control_value]; intros Hm; rewrite control_of_tagged.
  - assert (get "type" (tagged "hello" (hello_fields h)) = Some (Str (str "hello"))) as -> by done.
    cbn [mbind option_bind as_str]. rewrite hello_roundtrip by done. done.
  - assert (get "type" (tagged "helloAck" (hello_ack_fields a)) = Some (Str (str "helloAck"))) as ->
      by (by destruct a as [o [e|]]).
    cbn [mbind option_bind as_str]. by rewrite hello_ack_roundtrip.
  - assert (get "type" (tagged "request" (request_fields r)) = Some (Str (str "request"))) as -> by done.
    cbn [mbind option_bind as_str]. rewrite request_roundtrip by done. done.
  - destruct Hm as (H1 & H2 & H3).
    assert (get "type" (tagged "reply" (reply_fields r)) = Some (Str (str "reply"))) as ->
      by (by destruct r as [i [x|] [e|]]).
    cbn [mbind option_bind as_str]. rewrite reply_roundtrip by done. done.
  - assert (get "type" (tagged "notify" (notify_fields n)) = Some (Str (str "notify"))) as -> by done.
    cbn [mbind option_bind as_str]. by rewrite notify_roundtrip.
Qed.

Lemma drop_breaks_none l : Forall (fun b => b <> 10 /\ b <> 13) l -> drop_breaks l = l.
Proof.
  intros Hl. destruct Hl as [|b l [H1 H2] _]; [done|]. cbn.
  by rewrite (proj2 (Z.eqb_neq b 10)), (proj2 (Z.eqb_neq b 13)).
Qed.

Lemma trim_end_breaks_line s :
  Forall (fun b => b <> 10 /\ b <> 13) s -> trim_end_breaks (s ++ [LF]) = s.
Proof.
  intros Hs. unfold trim_end_breaks. rewrite rev_unit.
  change (drop_breaks (LF :: rev s)) with (drop_breaks (rev s)).
  rewrite drop_breaks_none by (by apply Forall_rev). apply rev_involutive.
Qed.

Lemma decode_encoded `{JsonTextLaws} {T} (of_value : Value -> option T) v t :
  json_ok v = true -> of_value v = Some t -> zlen (encode_ndjson_line v) <= MAX_CONTROL_LINE_BYTES ->
  decode_ndjson_line of_value (encode_ndjson_line v) = Ok t.
Proof.
  intros Hv Ht Hl. unfold decode_ndjson_line. destruct (Z.ltb_spec MAX_CONTROL_LINE_BYTES (zlen (encode_ndjson_line v))); [lia|].
  unfold encode_ndjson_line. rewrite trim_end_breaks_line by apply to_string_no_break.
  rewrite from_to_string by done. cbn [mbind option_bind]. by rewrite Ht.
Qed.

(** Every message that is written on the control channel as one line is
    read back as the same message, unless the line is past the cap, and then the
    reader refuses it by its length alone. The line breaks only at its end, so
    that lines do not run together. *)
Theorem control_line_roundtrip `{JsonTextLaws} m :
  message_ok m -> json_ok (control_value m) = true ->
  let line := encode_ndjson_line (control_value m) in
  decode_ndjson_line control_of line =
    (if MAX_CONTROL_LINE_BYTES <? zlen line then Err (LineTooLong (zlen line) MAX_CONTROL_LINE_BYTES)
     else Ok m) /\
  exists text, line = text ++ [LF] /\ Forall (fun b => b <> 10 /\ b <> 13) text.
Proof.
  intros Hm Hj line. pose proof (to_string_no_break (control_value m)) as Hb. split.
  - destruct (Z.ltb_spec MAX_CONTROL_LINE_BYTES (zlen line)) as [Hl|Hl].
    + unfold decode_ndjson_line. by rewrite (proj2 (Z.ltb_lt _ _) Hl).
    + by apply decode_encoded; [|apply control_roundtrip|].
  - by exists (to_string (control_value m)).
Qed.

Lemma control_line_roundtrip_witness :
  let m := MRequest (mkRpcRequest 7 (str "kill") (object [(str "sessionId", Str (str "s"))])) in
  decode_ndjson_line control_of (encode_ndjson_line (control_value m)) = Ok m.
Proof.
  exact (proj1 (control_line_roundtrip
    (MRequest (mkRpcRequest 7 (str "kill") (object [(str "sessionId", Str (str "s"))])))
    ltac:(split; reflexivity || discriminate) eq_refl)).
Defined.

(** A reply whose result is null reaches the client as a reply without one. *)
Example null_result_is_lost :
  reply_of (tagged "reply" (reply_fields (reply_ok 7 Null))) = Some (mkRpcReply 7 None None).
Proof. reflexivity. Qed.

(** * Pid files and keys *)

Lemma strip_while_none ws fuel l : ws l = 0%nat -> strip_while ws fuel l = l.
Proof. destruct fuel; cbn; [done|]. by intros ->. Qed.

Lemma ws_last_brace l : ws_last (125 :: l) = 0%nat.
Proof. unfold ws_last. repeat case_match; done. Qed.

Lemma trim_object t : trim (123 :: t ++ [125]) = 123 :: t ++ [125].
Proof.
  unfold trim. rewrite (strip_while_none ws_head) by done.
  rewrite app_comm_cons, rev_unit. rewrite (strip_while_none ws_last) by apply ws_last_brace.
  change (125 :: rev (123 :: t)) with ([125] ++ rev (123 :: t)).
  by rewrite rev_app_distr, rev_involutive.
Qed.

(** A pid file that was written is read back. *)
Theorem pid_file_roundtrip `{JsonTextLaws} p :
  0 <= pf_pid p < 2 ^ 32 -> (forall t, pf_started_at_ms p = Some t -> u64_ok t) ->
  json_ok (pid_file_value p) = true ->
  parse_pid_file (serialize_pid_file p) = Some p.
Proof.
  intros Hp Ht Hj. unfold parse_pid_file, serialize_pid_file.
  destruct (to_string_object (match pid_file_value p with Obj m => m | _ => [] end)) as [t Htx].
  change (Obj (match pid_file_value p with Obj m => m | _ => [] end)) with (pid_file_value p) in Htx.
  rewrite Htx, trim_object, <- Htx, from_to_string by done. cbn [mbind option_bind].
  destruct p as [pid st bin app]. cbn [pf_pid pf_started_at_ms] in *. unfold pid_file_of, opt_field.
  set (v := pid_file_value _).
  assert (get "pid" v = Some (Int pid)) as -> by (by destruct bin, app).
  assert (get "startedAtMs" v = Some (match st with Some t => Int t | None => Null end)) as ->
    by (by destruct bin, app).
  assert (get "binPath" v = Str <$> bin) as -> by (by destruct bin, app).
  assert (get "appVersion" v = Str <$> app) as -> by (by destruct bin, app).
  cbn [mbind option_bind]. rewrite as_u32_Int by done.
  destruct st as [ms|]; [|by destruct bin, app]. rewrite as_u64_Int by (by apply Ht).
  by destruct bin, app.
Qed.

(** Keys of sessions are equal only if the digests agree on sixteen bytes. *)
Lemma hex_lower_digit_inj a b :
  0 <= a < 16 -> 0 <= b < 16 -> hex_lower_digit a = hex_lower_digit b -> a = b.
Proof. unfold hex_lower_digit. intros. destruct (Z.ltb_spec a 10), (Z.ltb_spec b 10); lia. Qed.

Lemma nibble_split b : byte_ok b -> 0 <= Z.shiftr b 4 < 16 /\ 0 <= Z.land b 15 < 16 /\
  b = 16 * Z.shiftr b 4 + Z.land b 15.
Proof.
  intros [H1 H2]. rewrite Z.shiftr_div_pow2 by lia.
  change 15 with (Z.ones 4). rewrite Z.land_ones by lia. change (2 ^ 4) with 16.
  split; [|split].
  - split; [apply Z.div_pos; lia|apply Z.div_lt_upper_bound; lia].
  - apply Z.mod_pos_bound. lia.
  - apply Z.div_mod. lia.
Qed.

Lemma hex_lower_inj a b : bytes_ok a -> bytes_ok b -> hex_lower a = hex_lower b -> a = b.
Proof.
  intros Ha. revert b. induction Ha as [|x a Hx _ IH]; intros b Hb.
  - by destruct Hb.
  - destruct Hb as [|y b Hy Hb]; [done|]. unfold hex_lower. cbn [fmap list_fmap concat app].
    intros [= E1 E2 E3].
    destruct (nibble_split x Hx) as (Hx1 & Hx2 & Ex), (nibble_split y Hy) as (Hy1 & Hy2 & Ey).
    apply hex_lower_digit_inj in E1; [|done..]. apply hex_lower_digit_inj in E2; [|done..].
    f_equal; [congruence|]. by apply IH.
Qed.

Lemma session_key_inj sha256 token a b :
  (forall x, bytes_ok (sha256 x)) ->
  derive_session_key sha256 token a = derive_session_key sha256 token b ->
  take 16 (sha256 (str "grove-agent-v1:" ++ token ++ str ":" ++ a)) =
  take 16 (sha256 (str "grove-agent-v1:" ++ token ++ str ":" ++ b)).
Proof. intros Hs E. apply hex_lower_inj; [apply Forall_take, Hs..|exact E]. Qed.
