(* ===== verification/Server.v ===== *)
(** The daemon's server (grove-daemon/src/server.rs): handshake, the stream hub,
    the session map with its reservations, dispatch of control and agent
    messages, and createOrAttach as a machine of steps between its awaits.
    Sockets, threads and the PTY are arguments: a line that was read, a spawn that
    succeeded or failed, the kernel's answer. *)

From S2P Require Import Prelude Utf8 ModeState Emulator HistoryLog History Agent Session Json Protocol.

#[local] Open Scope rust_scope.

(** * Authentication *)

(** A missing byte reads as 0. *)
Definition constant_time_eq (a b : bytes) : bool :=
  let n := Nat.max (length a) (length b) in
  foldl (fun diff i => Z.lor diff (Z.lxor (nth i a 0) (nth i b 0)))
    (Z.lxor (zlen a) (zlen b)) (List.seq 0 n) =? 0.

(** * The stream hub *)

(** A subscriber is the channel of one stream connection, named by a number. *)
Record HubInner := mkHub { tx : option nat; hub_generation : Z }.
Definition hub_default : HubInner := mkHub None 0.

Definition hub_set (c : nat) (h : HubInner) : Z * HubInner :=
  let g := wrap 64 (hub_generation h + 1) in (g, mkHub (Some c) g).
Definition hub_clear (g : Z) (h : HubInner) : bool * HubInner :=
  if hub_generation h =? g then (true, mkHub None (hub_generation h)) else (false, h).
(** The channel that [emit] pushes the frame to. *)
Definition hub_emit (h : HubInner) : option nat := tx h.

(** * Errors *)

Definition session_not_found : RpcError := mkRpcError (-32004) (str "SessionNotFound").
Definition unauthorized (message : string) : RpcError := mkRpcError (-32001) (str message).
Definition internal (message : bytes) : RpcError := mkRpcError (-32000) message.
Definition missing_param (key : string) : RpcError :=
  mkRpcError (-32602) (str "missing param: " ++ str key).
Definition invalid_params (why : bytes) : RpcError :=
  mkRpcError (-32602) (str "invalid params: " ++ why).
Definition unknown_method (method : bytes) : RpcError :=
  mkRpcError (-32601) (str "unknown method: " ++ method).

Definition str_param (key : string) (params : Value) : result bytes RpcError :=
  match get key params ≫= as_str with
  | Some s => Ok s
  | None => Err (missing_param key)
  end.

(** The text of serde's error is left out. *)
Definition parse_params {T} (of_value : Value -> option T) (params : Value) : result T RpcError :=
  match of_value params with
  | Some p => Ok p
  | None => Err (invalid_params [])
  end.

(** * State *)

Inductive SessionSlot := Pending | Live (arc : nat).

(** Calls to the checkpointer whose effect is on all sessions. *)
Inductive CheckpointerCall := FlushAll | ShutdownAll.

Section server.
Context {P : Type} `{Vt100 P} {K : Type} `{Kernel K}.
Context (base64_decode : bytes -> option bytes) (sha256 : bytes -> bytes).

(** What one [Arc<Session>] points to: the session, its claims, the child's pid,
    and the input handed to the writer. *)
Record SessionArc := mkArc {
  ses : Session (P := P);
  agents : list AgentClaim;
  shell_pid : option Z;
  input : list bytes
}.

Record Daemon := mkDaemon {
  version : Z;
  token : bytes;
  sessions : gmap bytes SessionSlot;
  arcs : gmap nat SessionArc;
  hub : HubInner;
  shutdown_flag : bool;
  control_hellos : Z;
  connected_controls : Z;
  registry : gmap bytes nat;   (* the session the checkpointer has under an id *)
  calls : list CheckpointerCall
}.

(** What a handler finds outside: the kernel, whether vt100 unwinds, whether the
    PTY refuses a size, the result of the spawn probe, random bytes. *)
Record Env := mkEnv {
  kernel : K;
  panics : bool;
  refused : bool;
  spawn_health : bool;
  random : bytes
}.

Definition set_sessions (d : Daemon) (m : gmap bytes SessionSlot) : Daemon :=
  mkDaemon (version d) (token d) m (arcs d) (hub d) (shutdown_flag d) (control_hellos d)
    (connected_controls d) (registry d) (calls d).
Definition set_arcs (d : Daemon) (m : gmap nat SessionArc) : Daemon :=
  mkDaemon (version d) (token d) (sessions d) m (hub d) (shutdown_flag d) (control_hellos d)
    (connected_controls d) (registry d) (calls d).
Definition set_hub (d : Daemon) (h : HubInner) : Daemon :=
  mkDaemon (version d) (token d) (sessions d) (arcs d) h (shutdown_flag d) (control_hellos d)
    (connected_controls d) (registry d) (calls d).
Definition set_registry (d : Daemon) (m : gmap bytes nat) (c : list CheckpointerCall) : Daemon :=
  mkDaemon (version d) (token d) (sessions d) (arcs d) (hub d) (shutdown_flag d) (control_hellos d)
    (connected_controls d) m c.
Definition set_controls (d : Daemon) (hellos connected : Z) : Daemon :=
  mkDaemon (version d) (token d) (sessions d) (arcs d) (hub d) (shutdown_flag d) hellos connected
    (registry d) (calls d).
Definition trigger_shutdown (d : Daemon) : Daemon :=
  mkDaemon (version d) (token d) (sessions d) (arcs d) (hub d) true (control_hellos d)
    (connected_controls d) (registry d) (calls d).

Definition daemon_new (token : bytes) : Daemon :=
  mkDaemon GROVE_DAEMON_PROTOCOL_VERSION token ∅ ∅ hub_default false 0 0 ∅ [].

(** [Daemon::get], and the update of what the handle points to. *)
Definition get_session (d : Daemon) (id : bytes) : option nat :=
  match sessions d !! id with Some (Live h) => Some h | _ => None end.
Definition arc_of (d : Daemon) (h : nat) : option SessionArc := arcs d !! h.
Definition on_arc (f : SessionArc -> SessionArc) (h : nat) (d : Daemon) : Daemon :=
  set_arcs d (alter f h (arcs d)).
Definition on_session (f : Session -> Session) : SessionArc -> SessionArc :=
  fun a => mkArc (f (ses a)) (agents a) (shell_pid a) (input a).
Definition on_agents (f : list AgentClaim -> list AgentClaim) : SessionArc -> SessionArc :=
  fun a => mkArc (ses a) (f (agents a)) (shell_pid a) (input a).
Definition on_input (data : bytes) : SessionArc -> SessionArc :=
  fun a => mkArc (ses a) (agents a) (shell_pid a) (input a ++ [data]).

Definition live_arcs (d : Daemon) : list nat :=
  omap (fun e => match e.2 with Live h => Some h | Pending => None end) (map_to_list (sessions d)).

(** A handler's session, or the error the RPC answers with. *)
Definition find_session (d : Daemon) (id : bytes) : result (nat * SessionArc) RpcError :=
  match get_session d id with
  | Some h => match arc_of d h with Some a => Ok (h, a) | None => Err session_not_found end
  | None => Err session_not_found
  end.

(** * Handshake *)

Inductive Admission :=
| Rejected (why : bytes)
| Welcomed (kind : ClientKind).

Definition is_agent (k : ClientKind) : bool := match k with Agent => true | _ => false end.

Definition admit_hello (d : Daemon) (h : Hello) : Admission :=
  if negb (h_version h =? version d) then Rejected (str "version mismatch")
  else if negb (is_agent (h_kind h)) &&
          (bool_decide (h_token h = []) || bool_decide (token d = []) ||
           negb (constant_time_eq (h_token h) (token d)))
  then Rejected (str "token mismatch")
  else Welcomed (h_kind h).

(** The answer to the first line of a connection. *)
Definition answer_hello `{JsonText} (d : Daemon) (line : bytes) : HelloAck :=
  match decode_ndjson_line hello_of line with
  | Ok h => match admit_hello d h with Welcomed _ => hello_ack_ok | Rejected why => hello_ack_reject why end
  | Err _ => hello_ack_reject (str "malformed hello")
  end.

(** A control connection is counted while it lasts; when its loop has ended all
    sessions are flushed, unless the daemon shuts down. *)
Definition control_opened (d : Daemon) : Daemon :=
  set_controls d (wrap 64 (control_hellos d + 1)) (wrap 64 (connected_controls d + 1)).
Definition control_left (d : Daemon) : Daemon :=
  if shutdown_flag d then d else set_registry d (registry d) (calls d ++ [FlushAll]).
Definition control_closed (d : Daemon) : Daemon :=
  set_controls d (control_hellos d) (wrap 64 (connected_controls d - 1)).

(** * The agent channel *)

Definition verify_session_key (d : Daemon) (session_id presented : bytes) : result unit RpcError :=
  let expected := derive_session_key sha256 (token d) session_id in
  if bool_decide (presented = []) || negb (constant_time_eq presented expected)
  then Err (unauthorized "bad session key") else Ok tt.

Definition ok_or {A} (e : RpcError) (o : option A) : result A RpcError :=
  match o with Some a => Ok a | None => Err e end.

(** [n as i32] of a [u32]. *)
Definition as_i32_cast (n : Z) : Z := if n <? 2 ^ 31 then n else n - 2 ^ 32.

Definition agent_claim (e : Env) (peer : option Z) (session_key : bytes) (p : AgentClaimParams)
    (d : Daemon) : Daemon * result Value RpcError :=
  let checked :=
    let? _ := verify_session_key d (acp_session_id p) session_key in
    let? (h, a) := find_session d (acp_session_id p) in
    let? peer := ok_or (unauthorized "peer pid unreadable") peer in
    let? peer_facts := ok_or (unauthorized "claimant is gone")
      (match facts (kernel e) peer with Some f => if Agent.alive f then Some f else None | None => None end) in
    let? pid := ok_or (unauthorized "session has no pid") (shell_pid a) in
    let? shell_facts := ok_or (unauthorized "session shell is gone") (facts (kernel e) (as_i32_cast pid)) in
    if negb (has_ctty peer_facts) || negb (tdev peer_facts =? tdev shell_facts)
    then Err (unauthorized "claimant is not on this pane's terminal")
    else Ok (h, mkAgentClaim (new_claim_id (random e)) (acp_tool p) peer (start_us peer_facts) Idle 0) in
  match checked with
  | Ok (h, c) =>
      (on_arc (on_agents (fun l => record_agent_claim l c (kernel e))) h d,
       Ok (agent_claim_result (claim_id c)))
  | Err e => (d, Err e)
  end.

Definition agent_event (session_key : bytes) (p : AgentEventParams) (d : Daemon) :
    Daemon * result Value RpcError :=
  let checked :=
    let? _ := verify_session_key d (aep_session_id p) session_key in
    find_session d (aep_session_id p) in
  match checked with
  | Ok (h, _) =>
      (on_arc (on_agents (fun l =>
         (apply_event l (aep_claim_id p) (aep_event p) (aep_tool_name p) (aep_at_ns p)).1)) h d,
       Ok (object []))
  | Err e => (d, Err e)
  end.

Definition dispatch_agent_rpc (e : Env) (peer : option Z) (session_key method : bytes) (params : Value)
    (d : Daemon) : Daemon * result Value RpcError :=
  if bytes_eqb method METHOD_AGENT_CLAIM then
    match parse_params agent_claim_params_of params with
    | Ok p => agent_claim e peer session_key p d
    | Err err => (d, Err err)
    end
  else if bytes_eqb method METHOD_AGENT_EVENT then
    match parse_params agent_event_params_of params with
    | Ok p => agent_event session_key p d
    | Err err => (d, Err err)
    end
  else (d, Err (unknown_method method)).

Definition reply_of_result (id : Z) (r : result Value RpcError) : RpcReply :=
  match r with Ok v => reply_ok id v | Err e => reply_err id e end.

(** One line of an agent connection. *)
Definition agent_line `{JsonText} (e : Env) (peer : option Z) (session_key line : bytes) (d : Daemon) :
    Daemon * option RpcReply :=
  match decode_ndjson_line control_of line with
  | Ok (MRequest r) =>
      let (d, res) := dispatch_agent_rpc e peer session_key (rq_method r) (rq_params r) d in
      (d, Some (reply_of_result (rq_id r) res))
  | _ => (d, None)
  end.

(** * Replies *)

Definition lossy (b : bytes) : Value := Str (from_utf8_lossy b).
Definition set_if (c : bool) (k : string) (x v : Value) : Value := if c then set k x v else v.
Definition set_some (k : string) (x : option bytes) (v : Value) : Value :=
  match x with Some s => set k (Str s) v | None => v end.
Definition nonempty (b : bytes) : bool := negb (bool_decide (b = [])).

Definition cold_restore_reply (cr : ColdRestore) : Value :=
  let obj := object [(str "isNew", Bool true); (str "isColdRestore", Bool true);
    (str "snapshot", lossy (cold_snapshot cr)); (str "cols", Int (cold_cols cr));
    (str "rows", Int (cold_rows cr)); (str "isAlternateScreen", Bool (cold_alternate cr))] in
  let obj := set_if (degraded cr) "degraded" (Bool true) obj in
  set_if (nonempty (cold_pending_escape_tail cr)) "pendingEscapeTailAnsi"
    (lossy (cold_pending_escape_tail cr)) obj.

Definition warm_snapshot_json (e : Env) (s : Session (P := P)) : Value * Session (P := P) :=
  let (snap, s) := session_snapshot (panics e) s default_options in
  match snap with
  | Some snap =>
      let obj := object [(str "snapshot", lossy (warm_payload snap)); (str "cols", Int (snap_cols snap));
        (str "rows", Int (snap_rows snap)); (str "isAlternateScreen", Bool (is_alternate_screen snap));
        (str "outputSequence", Int (output_sequence snap)); (str "isReattach", Bool true)] in
      let obj := set_if (nonempty (pending_escape_tail snap)) "pendingEscapeTailAnsi"
                   (lossy (pending_escape_tail snap)) obj in
      let obj := set_if (negb (kitty_keyboard_flags snap =? 0)) "snapshotKittyKeyboardFlags"
                   (Int (kitty_keyboard_flags snap)) obj in
      (set_some "lastTitle" (snap_title snap) (set_some "cwd" (snap_cwd snap) obj), s)
  | None =>
      let (cols, rows) := session_applied_size s in
      (object [(str "snapshot", lossy (ring s)); (str "cols", Int cols); (str "rows", Int rows);
        (str "isAlternateScreen", Bool false); (str "outputSequence", Int (ingest_seq s));
        (str "isReattach", Bool true); (str "emulatorDegraded", Bool true)], s)
  end.

Definition session_cwd (s : Session (P := P)) : option bytes :=
  emulator s ≫= (fun e : DaemonEmulator P => cwd (modes e)).
Definition session_title (s : Session (P := P)) : option bytes :=
  emulator s ≫= (fun e : DaemonEmulator P => title (modes e)).

Definition rpc_list_sessions (d : Daemon) : Value :=
  Arr (omap (fun h =>
    a ← arc_of d h;
    let (cols, rows) := session_applied_size (ses a) in
    Some (object [(str "sessionId", Str (Session.id (ses a))); (str "isAlive", Bool (Session.alive (ses a)));
      (str "cols", Int cols); (str "rows", Int rows);
      (str "pid", match shell_pid a with Some p => Int p | None => Null end)])) (live_arcs d)).

(** The bell of every live session is taken, the badge is derived. *)
Fixpoint poll_arcs (e : Env) (hs : list nat) (d : Daemon) : Daemon * list Value :=
  match hs with
  | [] => (d, [])
  | h :: hs =>
      match arc_of d h with
      | None => poll_arcs e hs d
      | Some a =>
          let (b, s) := take_bell (ses a) in
          let (d, vs) := poll_arcs e hs (on_arc (on_session (fun _ => s)) h d) in
          (d, object [(str "ptyId", Str (Session.id s)); (str "bell", Bool b);
                      (str "aiStatus", opt Str (resolve (agents a) (kernel e)))] :: vs)
      end
  end.
Definition rpc_poll_bells (e : Env) (d : Daemon) : Daemon * Value :=
  let (d, vs) := poll_arcs e (live_arcs d) d in (d, Arr vs).

(** * Control dispatch *)

Definition pause_session (s : Session (P := P)) : Session :=
  set_producer s (Session.pause_producer (Session.alive s) (producer s)) (history_enabled s) (background s).
Definition resume_session (s : Session (P := P)) : Session :=
  set_producer s (Session.resume_producer (producer s)) (history_enabled s) (background s).

Definition on_all (f : SessionArc -> SessionArc) (d : Daemon) : Daemon :=
  foldl (fun d h => on_arc f h d) d (live_arcs d).
Definition kill_all_sessions : Daemon -> Daemon := on_all (on_session kill).
Definition resume_all_producers : Daemon -> Daemon := on_all (on_session resume_session).

(** [Checkpointer::close_session], [flush_all] and [shutdown_all] as the server
    sees them: who is registered, and that a pass over all sessions was made. *)
Definition ck_close (id : bytes) (d : Daemon) : Daemon := set_registry d (delete id (registry d)) (calls d).
Definition ck_flush_all (d : Daemon) : Daemon := set_registry d (registry d) (calls d ++ [FlushAll]).
Definition ck_shutdown_all (d : Daemon) : Daemon := set_registry d ∅ (calls d ++ [ShutdownAll]).

(** The stream connection ended: the last one lets every reader go on. *)
Definition stream_closed (g : Z) (d : Daemon) : Daemon :=
  let (was_last, h) := hub_clear g (hub d) in
  let d := set_hub d h in
  if was_last then resume_all_producers d else d.

(** [as u16] of the number under a key. *)
Definition u16_param (key : string) (fallback : Z) (params : Value) : Z :=
  wrap 16 (default fallback (get key params ≫= as_u64)).

Definition dispatch_notify (e : Env) (method : bytes) (params : Value) (d : Daemon) : Daemon :=
  let on_id f :=
    match get "sessionId" params ≫= as_str with
    | Some id => match get_session d id with Some h => on_arc f h d | None => d end
    | None => d
    end in
  if bytes_eqb method (str "write") then
    match (get "dataB64" params ≫= as_str) ≫= base64_decode with
    | Some data => on_id (on_input data)
    | None => d
    end
  else if bytes_eqb method (str "resize") then
    let cols := u16_param "cols" 0 params in
    let rows := u16_param "rows" 0 params in
    if (cols =? 0) || (rows =? 0) then d
    else on_id (on_session (fun s => (session_resize (refused e) s cols rows).2))
  else if bytes_eqb method (str "pausePty") then on_id (on_session pause_session)
  else if bytes_eqb method (str "resumePty") then on_id (on_session resume_session)
  else if bytes_eqb method (str "setSessionBackground") then
    on_id (on_session (fun s =>
      set_background s (default false (get "background" params ≫= as_bool))))
  else d.

(** The parameters of createOrAttach. *)
Record CreateParams := mkCreateParams {
  cr_id : bytes;
  cr_cwd : bytes;
  cr_cols : Z;
  cr_rows : Z;
  cr_ring_cap : option Z;
  cr_env : list (bytes * bytes)
}.

Definition create_params (params : Value) : result CreateParams RpcError :=
  let? id := str_param "sessionId" params in
  Ok (mkCreateParams id
        (default (str ".") (get "cwd" params ≫= as_str))
        (u16_param "cols" 80 params) (u16_param "rows" 24 params)
        (get "scrollbackBytes" params ≫= as_u64)
        (omap (fun kv => v ← as_str kv.2; Some (kv.1, v))
           (default [] (get "env" params ≫= as_object)))).

(** A handler that does not wait answers; createOrAttach goes on as a call. *)
Inductive Dispatched :=
| Replied (r : result Value RpcError)
| Creating (p : CreateParams).

Definition with_session (params : Value) (d : Daemon)
    (k : nat -> SessionArc -> Daemon * result Value RpcError) : Daemon * result Value RpcError :=
  match (let? id := str_param "sessionId" params in find_session d id) with
  | Ok (h, a) => k h a
  | Err e => (d, Err e)
  end.

Definition handle_rpc (e : Env) (method : bytes) (params : Value) (d : Daemon) :
    Daemon * result Value RpcError :=
  if bytes_eqb method (str "kill") then
    match str_param "sessionId" params with
    | Err err => (d, Err err)
    | Ok id =>
        let d := match get_session d id with Some h => on_arc (on_session kill) h d | None => d end in
        (ck_close id d, Ok (object []))
    end
  else if bytes_eqb method (str "listSessions") then (d, Ok (rpc_list_sessions d))
  else if bytes_eqb method (str "getAppliedSize") then
    with_session params d (fun h a =>
      let (cols, rows) := session_applied_size (ses a) in
      (d, Ok (object [(str "cols", Int cols); (str "rows", Int rows)])))
  else if bytes_eqb method (str "getCwd") then
    with_session params d (fun h a => (d, Ok (object [(str "cwd", opt Str (session_cwd (ses a)))])))
  else if bytes_eqb method (str "getTitle") then
    with_session params d (fun h a => (d, Ok (object [(str "title", opt Str (session_title (ses a)))])))
  else if bytes_eqb method (str "clearHistory") then
    with_session params d (fun h a => (on_arc (on_session clear_history) h d, Ok (object [])))
  else if bytes_eqb method (str "pollBells") then
    let (d, v) := rpc_poll_bells e d in (d, Ok v)
  else if bytes_eqb method (str "getDaemonInfo") then
    (d, Ok (object [(str "connectedClients", Int (connected_controls d));
                    (str "sessionCount", Int (zlen (live_arcs d)))]))
  else if bytes_eqb method (str "getSnapshot") then
    with_session params d (fun h a =>
      let (v, s) := warm_snapshot_json e (ses a) in (on_arc (on_session (fun _ => s)) h d, Ok v))
  else if bytes_eqb method (str "checkPtySpawnHealth") then
    (d, Ok (object [(str "ok", Bool (spawn_health e))]))
  else if bytes_eqb method (str "checkpointAll") then (ck_flush_all d, Ok (object []))
  else if bytes_eqb method (str "shutdown") then
    let d := ck_shutdown_all d in
    let d := if default false (get "killSessions" params ≫= as_bool) then kill_all_sessions d else d in
    (trigger_shutdown d, Ok (object []))
  else if bytes_eqb method (str "debugControlHelloCount") then
    (d, Ok (object [(str "count", Int (control_hellos d))]))
  else if bytes_eqb method (str "debugSleep") then (d, Ok (object []))
  else (d, Err (unknown_method method)).

Definition dispatch_rpc (e : Env) (method : bytes) (params : Value) (d : Daemon) : Daemon * Dispatched :=
  if bytes_eqb method (str "createOrAttach") then
    match create_params params with
    | Ok p => (d, Creating p)
    | Err err => (d, Replied (Err err))
    end
  else let (d, r) := handle_rpc e method params d in (d, Replied r).

(** What one line of a control connection asks the connection to do next. *)
Inductive ControlNext :=
| Nothing
| SendReply (r : RpcReply)
| AwaitCreate (id : Z) (p : CreateParams).

Definition control_line `{JsonText} (e : Env) (line : bytes) (d : Daemon) : Daemon * ControlNext :=
  match decode_ndjson_line control_of line with
  | Ok (MRequest r) =>
      let (d, x) := dispatch_rpc e (rq_method r) (rq_params r) d in
      match x with
      | Replied res => (d, SendReply (reply_of_result (rq_id r) res))
      | Creating p => (d, AwaitCreate (rq_id r) p)
      end
  | Ok (MNotify n) => (dispatch_notify e (nt_method n) (nt_params n) d, Nothing)
  | _ => (d, Nothing)
  end.

(** * createOrAttach, between its awaits *)

Inductive Action := Attach | Spawn | WaitPending.

Definition is_live (d : Daemon) (h : nat) : bool :=
  match arc_of d h with Some a => Session.alive (ses a) | None => false end.

(** The decision under the map's lock. *)
Definition resolve_slot (id : bytes) (d : Daemon) : Action * Daemon :=
  match sessions d !! id with
  | Some (Live h) =>
      if is_live d h then (Attach, d) else (Spawn, set_sessions d (<[id := Pending]> (sessions d)))
  | Some Pending => (WaitPending, d)
  | None => (Spawn, set_sessions d (<[id := Pending]> (sessions d)))
  end.

Definition attach (e : Env) (id : bytes) (d : Daemon) : Daemon * result Value RpcError :=
  match find_session d id with
  | Err err => (d, Err err)
  | Ok (h, a) =>
      let (v, s) := warm_snapshot_json e (ses a) in
      (on_arc (on_session (fun _ => s)) h d, Ok (set "isNew" (Bool false) v))
  end.

(** The recovered directory and size override the requested ones. *)
Definition spawn_geometry (p : CreateParams) (cold : option ColdRestore) : bytes * Z * Z :=
  match cold with
  | Some cr => (default (cr_cwd p) (cold_cwd cr), Z.max (cold_cols cr) 1, Z.max (cold_rows cr) 1)
  | None => (cr_cwd p, cr_cols p, cr_rows p)
  end.

Definition spawned_arc (p : CreateParams) (cold : option ColdRestore) (pid : option Z) : SessionArc :=
  let '(_, cols, rows) := spawn_geometry p cold in
  mkArc (spawn_with_ring_cap (cr_id p) cols rows (default RING_CAP_BYTES (cr_ring_cap p))) [] pid [].

Definition spawned (h : nat) (a : SessionArc) (d : Daemon) : Daemon := set_arcs d (<[h := a]> (arcs d)).

(** [persisted] is the outcome of [open_session] or [reopen_session]. *)
Definition register_history (persisted : bool) (id : bytes) (h : nat) (d : Daemon) : Daemon :=
  if persisted
  then on_arc (on_session enable_history) h (set_registry d (<[id := h]> (registry d)) (calls d))
  else d.

Definition publish (id : bytes) (h : nat) (d : Daemon) : Daemon :=
  set_sessions d (<[id := Live h]> (sessions d)).
Definition spawn_failed (id : bytes) (d : Daemon) : Daemon :=
  set_sessions d (delete id (sessions d)).

Definition create_reply (cold : option ColdRestore) (persisted : bool) : Value :=
  match cold with
  | Some cr => if persisted then cold_restore_reply cr else object [(str "isNew", Bool true)]
  | None => object [(str "isNew", Bool true)]
  end.

(** [SessionReaper::reap] and [close_history]. *)
Definition reap (id : bytes) (me : nat) (d : Daemon) : Daemon :=
  match sessions d !! id with
  | Some (Live h) => if bool_decide (h = me) then set_sessions d (delete id (sessions d)) else d
  | _ => d
  end.
Definition close_history (id : bytes) (d : Daemon) : Daemon := ck_close id d.

(** * All calls, readers and messages together *)

Inductive create_pc :=
| Resolving
| Waiting
| Attaching
| Probing
| Spawning (cold : option ColdRestore)
| Registering (h : nat) (cold : option ColdRestore)
| Publishing (h : nat) (cold : option ColdRestore) (persisted : bool)
| Returned (r : result Value RpcError).

Record Caller := mkCaller { c_params : CreateParams; c_pc : create_pc }.
Definition c_id (c : Caller) : bytes := cr_id (c_params c).

(** The reader thread of a session: until the end of its child's output, then
    the flag is cleared, the history closed and the entry reaped. *)
Inductive reader_pc := Reading | Stopped | Closed | Reaped.

Record srv := mkSrv { dm : Daemon; callers : gmap nat Caller; readers : gmap nat reader_pc }.

Definition srv_new (token : bytes) : srv := mkSrv (daemon_new token) ∅ ∅.

Definition move (n : nat) (c : Caller) (pc : create_pc) (d : Daemon) (x : srv) : srv :=
  mkSrv d (<[n := mkCaller (c_params c) pc]> (callers x)) (readers x).

(** One call or one reader goes on. *)
Inductive life_step : srv -> srv -> Prop :=
| st_call x n p :
    callers x !! n = None ->
    life_step x (mkSrv (dm x) (<[n := mkCaller p Resolving]> (callers x)) (readers x))
| st_resolve x n c :
    callers x !! n = Some c -> c_pc c = Resolving ->
    life_step x
      (let (a, d) := resolve_slot (c_id c) (dm x) in
       move n c (match a with Attach => Attaching | Spawn => Probing | WaitPending => Waiting end) d x)
| st_wait x n c :
    callers x !! n = Some c -> c_pc c = Waiting -> life_step x (move n c Resolving (dm x) x)
| st_attach x n c e :
    callers x !! n = Some c -> c_pc c = Attaching ->
    life_step x (let (d, r) := attach e (c_id c) (dm x) in move n c (Returned r) d x)
| st_probe x n c cold :
    callers x !! n = Some c -> c_pc c = Probing -> life_step x (move n c (Spawning cold) (dm x) x)
| st_spawned x n c cold h pid :
    callers x !! n = Some c -> c_pc c = Spawning cold -> arcs (dm x) !! h = None ->
    life_step x
      (mkSrv (spawned h (spawned_arc (c_params c) cold pid) (dm x))
         (<[n := mkCaller (c_params c) (Registering h cold)]> (callers x)) (<[h := Reading]> (readers x)))
| st_spawn_failed x n c cold why :
    callers x !! n = Some c -> c_pc c = Spawning cold ->
    life_step x (move n c (Returned (Err (internal why))) (spawn_failed (c_id c) (dm x)) x)
| st_register x n c h cold (persisted : bool) :
    callers x !! n = Some c -> c_pc c = Registering h cold ->
    (persisted = true -> registry (dm x) !! c_id c = None) ->
    life_step x (move n c (Publishing h cold persisted) (register_history persisted (c_id c) h (dm x)) x)
| st_publish x n c h cold persisted :
    callers x !! n = Some c -> c_pc c = Publishing h cold persisted ->
    life_step x (move n c (Returned (Ok (create_reply cold persisted))) (publish (c_id c) h (dm x)) x)
| st_stop x h :
    readers x !! h = Some Reading ->
    life_step x (mkSrv (on_arc (on_session reader_stops) h (dm x)) (callers x) (<[h := Stopped]> (readers x)))
| st_close x h a :
    readers x !! h = Some Stopped -> arc_of (dm x) h = Some a ->
    life_step x
      (mkSrv (close_history (Session.id (ses a)) (dm x)) (callers x) (<[h := Closed]> (readers x)))
| st_reap x h a :
    readers x !! h = Some Closed -> arc_of (dm x) h = Some a ->
    life_step x (mkSrv (reap (Session.id (ses a)) h (dm x)) (callers x) (<[h := Reaped]> (readers x))).

(** The daemon: calls and readers go on, messages are handled, connections come
    and go, and a shutdown is triggered. *)
Inductive srv_step : srv -> srv -> Prop :=
| st_life x y : life_step x y -> srv_step x y
| st_notify x e m v :
    srv_step x (mkSrv (dispatch_notify e m v (dm x)) (callers x) (readers x))
| st_rpc x e m v :
    srv_step x (mkSrv (handle_rpc e m v (dm x)).1 (callers x) (readers x))
| st_agent x e peer key m v :
    srv_step x (mkSrv (dispatch_agent_rpc e peer key m v (dm x)).1 (callers x) (readers x))
| st_stream_closed x g : srv_step x (mkSrv (stream_closed g (dm x)) (callers x) (readers x))
| st_stream_opened x c :
    srv_step x (mkSrv (set_hub (dm x) (hub_set c (hub (dm x))).2) (callers x) (readers x))
| st_control_opened x : srv_step x (mkSrv (control_opened (dm x)) (callers x) (readers x))
| st_control_left x : srv_step x (mkSrv (control_left (dm x)) (callers x) (readers x))
| st_control_closed x : srv_step x (mkSrv (control_closed (dm x)) (callers x) (readers x))
| st_flush x : srv_step x (mkSrv (ck_flush_all (dm x)) (callers x) (readers x))
| st_shutdown x : srv_step x (mkSrv (trigger_shutdown (dm x)) (callers x) (readers x)).
End server.

(** * What messages leave alone *)

Section frame.
Context {P : Type} `{Vt100 P} {K : Type} `{Kernel K}.
Context (base64_decode : bytes -> option bytes) (sha256 : bytes -> bytes).
Implicit Types (d : Daemon (P := P)) (s : Session (P := P)) (a : SessionArc (P := P)).

(** The id and the life flag of a session are its reader's alone. *)
Definition keeps_life (f : Session (P := P) -> Session (P := P)) : Prop :=
  forall s, Session.id (f s) = Session.id s /\ Session.alive (f s) = Session.alive s.

Lemma keeps_resize r cols rows : keeps_life (fun s => (session_resize r s cols rows).2).
Proof. intros s. unfold session_resize, note_pending. by repeat case_match. Qed.
Lemma keeps_clear : keeps_life clear_history.
Proof. intros s. unfold clear_history, note_pending. by case_match. Qed.
Lemma keeps_pause : keeps_life pause_session. Proof. done. Qed.
Lemma keeps_resume : keeps_life resume_session. Proof. done. Qed.
Lemma keeps_kill : keeps_life kill. Proof. done. Qed.
Lemma keeps_enable : keeps_life enable_history. Proof. done. Qed.
Lemma keeps_background b : keeps_life (fun s => set_background s b). Proof. done. Qed.
Lemma keeps_snapshot p opts : keeps_life (fun s => (session_snapshot p s opts).2).
Proof. intros s. unfold session_snapshot, snapshot_at. by repeat case_match. Qed.
Lemma keeps_bell : keeps_life (fun s => (take_bell s).2). Proof. done. Qed.

(** What the session machine reads of a session. *)
Definition life (a : SessionArc (P := P)) : bytes * bool := (Session.id (ses a), Session.alive (ses a)).

Record quiet d d' : Prop := {
  q_sessions : sessions d' = sessions d;
  q_life : forall h, life <$> arcs d' !! h = life <$> arcs d !! h;
  q_registry : registry d' ⊆ registry d
}.

Lemma quiet_refl d : quiet d d.
Proof. by split. Qed.
Lemma quiet_trans d1 d2 d3 : quiet d1 d2 -> quiet d2 d3 -> quiet d1 d3.
Proof.
  intros [S1 L1 R1] [S2 L2 R2]. split; [congruence| |by etrans].
  intros h. by rewrite L2, L1.
Qed.

Lemma quiet_on_arc f h d : (forall a, life (f a) = life a) -> quiet d (on_arc f h d).
Proof.
  intros Hf. split; [done| |done]. intros h'. cbn. destruct (decide (h = h')) as [<-|Hne].
  - rewrite lookup_alter_eq. destruct (arcs d !! h); cbn; [|done]. by rewrite Hf.
  - by rewrite lookup_alter_ne.
Qed.

Lemma life_on_session f a : keeps_life f -> life (on_session f a) = life a.
Proof. intros Hf. unfold life. cbn. by destruct (Hf (ses a)) as [-> ->]. Qed.

Lemma quiet_session f h d : keeps_life f -> quiet d (on_arc (on_session f) h d).
Proof. intros Hf. apply quiet_on_arc. intros a. by apply life_on_session. Qed.

(** A new state of the session that [arc_of] gave. *)
Lemma quiet_set_session d h a s :
  arc_of d h = Some a -> Session.id s = Session.id (ses a) -> Session.alive s = Session.alive (ses a) ->
  quiet d (on_arc (on_session (fun _ => s)) h d).
Proof.
  intros Ha Hi Hl. split; [done| |done]. intros h'. cbn. destruct (decide (h = h')) as [<-|Hne].
  - rewrite lookup_alter_eq. unfold arc_of in Ha. rewrite Ha. cbn. unfold life. cbn. congruence.
  - by rewrite lookup_alter_ne.
Qed.

Lemma quiet_on_all f d : (forall a, life (f a) = life a) -> quiet d (on_all f d).
Proof.
  intros Hf. unfold on_all. generalize (live_arcs d). intros hs. revert d.
  induction hs as [|h hs IH]; intros d; [apply quiet_refl|].
  cbn. eapply quiet_trans; [by apply quiet_on_arc|apply IH].
Qed.

Lemma quiet_poll (e : Env (K := K)) hs d : quiet d (poll_arcs e hs d).1.
Proof.
  revert d. induction hs as [|h hs IH]; intros d; [apply quiet_refl|]. cbn.
  destruct (arc_of d h) as [a|] eqn:Ha; [|apply IH]. cbn.
  specialize (IH (on_arc (on_session (fun _ => (take_bell (ses a)).2)) h d)).
  cbn in IH. destruct (poll_arcs _ hs _) as [d' vs]. cbn in *.
  eapply quiet_trans; [|exact IH]. by eapply quiet_set_session.
Qed.

Lemma quiet_registry d m c : m ⊆ registry d -> quiet d (set_registry d m c).
Proof. by split. Qed.

Lemma find_session_arc d id h a :
  find_session d id = Ok (h, a) -> sessions d !! id = Some (Live h) /\ arc_of d h = Some a.
Proof. unfold find_session, get_session. by repeat case_match; intros; simplify_eq. Qed.

Lemma quiet_with_session v d k :
  (forall h a, arc_of d h = Some a -> quiet d (k h a).1) -> quiet d (with_session v d k).1.
Proof.
  intros Hk. unfold with_session. destruct (result_bind _ _) as [[h a]|err] eqn:E; [|apply quiet_refl].
  apply result_bind_ok in E as (id & _ & E). apply find_session_arc in E as [_ Ha]. by apply Hk.
Qed.

Lemma quiet_snapshot (e : Env (K := K)) d h a v s :
  arc_of d h = Some a -> warm_snapshot_json e (ses a) = (v, s) ->
  quiet d (on_arc (on_session (fun _ => s)) h d).
Proof.
  intros Ha Hw. destruct (keeps_snapshot (panics e) default_options (ses a)) as [Hi Hl].
  unfold warm_snapshot_json in Hw. destruct (session_snapshot _ _ _) as [o s'].
  assert (s = s') as -> by (destruct o; [|destruct (session_applied_size s')]; by simplify_eq).
  by eapply quiet_set_session.
Qed.

Create HintDb quiet discriminated.
#[local] Hint Resolve quiet_refl quiet_session quiet_on_all quiet_set_session quiet_poll
  life_on_session keeps_resize keeps_clear keeps_pause keeps_resume keeps_kill keeps_enable
  keeps_background : quiet.

Lemma dispatch_notify_quiet (e : Env (K := K)) m v d :
  quiet d (dispatch_notify base64_decode e m v d).
Proof.
  unfold dispatch_notify. repeat case_match; auto with quiet. all: apply quiet_on_arc; done.
Qed.

Lemma handle_rpc_quiet (e : Env (K := K)) m v d : quiet d (handle_rpc e m v d).1.
Proof.
  unfold handle_rpc.
  destruct (bytes_eqb m (str "kill")).
  { destruct (str_param "sessionId" v) as [id|err]; [|auto with quiet]. cbn. eapply quiet_trans.
    - instantiate (1 := match get_session d id with
                        | Some h => on_arc (on_session kill) h d | None => d end).
      case_match; auto with quiet.
    - apply quiet_registry. apply delete_subseteq. }
  repeat (match goal with |- context [bytes_eqb m ?s] => destruct (bytes_eqb m s) end;
    try apply quiet_refl).
  - apply quiet_with_session. intros h a Ha. case_match. apply quiet_refl.
  - apply quiet_with_session. intros h a Ha. apply quiet_refl.
  - apply quiet_with_session. intros h a Ha. apply quiet_refl.
  - apply quiet_with_session. intros h a Ha. cbn. auto with quiet.
  - unfold rpc_poll_bells. pose proof (quiet_poll e (live_arcs d) d) as Hq.
    by destruct (poll_arcs e (live_arcs d) d).
  - apply quiet_with_session. intros h a Ha.
    destruct (warm_snapshot_json e (ses a)) as [w s] eqn:E. by eapply quiet_snapshot.
  - by apply quiet_registry.
  - eapply (quiet_trans d (ck_shutdown_all d)).
    + apply quiet_registry, map_empty_subseteq.
    + case_match; [|by split].
      eapply quiet_trans; [apply (quiet_on_all (on_session kill)); auto with quiet|by split].
Qed.

Lemma agents_life f a : life (on_agents f a) = life a.
Proof. done. Qed.

Lemma dispatch_agent_quiet (e : Env (K := K)) peer key m v d :
  quiet d (dispatch_agent_rpc sha256 e peer key m v d).1.
Proof.
  unfold dispatch_agent_rpc, agent_claim, agent_event.
  repeat (case_match; try apply quiet_refl); by apply quiet_on_arc.
Qed.

Lemma stream_closed_quiet g d : quiet d (stream_closed g d).
Proof.
  unfold stream_closed. destruct (hub_clear g (hub d)) as [[] h]; [|by split].
  eapply (quiet_trans d (set_hub d h)); [by split|]. apply quiet_on_all. auto with quiet.
Qed.

Lemma attach_quiet (e : Env (K := K)) id d : quiet d (attach e id d).1.
Proof.
  unfold attach. destruct (find_session d id) as [[h a]|err] eqn:E; [|apply quiet_refl].
  apply find_session_arc in E as [_ Ha].
  destruct (warm_snapshot_json e (ses a)) as [w s] eqn:Ew. by eapply quiet_snapshot.
Qed.
End frame.

(** * One session per id *)

Section one_session.
Context {P : Type} `{Vt100 P} {K : Type} `{Kernel K}.
Context (base64_decode : bytes -> option bytes) (sha256 : bytes -> bytes).
Abbreviation Srv := (srv (P := P)).

(** A call that reserved its id and has not published or given up, and the
    session it has spawned. *)
Definition reserving (pc : create_pc) : bool :=
  match pc with Probing | Spawning _ | Registering _ _ | Publishing _ _ _ => true | _ => false end.
Definition holds (pc : create_pc) : option nat :=
  match pc with Registering h _ | Publishing h _ _ => Some h | _ => None end.

Definition reserves (x : Srv) (n : nat) (id : bytes) : Prop :=
  exists c, callers x !! n = Some c /\ c_id c = id /\ reserving (c_pc c) = true.
Definition held (x : Srv) (n : nat) (id : bytes) (h : nat) : Prop :=
  exists c, callers x !! n = Some c /\ c_id c = id /\ holds (c_pc c) = Some h.
Definition life_of (x : Srv) (h : nat) : option (bytes * bool) := life <$> arcs (dm x) !! h.

(** The map says Pending exactly while one call holds the reservation; a session
    that is alive is in the map, or held by the call that will put it there. *)
Record srv_inv (x : Srv) : Prop := {
  si_pending : forall id, sessions (dm x) !! id = Some Pending <-> exists n, reserves x n id;
  si_unique : forall id n m, reserves x n id -> reserves x m id -> n = m;
  si_live : forall h id, life_of x h = Some (id, true) ->
    sessions (dm x) !! id = Some (Live h) \/ exists n, held x n id h;
  si_slot : forall id h, sessions (dm x) !! id = Some (Live h) -> exists b, life_of x h = Some (id, b);
  si_held : forall n id h, held x n id h -> exists b, life_of x h = Some (id, b);
  si_reader : forall h, readers x !! h = Some Reading <-> exists id, life_of x h = Some (id, true)
}.

Lemma held_reserves x n id h : held x n id h -> reserves x n id.
Proof. intros (c & Hn & Hi & Hh). exists c. split_and!; try done. by destruct (c_pc c). Qed.

Lemma srv_inv_new token : srv_inv (srv_new token).
Proof.
  split; cbn; try done.
  - intros id. split; [done|]. by intros (n & c & Hc & _).
  - by intros id n m (c & Hc & _).
  - by intros n id h (c & Hc & _).
  - intros h. split; [done|]. by intros [id Hi].
Qed.

(** A call's entry is written; [c] is what was there, if anything was. *)
Section update.
Context (x : Srv) (d : Daemon (P := P)) (rs : gmap nat reader_pc) (n : nat) (p : CreateParams) (pc : create_pc).
Let x' : Srv := mkSrv d (<[n := mkCaller p pc]> (callers x)) rs.

Lemma reserves_update m id :
  reserves x' m id <-> (m = n /\ id = cr_id p /\ reserving pc = true) \/ (m <> n /\ reserves x m id).
Proof.
  unfold reserves, x'. cbn. destruct (decide (m = n)) as [->|Hm].
  - rewrite lookup_insert_eq. split.
    + intros (c & [= <-] & <- & Hr). by left.
    + intros [(_ & -> & Hr)|[? _]]; [|done]. by eexists.
  - rewrite lookup_insert_ne by done. split; [by right|]. by intros [[? _]|[_ ?]].
Qed.

Lemma held_update m id h :
  held x' m id h <-> (m = n /\ id = cr_id p /\ holds pc = Some h) \/ (m <> n /\ held x m id h).
Proof.
  unfold held, x'. cbn. destruct (decide (m = n)) as [->|Hm].
  - rewrite lookup_insert_eq. split.
    + intros (c & [= <-] & <- & Hr). by left.
    + intros [(_ & -> & Hr)|[? _]]; [|done]. by eexists.
  - rewrite lookup_insert_ne by done. split; [by right|]. by intros [[? _]|[_ ?]].
Qed.
End update.

Lemma reserves_at x n c id :
  callers x !! n = Some c -> reserves x n id <-> id = c_id c /\ reserving (c_pc c) = true.
Proof. intros Hn. unfold reserves. split; [|by intros [-> ?]; eauto]. intros (c' & Hc & <- & Hr). by simplify_eq. Qed.
Lemma held_at x n c id h :
  callers x !! n = Some c -> held x n id h <-> id = c_id c /\ holds (c_pc c) = Some h.
Proof. intros Hn. unfold held. split; [|by intros [-> ?]; eauto]. intros (c' & Hc & <- & Hr). by simplify_eq. Qed.
Lemma reserves_none x n id : callers x !! n = None -> ~ reserves x n id.
Proof. intros Hn (c & Hc & _). congruence. Qed.

(** Steps of the daemon that leave the map and the lives alone. *)
Lemma srv_inv_same x d :
  srv_inv x -> sessions d = sessions (dm x) ->
  (forall h, life <$> arcs d !! h = life <$> arcs (dm x) !! h) ->
  srv_inv (mkSrv d (callers x) (readers x)).
Proof.
  intros [H1 H2 H3 H4 H5 H6] Q1 Q2.
  assert (Hl : forall h, life_of (mkSrv d (callers x) (readers x)) h = life_of x h) by apply Q2.
  split; cbn [dm callers readers]; rewrite ?Q1; try done.
  - intros h id. rewrite Hl. apply H3.
  - intros id h. rewrite Hl. apply H4.
  - intros n id h. rewrite Hl. apply H5.
  - intros h. rewrite Hl. apply H6.
Qed.

Lemma srv_inv_quiet x d : srv_inv x -> quiet (dm x) d -> srv_inv (mkSrv d (callers x) (readers x)).
Proof. intros Hx [Q1 Q2 _]. by apply srv_inv_same. Qed.

(** A call's entry changes, but neither its reservation nor its session. *)
Lemma srv_inv_move x n p pc :
  srv_inv x ->
  (forall id, reserves x n id <-> id = cr_id p /\ reserving pc = true) ->
  (forall id h, held x n id h <-> id = cr_id p /\ holds pc = Some h) ->
  srv_inv (mkSrv (dm x) (<[n := mkCaller p pc]> (callers x)) (readers x)).
Proof.
  intros [H1 H2 H3 H4 H5 H6] Hr Hh. set (x' := mkSrv _ _ _).
  assert (Er : forall m id, reserves x' m id <-> reserves x m id).
  { intros m id. unfold x'. rewrite reserves_update. destruct (decide (m = n)) as [->|Hm]; [rewrite Hr|]; tauto. }
  assert (Eh : forall m id h, held x' m id h <-> held x m id h).
  { intros m id h. unfold x'. rewrite held_update. destruct (decide (m = n)) as [->|Hm]; [rewrite Hh|]; tauto. }
  split; [|intros id m k|intros h id|exact H4|intros m id h|exact H6].
  - intros id. setoid_rewrite Er. apply H1.
  - rewrite !Er. apply H2.
  - setoid_rewrite Eh. apply H3.
  - rewrite Eh. apply H5.
Qed.

(** The winner reserves an id that no live session has. *)
Lemma srv_inv_reserve x n c :
  srv_inv x -> callers x !! n = Some c -> c_pc c = Resolving ->
  sessions (dm x) !! c_id c <> Some Pending ->
  (forall h, sessions (dm x) !! c_id c = Some (Live h) -> life_of x h <> Some (c_id c, true)) ->
  srv_inv (move n c Probing (set_sessions (dm x) (<[c_id c := Pending]> (sessions (dm x)))) x).
Proof.
  intros [H1 H2 H3 H4 H5 H6] Hn Hpc Hslot Hdead. set (x' := move _ _ _ _ _).
  assert (Hfree : forall m, ~ reserves x m (c_id c)) by (intros m Hm; apply Hslot, H1; eauto).
  assert (Er : forall m id, reserves x' m id <-> (m = n /\ id = c_id c) \/ (m <> n /\ reserves x m id)).
  { intros m id. unfold x', move. rewrite reserves_update. cbn. tauto. }
  assert (Eh : forall m id h, held x' m id h <-> held x m id h).
  { intros m id h. unfold x', move. rewrite held_update. cbn. destruct (decide (m = n)) as [->|Hm].
    - rewrite (held_at x n c) by done. rewrite Hpc. cbn. split; [by intros [(_ & _ & ?)|[? _]]|by intros [_ ?]].
    - tauto. }
  split; cbn [x' move dm set_sessions sessions].
  - intros id. rewrite lookup_insert_Some. setoid_rewrite Er. split.
    + intros [[<- _]|[Hne Hp]]; [eauto|]. apply H1 in Hp as [m Hm]. exists m. right. split; [|done].
      intros ->. apply (reserves_at x n c) in Hm as [? _]; congruence.
    + intros (m & [[-> ->]|[_ Hm]]); [by left|]. right. split; [|apply H1; eauto].
      intros <-. by apply (Hfree m).
  - intros id m k. rewrite !Er. intros [[-> E]|[? Hm]] [[-> E']|[? Hk]]; [done| | |by eapply H2].
    + subst id. by destruct (Hfree k).
    + subst id. by destruct (Hfree m).
  - intros h id Hl. setoid_rewrite Eh. destruct (H3 h id Hl) as [Hs|?]; [|by right]. left.
    rewrite lookup_insert_ne; [done|]. intros <-. by apply (Hdead h).
  - intros id h. rewrite lookup_insert_Some. intros [[_ ?]|[_ Hs]]; [done|]. by apply H4.
  - intros m id h. rewrite Eh. apply H5.
  - exact H6.
Qed.

(** The reserving call spawns: the new session is its own. *)
Lemma srv_inv_spawned x n c cold h a :
  srv_inv x -> callers x !! n = Some c -> c_pc c = Spawning cold -> arcs (dm x) !! h = None ->
  life a = (c_id c, true) ->
  srv_inv (mkSrv (spawned h a (dm x)) (<[n := mkCaller (c_params c) (Registering h cold)]> (callers x))
             (<[h := Reading]> (readers x))).
Proof.
  intros [H1 H2 H3 H4 H5 H6] Hn Hpc Hh Ha. set (x' := mkSrv _ _ _).
  assert (Hlh : life_of x h = None) by (unfold life_of; by rewrite Hh).
  assert (El : forall h', life_of x' h' = if decide (h' = h) then Some (c_id c, true) else life_of x h').
  { intros h'. unfold life_of, x'. cbn. destruct (decide (h' = h)) as [->|Hne].
    - rewrite lookup_insert_eq. cbn. by rewrite Ha.
    - by rewrite lookup_insert_ne. }
  assert (Er : forall m id, reserves x' m id <-> reserves x m id).
  { intros m id. unfold x'. rewrite reserves_update. cbn. destruct (decide (m = n)) as [->|Hm]; [|tauto].
    rewrite (reserves_at x n c) by done. rewrite Hpc. cbn. tauto. }
  assert (Eh : forall m id h', held x' m id h' <-> (m = n /\ id = c_id c /\ h' = h) \/ (m <> n /\ held x m id h')).
  { intros m id h'. unfold x'. rewrite held_update. cbn.
    split; (intros [(-> & -> & [= ->])|?]; [by left|by right]). }
  split; cbn [x' dm spawned set_arcs sessions readers].
  - intros id. setoid_rewrite Er. apply H1.
  - intros id m k. rewrite !Er. apply H2.
  - intros h' id. rewrite El. setoid_rewrite Eh. destruct (decide (h' = h)) as [->|Hne].
    + intros [= <-]. right. exists n. by left.
    + intros Hl. destruct (H3 h' id Hl) as [?|[m Hm]]; [by left|right]. exists m. right. split; [|done].
      intros ->. apply (held_at x n c) in Hm as [_ Hm]; [|done]. by rewrite Hpc in Hm.
  - intros id h' Hs. rewrite El. destruct (decide (h' = h)) as [->|Hne]; [|by apply H4].
    destruct (H4 id h Hs) as [b Hb]. congruence.
  - intros m id h'. rewrite El, Eh. intros [(-> & -> & ->)|[_ Hm]].
    + rewrite decide_True by done. eauto.
    + destruct (decide (h' = h)) as [->|Hne]; [|by eapply H5].
      destruct (H5 m id h Hm) as [b Hb]. congruence.
  - intros h'. rewrite El. destruct (decide (h' = h)) as [->|Hne].
    + rewrite lookup_insert_eq. split; [eauto|done].
    + rewrite lookup_insert_ne by done. apply H6.
Qed.

(** The reservation ends, with the session in the map or without one. *)
Lemma srv_inv_release x n c pc m' :
  srv_inv x -> callers x !! n = Some c -> reserving (c_pc c) = true -> reserving pc = false ->
  m' = match holds (c_pc c) with
       | Some h => <[c_id c := Live h]> (sessions (dm x))
       | None => delete (c_id c) (sessions (dm x))
       end ->
  srv_inv (move n c pc (set_sessions (dm x) m') x).
Proof.
  intros [H1 H2 H3 H4 H5 H6] Hn Hr Hpc Hm. set (x' := move _ _ _ _ _).
  assert (Hres : reserves x n (c_id c)) by (by apply (reserves_at x n c)).
  assert (Hpend : sessions (dm x) !! c_id c = Some Pending) by (apply H1; eauto).
  assert (Hm_ne : forall id, id <> c_id c -> m' !! id = sessions (dm x) !! id).
  { intros id Hne. rewrite Hm. case_match; [by rewrite lookup_insert_ne|by rewrite lookup_delete_ne]. }
  assert (Hm_eq : m' !! c_id c = Live <$> holds (c_pc c)).
  { rewrite Hm. case_match; [by rewrite lookup_insert_eq|by rewrite lookup_delete_eq]. }
  assert (Er : forall m id, reserves x' m id <-> m <> n /\ reserves x m id).
  { intros m id. unfold x', move. rewrite reserves_update, Hpc.
    split; [by intros [(_ & _ & ?)|?]|by right]. }
  assert (Hhn : holds pc = None) by (by destruct pc).
  assert (Eh : forall m id h, held x' m id h <-> m <> n /\ held x m id h).
  { intros m id h. unfold x', move. rewrite held_update, Hhn.
    split; [by intros [(_ & _ & ?)|?]|by right]. }
  assert (Hother : forall m id, m <> n -> reserves x m id -> id <> c_id c).
  { intros m id Hne Hm1 ->. by apply Hne, (H2 (c_id c)). }
  split; cbn [x' move dm set_sessions sessions].
  - intros id. setoid_rewrite Er. destruct (decide (id = c_id c)) as [->|Hne].
    + rewrite Hm_eq. split; [by destruct (holds _)|]. intros (m & Hmn & Hrm). by destruct (Hother m (c_id c)).
    + rewrite Hm_ne, H1 by done. split; [intros [m Hrm]|intros (m & _ & Hrm); eauto].
      exists m. split; [|done]. intros ->. apply (reserves_at x n c) in Hrm as [? _]; done.
  - intros id m k. rewrite !Er. intros [_ ?] [_ ?]. by eapply H2.
  - intros h id Hl. setoid_rewrite Eh. destruct (decide (id = c_id c)) as [->|Hne].
    + rewrite Hm_eq. left. destruct (H3 h _ Hl) as [Hs|[m Hh]]; [congruence|].
      assert (m = n) as -> by (eapply H2; [by eapply held_reserves|done]).
      apply (held_at x n c) in Hh as [_ ->]; done.
    + rewrite Hm_ne by done. destruct (H3 h id Hl) as [?|[m Hh]]; [by left|right].
      exists m. split; [|done]. intros ->. apply (held_at x n c) in Hh as [? _]; done.
  - intros id h. destruct (decide (id = c_id c)) as [->|Hne].
    + rewrite Hm_eq. destruct (holds (c_pc c)) eqn:E; [|done]. cbn. intros [= ->].
      apply (H5 n). by apply (held_at x n c).
    + rewrite Hm_ne by done. apply H4.
  - intros m id h. rewrite Eh. intros [_ ?]. by eapply H5.
  - exact H6.
Qed.

(** A reader past its loop moves on. *)
Lemma srv_inv_reader x h pc :
  srv_inv x -> readers x !! h <> Some Reading -> pc <> Reading ->
  srv_inv (mkSrv (dm x) (callers x) (<[h := pc]> (readers x))).
Proof.
  intros [H1 H2 H3 H4 H5 H6] Hh Hpc. split; try done. cbn. intros h'.
  destruct (decide (h' = h)) as [->|Hne]; [|rewrite lookup_insert_ne by done; apply H6].
  rewrite lookup_insert_eq. split; [congruence|]. intros Hl. destruct Hh. by apply H6.
Qed.

(** The end of the output: the session dies, wherever it is. *)
Lemma srv_inv_stop x h :
  srv_inv x -> readers x !! h = Some Reading ->
  srv_inv (mkSrv (on_arc (on_session reader_stops) h (dm x)) (callers x) (<[h := Stopped]> (readers x))).
Proof.
  intros [H1 H2 H3 H4 H5 H6] Hh. set (x' := mkSrv _ _ _).
  destruct (proj1 (H6 h) Hh) as [i Hi].
  assert (El : forall h', life_of x' h' = if decide (h' = h) then Some (i, false) else life_of x h').
  { intros h'. unfold life_of, x'. cbn. destruct (decide (h' = h)) as [->|Hne].
    - rewrite lookup_alter_eq. unfold life_of in Hi. destruct (arcs (dm x) !! h); [|done].
      injection Hi as Hi _. cbn. unfold life. cbn. by rewrite Hi.
    - by rewrite lookup_alter_ne. }
  split; cbn [x' dm on_arc set_arcs sessions readers]; try done.
  - intros h' id. rewrite El. destruct (decide (h' = h)); [done|]. apply H3.
  - intros id h' Hs. rewrite El. destruct (decide (h' = h)) as [->|]; [|by apply H4].
    destruct (H4 id h Hs) as [b Hb]. exists false. congruence.
  - intros m id h' Hm. rewrite El. destruct (decide (h' = h)) as [->|]; [|by eapply H5].
    destruct (H5 m id h Hm) as [b Hb]. exists false. congruence.
  - intros h'. rewrite El. destruct (decide (h' = h)) as [->|Hne].
    + rewrite lookup_insert_eq. split; [done|]. by intros [? ?].
    + rewrite lookup_insert_ne by done. apply H6.
Qed.

(** Only a dead session's own entry is reaped. *)
Lemma srv_inv_reap x id h :
  srv_inv x -> readers x !! h <> Some Reading -> srv_inv (mkSrv (reap id h (dm x)) (callers x) (readers x)).
Proof.
  intros Hx Hh. pose proof Hx as [H1 H2 H3 H4 H5 H6]. unfold reap.
  destruct (sessions (dm x) !! id) as [[|h']|] eqn:Es; try by destruct x.
  case_bool_decide as E; [|by destruct x]. subst h'.
  assert (Hl : forall i, life_of x h <> Some (i, true)) by (intros i Hi; apply Hh, H6; eauto).
  split; cbn [dm set_sessions sessions readers]; try done.
  - intros id'. rewrite lookup_delete_Some, H1. split; [by intros [_ ?]|]. intros Hr. split; [|done].
    intros <-. apply H1 in Hr. congruence.
  - intros h' id' Hl'. destruct (H3 h' id' Hl') as [Hs|?]; [left|by right].
    rewrite lookup_delete_ne; [done|]. intros <-. rewrite Es in Hs. injection Hs as ->. by apply (Hl id).
  - intros id' h'. rewrite lookup_delete_Some. intros [_ Hs]. by apply H4.
Qed.

Lemma spawned_life p cold pid : life (spawned_arc p cold pid) = (cr_id p, true).
Proof. unfold spawned_arc. by destruct (spawn_geometry p cold) as [[? ?] ?]. Qed.

Lemma srv_inv_register x persisted id h :
  srv_inv x -> srv_inv (mkSrv (register_history persisted id h (dm x)) (callers x) (readers x)).
Proof.
  intros Hx. unfold register_history. destruct persisted; [|by destruct x].
  apply srv_inv_same; [done|done|].
  apply (quiet_session enable_history h (set_registry (dm x) (<[id := h]> (registry (dm x))) _)), keeps_enable.
Qed.

(** A move that follows a change of the daemon. *)
Lemma srv_inv_move_at x n c pc d :
  srv_inv (mkSrv d (callers x) (readers x)) -> callers x !! n = Some c ->
  reserving pc = reserving (c_pc c) -> holds pc = holds (c_pc c) -> srv_inv (move n c pc d x).
Proof.
  intros Hx Hn Hr Hh.
  apply (srv_inv_move (mkSrv d (callers x) (readers x)) n (c_params c) pc Hx).
  - intros id. rewrite (reserves_at _ n c) by done. by rewrite Hr.
  - intros id h. rewrite (held_at _ n c) by done. by rewrite Hh.
Qed.

Lemma life_step_inv x y : srv_inv x -> life_step (K := K) x y -> srv_inv y.
Proof.
  intros Hx Hs.
  assert (Hself : srv_inv (mkSrv (dm x) (callers x) (readers x))) by (by destruct x).
  destruct Hs as [x n p Hn|x n c Hn Hpc|x n c Hn Hpc|x n c e Hn Hpc|x n c cold Hn Hpc
    |x n c cold h pid Hn Hpc Hh|x n c cold why Hn Hpc|x n c h cold persisted Hn Hpc Hr
    |x n c h cold persisted Hn Hpc|x h Hh|x h a Hh Ha|x h a Hh Ha].
  - apply srv_inv_move; [done| |].
    + intros id. split; [|by intros [_ ?]]. intros Hr. by apply reserves_none in Hr.
    + intros id h. split; [|by intros [_ ?]]. intros Hr%held_reserves. by apply reserves_none in Hr.
  - unfold resolve_slot. destruct (sessions (dm x) !! c_id c) as [[|h]|] eqn:Es.
    + apply srv_inv_move_at; by rewrite ?Hpc.
    + destruct (is_live (dm x) h) eqn:El; [apply srv_inv_move_at; by rewrite ?Hpc|].
      apply srv_inv_reserve; try done; [congruence|]. intros h' Hs'. rewrite Es in Hs'. injection Hs' as <-.
      unfold life_of. unfold is_live, arc_of in El. destruct (arcs (dm x) !! h); [|done].
      cbn. unfold life. congruence.
    + apply srv_inv_reserve; try done; congruence.
  - apply srv_inv_move_at; by rewrite ?Hpc.
  - pose proof (attach_quiet e (c_id c) (dm x)) as Hq. destruct (attach e (c_id c) (dm x)) as [d r].
    apply srv_inv_move_at; try (by rewrite ?Hpc). by apply srv_inv_quiet.
  - apply srv_inv_move_at; by rewrite ?Hpc.
  - eapply srv_inv_spawned; try done. apply spawned_life.
  - apply (srv_inv_release x n c); rewrite ?Hpc; done.
  - apply srv_inv_move_at; try (by rewrite ?Hpc). by apply srv_inv_register.
  - apply (srv_inv_release x n c); rewrite ?Hpc; done.
  - by apply srv_inv_stop.
  - apply (srv_inv_reader (mkSrv (close_history (Session.id (ses a)) (dm x)) (callers x) (readers x)));
      cbn; [|congruence|done].
    by apply srv_inv_same.
  - apply (srv_inv_reader (mkSrv (reap (Session.id (ses a)) h (dm x)) (callers x) (readers x)));
      cbn; [|congruence|done].
    apply srv_inv_reap; [done|congruence].
Qed.

Lemma srv_step_inv x y : srv_inv x -> srv_step base64_decode sha256 x y -> srv_inv y.
Proof.
  intros Hx Hs. destruct Hs as [x y Hl| | | | | | | | | |]; [by eapply life_step_inv|..].
  all: apply srv_inv_quiet; [done|]; try by split.
  - apply dispatch_notify_quiet.
  - apply handle_rpc_quiet.
  - apply dispatch_agent_quiet.
  - apply stream_closed_quiet.
  - unfold control_left. case_match; by split.
Qed.

Lemma srv_inv_one_life x id h h' :
  srv_inv x -> life_of x h = Some (id, true) -> life_of x h' = Some (id, true) -> h = h'.
Proof.
  intros [H1 H2 H3 H4 H5 H6] Hl Hl'.
  assert (Hhs : forall id h n h', sessions (dm x) !! id = Some (Live h) -> held x n id h' -> False).
  { clear -H1. intros id h n h' Hs Hh. assert (sessions (dm x) !! id = Some Pending); [|congruence].
    apply H1. exists n. by eapply held_reserves. }
  destruct (H3 h id Hl) as [Hs|[n Hn]], (H3 h' id Hl') as [Hs'|[n' Hn']].
  - congruence.
  - by destruct (Hhs id h n' h').
  - by destruct (Hhs id h' n h).
  - assert (n = n') as <- by (eapply H2; by eapply held_reserves).
    destruct Hn as (c & Hc & _ & Hh), Hn' as (c' & Hc' & _ & Hh'). congruence.
Qed.
Lemma srv_reachable_inv token x : rtc (srv_step base64_decode sha256) (srv_new token) x -> srv_inv x.
Proof. intros Hx. eapply rtc_invariant; [exact srv_step_inv|apply (srv_inv_new token)|exact Hx]. Qed.

(** C4: however the calls of createOrAttach, the ends of the sessions' output and
    the messages of clients interleave, an id never has two live sessions. The
    map says Pending exactly while one call holds the id's reservation, so that a
    second call cannot spawn and no reservation outlives the call that made it;
    a session that is alive is in the map under its id, or about to be put there
    by the one call that holds it, so that reaping a dead session never takes
    its successor away. *)
Theorem one_live_session_per_id token x :
  rtc (srv_step base64_decode sha256) (srv_new token) x ->
  (forall id h h', life_of x h = Some (id, true) -> life_of x h' = Some (id, true) -> h = h') /\
  (forall id, sessions (dm x) !! id = Some Pending <-> exists n, reserves x n id) /\
  (forall id n m, reserves x n id -> reserves x m id -> n = m) /\
  (forall id h, life_of x h = Some (id, true) ->
    sessions (dm x) !! id = Some (Live h) \/ exists n, held x n id h).
Proof.
  intros Hx%srv_reachable_inv. split_and!; [intros id h h'; by apply srv_inv_one_life|..]; destruct Hx as [H1 H2 H3 H4 H5 H6].
  - exact H1.
  - exact H2.
  - intros id h. apply H3.
Qed.
End one_session.

(** * Authentication *)

Lemma foldl_lor_zero {A} (g : A -> Z) l d :
  foldl (fun diff i => Z.lor diff (g i)) d l = 0 <-> d = 0 /\ Forall (fun i => g i = 0) l.
Proof.
  revert d. induction l as [|i l IH]; intros d; cbn; [rewrite Forall_nil; tauto|].
  rewrite IH, Z.lor_eq_0_iff, Forall_cons. tauto.
Qed.

Lemma constant_time_eq_spec a b : constant_time_eq a b = bool_decide (a = b).
Proof.
  unfold constant_time_eq. apply eq_true_iff_eq. rewrite Z.eqb_eq, foldl_lor_zero, Z.lxor_eq_0_iff.
  rewrite bool_decide_eq_true, Forall_forall. split.
  - intros [Hl Hi]. assert (Hlen : length a = length b) by (unfold zlen in Hl; lia).
    apply (nth_ext _ _ 0 0 Hlen). intros n Hn. apply Z.lxor_eq_0_iff, Hi, list_elem_of_In, in_seq. lia.
  - intros ->. split; [done|]. intros i _. by rewrite Z.lxor_nilpotent.
Qed.

Section auth.
Context {P : Type} `{Vt100 P} {K : Type} `{Kernel K}.
Context (sha256 : bytes -> bytes).
Implicit Types (d : Daemon (P := P)).

(** The handshake admits a control or a stream connection exactly when the
    version is the daemon's and the token is the daemon's and not empty; an
    agent is admitted on the version alone, and to the agent channel only. *)
Theorem handshake_spec d h k :
  admit_hello d h = Welcomed k <->
  h_version h = version d /\ k = h_kind h /\ (k = Agent \/ (h_token h = token d /\ token d <> [])).
Proof.
  unfold admit_hello. destruct (Z.eqb_spec (h_version h) (version d)) as [Ev|Ev]; cbn [negb];
    [|split; [done|tauto]].
  rewrite constant_time_eq_spec.
  assert (Ht : bool_decide (h_token h = []) || bool_decide (token d = []) ||
    negb (bool_decide (h_token h = token d)) = false <-> h_token h = token d /\ token d <> []).
  { rewrite !orb_false_iff, negb_false_iff, bool_decide_eq_true, !bool_decide_eq_false.
    split; [tauto|]. intros [-> ?]. done. }
  destruct (h_kind h) eqn:Ek; cbn [is_agent negb andb].
  3: { split; [intros [= <-]; auto|]. by intros (_ & -> & _). }
  all: destruct (_ || _ || _); split; try done; try (intros [= <-]; split_and!; [done|done|right; by apply Ht]);
    intros (_ & -> & [?|Hr]); try done; by apply Ht in Hr.
Qed.

Lemma verify_key_ok d id key :
  verify_session_key sha256 d id key = Ok tt <->
  key <> [] /\ key = derive_session_key sha256 (token d) id.
Proof.
  unfold verify_session_key. rewrite constant_time_eq_spec. repeat case_bool_decide; cbn; split; try done; tauto.
Qed.

(** ** What an agent's connection can do *)

(** The sessions the key opens. *)
Definition opens (key : bytes) d (h : nat) : Prop :=
  exists id, get_session d id = Some h /\ key = derive_session_key sha256 (token d) id.

(** Nothing changes but the claims of the sessions that [key] opens. *)
Definition confined (key : bytes) d d' : Prop :=
  exists m, d' = set_arcs d m /\
    forall h, match arcs d !! h with
              | None => m !! h = None
              | Some a => exists l, m !! h = Some (on_agents (fun _ => l) a) /\ (l = agents a \/ opens key d h)
              end.

Lemma confined_refl key d : confined key d d.
Proof.
  exists (arcs d). split; [by destruct d|]. intros h. destruct (arcs d !! h) as [a|]; [|done].
  exists (agents a). split; [by destruct a|by left].
Qed.

Lemma confined_trans key d1 d2 d3 : confined key d1 d2 -> confined key d2 d3 -> confined key d1 d3.
Proof.
  intros (m & -> & H1) (m' & -> & H2). exists m'. split; [done|]. intros h.
  specialize (H1 h). specialize (H2 h). cbn in H2. destruct (arcs d1 !! h) as [a|].
  - destruct H1 as (l & E1 & Hl). rewrite E1 in H2. destruct H2 as (l' & E2 & Hl').
    exists l'. split; [done|]. destruct Hl' as [->|?]; [exact Hl|by right].
  - by rewrite H1 in H2.
Qed.

Lemma confined_on_agents key d h f : opens key d h -> confined key d (on_arc (on_agents f) h d).
Proof.
  intros Ho. exists (alter (on_agents f) h (arcs d)). split; [done|]. intros h'.
  destruct (decide (h = h')) as [<-|Hne].
  - destruct (arcs d !! h) as [a|] eqn:E; rewrite lookup_alter_eq, E; [|done].
    exists (f (agents a)). split; [done|by right].
  - rewrite lookup_alter_ne by done. destruct (arcs d !! h') as [a|]; [|done].
    exists (agents a). split; [by destruct a|by left].
Qed.

Lemma checked_opens key d id h a :
  (result_bind (verify_session_key sha256 d id key) (fun _ => find_session d id)) = Ok (h, a) -> opens key d h.
Proof.
  intros E. apply result_bind_ok in E as ([] & Hk & Hf). apply verify_key_ok in Hk as [_ ->].
  apply find_session_arc in Hf as [Hs _]. exists id. split; [|done]. unfold get_session. by rewrite Hs.
Qed.

Lemma agent_rpc_confined (e : Env (K := K)) peer key m v d :
  confined key d (dispatch_agent_rpc sha256 e peer key m v d).1.
Proof.
  unfold dispatch_agent_rpc.
  destruct (bytes_eqb m METHOD_AGENT_CLAIM); [|destruct (bytes_eqb m METHOD_AGENT_EVENT); [|apply confined_refl]].
  - destruct (parse_params agent_claim_params_of v) as [p|]; [|apply confined_refl]. unfold agent_claim.
    destruct (result_bind (verify_session_key _ _ _ _) _) as [[h c]|] eqn:E; [|apply confined_refl].
    apply confined_on_agents. apply result_bind_ok in E as ([] & Hk & E).
    apply result_bind_ok in E as ([h' a] & Hf & E).
    assert (h' = h) as ->.
    { repeat (apply result_bind_ok in E as (? & _ & E)). by case_match; simplify_eq. }
    eapply checked_opens. rewrite Hk. cbn. exact Hf.
  - destruct (parse_params agent_event_params_of v) as [p|]; [|apply confined_refl]. unfold agent_event.
    destruct (result_bind _ _) as [[h a]|] eqn:E; [|apply confined_refl].
    apply confined_on_agents. by eapply checked_opens.
Qed.

(** The lines one agent connection sends, each with what is outside then. *)
Fixpoint agent_lines `{JsonText} (peer : option Z) (key : bytes) (ls : list (Env (K := K) * bytes)) d :
    Daemon (P := P) * list RpcReply :=
  match ls with
  | [] => (d, [])
  | (e, l) :: ls =>
      let (d, r) := agent_line sha256 e peer key l d in
      let (d, rs) := agent_lines peer key ls d in
      (d, match r with Some r => r :: rs | None => rs end)
  end.

Definition request_id `{JsonText} (line : bytes) : option Z :=
  match decode_ndjson_line control_of line with Ok (MRequest r) => Some (rq_id r) | _ => None end.

(** C6: whatever an agent connection sends, it changes nothing of the daemon but
    the claims of the sessions its key was derived for: no session is killed,
    resized, written to, created or shut down, no other pane's badge changes, no
    history is touched. Every request is answered once, in order, and nothing
    else is. *)
Theorem agent_connection_confined `{JsonText} peer key ls d :
  let (d', replies) := agent_lines peer key ls d in
  confined key d d' /\ rp_id <$> replies = omap (fun l => request_id l.2) ls.
Proof.
  revert d. induction ls as [|[e l] ls IH]; intros d; cbn; [by split; [apply confined_refl|]|].
  destruct (agent_line sha256 e peer key l d) as [d1 r] eqn:E. specialize (IH d1).
  destruct (agent_lines peer key ls d1) as [d2 rs]. destruct IH as [Hc Hi].
  unfold agent_line in E. unfold request_id. cbn [snd].
  destruct (decode_ndjson_line control_of l) as [[| |rq| |]|]; simplify_eq; cbn; try done.
  pose proof (agent_rpc_confined e peer key (rq_method rq) (rq_params rq) d) as Hq.
  destruct (dispatch_agent_rpc _ _ _ _ _ _ _) as [d3 res]. cbn in E, Hq. injection E as <- <-.
  split; [by eapply confined_trans|]. cbn. rewrite Hi. by destruct res.
Qed.
End auth.

(** * Claims *)

Section claims.
Context {P : Type} `{Vt100 P} {K : Type} `{Kernel K}.
Context (sha256 : bytes -> bytes).
Implicit Types (d : Daemon (P := P)).

(** The checks of a claim, as the design states them. *)
Definition may_claim (k : K) (peer : option Z) (a : SessionArc (P := P)) (f : ProcFacts) (pid : Z) : Prop :=
  peer = Some pid /\ facts k pid = Some f /\ Agent.alive f = true /\ has_ctty f = true /\
  exists shell g, shell_pid a = Some shell /\ facts k (as_i32_cast shell) = Some g /\ tdev f = tdev g.

(** A claim is recorded exactly when the key is the session's, the session
    is live in the map, and the kernel's own peer pid is a process that is alive,
    has a terminal, and whose terminal is that of the session's shell. The claim
    carries that pid and its start time, and an idle phase; a refused claim
    changes nothing. *)
Theorem claim_admission (e : Env (K := K)) peer key p d :
  let (d', r) := agent_claim sha256 e peer key p d in
  match r with
  | Ok v =>
      exists h a f pid,
        key <> [] /\ key = derive_session_key sha256 (token d) (acp_session_id p) /\
        sessions d !! acp_session_id p = Some (Live h) /\ arcs d !! h = Some a /\
        may_claim (kernel e) peer a f pid /\
        v = agent_claim_result (new_claim_id (random e)) /\
        d' = on_arc (on_agents (fun l => record_agent_claim l
               (mkAgentClaim (new_claim_id (random e)) (acp_tool p) pid (start_us f) Idle 0) (kernel e))) h d
  | Err _ =>
      d' = d /\
      ~ (exists h a f pid,
           key <> [] /\ key = derive_session_key sha256 (token d) (acp_session_id p) /\
           sessions d !! acp_session_id p = Some (Live h) /\ arcs d !! h = Some a /\
           may_claim (kernel e) peer a f pid)
  end.
Proof.
  unfold agent_claim. destruct (result_bind _ _) as [[h c]|err] eqn:E.
  - apply result_bind_ok in E as ([] & Hk & E). apply verify_key_ok in Hk as [Hk1 Hk2].
    apply result_bind_ok in E as ([h' a] & Hf & E). apply find_session_arc in Hf as [Hs Ha].
    apply result_bind_ok in E as (pid & Hp & E). unfold ok_or in *.
    destruct peer as [pid'|]; [|done]. injection Hp as ->.
    destruct (facts (kernel e) pid) as [f|] eqn:Ef; [|done]. destruct (Agent.alive f) eqn:Eal; [|done].
    cbn in E. destruct (shell_pid a) as [sh|] eqn:Esh; [|done]. cbn in E.
    destruct (facts (kernel e) (as_i32_cast sh)) as [g|] eqn:Eg; [|done]. cbn in E.
    destruct (has_ctty f) eqn:Ec; [|done]. cbn in E.
    destruct (Z.eqb_spec (tdev f) (tdev g)) as [Et|]; [|done]. cbn in E. injection E as <- <-.
    exists h', a, f, pid. split_and!; try done.
    repeat split; try done. by exists sh, g.
  - split; [done|]. intros (h & a & f & pid & Hk1 & Hk2 & Hs & Ha & -> & Hf & Hal & Hc & sh & g & Esh & Eg & Et).
    assert (verify_session_key sha256 d (acp_session_id p) key = Ok tt) as Hv by (by apply verify_key_ok).
    assert (find_session d (acp_session_id p) = Ok (h, a)) as Hfs
      by (unfold find_session, get_session, arc_of; by rewrite Hs, Ha).
    by rewrite Hv, Hfs in E; cbn in E; rewrite Hf, Hal, Esh in E; cbn in E; rewrite Eg in E; cbn in E;
      rewrite Hc, Et, Z.eqb_refl in E.
Qed.
End claims.

(** * The stream hub *)

Section hub.

(** A stream connection: its generation, the number of frames that were emitted
    before it, what its channel was given, and whether it is open. *)
Record Conn := mkConn { gen : Z; joined : nat; got : list bytes; opened : bool }.
Record hub_sys := mkHubSys { hs_hub : HubInner; conns : gmap nat Conn; emitted : list bytes }.

Definition deliver (b : bytes) (c : Conn) : Conn := mkConn (gen c) (joined c) (got c ++ [b]) (opened c).

(** [run_stream] begins, [emit] is called, [run_stream] ends. A connection's
    generation does not wrap: there are less than 2^64 of them. *)
Inductive hub_step : hub_sys -> hub_sys -> Prop :=
| hs_connect s c :
    conns s !! c = None -> hub_generation (hs_hub s) + 1 < 2 ^ 64 ->
    hub_step s (let (g, h) := hub_set c (hs_hub s) in
                mkHubSys h (<[c := mkConn g (length (emitted s)) [] true]> (conns s)) (emitted s))
| hs_emit s b :
    hub_step s (mkHubSys (hs_hub s)
                  (match hub_emit (hs_hub s) with
                   | Some c => alter (deliver b) c (conns s)
                   | None => conns s
                   end) (emitted s ++ [b]))
| hs_close s c k :
    conns s !! c = Some k -> opened k = true ->
    hub_step s (let (_, h) := hub_clear (gen k) (hs_hub s) in
                mkHubSys h (<[c := mkConn (gen k) (joined k) (got k) false]> (conns s)) (emitted s)).

Definition hub_new : hub_sys := mkHubSys hub_default ∅ [].

Definition newest (s : hub_sys) (c : nat) (k : Conn) : Prop :=
  conns s !! c = Some k /\ gen k = hub_generation (hs_hub s).

Record hub_inv (s : hub_sys) : Prop := {
  hi_nonneg : 0 <= hub_generation (hs_hub s);
  hi_gens : forall c k, conns s !! c = Some k -> 0 < gen k <= hub_generation (hs_hub s);
  hi_distinct : forall c c' k k', conns s !! c = Some k -> conns s !! c' = Some k' -> gen k = gen k' -> c = c';
  hi_tx : forall c, tx (hs_hub s) = Some c <-> exists k, newest s c k /\ opened k = true;
  hi_current : forall c k, newest s c k -> opened k = true -> got k = drop (joined k) (emitted s);
  hi_block : forall c k, conns s !! c = Some k -> got k `prefix_of` drop (joined k) (emitted s);
  hi_joined : forall c k, conns s !! c = Some k -> (joined k <= length (emitted s))%nat
}.

Lemma drop_snoc {A} n (l : list A) x : (n <= length l)%nat -> drop n (l ++ [x]) = drop n l ++ [x].
Proof. intros. by rewrite drop_app_le. Qed.

Lemma hub_inv_connect s c :
  hub_inv s -> conns s !! c = None -> hub_generation (hs_hub s) + 1 < 2 ^ 64 ->
  hub_inv (let (g, h) := hub_set c (hs_hub s) in
           mkHubSys h (<[c := mkConn g (length (emitted s)) [] true]> (conns s)) (emitted s)).
Proof.
  intros [H0 H1 H2 H3 H4 H5 H6] Hc Hg. unfold hub_set. rewrite wrap_small by lia.
  set (g := hub_generation (hs_hub s) + 1) in *. set (k0 := mkConn _ _ _ _).
  assert (Hnew : forall c' k, newest (mkHubSys (mkHub (Some c) g) (<[c := k0]> (conns s)) (emitted s)) c' k <->
    c' = c /\ k = k0).
  { intros c' k. unfold newest. cbn. rewrite lookup_insert_Some. split.
    - intros [[[-> <-]|[_ Hk]] Hgen]; [done|]. specialize (H1 c' k Hk). lia.
    - intros [-> ->]. split; [by left|done]. }
  split; cbn [hs_hub conns emitted hub_generation tx].
  - lia.
  - intros c' k. rewrite lookup_insert_Some. intros [[_ <-]|[_ Hk]]; [cbn; lia|]. specialize (H1 c' k Hk). lia.
  - intros c1 c2 k1 k2. rewrite !lookup_insert_Some.
    intros [[<- <-]|[_ Hk1]] [[<- <-]|[_ Hk2]] E; cbn in E; [done| | |by eapply H2].
    + specialize (H1 c2 k2 Hk2). lia.
    + specialize (H1 c1 k1 Hk1). lia.
  - intros c'. setoid_rewrite Hnew. split; [intros [= <-]; by exists k0|]. by intros (k & [-> _] & _).
  - intros c' k [-> ->]%Hnew _. unfold k0. cbn. by rewrite drop_all.
  - intros c' k. rewrite lookup_insert_Some. intros [[_ <-]|[_ Hk]]; [apply prefix_nil|by eapply H5].
  - intros c' k. rewrite lookup_insert_Some. intros [[_ <-]|[_ Hk]]; [done|by eapply H6].
Qed.

Lemma hub_inv_emit s b :
  hub_inv s ->
  hub_inv (mkHubSys (hs_hub s)
    (match hub_emit (hs_hub s) with Some c => alter (deliver b) c (conns s) | None => conns s end)
    (emitted s ++ [b])).
Proof.
  intros [H0 H1 H2 H3 H4 H5 H6]. unfold hub_emit. set (m := match tx _ with Some _ => _ | None => _ end).
  (** Each connection as it was, with the frame if it is the current one. *)
  assert (Hm : forall c k, m !! c = Some k -> exists k0, conns s !! c = Some k0 /\
    k = if bool_decide (tx (hs_hub s) = Some c) then deliver b k0 else k0).
  { intros c k. unfold m. destruct (tx (hs_hub s)) as [c0|]; [|by exists k].
    destruct (decide (c0 = c)) as [->|Hne].
    - rewrite lookup_alter_eq, fmap_Some. intros (k0 & Hk & ->). exists k0. by rewrite bool_decide_eq_true_2.
    - rewrite lookup_alter_ne by done. intros Hk. exists k. rewrite bool_decide_eq_false_2; [done|congruence]. }
  assert (Hm' : forall c k0, conns s !! c = Some k0 ->
    m !! c = Some (if bool_decide (tx (hs_hub s) = Some c) then deliver b k0 else k0)).
  { intros c k0 Hk. unfold m. destruct (tx (hs_hub s)) as [c0|]; [|done]. destruct (decide (c0 = c)) as [->|Hne].
    - rewrite lookup_alter_eq, Hk, bool_decide_eq_true_2 by done. done.
    - rewrite lookup_alter_ne, Hk, bool_decide_eq_false_2 by congruence. done. }
  assert (Hsame : forall c k0, let k := if bool_decide (tx (hs_hub s) = Some c) then deliver b k0 else k0 in
    gen k = gen k0 /\ opened k = opened k0 /\ joined k = joined k0) by (intros; subst k; by case_match).
  split; cbn [hs_hub conns emitted].
  - done.
  - intros c k Hk. destruct (Hm c k Hk) as (k0 & Hk0 & ->). destruct (Hsame c k0) as (-> & _). by eapply H1.
  - intros c c' k k' Hk Hk'. destruct (Hm c k Hk) as (k0 & Hk0 & ->), (Hm c' k' Hk') as (k1 & Hk1 & ->).
    destruct (Hsame c k0) as (-> & _), (Hsame c' k1) as (-> & _). by apply H2.
  - intros c. rewrite H3. unfold newest. cbn. split.
    + intros (k0 & [Hk0 Hg] & Ho). eexists. split; [split; [by apply Hm'|]|].
      * by destruct (Hsame c k0) as (-> & _).
      * by destruct (Hsame c k0) as (_ & -> & _).
    + intros (k & [Hk Hg] & Ho). destruct (Hm c k Hk) as (k0 & Hk0 & ->). exists k0.
      destruct (Hsame c k0) as (E1 & E2 & _). split_and!; congruence.
  - intros c k [Hk Hg] Ho. destruct (Hm c k Hk) as (k0 & Hk0 & ->). destruct (Hsame c k0) as (E1 & E2 & E3).
    assert (Hn : newest s c k0) by (split; [done|cbn in Hg; congruence]).
    assert (Htx : tx (hs_hub s) = Some c) by (apply H3; exists k0; split; [done|congruence]).
    rewrite E3, drop_snoc by (by eapply H6). rewrite bool_decide_eq_true_2 by done. cbn.
    f_equal. apply (H4 c); [done|congruence].
  - intros c k Hk. destruct (Hm c k Hk) as (k0 & Hk0 & ->). destruct (Hsame c k0) as (_ & _ & E3).
    rewrite E3, drop_snoc by (by eapply H6). case_bool_decide as Htx.
    + apply H3 in Htx as (k1 & Hn & Ho). assert (k1 = k0) as -> by (destruct Hn; congruence).
      cbn. by rewrite (H4 c k0).
    + etrans; [by eapply H5|]. by eexists.
  - intros c k Hk. destruct (Hm c k Hk) as (k0 & Hk0 & ->). destruct (Hsame c k0) as (_ & _ & ->).
    rewrite length_app. specialize (H6 c k0 Hk0). lia.
Qed.

Lemma hub_inv_close s c k :
  hub_inv s -> conns s !! c = Some k -> opened k = true ->
  hub_inv (let (_, h) := hub_clear (gen k) (hs_hub s) in
           mkHubSys h (<[c := mkConn (gen k) (joined k) (got k) false]> (conns s)) (emitted s)).
Proof.
  intros [H0 H1 H2 H3 H4 H5 H6] Hc Ho. unfold hub_clear.
  set (m := <[c := _]> (conns s)).
  assert (Hm : forall c' k', m !! c' = Some k' ->
    (c' = c /\ k' = mkConn (gen k) (joined k) (got k) false) \/ (c' <> c /\ conns s !! c' = Some k')).
  { intros c' k'. unfold m. rewrite lookup_insert_Some. intros [[<- <-]|[? ?]]; [by left|by right]. }
  assert (Hinv : forall t, (forall c', t = Some c' <-> exists k', (m !! c' = Some k' /\ gen k' = hub_generation (hs_hub s)) /\ opened k' = true) ->
    hub_inv (mkHubSys (mkHub t (hub_generation (hs_hub s))) m (emitted s))).
  { intros t Ht. split; cbn [hs_hub conns emitted hub_generation tx]; try done.
    - intros c' k' [[-> ->]|[_ Hk]]%Hm; [exact (H1 c k Hc)|by eapply H1].
    - intros c1 c2 k1 k2 [[-> ->]|[? Hk1]]%Hm [[-> ->]|[? Hk2]]%Hm E; cbn in E; [done|..|by eapply H2].
      + exact (H2 c c2 k k2 Hc Hk2 E).
      + exact (H2 c1 c k1 k Hk1 Hc E).
    - intros c' k' [Hk' Hg] Ho'. apply Hm in Hk' as [[-> ->]|[? Hk']]; [done|]. apply (H4 c'); [done|done].
    - intros c' k' [[-> ->]|[_ Hk]]%Hm; [exact (H5 c k Hc)|by eapply H5].
    - intros c' k' [[-> ->]|[_ Hk]]%Hm; [exact (H6 c k Hc)|by eapply H6]. }
  destruct (Z.eqb_spec (hub_generation (hs_hub s)) (gen k)) as [Eg|Eg]; [apply Hinv|].
  - intros c'. split; [done|]. intros (k' & [Hk' Hg] & Ho'). apply Hm in Hk' as [[-> ->]|[Hne Hk']]; [done|].
    destruct Hne. eapply H2; [exact Hk'|exact Hc|congruence].
  - destruct (hs_hub s) as [t g] eqn:Eh. cbn in *. apply Hinv. intros c'. rewrite H3. unfold newest. rewrite Eh. cbn. split.
    + intros (k' & [Hk' Hg] & Ho'). exists k'. split; [split; [|done]|done]. unfold m.
      rewrite lookup_insert_ne; [done|]. intros <-. congruence.
    + intros (k' & [Hk' Hg] & Ho'). apply Hm in Hk' as [[-> ->]|[_ Hk']]; [done|]. by exists k'.
Qed.

Lemma hub_step_inv s s' : hub_inv s -> hub_step s s' -> hub_inv s'.
Proof.
  intros Hi Hs. destruct Hs; [by apply hub_inv_connect|by apply hub_inv_emit|by apply hub_inv_close].
Qed.

Lemma hub_inv_new : hub_inv hub_new.
Proof.
  split; cbn; try done.
  - intros c. split; [done|]. by intros (k & [Hk _] & _).
  - intros c k [Hk _]. done.
Qed.

(** However stream connections open and close while frames are emitted, the
    frames go to the connection that opened last, for as long as it is open: it
    has received every frame since it opened, in order. No connection receives a
    frame from before it opened, or misses one and receives a later one; and the
    end of an older connection never takes the subscriber away. *)
Theorem hub_serves_newest s :
  rtc hub_step hub_new s ->
  (forall c, tx (hs_hub s) = Some c <-> exists k, newest s c k /\ opened k = true) /\
  (forall c k, newest s c k -> opened k = true -> got k = drop (joined k) (emitted s)) /\
  (forall c k, conns s !! c = Some k -> got k `prefix_of` drop (joined k) (emitted s)).
Proof.
  intros Hs. assert (Hi : hub_inv s).
  { eapply rtc_invariant; [exact hub_step_inv|exact hub_inv_new|exact Hs]. }
  destruct Hi as [_ _ _ H3 H4 H5 _]. by split_and!.
Qed.
End hub.

(** * Schedules to evaluate *)

Section exec.
Context {P : Type} `{Vt100 P} {K : Type} `{Kernel K}.
Context (base64_decode : bytes -> option bytes) (sha256 : bytes -> bytes).

Inductive act :=
| ACall (n : nat) (p : CreateParams)
| AResolve (n : nat)
| AAttach (n : nat) (e : Env (K := K))
| AProbe (n : nat) (cold : option ColdRestore)
| ASpawn (n h : nat) (pid : option Z)
| ARegister (n : nat) (ok : bool)
| APublish (n : nat)
| AStop (h : nat)
| AClose (h : nat)
| AReap (h : nat)
| ARpc (e : Env (K := K)) (method : bytes) (params : Value).

Definition exec_act (x : srv (P := P)) (a : act) : option (srv (P := P)) :=
  match a with
  | ACall n p =>
      match callers x !! n with
      | None => Some (mkSrv (dm x) (<[n := mkCaller p Resolving]> (callers x)) (readers x))
      | Some _ => None
      end
  | AResolve n =>
      c ← callers x !! n;
      match c_pc c with
      | Resolving =>
          Some (let (a, d) := resolve_slot (c_id c) (dm x) in
                move n c (match a with Attach => Attaching | Spawn => Probing | WaitPending => Waiting end) d x)
      | _ => None
      end
  | AAttach n e =>
      c ← callers x !! n;
      match c_pc c with
      | Attaching => Some (let (d, r) := attach e (c_id c) (dm x) in move n c (Returned r) d x)
      | _ => None
      end
  | AProbe n cold =>
      c ← callers x !! n;
      match c_pc c with Probing => Some (move n c (Spawning cold) (dm x) x) | _ => None end
  | ASpawn n h pid =>
      c ← callers x !! n;
      match c_pc c, arcs (dm x) !! h with
      | Spawning cold, None =>
          Some (mkSrv (spawned h (spawned_arc (c_params c) cold pid) (dm x))
                  (<[n := mkCaller (c_params c) (Registering h cold)]> (callers x)) (<[h := Reading]> (readers x)))
      | _, _ => None
      end
  | ARegister n ok =>
      c ← callers x !! n;
      match c_pc c with
      | Registering h cold =>
          if ok && negb (bool_decide (registry (dm x) !! c_id c = None)) then None
          else Some (move n c (Publishing h cold ok) (register_history ok (c_id c) h (dm x)) x)
      | _ => None
      end
  | APublish n =>
      c ← callers x !! n;
      match c_pc c with
      | Publishing h cold ok =>
          Some (move n c (Returned (Ok (create_reply cold ok))) (publish (c_id c) h (dm x)) x)
      | _ => None
      end
  | AStop h =>
      match readers x !! h with
      | Some Reading =>
          Some (mkSrv (on_arc (on_session reader_stops) h (dm x)) (callers x) (<[h := Stopped]> (readers x)))
      | _ => None
      end
  | AClose h =>
      match readers x !! h, arc_of (dm x) h with
      | Some Stopped, Some a =>
          Some (mkSrv (close_history (Session.id (ses a)) (dm x)) (callers x) (<[h := Closed]> (readers x)))
      | _, _ => None
      end
  | AReap h =>
      match readers x !! h, arc_of (dm x) h with
      | Some Closed, Some a =>
          Some (mkSrv (reap (Session.id (ses a)) h (dm x)) (callers x) (<[h := Reaped]> (readers x)))
      | _, _ => None
      end
  | ARpc e m v => Some (mkSrv (handle_rpc e m v (dm x)).1 (callers x) (readers x))
  end.

Fixpoint exec_acts (x : srv (P := P)) (l : list act) : option (srv (P := P)) :=
  match l with
  | [] => Some x
  | a :: l => match exec_act x a with Some y => exec_acts y l | None => None end
  end.

Lemma exec_act_step x a y : exec_act x a = Some y -> srv_step (K := K) base64_decode sha256 x y.
Proof.
  destruct a; cbn [exec_act]; intros E.
  8: { destruct (readers x !! h) as [[]|] eqn:Eh; try done. injection E as <-. by apply st_life, st_stop. }
  8, 9: destruct (readers x !! h) as [[]|] eqn:Eh; try done; destruct (arc_of (dm x) h) as [a|] eqn:Ea; try done;
    injection E as <-; apply st_life; by econstructor.
  8: { injection E as <-. apply st_rpc. }
  1: { destruct (callers x !! n) eqn:En; [done|]. injection E as <-. by apply st_life, st_call. }
  all: destruct (callers x !! n) as [c|] eqn:En; [cbn in E|done];
    destruct (c_pc c) as [| | | |cold'|h' cold'|h' cold' ok'|] eqn:Ec; try done; try apply st_life.
  - injection E as <-. by apply st_resolve.
  - injection E as <-. by apply st_attach.
  - injection E as <-. by apply st_probe.
  - destruct (arcs (dm x) !! h) eqn:Ea; [done|]. injection E as <-. by apply st_spawned.
  - destruct (ok && _) eqn:Eo; [done|]. injection E as <-. apply st_register; [done|done|].
    intros ->. by case_bool_decide.
  - injection E as <-. by apply st_publish.
Qed.

Lemma exec_acts_rtc x l y : exec_acts x l = Some y -> rtc (srv_step (K := K) base64_decode sha256) x y.
Proof.
  revert x. induction l as [|a l IH]; cbn; intros x E; [by injection E as ->|].
  destruct (exec_act x a) as [z|] eqn:Ez; [|done]. eapply rtc_l; [by eapply exec_act_step|]. by apply IH.
Qed.
End exec.

Module ServerExamples.
Definition b64 : bytes -> option bytes := Some.
Definition sha (b : bytes) : bytes := b ++ replicate 32 0.
Definition env : Env (K := FakeKernel) := mkEnv ∅ false false true [].
Definition p : CreateParams := mkCreateParams (str "s") (str ".") 80 24 None [].
Definition x0 : srv (P := RecordingVt.t) := srv_new (str "t").

(** Caller [n] creates session [h]. *)
Definition creates (n h : nat) (ok : bool) : list (act (K := FakeKernel)) :=
  [ACall n p; AResolve n; AProbe n None; ASpawn n h (Some 7); ARegister n ok; APublish n].
Definition kill_rpc : act (K := FakeKernel) :=
  ARpc env (str "kill") (object [(str "sessionId", Str (str "s"))]).

(** What is seen of a state: the slot, the life of a session, and which session
    the checkpointer has. *)
Definition seen (h : nat) (x : option (srv (P := RecordingVt.t))) :
    option (option SessionSlot * option (bytes * bool) * option nat) :=
  (fun x => (sessions (dm x) !! str "s", life_of x h, registry (dm x) !! str "s")) <$> x.
Definition result_of (n : nat) (x : option (srv (P := RecordingVt.t))) : option create_pc :=
  x ≫= (fun x => c_pc <$> callers x !! n).

Lemma one_live_session_per_id_witness :
  exists x, exec_acts x0 (creates 0 0 true ++ [ACall 1 p; AResolve 1; AAttach 1 env]) = Some x /\
    sessions (dm x) !! str "s" = Some (Live 0) /\
    (forall h, life_of x h = Some (str "s", true) -> h = 0%nat).
Proof.
  destruct (exec_acts x0 (creates 0 0 true ++ [ACall 1 p; AResolve 1; AAttach 1 env])) as [x|] eqn:E;
    [|vm_compute in E; discriminate].
  exists x. split; [reflexivity|].
  assert (Hs : seen 0 (Some x) = Some (Some (Live 0), Some (str "s", true), Some 0%nat))
    by (rewrite <- E; vm_compute; reflexivity).
  injection Hs as Hs Hl _. split; [exact Hs|]. intros h Hh.
  exact (proj1 (one_live_session_per_id b64 sha (str "t") x
    (exec_acts_rtc b64 sha x0 _ x E)) (str "s") h 0%nat Hh Hl).
Defined.

Definition hub1 : hub_sys :=
  mkHubSys (mkHub (Some 1%nat) 2) (<[1%nat := mkConn 2 0 [] true]> {[0%nat := mkConn 1 0 [] true]}) [].

(** The newer stream keeps receiving after the older one ends. *)
Lemma hub_serves_newest_witness :
  exists s, rtc hub_step hub_new s /\ tx (hs_hub s) = Some 1%nat /\
    (fun k => (got k, opened k)) <$> conns s !! 1%nat = Some ([[7]], true).
Proof.
  assert (H1 : rtc hub_step hub_new hub1).
  { eapply rtc_l; [apply (hs_connect hub_new 0%nat); [reflexivity|vm_compute; reflexivity]|].
    eapply rtc_l; [apply (hs_connect _ 1%nat); [reflexivity|vm_compute; reflexivity]|].
    match goal with |- rtc _ ?a ?b => replace a with b by reflexivity end. apply rtc_refl. }
  pose proof (hs_close hub1 0%nat (mkConn 1 0 [] true) eq_refl eq_refl) as H2.
  set (s2 := mkHubSys (mkHub (Some 1%nat) 2)
    (<[0%nat := mkConn 1 0 [] false]> (conns hub1)) []).
  change (hub_step hub1 s2) in H2.
  pose proof (hs_emit s2 [7]) as H3.
  eexists. assert (Hr : rtc hub_step hub_new _) by
    (eapply rtc_r; [eapply rtc_r; [exact H1|exact H2]|exact H3]).
  split; [exact Hr|]. split; [|vm_compute; reflexivity].
  apply (proj1 (hub_serves_newest _ Hr)). eexists. split; [split|]; vm_compute; reflexivity.
Defined.

(** The kill closes the history of the id at once. When the dead session's reader
    closes it again it closes that of the successor, which has taken the id over
    between the end of the output and that call: the new session is alive and in
    the map, but the checkpointer no longer has it. *)
Example late_close_hits_the_successor :
  seen 1 (exec_acts x0 (creates 0 0 true ++ [kill_rpc; AStop 0] ++ creates 1 1 true ++ [AClose 0; AReap 0])) =
    Some (Some (Live 1), Some (str "s", true), None).
Proof. vm_compute. reflexivity. Qed.

(** Without a kill the dead session is still registered when the successor asks,
    so the successor is refused, and lives without a history. *)
Example successor_without_history :
  exec_acts x0 (creates 0 0 true ++ [AStop 0] ++ creates 1 1 true) = None /\
  seen 1 (exec_acts x0 (creates 0 0 true ++ [AStop 0] ++ creates 1 1 false ++ [AClose 0; AReap 0])) =
    Some (Some (Live 1), Some (str "s", true), None).
Proof. split; vm_compute; reflexivity. Qed.

(** Between the decision to attach and the look-up the session is reaped: the
    call that would create or attach does neither. *)
Example attach_loses_the_session :
  result_of 1 (exec_acts x0 (creates 0 0 true ++
    [ACall 1 p; AResolve 1; AStop 0; AClose 0; AReap 0; AAttach 1 env])) =
    Some (Returned (Err session_not_found)).
Proof. vm_compute. reflexivity. Qed.

(** A child that ends before its session is published is reaped too early: the
    entry of the dead session stays, and so does its history. *)
Example early_exit_stays_listed :
  seen 0 (exec_acts x0 ([ACall 0 p; AResolve 0; AProbe 0 None; ASpawn 0 0 (Some 7);
    AStop 0; AClose 0; AReap 0; ARegister 0 true; APublish 0])) =
    Some (Some (Live 0), Some (str "s", false), Some 0%nat).
Proof. vm_compute. reflexivity. Qed.
End ServerExamples.
