(* ===== verification/Process.v ===== *)
(** The daemon's process: the accept loop and the task of every connection
    (grove-daemon/src/server.rs: serve, handle_connection, run_control,
    run_stream, run_agent) as a machine of steps over the state of [Server], and
    the entry point (grove-daemon/src/main.rs). What a socket gives and whether a
    write succeeds is part of a step. *)

From S2P Require Import Prelude Utf8 Text ModeState Emulator History Agent Session Json Protocol Server.

#[local] Open Scope rust_scope.

(** * Tasks *)

(** Where the task of a connection is between two awaits. *)
Inductive task :=
| Hello (peer : option Z)
| InControl
| Answering (r : RpcReply)
| Awaiting (id : Z) (n : nat)        (* createOrAttach runs as call [n] *)
| Leaving                            (* the loop has ended *)
| Flushed                            (* and the sessions were flushed *)
| Streaming (generation : Z)
| AgentLoop (peer : option Z) (key : bytes)
| AgentAnswering (peer : option Z) (key : bytes) (r : RpcReply)
| Gone.

(** The accept loop: before the flag is read, after it, waiting for a connection
    or the notification, which wakes whoever waits, and ended. *)
Inductive serve_pc := Top | Checked | Selecting (woken : bool) | Stopped.

(** The task of SIGTERM and SIGINT. *)
Inductive signal_pc := NoSignal | Flushing | Triggered.

Definition is_control (t : task) : bool :=
  match t with InControl | Answering _ | Awaiting _ _ | Leaving | Flushed => true | _ => false end.

Section process.
Context {P : Type} `{Vt100 P} {K : Type} `{Kernel K} `{JsonText}.
Context (base64_decode : bytes -> option bytes) (sha256 : bytes -> bytes).
Implicit Types (d : Daemon (P := P)).

(** The first line of a connection: [read] is [None] at the deadline, the end of
    the stream or an error; [sent] says whether the acknowledgement was written. *)
Definition hello_done d (c : nat) (peer : option Z) (read : option bytes) (sent : bool) : Daemon (P := P) * task :=
  match read with
  | None => (d, Gone)
  | Some line =>
      match decode_ndjson_line hello_of line with
      | Err _ => (d, Gone)
      | Ok h =>
          match admit_hello d h with
          | Rejected _ => (d, Gone)
          | Welcomed kind =>
              if negb sent then (d, Gone)
              else
                match kind with
                | Protocol.Control => (control_opened d, InControl)
                | Protocol.Stream => let (g, h) := hub_set c (hub d) in (set_hub d h, Streaming g)
                | Protocol.Agent => (d, AgentLoop peer (h_token h))
                end
          end
      end
  end.

(** A request for a shutdown notifies whoever waits for it, once. *)
Definition asks_shutdown (line : bytes) : bool :=
  match decode_ndjson_line control_of line with
  | Ok (MRequest r) => bytes_eqb (rq_method r) (str "shutdown")
  | _ => false
  end.

Record proc := mkProc {
  core : srv (P := P);
  tasks : gmap nat task;
  next : nat;               (* connections accepted so far *)
  serving : serve_pc;
  notices : nat;            (* shutdowns triggered whose notification is due *)
  signalled : signal_pc
}.

Definition proc_new (token : bytes) : proc := mkProc (srv_new token) ∅ 0 Top 0 NoSignal.

(** A task moves, and the daemon changes under it. *)
Definition moves (x : proc) (c : nat) (t : task) d : proc :=
  mkProc (mkSrv d (callers (core x)) (readers (core x))) (<[c := t]> (tasks x)) (next x) (serving x)
    (notices x) (signalled x).
Definition serves (x : proc) (pc : serve_pc) : proc :=
  mkProc (core x) (tasks x) (next x) pc (notices x) (signalled x).
Definition notify_waiters (x : proc) : proc :=
  match notices x with
  | O => x
  | S n =>
      mkProc (core x) (tasks x) (next x)
        (match serving x with Selecting _ => Selecting true | pc => pc end) n (signalled x)
  end.
Definition due (x : proc) (k : bool) : proc :=
  mkProc (core x) (tasks x) (next x) (serving x) (if k then S (notices x) else notices x) (signalled x).

(** What a line makes of a control task; a call of createOrAttach is the new
    caller [n]. *)
Definition control_read (e : Env (K := K)) (x : proc) (c n : nat) (line : bytes) : proc :=
  let (d, next_) := control_line base64_decode e line (dm (core x)) in
  match next_ with
  | Nothing => moves x c InControl d
  | SendReply r => due (moves x c (Answering r) d) (asks_shutdown line)
  | AwaitCreate id p =>
      mkProc (mkSrv d (<[n := mkCaller p Resolving]> (callers (core x))) (readers (core x)))
        (<[c := Awaiting id n]> (tasks x)) (next x) (serving x) (notices x) (signalled x)
  end.
Definition agent_read (e : Env (K := K)) (x : proc) (c : nat) (peer : option Z) (key line : bytes) : proc :=
  let (d, r) := agent_line sha256 e peer key line (dm (core x)) in
  moves x c (match r with Some r => AgentAnswering peer key r | None => AgentLoop peer key end) d.

Inductive proc_step : proc -> proc -> Prop :=
(* calls and readers *)
| p_life x y :
    life_step (K := K) (core x) y ->
    proc_step x (mkProc y (tasks x) (next x) (serving x) (notices x) (signalled x))
(* the accept loop *)
| p_check x :
    serving x = Top ->
    proc_step x (serves x (if shutdown_flag (dm (core x)) then Stopped else Checked))
| p_select x : serving x = Checked -> proc_step x (serves x (Selecting false))
| p_accept x w peer :
    serving x = Selecting w ->
    proc_step x
      (mkProc (core x) (<[next x := Hello peer]> (tasks x)) (S (next x)) Top (notices x) (signalled x))
| p_accept_failed x w : serving x = Selecting w -> proc_step x (serves x Stopped)
| p_woken x : serving x = Selecting true -> proc_step x (serves x Stopped)
| p_notify x : proc_step x (notify_waiters x)
(* connections *)
| p_hello x c peer read sent :
    tasks x !! c = Some (Hello peer) ->
    proc_step x (let (d, t) := hello_done (dm (core x)) c peer read sent in moves x c t d)
| p_control_line x c n e line :
    tasks x !! c = Some InControl -> callers (core x) !! n = None ->
    proc_step x (control_read e x c n line)
| p_created x c id n k r :
    tasks x !! c = Some (Awaiting id n) -> callers (core x) !! n = Some k -> c_pc k = Returned r ->
    proc_step x (moves x c (Answering (reply_of_result id r)) (dm (core x)))
| p_answered x c r (sent : bool) :
    tasks x !! c = Some (Answering r) ->
    proc_step x (moves x c (if sent then InControl else Leaving) (dm (core x)))
| p_control_end x c : tasks x !! c = Some InControl -> proc_step x (moves x c Leaving (dm (core x)))
| p_left x c : tasks x !! c = Some Leaving -> proc_step x (moves x c Flushed (control_left (dm (core x))))
| p_closed x c : tasks x !! c = Some Flushed -> proc_step x (moves x c Gone (control_closed (dm (core x))))
| p_stream_end x c g : tasks x !! c = Some (Streaming g) -> proc_step x (moves x c Gone (stream_closed g (dm (core x))))
| p_agent_line x c e peer key line :
    tasks x !! c = Some (AgentLoop peer key) -> proc_step x (agent_read e x c peer key line)
| p_agent_answered x c peer key r (sent : bool) :
    tasks x !! c = Some (AgentAnswering peer key r) ->
    proc_step x (moves x c (if sent then AgentLoop peer key else Gone) (dm (core x)))
| p_agent_end x c peer key :
    tasks x !! c = Some (AgentLoop peer key) -> proc_step x (moves x c Gone (dm (core x)))
(* a signal *)
| p_signal x :
    signalled x = NoSignal ->
    proc_step x
      (mkProc (mkSrv (ck_flush_all (dm (core x))) (callers (core x)) (readers (core x))) (tasks x) (next x)
         (serving x) (notices x) Flushing)
| p_trigger x :
    signalled x = Flushing ->
    proc_step x
      (mkProc (mkSrv (trigger_shutdown (dm (core x))) (callers (core x)) (readers (core x))) (tasks x) (next x)
         (serving x) (S (notices x)) Triggered).
End process.

(** * The process refines the server *)

Section refinement.
Context {P : Type} `{Vt100 P} {K : Type} `{Kernel K} `{JsonText}.
Context (base64_decode : bytes -> option bytes) (sha256 : bytes -> bytes).
Implicit Types (d : Daemon (P := P)) (x y : proc (P := P)) (s : srv (P := P)).

#[local] Abbreviation srv_steps := (rtc (srv_step (K := K) base64_decode sha256)).
#[local] Abbreviation step := (proc_step (K := K) base64_decode sha256).
(** Only the daemon of a state changes. *)
#[local] Abbreviation with_dm s d := (mkSrv d (callers s) (readers s)).

Lemma with_dm_same s : with_dm s (dm s) = s.
Proof. by destruct s. Qed.
Lemma stays s : srv_steps s (with_dm s (dm s)).
Proof. by rewrite with_dm_same. Qed.

Lemma hello_refines s c peer read sent : srv_steps s (with_dm s (hello_done (dm s) c peer read sent).1).
Proof.
  unfold hello_done. destruct read as [line|]; [|apply stays].
  destruct (decode_ndjson_line hello_of line) as [h|]; [|apply stays].
  destruct (admit_hello (dm s) h) as [|kind]; [apply stays|]. destruct sent; [|apply stays]. cbn [negb].
  destruct kind; [apply rtc_once, st_control_opened| |apply stays].
  pose proof (st_stream_opened (K := K) base64_decode sha256 s c) as Hs.
  destruct (hub_set c (hub (dm s))) as [g h']. by apply rtc_once.
Qed.

Lemma control_line_refines e line s :
  srv_steps s (with_dm s (control_line base64_decode e line (dm s)).1).
Proof.
  unfold control_line. destruct (decode_ndjson_line control_of line) as [[| |r|n|]|]; try apply stays.
  - unfold dispatch_rpc. destruct (bytes_eqb (rq_method r) (str "createOrAttach")).
    + destruct (create_params (rq_params r)); apply stays.
    + pose proof (st_rpc (K := K) base64_decode sha256 s e (rq_method r) (rq_params r)) as Hs.
      destruct (handle_rpc e (rq_method r) (rq_params r) (dm s)). by apply rtc_once.
  - apply rtc_once, st_notify.
Qed.

Lemma control_read_refines e x c n line :
  callers (core x) !! n = None -> srv_steps (core x) (core (control_read base64_decode e x c n line)).
Proof.
  intros Hn. unfold control_read. pose proof (control_line_refines e line (core x)) as Hs.
  destruct (control_line base64_decode e line (dm (core x))) as [d [|r|id p]]; cbn in *; [done|done|].
  eapply rtc_r; [exact Hs|]. by apply (st_life _ _ _ _ (st_call (with_dm (core x) d) n p Hn)).
Qed.

Lemma agent_read_refines e x c peer key line :
  srv_steps (core x) (core (agent_read sha256 e x c peer key line)).
Proof.
  unfold agent_read, agent_line. destruct (decode_ndjson_line control_of line) as [[| |r| |]|]; try apply stays.
  pose proof (st_agent (K := K) base64_decode sha256 (core x) e peer key (rq_method r) (rq_params r)) as Hs.
  destruct (dispatch_agent_rpc sha256 e peer key (rq_method r) (rq_params r) (dm (core x))). by apply rtc_once.
Qed.

Lemma step_refines x y : step x y -> srv_steps (core x) (core y).
Proof.
  destruct 1; try apply stays; try done.
  - by apply rtc_once, st_life.
  - unfold notify_waiters. by destruct (notices x).
  - pose proof (hello_refines (core x) c peer read sent) as Hs.
    destruct (hello_done (dm (core x)) c peer read sent). exact Hs.
  - by apply control_read_refines.
  - apply rtc_once, st_control_left.
  - apply rtc_once, st_control_closed.
  - apply rtc_once, st_stream_closed.
  - apply agent_read_refines.
  - apply rtc_once, st_flush.
  - apply rtc_once, st_shutdown.
Qed.

End refinement.

(** * What a step leaves of the counters *)

Section channel.
Context {P : Type} `{Vt100 P} {K : Type} `{Kernel K} `{JsonText}.
Context (base64_decode : bytes -> option bytes) (sha256 : bytes -> bytes).
Implicit Types (d : Daemon (P := P)) (x y : proc (P := P)) (s : srv (P := P)).

Definition channel d : Z * bool * list CheckpointerCall := (connected_controls d, shutdown_flag d, calls d).

Lemma channel_on_all f d : channel (on_all f d) = channel d.
Proof.
  unfold on_all. generalize (live_arcs d) as hs. intros hs. revert d.
  induction hs as [|h hs IH]; intros d; [done|]. cbn. by rewrite IH.
Qed.
Lemma channel_poll (e : Env (K := K)) hs d : channel (poll_arcs e hs d).1 = channel d.
Proof.
  revert d. induction hs as [|h hs IH]; intros d; [done|]. cbn. destruct (arc_of d h) as [a|]; [|apply IH].
  cbn. specialize (IH (on_arc (on_session (fun _ => (take_bell (ses a)).2)) h d)).
  cbn in IH. by destruct (poll_arcs _ hs _).
Qed.
Lemma channel_notify (e : Env (K := K)) m v d : channel (dispatch_notify base64_decode e m v d) = channel d.
Proof. unfold dispatch_notify. by repeat case_match. Qed.
Lemma channel_agent (e : Env (K := K)) peer key m v d :
  channel (dispatch_agent_rpc sha256 e peer key m v d).1 = channel d.
Proof. unfold dispatch_agent_rpc, agent_claim, agent_event. by repeat case_match. Qed.
Lemma channel_stream_closed g d : channel (stream_closed g d) = channel d.
Proof. unfold stream_closed. destruct (hub_clear g (hub d)) as [[] h]; [|done]. apply (channel_on_all _ (set_hub d h)). Qed.
Lemma channel_with_session v d k :
  (forall h a, channel (k h a).1 = channel d) -> channel (with_session v d k).1 = channel d.
Proof. intros Hk. unfold with_session. by repeat case_match. Qed.

Lemma channel_resolve id d : channel (resolve_slot id d).2 = channel d.
Proof. unfold resolve_slot. destruct (sessions d !! id) as [[|h]|]; [done| |done]. by destruct (is_live d h). Qed.
Lemma channel_attach (e : Env (K := K)) id d : channel (attach e id d).1 = channel d.
Proof.
  unfold attach. destruct (find_session d id) as [[h a]|]; [|done]. by destruct (warm_snapshot_json e (ses a)).
Qed.
Lemma channel_life s s' : life_step (K := K) s s' -> channel (dm s') = channel (dm s).
Proof.
  destruct 1; try done.
  - pose proof (channel_resolve (c_id c) (dm x)) as Hr. by destruct (resolve_slot (c_id c) (dm x)).
  - pose proof (channel_attach e (c_id c) (dm x)) as Ha. by destruct (attach e (c_id c) (dm x)).
  - unfold register_history. by case_match.
  - unfold reap. by repeat case_match.
Qed.

(** All requests but two leave the counters alone. *)
Lemma channel_rpc (e : Env (K := K)) m v d :
  m <> str "checkpointAll" -> m <> str "shutdown" -> channel (handle_rpc e m v d).1 = channel d.
Proof.
  intros Hc Hs. unfold handle_rpc.
  destruct (bytes_eqb m (str "kill")); [by repeat case_match|].
  repeat (match goal with |- context [bytes_eqb m ?s] => destruct (bytes_eqbP m s) end; try done).
  all: try (apply channel_with_session; intros h a; by repeat case_match).
  unfold rpc_poll_bells. pose proof (channel_poll e (live_arcs d) d) as Hp. by destruct (poll_arcs e _ d).
Qed.
End channel.

(** * Invariants of the process *)

Definition controls (m : gmap nat task) : nat := size (filter (fun e => is_control e.2 = true) m).
Definition one (t : task) : nat := if is_control t then 1 else 0.

Lemma controls_fresh m c t : m !! c = None -> controls (<[c := t]> m) = (controls m + one t)%nat.
Proof.
  intros Hc. unfold controls, one. rewrite map_filter_insert. cbn.
  assert (Hf : filter (fun e : nat * task => is_control e.2 = true) m !! c = None)
    by (apply map_lookup_filter_None_2; by left).
  case_decide as Ht; cbn in Ht.
  - rewrite Ht, map_size_insert_None by done. lia.
  - destruct (is_control t); [done|]. rewrite delete_id by done. lia.
Qed.
Lemma controls_insert m c t t' :
  m !! c = Some t -> (controls (<[c := t']> m) + one t = controls m + one t')%nat.
Proof.
  intros Hc. rewrite <- (insert_delete_id m c t Hc) at 2. rewrite <- insert_delete_eq.
  rewrite !controls_fresh by apply lookup_delete_eq. lia.
Qed.

Section invariants.
Context {P : Type} `{Vt100 P} {K : Type} `{Kernel K} `{JsonText}.
Context (base64_decode : bytes -> option bytes) (sha256 : bytes -> bytes).
Implicit Types (d : Daemon (P := P)) (x y : proc (P := P)) (s : srv (P := P)).

#[local] Abbreviation step := (proc_step (K := K) base64_decode sha256).
#[local] Abbreviation daemon x := (dm (core x)).

Lemma rpc_channel (e : Env (K := K)) m v d :
  let d' := (handle_rpc e m v d).1 in
  channel d' = channel d \/
  channel d' = (connected_controls d, shutdown_flag d, calls d ++ [FlushAll]) \/
  m = str "shutdown" /\ channel d' = (connected_controls d, true, calls d ++ [ShutdownAll]).
Proof.
  cbn zeta. destruct (bytes_eqbP m (str "checkpointAll")) as [->|Hc]; [right; left; reflexivity|].
  destruct (bytes_eqbP m (str "shutdown")) as [->|Hs]; [right; right|left; by apply channel_rpc].
  split; [done|]. set (k := default false (get "killSessions" v ≫= as_bool)).
  change (channel (trigger_shutdown (if k then kill_all_sessions (ck_shutdown_all d) else ck_shutdown_all d)) =
    (connected_controls d, true, calls d ++ [ShutdownAll])).
  destruct k; [|reflexivity]. pose proof (channel_on_all (on_session kill) (ck_shutdown_all d)) as Hk.
  change (kill_all_sessions (ck_shutdown_all d)) with (on_all (on_session kill) (ck_shutdown_all d)).
  injection Hk as H1' _ H3'. unfold channel. cbn [connected_controls shutdown_flag calls trigger_shutdown].
  rewrite H1', H3'. reflexivity.
Qed.

Lemma control_line_channel (e : Env (K := K)) line d :
  let d' := (control_line base64_decode e line d).1 in
  channel d' = channel d \/
  channel d' = (connected_controls d, shutdown_flag d, calls d ++ [FlushAll]) \/
  asks_shutdown line = true /\ channel d' = (connected_controls d, true, calls d ++ [ShutdownAll]).
Proof.
  unfold control_line, asks_shutdown.
  destruct (decode_ndjson_line control_of line) as [[| |r|n|]|]; try (left; reflexivity).
  - unfold dispatch_rpc. destruct (bytes_eqb (rq_method r) (str "createOrAttach")).
    + left. by destruct (create_params (rq_params r)).
    + pose proof (rpc_channel e (rq_method r) (rq_params r) d) as Hr.
      destruct (handle_rpc e (rq_method r) (rq_params r) d) as [d' v]. cbn in *.
      destruct Hr as [Hr|[Hr|[Hm Hr]]]; [by left|by right; left|right; right]. by rewrite Hm.
  - left. apply channel_notify.
Qed.

Lemma control_read_channel (e : Env (K := K)) x c n line :
  let d' := daemon (control_read base64_decode e x c n line) in
  channel d' = channel (daemon x) \/
  channel d' = (connected_controls (daemon x), shutdown_flag (daemon x), calls (daemon x) ++ [FlushAll]) \/
  asks_shutdown line = true /\
  channel d' = (connected_controls (daemon x), true, calls (daemon x) ++ [ShutdownAll]).
Proof.
  unfold control_read. pose proof (control_line_channel e line (daemon x)) as Hl.
  by destruct (control_line base64_decode e line (daemon x)) as [d' [| |]].
Qed.
Lemma agent_read_channel (e : Env (K := K)) x c peer key line :
  channel (daemon (agent_read sha256 e x c peer key line)) = channel (daemon x).
Proof.
  unfold agent_read, agent_line. destruct (decode_ndjson_line control_of line) as [[| |r| |]|]; try done.
  pose proof (channel_agent sha256 e peer key (rq_method r) (rq_params r) (daemon x)) as Ha.
  by destruct (dispatch_agent_rpc sha256 e peer key (rq_method r) (rq_params r) (daemon x)).
Qed.

(** ** The count of control connections *)

Record proc_inv x : Prop := {
  pi_gauge : connected_controls (daemon x) = wrap 64 (Z.of_nat (controls (tasks x)));
  pi_fresh : forall c, (next x <= c)%nat -> tasks x !! c = None
}.

Lemma proc_inv_move x c t t' d :
  proc_inv x -> tasks x !! c = Some t ->
  connected_controls d = wrap 64 (connected_controls (daemon x) + Z.of_nat (one t') - Z.of_nat (one t)) ->
  proc_inv (moves x c t' d).
Proof.
  intros [Hg Hf] Hc Hd. split; cbn.
  - rewrite Hd, Hg. pose proof (controls_insert (tasks x) c t t' Hc) as Hi. unfold wrap.
    rewrite <- Z.add_sub_assoc, Zplus_mod_idemp_l. f_equal. lia.
  - intros c' Hn. rewrite lookup_insert_ne; [by apply Hf|]. intros <-. by rewrite Hf in Hc.
Qed.

(** The usual case: neither the count nor the kind of the task changes. *)
Lemma proc_inv_stay x c t t' d :
  proc_inv x -> tasks x !! c = Some t -> is_control t' = is_control t ->
  connected_controls d = connected_controls (daemon x) -> proc_inv (moves x c t' d).
Proof.
  intros Hx Hc Ht Hd. eapply proc_inv_move; [done|done|]. unfold one. rewrite Ht, Hd.
  rewrite Z.add_simpl_r, (pi_gauge _ Hx). unfold wrap. by rewrite Z.mod_mod.
Qed.

Lemma proc_inv_core x y :
  proc_inv x -> connected_controls (daemon y) = connected_controls (daemon x) ->
  tasks y = tasks x -> next y = next x -> proc_inv y.
Proof. intros [Hg Hf] Hs Ht Hn. split; [by rewrite Hs, Ht|by rewrite Ht, Hn]. Qed.

Lemma channel_controls d d' : channel d' = channel d -> connected_controls d' = connected_controls d.
Proof. by intros [= ? _ _]. Qed.

Lemma proc_inv_hello x c peer read sent :
  proc_inv x -> tasks x !! c = Some (Hello peer) ->
  proc_inv (let (d, t) := hello_done (daemon x) c peer read sent in moves x c t d).
Proof.
  intros Hx Hc. assert (Hstay : forall t, is_control t = false -> proc_inv (moves x c t (daemon x)))
    by (intros t Ht; by eapply proc_inv_stay).
  unfold hello_done. destruct read as [line|]; [|by apply Hstay].
  destruct (decode_ndjson_line hello_of line) as [h|]; [|by apply Hstay].
  destruct (admit_hello (daemon x) h) as [|kind]; [by apply Hstay|]. destruct sent; [|by apply Hstay]. cbn [negb].
  destruct kind; [| |by apply Hstay].
  - eapply proc_inv_move; [done|done|]. cbn. f_equal. lia.
  - destruct (hub_set c (hub (daemon x))) as [g h']. by eapply proc_inv_stay.
Qed.

Lemma proc_inv_control_read (e : Env (K := K)) x c n line :
  proc_inv x -> tasks x !! c = Some InControl -> proc_inv (control_read base64_decode e x c n line).
Proof.
  intros Hx Hc. unfold control_read.
  assert (Hd : connected_controls (control_line base64_decode e line (daemon x)).1 = connected_controls (daemon x)).
  { pose proof (control_line_channel e line (daemon x)) as Hl. cbn zeta in Hl. unfold channel in Hl.
    by destruct Hl as [[= ? _ _]|[[= ? _ _]|[_ [= ? _ _]]]]. }
  destruct (control_line base64_decode e line (daemon x)) as [d [|r|id p]]; cbn [fst] in Hd.
  - by eapply proc_inv_stay.
  - assert (Hy : proc_inv (moves x c (Answering r) d)) by (by eapply proc_inv_stay). by destruct Hy.
  - assert (Hy : proc_inv (moves x c (Awaiting id n) d)) by (by eapply proc_inv_stay). by destruct Hy.
Qed.

Lemma proc_inv_step x y : proc_inv x -> step x y -> proc_inv y.
Proof.
  intros Hx Hs. destruct Hs as [x s Hl|x Hpc|x Hpc|x w peer Hpc|x w Hpc|x Hpc|x|x c peer read sent Hc
    |x c n e line Hc Hn|x c id n k r Hc Hk Hr|x c r sent Hc|x c Hc|x c Hc|x c Hc|x c g Hc|x c e peer key line Hc
    |x c peer key r sent Hc|x c peer key Hc|x Hg|x Hg].
  - eapply proc_inv_core; [done| |done|done]. by eapply channel_controls, channel_life.
  - by destruct Hx.
  - by destruct Hx.
  - destruct Hx as [Hg Hf]. split; cbn.
    + rewrite controls_fresh by (apply Hf; lia). cbn. by rewrite Nat.add_0_r.
    + intros c Hc. rewrite lookup_insert_ne by lia. apply Hf. lia.
  - by destruct Hx.
  - by destruct Hx.
  - unfold notify_waiters. destruct (notices x); [done|]. by destruct Hx.
  - by apply proc_inv_hello.
  - by apply proc_inv_control_read.
  - by eapply proc_inv_stay.
  - eapply proc_inv_stay; [done|done|by destruct sent|done].
  - by eapply proc_inv_stay.
  - eapply proc_inv_stay; [done|done|done|]. unfold control_left. by case_match.
  - eapply proc_inv_move; [done|done|]. cbn. f_equal. lia.
  - eapply proc_inv_stay; [done|done|done|]. apply channel_controls, channel_stream_closed.
  - pose proof (agent_read_channel e x c peer key line) as Ha%channel_controls. unfold agent_read in *.
    destruct (agent_line sha256 e peer key line (daemon x)) as [d r]. eapply proc_inv_stay; [done|done|by destruct r|done].
  - eapply proc_inv_stay; [done|done|by destruct sent|done].
  - by eapply proc_inv_stay.
  - by eapply proc_inv_core.
  - by eapply proc_inv_core.
Qed.

(** C12: the number of connected apps that [getDaemonInfo] answers, on which the
    collection of orphaned terminals depends, is exact: in every state the process
    can reach it is the number of control connections that were admitted and have
    not been torn down, however connections and calls interleave, and whatever
    ended them. *)
Theorem connected_clients_is_exact token x (e : Env (K := K)) params :
  rtc step (proc_new token) x -> Z.of_nat (controls (tasks x)) < 2 ^ 64 ->
  exists reply, (handle_rpc e (str "getDaemonInfo") params (daemon x)) = (daemon x, Ok reply) /\
    get "connectedClients" reply = Some (Int (Z.of_nat (controls (tasks x)))).
Proof.
  intros Hx Hb. assert (HI : proc_inv x).
  { eapply rtc_invariant; [exact proc_inv_step| |exact Hx]. by split. }
  eexists. split; [reflexivity|]. rewrite (pi_gauge _ HI). unfold wrap. rewrite Z.mod_small by lia. reflexivity.
Qed.

(** ** Shutdown *)

Lemma control_read_serving (e : Env (K := K)) x c n line :
  next (control_read base64_decode e x c n line) = next x /\
  serving (control_read base64_decode e x c n line) = serving x.
Proof. unfold control_read. by destruct (control_line base64_decode e line (daemon x)) as [d [| |]]. Qed.

Lemma step_flag x y : step x y -> shutdown_flag (daemon x) = true -> shutdown_flag (daemon y) = true.
Proof.
  intros Hs Hf. destruct Hs; try done; cbn.
  - match goal with Hl : life_step _ _ |- _ => apply channel_life in Hl end. unfold channel in *. congruence.
  - unfold notify_waiters. by destruct (notices x).
  - unfold hello_done. destruct read as [line|]; [|done]. destruct (decode_ndjson_line hello_of line) as [h|]; [|done].
    destruct (admit_hello (daemon x) h) as [|[]]; by destruct sent.
  - pose proof (control_read_channel e x c n line) as Hl. cbn zeta in Hl. unfold channel in Hl.
    destruct Hl as [[= _ Hl _]|[[= _ Hl _]|[_ [= _ Hl _]]]]; congruence.
  - unfold control_left. by rewrite Hf.
  - pose proof (channel_stream_closed g (daemon x)) as Hl. unfold channel in Hl. congruence.
  - pose proof (agent_read_channel e x c peer key line) as Hl. unfold channel in Hl. congruence.
Qed.

(** How many connections the loop may still accept once the flag is set. *)
Definition may_accept (pc : serve_pc) : nat := match pc with Checked | Selecting _ => 1 | _ => 0 end.

Lemma step_accepts x y :
  step x y -> shutdown_flag (daemon x) = true ->
  (next y + may_accept (serving y) <= next x + may_accept (serving x))%nat.
Proof.
  intros Hs Hf. destruct Hs as [x s Hl|x Hpc|x Hpc|x w peer Hpc|x w Hpc|x Hpc|x|x c peer read sent Hc
    |x c n e line Hc Hn|x c id n k r Hc Hk Hr|x c r sent Hc|x c Hc|x c Hc|x c Hc|x c g Hc|x c e peer key line Hc
    |x c peer key r sent Hc|x c peer key Hc|x Hg|x Hg]; cbn; try (rewrite ?Hpc, ?Hf; cbn; lia).
  - unfold notify_waiters. destruct (notices x); [done|]. cbn. by destruct (serving x).
  - by destruct (hello_done (daemon x) c peer read sent).
  - destruct (control_read_serving e x c n line) as [-> ->]. done.
  - unfold agent_read. by destruct (agent_line sha256 e peer key line (daemon x)).
Qed.

(** The steps of the accept loop that need no new connection. *)
Inductive winds_down : proc (P := P) -> proc (P := P) -> Prop :=
| wd_check x : serving x = Top -> winds_down x (serves x (if shutdown_flag (daemon x) then Stopped else Checked))
| wd_select x : serving x = Checked -> winds_down x (serves x (Selecting false))
| wd_notify x : winds_down x (notify_waiters x)
| wd_woken x : serving x = Selecting true -> winds_down x (serves x Stopped).

Lemma winds_down_step x y : winds_down x y -> step x y.
Proof. destruct 1; by constructor. Qed.

(** It stops by itself unless it waits for a connection and no notification is
    due any more. *)
Definition hears x : Prop :=
  match serving x with
  | Top | Stopped | Selecting true => True
  | Checked | Selecting false => (0 < notices x)%nat
  end.

Lemma selecting_stops x :
  serving x = Selecting true \/ (exists w, serving x = Selecting w) /\ (0 < notices x)%nat ->
  exists y, rtc winds_down x y /\ serving y = Stopped.
Proof.
  assert (Hw : forall x, serving x = Selecting true -> exists y, rtc winds_down x y /\ serving y = Stopped).
  { intros z Hz. eexists. split; [by apply rtc_once, wd_woken|done]. }
  intros [Hx|[[w Hx] Hn]]; [by apply Hw|].
  destruct (Hw (notify_waiters x)) as (y & Hy & Hs).
  { unfold notify_waiters. destruct (notices x); [lia|]. cbn. by rewrite Hx. }
  exists y. split; [|done]. eapply rtc_l; [apply wd_notify|exact Hy].
Qed.

(** C21: after a shutdown was triggered at most one more connection is accepted,
    whatever the connections, the sessions and further triggers do; and the accept
    loop ends by itself from every state but one: it has read the flag before the
    trigger, was not yet waiting when the waiters were notified, and now waits. *)
Theorem shutdown_stops_accepting x y :
  shutdown_flag (daemon x) = true -> rtc step x y ->
  (next y <= next x + 1)%nat /\ (hears y -> exists z, rtc winds_down y z /\ serving z = Stopped).
Proof.
  intros Hf Hxy. split.
  - assert (Hn : (next y + may_accept (serving y) <= next x + may_accept (serving x))%nat).
    { induction Hxy as [x|x z y Hs _ IH]; [done|]. etransitivity; [apply IH; by eapply step_flag|by apply step_accepts]. }
    assert ((may_accept (serving x) <= 1)%nat) by (by destruct (serving x); cbn; lia). lia.
  - assert (Hy : shutdown_flag (daemon y) = true).
    { clear -Hf Hxy. induction Hxy as [x|x z y Hs _ IH]; [done|]. apply IH. by eapply step_flag. }
    unfold hears. destruct (serving y) as [| |[]|] eqn:Es; intros Hh.
    + eexists. split; [apply rtc_once, wd_check, Es|]. cbn. by rewrite Hy.
    + destruct (selecting_stops (serves y (Selecting false))) as (z & Hz & Hs); [right; eauto|].
      exists z. split; [|done]. eapply rtc_l; [by apply wd_select|exact Hz].
    + apply selecting_stops. by left.
    + apply selecting_stops. right. eauto.
    + by exists y.
Qed.

(** The state left out: nothing but a connection, a failure of the listener or
    another trigger moves the loop on. *)
Lemma missed_shutdown_waits x y :
  step x y -> serving x = Selecting false -> notices x = 0%nat ->
  serving y = Selecting false \/ next y = S (next x) \/ serving y = Stopped.
Proof.
  intros Hs Hx Hn. destruct Hs as [x s Hl|x Hpc|x Hpc|x w peer Hpc|x w Hpc|x Hpc|x|x c peer read sent Hc
    |x c n e line Hc Hf|x c id n k r Hc Hk Hr|x c r sent Hc|x c Hc|x c Hc|x c Hc|x c g Hc|x c e peer key line Hc
    |x c peer key r sent Hc|x c peer key Hc|x Hg|x Hg]; try congruence; auto.
  - unfold notify_waiters. rewrite Hn. by left.
  - left. by destruct (hello_done (daemon x) c peer read sent).
  - left. by destruct (control_read_serving e x c n line) as [_ ->].
  - left. unfold agent_read. by destruct (agent_line sha256 e peer key line (daemon x)).
Qed.

Lemma missed_shutdown_happens token :
  exists x, rtc step (proc_new token) x /\ shutdown_flag (daemon x) = true /\ signalled x = Triggered /\
    serving x = Selecting false /\ notices x = 0%nat.
Proof.
  eexists. split.
  - eapply rtc_l; [by apply p_check|]. eapply rtc_l; [by apply p_signal|]. eapply rtc_l; [by apply p_trigger|].
    eapply rtc_l; [apply p_notify|]. eapply rtc_l; [by apply p_select|]. apply rtc_refl.
  - done.
Qed.

(** All histories are closed at once only by a request on an admitted control
    connection: a signal, as at a restart of the machine, a disconnect or an end
    of the process leaves them to be restored. *)
Theorem histories_end_on_request x y :
  step x y -> (ShutdownAll ∉ calls (daemon x)) -> ShutdownAll ∈ calls (daemon y) ->
  exists c e n line, tasks x !! c = Some InControl /\ asks_shutdown line = true /\
    y = control_read base64_decode e x c n line.
Proof.
  intros Hs Hx Hy.
  assert (Hk : forall d, channel d = channel (daemon x) -> ShutdownAll ∈ calls d -> False).
  { intros d [= _ _ Hd]. by rewrite Hd. }
  assert (Hf : ShutdownAll ∈ calls (daemon x) ++ [FlushAll] -> False).
  { intros [?|?%list_elem_of_singleton]%elem_of_app; done. }
  destruct Hs as [x s Hl|x Hpc|x Hpc|x w peer Hpc|x w Hpc|x Hpc|x|x c peer read sent Hc
    |x c n e line Hc Hn|x c id n k r Hc Hr|x c r sent Hc|x c Hc|x c Hc|x c Hc|x c g Hc|x c e peer key line Hc
    |x c peer key r sent Hc|x c peer key Hc|x Hg|x Hg]; try done.
  - exfalso. eapply Hk; [|exact Hy]. by eapply channel_life.
  - revert Hy. unfold notify_waiters. by destruct (notices x).
  - exfalso. revert Hy. unfold hello_done. destruct read as [line|]; [|done].
    destruct (decode_ndjson_line hello_of line) as [h|]; [|done].
    destruct (admit_hello (daemon x) h) as [|[]]; by destruct sent.
  - exists c, e, n, line. split_and!; [done| |done]. pose proof (control_read_channel e x c n line) as Hl.
    cbn zeta in Hl. destruct Hl as [Hl|[[= _ _ Hl]|[Hl _]]]; [|by rewrite Hl in Hy|done]. by destruct (Hk _ Hl).
  - exfalso. revert Hy. cbn. unfold control_left. by case_match.
  - exfalso. eapply Hk; [|exact Hy]. apply channel_stream_closed.
  - exfalso. eapply Hk; [|exact Hy]. apply agent_read_channel.
Qed.
End invariants.

(** * The entry point *)

Record MainConfig := mkMainConfig { mc_socket : bytes; mc_token : bytes; mc_base_dir : bytes }.

(** A flag without a value takes [None], which is also what it was before. *)
Fixpoint read_args (args : list bytes) (socket token base_dir : option bytes) :
    result (option bytes * option bytes * option bytes) bytes :=
  match args with
  | [] => Ok (socket, token, base_dir)
  | a :: rest =>
      if bytes_eqb a (str "--socket") then
        match rest with v :: rest => read_args rest (Some v) token base_dir | [] => Ok (None, token, base_dir) end
      else if bytes_eqb a (str "--token") then
        match rest with v :: rest => read_args rest socket (Some v) base_dir | [] => Ok (socket, None, base_dir) end
      else if bytes_eqb a (str "--base-dir") then
        match rest with v :: rest => read_args rest socket token (Some v) | [] => Ok (socket, token, None) end
      else Err (str "unexpected argument: " ++ a)
  end.
Definition from_args (args : list bytes) : result MainConfig bytes :=
  match read_args args None None None with
  | Err e => Err e
  | Ok (None, _, _) => Err (str "missing --socket")
  | Ok (_, None, _) => Err (str "missing --token")
  | Ok (_, _, None) => Err (str "missing --base-dir")
  | Ok (Some s, Some t, Some b) => Ok (mkMainConfig s t b)
  end.

(** What the entry point does to the file system. A write that fails is logged. *)
Inductive main_effect :=
| Unlink (path : bytes)
| Bind (path : bytes)
| OwnerOnly (path : bytes)
| WriteSecret (path data : bytes) (written : bool)
| ServeConnections.

Record MainObs := mkMainObs {
  bound : bool;
  token_written : bool;
  pid_written : bool;
  own_pid : Z;
  now_ms : option Z;
  current_exe : option bytes
}.

(** The effects and the exit code. *)
Definition main `{JsonText} (args : list bytes) (o : MainObs) : list main_effect * Z :=
  match from_args args with
  | Err _ => ([], 2)
  | Ok c =>
      if bool_decide (mc_token c = []) then ([], 2)
      else if negb (bound o) then ([Unlink (mc_socket c)], 1)
      else
        let token_path := daemon_token_path (mc_base_dir c) in
        let pid_path := daemon_pid_path (mc_base_dir c) in
        ([Unlink (mc_socket c); Bind (mc_socket c); OwnerOnly (mc_socket c);
          WriteSecret token_path (mc_token c) (token_written o);
          WriteSecret pid_path (serialize_pid_file (mkDaemonPidFile (own_pid o) (now_ms o) (current_exe o) None))
            (pid_written o);
          ServeConnections;
          Unlink (mc_socket c); Unlink token_path; Unlink pid_path], 0)
  end.

(** The paths that exist. *)
Definition touch (fs : gset bytes) (fx : main_effect) : gset bytes :=
  match fx with
  | Unlink p => fs ∖ {[p]}
  | Bind p | WriteSecret p _ true => {[p]} ∪ fs
  | OwnerOnly _ | WriteSecret _ _ false | ServeConnections => fs
  end.

(** The arguments that the supervisor passes are read back. *)
Lemma supervisor_args_read socket token base_dir :
  from_args [str "--socket"; socket; str "--token"; token; str "--base-dir"; base_dir] =
    Ok (mkMainConfig socket token base_dir).
Proof. reflexivity. Qed.

(** Whatever could be written, nothing of what the daemon made is left when it
    returns; and it refuses bad arguments and an empty token before it touches
    anything. *)
Theorem main_leaves_nothing `{JsonText} args o fs :
  let fs' := foldl touch fs (main args o).1 in
  match from_args args with
  | Ok c =>
      if bool_decide (mc_token c = []) then fs' = fs
      else if bound o then
        fs' = fs ∖ {[mc_socket c]} ∖ {[daemon_token_path (mc_base_dir c)]} ∖ {[daemon_pid_path (mc_base_dir c)]}
      else fs' = fs ∖ {[mc_socket c]}
  | Err _ => fs' = fs
  end.
Proof.
  unfold main. destruct (from_args args) as [c|]; [|done]. destruct (bool_decide _); [done|].
  destruct (bound o); [|done]. cbn. apply leibniz_equiv. intros p.
  destruct (token_written o), (pid_written o); rewrite !elem_of_difference, ?elem_of_union, ?elem_of_difference,
    ?elem_of_union, ?elem_of_difference, !elem_of_singleton; tauto.
Qed.

(** * Applications *)

Module ProcessExamples.
Import ServerExamples ToyJson.
#[local] Abbreviation pstep := (proc_step (K := FakeKernel) b64 sha).

Definition hello : bytes :=
  encode_ndjson_line (object (hello_fields (mkHello GROVE_DAEMON_PROTOCOL_VERSION (str "t") (str "c") Protocol.Control))).
Definition new : proc (P := RecordingVt.t) := proc_new (str "t").
Definition accepted : proc (P := RecordingVt.t) :=
  mkProc (core new) {[0%nat := Hello (Some 7)]} 1 Top 0 NoSignal.
Definition connected : proc (P := RecordingVt.t) :=
  moves accepted 0 InControl (control_opened (dm (core accepted))).

Lemma connected_reached : rtc pstep new connected.
Proof.
  eapply rtc_l; [by apply p_check|]. eapply rtc_l; [by apply p_select|].
  eapply rtc_l; [by apply (p_accept _ _ _ false (Some 7))|].
  eapply rtc_l; [|apply rtc_refl].
  pose proof (p_hello (K := FakeKernel) b64 sha accepted 0 (Some 7) (Some hello) true eq_refl) as Hs.
  replace (hello_done (dm (core accepted)) 0 (Some 7) (Some hello) true)
    with (control_opened (dm (core accepted)), InControl) in Hs by (vm_compute; reflexivity).
  exact Hs.
Qed.


Lemma connected_clients_is_exact_witness :
  exists reply, handle_rpc env (str "getDaemonInfo") (object []) (dm (core connected)) = (dm (core connected), Ok reply) /\
    get "connectedClients" reply = Some (Int 1).
Proof.
  apply (connected_clients_is_exact b64 sha (str "t") connected env (object []) connected_reached).
  vm_compute. reflexivity.
Defined.

Definition triggered : proc (P := RecordingVt.t) :=
  mkProc (mkSrv (trigger_shutdown (dm (core connected))) ∅ ∅) (tasks connected) 1 Top 1 Triggered.
Lemma shutdown_stops_accepting_witness :
  shutdown_flag (dm (core triggered)) = true /\
  exists z, rtc winds_down triggered z /\ serving z = Stopped.
Proof.
  split; [reflexivity|]. apply (shutdown_stops_accepting (K := FakeKernel) b64 sha triggered triggered eq_refl (rtc_refl _ _)).
  exact I.
Defined.

(** The shutdown of a machine can be missed. *)
Example shutdown_can_be_missed :
  exists x, rtc pstep new x /\ shutdown_flag (dm (core x)) = true /\ signalled x = Triggered /\
    serving x = Selecting false /\ notices x = 0%nat.
Proof. apply missed_shutdown_happens. Qed.

End ProcessExamples.
