(* ===== verification/Supervisor.v ===== *)
(** The daemon's supervisor (grove-core/src/daemon/supervisor.rs, global.rs): the
    health probe, the decision to adopt or replace a daemon, killing a stale one
    by verified identity, spawning and waiting for readiness, and the check of
    the binary. What the sockets, files, processes and clocks answer are
    observations, taken at the moment the code asks; what the code does to them
    is a list of effects, in order. *)

From S2P Require Import Prelude Utf8 Text Json Protocol.

#[local] Open Scope rust_scope.

Definition START_TIME_TOLERANCE_MS : Z := 1500.
Definition LOG_TAIL_BYTES : nat := 4096.

Inductive effect :=
| ShutdownRpc
| Sigterm (pid : Z)
| Sigkill (pid : Z)
| RemovePidFile
| RemoveSocket
| WriteToken (token : bytes)
| CopyBinary
| Spawn (bin : bytes)
| KillChild
| WritePidFile (p : DaemonPidFile).

Inductive EnsureOutcome := Adopted | AdoptedDegraded | AdoptedUnresponsive | Spawned | Replaced.

(** Texts of operating system errors are left out. *)
Inductive SupervisorError :=
| Io
| TokenGen
| BinaryVerify (m : bytes)
| SpawnFailed (log_tail : option bytes)
| ReadinessTimeout (log_tail : option bytes).

Inductive DaemonHealth := Healthy | PtySpawnUnhealthy | Rejected | Unreachable.
Inductive ProbeError := ProbeRejected | ProbeUnreachable.

(** * Processes *)

(** The process table at one moment: [kill(pid, 0)] succeeds or is forbidden,
    the command line, the start time. *)
Record Procs := mkProcs {
  process_exists : Z -> bool;
  get_cmdline : Z -> option bytes;
  get_process_started_at_ms : Z -> option Z
}.

(** [(a as i64 - b as i64).unsigned_abs()]. *)
Definition as_i64 (n : Z) : Z := if n <? 2 ^ 63 then n else n - 2 ^ 64.
Definition start_time_matches (ps : Procs) (pid : Z) (expected : option Z) : bool :=
  match get_process_started_at_ms ps pid, expected with
  | Some actual, Some expected =>
      Z.abs (as_i64 (wrap 64 (as_i64 actual - as_i64 expected))) <=? START_TIME_TOLERANCE_MS
  | _, _ => true
  end.

Definition is_daemon_process (ps : Procs) (pid : Z) (socket_path : bytes) (expected : option Z) : bool :=
  if negb (process_exists ps pid) then false
  else match get_cmdline ps pid with
       | None => false
       | Some c => if negb (contains socket_path c) then false else start_time_matches ps pid expected
       end.

Section supervisor.
Context `{JsonText}.

(** [read_to_string] of the pid file, and its parse. *)
Definition read_pid_file (content : option bytes) : option DaemonPidFile :=
  (content ≫= from_utf8) ≫= parse_pid_file.

Definition is_stale_for_current (pid_file : option bytes) (ps : Procs) (socket_path current : bytes) : bool :=
  match read_pid_file pid_file with
  | None => false
  | Some p =>
      if negb (is_daemon_process ps (pf_pid p) socket_path (pf_started_at_ms p)) then false
      else match pf_app_version p with
           | Some recorded => negb (bytes_eqb recorded current)
           | None => true
           end
  end.

(** ** [kill_stale] *)

Record KillObs := mkKillObs {
  ko_pid_file : option bytes;
  ko_before : Procs;          (* when SIGTERM is considered *)
  ko_polls : list bool;       (* does the process exist, at each poll before the deadline *)
  ko_after : Procs;           (* when SIGKILL is considered *)
  ko_socket_live : bool;
  ko_socket_exists : bool
}.

(** The wait: whether the process was seen gone before the deadline. *)
Fixpoint poll_exit (polls : list bool) : bool :=
  match polls with
  | [] => false
  | exists_ :: polls => if exists_ then poll_exit polls else true
  end.

Definition kill_stale (o : KillObs) (socket_path : bytes) : list effect * bool :=
  let '(effects, killed) :=
    match read_pid_file (ko_pid_file o) with
    | None => ([], false)
    | Some p =>
        if is_daemon_process (ko_before o) (pf_pid p) socket_path (pf_started_at_ms p) then
          if poll_exit (ko_polls o) then ([Sigterm (pf_pid p)], true)
          else if is_daemon_process (ko_after o) (pf_pid p) socket_path (pf_started_at_ms p)
          then ([Sigterm (pf_pid p); Sigkill (pf_pid p)], true)
          else ([Sigterm (pf_pid p)], true)
        else ([], false)
    end in
  (effects ++ [RemovePidFile] ++
     (if ko_socket_exists o && (killed || negb (ko_socket_live o)) then [RemoveSocket] else []),
   killed).

(** ** Probes *)

Definition read_token (content : option bytes) : option bytes :=
  match content ≫= from_utf8 with
  | None => None
  | Some s => let t := trim s in if bool_decide (t = []) then None else Some t
  end.

(** One throwaway connection: the token file, the line that answered the hello
    in time, and the lines that followed the request in time. *)
Record ProbeObs := mkProbeObs {
  po_token : option bytes;
  po_ack : option bytes;
  po_lines : list bytes
}.

Definition raw_connect (ack : option bytes) : result unit ProbeError :=
  match ack with
  | None => Err ProbeUnreachable
  | Some line =>
      match decode_ndjson_line hello_ack_of line with
      | Ok a => if ack_ok a then Ok tt else Err ProbeRejected
      | Err _ => Err ProbeUnreachable
      end
  end.

Fixpoint raw_request (ls : list bytes) : result Value ProbeError :=
  match ls with
  | [] => Err ProbeUnreachable
  | l :: ls =>
      match decode_ndjson_line control_of l with
      | Ok (MReply r) =>
          if rp_id r =? 1 then
            match rp_error r with
            | Some _ => Err ProbeUnreachable
            | None => Ok (default Null (rp_result r))
            end
          else raw_request ls
      | _ => raw_request ls
      end
  end.

Definition probe_health (o : ProbeObs) : DaemonHealth :=
  match read_token (po_token o) with
  | None => Unreachable
  | Some _ =>
      match raw_connect (po_ack o) with
      | Err ProbeRejected => Rejected
      | Err ProbeUnreachable => Unreachable
      | Ok _ =>
          match raw_request (po_lines o) with
          | Ok v => if default false (get "ok" v ≫= as_bool) then Healthy else PtySpawnUnhealthy
          | Err _ => Unreachable
          end
      end
  end.

(** The reply to [listSessions] on a throwaway connection. *)
Definition list_reply (o : ProbeObs) : option Value :=
  match read_token (po_token o), raw_connect (po_ack o), raw_request (po_lines o) with
  | Some _, Ok _, Ok v => Some v
  | _, _, _ => None
  end.

Definition session_alive (s : Value) : bool := default false (get "isAlive" s ≫= as_bool).
Definition alive_session_count (o : ProbeObs) : option Z :=
  (fun l => zlen (filter (fun s => session_alive s = true) l)) <$> (list_reply o ≫= as_array).

Definition list_session_ids (o : ProbeObs) : list bytes :=
  match list_reply o ≫= as_array with
  | Some l => omap (fun s => get "sessionId" s ≫= as_str) l
  | None => []
  end.

(** The request is sent if there is a token and the daemon accepts the hello. *)
Definition request_shutdown (o : ProbeObs) : list effect :=
  match read_token (po_token o), raw_connect (po_ack o) with
  | Some _, Ok _ => [ShutdownRpc]
  | _, _ => []
  end.

(** ** The binary *)

Record BinObs := mkBinObs {
  bo_exists : bool;
  bo_identical : bool;
  bo_copy_ok : bool;
  bo_codesign : bool;           (* [codesign --verify] of the copy *)
  bo_magic : option (list Z)    (* the first four bytes of the copy *)
}.

Definition is_mach_o (magic : option (list Z)) : bool :=
  match magic with
  | Some m => bool_decide (m ∈ [[207; 250; 237; 254]; [206; 250; 237; 254]; [254; 237; 250; 207];
                               [254; 237; 250; 206]; [202; 254; 186; 190]; [190; 186; 254; 202]])
  | None => false
  end.

(** On macOS. *)
Definition prepare_binary_with_policy (o : BinObs) (source base_dir : bytes) (force allow_unverified : bool) :
    list effect * result bytes SupervisorError :=
  if negb (bo_exists o) then ([], Err (BinaryVerify (str "daemon binary source not found: " ++ source)))
  else
    let dest := daemon_bin_path base_dir in
    let copies := force || negb (bo_identical o) in
    if copies && negb (bo_copy_ok o) then ([CopyBinary], Err Io)
    else
      (if copies then [CopyBinary] else [],
       if bo_codesign o && is_mach_o (bo_magic o) then Ok dest
       else if negb allow_unverified then
         Err (BinaryVerify (str "daemon binary " ++ dest ++
                str " failed codesign/arch verification; refusing to spawn it"))
       else Ok source).

(** ** Spawning *)

Definition generate_token (random : bytes) : bytes := hex_lower random.

(** One turn of the readiness loop: has the child exited, does the hello succeed,
    is the deadline past. *)
Record Turn := mkTurn { tn_exited : result bool unit; tn_hello : bool; tn_late : bool }.

Record SpawnObs := mkSpawnObs {
  so_random : bytes;
  so_token_ok : bool;
  so_bin : BinObs;
  so_log_ok : bool;
  so_spawn_ok : bool;
  so_turns : list Turn;
  so_log : option bytes;
  so_child : Z;
  so_procs : Procs;
  so_pid_file : option bytes
}.

Definition read_log_tail (data : option bytes) : option bytes :=
  match data with
  | None => None
  | Some d =>
      let tail := trim (from_utf8_lossy (drop (length d - LOG_TAIL_BYTES) d)) in
      if bool_decide (tail = []) then None else Some tail
  end.

Definition ready_pid_file (o : SpawnObs) (bin app_version : bytes) : DaemonPidFile :=
  let self_reported := read_pid_file (so_pid_file o) ≫= pf_started_at_ms in
  mkDaemonPidFile (so_child o)
    (match get_process_started_at_ms (so_procs o) (so_child o) with
     | Some t => Some t
     | None => self_reported
     end) (Some bin) (Some app_version).

(** The loop; [None] when the observations end before it does. *)
Fixpoint await_ready (ts : list Turn) (o : SpawnObs) (bin app_version : bytes) :
    option (list effect * result unit SupervisorError) :=
  match ts with
  | [] => None
  | t :: ts =>
      match tn_exited t with
      | Ok true => Some ([], Err (SpawnFailed (read_log_tail (so_log o))))
      | Err _ => Some ([], Err Io)
      | Ok false =>
          if tn_hello t then Some ([WritePidFile (ready_pid_file o bin app_version)], Ok tt)
          else if tn_late t then Some ([KillChild], Err (ReadinessTimeout (read_log_tail (so_log o))))
          else await_ready ts o bin app_version
      end
  end.

Record Config := mkConfig { base_dir : bytes; bin_source_path : bytes; app_version : bytes }.

Definition spawn_daemon (allow_unverified : bool) (cfg : Config) (force_recopy : bool) (o : SpawnObs) :
    option (list effect * result unit SupervisorError) :=
  if negb (so_token_ok o) then Some ([], Err TokenGen)
  else
    let wrote := [WriteToken (generate_token (so_random o))] in
    let '(copied, bin) :=
      prepare_binary_with_policy (so_bin o) (bin_source_path cfg) (base_dir cfg) force_recopy allow_unverified in
    match bin with
    | Err e => Some (wrote ++ copied, Err e)
    | Ok bin =>
        if negb (so_log_ok o && so_spawn_ok o) then Some (wrote ++ copied, Err Io)
        else
          match await_ready (so_turns o) o bin (app_version cfg) with
          | Some (fx, r) => Some (wrote ++ copied ++ [Spawn bin] ++ fx, r)
          | None => None
          end
    end.

(** ** [ensure_running] and [restart_daemon] *)

Record EnsureObs := mkEnsureObs {
  eo_dir_ok : bool;
  eo_health : ProbeObs;
  eo_pid_file : option bytes;
  eo_procs : Procs;
  eo_shutdown : ProbeObs;
  eo_sessions : ProbeObs;
  eo_raw_connects : bool;      (* [probe_socket] at the last gate *)
  eo_kill : KillObs;
  eo_spawn : SpawnObs
}.

Definition run := option (list effect * result EnsureOutcome SupervisorError).

(** Tear down by [before], then spawn. *)
Definition respawn (allow_unverified : bool) (cfg : Config) (force : bool) (o : SpawnObs)
    (before : list effect) (outcome : EnsureOutcome) : run :=
  match spawn_daemon allow_unverified cfg force o with
  | Some (fx, r) => Some (before ++ fx, let? _ := r in Ok outcome)
  | None => None
  end.

Definition ensure_running (allow_unverified : bool) (cfg : Config) (o : EnsureObs) : run :=
  if negb (eo_dir_ok o) then Some ([], Err Io)
  else
    let socket := daemon_socket_path (base_dir cfg) in
    match probe_health (eo_health o) with
    | Healthy =>
        if is_stale_for_current (eo_pid_file o) (eo_procs o) socket (app_version cfg) then
          let (kill, _) := kill_stale (eo_kill o) socket in
          respawn allow_unverified cfg false (eo_spawn o) (request_shutdown (eo_shutdown o) ++ kill) Replaced
        else Some ([], Ok Adopted)
    | health =>
        let count := alive_session_count (eo_sessions o) in
        let rejected := match health with Rejected => true | _ => false end in
        if match count with Some n => 0 <? n | None => false end then
          Some ([], Ok (match health with PtySpawnUnhealthy => AdoptedDegraded | _ => Adopted end))
        else if bool_decide (count = None) && negb rejected && eo_raw_connects o then
          Some ([], Ok AdoptedUnresponsive)
        else
          let (kill, killed) := kill_stale (eo_kill o) socket in
          respawn allow_unverified cfg false (eo_spawn o) kill (if killed || rejected then Replaced else Spawned)
    end.

(** The observation of the sessions is [eo_sessions], before the shutdown. *)
Definition restart_daemon (allow_unverified : bool) (cfg : Config) (o : EnsureObs) : run * list bytes :=
  if negb (eo_dir_ok o) then (Some ([], Err Io), [])
  else
    let (kill, _) := kill_stale (eo_kill o) (daemon_socket_path (base_dir cfg)) in
    (respawn allow_unverified cfg true (eo_spawn o) (request_shutdown (eo_shutdown o) ++ kill) Replaced,
     list_session_ids (eo_sessions o)).
End supervisor.

(** * The process-wide configuration (global.rs) *)

Definition resolve_bin_source (configured : bytes) (env_override : option bytes) (allow_override : bool) : bytes :=
  match env_override with
  | Some over => if allow_override && negb (bool_decide (over = [])) then over else configured
  | None => configured
  end.

(** [OnceLock::set]: the first configuration stays. *)
Definition configure (slot : option Config) (c : Config) : option Config :=
  match slot with Some c0 => Some c0 | None => Some c end.
Definition is_configured (slot : option Config) : bool := match slot with Some _ => true | None => false end.

(** * Signals *)

Section properties.
Context `{JsonText}.

(** The process a signal goes to is this daemon, as far as can be told. *)
Definition identified (ps : Procs) (socket : bytes) (p : DaemonPidFile) : Prop :=
  process_exists ps (pf_pid p) = true /\
  (exists c, get_cmdline ps (pf_pid p) = Some c /\ contains socket c = true) /\
  start_time_matches ps (pf_pid p) (pf_started_at_ms p) = true.

Lemma is_daemon_identified ps socket p :
  is_daemon_process ps (pf_pid p) socket (pf_started_at_ms p) = true <-> identified ps socket p.
Proof.
  unfold is_daemon_process, identified. destruct (process_exists _ _); cbn; [|split; [done|by intros [? _]]].
  destruct (get_cmdline _ _) as [c|]; [|split; [done|by intros (_ & (c & ? & _) & _)]].
  destruct (contains socket c) eqn:E; cbn.
  - split; [intros Hs; eauto|by intros (_ & _ & ?)].
  - split; [done|]. intros (_ & (c' & [= <-] & Hc) & _). congruence.
Qed.

(** What may be in the effects of [kill_stale]. *)
Definition kill_ok (o : KillObs) (socket : bytes) (e : effect) : Prop :=
  match e with
  | Sigterm pid => exists p, read_pid_file (ko_pid_file o) = Some p /\ pid = pf_pid p /\
      identified (ko_before o) socket p
  | Sigkill pid => exists p, read_pid_file (ko_pid_file o) = Some p /\ pid = pf_pid p /\
      identified (ko_before o) socket p /\ identified (ko_after o) socket p /\
      Forall (fun b => b = true) (ko_polls o)
  | RemoveSocket => ko_socket_live o = false \/
      exists p, read_pid_file (ko_pid_file o) = Some p /\ identified (ko_before o) socket p
  | RemovePidFile => True
  | _ => False
  end.

Lemma poll_exit_false polls : poll_exit polls = false -> Forall (fun b => b = true) polls.
Proof. induction polls as [|[] polls IH]; cbn; [done|auto|done]. Qed.

Lemma kill_stale_ok o socket : Forall (kill_ok o socket) (kill_stale o socket).1.
Proof.
  unfold kill_stale. destruct (read_pid_file (ko_pid_file o)) as [p|] eqn:Ep.
  2: { cbn. constructor; [done|]. destruct (ko_socket_exists o && negb (ko_socket_live o)) eqn:E; [|done].
       apply andb_true_iff in E as [_ E]. constructor; [|done]. left. by apply negb_true_iff. }
  destruct (is_daemon_process (ko_before o) _ _ _) eqn:Eb.
  2: { cbn. constructor; [done|]. destruct (ko_socket_exists o && negb (ko_socket_live o)) eqn:E; [|done].
       apply andb_true_iff in E as [_ E]. constructor; [|done]. left. by apply negb_true_iff. }
  apply is_daemon_identified in Eb.
  assert (Ht : kill_ok o socket (Sigterm (pf_pid p))) by (exists p; eauto).
  assert (Hr : Forall (kill_ok o socket) ([RemovePidFile] ++
    (if ko_socket_exists o && true then [RemoveSocket] else []))).
  { constructor; [done|]. destruct (ko_socket_exists o); cbn; [|done]. constructor; [|done]. right. eauto. }
  destruct (poll_exit (ko_polls o)) eqn:Epo; [|destruct (is_daemon_process (ko_after o) _ _ _) eqn:Ea];
    cbn [fst orb]; (apply Forall_app; split; [|exact Hr]); repeat (constructor; [exact Ht|]); [done| |done].
  constructor; [|done]. apply is_daemon_identified in Ea.
  exists p. split_and!; try done. by apply poll_exit_false.
Qed.

Definition spawn_effect (e : effect) : Prop :=
  match e with
  | WriteToken _ | CopyBinary | Spawn _ | KillChild | WritePidFile _ => True
  | _ => False
  end.

Lemma await_ready_effects ts o bin v fx r :
  await_ready ts o bin v = Some (fx, r) -> Forall spawn_effect fx.
Proof.
  induction ts as [|t ts IH]; cbn; [done|]. intros E.
  destruct (tn_exited t) as [[]|]; [by simplify_eq| |by simplify_eq].
  destruct (tn_hello t); [simplify_eq; by constructor|]. destruct (tn_late t); [simplify_eq; by constructor|].
  by apply IH.
Qed.

Lemma prepare_effects o s b f u : Forall spawn_effect (prepare_binary_with_policy o s b f u).1.
Proof. unfold prepare_binary_with_policy. repeat case_match; cbn; repeat constructor. Qed.

Lemma spawn_effects u cfg force o fx r : spawn_daemon u cfg force o = Some (fx, r) -> Forall spawn_effect fx.
Proof.
  unfold spawn_daemon. destruct (negb (so_token_ok o)); [by intros [= <- <-]|].
  pose proof (prepare_effects (so_bin o) (bin_source_path cfg) (base_dir cfg) force u) as Hp.
  destruct (prepare_binary_with_policy _ _ _ _ _) as [copied [bin|e]]; cbn in Hp;
    [|intros [= <- <-]; cbn; by constructor].
  destruct (negb (so_log_ok o && so_spawn_ok o)); [intros [= <- <-]; cbn; by constructor|].
  destruct (await_ready _ _ _ _) as [[fx' r']|] eqn:E; [|done]. intros [= <- <-]. cbn. constructor; [done|].
  apply Forall_app. split; [done|]. constructor; [done|]. by eapply await_ready_effects.
Qed.

Lemma shutdown_effects o : request_shutdown o = [] \/ request_shutdown o = [ShutdownRpc].
Proof. unfold request_shutdown. repeat case_match; auto. Qed.

(** What may be in the effects of [ensure_running] and [restart_daemon]. *)
Definition effect_ok (o : EnsureObs) (socket : bytes) (e : effect) : Prop :=
  kill_ok (eo_kill o) socket e \/ spawn_effect e \/ e = ShutdownRpc.

Lemma respawn_ok u cfg force o socket before outcome fx r :
  Forall (effect_ok o socket) before ->
  respawn u cfg force (eo_spawn o) before outcome = Some (fx, r) -> Forall (effect_ok o socket) fx.
Proof.
  intros Hb. unfold respawn. destruct (spawn_daemon _ _ _ _) as [[fx' r']|] eqn:E; [|done]. intros [= <- <-].
  apply Forall_app. split; [done|]. eapply Forall_impl; [by eapply spawn_effects|]. intros e He. by right; left.
Qed.

Lemma kill_before_ok o socket kill killed :
  kill_stale (eo_kill o) socket = (kill, killed) -> Forall (effect_ok o socket) kill.
Proof.
  intros E. pose proof (kill_stale_ok (eo_kill o) socket) as Hk. rewrite E in Hk.
  eapply Forall_impl; [exact Hk|]. intros e He. by left.
Qed.

Lemma shutdown_before_ok o socket s : Forall (effect_ok o socket) (request_shutdown s).
Proof. destruct (shutdown_effects s) as [-> | ->]; [constructor|].
  constructor; [by right; right|constructor]. Qed.


(** * The decision *)

Definition keeps_daemon (cfg : Config) (o : EnsureObs) : Prop :=
  match probe_health (eo_health o) with
  | Healthy =>
      is_stale_for_current (eo_pid_file o) (eo_procs o) (daemon_socket_path (base_dir cfg)) (app_version cfg) = false
  | health =>
      (exists n, alive_session_count (eo_sessions o) = Some n /\ 0 < n) \/
      (alive_session_count (eo_sessions o) = None /\ health <> Rejected /\ eo_raw_connects o = true)
  end.

Definition adopts (r : result EnsureOutcome SupervisorError) : Prop :=
  r = Ok Adopted \/ r = Ok AdoptedDegraded \/ r = Ok AdoptedUnresponsive.

Lemma respawn_not_adopts u cfg force o before outcome fx r :
  respawn u cfg force o before outcome = Some (fx, r) -> outcome = Replaced \/ outcome = Spawned -> ~ adopts r.
Proof.
  unfold respawn. destruct (spawn_daemon _ _ _ _) as [[fx' [[]|e]]|]; [|intros [= <- <-]|done].
  - intros [= <- <-] [-> | ->]; unfold adopts; cbn; intuition congruence.
  - intros _. unfold adopts. cbn. intuition congruence.
Qed.

(** A running daemon is kept exactly when it is healthy and of this version,
    or, healthy or not, lists live sessions, or could not be asked but accepts
    connections without having refused the handshake; and then nothing at all is
    done to it. *)
Theorem ensure_keeps_daemon_iff u cfg o fx r :
  eo_dir_ok o = true -> ensure_running u cfg o = Some (fx, r) ->
  (adopts r <-> keeps_daemon cfg o) /\ (adopts r -> fx = []).
Proof.
  intros Hd. unfold ensure_running, keeps_daemon. rewrite Hd. cbn [negb].
  set (socket := daemon_socket_path (base_dir cfg)).
  destruct (kill_stale (eo_kill o) socket) as [kill killed].
  assert (Hno : forall before outcome, (outcome = Replaced \/ outcome = Spawned) ->
    respawn u cfg false (eo_spawn o) before outcome = Some (fx, r) -> ~ adopts r)
    by (intros; by eapply respawn_not_adopts).
  destruct (probe_health (eo_health o)) eqn:Eh.
  1: { destruct (is_stale_for_current _ _ _ _).
       - intros E. apply Hno in E; [|by left]. split; [split; [done|done]|done].
       - intros [= <- <-]. split; [split; [done|by left]|done]. }
  all: destruct (alive_session_count (eo_sessions o)) as [n|]; [destruct (Z.ltb_spec 0 n) as [Hn|Hn]|].
  (** a list of live sessions *)
  1, 4, 7: intros [= <- <-]; split; [split; [intros _; left; by exists n|]|done];
    intros _; unfold adopts; auto.
  (** a list without one *)
  1, 3, 5: rewrite (bool_decide_eq_false_2 (Some n = None)) by done; cbn [andb];
    intros E; apply Hno in E; [|destruct (killed || _); auto];
    (split; [split; [done|]|done]); intros [(m & [= <-] & Hm)|(? & _)]; [lia|done].
  (** no answer *)
  all: rewrite (bool_decide_eq_true_2 (None = None)) by done; cbn [andb negb].
  2: { intros E; apply Hno in E; [|destruct (killed || _); auto]. split; [split; [done|]|done].
       by intros [(m & ? & _)|(_ & ? & _)]. }
  all: destruct (eo_raw_connects o);
    [intros [= <- <-]; split; [split; [intros _; by right|]|done]; intros _; unfold adopts; auto
    |intros E; apply Hno in E; [|destruct (killed || _); auto]; split; [split; [done|]|done];
     by intros [(m & ? & _)|(_ & _ & ?)]].
Qed.
(** * Spawning *)

(** The turns before the loop ends: the child runs, does not answer, is not late. *)
Definition waits (t : Turn) : Prop := tn_exited t = Ok false /\ tn_hello t = false /\ tn_late t = false.

Lemma await_ready_spec ts o bin v fx r :
  await_ready ts o bin v = Some (fx, r) ->
  exists pre t post, ts = pre ++ t :: post /\ Forall waits pre /\
    match tn_exited t with
    | Ok true => fx = [] /\ r = Err (SpawnFailed (read_log_tail (so_log o)))
    | Err _ => fx = [] /\ r = Err Io
    | Ok false =>
        if tn_hello t then fx = [WritePidFile (ready_pid_file o bin v)] /\ r = Ok tt
        else tn_late t = true /\ fx = [KillChild] /\ r = Err (ReadinessTimeout (read_log_tail (so_log o)))
    end.
Proof.
  induction ts as [|t ts IH]; cbn; [done|]. intros E.
  destruct (tn_exited t) as [[]|] eqn:Ex; [| |].
  2: destruct (tn_hello t) eqn:Eh; [|destruct (tn_late t) eqn:El].
  4: { destruct (IH E) as (pre & t' & post & -> & Hpre & Ht').
       exists (t :: pre), t', post. split_and!; [done| |done]. by constructor. }
  all: exists [], t, ts; rewrite Ex, ?Eh; (split; [done|]); (split; [constructor|]); injection E as <- <-; auto.
Qed.

(** The loop ends at the first turn that is not a wait. *)
Lemma await_ready_total pre t post o bin v :
  Forall waits pre -> ~ waits t -> exists fx r, await_ready (pre ++ t :: post) o bin v = Some (fx, r).
Proof.
  intros Hpre Ht. induction Hpre as [|x pre (Hx & Hh & Hl) _ IH]; cbn.
  - destruct (tn_exited t) as [[]|] eqn:?; eauto. destruct (tn_hello t) eqn:?; eauto. destruct (tn_late t) eqn:?; eauto.
    by destruct Ht.
  - rewrite Hx, Hh, Hl. exact IH.
Qed.

(** The binary a copy of which, or which itself, may be run. *)
Definition verified (o : BinObs) (base_dir bin : bytes) : Prop :=
  bin = daemon_bin_path base_dir /\ bo_codesign o = true /\ is_mach_o (bo_magic o) = true.

Lemma prepare_binary_spec o source base force u fx bin :
  prepare_binary_with_policy o source base force u = (fx, Ok bin) ->
  (verified o base bin \/ (u = true /\ bin = source)) /\
  (force = true \/ bo_identical o = false -> fx = [CopyBinary] /\ bo_copy_ok o = true).
Proof.
  unfold prepare_binary_with_policy, verified. destruct (bo_exists o); cbn [negb]; [|done].
  destruct (force || negb (bo_identical o)) eqn:Ec; destruct (bo_copy_ok o); cbn [andb negb]; try done.
  all: destruct (bo_codesign o && is_mach_o (bo_magic o)) eqn:Ev; [apply andb_true_iff in Ev as [-> ->]|destruct u].
  all: cbn [negb]; intros [= <- <-]; (split; [tauto|]); try tauto.
  all: apply orb_false_iff in Ec as [-> Ec]; apply negb_false_iff in Ec as ->; intros [?|?]; done.
Qed.

(** How a spawn goes: it gives up before the child, or waits for it. *)
Definition quiet (e : effect) : Prop := match e with WriteToken _ | CopyBinary => True | _ => False end.

Lemma spawn_cases u cfg force o fx r :
  spawn_daemon u cfg force o = Some (fx, r) ->
  (Forall quiet fx /\ exists e, r = Err e /\ forall t, e <> ReadinessTimeout t) \/
  exists copied bin fx', Forall quiet copied /\
    prepare_binary_with_policy (so_bin o) (bin_source_path cfg) (base_dir cfg) force u = (copied, Ok bin) /\
    await_ready (so_turns o) o bin (app_version cfg) = Some (fx', r) /\
    fx = WriteToken (hex_lower (so_random o)) :: copied ++ Spawn bin :: fx'.
Proof.
  unfold spawn_daemon. destruct (so_token_ok o); cbn [negb]; [|intros [= <- <-]; left; eauto].
  destruct (prepare_binary_with_policy _ _ _ _ _) as [copied bin] eqn:Ep.
  assert (Hc : Forall quiet copied /\ forall e t, bin = Err e -> e <> ReadinessTimeout t).
  { revert Ep. unfold prepare_binary_with_policy. repeat case_match; intros [= <- <-].
    all: split; [repeat constructor|congruence]. }
  destruct Hc as [Hc He], bin as [bin|e].
  2: { intros [= <- <-]. left. split; [by constructor|eauto]. }
  destruct (negb (so_log_ok o && so_spawn_ok o)); [intros [= <- <-]; left; split; [by constructor|eauto]|].
  destruct (await_ready _ _ _ _) as [[fx' r']|] eqn:Ea; [|done].
  intros [= <- <-]. right. by exists copied, bin, fx'.
Qed.

Lemma quiet_elem l e : Forall quiet l -> e ∈ l -> quiet e.
Proof. intros Hl He. by eapply (proj1 (Forall_forall _ _)) in Hl. Qed.

(** The effects after a quiet start. *)
Lemma elem_of_spawn tok copied bin l e :
  Forall quiet copied -> e ∈ WriteToken tok :: copied ++ Spawn bin :: l -> quiet e \/ e = Spawn bin \/ e ∈ l.
Proof.
  intros Hc. rewrite elem_of_cons, elem_of_app, elem_of_cons. intros [->|[He|He]]; [by left| |by right].
  left. by eapply quiet_elem.
Qed.

(** A spawn that succeeds wrote the token first, then ran one binary, saw it
    alive at every turn until it answered the hello, and wrote the pid file last;
    the binary is, where unverified ones are not allowed, the copy under the base
    directory, with a valid signature and the header of an executable. A spawn
    that fails writes no pid file, and its child is killed exactly when the
    deadline passed. *)
Theorem spawn_daemon_spec u cfg force o fx r :
  spawn_daemon u cfg force o = Some (fx, r) ->
  (forall bin, Spawn bin ∈ fx -> u = false -> verified (so_bin o) (base_dir cfg) bin) /\
  (r = Ok tt -> exists copied bin pre t post,
     fx = WriteToken (hex_lower (so_random o)) :: copied ++
          [Spawn bin; WritePidFile (ready_pid_file o bin (app_version cfg))] /\
     (force = true -> copied = [CopyBinary]) /\
     so_turns o = pre ++ t :: post /\ Forall waits pre /\ tn_exited t = Ok false /\ tn_hello t = true) /\
  (r <> Ok tt -> forall p, WritePidFile p ∉ fx) /\
  (KillChild ∈ fx <-> exists tail, r = Err (ReadinessTimeout tail)).
Proof.
  intros E. destruct (spawn_cases _ _ _ _ _ _ E) as [(Hq & e & -> & He)|(copied & bin & fx' & Hq & Ep & Ea & ->)].
  { assert (Hn : forall x, ~ quiet x -> x ∉ fx) by (intros x Hx Hin; by apply Hx, (quiet_elem _ _ Hq)).
    split_and!; [|done| |].
    - intros bin Hin. by apply Hn in Hin; [|cbn; tauto].
    - intros _ p. apply Hn. cbn. tauto.
    - split; [intros Hin; by apply Hn in Hin; [|cbn; tauto]|intros [t [= ->]]; by destruct (He t)]. }
  pose proof (prepare_binary_spec _ _ _ _ _ _ _ Ep) as [Hb Hc].
  destruct (await_ready_spec _ _ _ _ _ _ Ea) as (pre & t & post & Ht & Hpre & Hend).
  assert (Hk : (forall b, Spawn b ∉ fx') /\ (r <> Ok tt -> forall p, WritePidFile p ∉ fx') /\
    (KillChild ∈ fx' <-> exists tail, r = Err (ReadinessTimeout tail))).
  { destruct (tn_exited t) as [[]|]; [|destruct (tn_hello t)|]; destruct_and?; subst; setoid_rewrite elem_of_nil
      || setoid_rewrite list_elem_of_singleton; split_and!; try done;
      eauto; (split; [by eauto|by intros [? ?]]). }
  destruct Hk as (Hks & Hkp & Hkk).
  pose proof (fun e => elem_of_spawn (hex_lower (so_random o)) copied bin fx' e Hq) as Hel. split_and!.
  - intros b [?|[[= ->]|Hin]]%Hel Hu; [done| |by apply Hks in Hin]. destruct Hb as [?|[? _]]; congruence.
  - intros ->. destruct (tn_exited t) as [[]|] eqn:Ex; [|destruct (tn_hello t) eqn:Eh|]; destruct_and?; try done.
    subst fx'. exists copied, bin, pre, t, post. split_and!; try done. intros ->. by apply Hc; left.
  - intros Hr p [?|[?|Hin]]%Hel; [done|done|]. by apply Hkp in Hin.
  - rewrite <- Hkk. split; [intros [?|[?|?]]%Hel; done|].
    intros. rewrite elem_of_cons, elem_of_app, elem_of_cons. auto.
Qed.
End properties.

(** * Examples *)

Module SupervisorExamples.
(** A decoder that knows the four texts of these examples. *)
#[local] Instance text : JsonText := {|
  to_string _ := [];
  from_str b :=
    if bytes_eqb b (str "pid") then
      Some (pid_file_value (mkDaemonPidFile 42 (Some 1000) None (Some (str "0.9"))))
    else if bytes_eqb b (str "ack") then Some (tagged "helloAck" (hello_ack_fields hello_ack_ok))
    else if bytes_eqb b (str "healthy") then
      Some (tagged "reply" (reply_fields (reply_ok 1 (object [(str "ok", Bool true)]))))
    else if bytes_eqb b (str "sessions") then
      Some (tagged "reply" (reply_fields (reply_ok 1
        (Arr [object [(str "sessionId", Str (str "s")); (str "isAlive", Bool true)]]))))
    else None
|}.

Definition cfg : Config := mkConfig (str "/g") (str "/bin/daemon") (str "1.0").
Definition socket : bytes := daemon_socket_path (base_dir cfg).
(** Process 42 runs for this endpoint; the pid file does not contradict it. *)
Definition procs : Procs :=
  mkProcs (fun n => n =? 42) (fun _ => Some (str "daemon " ++ socket)) (fun _ => Some 2000).
(** The pid was reused by a process that is no daemon. *)
Definition reused : Procs := mkProcs (fun n => n =? 42) (fun _ => Some (str "vi")) (fun _ => Some 2000).
Definition probe (ls : list bytes) : ProbeObs := mkProbeObs (Some (str "t")) (Some (str "ack")) ls.
Definition bin : BinObs := mkBinObs true false true true (Some [207; 250; 237; 254]).
Definition spawn : SpawnObs :=
  mkSpawnObs [1; 255] true bin true true [mkTurn (Ok false) false false; mkTurn (Ok false) true false] None 43
    procs None.
Definition kill (ps : Procs) : KillObs := mkKillObs (Some (str "pid")) ps [true; true] ps true true.
(** A daemon of version 0.9 answers, and lists a live session. *)
Definition obs (ps : Procs) (health : list bytes) : EnsureObs :=
  mkEnsureObs true (probe health) (Some (str "pid")) procs (probe []) (probe [str "sessions"]) true (kill ps) spawn.

Definition new_daemon : list effect :=
  [WriteToken (str "01ff"); CopyBinary; Spawn (daemon_bin_path (str "/g"));
   WritePidFile (mkDaemonPidFile 43 (Some 2000) (Some (daemon_bin_path (str "/g"))) (Some (str "1.0")))].


(** A daemon that does not answer the health request, and lists a session, is kept. *)
Lemma ensure_keeps_daemon_iff_witness :
  ensure_running false cfg (obs procs []) = Some ([], Ok Adopted) /\ keeps_daemon cfg (obs procs []).
Proof.
  assert (E : ensure_running false cfg (obs procs []) = Some ([], Ok Adopted)) by (vm_compute; reflexivity).
  split; [exact E|].
  exact (proj1 (proj1 (ensure_keeps_daemon_iff false cfg (obs procs []) _ _ eq_refl E)) (or_introl eq_refl)).
Defined.

Lemma spawn_daemon_spec_witness :
  spawn_daemon false cfg true spawn = Some (new_daemon, Ok tt) /\
  verified bin (str "/g") (daemon_bin_path (str "/g")).
Proof.
  assert (E : spawn_daemon false cfg true spawn = Some (new_daemon, Ok tt)) by (vm_compute; reflexivity).
  split; [exact E|].
  apply (proj1 (spawn_daemon_spec false cfg true spawn new_daemon (Ok tt) E)); [|reflexivity].
  unfold new_daemon. do 2 apply list_elem_of_further. apply list_elem_of_here.
Defined.

(** A healthy daemon of another version is torn down while it lists a live
    session: no gate asks for them before. *)
Example stale_daemon_with_sessions_is_killed :
  alive_session_count (eo_sessions (obs procs [str "healthy"])) = Some 1 /\
  Sigkill 42 ∈ from_option fst [] (ensure_running false cfg (obs procs [str "healthy"])).
Proof.
  split; [vm_compute; reflexivity|].
  set (l := from_option _ _ _). vm_compute in l. subst l. do 2 apply list_elem_of_further. apply list_elem_of_here.
Qed.

(** A reused pid is not signalled; the live socket stays. *)
Example reused_pid_is_spared :
  kill_stale (kill reused) socket = ([RemovePidFile], false).
Proof. vm_compute. reflexivity. Qed.
End SupervisorExamples.

(** * Start times from ps *)

(** [str::parse::<i64>]: a sign, digits, in range. *)
Definition parse_i64 (s : bytes) : option Z :=
  match s with
  | 45 :: d :: _ =>
      if in_range 48 57 d then Z.opp <$> parse_unsigned (2 ^ 63) (drop 1 s) else None
  | _ => parse_unsigned (2 ^ 63 - 1) s
  end.

Definition month_index (name : bytes) : option Z :=
  (fun r => Z.of_nat (fst r) + 1) <$>
    list_find (fun m => m = name)
      [str "Jan"; str "Feb"; str "Mar"; str "Apr"; str "May"; str "Jun";
       str "Jul"; str "Aug"; str "Sep"; str "Oct"; str "Nov"; str "Dec"].

(** Division truncates. The years that ps prints do not overflow. *)
Definition days_from_civil (y m d : Z) : Z :=
  let y := if m <=? 2 then y - 1 else y in
  let era := Z.quot (if 0 <=? y then y else y - 399) 400 in
  let yoe := y - era * 400 in
  let mp := if 2 <? m then m - 3 else m + 9 in
  let doy := Z.quot (153 * mp + 2) 5 + d - 1 in
  let doe := yoe * 365 + Z.quot yoe 4 - Z.quot yoe 100 + doy in
  era * 146097 + doe - 719468.

Definition parse_lstart_to_ms (s : bytes) : option Z :=
  match split_whitespace s with
  | _ :: month :: day :: time :: year :: _ =>
      month ← month_index month; day ← parse_i64 day; year ← parse_i64 year;
      match split_on 58 time with
      | [h; mi; se] =>
          h ← parse_i64 h; mi ← parse_i64 mi; se ← parse_i64 se;
          let secs := days_from_civil year month day * 86400 + h * 3600 + mi * 60 + se in
          if secs <? 0 then None else Some (secs * 1000)
      | _ => None
      end
  | _ => None
  end.

(** The calendar, one day at a time. *)
Definition leap (y : Z) : bool := (y mod 4 =? 0) && negb (y mod 100 =? 0) || (y mod 400 =? 0).
Definition month_length (y m : Z) : Z :=
  if m =? 2 then if leap y then 29 else 28
  else if (m =? 4) || (m =? 6) || (m =? 9) || (m =? 11) then 30 else 31.
Definition next_day (y m d : Z) : Z * Z * Z :=
  if d <? month_length y m then (y, m, d + 1)
  else if m <? 12 then (y, m + 1, 1) else (y + 1, 1, 1).

Lemma era_floor y : Z.quot (if 0 <=? y then y else y - 399) 400 = y / 400.
Proof. destruct (Z.leb_spec 0 y); Z.to_euclidean_division_equations; lia. Qed.

(** The day count, with floors. *)
Lemma days_floor y m d :
  1 <= m <= 12 ->
  days_from_civil y m d =
  let y := if m <=? 2 then y - 1 else y in
  let mp := if 2 <? m then m - 3 else m + 9 in
  365 * y + y / 4 - y / 100 + y / 400 + (153 * mp + 2) / 5 + d - 719469.
Proof.
  intros Hm. unfold days_from_civil. cbv zeta. set (y' := if m <=? 2 then y - 1 else y). rewrite era_floor.
  assert (H0 : 0 <= y' - y' / 400 * 400 < 400) by (Z.to_euclidean_division_equations; lia).
  rewrite !Z.quot_div_nonneg by (try lia; destruct (2 <? m) eqn:?; lia).
  assert ((y' - y' / 400 * 400) / 4 = y' / 4 - 100 * (y' / 400)) as -> by (Z.to_euclidean_division_equations; lia).
  assert ((y' - y' / 400 * 400) / 100 = y' / 100 - 4 * (y' / 400)) as -> by (Z.to_euclidean_division_equations; lia).
  lia.
Qed.

(** Decide the conditions on constants. *)
Ltac decide_ifs :=
  repeat match goal with
  | |- context [if ?b then _ else _] => first [change b with true | change b with false]; cbv iota
  end.

(** The day number of a date counts the days of the Gregorian calendar from
    1970-01-01: the next day's is one more, over the ends of months, years and
    leap years. *)
Theorem days_count_the_calendar y m d :
  1 <= m <= 12 -> 1 <= d <= month_length y m ->
  days_from_civil 1970 1 1 = 0 /\
  let '(y', m', d') := next_day y m d in days_from_civil y' m' d' = days_from_civil y m d + 1.
Proof.
  intros Hm Hd. split; [done|]. unfold next_day. destruct (Z.ltb_spec d (month_length y m)) as [Hlt|Hge].
  { rewrite !days_floor by done. cbv zeta. lia. }
  assert (d = month_length y m) as -> by lia. clear Hd Hge.
  destruct (Z.ltb_spec m 12) as [H12|H12].
  - rewrite !days_floor by lia. cbv zeta. unfold month_length.
    assert (m = 1 \/ m = 2 \/ m = 3 \/ m = 4 \/ m = 5 \/ m = 6 \/ m = 7 \/ m = 8 \/ m = 9 \/ m = 10 \/ m = 11) as Hcases by lia.
    destruct Hcases as [->|[->|Hcases]];
      [decide_ifs; Z.to_euclidean_division_equations; lia|
      |repeat destruct Hcases as [->|Hcases]; subst; decide_ifs; Z.to_euclidean_division_equations; lia].
    decide_ifs. unfold leap.
    destruct (Z.eqb_spec (y mod 4) 0), (Z.eqb_spec (y mod 100) 0), (Z.eqb_spec (y mod 400) 0); cbn [andb orb negb]; cbv iota;
      Z.to_euclidean_division_equations; lia.
  - assert (m = 12) as -> by lia. rewrite !days_floor by lia. cbv zeta. unfold month_length. decide_ifs.
    replace (y + 1 - 1) with y by lia. Z.to_euclidean_division_equations; lia.
Qed.

Lemma days_count_the_calendar_witness :
  parse_lstart_to_ms (str "Sat Feb 29 23:59:59 2020") = Some 1583020799000 /\
  days_from_civil 2020 3 1 = days_from_civil 2020 2 29 + 1.
Proof.
  split; [vm_compute; reflexivity|].
  apply (days_count_the_calendar 2020 2 29); [split; discriminate|vm_compute; split; discriminate].
Defined.
