(* ===== verification/Probes.v ===== *)
(** What the daemon and the supervisor ask the system about processes and files:
    the kernel's record of a process, decoded from the bytes of sysctl, and the
    peer of a socket (grove-daemon/src/kernel.rs); the existence, the command line
    and the start of a process, the copied binary (daemon/supervisor.rs) and the
    files that hold secrets (daemon/protocol.rs). *)

From S2P Require Import Prelude Utf8 Text Agent Supervisor.

#[local] Open Scope rust_scope.

(** * The kernel's record *)

Definition KINFO_PROC_SIZE : Z := 648.
Definition OFF_START_SEC : Z := 0.
Definition OFF_START_USEC : Z := 8.
Definition OFF_P_STAT : Z := 36.
Definition OFF_P_PID : Z := 40.
Definition OFF_E_TDEV : Z := 572.

(** A sysctl call: its result, the size it left and the buffer of that size at most. *)
Record Sysctl := mkSysctl { sy_rc : Z; sy_size : Z; sy_buf : bytes }.
(** Two's complement. *)
Definition signed (w n : Z) : Z := if n <? 2 ^ (w - 1) then n else n - 2 ^ w.
Definition rd32 (buf : bytes) (o : Z) : Z := signed 32 (from_le_bytes (slice buf o (o + 4))).
Definition rd64 (buf : bytes) (o : Z) : Z := signed 64 (from_le_bytes (slice buf o (o + 8))).
(** [as u64] of a signed integer, the product and the sum wrap. *)
Definition start_us_of (sec usec : Z) : Z := wrap 64 (wrap 64 (wrap 64 sec * 1000000) + wrap 64 usec).

(** [answer] is what sysctl says of the pid; it is not asked for one below 1. *)
Definition mac_facts (answer : Z -> Sysctl) (pid : Z) : option ProcFacts :=
  if pid <=? 0 then None
  else
    let '(mkSysctl rc size buf) := answer pid in
    if negb (rc =? 0) || (size =? 0) then None
    else Some (mkProcFacts (rd32 buf OFF_P_PID) (start_us_of (rd64 buf OFF_START_SEC) (rd32 buf OFF_START_USEC))
                 (byte_at buf OFF_P_STAT) (rd32 buf OFF_E_TDEV)).
Definition null_facts (pid : Z) : option ProcFacts := None.
(** [Some]: macOS. *)
Definition SystemKernel : Type := option (Z -> Sysctl).
#[export] Instance system_kernel : Kernel SystemKernel := fun k pid =>
  match k with Some answer => mac_facts answer pid | None => null_facts pid end.

(** [None]: another system; else the result of getsockopt and the pid it left. *)
Definition peer_pid (asked : option (Z * Z)) : option Z :=
  '(rc, pid) ← asked; if negb (rc =? 0) || (pid <=? 0) then None else Some pid.

(** * Processes *)

Definition EPERM : Z := 1.
(** The result of kill with signal 0, and the error number. *)
Definition exists_by_kill (ret errno : Z) : bool := (ret =? 0) || (errno =? EPERM).

Definition get_cmdline_linux (proc_cmdline : option bytes) : option bytes :=
  (fun b => (fun c => if c =? 0 then 32 else c) <$> from_utf8_lossy b) <$> proc_cmdline.
(** What ps prints, when it succeeds. *)
Definition get_cmdline_ps (printed : option bytes) : option bytes :=
  out ← printed; let s := trim (from_utf8_lossy out) in if bool_decide (s = []) then None else Some s.

Fixpoint first_btime (lines : list bytes) : option Z :=
  match lines with
  | [] => None
  | line :: lines =>
      match strip_prefix (str "btime ") line with
      | Some rest => parse_u64 (trim rest)
      | None => first_btime lines
      end
  end.
Definition read_btime (stat : option bytes) : option Z := stat ≫= fun s => first_btime (str_lines s).
(** The text of the 22nd field; what stands before the last parenthesis may hold blanks. *)
Definition start_ticks_field (stat : bytes) : option bytes :=
  i ← rfind (str ")") stat; split_whitespace (drop (S i) stat) !! 19%nat.

(** * Files *)

(** A file as its length and content, each when it can be had. *)
Definition files_identical (a b : option (Z * option bytes)) : bool :=
  match a, b with
  | Some (la, ca), Some (lb, cb) =>
      (la =? lb) && match ca, cb with Some x, Some y => bytes_eqb x y | _, _ => false end
  | _, _ => false
  end.

(** Permissions and content. Opening for writing makes a file with the mode that is
    asked for and keeps that of one that is there. *)
Definition write_secret_file (path contents : bytes) (fs : gmap bytes (Z * bytes)) : gmap bytes (Z * bytes) :=
  <[path := (match fs !! path with Some (mode, _) => mode | None => 384 end, contents)]> fs.

(** * Laws *)

(** The layout of a [kinfo_proc]. *)
Definition kinfo (sec usec stat pid tdev : Z) (f1 f2 f3 f4 : bytes) : bytes :=
  to_le_bytes 8 (wrap 64 sec) ++ to_le_bytes 4 (wrap 32 usec) ++ f1 ++ [stat] ++ f2 ++ to_le_bytes 4 (wrap 32 pid) ++ f3 ++
  to_le_bytes 4 (wrap 32 tdev) ++ f4.

Lemma signed_wrap w n : 1 <= w -> - 2 ^ (w - 1) <= n < 2 ^ (w - 1) -> signed w (wrap w n) = n.
Proof.
  intros Hw Hn. unfold signed, wrap. assert (E : 2 ^ w = 2 * 2 ^ (w - 1)) by (rewrite <- Z.pow_succ_r by lia; f_equal; lia).
  destruct (Z.ltb_spec n 0).
  - replace (n mod 2 ^ w) with (n + 2 ^ w); [case_match; lia|]. rewrite <- (Z.mod_small (n + 2 ^ w) (2 ^ w)) by lia.
    rewrite <- (Z.mod_add n 1) by lia. f_equal. lia.
  - rewrite Z.mod_small by lia. case_match; lia.
Qed.
Lemma read_field {n} v pre post o :
  0 <= v < 256 ^ Z.of_nat n -> o = zlen pre -> from_le_bytes (slice (pre ++ to_le_bytes n v ++ post) o (o + Z.of_nat n)) = v.
Proof.
  intros Hv ->. rewrite slice_app_exact; [by apply from_to_le_bytes|done|]. unfold zlen. rewrite length_to_le_bytes. lia.
Qed.

(** What the kernel writes of a process is what is read of it: no field is taken
    from another's place, and none is outside the buffer. *)
Theorem record_is_read_back answer pid sec usec stat tdev f1 f2 f3 f4 :
  0 < pid < 2 ^ 31 -> - 2 ^ 63 <= sec < 2 ^ 63 -> - 2 ^ 31 <= usec < 2 ^ 31 -> - 2 ^ 31 <= tdev < 2 ^ 31 -> 0 <= stat < 256 ->
  length f1 = 24%nat -> length f2 = 3%nat -> length f3 = 528%nat -> length f4 = 72%nat ->
  answer pid = mkSysctl 0 KINFO_PROC_SIZE (kinfo sec usec stat pid tdev f1 f2 f3 f4) ->
  zlen (kinfo sec usec stat pid tdev f1 f2 f3 f4) = KINFO_PROC_SIZE /\
  mac_facts answer pid = Some (mkProcFacts pid (start_us_of sec usec) stat tdev).
Proof.
  intros Hp Hs Hu Ht Hst L1 L2 L3 L4 Ha. unfold kinfo in *.
  assert (W64 : forall n, 0 <= wrap 64 n < 256 ^ Z.of_nat 8) by (intros n; unfold wrap; change (256 ^ Z.of_nat 8) with (2 ^ 64); apply Z.mod_pos_bound; lia).
  assert (W32 : forall n, 0 <= wrap 32 n < 256 ^ Z.of_nat 4) by (intros n; unfold wrap; change (256 ^ Z.of_nat 4) with (2 ^ 32); apply Z.mod_pos_bound; lia).
  split; [unfold zlen; rewrite !length_app, !length_to_le_bytes, L1, L2, L3, L4; reflexivity|].
  unfold mac_facts. rewrite (proj2 (Z.leb_gt pid 0)) by lia. rewrite Ha. cbn [Z.eqb KINFO_PROC_SIZE negb orb].
  set (a := to_le_bytes 8 (wrap 64 sec)). set (b := to_le_bytes 4 (wrap 32 usec)). set (c := to_le_bytes 4 (wrap 32 pid)).
  set (d := to_le_bytes 4 (wrap 32 tdev)).
  assert (La : length a = 8%nat) by apply length_to_le_bytes. assert (Lb : length b = 4%nat) by apply length_to_le_bytes.
  assert (Lc : length c = 4%nat) by apply length_to_le_bytes.
  do 2 f_equal.
  - unfold rd32. rewrite <- (signed_wrap 32 pid) by lia. f_equal.
    replace (a ++ b ++ f1 ++ [stat] ++ f2 ++ c ++ f3 ++ d ++ f4) with ((a ++ b ++ f1 ++ [stat] ++ f2) ++ c ++ f3 ++ d ++ f4)
      by by rewrite <- !app_assoc.
    apply (read_field (n := 4)); [apply W32|]. unfold zlen. rewrite !length_app, La, Lb, L1, L2. reflexivity.
  - f_equal.
    + unfold rd64. rewrite <- (signed_wrap 64 sec) by lia. f_equal.
      apply (read_field (n := 8) _ []); [apply W64|done].
    + unfold rd32. rewrite <- (signed_wrap 32 usec) by lia. f_equal.
      apply (read_field (n := 4) _ a); [apply W32|]. unfold zlen. by rewrite La.
  - unfold byte_at. replace (Z.to_nat OFF_P_STAT) with (length (a ++ b ++ f1)) by (rewrite !length_app, La, Lb, L1; reflexivity).
    replace (a ++ b ++ f1 ++ [stat] ++ f2 ++ c ++ f3 ++ d ++ f4) with ((a ++ b ++ f1) ++ stat :: f2 ++ c ++ f3 ++ d ++ f4)
      by by rewrite <- !app_assoc. by apply nth_middle.
  - unfold rd32. rewrite <- (signed_wrap 32 tdev) by lia. f_equal.
    replace (a ++ b ++ f1 ++ [stat] ++ f2 ++ c ++ f3 ++ d ++ f4) with ((a ++ b ++ f1 ++ [stat] ++ f2 ++ c ++ f3) ++ d ++ f4)
      by by rewrite <- !app_assoc.
    apply (read_field (n := 4)); [apply W32|]. unfold zlen. rewrite !length_app, La, Lb, Lc, L1, L2, L3. reflexivity.
Qed.

(** The start of a process is an identity: no two moments are one. *)
Lemma start_is_identity sec usec sec' usec' :
  0 <= sec < 2 ^ 43 -> 0 <= usec < 1000000 -> 0 <= sec' < 2 ^ 43 -> 0 <= usec' < 1000000 ->
  start_us_of sec usec = start_us_of sec' usec' -> sec = sec' /\ usec = usec'.
Proof.
  intros Hs Hu Hs' Hu'. unfold start_us_of.
  assert (E : forall s u, 0 <= s < 2 ^ 43 -> 0 <= u < 1000000 ->
    wrap 64 (wrap 64 (wrap 64 s * 1000000) + wrap 64 u) = s * 1000000 + u).
  { intros s u Hs1 Hu1. rewrite (wrap_small 64 s), (wrap_small 64 u), (wrap_small 64 (s * 1000000)) by lia.
    apply wrap_small. lia. }
  rewrite !E by done. lia.
Qed.

(** A process that is not there is no zeroed process, and what is not asked for is
    not answered. *)
Lemma dead_is_none answer pid : pid <= 0 \/ sy_rc (answer pid) <> 0 \/ sy_size (answer pid) = 0 -> mac_facts answer pid = None.
Proof.
  intros Hd. unfold mac_facts. destruct (Z.leb_spec pid 0); [done|]. destruct (answer pid) as [rc size buf]; cbn in Hd.
  destruct (Z.eqb_spec rc 0), (Z.eqb_spec size 0); cbn; try done. lia.
Qed.

Lemma peer_is_positive asked pid : peer_pid asked = Some pid -> 0 < pid.
Proof.
  unfold peer_pid. destruct asked as [[rc p]|]; [|done]. cbn. destruct (negb _); [done|]. cbn.
  destruct (Z.leb_spec p 0); [done|]. by intros [= <-].
Qed.

(** A secret that is written anew is for its owner alone; one whose file is there
    already, readable by everyone, stays readable. *)
Lemma fresh_secret_is_private (path contents : bytes) (fs : gmap bytes (Z * bytes)) :
  fs !! path = None -> write_secret_file path contents fs !! path = Some (384, contents).
Proof. intros Hn. unfold write_secret_file. by rewrite Hn, lookup_insert_eq. Qed.
Example old_mode_stays :
  write_secret_file (str "token") (str "secret") {[str "token" := (420, str "old")]} !! str "token" = Some (420, str "secret").
Proof. vm_compute. reflexivity. Qed.

Example linux_fields_are_found :
  start_ticks_field (str "7 (a) b) S 1 2 3 4 5 6 7 8 9 10 11 12 13 14 15 16 17 18 4242 20") = Some (str "4242") /\
  read_btime (Some (str "cpu 1" ++ [10] ++ str "btime 1700000000" ++ [10])) = Some 1700000000.
Proof. split; vm_compute; reflexivity. Qed.
