(* ===== verification/Remotes.v ===== *)
(** Remotes and pull requests (grove-core/src/git_project.rs): git URLs, the
    branch names that are accepted, the words quoted for a shell, and the choice
    of the pull request of a branch from what gh and git print. The commands
    themselves, and libgit2's object ids, are arguments. *)

From S2P Require Import Prelude Utf8 Text Json.

#[local] Open Scope rust_scope.

Definition SLASH : Z := 47.
Definition GIT_SUFFIX : bytes := str ".git".

(** * URLs *)

Definition parse_git_url (url : bytes) : result (bytes * bytes * bytes) bytes :=
  match strip_prefix (str "git@") url with
  | Some rest =>
      match split_once (str ":") rest with
      | None => Err (str "Invalid SSH URL: " ++ url)
      | Some (host, path) =>
          let path := trim_end_matches GIT_SUFFIX path in
          match split_on SLASH path with
          | org :: repo :: _ => Ok (host, org, repo)
          | _ => Err (str "Invalid URL path: " ++ path)
          end
      end
  | None =>
      let url_str := trim_end_matches GIT_SUFFIX url in
      match (match strip_prefix (str "https://") url_str with
             | Some rest => Some rest
             | None => strip_prefix (str "http://") url_str
             end) with
      | None => Err (str "Unsupported URL format: " ++ url)
      | Some without_protocol =>
          match split_on SLASH without_protocol with
          | host :: org :: repo :: _ => Ok (host, org, repo)
          | _ => Err (str "Invalid URL — expected host/org/repo: " ++ url)
          end
      end
  end.

Definition is_github_host (host : bytes) : bool :=
  let normalized := ascii_lower (trim host) in
  bytes_eqb normalized (str "github.com") || contains (str "github") normalized.

Definition github_remote (url : bytes) : option (bytes * bytes * bytes) :=
  match parse_git_url url with
  | Ok (host, org, repo) => if is_github_host host then Some (host, org, repo) else None
  | Err _ => None
  end.

Definition canonical_pull_request_url (host org repo : bytes) (number : Z) : bytes :=
  str "https://" ++ host ++ str "/" ++ org ++ str "/" ++ repo ++ str "/pull/" ++ show_dec number.

Definition github_repo_selector (host org repo : bytes) : bytes :=
  if eq_ignore_ascii_case host (str "github.com") then org ++ str "/" ++ repo
  else host ++ str "/" ++ org ++ str "/" ++ repo.

Definition github_token_override_env (org : bytes) : option bytes :=
  if bytes_eqb org (str "sendbird") then Some (str "GH_TOKEN_SENDBIRD")
  else if bytes_eqb org (str "sendbird-playground") then Some (str "GH_TOKEN_SENDBIRD_PLAYGROUND")
  else if bytes_eqb org (str "rich-automation") then Some (str "GH_TOKEN_RICH_AUTOMATION")
  else None.

Definition normalize_source_path (path : bytes) : bytes := trim_end_matches (str "/") path.
Definition normalize_project_url (url : bytes) : bytes :=
  trim_end_matches GIT_SUFFIX (trim_end_matches (str "/") url).

(** * Branch names *)

Definition char_in (c : Z) (s : bytes) : bool := bool_decide (c ∈ s).

Definition validate_branch_name (name : bytes) : result unit bytes :=
  let invalid := Err (str "Invalid branch name: " ++ name) in
  if bool_decide (name = []) then Err (str "Branch name cannot be empty")
  else if starts_with (str "/") name || ends_with (str "/") name || contains (str "//") name then invalid
  else if starts_with (str "-") name || starts_with (str ".") name then invalid
  else if contains (str "..") name
       || existsb (fun c => contains c name)
            [str " "; str "~"; str "^"; str ":"; str "\"; str "*"; str "?"; str "["]
       || ends_with (str ".") name || ends_with (str ".lock") name then invalid
  else Ok tt.

(** A branch and a directory of branches cannot have one name. *)
Definition prefix_conflict (requested branch : bytes) : bool :=
  negb (bytes_eqb branch requested) &&
  (starts_with (branch ++ str "/") requested || starts_with (requested ++ str "/") branch).

Definition find_branch_prefix_conflict (branches : list bytes) (requested : bytes) : option bytes :=
  snd <$> list_find (fun b => prefix_conflict requested b = true) branches.

Definition format_branch_prefix_conflict (requested conflicting : bytes) : bytes :=
  str "Cannot create branch '" ++ requested ++ str "' because branch '" ++ conflicting ++
  str "' already exists. Git cannot keep both '" ++ requested ++ str "' and '" ++ conflicting ++
  str "' because one name is a prefix of the other. Use a different branch name, or rename/delete the existing branch.".

Definition parse_branch_prefix_conflict_from_git_error (err : bytes) : option bytes :=
  let after marker s := (fun k => drop (k + length marker) s) <$> find marker s in
  let upto marker s := (fun k => take k s) <$> find marker s in
  requested ← after (str "cannot create 'refs/heads/") err ≫= upto (str "'");
  existing ← after (str "'refs/heads/") err ≫= upto (str "' exists;");
  if bytes_eqb requested existing then None
  else if starts_with (existing ++ str "/") requested || starts_with (requested ++ str "/") existing
  then Some existing else None.

Definition humanize_worktree_add_error (branch_name err : bytes) : bytes :=
  match parse_branch_prefix_conflict_from_git_error err with
  | Some conflicting => format_branch_prefix_conflict branch_name conflicting
  | None => err
  end.

(** The names in the output of [for-each-ref]. *)
Definition local_branch_lines (output : bytes) : list bytes :=
  filter (fun l => l <> []) (trim <$> str_lines output).
Definition remote_branch_lines (output : bytes) : list bytes :=
  filter (fun l => l <> str "HEAD") (omap (strip_prefix (str "origin/")) (local_branch_lines output)).

(** * Shell words *)

Definition QUOTE : Z := 39.
Definition DQUOTE : Z := 34.
(** ['"'"'], for a single quote inside single quotes. *)
Definition quoted_quote : bytes := [QUOTE; DQUOTE; QUOTE; DQUOTE; QUOTE].
Definition shell_quote (value : bytes) : bytes :=
  [QUOTE] ++ concat ((fun c => if c =? QUOTE then quoted_quote else [c]) <$> value) ++ [QUOTE].

(** * Pull requests *)

Inductive WorktreePullRequestStatus := Open | Merged | Unknown.
Record WorktreePullRequest := mkWorktreePullRequest { pr_url : bytes; pr_status : WorktreePullRequestStatus }.

Record GithubPullRequestSummary := mkGithubPullRequestSummary {
  gh_url : bytes;
  gh_state : bytes;
  head_ref_name : bytes;
  head_ref_oid : bytes;
  merged_at : option bytes;
  updated_at : bytes
}.

(** serde's reading of one element, and of the list. *)
Definition summary_of (v : Value) : option GithubPullRequestSummary :=
  url ← get "url" v ≫= as_str; state ← get "state" v ≫= as_str;
  name ← get "headRefName" v ≫= as_str; oid ← get "headRefOid" v ≫= as_str;
  merged ← opt_field "mergedAt" as_str v; updated ← get "updatedAt" v ≫= as_str;
  Some (mkGithubPullRequestSummary url state name oid merged updated).
Definition summaries_of (v : Value) : option (list GithubPullRequestSummary) :=
  as_array v ≫= mapM summary_of.

Definition pull_request_status_from_github_summary (p : GithubPullRequestSummary) :
    option WorktreePullRequestStatus :=
  if eq_ignore_ascii_case (gh_state p) (str "open") then Some Open
  else match merged_at p with Some _ => Some Merged | None => None end.

(** Tuples compare by their first difference; [false] is before [true]. *)
Definition priority := (bool * bool * bytes)%type.
Definition priority_ltb (p q : priority) : bool :=
  let '(o, h, t) := p in
  let '(o', h', t') := q in
  (negb o && o') || (bool_decide (o = o') &&
    ((negb h && h') || (bool_decide (h = h') && bytes_ltb t t'))).

(** [max_by_key]: the last one of those with the greatest key. *)
Definition later_max {A} (best : option (priority * A)) (x : priority * A) : option (priority * A) :=
  match best with
  | Some b => if priority_ltb x.1 b.1 then best else Some x
  | None => Some x
  end.
Definition max_by_key {A} (l : list (priority * A)) : option (priority * A) := foldl later_max None l.

Section oid.
Context {Oid : Type} `{EqDecision Oid} (oid_from_str : bytes -> option Oid) (oid_to_string : Oid -> bytes).

Record PullRequestHeadRef := mkPullRequestHeadRef { number : Z; oid : Oid }.

Definition parse_pull_request_head_ref (line : bytes) : option PullRequestHeadRef :=
  match split_whitespace line with
  | first :: rest =>
      oid ← oid_from_str first;
      ref_name ← head rest;
      number ← (strip_prefix (str "refs/pull/") ref_name ≫= strip_suffix (str "/head")) ≫= parse_u64;
      Some (mkPullRequestHeadRef number oid)
  | [] => None
  end.

Definition parse_pull_request_head_refs (output : bytes) : list PullRequestHeadRef :=
  omap parse_pull_request_head_ref (str_lines output).

Definition find_pull_request_number_for_head (refs : list PullRequestHeadRef) (head_oid : Oid) : option Z :=
  (fun r => number r.2) <$> list_find (fun r => oid r = head_oid) refs.

Definition candidate (branch_name head_oid : bytes) (p : GithubPullRequestSummary) :
    option (priority * WorktreePullRequest) :=
  if bytes_eqb (head_ref_name p) branch_name then
    (fun status =>
       ((match status with Open => true | _ => false end,
         eq_ignore_ascii_case (head_ref_oid p) head_oid, updated_at p),
        mkWorktreePullRequest (gh_url p) status)) <$> pull_request_status_from_github_summary p
  else None.

Definition select_github_pull_request (pull_requests : list GithubPullRequestSummary)
    (branch_name : bytes) (head_oid : Oid) : option WorktreePullRequest :=
  snd <$> max_by_key (omap (candidate branch_name (oid_to_string head_oid)) pull_requests).

(** ** [get_worktree_pr_url_impl] *)

(** The head of the repository. *)
Record Head := mkHead { shorthand : option bytes; is_branch : bool; commit : option Oid }.

(** What gh, once as a command and once through a shell, and git ls-remote, in the
    same two ways, print, if they succeed. *)
Record PrWorld := mkPrWorld {
  pw_repo : bool;
  pw_head : option Head;
  pw_remote_url : option bytes;
  pw_gh_cli : option Value;
  pw_gh_shell : option Value;
  pw_ls_remote : option bytes;
  pw_ls_remote_shell : option bytes
}.

Definition first_some {A} (a b : option A) : option A := match a with Some _ => a | None => b end.

(** The error texts are left out. *)
Definition get_worktree_pr_url_impl (w : PrWorld) : result (option WorktreePullRequest) unit :=
  if negb (pw_repo w) then Err tt
  else
    match pw_head w with
    | None => Err tt
    | Some h =>
        match shorthand h with
        | None | Some [] => Ok None
        | Some branch_name =>
            if negb (is_branch h) then Ok None
            else
              match commit h, pw_remote_url w with
              | None, _ | _, None => Err tt
              | Some head_oid, Some remote_url =>
                  match github_remote remote_url with
                  | None => Ok None
                  | Some (host, org, repo_name) =>
                      match first_some (pw_gh_cli w ≫= summaries_of) (pw_gh_shell w ≫= summaries_of) with
                      | Some prs => Ok (select_github_pull_request prs branch_name head_oid)
                      | None =>
                          match first_some (pw_ls_remote w) (pw_ls_remote_shell w) with
                          | None => Ok None
                          | Some out =>
                              Ok ((fun n => mkWorktreePullRequest
                                     (canonical_pull_request_url host org repo_name n) Unknown) <$>
                                  find_pull_request_number_for_head (parse_pull_request_head_refs out) head_oid)
                          end
                      end
                  end
              end
        end
    end.
End oid.

(** * URLs: one repository under four names *)

Definition segment (s : bytes) : Prop := SLASH ∉ s.

Lemma git_suffix_sep a b : ends_with GIT_SUFFIX (a ++ SLASH :: b) = ends_with GIT_SUFFIX b.
Proof. apply ends_with_sep. unfold GIT_SUFFIX, SLASH. vm_compute. intros H. repeat (apply elem_of_cons in H as [?|H]; [done|]). by apply elem_of_nil in H. Qed.

(** The two ways to write the end of a URL. *)
Lemma trim_git a repo tail :
  ends_with GIT_SUFFIX repo = false -> tail = [] \/ tail = GIT_SUFFIX ->
  trim_end_matches GIT_SUFFIX (a ++ SLASH :: repo ++ tail) = a ++ SLASH :: repo.
Proof.
  intros Hr Ht.
  assert (E : trim_end_matches GIT_SUFFIX (a ++ SLASH :: repo) = a ++ SLASH :: repo)
    by (apply trim_end_none; by rewrite git_suffix_sep).
  destruct Ht as [-> | ->]; [by rewrite app_nil_r|].
  replace (a ++ SLASH :: repo ++ GIT_SUFFIX) with ((a ++ SLASH :: repo) ++ GIT_SUFFIX) by by rewrite <- app_assoc.
  by rewrite trim_end_app.
Qed.

(** The https, http and ssh URLs of a repository, with and without the
    [.git] at the end, name the same host, organisation and repository. *)
Theorem git_urls_agree host org repo tail :
  segment host -> segment org -> segment repo -> 58 ∉ host ->
  ends_with GIT_SUFFIX repo = false -> tail = [] \/ tail = GIT_SUFFIX ->
  Forall (fun url => parse_git_url url = Ok (host, org, repo))
    [str "https://" ++ host ++ str "/" ++ org ++ str "/" ++ repo ++ tail;
     str "http://" ++ host ++ str "/" ++ org ++ str "/" ++ repo ++ tail;
     str "git@" ++ host ++ str ":" ++ org ++ str "/" ++ repo ++ tail].
Proof.
  intros Hh Ho Hr Hc Hg Ht. change (str "/") with [SLASH]. change (str ":") with [58].
  assert (Hs : split_on SLASH (host ++ SLASH :: org ++ SLASH :: repo) = [host; org; repo])
    by (rewrite !split_on_sep, split_on_piece; done).
  assert (Hw : forall p, trim_end_matches GIT_SUFFIX (p ++ host ++ [SLASH] ++ org ++ [SLASH] ++ repo ++ tail) =
    p ++ host ++ SLASH :: org ++ SLASH :: repo).
  { intros p. replace (p ++ host ++ [SLASH] ++ org ++ [SLASH] ++ repo ++ tail)
      with ((p ++ host ++ SLASH :: org) ++ SLASH :: repo ++ tail) by (by rewrite <- !app_assoc).
    rewrite trim_git by done. by rewrite <- !app_assoc. }
  repeat constructor; unfold parse_git_url.
  - assert (strip_prefix (str "git@") (str "https://" ++ host ++ [SLASH] ++ org ++ [SLASH] ++ repo ++ tail) = None) as -> by done.
    rewrite Hw. rewrite (proj2 (strip_prefix_Some (str "https://") _ _) eq_refl), Hs. done.
  - assert (strip_prefix (str "git@") (str "http://" ++ host ++ [SLASH] ++ org ++ [SLASH] ++ repo ++ tail) = None) as -> by done.
    rewrite Hw. assert (strip_prefix (str "https://") (str "http://" ++ host ++ SLASH :: org ++ SLASH :: repo) = None) as -> by done.
    rewrite (proj2 (strip_prefix_Some (str "http://") _ _) eq_refl), Hs. done.
  - rewrite (proj2 (strip_prefix_Some (str "git@") _ _) eq_refl). cbn [app].
    change (str ":") with [58]. rewrite split_once_first by done.
    rewrite (trim_git org repo tail Hg Ht). rewrite split_on_sep, split_on_piece by done. done.
Qed.

Lemma git_urls_agree_witness :
  parse_git_url (str "git@github.com:bang9/ai-tools.git") =
    Ok (str "github.com", str "bang9", str "ai-tools").
Proof.
  assert (Hn : forall l : bytes, bool_decide (SLASH ∈ l) = false -> segment l)
    by (intros l H; by apply bool_decide_eq_false_1 in H).
  assert (Hc : 58 ∉ str "github.com") by (apply (bool_decide_unpack (58 ∉ str "github.com")); vm_compute; exact I).
  pose proof (git_urls_agree (str "github.com") (str "bang9") (str "ai-tools") GIT_SUFFIX
    (Hn (str "github.com") eq_refl) (Hn (str "bang9") eq_refl) (Hn (str "ai-tools") eq_refl) Hc eq_refl (or_intror eq_refl)) as H.
  apply Forall_cons in H as [_ H]. apply Forall_cons in H as [_ H]. apply Forall_cons in H as [H _]. exact H.
Defined.

(** The parts of a URL that parses: none has a slash, but the host of the ssh form. *)
Lemma parse_git_url_segments url host org repo :
  parse_git_url url = Ok (host, org, repo) -> segment org /\ segment repo.
Proof.
  unfold parse_git_url. destruct (strip_prefix (str "git@") url) as [rest|].
  - destruct (split_once _ _) as [[h p]|]; [|done].
    pose proof (split_on_pieces SLASH (trim_end_matches GIT_SUFFIX p)) as Hp.
    destruct (split_on _ _) as [|a [|b l]]; try done. intros [= _ <- <-].
    apply Forall_cons in Hp as [? Hp]. by apply Forall_cons in Hp as [? _].
  - destruct (match strip_prefix (str "https://") _ with Some r => Some r | None => _ end) as [r|]; [|done].
    pose proof (split_on_pieces SLASH r) as Hp.
    destruct (split_on _ _) as [|a [|b [|c l]]]; try done. intros [= _ <- <-].
    apply Forall_cons in Hp as [_ Hp]. apply Forall_cons in Hp as [? Hp]. by apply Forall_cons in Hp as [? _].
Qed.

(** * Branch names *)

(** Where a component is in the path. *)
Lemma elem_of_join c l :
  c ∈ l -> exists a b, join [SLASH] l = a ++ c ++ b /\ (a = [] \/ exists a', a = a' ++ [SLASH]) /\
    (b = [] \/ exists b', b = SLASH :: b').
Proof.
  induction l as [|p l IH]; [by intros ?%elem_of_nil|]. intros [->|Hc]%elem_of_cons.
  - destruct l as [|q l]; [exists [], []; rewrite app_nil_r; auto|]. rewrite join_cons by done.
    exists [], (SLASH :: join [SLASH] (q :: l)). split; [done|]. eauto.
  - destruct l as [|q l]; [by apply elem_of_nil in Hc|]. rewrite join_cons by done.
    destruct (IH Hc) as (a & b & -> & Ha & Hb). exists (p ++ [SLASH] ++ a), b.
    rewrite <- !app_assoc. split_and!; [done| |done]. right.
    destruct Ha as [->|[a' ->]]; [exists p; done|]. exists (p ++ [SLASH] ++ a'). by rewrite <- !app_assoc.
Qed.

(** The name of a worktree that is accepted stays below the directory it is
    joined to: it is relative, and none of its components is empty or goes up. *)
Theorem accepted_name_descends name :
  validate_branch_name name = Ok tt ->
  Forall (fun c => c <> [] /\ c <> str "..") (split_on SLASH name).
Proof.
  unfold validate_branch_name. destruct (bool_decide_reflect (name = [])) as [|Hne]; [done|].
  destruct (starts_with (str "/") name || ends_with (str "/") name || contains (str "//") name) eqn:E1; [done|].
  apply orb_false_iff in E1 as [[Hs He]%orb_false_iff Hd].
  destruct (starts_with (str "-") name || _); [done|].
  destruct (contains (str "..") name) eqn:Eu; [done|]. intros _.
  apply Forall_forall. intros c Hc.
  destruct (elem_of_join c (split_on SLASH name) Hc) as (a & b & Hn & Ha & Hb).
  rewrite join_split in Hn. subst name. split; intros ->.
  - destruct Ha as [->|[a' ->]].
    + destruct Hb as [->|[b' ->]]; [done|]. cbn in Hs. done.
    + destruct Hb as [->|[b' ->]].
      * rewrite <- not_true_iff_false in He. apply He, ends_with_iff. exists a'. by rewrite !app_nil_r.
      * rewrite <- not_true_iff_false in Hd. apply Hd, contains_iff. exists a', b'. by rewrite <- app_assoc.
  - rewrite <- not_true_iff_false in Eu. apply Eu, contains_iff. by exists a, b.
Qed.

Lemma accepted_name_descends_witness :
  validate_branch_name (str "feat/new-pane") = Ok tt /\
  Forall (fun c => c <> [] /\ c <> str "..") [str "feat"; str "new-pane"].
Proof. split; [vm_compute; reflexivity|]. exact (accepted_name_descends (str "feat/new-pane") eq_refl). Defined.

(** A name is, by its components, strictly below another. *)
Definition below (a b : bytes) : Prop :=
  exists rest, rest <> [] /\ split_on SLASH b = split_on SLASH a ++ rest.

Lemma starts_with_below a b : starts_with (a ++ str "/") b = true <-> below a b.
Proof.
  rewrite starts_with_iff. unfold below. split.
  - intros [r ->]. rewrite <- app_assoc. exists (split_on SLASH r).
    split; [apply split_on_nonempty|]. apply split_on_app_sep.
  - intros (rest & Hne & E). exists (join [SLASH] rest). rewrite <- (join_split SLASH b), E.
    rewrite join_app, join_split by (done || apply split_on_nonempty). by rewrite <- app_assoc.
Qed.

(** The branch reported as a conflict is the first one that is strictly
    above or below the requested name, component by component; none is reported
    exactly when there is none. *)
Theorem prefix_conflict_is_nesting branches requested :
  match find_branch_prefix_conflict branches requested with
  | Some b => exists before after, branches = before ++ b :: after /\ (below b requested \/ below requested b) /\
      Forall (fun x => ~ below x requested /\ ~ below requested x) before
  | None => Forall (fun x => ~ below x requested /\ ~ below requested x) branches
  end.
Proof.
  assert (Hirr : forall x, ~ below x x).
  { intros x (rest & Hne & E). apply (f_equal length) in E. rewrite length_app in E. by destruct rest; [|cbn in E; lia]. }
  assert (Hc : forall x, prefix_conflict requested x = true <-> below x requested \/ below requested x).
  { intros x. unfold prefix_conflict. rewrite andb_true_iff, orb_true_iff, !starts_with_below, negb_true_iff.
    split; [tauto|]. intros Hb. split; [|done]. apply bytes_eqb_ne. intros ->. destruct Hb; by apply (Hirr requested). }
  unfold find_branch_prefix_conflict. destruct (list_find _ branches) as [[i b]|] eqn:E; cbn.
  - apply list_find_Some in E as (Hi & Hb & Hbefore). apply Hc in Hb.
    exists (take i branches), (drop (S i) branches). split_and!; [by rewrite take_drop_middle|done|].
    apply Forall_forall. intros x Hx. apply list_elem_of_lookup in Hx as [j Hj].
    apply lookup_take_Some in Hj as [Hj Hlt]. pose proof (Hbefore j x Hj Hlt) as Hn. rewrite Hc in Hn. tauto.
  - apply list_find_None in E. eapply Forall_impl; [exact E|]. intros x Hx. cbn in Hx. rewrite Hc in Hx. tauto.
Qed.

(** * Shell words *)

(** How a POSIX shell reads one word without expansions: plain, inside single
    quotes, inside double quotes. *)
Definition BACKSLASH : Z := 92.
Inductive quoting := Plain | Single | Double.
Definition ends_word (c : Z) : bool := bool_decide (c ∈ str " ;&|<>()" ++ [9; 10]).
Definition expands (c : Z) : bool := bool_decide (c ∈ str "$`\*?[#~=%!{}").

Fixpoint sh_word (q : quoting) (s : bytes) : option (bytes * bytes) :=
  match s with
  | [] => match q with Plain => Some ([], []) | _ => None end
  | c :: t =>
      match q with
      | Plain =>
          if ends_word c then Some ([], s)
          else if c =? QUOTE then sh_word Single t
          else if c =? DQUOTE then sh_word Double t
          else if c =? BACKSLASH then
            match t with
            | x :: t => if x =? LF then None else prod_map (cons x) id <$> sh_word Plain t
            | [] => None
            end
          else if expands c then None
          else prod_map (cons c) id <$> sh_word Plain t
      | Single => if c =? QUOTE then sh_word Plain t else prod_map (cons c) id <$> sh_word Single t
      | Double =>
          if c =? DQUOTE then sh_word Plain t
          else if expands c then None
          else prod_map (cons c) id <$> sh_word Double t
      end
  end.

(** A quoted value is one shell word, whose value it is: whatever it
    contains, nothing of it is expanded, ends the word or starts another. *)
Theorem shell_quote_is_one_word value rest :
  match rest with [] => True | c :: _ => ends_word c = true end ->
  sh_word Plain (shell_quote value ++ rest) = Some (value, rest).
Proof.
  intros Hr. unfold shell_quote. cbn [app sh_word]. change (ends_word QUOTE) with false. change (QUOTE =? QUOTE) with true.
  cbn match. rewrite <- app_assoc. induction value as [|c value IH].
  - cbn [fmap list_fmap concat app sh_word]. change (QUOTE =? QUOTE) with true. cbn match.
    destruct rest as [|c rest]; [done|]. cbn [sh_word]. by rewrite Hr.
  - rewrite fmap_cons. cbn [concat]. rewrite <- app_assoc. destruct (Z.eqb_spec c QUOTE) as [->|Hc].
    + assert (Hq : forall t, sh_word Single (quoted_quote ++ t) = prod_map (cons QUOTE) id <$> sh_word Single t) by done.
      rewrite Hq. exact (f_equal (fmap (M := option) (prod_map (cons QUOTE) id)) IH).
    + cbn [app sh_word]. rewrite (proj2 (Z.eqb_neq c QUOTE) Hc).
      exact (f_equal (fmap (M := option) (prod_map (cons c) id)) IH).
Qed.

Lemma shell_quote_is_one_word_witness :
  sh_word Plain (shell_quote (str "it's; rm -rf $HOME") ++ str " --web") =
    Some (str "it's; rm -rf $HOME", str " --web").
Proof. apply (shell_quote_is_one_word (str "it's; rm -rf $HOME") (str " --web")). vm_compute. reflexivity. Defined.

(** * Pull requests *)

Section priority.
Lemma bytes_ltb_negtrans x y z : bytes_ltb x y = false -> bytes_ltb y z = false -> bytes_ltb x z = false.
Proof.
  intros H1 H2. destruct (bytes_ltb x z) eqn:E; [|done]. destruct (bytes_ltb y x) eqn:E1.
  - pose proof (@ltb_trans _ bytes_order y x z E1 E) as Ht. cbn in Ht. congruence.
  - pose proof (@ltb_total _ bytes_order x y H1 E1) as ->. congruence.
Qed.

Lemma priority_ltb_irrefl p : priority_ltb p p = false.
Proof. destruct p as [[[] []] t]; cbn; rewrite ?bool_decide_eq_true_2 by done; cbn; by rewrite bytes_ltb_irrefl. Qed.

(** "Not less" is transitive. *)
Lemma priority_ltb_negtrans p q r :
  priority_ltb p q = false -> priority_ltb q r = false -> priority_ltb p r = false.
Proof.
  destruct p as [[[] []] t], q as [[[] []] u], r as [[[] []] v]; cbn; try done;
    apply bytes_ltb_negtrans.
Qed.

Lemma max_by_key_spec {A} (l : list (priority * A)) :
  match max_by_key l with
  | Some b => b ∈ l /\ Forall (fun x => priority_ltb b.1 x.1 = false) l
  | None => l = []
  end.
Proof.
  unfold max_by_key.
  assert (Hg : forall best, match foldl later_max best l with
    | Some b => (best = Some b \/ b ∈ l) /\ Forall (fun x => priority_ltb b.1 x.1 = false) l /\
        (forall b0, best = Some b0 -> priority_ltb b.1 b0.1 = false)
    | None => l = [] /\ best = None
    end).
  { induction l as [|x l IH]; intros best; cbn [foldl].
    - destruct best as [b|]; [|done]. split_and!; [by left|constructor|]. intros b0 [= ->]. apply priority_ltb_irrefl.
    - specialize (IH (later_max best x)). destruct (foldl _ _ l) as [b|].
      + destruct IH as (Hin & Hall & Hbest). unfold later_max in *.
        destruct best as [b0|]; [destruct (priority_ltb x.1 b0.1) eqn:E|].
        * assert (Hb0 : priority_ltb b.1 b0.1 = false) by auto.
          split_and!; [destruct Hin; [by left|right; by apply list_elem_of_further]| |by intros ? [= <-]].
          constructor; [|done]. eapply priority_ltb_negtrans; [exact Hb0|].
          destruct (priority_ltb b0.1 x.1) eqn:E'; [|done].
          destruct b0 as [[[[] []] t] ?], x as [[[[] []] u] ?]; cbn in *; try done;
            pose proof (@ltb_trans _ bytes_order _ _ _ E E') as Ht; cbn in Ht; by rewrite bytes_ltb_irrefl in Ht.
        * assert (Hx : priority_ltb b.1 x.1 = false) by auto.
          split_and!; [destruct Hin as [[= ->]|]; right; [apply list_elem_of_here|by apply list_elem_of_further]|by constructor|].
          intros ? [= <-]. by eapply priority_ltb_negtrans.
        * assert (Hx : priority_ltb b.1 x.1 = false) by auto.
          split_and!; [destruct Hin as [[= ->]|]; right; [apply list_elem_of_here|by apply list_elem_of_further]|by constructor|done].
      + destruct IH as [_ IH]. unfold later_max in IH. destruct best; [by destruct (priority_ltb _ _)|done]. }
  specialize (Hg None). destruct (foldl _ None l) as [b|]; [|tauto].
  destruct Hg as ([?|?] & ? & _); done.
Qed.
End priority.

Section selection.
Context {Oid : Type} `{EqDecision Oid} (oid_from_str : bytes -> option Oid) (oid_to_string : Oid -> bytes).

Lemma candidate_Some branch oid p k pr :
  candidate branch oid p = Some (k, pr) <->
  exists st, head_ref_name p = branch /\ pull_request_status_from_github_summary p = Some st /\
    k = (match st with Open => true | _ => false end, eq_ignore_ascii_case (head_ref_oid p) oid, updated_at p) /\
    pr = mkWorktreePullRequest (gh_url p) st.
Proof.
  unfold candidate. destruct (bytes_eqb (head_ref_name p) branch) eqn:E.
  - apply bytes_eqb_eq in E. destruct (pull_request_status_from_github_summary p) as [st|]; cbn.
    + split; [intros [= <- <-]; eauto|intros (st' & _ & [= <-] & -> & ->); done].
    + split; [done|by intros (st & _ & ? & _)].
  - split; [done|]. intros (st & Hb & _). subst. by rewrite bytes_eqb_refl in E.
Qed.

(** The pull request shown for a branch is one of that branch, open or
    merged; an open one comes first, then one whose head is the commit checked
    out, then the one updated last. None is shown exactly when the branch has no
    open or merged pull request. *)
Theorem selected_pull_request_is_best prs branch (head_oid : Oid) :
  let key p st := (match st with Open => true | _ => false end,
    eq_ignore_ascii_case (head_ref_oid p) (oid_to_string head_oid), updated_at p) in
  let rival q st := q ∈ prs /\ head_ref_name q = branch /\ pull_request_status_from_github_summary q = Some st in
  match select_github_pull_request oid_to_string prs branch head_oid with
  | Some pr =>
      (exists p, rival p (pr_status pr) /\ pr_url pr = gh_url p /\
         forall q st, rival q st -> priority_ltb (key p (pr_status pr)) (key q st) = false) /\
      (forall q, rival q Open -> pr_status pr = Open)
  | None => forall q st, ~ rival q st
  end.
Proof.
  intros key rival. unfold select_github_pull_request.
  pose proof (max_by_key_spec (omap (candidate branch (oid_to_string head_oid)) prs)) as Hmax.
  destruct (max_by_key _) as [[k pr]|]; cbn.
  - destruct Hmax as [Hin Hall]. apply list_elem_of_omap in Hin as (p & Hp & Hc).
    apply candidate_Some in Hc as (st & Hb & Hs & -> & ->). cbn [pr_status pr_url].
    assert (Hbest : forall q st', rival q st' -> priority_ltb (key p st) (key q st') = false).
    { intros q st' (Hq & Hqb & Hqs). eapply (proj1 (Forall_forall _ _) Hall (key q st', mkWorktreePullRequest (gh_url q) st')).
      apply list_elem_of_omap. exists q. split; [done|]. apply candidate_Some. exists st'. done. }
    split; [exists p; split_and!; done|]. intros q Hq. specialize (Hbest q Open Hq). by destruct st.
  - intros q st (Hq & Hqb & Hqs).
    assert (Hin : (key q st, mkWorktreePullRequest (gh_url q) st) ∈
      omap (candidate branch (oid_to_string head_oid)) prs).
    { apply list_elem_of_omap. exists q. split; [done|]. apply candidate_Some. by exists st. }
    rewrite Hmax in Hin. by apply elem_of_nil in Hin.
Qed.
End selection.

(** * Examples *)

Module RemotesExamples.
Example other_hosts : github_remote (str "git@gitlab.com:a/b.git") = None /\
  github_remote (str "https://GitHub.example.org/a/b") = Some (str "GitHub.example.org", str "a", str "b").
Proof. split; vm_compute; reflexivity. Qed.

(** The components of a URL are not checked: these go up. *)
Example url_goes_up : parse_git_url (str "https://x/../..") = Ok (str "x", str "..", str "..").
Proof. vm_compute. reflexivity. Qed.

(** With a slash at the end the suffix stays. *)
Example trailing_slash_keeps_suffix :
  parse_git_url (str "https://github.com/a/b.git/") = Ok (str "github.com", str "a", str "b.git") /\
  normalize_project_url (str "https://github.com/a/b.git/") = str "https://github.com/a/b".
Proof. split; vm_compute; reflexivity. Qed.

(** What git prints names the requested branch first, and the parser then looks
    for the existing one in the wrong place. *)
Example git_error_is_not_recognised :
  parse_branch_prefix_conflict_from_git_error
    (str "fatal: cannot lock ref 'refs/heads/a/b': 'refs/heads/a' exists; cannot create 'refs/heads/a/b'") =
    None /\
  parse_branch_prefix_conflict_from_git_error
    (str "fatal: 'refs/heads/a' exists; cannot create 'refs/heads/a/b'") = Some (str "a").
Proof. split; vm_compute; reflexivity. Qed.

Example pull_ref : parse_pull_request_head_ref (Oid := bytes) Some (str "abc	refs/pull/12/head") =
  Some (mkPullRequestHeadRef 12 (str "abc")).
Proof. vm_compute. reflexivity. Qed.
End RemotesExamples.
