(* ===== verification/GithubCli.v ===== *)
(** The commands that find and open pull requests (grove-core/src/git_project.rs):
    their arguments and environment, the scripts for a login shell that stand in
    for them, and the creation of a pull request. What a program prints is an
    observation, as is the text of a JSON error. *)

From S2P Require Import Prelude Utf8 Text Json Remotes.

#[local] Open Scope rust_scope.

(** * Processes *)

(** A program to run: the variables that are set for it, and its directory when
    it is not the app's. *)
Record Proc := mkProc {
  pc_program : bytes;
  pc_env : list (bytes * bytes);
  pc_cwd : option bytes;
  pc_args : list bytes
}.
(** It does not start, or ends with success or not, and what it printed. *)
Inductive ProcOutput := NotStarted (e : bytes) | Ended (success : bool) (stdout stderr : bytes).

Definition SSH_GUARDS : bytes :=
  str "ssh -o BatchMode=yes -o ConnectTimeout=10 -o ServerAliveInterval=5 -o ServerAliveCountMax=3".
(** [inherited] says whether GIT_SSH_COMMAND is set for the app. *)
Definition git_command (pairs : list (bytes * bytes)) (inherited : bool) (cwd : option bytes) (args : list bytes) : Proc :=
  mkProc (str "git")
    (pairs ++ [(str "GIT_TERMINAL_PROMPT", str "0")] ++
     (if inherited then [] else [(str "GIT_SSH_COMMAND", SSH_GUARDS)])) cwd args.

Definition gh_command (pairs : list (bytes * bytes)) (preferred_env_var : bytes -> option bytes) (org : bytes)
    (cwd : option bytes) (args : list bytes) : Proc :=
  mkProc (str "gh")
    (pairs ++
     match github_token_override_env org ≫= preferred_env_var with
     | Some token => [(str "GH_TOKEN", token)]
     | None => []
     end) cwd args.

Definition pr_fields : bytes := str "url,state,headRefName,headRefOid,mergedAt,updatedAt".
Definition pr_list_args (repo_selector branch_name : bytes) : list bytes :=
  [str "pr"; str "list"; str "--repo"; repo_selector; str "--state"; str "all"; str "--head"; branch_name;
   str "--json"; pr_fields].
Definition pr_create_args (repo_selector branch_name : bytes) : list bytes :=
  [str "pr"; str "create"; str "--repo"; repo_selector; str "--head"; branch_name; str "--web"].

(** * Scripts *)

Definition gh_prefix (org : bytes) : bytes :=
  match github_token_override_env org with
  | Some token_env => str "GH_TOKEN=$" ++ token_env ++ str " "
  | None => []
  end.
Definition pr_list_body (repo_selector branch_name : bytes) : bytes :=
  str "gh pr list -R " ++ shell_quote repo_selector ++ str " --state all --head " ++ shell_quote branch_name ++
  str " --json " ++ pr_fields.
Definition pr_list_script (org repo_selector branch_name : bytes) : bytes :=
  gh_prefix org ++ pr_list_body repo_selector branch_name.

Definition pr_create_body (repo_selector branch_name : bytes) : bytes :=
  str "gh pr create -R " ++ shell_quote repo_selector ++ str " --head " ++ shell_quote branch_name ++ str " --web".
Definition cd_part (worktree : bytes) : bytes := str "cd " ++ shell_quote (from_utf8_lossy worktree) ++ str " && ".
Definition pr_create_script (worktree org repo_selector branch_name : bytes) : bytes :=
  cd_part worktree ++ gh_prefix org ++ pr_create_body repo_selector branch_name.

Definition ls_remote_script (worktree : bytes) : bytes :=
  str "git -C " ++ shell_quote (from_utf8_lossy worktree) ++ str " ls-remote origin " ++
  shell_quote (str "refs/pull/*/head").

(** * Running them *)

Section run.
Context `{JsonText} {Oid : Type} (oid_to_string : Oid -> bytes).
Context (pairs : list (bytes * bytes)) (preferred_env_var : bytes -> option bytes) (json_error : bytes).
Context (run : Proc -> ProcOutput) (interactive_shell_output : bytes -> result bytes bytes).

Definition summaries (what repo_selector text : bytes) : result (list GithubPullRequestSummary) bytes :=
  match from_str text ≫= summaries_of with
  | Some prs => Ok prs
  | None => Err (str "Failed to parse " ++ what ++ str " for " ++ repo_selector ++ str ": " ++ json_error)
  end.

Definition github_pull_request_via_cli (host org repo branch_name : bytes) (head_oid : Oid) :
    result (option WorktreePullRequest) bytes :=
  let repo_selector := github_repo_selector host org repo in
  match run (gh_command pairs preferred_env_var org None (pr_list_args repo_selector branch_name)) with
  | NotStarted e => Err (str "Failed to run gh pr list: " ++ e)
  | Ended false _ stderr => Err (str "gh pr list failed: " ++ trim (from_utf8_lossy stderr))
  | Ended true stdout _ =>
      let? prs := summaries (str "gh pr list output") repo_selector stdout in
      Ok (select_github_pull_request oid_to_string prs branch_name head_oid)
  end.

Definition github_pull_request_via_interactive_shell (host org repo branch_name : bytes) (head_oid : Oid) :
    result (option WorktreePullRequest) bytes :=
  let repo_selector := github_repo_selector host org repo in
  let? output := interactive_shell_output (pr_list_script org repo_selector branch_name) in
  let? prs := summaries (str "login-shell gh output") repo_selector output in
  Ok (select_github_pull_request oid_to_string prs branch_name head_oid).

Definition create_github_pull_request_via_cli (worktree host org repo branch_name : bytes) : result unit bytes :=
  let repo_selector := github_repo_selector host org repo in
  match run (gh_command pairs preferred_env_var org (Some worktree) (pr_create_args repo_selector branch_name)) with
  | NotStarted e => Err (str "Failed to run gh pr create: " ++ e)
  | Ended true _ _ => Ok tt
  | Ended false _ stderr => Err (str "gh pr create failed: " ++ trim (from_utf8_lossy stderr))
  end.

Definition create_github_pull_request_via_interactive_shell (worktree host org repo branch_name : bytes) :
    result unit bytes :=
  let? _ := interactive_shell_output (pr_create_script worktree org (github_repo_selector host org repo) branch_name) in
  Ok tt.

Definition git_ls_remote_pull_heads_via_interactive_shell (worktree : bytes) : result bytes bytes :=
  interactive_shell_output (ls_remote_script worktree).

(** What is found of the repository: [None] when HEAD cannot be read. *)
Record PrRepo := mkPrRepo {
  prr_head : result (option bytes * bool) bytes;   (* the shorthand, and whether HEAD is a branch *)
  prr_origin : option bytes;
  prr_any_remote : option bytes
}.

Definition create_worktree_pr_impl (worktree : bytes) (repo : result PrRepo bytes) : result unit bytes :=
  let detached := str "Cannot create a pull request for detached HEAD at " ++ worktree in
  match repo with
  | Err e => Err (str "Failed to open git repository for " ++ worktree ++ str ": " ++ e)
  | Ok r =>
      match prr_head r with
      | Err e => Err (str "Failed to read HEAD for " ++ worktree ++ str ": " ++ e)
      | Ok (None, _) | Ok (Some [], _) | Ok (_, false) => Err detached
      | Ok (Some branch_name, true) =>
          match first_some (prr_origin r) (prr_any_remote r) with
          | None => Err (str "No git remote URL found for " ++ worktree)
          | Some remote_url =>
              match github_remote remote_url with
              | None => Err (str "Pull request creation is only supported for GitHub remotes: " ++ remote_url)
              | Some (host, org, repo_name) =>
                  match create_github_pull_request_via_cli worktree host org repo_name branch_name with
                  | Ok _ => Ok tt
                  | Err _ => create_github_pull_request_via_interactive_shell worktree host org repo_name branch_name
                  end
              end
          end
      end
  end.
End run.

(** * How a shell reads a script *)

(** The commands of a list joined by [&&], each as its words. *)
Fixpoint sh_commands (fuel : nat) (s : bytes) (words : list bytes) : option (list (list bytes)) :=
  match fuel with
  | O => None
  | S fuel =>
      match s with
      | [] => Some [words]
      | c :: t =>
          if c =? 32 then sh_commands fuel t words
          else
            match s with
            | 38 :: 38 :: t => cons words <$> sh_commands fuel t []
            | _ => '(w, t) ← sh_word Plain s; sh_commands fuel t (words ++ [w])
            end
      end
  end.
Definition sh_read (s : bytes) : option (list (list bytes)) := sh_commands (S (length s)) s [].

(** A word that is written as it is. *)
Definition plain_form (w : bytes) : bool :=
  negb (bool_decide (w = [])) &&
  forallb (fun c => negb (ends_word c || (c =? QUOTE) || (c =? DQUOTE) || (c =? BACKSLASH) || expands c || (c =? 38))) w.

Lemma plain_word w rest :
  forallb (fun c => negb (ends_word c || (c =? QUOTE) || (c =? DQUOTE) || (c =? BACKSLASH) || expands c || (c =? 38))) w = true ->
  match rest with [] => True | c :: _ => ends_word c = true end ->
  sh_word Plain (w ++ rest) = Some (w, rest).
Proof.
  intros Hw Hr. induction w as [|c w IH].
  - destruct rest as [|c rest]; [done|]. cbn. by rewrite Hr.
  - cbn [forallb] in Hw. apply andb_true_iff in Hw as [Hc Hw]. apply negb_true_iff in Hc.
    repeat (apply orb_false_iff in Hc as [Hc ?]). cbn [app sh_word].
    repeat (match goal with E : _ = false |- _ => rewrite E; clear E end). rewrite IH by done. done.
Qed.

(** A script is its words, written plainly or quoted, with blanks between. *)
Inductive token := Plainly (w : bytes) | Quoted (v : bytes).
Definition token_text (t : token) : bytes := match t with Plainly w => w | Quoted v => shell_quote v end.
Definition token_word (t : token) : bytes := match t with Plainly w => w | Quoted v => v end.
Definition token_ok (t : token) : bool := match t with Plainly w => plain_form w | Quoted _ => true end.
Definition spell (ts : list token) : bytes := join [32] (token_text <$> ts).

Lemma token_starts t rest : token_ok t = true ->
  exists c u, token_text t ++ rest = c :: u /\ c <> 32 /\ c <> 38.
Proof.
  destruct t as [w|v]; cbn.
  - unfold plain_form. destruct w as [|c w]; [done|]. cbn [forallb app]. intros Hp. exists c, (w ++ rest).
    split_and!; [done| |]; intros ->; by vm_compute in Hp.
  - intros _. eexists _, _. split; [reflexivity|]. done.
Qed.

Lemma read_token t rest f ws :
  token_ok t = true -> match rest with [] => True | c :: _ => c = 32 end ->
  sh_commands (S f) (token_text t ++ rest) ws = sh_commands f rest (ws ++ [token_word t]).
Proof.
  intros Ht Hr. assert (He : match rest with [] => True | c :: _ => ends_word c = true end)
    by (destruct rest; [done|by subst]).
  assert (Hw : sh_word Plain (token_text t ++ rest) = Some (token_word t, rest)).
  { destruct t as [w|v]; cbn [token_text token_word]; [|by apply shell_quote_is_one_word].
    apply plain_word; [|done]. cbn in Ht. unfold plain_form in Ht. by apply andb_true_iff in Ht as [_ ?]. }
  destruct (token_starts t rest Ht) as (c & u & E & H1 & H2). rewrite E in *. cbn [sh_commands].
  rewrite (proj2 (Z.eqb_neq c 32) H1), Hw.
  destruct c as [|p|p]; try reflexivity. do 6 (destruct p as [p|p|]; try reflexivity). congruence.
Qed.

Lemma read_tokens ts : forall f ws rest,
  ts <> [] -> Forall (fun t => token_ok t = true) ts -> match rest with [] => True | c :: _ => c = 32 end ->
  sh_commands (2 * length ts - 1 + f) (spell ts ++ rest) ws = sh_commands f rest (ws ++ (token_word <$> ts)).
Proof.
  induction ts as [|t [|t' ts] IH]; [done| |]; intros f ws rest _ [Ht Hts]%Forall_cons Hr.
  - cbn. by apply read_token.
  - replace (2 * length (t :: t' :: ts) - 1 + f)%nat with (S (S (2 * length (t' :: ts) - 1 + f))) by (cbn; lia).
    change (spell (t :: t' :: ts)) with (token_text t ++ 32 :: spell (t' :: ts)).
    rewrite <- app_assoc. rewrite read_token by done. cbn [app].
    change (sh_commands (S (2 * length (t' :: ts) - 1 + f)) (32 :: spell (t' :: ts) ++ rest) (ws ++ [token_word t]))
      with (sh_commands (2 * length (t' :: ts) - 1 + f) (spell (t' :: ts) ++ rest) (ws ++ [token_word t])).
    rewrite IH by done. by rewrite <- app_assoc.
Qed.

Lemma token_text_length t : token_ok t = true -> (1 <= length (token_text t))%nat.
Proof. intros Ht. destruct (token_starts t [] Ht) as (c & u & E & _). rewrite app_nil_r in E. rewrite E. cbn. lia. Qed.
Lemma spell_length ts :
  Forall (fun t => token_ok t = true) ts -> (2 * length ts - 1 <= length (spell ts))%nat.
Proof.
  induction ts as [|t [|t' ts] IH]; intros Hts; [cbn; lia| |]; apply Forall_cons in Hts as [Ht Hts].
  - pose proof (token_text_length t Ht). cbn. lia.
  - specialize (IH Hts). change (spell (t :: t' :: ts)) with (token_text t ++ 32 :: spell (t' :: ts)).
    pose proof (token_text_length t Ht). rewrite length_app. cbn [length] in *. lia.
Qed.

Lemma read_spelled ts : ts <> [] -> Forall (fun t => token_ok t = true) ts -> sh_read (spell ts) = Some [token_word <$> ts].
Proof.
  intros Hne Hok. unfold sh_read. pose proof (spell_length ts Hok) as Hl.
  replace (S (length (spell ts))) with (2 * length ts - 1 + S (length (spell ts) - (2 * length ts - 1)))%nat by lia.
  rewrite <- (app_nil_r (spell ts)) at 2. rewrite read_tokens by done. reflexivity.
Qed.

(** Two commands joined. *)
Lemma read_joined ts ts' :
  ts <> [] -> ts' <> [] -> Forall (fun t => token_ok t = true) ts -> Forall (fun t => token_ok t = true) ts' ->
  sh_read (spell ts ++ str " && " ++ spell ts') = Some [token_word <$> ts; token_word <$> ts'].
Proof.
  intros Hn Hn' Ho Ho'. unfold sh_read. pose proof (spell_length ts Ho) as Hl. pose proof (spell_length ts' Ho') as Hl'.
  rewrite !length_app. change (length (str " && ")) with 4%nat.
  replace (S (length (spell ts) + (4 + length (spell ts'))))
    with (2 * length ts - 1 + S (S (S (2 * length ts' - 1 + S (length (spell ts) - (2 * length ts - 1) +
           (length (spell ts') - (2 * length ts' - 1)) + 1)))))%nat by lia.
  rewrite read_tokens by done. change (str " && " ++ spell ts') with (32 :: 38 :: 38 :: 32 :: spell ts').
  cbn [sh_commands Z.eqb Pos.eqb]. match goal with |- context [sh_commands (_ + ?f) (spell ts') []] =>
    pose proof (read_tokens ts' f [] [] Hn' Ho' I) as Hr end.
  rewrite app_nil_r in Hr. rewrite Hr. reflexivity.
Qed.

#[local] Abbreviation plainly l := (Plainly <$> (str <$> (l : list string))).



(** * The calls and the observations of [Remotes] *)

Section found.
Context `{JsonText} {Oid : Type} (oid_to_string : Oid -> bytes).
Context (pairs : list (bytes * bytes)) (preferred_env_var : bytes -> option bytes) (json_error : bytes).
Context (run : Proc -> ProcOutput) (interactive_shell_output : bytes -> result bytes bytes).

(** What the call and the script printed, if they ended well. *)
Definition gh_cli (org selector branch_name : bytes) : option Value :=
  match run (gh_command pairs preferred_env_var org None (pr_list_args selector branch_name)) with
  | Ended true stdout _ => from_str stdout
  | _ => None
  end.
Definition gh_shell (org selector branch_name : bytes) : option Value :=
  match interactive_shell_output (pr_list_script org selector branch_name) with
  | Ok out => from_str out
  | Err _ => None
  end.

(** The pull request that is found first by the call, then by the script, is what
    [get_worktree_pr_url_impl] selects from the two observations. *)
Theorem gh_answers_are_the_observations host org repo branch_name (head_oid : Oid) :
  let selector := github_repo_selector host org repo in
  match
    match github_pull_request_via_cli oid_to_string pairs preferred_env_var json_error run host org repo branch_name head_oid with
    | Ok p => Ok p
    | Err _ => github_pull_request_via_interactive_shell oid_to_string json_error interactive_shell_output host org repo
                 branch_name head_oid
    end
  with
  | Ok found =>
      exists prs, first_some (gh_cli org selector branch_name ≫= summaries_of) (gh_shell org selector branch_name ≫= summaries_of)
        = Some prs /\ found = select_github_pull_request oid_to_string prs branch_name head_oid
  | Err _ =>
      first_some (gh_cli org selector branch_name ≫= summaries_of) (gh_shell org selector branch_name ≫= summaries_of) = None
  end.
Proof.
  cbn zeta. unfold github_pull_request_via_cli, github_pull_request_via_interactive_shell, gh_cli, gh_shell, summaries.
  set (selector := github_repo_selector host org repo).
  assert (Hshell : match
      let? output := interactive_shell_output (pr_list_script org selector branch_name) in
      let? prs := match from_str output ≫= summaries_of with Some prs => Ok prs
                  | None => Err (str "Failed to parse " ++ str "login-shell gh output" ++ str " for " ++ selector ++ str ": " ++ json_error) end in
      Ok (select_github_pull_request oid_to_string prs branch_name head_oid)
    with
    | Ok found => exists prs, (match interactive_shell_output (pr_list_script org selector branch_name) with
        Ok out => from_str out | Err _ => None end ≫= summaries_of) = Some prs /\
        found = select_github_pull_request oid_to_string prs branch_name head_oid
    | Err _ => (match interactive_shell_output (pr_list_script org selector branch_name) with
        Ok out => from_str out | Err _ => None end ≫= summaries_of) = None
    end).
  { destruct (interactive_shell_output _) as [out|e]; [cbn [result_bind]|done].
    destruct (from_str out ≫= summaries_of) as [prs|]; cbn [result_bind]; [by exists prs|done]. }
  destruct (run _) as [e|[] out err]; [exact Hshell| |exact Hshell].
  destruct (from_str out ≫= summaries_of) as [prs|]; cbn [result_bind first_some]; [by exists prs|exact Hshell].
Qed.
End found.
