(* ===== verification/Worktrees.v ===== *)
(** Worktrees (grove-core/src/git_project.rs): the list that [git worktree list
    --porcelain] prints, the user's order, and the stacks, which record the parent
    of a worktree by name. [canonicalize] is the file system's. *)

From S2P Require Import Prelude Utf8 Text Paths Remotes.

Definition SOURCE_WORKTREE_NAME : bytes := str "source".

Record Worktree := mkWorktree {
  name : bytes;
  path : bytes;
  branch : bytes;
  stack_parent_name : option bytes;
  warning : option bytes
}.

Section paths.
Context (canonicalize : bytes -> option bytes).

Definition normalized_path (p : bytes) : bytes := default p (canonicalize p).

Definition visible_worktrees (worktrees : list Worktree) (source_path : bytes) : list Worktree :=
  filter (fun w => path_eqb (normalized_path (path w)) (normalized_path source_path) = false) worktrees.

Definition make_worktree (path_str branch project_base : bytes) : Worktree :=
  let base := normalized_path project_base in
  let p := normalized_path path_str in
  let name :=
    if path_eqb p (path_join base SOURCE_WORKTREE_NAME) then SOURCE_WORKTREE_NAME
    else
      match path_strip_prefix (path_join base (str "worktrees")) p with
      | Some rel => rel
      | None => default path_str (file_name path_str)
      end in
  let display :=
    match path_strip_prefix base p with
    | Some rel => path_join project_base rel
    | None => path_str
    end in
  mkWorktree name display branch None None.

(** The state of the loop over the lines: what was found, and the entry that is
    being read. *)
Record ListState := mkListState {
  found : list Worktree;
  current_path : bytes;
  current_branch : bytes;
  is_bare : bool
}.

Definition flush_entry (project_base : bytes) (s : ListState) : list Worktree :=
  if negb (bool_decide (current_path s = [])) && negb (is_bare s) &&
     path_starts_with (normalized_path (path_join project_base (str "worktrees"))) (normalized_path (current_path s))
  then found s ++ [make_worktree (current_path s) (current_branch s) project_base]
  else found s.

Definition list_line (project_base : bytes) (s : ListState) (line : bytes) : ListState :=
  match strip_prefix (str "worktree ") line with
  | Some p => mkListState (flush_entry project_base s) p [] false
  | None =>
      match strip_prefix (str "branch ") line with
      | Some b =>
          mkListState (found s) (current_path s) (default b (strip_prefix (str "refs/heads/") b)) (is_bare s)
      | None =>
          if bytes_eqb line (str "bare") then mkListState (found s) (current_path s) (current_branch s) true
          else s
      end
  end.

Definition parse_worktree_list (output project_base : bytes) : list Worktree :=
  flush_entry project_base
    (foldl (list_line project_base) (mkListState [] [] [] false) (str_lines output)).

(** [sort_by_key] is stable. *)
Section sort.
Context (created : bytes -> Z).
Fixpoint insert_by (w : Worktree) (l : list Worktree) : list Worktree :=
  match l with
  | [] => [w]
  | x :: l' => if created (path w) <? created (path x) then w :: l else x :: insert_by w l'
  end.
Definition sort_worktrees_by_creation_time (l : list Worktree) : list Worktree :=
  foldl (fun acc w => insert_by w acc) [] l.
End sort.

(** What git printed, if it succeeded. *)
Definition get_worktrees_for_project (created : bytes -> Z) (source_path : bytes) (output : option bytes) :
    list Worktree :=
  match output with
  | None => []
  | Some out =>
      sort_worktrees_by_creation_time created
        (parse_worktree_list out (default source_path (parent source_path)))
  end.
End paths.

(** * Order *)

(** [position] and [remove]. *)
Fixpoint remove_named (n : bytes) (l : list Worktree) : option (Worktree * list Worktree) :=
  match l with
  | [] => None
  | w :: l =>
      if bytes_eqb (name w) n then Some (w, l)
      else (fun r => (r.1, w :: r.2)) <$> remove_named n l
  end.

Definition order_step (s : list Worktree * list Worktree) (n : bytes) : list Worktree * list Worktree :=
  match remove_named n s.2 with
  | Some (w, rest) => (s.1 ++ [w], rest)
  | None => s
  end.

Definition apply_worktree_order (worktrees : list Worktree) (order : list bytes) : list Worktree :=
  if bool_decide (order = []) then worktrees
  else let '(ordered, remaining) := foldl order_step ([], worktrees) order in ordered ++ remaining.

(** * Stacks *)

Abbreviation Stacks := (gmap bytes bytes).

(** The body of the [while let]. *)
Definition chain_body (mapping : Stacks) (s : gset bytes * bytes) : (gset bytes * bytes) + bool :=
  let '(seen, current) := s in
  match mapping !! current with
  | None => inr false
  | Some parent => if bool_decide (current ∈ seen) then inr true else inl ({[current]} ∪ seen, parent)
  end.

(** Each turn sees a new key. *)
Definition stack_parent_chain_has_cycle (start : bytes) (mapping : Stacks) : bool :=
  default true (loop (chain_body mapping) (2 + size mapping) (∅, start)).

Definition normalized_stacked_parents (stacked_parents : Stacks) (worktrees : list Worktree) : Stacks :=
  let worktree_names := name <$> worktrees in
  let filtered : Stacks :=
    filter (fun e => e.1 <> e.2 /\ e.1 ∈ worktree_names /\ e.2 ∈ worktree_names) stacked_parents in
  filter (fun e => stack_parent_chain_has_cycle e.1 filtered = false) filtered.

Definition apply_stacked_parent_metadata (worktrees : list Worktree) (stacked_parents : Stacks) : list Worktree :=
  let normalized := normalized_stacked_parents stacked_parents worktrees in
  (fun w => mkWorktree (name w) (path w) (branch w) (normalized !! name w) (warning w)) <$> worktrees.

Definition find_worktree_named (worktrees : list Worktree) (n : bytes) : option Worktree :=
  snd <$> list_find (fun w => name w = n) worktrees.

Definition direct_stacked_children (worktrees : list Worktree) (stacked_parents : Stacks) (parent_name : bytes) :
    list bytes :=
  let normalized := normalized_stacked_parents stacked_parents worktrees in
  omap (fun w => if bool_decide (normalized !! name w = Some parent_name) then Some (name w) else None) worktrees.

(** * The list *)

(** What git prints for a worktree: its path, then attributes, then an empty
    line. *)
Inductive attribute := Branch (b : bytes) | Bare | Other (line : bytes).
Record Entry := mkEntry { e_path : bytes; e_attributes : list attribute }.

Definition attribute_line (a : attribute) : bytes :=
  match a with
  | Branch b => str "branch refs/heads/" ++ b
  | Bare => str "bare"
  | Other l => l
  end.
Definition entry_lines (e : Entry) : list bytes :=
  (str "worktree " ++ e_path e) :: (attribute_line <$> e_attributes e) ++ [[]].
Definition porcelain (es : list Entry) : bytes := unlines (concat (entry_lines <$> es)).

Definition one_line (l : bytes) : Prop := (LF ∉ l) /\ last l <> Some 13.
Definition attribute_ok (a : attribute) : Prop :=
  one_line (attribute_line a) /\
  match a with
  | Other l => starts_with (str "worktree ") l = false /\ starts_with (str "branch ") l = false /\ l <> str "bare"
  | _ => True
  end.
Definition entry_ok (e : Entry) : Prop :=
  e_path e <> [] /\ one_line (str "worktree " ++ e_path e) /\ Forall attribute_ok (e_attributes e).

Definition entry_branch (l : list attribute) : bytes :=
  foldl (fun b a => match a with Branch b' => b' | _ => b end) [] l.
Definition entry_bare (l : list attribute) : bool := existsb (fun a => match a with Bare => true | _ => false end) l.

Section list.
Context (canonicalize : bytes -> option bytes) (base : bytes).

(** The worktree of an entry: those that are not bare and lie below the
    project's [worktrees]. *)
Definition listed (e : Entry) : option Worktree :=
  if negb (entry_bare (e_attributes e)) &&
     path_starts_with (normalized_path canonicalize (path_join base (str "worktrees")))
       (normalized_path canonicalize (e_path e))
  then Some (make_worktree canonicalize (e_path e) (entry_branch (e_attributes e)) base) else None.

Lemma attribute_step s a :
  attribute_ok a ->
  list_line canonicalize base s (attribute_line a) =
  mkListState (found s) (current_path s)
    (match a with Branch b => b | _ => current_branch s end)
    (is_bare s || match a with Bare => true | _ => false end).
Proof.
  intros [_ Ha]. destruct s as [f p b r], a as [b'| |l]; unfold list_line; cbn [attribute_line found current_path current_branch is_bare].
  - assert (strip_prefix (str "worktree ") (str "branch refs/heads/" ++ b') = None) as -> by done.
    rewrite (proj2 (strip_prefix_Some (str "branch ") (str "branch refs/heads/" ++ b') (str "refs/heads/" ++ b')) eq_refl).
    rewrite (proj2 (strip_prefix_Some (str "refs/heads/") _ b') eq_refl). cbn [default]. by rewrite orb_false_r.
  - cbn. by rewrite orb_true_r.
  - destruct Ha as (Hw & Hb & Hn). unfold strip_prefix. rewrite Hw, Hb, bytes_eqb_ne by done. by rewrite orb_false_r.
Qed.

Lemma entry_step s e :
  entry_ok e ->
  foldl (list_line canonicalize base) s (entry_lines e) =
  mkListState (flush_entry canonicalize base s) (e_path e) (entry_branch (e_attributes e)) (entry_bare (e_attributes e)).
Proof.
  intros (_ & _ & Ha). unfold entry_lines. cbn [foldl].
  assert (list_line canonicalize base s (str "worktree " ++ e_path e) =
    mkListState (flush_entry canonicalize base s) (e_path e) [] false) as ->.
  { unfold list_line. by rewrite (proj2 (strip_prefix_Some (str "worktree ") _ (e_path e)) eq_refl). }
  rewrite foldl_app. cbn [foldl].
  assert (Hg : forall f b r, foldl (list_line canonicalize base) (mkListState f (e_path e) b r)
      (attribute_line <$> e_attributes e) =
    mkListState f (e_path e) (foldl (fun b a => match a with Branch b' => b' | _ => b end) b (e_attributes e))
      (r || entry_bare (e_attributes e))).
  { induction Ha as [|a l Ha _ IH]; intros f b r; cbn; [by rewrite orb_false_r|].
    rewrite attribute_step by done. rewrite IH. by rewrite orb_assoc. }
  rewrite Hg. done.
Qed.

Lemma flush_listed e f :
  entry_ok e ->
  flush_entry canonicalize base (mkListState f (e_path e) (entry_branch (e_attributes e)) (entry_bare (e_attributes e))) =
  f ++ from_option (fun w => [w]) [] (listed e).
Proof.
  intros (Hp & _). unfold flush_entry, listed. cbn [current_path is_bare found current_branch].
  rewrite bool_decide_eq_false_2 by done. cbn [negb andb]. destruct (_ && _); cbn; [done|by rewrite app_nil_r].
Qed.

(** The list that git prints is read back: of its entries, in order, exactly
    those that are not bare and lie below the project's [worktrees] directory,
    each with its branch, an empty one when the head is detached. *)
Theorem worktree_list_is_read_back es :
  Forall entry_ok es -> parse_worktree_list canonicalize (porcelain es) base = omap listed es.
Proof.
  intros Hes. unfold parse_worktree_list, porcelain. rewrite str_lines_unlines.
  2: { rewrite Forall_concat. apply Forall_fmap. eapply Forall_impl; [exact Hes|]. intros e (_ & Hp & Ha).
       constructor; [done|]. apply Forall_app. split; [|repeat constructor; [apply not_elem_of_nil|done]].
       apply Forall_fmap. eapply Forall_impl; [exact Ha|]. by intros a [? _]. }
  assert (Hg : forall s, flush_entry canonicalize base
      (foldl (list_line canonicalize base) s (concat (entry_lines <$> es))) =
    flush_entry canonicalize base s ++ omap listed es).
  { induction Hes as [|e es He _ IH]; intros s; [cbn; by rewrite app_nil_r|].
    rewrite fmap_cons. cbn [concat]. rewrite foldl_app, entry_step, IH, flush_listed by done.
    rewrite <- app_assoc. f_equal. cbn. by destruct (listed e). }
  apply Hg.
Qed.
End list.

(** * The order *)

Lemma remove_named_Some n l w rest :
  remove_named n l = Some (w, rest) -> name w = n /\ exists a b, l = a ++ w :: b /\ rest = a ++ b /\ n ∉ (name <$> a).
Proof.
  revert rest. induction l as [|x l IH]; intros rest; cbn [remove_named]; [done|].
  destruct (bytes_eqb (name x) n) eqn:E.
  - apply bytes_eqb_eq in E. intros [= -> ->]. split; [done|]. exists [], rest. split_and!; [done..|apply not_elem_of_nil].
  - destruct (remove_named n l) as [[w' r]|]; [|done]. cbn. intros [= -> <-].
    destruct (IH r eq_refl) as (Hn & a & b & -> & -> & Ha). split; [done|]. exists (x :: a), b. split_and!; [done..|].
    rewrite fmap_cons, not_elem_of_cons. split; [|done]. intros ->. by rewrite bytes_eqb_refl in E.
Qed.

Lemma remove_named_None n l : remove_named n l = None -> n ∉ (name <$> l).
Proof.
  induction l as [|x l IH]; cbn [remove_named]; [intros _; apply not_elem_of_nil|].
  destruct (bytes_eqb (name x) n) eqn:E; [done|]. destruct (remove_named n l) as [[]|]; [done|]. intros _.
  rewrite fmap_cons, not_elem_of_cons. split; [|auto]. intros ->. by rewrite bytes_eqb_refl in E.
Qed.

Lemma order_steps order s :
  let r := foldl order_step s order in
  r.1 ++ r.2 ≡ₚ s.1 ++ s.2 /\
  (NoDup (name <$> s.2) -> NoDup order ->
   name <$> r.1 = (name <$> s.1) ++ filter (fun n => n ∈ (name <$> s.2)) order /\
   r.2 = filter (fun w => name w ∉ order) s.2).
Proof.
  revert s. induction order as [|n order IH]; intros [o rem]; cbn [foldl fst snd].
  { split; [done|]. intros _ _. rewrite app_nil_r. split; [done|]. symmetry.
    apply filter_full. intros. apply not_elem_of_nil. }
  specialize (IH (order_step (o, rem) n)). unfold order_step in *. cbn [fst snd] in *.
  destruct (remove_named n rem) as [[w rest]|] eqn:E; cbn [fst snd] in *; destruct IH as [Hp Hf].
  - apply remove_named_Some in E as (Hn & a & b & -> & -> & Ha). split.
    { rewrite Hp, <- app_assoc. f_equiv. cbn. by rewrite Permutation_middle. }
    intros Hnd [Hno Hord]%NoDup_cons. rewrite fmap_app, fmap_cons in Hnd.
    apply NoDup_app in Hnd as (Hda & Hab & Hdb). apply NoDup_cons in Hdb as [Hw Hdb].
    destruct Hf as [-> ->]; [|done|].
    { rewrite fmap_app, NoDup_app. split_and!; [done| |done]. intros x Hx Hxb. eapply Hab; [done|].
      by apply list_elem_of_further. }
    split.
    + rewrite fmap_app, <- app_assoc. f_equal. cbn [fmap list_fmap app]. rewrite filter_cons_True by set_solver.
      rewrite Hn. f_equal. apply filter_iff_in. intros x Hx. rewrite !fmap_app, !elem_of_app, fmap_cons, elem_of_cons.
      assert (x <> n) by congruence. rewrite Hn. tauto.
    + rewrite !filter_app, filter_cons_False by (rewrite Hn; intros H; apply H, list_elem_of_here).
      f_equal; apply filter_iff_in; intros x Hx; rewrite elem_of_cons; split; [|tauto| |tauto].
      all: intros Hxo [Hxn|?]; [|done].
      * apply Ha. rewrite <- Hxn. by apply list_elem_of_fmap_2.
      * apply Hw. rewrite Hn, <- Hxn. by apply list_elem_of_fmap_2.
  - apply remove_named_None in E. split; [done|]. intros Hnd [Hno Hord]%NoDup_cons.
    destruct (Hf Hnd Hord) as [-> ->]. split; [by rewrite filter_cons_False|].
    apply filter_iff_in. intros x Hx. rewrite elem_of_cons. split; [|tauto]. intros Hxo [Hxn|?]; [|done].
    apply E. rewrite <- Hxn. by apply list_elem_of_fmap_2.
Qed.

(** Ordering loses and invents no worktree; where names and the order have
    no duplicates, the worktrees that the order names come first and as it names
    them, the others after them and as they were. *)
Theorem order_permutes worktrees order :
  apply_worktree_order worktrees order ≡ₚ worktrees /\
  (NoDup (name <$> worktrees) -> NoDup order ->
   name <$> apply_worktree_order worktrees order =
     filter (fun n => n ∈ (name <$> worktrees)) order ++
     (name <$> filter (fun w => name w ∉ order) worktrees)).
Proof.
  unfold apply_worktree_order. destruct (bool_decide_reflect (order = [])) as [->|_].
  - split; [done|]. intros _ _. rewrite filter_nil, filter_full; [done|]. intros. apply not_elem_of_nil.
  - destruct (order_steps order ([], worktrees)) as [Hp Hf]. destruct (foldl _ _ _) as [o r]. cbn [fst snd] in *.
    split; [done|]. intros Hnd Hord. destruct (Hf Hnd Hord) as [Ho Hr]. by rewrite fmap_app, Ho, Hr.
Qed.

(** * Stacks *)

(** [p] is the recorded parent of [c]; a chain that ends is an accessible one. *)
Definition parent_in (m : Stacks) (p c : bytes) : Prop := m !! c = Some p.
Definition ends (m : Stacks) (c : bytes) : Prop := Acc (parent_in m) c.

Lemma ends_up m p c : m !! c = Some p -> ends m c <-> ends m p.
Proof.
  intros Hp. split; [intros [Hc]; by apply Hc|]. intros He. constructor. intros q Hq. unfold parent_in in Hq.
  by simplify_eq.
Qed.

Section chain.
Context (m : Stacks).

(** Every key that was seen leads, in one step or more, to the current one. *)
Definition chain_inv (start : bytes) (s : gset bytes * bytes) : Prop :=
  s.1 ⊆ dom m /\ (forall x, x ∈ s.1 -> tc (flip (parent_in m)) x s.2) /\ (ends m start <-> ends m s.2).

Lemma chain_step start s s' :
  chain_inv start s -> chain_body m s = inl s' ->
  chain_inv start s' /\ (size (dom m) - size s'.1 < size (dom m) - size s.1)%nat.
Proof.
  destruct s as [seen c]. unfold chain_inv, chain_body. cbn [fst snd]. intros (Hs & Ht & He).
  destruct (m !! c) as [p|] eqn:Ec; [|done]. destruct (bool_decide_reflect (c ∈ seen)) as [|Hn]; [done|].
  intros [= <-]. cbn [fst snd]. assert (Hd : c ∈ dom m) by (apply elem_of_dom; eauto). split_and!.
  - apply union_subseteq. split; [by apply singleton_subseteq_l|done].
  - intros x [->%elem_of_singleton|Hx]%elem_of_union; [by apply tc_once|]. eapply tc_r; [by apply Ht|done].
  - rewrite He. by apply ends_up.
  - assert (Hle : (size ({[c]} ∪ seen) <= size (dom m))%nat).
    { apply subseteq_size, union_subseteq. split; [by apply singleton_subseteq_l|done]. }
    rewrite size_union, size_singleton in * by (by apply disjoint_singleton_l). lia.
Qed.

Lemma tc_loops_not_ends c : tc (flip (parent_in m)) c c -> ~ ends m c.
Proof.
  intros Hc He. induction He as [c _ IH].
  assert (Hp : exists p, m !! c = Some p /\ rtc (flip (parent_in m)) p c).
  { inversion Hc as [? ? H|? p ? H Hpc]; [exists c; by split; [|constructor]|exists p].
    split; [done|by apply tc_rtc]. }
  destruct Hp as (p & Hp & Hr). apply (IH p Hp). eapply tc_rtc_l; [exact Hr|]. by apply tc_once.
Qed.

(** The check, and that it ends: it answers whether the chain does. *)
Lemma chain_check start :
  exists b, loop (chain_body m) (2 + size m) (∅, start) = Some b /\ (b = false <-> ends m start).
Proof.
  assert (Hi : chain_inv start (∅, start)).
  { split; [apply empty_subseteq|]. split; [by intros x ?%elem_of_empty|done]. }
  destruct (loop_total (chain_body m) (fun s => size (dom m) - size s.1)%nat (chain_inv start)
    (2 + size m) (∅, start)) as [b Hb].
  - intros s s' Hs Hstep. by eapply chain_step.
  - done.
  - cbn [fst]. pose proof (size_dom (D := gset bytes) m). lia.
  - exists b. split; [done|]. apply loop_loops in Hb.
    destruct (loops_invariant _ (chain_inv start) _ _ (fun s s' H1 H2 => proj1 (chain_step start s s' H1 H2)) Hi Hb)
      as ([seen c] & (_ & Ht & He) & Hbody). cbn [fst snd] in *. rewrite He. clear Hb He.
    unfold chain_body in Hbody. destruct (m !! c) as [p|] eqn:Ec.
    + destruct (bool_decide_reflect (c ∈ seen)) as [Hin|]; [|done]. injection Hbody as <-.
      split; [done|]. intros Hends. by destruct (tc_loops_not_ends c (Ht c Hin)).
    + injection Hbody as <-. split; [intros _|done]. constructor. intros p Hp. unfold parent_in in Hp. congruence.
Qed.

(** The cycle check of a stack ends, and reports a cycle exactly for the
    worktrees from which following the parents never ends. *)
Theorem cycle_check_is_exact start :
  (exists b, loop (chain_body m) (2 + size m) (∅, start) = Some b) /\
  (stack_parent_chain_has_cycle start m = false <-> ends m start).
Proof.
  destruct (chain_check start) as (b & Hb & Hiff). split; [eauto|].
  unfold stack_parent_chain_has_cycle. by rewrite Hb.
Qed.
End chain.

(** What a recorded parent must be to count. *)
Definition valid_edge (stacked_parents : Stacks) (worktrees : list Worktree) : Stacks :=
  filter (fun e => e.1 <> e.2 /\ e.1 ∈ (name <$> worktrees) /\ e.2 ∈ (name <$> worktrees)) stacked_parents.

(** The stacks that are used form a forest over the worktrees that exist:
    following parents from any of them ends, and every parent is a worktree. An
    edge of the record is left out exactly when one of its ends is no worktree,
    or it is its own parent, or its chain runs into a cycle. *)
Theorem stacks_form_a_forest stacked_parents worktrees :
  let m := normalized_stacked_parents stacked_parents worktrees in
  (forall c, ends m c) /\
  (forall c p, m !! c = Some p <->
     stacked_parents !! c = Some p /\ c <> p /\ c ∈ (name <$> worktrees) /\ p ∈ (name <$> worktrees) /\
     ends (valid_edge stacked_parents worktrees) c).
Proof.
  intros m. set (f := valid_edge stacked_parents worktrees).
  assert (Hm : forall c p, m !! c = Some p <-> f !! c = Some p /\ ends f c).
  { intros c p. unfold m, normalized_stacked_parents. rewrite map_lookup_filter_Some. cbn [fst].
    fold (valid_edge stacked_parents worktrees) f. by rewrite (proj2 (cycle_check_is_exact f c)). }
  split.
  - intros c. destruct (m !! c) as [p|] eqn:E.
    + apply Hm in E as [_ He]. clear p. induction He as [c _ IH]. constructor. intros p Hp. apply Hm in Hp as [Hp _]. by apply IH.
    + constructor. intros p Hp. unfold parent_in in Hp. congruence.
  - intros c p. rewrite Hm. unfold f at 1, valid_edge. rewrite map_lookup_filter_Some. cbn [fst snd]. tauto.
Qed.

(** A worktree has no stacked children exactly when no worktree shows it as
    its parent. *)
Theorem children_are_shown worktrees stacked_parents n :
  direct_stacked_children worktrees stacked_parents n = [] <->
  Forall (fun w => stack_parent_name w <> Some n) (apply_stacked_parent_metadata worktrees stacked_parents).
Proof.
  unfold direct_stacked_children, apply_stacked_parent_metadata. set (m := normalized_stacked_parents _ _).
  rewrite Forall_fmap. clearbody m. induction worktrees as [|w l IH]; cbn; [split; [constructor|done]|].
  rewrite Forall_cons. cbn. destruct (bool_decide_reflect (m !! name w = Some n)); [split; [done|tauto]|].
  rewrite IH. tauto.
Qed.

(** * Examples *)

Module WorktreesExamples.
Definition wt (n : string) : Worktree := mkWorktree (str n) (str "/p/worktrees/" ++ str n) (str n) None None.
Definition names (l : list Worktree) : list bytes := name <$> l.

Definition listing : list Entry :=
  [mkEntry (str "/p/source") [Other (str "HEAD 1"); Branch (str "main")];
   mkEntry (str "/p/worktrees/feat/x") [Other (str "HEAD 2"); Branch (str "feat/x")];
   mkEntry (str "/p/worktrees/y") [Other (str "HEAD 3"); Other (str "detached")]].

Lemma worktree_list_is_read_back_witness :
  parse_worktree_list Some (porcelain listing) (str "/p") =
    [mkWorktree (str "feat/x") (str "/p/worktrees/feat/x") (str "feat/x") None None;
     mkWorktree (str "y") (str "/p/worktrees/y") [] None None].
Proof.
  assert (Hl : forall l, bool_decide (LF ∈ l) = false -> bool_decide (last l = Some 13) = false -> one_line l).
  { intros l H1 H2. split; [by apply bool_decide_eq_false_1 in H1|by apply bool_decide_eq_false_1 in H2]. }
  assert (Hok : Forall entry_ok listing).
  { unfold listing. repeat apply Forall_cons_2; try apply Forall_nil_2.
    all: (split; [discriminate|]); (split; [apply Hl; reflexivity|]).
    all: repeat apply Forall_cons_2; try apply Forall_nil_2; (split; [apply Hl; reflexivity|]); try exact I.
    all: split_and!; [reflexivity|reflexivity|discriminate]. }
  rewrite (worktree_list_is_read_back Some (str "/p") listing Hok). vm_compute. reflexivity.
Defined.

Example ordered : names (apply_worktree_order [wt "a"; wt "b"; wt "c"] [str "c"; str "gone"; str "a"]) =
  [str "c"; str "a"; str "b"].
Proof. vm_compute. reflexivity. Qed.

(** A cycle, what hangs on it, and a stack of its own. *)
Definition recorded : Stacks :=
  <[str "a" := str "b"]> (<[str "b" := str "a"]> (<[str "c" := str "a"]> {[str "d" := str "e"]})).
Example cycles_are_dropped :
  stack_parent_name <$> apply_stacked_parent_metadata [wt "a"; wt "b"; wt "c"; wt "d"; wt "e"] recorded =
  [None; None; None; Some (str "e"); None].
Proof. vm_compute. reflexivity. Qed.
End WorktreesExamples.
