(* ===== verification/Config.v ===== *)
(** The configuration (grove-core/src/config.rs): its data, the normalisation of
    the preferences, loading and saving config.json, and the removal of a
    worktree's entries from the stores. serde's reading and writing of the file is
    a pair of functions, and [canonicalize] is the file system's. *)

From S2P Require Import Prelude Utf8 Text Paths Json.

#[local] Open Scope rust_scope.

Definition DEFAULT_PROJECT_CATEGORY_ID : bytes := str "default".
Definition DEFAULT_DAEMON_SCROLLBACK_BYTES : Z := 2 * 1024 * 1024.

Record ProjectEntry := mkProjectEntry {
  pe_id : bytes;
  pe_name : bytes;
  pe_url : bytes;
  pe_org : bytes;
  pe_repo : bytes;
  source_path : bytes;
  worktree_order : list bytes;
  stacked_parents : gmap bytes bytes;
  base_branch : option bytes;
  collapsed : bool;
  focused : bool;
  category_id : option bytes;
  env_sync : option (list bytes)          (* the [include_patterns] *)
}.

Inductive TerminalLinkOpenMode := External | Internal | ExternalWithLocalhostInternal.
Inductive ProjectViewMode := DefaultView | GroupByOrgs.

Record IdeMenuItem := mkIdeMenuItem {
  item_id : bytes;
  display_name : option bytes;
  open_command : option bytes
}.

Inductive ProjectCategoryIcon := Emoji (s : bytes) | Lucide (s : bytes).
Record ProjectCategory := mkProjectCategory {
  cat_id : bytes;
  cat_name : bytes;
  cat_color : bytes;
  cat_icon : ProjectCategoryIcon
}.

Record GrovePreferences := mkGrovePreferences {
  terminal_link_open_mode : TerminalLinkOpenMode;
  project_view_mode : ProjectViewMode;
  collapsed_project_orgs : list bytes;
  project_org_order : list bytes;
  git_gui_menu_items : list IdeMenuItem;
  ide_menu_items : list IdeMenuItem;
  project_categories : list ProjectCategory;
  daemon_scrollback_bytes : Z;
  legacy_preferred_ide : option IdeMenuItem
}.

Definition grove_preferences_default : GrovePreferences :=
  mkGrovePreferences ExternalWithLocalhostInternal DefaultView [] []
    [mkIdeMenuItem (str "sourcetree") None None] [mkIdeMenuItem (str "webstorm") None None] []
    DEFAULT_DAEMON_SCROLLBACK_BYTES None.

Record GroveConfig := mkGroveConfig {
  projects : list ProjectEntry;
  cfg_base_dir : option bytes;
  terminal_theme : option Value;
  preferences : option GrovePreferences
}.
Definition grove_config_default : GroveConfig := mkGroveConfig [] None None None.

#[export] Instance IdeMenuItem_eq_dec : EqDecision IdeMenuItem.
Proof. solve_decision. Defined.
#[export] Instance ProjectCategoryIcon_eq_dec : EqDecision ProjectCategoryIcon.
Proof. solve_decision. Defined.
#[export] Instance ProjectCategory_eq_dec : EqDecision ProjectCategory.
Proof. solve_decision. Defined.
#[export] Instance TerminalLinkOpenMode_eq_dec : EqDecision TerminalLinkOpenMode.
Proof. solve_decision. Defined.
#[export] Instance ProjectViewMode_eq_dec : EqDecision ProjectViewMode.
Proof. solve_decision. Defined.
#[export] Instance ProjectEntry_eq_dec : EqDecision ProjectEntry.
Proof. solve_decision. Defined.

(** [PartialEq] leaves the legacy field out. *)
Definition preferences_eqb (a b : GrovePreferences) : bool :=
  bool_decide (terminal_link_open_mode a = terminal_link_open_mode b) &&
  bool_decide (project_view_mode a = project_view_mode b) &&
  bool_decide (collapsed_project_orgs a = collapsed_project_orgs b) &&
  bool_decide (project_org_order a = project_org_order b) &&
  bool_decide (git_gui_menu_items a = git_gui_menu_items b) &&
  bool_decide (ide_menu_items a = ide_menu_items b) &&
  bool_decide (project_categories a = project_categories b) &&
  (daemon_scrollback_bytes a =? daemon_scrollback_bytes b).

(** * Normalisation *)

Definition one_of (ids : list string) (id : bytes) : bool := existsb (fun s => bytes_eqb id (str s)) ids.

Definition is_supported_ide_menu_item_id : bytes -> bool :=
  one_of ["webstorm"; "vscode"; "xcode"; "android-studio"; "intellij"; "cursor"; "sublime"]%string.
Definition is_supported_git_gui_menu_item_id : bytes -> bool := one_of ["sourcetree"; "fork"]%string.
Definition is_supported_project_category_icon_id : bytes -> bool :=
  one_of ["sprout"; "folder"; "rocket"; "flame"; "bug"; "wrench"; "book"; "palette"; "database"; "bot";
          "terminal"; "briefcase"; "star"; "package"; "code"; "gem"]%string.

Definition menu_item_step (is_supported_id : bytes -> bool) (normalized : list IdeMenuItem) (item : IdeMenuItem) :
    list IdeMenuItem :=
  let id := trim (item_id item) in
  if bool_decide (id = []) || negb (is_supported_id id) then normalized
  else if existsb (fun e => bytes_eqb (item_id e) id) normalized then normalized
  else normalized ++ [mkIdeMenuItem id (display_name item) (open_command item)].

Definition normalize_menu_items (items : list IdeMenuItem) (is_supported_id : bytes -> bool) : list IdeMenuItem :=
  foldl (menu_item_step is_supported_id) [] items.
Definition normalize_ide_menu_items (items : list IdeMenuItem) : list IdeMenuItem :=
  normalize_menu_items items is_supported_ide_menu_item_id.
Definition normalize_git_gui_menu_items (items : list IdeMenuItem) : list IdeMenuItem :=
  normalize_menu_items items is_supported_git_gui_menu_item_id.

Definition trim_and_limit_chars (value : bytes) (max_chars : nat) : bytes := take_chars max_chars (trim value).

Definition normalize_project_category_icon (icon : ProjectCategoryIcon) : option ProjectCategoryIcon :=
  match icon with
  | Emoji value =>
      let value := trim_and_limit_chars value 4 in
      if bool_decide (value = []) then None else Some (Emoji value)
  | Lucide value =>
      let value := trim value in
      if bool_decide (value = []) || negb (is_supported_project_category_icon_id value) then None
      else Some (Lucide value)
  end.

Definition is_ascii_hexdigit (b : Z) : bool := match hex_digit b with Some _ => true | None => false end.
Definition normalize_project_category_color (color : bytes) : option bytes :=
  let color := trim color in
  if (zlen color =? 7) && starts_with (str "#") color && forallb is_ascii_hexdigit (drop 1 color)
  then Some (ascii_lower color) else None.

Definition category_step (normalized : list ProjectCategory) (c : ProjectCategory) : list ProjectCategory :=
  let id := trim (cat_id c) in
  if bool_decide (id = []) || bytes_eqb id DEFAULT_PROJECT_CATEGORY_ID then normalized
  else if existsb (fun e => bytes_eqb (cat_id e) id) normalized then normalized
  else
    let name := trim_and_limit_chars (cat_name c) 10 in
    if bool_decide (name = []) then normalized
    else
      match normalize_project_category_color (cat_color c), normalize_project_category_icon (cat_icon c) with
      | Some color, Some icon => normalized ++ [mkProjectCategory id name color icon]
      | _, _ => normalized
      end.

Definition normalize_project_categories (categories : list ProjectCategory) : list ProjectCategory :=
  foldl category_step [] categories.

Definition normalized (p : GrovePreferences) : GrovePreferences :=
  let ide :=
    match ide_menu_items p, legacy_preferred_ide p with
    | [], Some legacy => [legacy]
    | items, _ => items
    end in
  mkGrovePreferences (terminal_link_open_mode p) (project_view_mode p) (collapsed_project_orgs p)
    (filter (fun org => trim org <> []) (project_org_order p))
    (normalize_git_gui_menu_items (git_gui_menu_items p))
    (normalize_ide_menu_items ide)
    (normalize_project_categories (project_categories p))
    (daemon_scrollback_bytes p) None.

(** * The file *)

Record AppConfig := mkAppConfig {
  app_base_dir : bytes;
  app_terminal_theme : option Value;
  app_preferences : GrovePreferences
}.

Section file.
Context (decode : bytes -> option GroveConfig) (encode : GroveConfig -> bytes).

(** [None] is no file; a file that cannot be read is read as an empty one. *)
Definition load_config_from_path (file : option (result bytes unit)) : GroveConfig :=
  match file with
  | None => grove_config_default
  | Some content => default grove_config_default (decode (match content with Ok b => b | Err _ => [] end))
  end.

Definition load_app_config_from_path (default_base_dir : bytes) (file : option (result bytes unit)) : AppConfig :=
  let config := load_config_from_path file in
  mkAppConfig
    (match cfg_base_dir config with
     | Some d => if bool_decide (trim d = []) then default_base_dir else d
     | None => default_base_dir
     end)
    (terminal_theme config)
    (normalized (default grove_preferences_default (preferences config))).

(** What is written. *)
Definition save_app_config_to_path (file : option (result bytes unit)) (app : AppConfig) : bytes :=
  let config := load_config_from_path file in
  encode (mkGroveConfig (projects config) (Some (app_base_dir app)) (app_terminal_theme app)
    (Some (normalized (app_preferences app)))).
Definition save_grove_preferences_to_path (file : option (result bytes unit)) (p : GrovePreferences) : bytes :=
  let config := load_config_from_path file in
  encode (mkGroveConfig (projects config) (cfg_base_dir config) (terminal_theme config) (Some (normalized p))).
End file.

(** * The stores of a worktree *)

Section stores.
Context (canonicalize : bytes -> option bytes).

Definition normalized_worktree_path (path : bytes) : bytes := default path (canonicalize path).

Definition matching_worktree_keys (keys : list bytes) (worktree_path : bytes) : list bytes :=
  filter (fun k => path_eqb (normalized_worktree_path k) (normalized_worktree_path worktree_path) = true) keys.

Definition remove_worktree_entries_from_json_map (map : list (bytes * Value)) (worktree_path : bytes) :
    list (bytes * Value) * bool :=
  foldl (fun s k => (obj_remove k s.1, s.2 || match obj_get k s.1 with Some _ => true | None => false end))
    (map, false) (matching_worktree_keys map.*1 worktree_path).

(** What [remove_terminal_layouts_for_worktree] and its sibling for panels write
    back: nothing, if nothing was removed. A missing file reads as ["{}"]. *)
Definition remove_layouts_for_worktree `{JsonText} (to_string_pretty : Value -> bytes)
    (file : option bytes) (worktree_path : bytes) : result (option bytes) unit :=
  match from_str (default (str "{}") file) ≫= as_object with
  | None => Err tt
  | Some m =>
      let '(m, removed) := remove_worktree_entries_from_json_map m worktree_path in
      Ok (if removed then Some (to_string_pretty (Obj m)) else None)
  end.
End stores.

(** * Well-formed preferences *)

Definition lower_hexdigit (b : Z) : bool := in_range 48 57 b || in_range 97 102 b.

Definition icon_ok (i : ProjectCategoryIcon) : Prop :=
  match i with
  | Emoji s => s <> [] /\ take_chars 4 s = s
  | Lucide s => is_supported_project_category_icon_id s = true
  end.
Definition category_ok (c : ProjectCategory) : Prop :=
  (cat_id c <> [] /\ trim (cat_id c) = cat_id c /\ cat_id c <> DEFAULT_PROJECT_CATEGORY_ID) /\
  (cat_name c <> [] /\ take_chars 10 (cat_name c) = cat_name c) /\
  (exists hex, cat_color c = 35 :: hex /\ length hex = 6%nat /\ Forall (fun b => lower_hexdigit b = true) hex) /\
  icon_ok (cat_icon c).
Definition items_ok (is_supported_id : bytes -> bool) (items : list IdeMenuItem) : Prop :=
  NoDup (item_id <$> items) /\
  Forall (fun i => item_id i <> [] /\ trim (item_id i) = item_id i /\ is_supported_id (item_id i) = true) items.

Definition preferences_ok (p : GrovePreferences) : Prop :=
  Forall (fun org => trim org <> []) (project_org_order p) /\
  items_ok is_supported_git_gui_menu_item_id (git_gui_menu_items p) /\
  items_ok is_supported_ide_menu_item_id (ide_menu_items p) /\
  (NoDup (cat_id <$> project_categories p) /\ Forall category_ok (project_categories p)) /\
  legacy_preferred_ide p = None.

(** Names and emoji that do not start or end in white space. *)
Definition names_trimmed (p : GrovePreferences) : Prop :=
  Forall (fun c => trim (cat_name c) = cat_name c /\
    match cat_icon c with Emoji s => trim s = s | Lucide _ => True end) (project_categories p).

(** ** Menu items *)

Lemma normalize_menu_items_ok sup items : items_ok sup (normalize_menu_items items sup).
Proof.
  unfold normalize_menu_items.
  assert (Hg : forall acc, items_ok sup acc -> items_ok sup (foldl (menu_item_step sup) acc items)).
  { induction items as [|i items IH]; intros acc Hacc; [done|]. cbn [foldl]. apply IH. unfold menu_item_step.
    destruct (bool_decide_reflect (trim (item_id i) = [])) as [|Hne]; [done|]. cbn [orb].
    destruct (sup (trim (item_id i))) eqn:Es; [|done]. cbn [negb].
    destruct (existsb _ _) eqn:Ee; [done|]. apply existsb_id_false in Ee. destruct Hacc as [Hnd Hall]. split.
    - rewrite fmap_app. by apply NoDup_snoc.
    - apply Forall_app. split; [done|]. constructor; [|constructor]. cbn. split_and!; [done|apply trim_idemp|done]. }
  apply Hg. split; constructor.
Qed.

Lemma normalize_menu_items_fixed sup items : items_ok sup items -> normalize_menu_items items sup = items.
Proof.
  unfold normalize_menu_items, items_ok. intros [Hnd Hall].
  assert (Hg : forall acc, NoDup (item_id <$> acc ++ items) -> foldl (menu_item_step sup) acc items = acc ++ items).
  { clear Hnd. induction Hall as [|i items (Hne & Ht & Hs) _ IH]; intros acc Hnd; [by rewrite app_nil_r|].
    cbn [foldl]. rewrite (IH (menu_item_step sup acc i)).
    all: assert (menu_item_step sup acc i = acc ++ [i]) as ->; [|by rewrite <- app_assoc].
    all: unfold menu_item_step; rewrite Ht, Hs, bool_decide_eq_false_2 by done; cbn [orb negb].
    all: assert (existsb (fun e => bytes_eqb (item_id e) (item_id i)) acc = false) as ->;
      [apply existsb_id_false; rewrite fmap_app in Hnd; apply NoDup_app in Hnd as (_ & Hd & _);
       intros Hin; apply (Hd _ Hin), list_elem_of_here|by destruct i]. }
  by apply (Hg []).
Qed.

(** ** Categories *)

Lemma take_chars_nonempty n s : n <> 0%nat -> s <> [] -> take_chars n s <> [].
Proof.
  destruct n as [|n], s as [|b s]; try done. intros _ _. rewrite (take_chars_S n b s _ eq_refl).
  by destruct (Z.to_nat _) eqn:E; [lia|].
Qed.

Lemma hex_lower b : is_ascii_hexdigit b = true -> lower_hexdigit (to_ascii_lowercase b) = true.
Proof.
  unfold is_ascii_hexdigit, hex_digit, lower_hexdigit, to_ascii_lowercase, in_range.
  repeat case_match; intros; try done; lia.
Qed.

Lemma normalize_color_ok c color :
  normalize_project_category_color c = Some color ->
  exists hex, color = 35 :: hex /\ length hex = 6%nat /\ Forall (fun b => lower_hexdigit b = true) hex.
Proof.
  unfold normalize_project_category_color. generalize (trim c) as t. intros t.
  destruct (zlen t =? 7) eqn:El; [|done]. destruct (starts_with (str "#") t) eqn:Es; [|done]. cbn [andb].
  destruct (forallb _ _) eqn:Ef; [|done]. intros [= <-]. apply starts_with_iff in Es as [hex ->].
  change (str "#" ++ hex) with (35 :: hex) in *. exists (ascii_lower hex). split_and!; [done| |].
  - unfold ascii_lower. rewrite length_fmap. apply Z.eqb_eq in El. unfold zlen in El. cbn [length] in El. lia.
  - unfold ascii_lower. apply Forall_fmap, Forall_forall. intros b Hb.
    change (drop 1 (35 :: hex)) with hex in Ef. rewrite forallb_forall in Ef. apply hex_lower, Ef.
    by apply list_elem_of_In.
Qed.

Lemma lower_hexdigit_visible b : lower_hexdigit b = true -> 33 <= b <= 126 /\ to_ascii_lowercase b = b /\ is_ascii_hexdigit b = true.
Proof.
  unfold is_ascii_hexdigit, hex_digit, lower_hexdigit, to_ascii_lowercase, in_range. intros H.
  rewrite orb_true_iff, !andb_true_iff, !Z.leb_le in H.
  split; [lia|]. split; repeat case_match; simplify_eq; try done; lia.
Qed.

Lemma normalize_color_fixed hex :
  length hex = 6%nat -> Forall (fun b => lower_hexdigit b = true) hex ->
  normalize_project_category_color (35 :: hex) = Some (35 :: hex).
Proof.
  intros Hl Hh. unfold normalize_project_category_color.
  assert (Hlast : exists l x, 35 :: hex = l ++ [x] /\ 33 <= x <= 126).
  { destruct (exists_last (l := hex)) as (l & x & ->); [by intros ->|]. exists (35 :: l), x. split; [done|].
    apply Forall_app in Hh as [_ Hx]. apply Forall_cons in Hx as [Hx _]. by apply lower_hexdigit_visible. }
  assert (trim (35 :: hex) = 35 :: hex) as ->.
  { apply trim_fixed; [done|]. destruct Hlast as (l & x & -> & Hx). rewrite rev_app_distr. by apply ws_visible. }
  assert ((zlen (35 :: hex) =? 7) = true) as -> by (unfold zlen; cbn; rewrite Hl; done).
  change (starts_with (str "#") (35 :: hex)) with true. change (drop 1 (35 :: hex)) with hex. cbn [andb].
  assert (forallb is_ascii_hexdigit hex = true) as ->.
  { apply forallb_forall. intros b Hb%list_elem_of_In. rewrite Forall_forall in Hh. by apply lower_hexdigit_visible, Hh. }
  f_equal. unfold ascii_lower. rewrite fmap_cons. change (to_ascii_lowercase 35) with 35. f_equal.
  clear Hlast Hl. induction Hh as [|b hex Hb _ IH]; [done|]. rewrite fmap_cons, IH. f_equal. by apply lower_hexdigit_visible.
Qed.

Lemma normalize_icon_ok i i' : normalize_project_category_icon i = Some i' -> icon_ok i'.
Proof.
  destruct i as [v|v]; unfold normalize_project_category_icon; cbv zeta.
  - destruct (bool_decide_reflect (trim_and_limit_chars v 4 = [])) as [|Hne]; [done|]. intros [= <-]. split; [exact Hne|].
    apply take_chars_idemp.
  - destruct (bool_decide _); [done|]. destruct (is_supported_project_category_icon_id (trim v)) eqn:E; [|done].
    by intros [= <-].
Qed.

Lemma category_step_ok acc c :
  NoDup (cat_id <$> acc) /\ Forall category_ok acc ->
  NoDup (cat_id <$> category_step acc c) /\ Forall category_ok (category_step acc c).
Proof.
  intros [Hnd Hall]. unfold category_step.
  destruct (bool_decide_reflect (trim (cat_id c) = [])) as [|Hne]; [done|].
  destruct (bytes_eqb (trim (cat_id c)) DEFAULT_PROJECT_CATEGORY_ID) eqn:Ed; [done|]. cbn [orb].
  destruct (existsb _ _) eqn:Ee; [done|]. apply existsb_id_false in Ee.
  destruct (bool_decide_reflect (trim_and_limit_chars (cat_name c) 10 = [])) as [|Hn]; [done|].
  destruct (normalize_project_category_color (cat_color c)) as [color|] eqn:Ec; [|done].
  destruct (normalize_project_category_icon (cat_icon c)) as [icon|] eqn:Ei; [|done]. split.
  - rewrite fmap_app. by apply NoDup_snoc.
  - apply Forall_app. split; [done|]. constructor; [|constructor]. split; cbn [cat_id cat_name cat_color cat_icon]; [|split; [|split]].
    + split_and!; [done|apply trim_idemp|]. intros E. rewrite E in Ed. done.
    + split; [done|]. apply take_chars_idemp.
    + by eapply normalize_color_ok.
    + by eapply normalize_icon_ok.
Qed.

Lemma category_step_fixed acc c :
  category_ok c -> trim (cat_name c) = cat_name c -> match cat_icon c with Emoji s => trim s = s | Lucide _ => True end ->
  cat_id c ∉ (cat_id <$> acc) -> category_step acc c = acc ++ [c].
Proof.
  intros ((Hne & Ht & Hd) & (Hn & Hn10) & (hex & Hc & Hl & Hh) & Hi) Htn Hti Hin. unfold category_step.
  rewrite Ht, bool_decide_eq_false_2, bytes_eqb_ne by done. cbn [orb].
  rewrite (proj2 (existsb_id_false cat_id (cat_id c) acc) Hin). unfold trim_and_limit_chars. rewrite Htn, Hn10.
  rewrite bool_decide_eq_false_2 by done. rewrite Hc, normalize_color_fixed by done.
  assert (normalize_project_category_icon (cat_icon c) = Some (cat_icon c)) as ->.
  { destruct (cat_icon c) as [s|s]; cbn in *.
    - unfold trim_and_limit_chars. rewrite Hti. destruct Hi as [Hs ->]. by rewrite bool_decide_eq_false_2.
    - assert (trim s = s) as ->.
      { revert Hi. unfold is_supported_project_category_icon_id, one_of. cbn [existsb]. rewrite !orb_true_iff, !bytes_eqb_eq.
        intros H. repeat destruct H as [->|H]; done. }
      rewrite Hi. rewrite bool_decide_eq_false_2; [done|]. by intros ->. }
  rewrite <- Hc. by destruct c.
Qed.

(** C38: whatever was read, the preferences that are used are well-formed:
    categories and menu items have distinct, trimmed, supported ids, names and
    emoji are not empty and at most ten and four characters long, colours are six
    lower-case hex digits; and preferences that are well-formed, with trimmed
    names, are used as they are. *)
Theorem preferences_are_normalized p :
  preferences_ok (normalized p) /\ (preferences_ok p -> names_trimmed p -> normalized p = p).
Proof.
  split.
  - assert (Hc : forall l acc, NoDup (cat_id <$> acc) /\ Forall category_ok acc ->
      NoDup (cat_id <$> foldl category_step acc l) /\ Forall category_ok (foldl category_step acc l)).
    { induction l as [|c l IH]; intros acc Hacc; [done|]. by apply IH, category_step_ok. }
    unfold preferences_ok, normalized. cbn. split_and!; try done; try apply normalize_menu_items_ok;
      [|apply Hc; split; constructor..].
    apply Forall_forall. intros org Ho. by apply list_elem_of_filter in Ho as [? _].
  - intros (Ho & Hg & Hi & (Hnd & Hc) & Hleg) Ht. destruct p as [m v co oo g i c d leg]. cbn in *. subst leg.
    unfold normalized. cbn. f_equal.
    + apply filter_full. by rewrite Forall_forall in Ho.
    + by apply normalize_menu_items_fixed.
    + destruct i as [|x i]; [done|]. by apply (normalize_menu_items_fixed _ (x :: i)).
    + unfold normalize_project_categories, names_trimmed in *. cbn in Ht.
      assert (Hf : forall acc, NoDup (cat_id <$> acc ++ c) -> foldl category_step acc c = acc ++ c).
      { clear Hnd. induction Hc as [|x l Hx _ IH]; intros acc Hnd; [by rewrite app_nil_r|].
        apply Forall_cons in Ht as [[Hn He] Ht]. cbn [foldl]. rewrite category_step_fixed; try done.
        - rewrite IH; [by rewrite <- app_assoc|done|by rewrite <- app_assoc].
        - rewrite fmap_app in Hnd. apply NoDup_app in Hnd as (_ & Hd & _).
          intros Hin. apply (Hd _ Hin), list_elem_of_here. }
      by apply (Hf []).
Qed.

(** * Examples *)

Module ConfigExamples.
Definition ops (name : string) : ProjectCategory :=
  mkProjectCategory (str " ops ") (str name) (str "#AABBCC") (Lucide (str "bug")).
Definition prefs (c : list ProjectCategory) : GrovePreferences :=
  mkGrovePreferences External DefaultView [] [] [] [] c 1 (Some (mkIdeMenuItem (str "vscode") None None)).

Lemma preferences_are_normalized_witness :
  normalized (prefs [ops "Operations"]) =
    mkGrovePreferences External DefaultView [] [] [] [mkIdeMenuItem (str "vscode") None None]
      [mkProjectCategory (str "ops") (str "Operations") (str "#aabbcc") (Lucide (str "bug"))] 1 None /\
  normalized (normalized (prefs [ops "Operations"])) = normalized (prefs [ops "Operations"]).
Proof.
  split; [vm_compute; reflexivity|].
  apply (preferences_are_normalized (normalized (prefs [ops "Operations"]))).
  - apply (preferences_are_normalized (prefs [ops "Operations"])).
  - apply Forall_cons_2; [split; [vm_compute; reflexivity|exact I]|apply Forall_nil_2].
Defined.

(** A name that is cut before a space is cut again the next time. *)
Example normalization_needs_two_passes :
  cat_name <$> project_categories (normalized (prefs [ops "My project list"])) = [str "My project"] /\
  cat_name <$> project_categories (normalized (prefs [ops "My team's projects"])) = [str "My team's "] /\
  cat_name <$> project_categories (normalized (normalized (prefs [ops "My team's projects"]))) = [str "My team's"].
Proof. split_and!; vm_compute; reflexivity. Qed.

(** A file that does not parse, and what saving the preferences makes of it. *)
Example unreadable_config_is_overwritten (decode : bytes -> option GroveConfig) (damaged : bytes) p :
  decode damaged = None ->
  save_grove_preferences_to_path decode (fun c => str (if bool_decide (projects c = []) then "no projects" else "projects"))
    (Some (Ok damaged)) p = str "no projects".
Proof. intros H. unfold save_grove_preferences_to_path, load_config_from_path. by rewrite H. Qed.

End ConfigExamples.
