(* ===== verification/World.v ===== *)
(** The world the project commands run in: what git, libgit2 and the file system
    answer is an arbitrary function of everything done so far, and what the
    commands do is a log of events. A command is a state-passing function over
    the log and the configuration file. *)

From S2P Require Import Prelude Utf8 Text Paths Config.

Inductive event :=
| Git (cwd : bytes) (args : list bytes)
| SaveConfig (c : GroveConfig)
| CreateDirAll (p : bytes)
| RemoveDirAll (p : bytes)
| WriteFile (p content : bytes)
| CopyFile (src dst : bytes)
| Rename (src dst : bytes)
| RemoveFile (p : bytes)
| SetExecutable (p : bytes)
| Cleanup (worktree_path : bytes).       (* the resources of a worktree *)

(** A repository as libgit2 shows it. *)
Record Repo := mkRepo {
  origin_url : option bytes;
  remote_urls : list (option bytes);     (* in the order of [remotes()] *)
  has_changes : bool;
  last_fetch : option Z;                 (* when FETCH_HEAD was modified, in milliseconds *)
  clock : Z;
  head_commit : option bytes;
  reference_commit : bytes -> option bytes
}.

Record World := mkWorld {
  git : list event -> bytes -> list bytes -> option (bool * bytes * bytes);
    (* [None]: git did not start; else success, stdout, stderr *)
  exit_code : list event -> bytes -> list bytes -> option Z;
  save_fails : list event -> option GroveConfig;
    (* on a failure, what the file loads as afterwards *)
  mkdir_ok : list event -> bytes -> bool;
  write_ok : list event -> bytes -> bool;
  path_exists : list event -> bytes -> bool;
  is_dir : list event -> bytes -> bool;
  is_file : list event -> bytes -> bool;
  child_directories : list event -> bytes -> list bytes;
  canonicalize : list event -> bytes -> option bytes;
  created : list event -> bytes -> Z;
  repo : list event -> bytes -> option Repo;
  new_uuid : list event -> bytes -> bytes;
  check_ignore : list event -> bytes -> bytes -> option bytes;
  home_base : bytes                      (* [default_base_dir] *)
}.

Record St := mkSt { log : list event; disk : GroveConfig }.

(** * The monads *)

Definition State (S A : Type) : Type := S -> A * S.
Definition M : Type -> Type := State St.
Definition ret {S A} (a : A) : State S A := fun s => (a, s).
Definition bind {S A B} (m : State S A) (k : A -> State S B) : State S B := fun s => let '(a, s) := m s in k a s.
Definition try_bind {S A B} (m : State S (result A bytes)) (k : A -> State S (result B bytes)) :
    State S (result B bytes) :=
  fun s => let '(r, s) := m s in match r with Ok a => k a s | Err e => (Err e, s) end.
Definition lift {A} (r : result A bytes) : M (result A bytes) := ret r.

Declare Scope world_scope.
Delimit Scope world_scope with world.
Notation "'let*' x ':=' m 'in' k" := (bind m (fun x => k))
  (at level 10, x pattern, m at level 200, k at level 200) : world_scope.
Notation "'let!' x ':=' m 'in' k" := (try_bind m (fun x => k))
  (at level 10, x pattern, m at level 200, k at level 200) : world_scope.

(** What the world answers now. *)
Definition ask {A} (f : list event -> A) : M A := fun s => (f (log s), s).
Definition emit (e : event) : M unit := fun s => (tt, mkSt (log s ++ [e]) (disk s)).
Definition load_config : M GroveConfig := fun s => (disk s, s).

#[local] Open Scope world_scope.

Section world.
Context (w : World).

Definition save_config (c : GroveConfig) : M (result unit bytes) := fun s =>
  match save_fails w (log s) with
  | None => (Ok tt, mkSt (log s ++ [SaveConfig c]) c)
  | Some d => (Err (str "Failed to write config"), mkSt (log s ++ [SaveConfig c]) d)
  end.

Definition create_dir_all (p : bytes) : M (result unit bytes) := fun s =>
  (if mkdir_ok w (log s) p then Ok tt else Err (str "Failed to create directory"),
   mkSt (log s ++ [CreateDirAll p]) (disk s)).

Definition git_raw (cwd : bytes) (args : list bytes) : M (option (bool * bytes * bytes)) := fun s =>
  (git w (log s) cwd args, mkSt (log s ++ [Git cwd args]) (disk s)).

(** [run_git_output]: the trimmed output, or a message with the trimmed errors. *)
Definition run_git_output (cwd : bytes) (args : list bytes) : M (result bytes bytes) :=
  let* out := git_raw cwd args in
  ret (match out with
       | None => Err (str "Failed to run git " ++ default [] (head args))
       | Some (true, out, _) => Ok (trim (from_utf8_lossy out))
       | Some (false, _, err) =>
           Err (str "git " ++ default [] (head args) ++ str " failed: " ++ trim (from_utf8_lossy err))
       end).

Definition run_git (cwd : bytes) (args : list bytes) : M (result unit bytes) :=
  let! _ := run_git_output cwd args in ret (Ok tt).
End world.

(** * Laws *)

(** What a command adds to the log satisfies [P], and it keeps the file. *)
Definition does {A} (P : event -> Prop) (m : M A) : Prop :=
  forall s, exists es, log (m s).2 = log s ++ es /\ Forall P es.
Definition keeps_disk {A} (m : M A) : Prop := forall s, disk (m s).2 = disk s.

Lemma does_ret {A} P (a : A) : does P (ret a).
Proof. intros s. exists []. cbn. rewrite app_nil_r. split; [done|constructor]. Qed.
Lemma does_ask {A} P (f : list event -> A) : does P (ask f).
Proof. intros s. exists []. cbn. rewrite app_nil_r. split; [done|constructor]. Qed.
Lemma does_load P : does P load_config.
Proof. intros s. exists []. cbn. rewrite app_nil_r. split; [done|constructor]. Qed.
Lemma does_emit (P : event -> Prop) e : P e -> does P (emit e).
Proof. intros He s. exists [e]. split; [done|by constructor]. Qed.
Lemma does_bind {A B} P (m : M A) (k : A -> M B) : does P m -> (forall a, does P (k a)) -> does P (bind m k).
Proof.
  intros Hm Hk s. destruct (Hm s) as (es & Hes & Hp). unfold bind. destruct (m s) as [a s'] eqn:E. cbn in Hes.
  destruct (Hk a s') as (es' & Hes' & Hp'). exists (es ++ es'). rewrite Hes', Hes, <- app_assoc.
  split; [done|]. by apply Forall_app.
Qed.
Lemma does_try {A B} P (m : M (result A bytes)) (k : A -> M (result B bytes)) :
  does P m -> (forall a, does P (k a)) -> does P (try_bind m k).
Proof.
  intros Hm Hk s. destruct (Hm s) as (es & Hes & Hp). unfold try_bind. destruct (m s) as [[a|e] s'] eqn:E; cbn in Hes.
  - destruct (Hk a s') as (es' & Hes' & Hp'). exists (es ++ es'). rewrite Hes', Hes, <- app_assoc.
    split; [done|]. by apply Forall_app.
  - by exists es.
Qed.
Lemma does_save (P : event -> Prop) w c : P (SaveConfig c) -> does P (save_config w c).
Proof. intros He s. unfold save_config. exists [SaveConfig c]. destruct (save_fails _ _); (split; [done|by constructor]). Qed.
Lemma does_mkdir (P : event -> Prop) w p : P (CreateDirAll p) -> does P (create_dir_all w p).
Proof. intros He s. exists [CreateDirAll p]. split; [done|by constructor]. Qed.
Lemma does_git_output (P : event -> Prop) w cwd args : P (Git cwd args) -> does P (run_git_output w cwd args).
Proof. intros He s. exists [Git cwd args]. split; [done|by constructor]. Qed.
Lemma does_git_raw (P : event -> Prop) w cwd args : P (Git cwd args) -> does P (git_raw w cwd args).
Proof. intros He s. exists [Git cwd args]. split; [done|by constructor]. Qed.
Lemma does_git (P : event -> Prop) w cwd args : P (Git cwd args) -> does P (run_git w cwd args).
Proof. intros He. apply does_try; [by apply does_git_output|intros; apply does_ret]. Qed.

Create HintDb world discriminated.
#[export] Hint Resolve does_ret does_ask does_load does_emit does_bind does_try does_save does_mkdir
  does_git_output does_git_raw does_git : world.

Lemma disk_ret {A} (a : A) : keeps_disk (ret a).
Proof. done. Qed.
Lemma disk_ask {A} (f : list event -> A) : keeps_disk (ask f).
Proof. done. Qed.
Lemma disk_emit e : keeps_disk (emit e).
Proof. done. Qed.
Lemma disk_bind {A B} (m : M A) (k : A -> M B) : keeps_disk m -> (forall a, keeps_disk (k a)) -> keeps_disk (bind m k).
Proof. intros Hm Hk s. unfold bind. specialize (Hm s). destruct (m s) as [a s']. by rewrite Hk. Qed.
Lemma disk_try {A B} (m : M (result A bytes)) (k : A -> M (result B bytes)) :
  keeps_disk m -> (forall a, keeps_disk (k a)) -> keeps_disk (try_bind m k).
Proof. intros Hm Hk s. unfold try_bind. specialize (Hm s). destruct (m s) as [[a|e] s']; [by rewrite Hk|done]. Qed.
Lemma disk_mkdir w p : keeps_disk (create_dir_all w p).
Proof. done. Qed.
Lemma disk_git_output w cwd args : keeps_disk (run_git_output w cwd args).
Proof. done. Qed.
Lemma disk_git_raw w cwd args : keeps_disk (git_raw w cwd args).
Proof. done. Qed.
Lemma disk_git w cwd args : keeps_disk (run_git w cwd args).
Proof. by apply disk_try. Qed.
#[export] Hint Resolve disk_ret disk_ask disk_emit disk_bind disk_try disk_mkdir disk_git_output disk_git_raw disk_git : world.

(** Worlds for examples: git answers as given, everything exists, all writes
    succeed. *)
Module ToyWorld.
Definition world (answer : list bytes -> option (bool * bytes * bytes)) (r : bytes -> option Repo)
    (dirs : bytes -> list bytes) : World :=
  mkWorld (fun _ _ args => answer args) (fun _ _ _ => None) (fun _ => None) (fun _ _ => true) (fun _ _ => true)
    (fun _ _ => true) (fun _ _ => true) (fun _ _ => true) (fun _ => dirs) (fun _ p => Some p) (fun _ _ => 0)
    (fun _ => r) (fun _ p => str "id-of-" ++ p) (fun _ _ _ => None) (str "/g").
Definition says (out : string) : option (bool * bytes * bytes) := Some (true, str out, []).
Definition fails (err : string) : option (bool * bytes * bytes) := Some (false, [], str err).
Definition start (ps : list ProjectEntry) : St := mkSt [] (mkGroveConfig ps None None None).
(** The commands of a log, without the directory. *)
Definition commands (s : St) : list (list bytes) := omap (fun e => match e with Git _ args => Some args | _ => None end) (log s).
End ToyWorld.
