(* ===== verification/UiStores.v ===== *)
(** The stores under ~/.grove that the panes and the front end keep (config.rs):
    terminal snapshots, panel and terminal layouts, the state of the interface.
    A file is its text; reading, writing and locking can fail at any call. *)

From S2P Require Import Prelude Utf8 Text Paths Json Config World.

#[local] Open Scope world_scope.

(** * The snapshots *)

Inductive TerminalRestoreCwdSource := LaunchCwd | LastKnownCwd.

Record TerminalPaneSnapshot := mkPaneSnapshot {
  ps_pane_id : bytes;
  ps_scrollback : bytes;
  ps_scrollback_truncated : bool;
  ps_launch_cwd : bytes;
  ps_last_known_cwd : option bytes;
  ps_restore_cwd : bytes;
  ps_restore_cwd_source : TerminalRestoreCwdSource
}.
Record TerminalSessionSnapshot := mkSessionSnapshot {
  ts_worktree_path : bytes;
  ts_panes : list TerminalPaneSnapshot
}.
Record TerminalSessionSnapshotStore := mkSnapshotStore {
  st_version : Z;
  st_worktrees : gmap bytes TerminalSessionSnapshot
}.
Definition snapshot_store_default : TerminalSessionSnapshotStore := mkSnapshotStore 1 ∅.

Definition source_name (s : TerminalRestoreCwdSource) : bytes :=
  match s with LaunchCwd => str "launchCwd" | LastKnownCwd => str "lastKnownCwd" end.
Definition source_of_name (s : bytes) : option TerminalRestoreCwdSource :=
  if bytes_eqb s (str "launchCwd") then Some LaunchCwd
  else if bytes_eqb s (str "lastKnownCwd") then Some LastKnownCwd
  else None.

Definition pane_value (p : TerminalPaneSnapshot) : Value :=
  object [(str "paneId", Str (ps_pane_id p)); (str "scrollback", Str (ps_scrollback p));
    (str "scrollbackTruncated", Bool (ps_scrollback_truncated p)); (str "launchCwd", Str (ps_launch_cwd p));
    (str "lastKnownCwd", opt Str (ps_last_known_cwd p)); (str "restoreCwd", Str (ps_restore_cwd p));
    (str "restoreCwdSource", Str (source_name (ps_restore_cwd_source p)))].
Definition pane_of (v : Value) : option TerminalPaneSnapshot :=
  id ← get "paneId" v ≫= as_str; sb ← get "scrollback" v ≫= as_str; t ← get "scrollbackTruncated" v ≫= as_bool;
  l ← get "launchCwd" v ≫= as_str; k ← opt_field "lastKnownCwd" as_str v; r ← get "restoreCwd" v ≫= as_str;
  s ← (get "restoreCwdSource" v ≫= as_str) ≫= source_of_name;
  Some (mkPaneSnapshot id sb t l k r s).

Definition session_value (s : TerminalSessionSnapshot) : Value :=
  object [(str "worktreePath", Str (ts_worktree_path s)); (str "panes", Arr (pane_value <$> ts_panes s))].
Definition session_of (v : Value) : option TerminalSessionSnapshot :=
  w ← get "worktreePath" v ≫= as_str;
  panes ← match get "panes" v with None => Some [] | Some a => as_array a ≫= mapM pane_of end;
  Some (mkSessionSnapshot w panes).

(** A hash map is printed in some order and read in any. *)
Definition store_value (s : TerminalSessionSnapshotStore) : Value :=
  object [(str "version", Int (st_version s));
          (str "worktrees", object ((fun e => (e.1, session_value e.2)) <$> map_to_list (st_worktrees s)))].
Definition store_of (v : Value) : option TerminalSessionSnapshotStore :=
  _ ← as_object v;
  version ← match get "version" v with None => Some 1 | Some n => as_u32 n end;
  entries ← match get "worktrees" v with
            | None => Some []
            | Some m => as_object m ≫= mapM (fun e => s ← session_of e.2; Some (e.1, s))
            end;
  Some (mkSnapshotStore version (list_to_map entries)).

(** * Files *)

Inductive fs_op := MkDirs (p : bytes) | Put (p content : bytes).
Record Fs := mkFs { files : gmap bytes bytes; done : list fs_op }.

(** What the file system answers after what was done. A failed write leaves the
    file as [put_left] says. *)
Record Io := mkIo {
  io_home : option bytes;
  io_canonicalize : bytes -> option bytes;
  read_ok : list fs_op -> bytes -> bool;
  mkdirs_ok : list fs_op -> bytes -> bool;
  put_left : list fs_op -> bytes -> bytes -> option (option bytes);   (* [None]: written *)
  lock_ok : list fs_op -> bool;
  to_string_pretty : Value -> bytes;
  next_value : bytes -> option (option (Value * bytes))
    (* a [StreamDeserializer]: at the end, an error, or a value and the text after it *)
}.

Definition FM : Type -> Type := State Fs.

Definition file_at (p : bytes) : FM (option bytes) := fun s => (files s !! p, s).
Definition with_file (p : bytes) (c : option bytes) (m : gmap bytes bytes) : gmap bytes bytes :=
  match c with Some c => <[p := c]> m | None => delete p m end.

Section stores.
Context `{JsonText} (io : Io).

Definition can_read (p : bytes) : FM bool := fun s => (read_ok io (done s) p, s).
Definition guard_lock : FM (result unit bytes) := fun s =>
  (if lock_ok io (done s) then Ok tt else Err (str "Terminal session snapshot store lock poisoned"), s).

(** [fs::create_dir_all] and [fs::write]. *)
Definition mkdirs (p : bytes) : FM (result unit bytes) := fun s =>
  (if mkdirs_ok io (done s) p then Ok tt else Err (str "Failed to create dir"), mkFs (files s) (done s ++ [MkDirs p])).
Definition put (p content : bytes) : FM (result unit bytes) := fun s =>
  match put_left io (done s) p content with
  | None => (Ok tt, mkFs (<[p := content]> (files s)) (done s ++ [Put p content]))
  | Some rest => (Err (str "Failed to write " ++ p), mkFs (with_file p rest (files s)) (done s ++ [Put p content]))
  end.
Definition read_to_string (p : bytes) : FM (result bytes bytes) :=
  let* ok := can_read p in
  let* c := file_at p in
  ret (match c with
       | Some c => if ok && utf8_valid c then Ok c else Err (str "Failed to read " ++ p)
       | None => Err (str "Failed to read " ++ p)
       end).

Definition grove_data_path (filename : bytes) : result bytes bytes :=
  match io_home io with
  | Some h => Ok (path_join (path_join h (str ".grove")) filename)
  | None => Err (str "No home dir")
  end.

Definition save_json_file (path : bytes) (v : Value) : FM (result unit bytes) :=
  let! _ := match parent path with Some d => mkdirs d | None => ret (Ok tt) end in
  put path (to_string_pretty io v).

(** ** Terminal snapshots *)

Definition terminal_session_snapshots_path : result bytes bytes := grove_data_path (str "terminal-session-snapshots.json").

(** [Ok None]: there is nothing to recover. *)
Definition parse_json_with_trailing_data_recovery {T} (of_value : Value -> option T) (content : bytes) :
    result (option T) unit :=
  match next_value io content with
  | None => Ok None
  | Some None => Err tt
  | Some (Some (v, trailing)) =>
      match of_value v with
      | None => Err tt
      | Some t => Ok (if bool_decide (trim trailing = []) then None else Some t)
      end
  end.

Definition save_terminal_session_snapshot_store_to_path (path : bytes) (store : TerminalSessionSnapshotStore) :
    FM (result unit bytes) := save_json_file path (store_value store).

Definition load_terminal_session_snapshot_store_from_path (path : bytes) :
    FM (result TerminalSessionSnapshotStore bytes) :=
  let* there := file_at path in
  match there with
  | None => ret (Ok snapshot_store_default)
  | Some _ =>
      let! content := read_to_string path in
      match from_str content ≫= store_of with
      | Some store => ret (Ok store)
      | None =>
          match parse_json_with_trailing_data_recovery store_of content with
          | Ok (Some store) =>
              let! _ := save_terminal_session_snapshot_store_to_path path store in ret (Ok store)
          | Ok None | Err _ => ret (Err (str "Failed to parse " ++ path))
          end
      end
  end.

Definition load_terminal_session_snapshot_store : FM (result TerminalSessionSnapshotStore bytes) :=
  let! path := ret terminal_session_snapshots_path in
  let! _ := guard_lock in
  load_terminal_session_snapshot_store_from_path path.

Definition save_terminal_session_snapshot_store (store : TerminalSessionSnapshotStore) : FM (result unit bytes) :=
  let! path := ret terminal_session_snapshots_path in
  let! _ := guard_lock in
  save_terminal_session_snapshot_store_to_path path store.

Definition update_terminal_session_snapshot_store {R}
    (update : TerminalSessionSnapshotStore -> result (R * TerminalSessionSnapshotStore) bytes) : FM (result R bytes) :=
  let! path := ret terminal_session_snapshots_path in
  let! _ := guard_lock in
  let! store := load_terminal_session_snapshot_store_from_path path in
  let! r := ret (update store) in
  let! _ := save_terminal_session_snapshot_store_to_path path r.2 in
  ret (Ok r.1).

Definition load_terminal_session_snapshot (worktree_path : bytes) : FM (result (option TerminalSessionSnapshot) bytes) :=
  let! store := load_terminal_session_snapshot_store in ret (Ok (st_worktrees store !! worktree_path)).

(** ** Layouts and the state of the interface *)

(** A text under a name; a missing file is the empty object. *)
Definition save_text (filename text : bytes) : FM (result unit bytes) :=
  let! path := ret (grove_data_path filename) in
  let! _ := match parent path with Some d => mkdirs d | None => ret (Ok tt) end in
  put path text.
Definition load_text (filename : bytes) : FM (result bytes bytes) :=
  let! path := ret (grove_data_path filename) in
  let* there := file_at path in
  match there with Some _ => read_to_string path | None => ret (Ok (str "{}")) end.

Definition PANEL_LAYOUTS : bytes := str "panel-layouts.json".
Definition UI_STATE : bytes := str "ui-state.json".
Definition TERMINAL_LAYOUTS : bytes := str "terminal-layouts.json".
Definition save_panel_layouts_impl : bytes -> FM (result unit bytes) := save_text PANEL_LAYOUTS.
Definition load_panel_layouts_impl : FM (result bytes bytes) := load_text PANEL_LAYOUTS.
Definition save_ui_state_impl : bytes -> FM (result unit bytes) := save_text UI_STATE.
Definition load_ui_state_impl : FM (result bytes bytes) := load_text UI_STATE.
Definition save_terminal_layouts_impl : bytes -> FM (result unit bytes) := save_text TERMINAL_LAYOUTS.
Definition load_terminal_layouts_impl : FM (result bytes bytes) := load_text TERMINAL_LAYOUTS.

(** ** When a worktree is removed *)

Definition remove_entries (filename worktree_path : bytes) : FM (result unit bytes) :=
  let! raw := load_text filename in
  match from_str raw ≫= as_object with
  | None => ret (Err (str "Failed to parse " ++ filename))
  | Some m =>
      let '(m, removed) := remove_worktree_entries_from_json_map (io_canonicalize io) m worktree_path in
      if (removed : bool) then save_text filename (to_string_pretty io (Obj m)) else ret (Ok tt)
  end.
Definition remove_terminal_layouts_for_worktree : bytes -> FM (result unit bytes) := remove_entries TERMINAL_LAYOUTS.
Definition remove_panel_layouts_for_worktree : bytes -> FM (result unit bytes) := remove_entries PANEL_LAYOUTS.

Definition remove_worktree_entries_from_snapshot_store (store : TerminalSessionSnapshotStore) (worktree_path : bytes) :
    TerminalSessionSnapshotStore :=
  let keys := matching_worktree_keys (io_canonicalize io) (map_to_list (st_worktrees store)).*1 worktree_path in
  mkSnapshotStore (st_version store) (foldr delete (st_worktrees store) keys).

Definition remove_terminal_session_snapshot_for_worktree (worktree_path : bytes) : FM (result unit bytes) :=
  update_terminal_session_snapshot_store (fun store => Ok (tt, remove_worktree_entries_from_snapshot_store store worktree_path)).
End stores.

(** * What is stored is read back *)

Lemma pane_roundtrip p : pane_of (pane_value p) = Some p.
Proof. by destruct p as [i sb t l [k|] r []]. Qed.

Lemma session_roundtrip s : session_of (session_value s) = Some s.
Proof.
  destruct s as [w ps]. unfold session_of.
  change (get "worktreePath" (session_value (mkSessionSnapshot w ps))) with (Some (Str w)).
  change (get "panes" (session_value (mkSessionSnapshot w ps))) with (Some (Arr (pane_value <$> ps))).
  cbn [mbind option_bind as_str as_array]. rewrite (mapM_back _ _ ps pane_roundtrip). done.
Qed.

Lemma store_roundtrip s : 0 <= st_version s < 2 ^ 32 -> store_of (store_value s) = Some s.
Proof.
  destruct s as [n m]. cbn [st_version]. intros Hn. unfold store_of.
  set (fields := (fun e => (e.1, session_value e.2)) <$> map_to_list m).
  assert (Hk : fields.*1 = (map_to_list m).*1).
  { unfold fields. rewrite <- list_fmap_compose. by apply list_fmap_ext. }
  destruct (object_perm fields) as (l & Ho & Hp); [rewrite Hk; apply NoDup_fst_map_to_list|].
  assert (Hv : store_value (mkSnapshotStore n m) = object [(str "version", Int n); (str "worktrees", Obj l)]).
  { unfold store_value. cbn [st_version st_worktrees]. fold fields. by rewrite Ho. }
  rewrite Hv. change (get "version" _) with (Some (Int n)). change (get "worktrees" _) with (Some (Obj l)).
  change (as_object (object [(str "version", Int n); (str "worktrees", Obj l)])) with (Some [(str "version", Int n); (str "worktrees", Obj l)]).
  cbn [mbind option_bind as_object]. unfold as_u32.
  rewrite (proj2 (Z.leb_le 0 n)), (proj2 (Z.ltb_lt n (2 ^ 32))) by lia. cbn [andb mbind option_bind].
  destruct (Permutation_map_inv _ _ Hp) as (es & -> & Hes).
  change (map (fun e => (e.1, session_value e.2)) es) with ((fun e : bytes * TerminalSessionSnapshot => (e.1, session_value e.2)) <$> es).
  rewrite (mapM_back (fun e : bytes * TerminalSessionSnapshot => (e.1, session_value e.2))).
  - cbn [mbind option_bind]. f_equal. f_equal. rewrite <- (list_to_map_to_list m). symmetry.
    apply list_to_map_proper; [apply NoDup_fst_map_to_list|exact Hes].
  - intros [k s]. cbn [fst snd]. by rewrite session_roundtrip.
Qed.

Section laws.
Context `{JsonText} (io : Io).

(** What serde_json promises of the pretty text, and of reading the first value
    of a longer text. *)
Record io_laws : Prop := mkIoLaws {
  pretty_back v : json_ok v = true -> from_str (to_string_pretty io v) = Some v;
  pretty_text v : json_ok v = true -> utf8_valid (to_string_pretty io v) = true;
  pretty_first m junk : json_ok (Obj m) = true ->
    next_value io (to_string_pretty io (Obj m) ++ junk) = Some (Some (Obj m, junk))
}.
Context (L : io_laws).

Definition store_ok (s : TerminalSessionSnapshotStore) : Prop :=
  0 <= st_version s < 2 ^ 32 /\
  map_Forall (fun k t => utf8_valid k = true /\ json_ok (session_value t) = true) (st_worktrees s).

Lemma store_json_ok s : store_ok s -> json_ok (store_value s) = true.
Proof.
  intros [Hv Hm]. apply object_json_ok. constructor; [|constructor; [|constructor]].
  - split; [done|]. cbn [snd json_ok]. rewrite (proj2 (Z.leb_le _ _)), (proj2 (Z.ltb_lt _ _)); [done|lia|lia].
  - split; [done|]. cbn [snd]. apply object_json_ok, Forall_fmap. apply map_Forall_to_list in Hm.
    eapply Forall_impl; [exact Hm|]. by intros [k t].
Qed.

(** The calls that can fail do not, from here on. *)
Definition healthy : Prop :=
  (forall l p, read_ok io l p = true) /\ (forall l p, mkdirs_ok io l p = true) /\
  (forall l p c, put_left io l p c = None) /\ (forall l, lock_ok io l = true).

Lemma read_there (s : Fs) path c :
  files s !! path = Some c -> utf8_valid c = true -> read_ok io (done s) path = true ->
  read_to_string io path s = (Ok c, s).
Proof. intros Hf Hu Hr. unfold read_to_string, bind, can_read, file_at, ret. by rewrite Hr, Hf, Hu. Qed.

Lemma load_stored (s : Fs) path st :
  store_ok st -> files s !! path = Some (to_string_pretty io (store_value st)) -> read_ok io (done s) path = true ->
  load_terminal_session_snapshot_store_from_path io path s = (Ok st, s).
Proof.
  intros Hst Hf Hr. pose proof (store_json_ok _ Hst) as Hj. pose proof (proj1 Hst) as Hv. unfold load_terminal_session_snapshot_store_from_path, bind, try_bind, file_at. rewrite Hf.
  rewrite (read_there s path _ Hf (pretty_text L _ Hj) Hr). rewrite (pretty_back L _ Hj). cbn [mbind option_bind].
  by rewrite store_roundtrip.
Qed.

(** A save writes the text under its path, or fails. *)
Lemma save_json_spec (s : Fs) path v r s' :
  save_json_file io path v s = (r, s') ->
  match r with
  | Ok _ => files s' = <[path := to_string_pretty io v]> (files s)
  | Err _ => files s' = files s \/ exists rest, files s' = with_file path rest (files s)
  end.
Proof.
  unfold save_json_file, try_bind. destruct (parent path) as [d|]; unfold mkdirs, put, ret; cbn [files done].
  - destruct (mkdirs_ok _ _ _); [|intros [= <- <-]; by left]. cbn [files done].
    destruct (put_left _ _ _ _) as [rest|]; intros [= <- <-]; [right; by exists rest|done].
  - destruct (put_left _ _ _ _) as [rest|]; intros [= <- <-]; [right; by exists rest|done].
Qed.

Lemma save_healthy (s : Fs) path v : healthy -> exists s', save_json_file io path v s = (Ok tt, s').
Proof.
  intros (_ & Hm & Hp & _). unfold save_json_file, try_bind. destruct (parent path); unfold mkdirs, put, ret; cbn [files done].
  - rewrite Hm. cbn [files done]. rewrite Hp. eauto.
  - rewrite Hp. eauto.
Qed.

(** Snapshots that were saved are what is loaded, and a file that holds them
    with other text after them, as two writers leave it, is loaded as well and
    written anew, after which it holds nothing else. *)
Theorem snapshots_are_recovered (s : Fs) (path : bytes) (st : TerminalSessionSnapshotStore) (junk : bytes) :
  healthy -> terminal_session_snapshots_path io = Ok path -> store_ok st ->
  let text := to_string_pretty io (store_value st) in
  (exists s1, save_terminal_session_snapshot_store io st s = (Ok tt, s1) /\
     load_terminal_session_snapshot_store io s1 = (Ok st, s1)) /\
  (files s !! path = Some (text ++ junk) -> from_str (text ++ junk) = None -> utf8_valid (text ++ junk) = true ->
   trim junk <> [] ->
   exists s1, load_terminal_session_snapshot_store io s = (Ok st, s1) /\ files s1 = <[path := text]> (files s) /\
     load_terminal_session_snapshot_store io s1 = (Ok st, s1)).
Proof.
  intros Hh Hp Hst text. pose proof Hh as (Hr & _ & _ & Hl). pose proof (store_json_ok _ Hst) as Hj. pose proof (proj1 Hst) as Hv.
  assert (Hload : forall s1, files s1 !! path = Some text -> load_terminal_session_snapshot_store io s1 = (Ok st, s1)).
  { intros s1 Hf. unfold load_terminal_session_snapshot_store, try_bind, ret, guard_lock. rewrite Hp, Hl. by apply load_stored. }
  split.
  - destruct (save_healthy s path (store_value st) Hh) as [s1 Hs]. exists s1.
    unfold save_terminal_session_snapshot_store, try_bind, ret, guard_lock. rewrite Hp, Hl.
    unfold save_terminal_session_snapshot_store_to_path. split; [done|]. apply Hload.
    apply save_json_spec in Hs. by rewrite Hs, lookup_insert_eq.
  - intros Hf Hn Hu Ht. destruct (save_healthy s path (store_value st) Hh) as [s1 Hs]. exists s1.
    pose proof (save_json_spec _ _ _ _ _ Hs) as Hf1. cbn in Hf1.
    split; [|split; [done|apply Hload; by rewrite Hf1, lookup_insert_eq]].
    unfold load_terminal_session_snapshot_store, try_bind, ret, guard_lock. rewrite Hp, Hl.
    unfold load_terminal_session_snapshot_store_from_path, bind, try_bind, file_at. rewrite Hf.
    rewrite (read_there s path _ Hf Hu (Hr _ _)), Hn. cbn [mbind option_bind].
    unfold parse_json_with_trailing_data_recovery. destruct (store_value st) as [| | | | | |m] eqn:Em; try done.
    unfold text at 1. rewrite (pretty_first L m junk Hj), <- Em, store_roundtrip by done.
    rewrite bool_decide_eq_false_2 by done. unfold save_terminal_session_snapshot_store_to_path. rewrite Em. by rewrite Hs.
Qed.

(** ** Forgetting a worktree *)

Definition same_worktree (a b : bytes) : bool :=
  path_eqb (normalized_worktree_path (io_canonicalize io) a) (normalized_worktree_path (io_canonicalize io) b).

Lemma matching_spec keys wt k : k ∈ matching_worktree_keys (io_canonicalize io) keys wt <-> same_worktree k wt = true /\ k ∈ keys.
Proof. unfold matching_worktree_keys. rewrite list_elem_of_filter. done. Qed.

Lemma foldr_delete_lookup {A} (m : gmap bytes A) ks k :
  foldr delete m ks !! k = if bool_decide (k ∈ ks) then None else m !! k.
Proof.
  induction ks as [|x ks IH]; cbn [foldr]; [by rewrite bool_decide_eq_false_2 by apply not_elem_of_nil|].
  destruct (decide (x = k)) as [->|Hne].
  - rewrite lookup_delete_eq. by rewrite bool_decide_eq_true_2 by apply list_elem_of_here.
  - rewrite lookup_delete_ne, IH by done. rewrite (bool_decide_ext (k ∈ x :: ks) (k ∈ ks)); [done|].
    rewrite elem_of_cons. split; [by intros [->|]|by right].
Qed.

Lemma snapshots_removed st wt k :
  st_worktrees (remove_worktree_entries_from_snapshot_store io st wt) !! k =
    if same_worktree k wt then None else st_worktrees st !! k.
Proof.
  cbn [remove_worktree_entries_from_snapshot_store st_worktrees]. rewrite foldr_delete_lookup.
  destruct (st_worktrees st !! k) as [t|] eqn:E; [|by destruct (bool_decide _), (same_worktree k wt)].
  assert (Hk : k ∈ (map_to_list (st_worktrees st)).*1) by (apply list_elem_of_fmap; exists (k, t); split; [done|by apply elem_of_map_to_list]).
  case_bool_decide as Hb; rewrite matching_spec in Hb; [by destruct Hb as [-> _]|].
  destruct (same_worktree k wt); [by destruct Hb|done].
Qed.

Lemma removed_store_ok st wt : store_ok st -> store_ok (remove_worktree_entries_from_snapshot_store io st wt).
Proof.
  intros [Hv Hm]. split; [done|]. intros k t Hk. rewrite snapshots_removed in Hk.
  destruct (same_worktree k wt); [done|]. by apply Hm.
Qed.

Lemma obj_get_remove k k' m : obj_get k (obj_remove k' m) = if bytes_eqb k k' then None else obj_get k m.
Proof.
  destruct (bytes_eqb k k') eqn:E.
  - apply bytes_eqb_eq in E as ->. apply obj_get_in. intros (e & He & Hin)%list_elem_of_fmap.
    apply list_elem_of_filter in Hin as [Hn _]. congruence.
  - apply obj_get_remove_ne. intros ->. by rewrite bytes_eqb_refl in E.
Qed.

Lemma fold_removed ks m b :
  let x := foldl (fun s k => (obj_remove k s.1, s.2 || match obj_get k s.1 with Some _ => true | None => false end)) (m, b) ks in
  (forall k, obj_get k x.1 = if bool_decide (k ∈ ks) then None else obj_get k m) /\
  (json_ok (Obj m) = true -> json_ok (Obj x.1) = true) /\
  (x.2 = false -> Forall (fun k => obj_get k m = None) ks).
Proof.
  revert m b. induction ks as [|k ks IH]; intros m b; cbn [foldl].
  { split; [intros k; by rewrite bool_decide_eq_false_2 by apply not_elem_of_nil|]. split; [done|constructor]. }
  specialize (IH (obj_remove k m) (b || match obj_get k m with Some _ => true | None => false end)). destruct IH as (H1 & H2 & H3).
  assert (Hmono : forall ks m b, (foldl (fun s k => (obj_remove k s.1, s.2 || match obj_get k s.1 with Some _ => true | None => false end)) (m, b) ks).2 = false -> b = false).
  { clear. induction ks as [|k ks IH]; intros m b; cbn [foldl snd]; [done|]. intros H%IH. by apply orb_false_iff in H as [? _]. }
  split; [|split].
  - intros k'. cbn [fst snd]. rewrite H1, obj_get_remove. destruct (bytes_eqb k' k) eqn:E.
    + apply bytes_eqb_eq in E as ->. rewrite (bool_decide_eq_true_2 (k ∈ k :: ks)) by apply list_elem_of_here. by case_bool_decide.
    + assert (Hne : k' <> k) by (intros ->; by rewrite bytes_eqb_refl in E).
      erewrite (bool_decide_ext (k' ∈ k :: ks) (k' ∈ ks)); [done|]. rewrite elem_of_cons. tauto.
  - intros Hm. cbn [fst snd]. by apply H2, json_remove_ok.
  - intros Hx. cbn [fst snd] in Hx. pose proof (Hmono _ _ _ Hx) as Hb. apply orb_false_iff in Hb as [_ Hb].
    constructor; [by destruct (obj_get k m)|]. specialize (H3 Hx). eapply Forall_impl; [exact H3|].
    intros k' Hk'. cbn beta in Hk'. rewrite obj_get_remove in Hk'. destruct (bytes_eqb k' k) eqn:E; [|done].
    apply bytes_eqb_eq in E as ->. by destruct (obj_get k m).
Qed.

Lemma map_entries_removed m wt :
  let '(m', removed) := remove_worktree_entries_from_json_map (io_canonicalize io) m wt in
  (forall k, obj_get k m' = if same_worktree k wt then None else obj_get k m) /\
  (json_ok (Obj m) = true -> json_ok (Obj m') = true) /\
  (removed = false -> forall k, same_worktree k wt = true -> obj_get k m = None).
Proof.
  unfold remove_worktree_entries_from_json_map.
  pose proof (fold_removed (matching_worktree_keys (io_canonicalize io) m.*1 wt) m false) as Hx. cbv zeta in Hx.
  destruct (foldl _ _ _) as [m' removed]. cbn [fst snd] in Hx. destruct Hx as (H1 & H2 & H3).
  assert (Hin : forall k, obj_get k m <> None -> same_worktree k wt = true -> k ∈ matching_worktree_keys (io_canonicalize io) m.*1 wt).
  { intros k Hk Hs. apply matching_spec. split; [done|]. destruct (decide (k ∈ m.*1)); [done|]. by apply obj_get_in in n. }
  split; [|split; [done|]].
  - intros k. rewrite H1. case_bool_decide as Hk; [by apply matching_spec in Hk as [-> _]|].
    destruct (same_worktree k wt) eqn:Hs; [|done]. destruct (obj_get k m) as [v|] eqn:E; [|done]. destruct Hk. apply Hin; congruence.
  - intros Hr k Hs. specialize (H3 Hr). destruct (obj_get k m) as [v|] eqn:E; [|done].
    assert (Hk : k ∈ matching_worktree_keys (io_canonicalize io) m.*1 wt) by (apply Hin; congruence).
    rewrite Forall_forall in H3. by rewrite (H3 k Hk) in E.
Qed.

Lemma snapshots_forgotten (s : Fs) (path wt : bytes) (st : TerminalSessionSnapshotStore) :
  healthy -> terminal_session_snapshots_path io = Ok path -> store_ok st ->
  files s !! path = Some (to_string_pretty io (store_value st)) \/ (files s !! path = None /\ st = snapshot_store_default) ->
  exists s', remove_terminal_session_snapshot_for_worktree io wt s = (Ok tt, s') /\
    load_terminal_session_snapshot_store io s' = (Ok (remove_worktree_entries_from_snapshot_store io st wt), s') /\
    files s' !! path = Some (to_string_pretty io (store_value (remove_worktree_entries_from_snapshot_store io st wt))) /\
    forall p, p <> path -> files s' !! p = files s !! p.
Proof.
  intros Hh Hp Hst Hf. pose proof Hh as (Hr & _ & _ & Hl). pose proof (removed_store_ok st wt Hst) as Hst'.
  set (st' := remove_worktree_entries_from_snapshot_store io st wt) in *.
  destruct (save_healthy s path (store_value st') Hh) as [s' Hs]. exists s'.
  pose proof (save_json_spec _ _ _ _ _ Hs) as Hfs. cbn in Hfs. split; [|split].
  - unfold remove_terminal_session_snapshot_for_worktree, update_terminal_session_snapshot_store, try_bind, ret, guard_lock.
    rewrite Hp, Hl. assert (Hload : load_terminal_session_snapshot_store_from_path io path s = (Ok st, s)).
    { destruct Hf as [Hf|[Hf ->]]; [by apply load_stored|].
      unfold load_terminal_session_snapshot_store_from_path, bind, file_at, ret. by rewrite Hf. }
    rewrite Hload. cbn [snd fst]. unfold save_terminal_session_snapshot_store_to_path. fold st'. by rewrite Hs.
  - unfold load_terminal_session_snapshot_store, try_bind, ret, guard_lock. rewrite Hp, Hl.
    apply load_stored; [done| |done]. by rewrite Hfs, lookup_insert_eq.
  - split; [by rewrite Hfs, lookup_insert_eq|]. intros p Hne. by rewrite Hfs, lookup_insert_ne.
Qed.

Lemma save_text_healthy (s : Fs) name path text :
  healthy -> grove_data_path io name = Ok path ->
  exists s', save_text io name text s = (Ok tt, s') /\ files s' = <[path := text]> (files s).
Proof.
  intros (_ & Hm & Hp & _) Hg. unfold save_text, try_bind, ret. rewrite Hg. destruct (parent path) as [d|]; unfold mkdirs, put; cbn [files done].
  - rewrite Hm. cbn [files done]. rewrite Hp. eauto.
  - rewrite Hp. eauto.
Qed.

Lemma load_text_there (s : Fs) name path text :
  healthy -> grove_data_path io name = Ok path -> files s !! path = Some text -> utf8_valid text = true ->
  load_text io name s = (Ok text, s).
Proof.
  intros (Hr & _) Hg Hf Hu. unfold load_text, try_bind, bind, ret, file_at. rewrite Hg. cbn. rewrite Hf.
  by apply read_there.
Qed.

Lemma layouts_forgotten (s : Fs) (name path wt text : bytes) (m : list (bytes * Value)) :
  healthy -> grove_data_path io name = Ok path ->
  files s !! path = Some text -> utf8_valid text = true -> from_str text = Some (Obj m) -> json_ok (Obj m) = true ->
  exists s' text' m', remove_entries io name wt s = (Ok tt, s') /\
    load_text io name s' = (Ok text', s') /\ from_str text' = Some (Obj m') /\
    (forall k, obj_get k m' = if same_worktree k wt then None else obj_get k m) /\
    files s' !! path = Some text' /\
    forall p, p <> path -> files s' !! p = files s !! p.
Proof.
  intros Hh Hg Hf Hu Ht Hj. pose proof (map_entries_removed m wt) as Hm.
  unfold remove_entries, try_bind. rewrite (load_text_there s name path text Hh Hg Hf Hu), Ht. cbn [mbind option_bind as_object].
  destruct (remove_worktree_entries_from_json_map (io_canonicalize io) m wt) as [m' [|]]; destruct Hm as (H1 & H2 & H3).
  - destruct (save_text_healthy s name path (to_string_pretty io (Obj m')) Hh Hg) as (s' & Hs & Hfs). exists s', (to_string_pretty io (Obj m')), m'.
    split; [done|]. split; [|split; [by apply (pretty_back L), H2|split; [done|split; [by rewrite Hfs, lookup_insert_eq|by intros p Hne; rewrite Hfs, lookup_insert_ne]]]].
    apply (load_text_there s' name path); [done|done|by rewrite Hfs, lookup_insert_eq|by apply (pretty_text L), H2].
  - exists s, text, m. split; [done|]. split; [by apply (load_text_there s name path)|]. split; [done|]. split; [|by split].
    intros k. destruct (same_worktree k wt) eqn:E; [|done]. by apply H3.
Qed.

(** When a worktree is removed, each store forgets it, under every path that
    names its directory, and keeps what it holds of the others; no other file
    is touched. *)
Theorem worktree_is_forgotten (s : Fs) (wt : bytes) :
  healthy ->
  (forall path st, terminal_session_snapshots_path io = Ok path -> store_ok st ->
     files s !! path = Some (to_string_pretty io (store_value st)) ->
     exists s' st', remove_terminal_session_snapshot_for_worktree io wt s = (Ok tt, s') /\
       load_terminal_session_snapshot_store io s' = (Ok st', s') /\
       (forall k, st_worktrees st' !! k = if same_worktree k wt then None else st_worktrees st !! k) /\
       forall p, p <> path -> files s' !! p = files s !! p) /\
  (forall name path text m, name ∈ [PANEL_LAYOUTS; TERMINAL_LAYOUTS] -> grove_data_path io name = Ok path ->
     files s !! path = Some text -> utf8_valid text = true -> from_str text = Some (Obj m) -> json_ok (Obj m) = true ->
     exists s' text' m', remove_entries io name wt s = (Ok tt, s') /\
       load_text io name s' = (Ok text', s') /\ from_str text' = Some (Obj m') /\
       (forall k, obj_get k m' = if same_worktree k wt then None else obj_get k m) /\
       forall p, p <> path -> files s' !! p = files s !! p).
Proof.
  intros Hh. split.
  - intros path st Hp Hst Hf. destruct (snapshots_forgotten s path wt st Hh Hp Hst) as (s' & H1 & H2 & _ & H3); [by left|].
    exists s', (remove_worktree_entries_from_snapshot_store io st wt). split; [done|]. split; [done|]. split; [apply snapshots_removed|done].
  - intros name path text m _ Hg Hf Hu Ht Hj.
    destruct (layouts_forgotten s name path wt text m Hh Hg Hf Hu Ht Hj) as (s' & t' & m' & ? & ? & ? & ? & _ & ?). by exists s', t', m'.
Qed.

(** A file that is neither a store nor one with text after it stops every later
    load, save of a snapshot and removal, and is never replaced. *)
Theorem broken_store_is_final {R} (s : Fs) (path text : bytes) (update : TerminalSessionSnapshotStore -> result (R * TerminalSessionSnapshotStore) bytes) :
  terminal_session_snapshots_path io = Ok path -> files s !! path = Some text -> from_str text ≫= store_of = None ->
  (forall st, parse_json_with_trailing_data_recovery io store_of text <> Ok (Some st)) ->
  (exists e, load_terminal_session_snapshot_store io s = (Err e, s)) /\
  (exists e, update_terminal_session_snapshot_store io update s = (Err e, s)).
Proof.
  intros Hp Hf Hn Hr. assert (Hload : exists e, load_terminal_session_snapshot_store_from_path io path s = (Err e, s)).
  { assert (Hread : read_to_string io path s = (Ok text, s) \/ exists e, read_to_string io path s = (Err e, s)).
    { unfold read_to_string, bind, can_read, file_at, ret. rewrite Hf. cbn [files done].
      destruct (read_ok io (done s) path && utf8_valid text); [by left|right; by eexists]. }
    unfold load_terminal_session_snapshot_store_from_path, bind, try_bind, file_at. rewrite Hf.
    destruct Hread as [->|[e ->]]; [|by exists e]. rewrite Hn.
    destruct (parse_json_with_trailing_data_recovery io store_of text) as [[st|]|]; [by destruct (Hr st)|by eexists|by eexists]. }
  destruct Hload as [e He].
  unfold load_terminal_session_snapshot_store, update_terminal_session_snapshot_store, try_bind, ret, guard_lock. rewrite Hp.
  destruct (lock_ok io (done s)); [|split; by eexists]. rewrite He. split; by eexists.
Qed.
End laws.


(** * Examples *)

Module UiStoresExamples.
Import Json.AsciiJson.

Definition io : Io := mkIo (Some (str "/h")) Some (fun _ _ => true) (fun _ _ => true) (fun _ _ _ => None) (fun _ => true)
  text_of (fun b => match b with [] => None | _ => Some (first_value b) end).
Lemma io_is_lawful : io_laws io.
Proof.
  split.
  - intros v _. apply from_to_text.
  - intros v _. apply text_utf8.
  - intros m junk _. cbn [next_value io to_string_pretty]. rewrite first_value_text. by destruct (text_of (Obj m)) eqn:E.
Qed.
Lemma io_is_healthy : healthy io.
Proof. by repeat split. Qed.

Definition st : TerminalSessionSnapshotStore := mkSnapshotStore 1
  (<[str "/a" := mkSessionSnapshot (str "/a") []]> {[str "/b" := mkSessionSnapshot (str "/b") [mkPaneSnapshot (str "p") (str "$ ") false (str "/b") None (str "/b") LaunchCwd]]}).
Lemma st_ok : store_ok st.
Proof.
  split; [cbn; lia|]. apply map_Forall_insert_2; [by split; vm_compute|]. apply map_Forall_singleton. by split; vm_compute.
Qed.
Definition path : bytes := str "/h/.grove/terminal-session-snapshots.json".

(** Another writer's tail after the store. *)
Lemma snapshots_are_recovered_witness :
  let text := text_of (store_value st) in
  let s := mkFs {[path := text ++ str "xx"]} [] in
  exists s1, load_terminal_session_snapshot_store io s = (Ok st, s1) /\ files s1 = <[path := text]> (files s) /\
    load_terminal_session_snapshot_store io s1 = (Ok st, s1).
Proof.
  intros text s.
  refine (proj2 (snapshots_are_recovered io io_is_lawful s path st (str "xx") io_is_healthy eq_refl st_ok) _ _ _ _).
  - exact (lookup_insert_eq ∅ path (text ++ str "xx")).
  - vm_compute. reflexivity.
  - vm_compute. reflexivity.
  - vm_compute. discriminate.
Defined.

Lemma worktree_is_forgotten_witness :
  let s := mkFs {[path := text_of (store_value st)]} [] in
  exists s' st', remove_terminal_session_snapshot_for_worktree io (str "/a/") s = (Ok tt, s') /\
    load_terminal_session_snapshot_store io s' = (Ok st', s') /\
    st_worktrees st' !! str "/a" = None /\ st_worktrees st' !! str "/b" = st_worktrees st !! str "/b".
Proof.
  intros s.
  destruct (proj1 (worktree_is_forgotten io io_is_lawful s (str "/a/") io_is_healthy) path st eq_refl st_ok
    (lookup_insert_eq ∅ path (text_of (store_value st)))) as (s' & st' & H1 & H2 & H3 & _).
  exists s', st'. split; [exact H1|]. split; [exact H2|]. split; [exact (H3 (str "/a"))|exact (H3 (str "/b"))].
Defined.

(** A write that stops half way, as at a full disk or a loss of power, leaves a
    text that is never a store again: from then on no snapshot is saved. *)
Definition half_io : Io := mkIo (Some (str "/h")) Some (fun _ _ => true) (fun _ _ => true)
  (fun l _ c => if zlen l =? 1 then Some (Some (take 5 c)) else None) (fun _ => true)
  text_of (fun b => match b with [] => None | _ => Some (first_value b) end).
Example half_written_store_is_final :
  let s1 := (save_terminal_session_snapshot_store half_io st (mkFs ∅ [])).2 in
  let s2 := (update_terminal_session_snapshot_store half_io (fun _ => Ok (tt, st)) s1) in
  files s1 !! path = Some (take 5 (text_of (store_value st))) /\
  s2 = (Err (str "Failed to parse " ++ path), s1).
Proof. by split; vm_compute. Qed.
End UiStoresExamples.
