(* ===== verification/GcInputs.v ===== *)
(** What a pass of the garbage collection reads and the signals it sends
    (grove-core/src/pty.rs): the directories of histories with their ages, the
    worktrees that are referenced, the table of processes, and kill. The pass
    itself is [Gc]. *)

From S2P Require Import Prelude Utf8 Text HistoryLog Json UiStores Gc.

#[local] Open Scope rust_scope.

(** * Directories of histories *)

Definition percent_encode_session_id : bytes -> bytes := percent_encode.

(** [u8::from_str_radix] on two bytes, which takes a plus sign. *)
Definition radix16 (a b : Z) : option Z :=
  if a =? 43 then hex_digit b
  else match hex_digit a, hex_digit b with Some x, Some y => Some (16 * x + y) | _, _ => None end.
Fixpoint unescape (l : bytes) : option bytes :=
  match l with
  | [] => Some []
  | 37 :: t =>
      match t with
      | a :: b :: t => x ← radix16 a b; cons x <$> unescape t
      | _ => None
      end
  | b :: t => cons b <$> unescape t
  end.
Definition percent_decode_session_id (segment : bytes) : option bytes := unescape segment ≫= from_utf8.

(** An entry as the system shows it: the times, in seconds, are [None] when they
    cannot be read. *)
Record HistoryEntry := mkHistoryEntry {
  he_name : bytes;
  he_dir : bool;
  he_modified : option Z;
  he_created : option Z
}.
Definition entry_age (now : Z) (e : HistoryEntry) : Z :=
  match (match he_modified e with Some t => Some t | None => he_created e end) with
  | Some stamp => if stamp <=? now then now - stamp else 0
  | None => 0
  end.
Definition history_entry (now : Z) (e : HistoryEntry) : option HistoryDirInfo :=
  if he_dir e then
    id ← from_utf8 (he_name e) ≫= percent_decode_session_id;
    Some (mkHistoryDir id (entry_age now e))
  else None.
(** [None]: the root is no directory. *)
Definition collect_history_dirs (root : option (result (list HistoryEntry) bytes)) (now : Z) :
    result (list HistoryDirInfo) bytes :=
  match root with
  | None => Ok []
  | Some (Err e) => Err e
  | Some (Ok entries) => Ok (omap (history_entry now) entries)
  end.

(** * Referenced worktrees *)

Definition is_absolute (p : bytes) : bool := starts_with (str "/") p.
(** The texts of the two layouts and the snapshots, each as it was loaded. *)
Definition collect_referenced_worktree_paths `{JsonText} (terminal_layouts panel_layouts : result bytes bytes)
    (snapshots : result TerminalSessionSnapshotStore bytes) : result (list bytes) bytes :=
  let parsed name text :=
    match from_str text ≫= as_object with Some m => Ok m | None => Err (str "Failed to parse " ++ str name) end in
  let? text := terminal_layouts in
  let? terminals := parsed "terminal-layouts.json"%string text in
  let? text := panel_layouts in
  let? panels := parsed "panel-layouts.json"%string text in
  let? store := snapshots in
  Ok (bt_of_list
       (terminals.*1 ++ filter (fun k => is_absolute k = true) panels.*1 ++ (map_to_list (st_worktrees store)).*1)).

(** * Processes *)

(** A row of [ps -Ao pid=,ppid=,command=]. *)
Definition parse_row (line : bytes) : option ProcessSnapshot :=
  let trimmed := trim line in
  if bool_decide (trimmed = []) then None
  else
    match split_whitespace trimmed with
    | pid :: ppid :: command =>
        pid ← parse_u32 pid;
        ppid ← parse_u32 ppid;
        if bool_decide (join (str " ") command = []) then None else Some (mkProcess pid ppid)
    | _ => None
    end.
Definition parse_process_snapshots (output : bytes) : list ProcessSnapshot := omap parse_row (str_lines output).
(** [Err]: ps does not start; else its success, output and errors. *)
Definition list_process_snapshots (ps : result (bool * bytes * bytes) bytes) : result (list ProcessSnapshot) bytes :=
  match ps with
  | Err e => Err (str "failed to list processes: " ++ e)
  | Ok (false, _, err) => Err (str "failed to list processes: " ++ trim (from_utf8_lossy err))
  | Ok (true, out, _) => Ok (parse_process_snapshots (from_utf8_lossy out))
  end.

(** A kill that ended: its success, output, errors, and its status as text. *)
Record KillOutput := mkKill { kl_success : bool; kl_stdout : bytes; kl_stderr : bytes; kl_status : bytes }.
Definition command_output_message (o : KillOutput) : bytes :=
  let stderr := trim (from_utf8_lossy (kl_stderr o)) in
  let stdout := trim (from_utf8_lossy (kl_stdout o)) in
  if negb (bool_decide (stderr = [])) then stderr
  else if negb (bool_decide (stdout = [])) then stdout
  else str "kill exited with status " ++ kl_status o.
(** The processes that are signalled, in order, and the result; [kill] is what
    comes of each. *)
Fixpoint signal_processes (kill : Z -> result KillOutput bytes) (signal : bytes) (pids : list Z) : list Z * result unit bytes :=
  match pids with
  | [] => ([], Ok tt)
  | pid :: pids =>
      match kill pid with
      | Err e => ([], Err (str "failed to execute kill " ++ signal ++ str " " ++ show_dec pid ++ str ": " ++ e))
      | Ok o =>
          if kl_success o || contains (str "No such process") (command_output_message o) then
            let '(sent, r) := signal_processes kill signal pids in (pid :: sent, r)
          else ([pid], Err (str "kill " ++ signal ++ str " " ++ show_dec pid ++ str " failed: " ++ command_output_message o))
      end
  end.

(** * Laws *)

Lemma hex_upper_digit n : 0 <= n < 16 -> hex_upper n <> 43 /\ hex_digit (hex_upper n) = Some n.
Proof.
  intros Hn. unfold hex_upper, hex_digit, in_range. destruct (n <=? 9) eqn:E; split; try lia;
    repeat (case_match; [f_equal; lia|]); lia.
Qed.
Lemma unescape_encoded id : bytes_ok id -> unescape (percent_encode id) = Some id.
Proof.
  induction 1 as [|b id Hb _ IH]; [done|]. rewrite percent_encode_cons. unfold encode_byte, byte_ok in *.
  destruct (unreserved b) eqn:Eu.
  - cbn [app]. assert (Hb' : b <> 37) by (intros ->; by vm_compute in Eu).
    change (unescape (b :: percent_encode id) = Some (b :: id)).
    assert (E : forall t, unescape (b :: t) = cons b <$> unescape t).
    { intros t. destruct b as [|p|p]; try done. do 6 (destruct p as [p|p|]; try done). }
    by rewrite E, IH.
  - assert (H1 : 0 <= Z.shiftr b 4 < 16) by (rewrite Z.shiftr_div_pow2 by lia; split; [apply Z.div_pos|apply Z.div_lt_upper_bound]; lia).
    assert (H2 : 0 <= Z.land b 15 < 16).
    { change 15 with (Z.ones 4). rewrite Z.land_ones by lia. apply Z.mod_pos_bound. lia. }
    destruct (hex_upper_digit _ H1) as [N1 E1], (hex_upper_digit _ H2) as [_ E2].
    cbn [app unescape]. unfold radix16. rewrite (proj2 (Z.eqb_neq _ _) N1), E1, E2. cbn [mbind option_bind]. rewrite IH.
    cbn [fmap option_fmap option_map]. do 2 f_equal. rewrite Z.shiftr_div_pow2 by lia.
    change 15 with (Z.ones 4). rewrite Z.land_ones by lia. pose proof (Z.div_mod b (2 ^ 4)). lia.
Qed.

(** The directory of a session is taken for it, under its age, and what is removed
    for the session is that directory. *)
Theorem own_directory_is_collected id e entries now :
  bytes_ok id -> utf8_valid id = true -> he_name e = percent_encode_session_id id -> utf8_valid (he_name e) = true ->
  he_dir e = true -> e ∈ entries ->
  exists l, collect_history_dirs (Some (Ok entries)) now = Ok l /\ mkHistoryDir id (entry_age now e) ∈ l.
Proof.
  intros Hb Hu Hn Hv Hd He. eexists. split; [reflexivity|]. apply list_elem_of_omap. exists e. split; [done|].
  unfold history_entry, from_utf8. rewrite Hd, Hv. cbn [mbind option_bind]. rewrite Hn.
  unfold percent_decode_session_id, percent_encode_session_id. rewrite unescape_encoded by done. cbn [mbind option_bind].
  unfold from_utf8. by rewrite Hu.
Qed.

(** Signals go to the processes in order, to the first that cannot be signalled;
    a process that is gone is no failure. *)
Theorem signals_in_order kill signal pids :
  let '(sent, r) := signal_processes kill signal pids in
  sent `prefix_of` pids /\ (r = Ok tt -> sent = pids) /\
  ((forall p, p ∈ pids -> exists o, kill p = Ok o /\
      (kl_success o = true \/ contains (str "No such process") (command_output_message o) = true)) -> r = Ok tt).
Proof.
  induction pids as [|p pids IH]; cbn [signal_processes]; [by split_and!|].
  destruct (kill p) as [o|e] eqn:Ek.
  - destruct (kl_success o || _) eqn:Es.
    + destruct (signal_processes kill signal pids) as [sent r]. destruct IH as (H1 & H2 & H3). split_and!.
      * by apply prefix_cons.
      * intros Hr. by rewrite H2.
      * intros Ha. apply H3. intros q Hq. apply Ha. by right.
    + split_and!; [by exists pids|done|]. intros Ha. destruct (Ha p) as (o' & Ho & Hs); [by left|].
      rewrite Ek in Ho. injection Ho as <-. apply orb_false_iff in Es as [Es1 Es2]. destruct Hs; congruence.
  - split_and!; [by eexists|done|]. intros Ha. destruct (Ha p) as (o & Ho & _); [by left|]. congruence.
Qed.

(** Two names for one session: what is not escaped may be, and a plus sign is taken
    for a digit. The name that the daemon would not have made is collected as well,
    and the directory that is removed for it is the other. *)
Example alias_is_collected :
  collect_history_dirs (Some (Ok [mkHistoryEntry (str "%61bc") true (Some 0) None])) 1000 = Ok [mkHistoryDir (str "abc") 1000] /\
  percent_encode_session_id (str "abc") = str "abc" /\
  percent_decode_session_id (str "%+a") = Some [10] /\ HistoryLog.percent_decode (str "%+a") = None.
Proof. split_and!; vm_compute; reflexivity. Qed.
Example process_table_is_read :
  parse_process_snapshots (str "  501     1 /sbin/launchd" ++ [10] ++ str "77 501 /bin/zsh -l" ++ [10] ++ str "78 77" ++ [10]) =
    [mkProcess 501 1; mkProcess 77 501].
Proof. vm_compute. reflexivity. Qed.
