(* ===== verification/ConfigFile.v ===== *)
(** The configuration file as the commands use it (grove-core/src/config.rs):
    where it lies, loading and saving it, the settings with their theme, and the
    resources that a removed worktree leaves in the stores beside it
    (worktree_lifecycle.rs). The files are those of [UiStores]. *)

From S2P Require Import Prelude Utf8 Text Paths Json Config World UiStores.

#[local] Open Scope world_scope.

Section file.
Context (decode : bytes -> option GroveConfig) (encode : GroveConfig -> bytes) (io : Io).

(** * Where the files are *)

(** Without a home directory the configuration is looked for in the working
    directory, and the stores, [grove_data_path], are nowhere. *)
Definition config_path : bytes :=
  path_join (path_join (default (str ".") (io_home io)) (str ".grove")) (str "config.json").
Definition default_base_dir : bytes :=
  from_utf8_lossy (match io_home io with Some h => path_join h (str ".grove") | None => str ".grove" end).
Definition daemon_runtime_dir : result bytes bytes := grove_data_path io (str "daemon").

(** * Loading *)

(** [None]: no file; a file that cannot be read is an error here. *)
Definition config_file (path : bytes) : FM (option (result bytes unit)) :=
  let* there := file_at path in
  match there with
  | None => ret None
  | Some _ =>
      let* content := read_to_string io path in
      ret (Some (match content with Ok c => Ok c | Err _ => Err tt end))
  end.
Definition load_config : FM GroveConfig :=
  let* file := config_file config_path in ret (load_config_from_path decode file).
Definition load_app_config : FM AppConfig :=
  let* file := config_file config_path in ret (load_app_config_from_path decode default_base_dir file).
Definition load_grove_preferences : FM GrovePreferences :=
  let* app := load_app_config in ret (app_preferences app).
Definition app_config_default : AppConfig := mkAppConfig default_base_dir None grove_preferences_default.

(** [detected] is the theme of the terminal that is found on the system. *)
Definition get_app_config_impl (detected : Value) : FM AppConfig :=
  let* app := load_app_config in
  ret (mkAppConfig (app_base_dir app)
         (match app_terminal_theme app with Some t => Some t | None => Some detected end) (app_preferences app)).

(** * Saving *)

Definition write_config (content : bytes) : FM (result unit bytes) :=
  let! _ := match parent config_path with Some d => mkdirs io d | None => ret (Ok tt) end in
  put io config_path content.
Definition save_config (c : GroveConfig) : FM (result unit bytes) := write_config (encode c).
Definition save_app_config (app : AppConfig) : FM (result unit bytes) :=
  let* file := config_file config_path in
  write_config (save_app_config_to_path decode encode file app).
Definition save_grove_preferences (p : GrovePreferences) : FM (result unit bytes) :=
  let* file := config_file config_path in
  write_config (save_grove_preferences_to_path decode encode file p).

(** Any other store that is one JSON value. *)
Definition load_json_file_or_default {T} (of_text : bytes -> option T) (dflt : T) (path : bytes) : FM (result T bytes) :=
  let* there := file_at path in
  match there with
  | None => ret (Ok dflt)
  | Some _ =>
      let! content := read_to_string io path in
      ret (match of_text content with Some v => Ok v | None => Err (str "Failed to parse " ++ path) end)
  end.
End file.

(** * What a removed worktree leaves *)

Record WorktreeResource := mkResource {
  res_name : bytes;
  on_remove : bytes -> FM (result unit bytes)
}.

(** The failures are printed, and the next resource is told all the same. *)
Fixpoint cleanup_resources (resources : list WorktreeResource) (worktree_path : bytes) : FM (list (bytes * bytes)) :=
  match resources with
  | [] => ret []
  | r :: resources =>
      let* told := on_remove r worktree_path in
      let* warnings := cleanup_resources resources worktree_path in
      ret (match told with Ok _ => warnings | Err e => (res_name r, e) :: warnings end)
  end.

Section lifecycle.
Context `{JsonText} (io : Io).
Definition TerminalLayoutResource : WorktreeResource :=
  mkResource (str "terminal layouts") (remove_terminal_layouts_for_worktree io).
Definition SessionSnapshotResource : WorktreeResource :=
  mkResource (str "terminal session snapshots") (remove_terminal_session_snapshot_for_worktree io).
Definition PanelLayoutResource : WorktreeResource :=
  mkResource (str "panel layouts") (remove_panel_layouts_for_worktree io).
(** Closing the panes of the worktree is no work on files. *)
Definition PtySessionResource (close_ptys : bytes -> FM (result unit bytes)) : WorktreeResource :=
  mkResource (str "PTY sessions") close_ptys.
Definition default_worktree_lifecycle (close_ptys : bytes -> FM (result unit bytes)) : list WorktreeResource :=
  [TerminalLayoutResource; SessionSnapshotResource; PanelLayoutResource; PtySessionResource close_ptys].
End lifecycle.

(** * Operations that leave a file alone *)

Definition leaves {A} (p : bytes) (m : FM A) : Prop := forall s, files (m s).2 !! p = files s !! p.

Lemma leaves_ret {A} p (a : A) : leaves p (ret a : FM A).
Proof. done. Qed.
Lemma leaves_bind {A B} p (m : FM A) (k : A -> FM B) : leaves p m -> (forall a, leaves p (k a)) -> leaves p (bind m k).
Proof. intros Hm Hk s. unfold bind. specialize (Hm s). destruct (m s) as [a s1]. rewrite Hk. exact Hm. Qed.
Lemma leaves_try {A B} p (m : FM (result A bytes)) (k : A -> FM (result B bytes)) :
  leaves p m -> (forall a, leaves p (k a)) -> leaves p (try_bind m k).
Proof. intros Hm Hk s. unfold try_bind. specialize (Hm s). destruct (m s) as [[a|e] s1]; [rewrite Hk|]; exact Hm. Qed.
Lemma leaves_known {A B} p (r : result A bytes) a (k : A -> FM (result B bytes)) :
  r = Ok a -> leaves p (k a) -> leaves p (try_bind (ret r) k).
Proof. intros ->. done. Qed.
Lemma leaves_file_at p q : leaves p (file_at q).
Proof. done. Qed.
Lemma leaves_read io p q : leaves p (read_to_string io q).
Proof. done. Qed.
Lemma leaves_mkdirs io p q : leaves p (mkdirs io q).
Proof. done. Qed.
Lemma leaves_lock io p : leaves p (guard_lock io).
Proof. done. Qed.
Lemma leaves_put io p q c : p <> q -> leaves p (put io q c).
Proof.
  intros Hne s. unfold put. destruct (put_left io (done s) q c) as [[rest|]|]; cbn.
  - by rewrite lookup_insert_ne.
  - by rewrite lookup_delete_ne.
  - by rewrite lookup_insert_ne.
Qed.
Create HintDb leaves discriminated.
#[export] Hint Resolve leaves_ret leaves_file_at leaves_read leaves_mkdirs leaves_lock leaves_put : leaves.

(** Through the commands of a body, and the cases between them. *)
Ltac leave :=
  repeat first
    [ progress intros | done | solve [auto with leaves]
    | match goal with
      | |- leaves _ (try_bind _ _) => apply leaves_try
      | |- leaves _ (bind _ _) => apply leaves_bind
      | |- leaves _ (match ?x with _ => _ end) => destruct x
      end ].

Section removal.
Context `{JsonText} (io : Io).

Lemma leaves_save_json p q v : p <> q -> leaves p (save_json_file io q v).
Proof. intros Hne. unfold save_json_file. leave. Qed.
Lemma leaves_text p q name t : grove_data_path io name = Ok q -> p <> q -> leaves p (save_text io name t).
Proof. intros Hg Hne. unfold save_text. apply (leaves_known p _ _ _ Hg). leave. Qed.
Lemma leaves_load_text p name : leaves p (load_text io name).
Proof. unfold load_text. leave. Qed.
Lemma leaves_entries p q name wt : grove_data_path io name = Ok q -> p <> q -> leaves p (remove_entries io name wt).
Proof.
  intros Hg Hne. unfold remove_entries. apply leaves_try; [apply leaves_load_text|]. intros raw.
  destruct (from_str raw ≫= as_object) as [m|]; [|done].
  destruct (remove_worktree_entries_from_json_map _ _ _) as [m' [|]]; [by apply (leaves_text p q)|done].
Qed.
Lemma leaves_snapshots p q wt :
  terminal_session_snapshots_path io = Ok q -> p <> q -> leaves p (remove_terminal_session_snapshot_for_worktree io wt).
Proof.
  intros Hg Hne. pose proof (leaves_save_json p q) as Hs.
  unfold remove_terminal_session_snapshot_for_worktree, update_terminal_session_snapshot_store.
  apply (leaves_known p _ _ _ Hg).
  unfold load_terminal_session_snapshot_store_from_path, save_terminal_session_snapshot_store_to_path. leave.
Qed.

Lemma cleanup_append l1 l2 wt s :
  cleanup_resources (l1 ++ l2) wt s =
    (let '(w1, s1) := cleanup_resources l1 wt s in let '(w2, s2) := cleanup_resources l2 wt s1 in (w1 ++ w2, s2)).
Proof.
  revert s. induction l1 as [|r l1 IH]; intros s; cbn [cleanup_resources app].
  - unfold ret. by destruct (cleanup_resources l2 wt s).
  - unfold bind, ret. destruct (on_remove r wt s) as [told s1]. rewrite IH.
    destruct (cleanup_resources l1 wt s1) as [w1 s2], (cleanup_resources l2 wt s2) as [w2 s3]. by destruct told.
Qed.
Lemma cleanup_leaves p l wt : Forall (fun r => leaves p (on_remove r wt)) l -> leaves p (cleanup_resources l wt).
Proof.
  induction 1 as [|r l Hr _ IH]; cbn [cleanup_resources]; [done|]. apply leaves_bind; [done|]. intros told.
  apply leaves_bind; [done|]. by intros.
Qed.

(** The part of a clean-up that concerns one file is what its resource does. *)
Lemma cleanup_of_one p l1 r l2 wt s :
  Forall (fun r => leaves p (on_remove r wt)) l1 -> Forall (fun r => leaves p (on_remove r wt)) l2 ->
  exists s1, files s1 !! p = files s !! p /\
    files (cleanup_resources (l1 ++ r :: l2) wt s).2 !! p = files (on_remove r wt s1).2 !! p.
Proof.
  intros H1%cleanup_leaves H2%cleanup_leaves. rewrite cleanup_append. specialize (H1 s).
  destruct (cleanup_resources l1 wt s) as [w1 s1]. exists s1. split; [exact H1|]. cbn [cleanup_resources]. unfold bind, ret.
  destruct (on_remove r wt s1) as [told s2]. specialize (H2 s2). destruct (cleanup_resources l2 wt s2) as [w2 s3]. exact H2.
Qed.
End removal.

(** * What the clean-up and the settings guarantee *)

Lemma path_join_inj d a b : starts_with (str "/") a = false -> starts_with (str "/") b = false -> path_join d a = path_join d b -> a = b.
Proof.
  unfold path_join. intros -> ->. destruct (_ || _); intros E; [by apply app_inv_head in E|].
  by apply app_inv_head, app_inv_head in E.
Qed.

Section guarantees.
Context `{JsonText} (io : Io) (L : io_laws io) (Hh : healthy io).
Context (close_ptys : bytes -> FM (result unit bytes)) (Hc : forall p wt, leaves p (close_ptys wt)).

Lemma cleanup_of_store n1 n2 path wt s :
  grove_data_path io n1 = Ok path ->
  n1 = TERMINAL_LAYOUTS /\ n2 = PANEL_LAYOUTS \/ n1 = PANEL_LAYOUTS /\ n2 = TERMINAL_LAYOUTS ->
  exists s1, files s1 !! path = files s !! path /\
    files (cleanup_resources (default_worktree_lifecycle io close_ptys) wt s).2 !! path = files (remove_entries io n1 wt s1).2 !! path.
Proof.
  unfold grove_data_path, default_worktree_lifecycle. destruct (io_home io) as [h|] eqn:Eh; [|done]. intros [= <-] Hn.
  set (d := path_join h (str ".grove")).
  assert (Hsnap : forall n, path_join d n <> path_join d (str "terminal-session-snapshots.json") ->
    leaves (path_join d n) (on_remove (SessionSnapshotResource io) wt)).
  { intros n Hne. eapply leaves_snapshots; [unfold terminal_session_snapshots_path, grove_data_path; by rewrite Eh|done]. }
  assert (Hent : forall n m, path_join d n <> path_join d m -> leaves (path_join d n) (remove_entries io m wt)).
  { intros n m Hne. eapply leaves_entries; [unfold grove_data_path; by rewrite Eh|done]. }
  destruct Hn as [[-> ->]|[-> ->]].
  - apply (cleanup_of_one _ [] (TerminalLayoutResource io) [SessionSnapshotResource io; PanelLayoutResource io; PtySessionResource close_ptys]).
    + constructor.
    + constructor; [apply Hsnap; by intros E%path_join_inj|]. constructor; [apply Hent; by intros E%path_join_inj|].
      constructor; [apply Hc|constructor].
  - apply (cleanup_of_one _ [TerminalLayoutResource io; SessionSnapshotResource io] (PanelLayoutResource io) [PtySessionResource close_ptys]).
    + constructor; [apply Hent; by intros E%path_join_inj|]. constructor; [apply Hsnap; by intros E%path_join_inj|constructor].
    + constructor; [apply Hc|constructor].
Qed.

Lemma cleanup_of_snapshots path wt s :
  terminal_session_snapshots_path io = Ok path ->
  exists s1, files s1 !! path = files s !! path /\
    files (cleanup_resources (default_worktree_lifecycle io close_ptys) wt s).2 !! path =
    files (remove_terminal_session_snapshot_for_worktree io wt s1).2 !! path.
Proof.
  unfold terminal_session_snapshots_path, grove_data_path, default_worktree_lifecycle.
  destruct (io_home io) as [h|] eqn:Eh; [|done]. intros [= <-]. set (d := path_join h (str ".grove")).
  assert (Hent : forall n m, path_join d n <> path_join d m -> leaves (path_join d n) (remove_entries io m wt)).
  { intros n m Hne. eapply leaves_entries; [unfold grove_data_path; by rewrite Eh|done]. }
  apply (cleanup_of_one _ [TerminalLayoutResource io] (SessionSnapshotResource io) [PanelLayoutResource io; PtySessionResource close_ptys]).
  - constructor; [apply Hent; by intros E%path_join_inj|constructor].
  - constructor; [apply Hent; by intros E%path_join_inj|]. constructor; [apply Hc|constructor].
Qed.

(** The clean-up after a worktree is removed reaches every store, whatever the
    others hold: a store of layouts, and that of the snapshots, that can be read
    before holds afterwards what it held, less the entries whose path names the
    worktree, even where a store before it is missing or broken, whose failure is
    only printed. *)
Theorem cleanup_reaches_every_store (s : Fs) (wt : bytes) :
  let s' := (cleanup_resources (default_worktree_lifecycle io close_ptys) wt s).2 in
  (forall path st, terminal_session_snapshots_path io = Ok path -> store_ok st ->
     files s !! path = Some (to_string_pretty io (store_value st)) ->
     exists st', files s' !! path = Some (to_string_pretty io (store_value st')) /\
       forall k, st_worktrees st' !! k = if same_worktree io k wt then None else st_worktrees st !! k) /\
  (forall name path text m, name ∈ [PANEL_LAYOUTS; TERMINAL_LAYOUTS] -> grove_data_path io name = Ok path ->
     files s !! path = Some text -> utf8_valid text = true -> from_str text = Some (Obj m) -> json_ok (Obj m) = true ->
     exists text' m', files s' !! path = Some text' /\ from_str text' = Some (Obj m') /\
       forall k, obj_get k m' = if same_worktree io k wt then None else obj_get k m).
Proof.
  cbn zeta. split.
  - intros path st Hp Hst Hf. destruct (cleanup_of_snapshots path wt s Hp) as (s1 & H1 & ->). rewrite <- H1 in Hf.
    destruct (snapshots_forgotten io L s1 path wt st Hh Hp Hst (or_introl Hf)) as (s2 & -> & _ & H2 & _).
    eexists. split; [exact H2|apply snapshots_removed].
  - intros name path text m Hn Hg Hf Hu Ht Hj.
    assert (exists n2, name = TERMINAL_LAYOUTS /\ n2 = PANEL_LAYOUTS \/ name = PANEL_LAYOUTS /\ n2 = TERMINAL_LAYOUTS) as [n2 Hn2].
    { apply elem_of_cons in Hn as [->|Hn]; [by eexists; right|]. apply list_elem_of_singleton in Hn as ->. by eexists; left. }
    destruct (cleanup_of_store name n2 path wt s Hg Hn2) as (s1 & H1 & ->). rewrite <- H1 in Hf.
    destruct (layouts_forgotten io L s1 name path wt text m Hh Hg Hf Hu Ht Hj) as (s2 & t' & m' & -> & _ & H2 & H3 & H4 & _).
    by exists t', m'.
Qed.
End guarantees.

Section settings.
Context (decode : bytes -> option GroveConfig) (encode : GroveConfig -> bytes) (io : Io).
(** serde reads back what it wrote. This holds of a configuration without the
    legacy field of the preferences, which is not written. *)
Definition reads_back (c : GroveConfig) : Prop :=
  match preferences c with Some p => legacy_preferred_ide p = None | None => True end -> decode (encode c) = Some c.
Context (Htext : forall c, utf8_valid (encode c) = true).
Context (Hh : healthy io).
#[local] Abbreviation load := (load_config decode io).

Lemma config_written c s :
  decode (encode c) = Some c ->
  exists s1, write_config io (encode c) s = (Ok tt, s1) /\ load s1 = (c, s1) /\
    (load_app_config decode io s1).1 = load_app_config_from_path decode (default_base_dir io) (Some (Ok (encode c))) /\
    forall q, q <> config_path io -> files s1 !! q = files s !! q.
Proof.
  intros Hback. pose proof Hh as (Hr & Hm & Hp & _).
  assert (exists s1, write_config io (encode c) s = (Ok tt, s1) /\ files s1 = <[config_path io := encode c]> (files s)) as (s1 & H1 & H2).
  { unfold write_config, try_bind, put. destruct (parent _); unfold mkdirs, ret; cbn [files done]; rewrite ?Hm; cbn [files done]; rewrite Hp; eauto. }
  assert (Hf : config_file io (config_path io) s1 = (Some (Ok (encode c)), s1)).
  { unfold config_file, bind, file_at, ret. rewrite H2, lookup_insert_eq.
    rewrite (read_there io s1 _ (encode c)); [done|by rewrite H2, lookup_insert_eq|done|done]. }
  exists s1. split; [done|]. split; [|split].
  - unfold load_config, bind, ret. rewrite Hf. cbn. by rewrite Hback.
  - unfold load_app_config, bind, ret. by rewrite Hf.
  - intros q Hq. by rewrite H2, lookup_insert_ne.
Qed.

End settings.

Module ConfigFileExamples.
Import Json.AsciiJson UiStoresExamples.

(** The file of the snapshots holds two worktrees, that of the layouts is broken. *)
Definition layouts : bytes := str "/h/.grove/terminal-layouts.json".
Definition panels : bytes := str "/h/.grove/panel-layouts.json".
Definition before : Fs := mkFs (<[layouts := str "{"]> (<[panels := text_of (Obj [])]> {[path := text_of (store_value st)]})) [].
Definition no_ptys (wt : bytes) : FM (result unit bytes) := ret (Ok tt).
Lemma cleanup_reaches_every_store_witness :
  exists st', files (cleanup_resources (default_worktree_lifecycle io no_ptys) (str "/a/") before).2 !! path =
      Some (text_of (store_value st')) /\
    st_worktrees st' !! str "/a" = None /\ st_worktrees st' !! str "/b" = st_worktrees st !! str "/b".
Proof.
  destruct (proj1 (cleanup_reaches_every_store io io_is_lawful io_is_healthy no_ptys (fun _ _ _ => eq_refl) before (str "/a/"))
    path st eq_refl st_ok eq_refl) as (st' & H1 & H2).
  exists st'. split; [exact H1|]. split; [exact (H2 (str "/a"))|exact (H2 (str "/b"))].
Defined.
Example the_broken_store_is_reported :
  (cleanup_resources (default_worktree_lifecycle io no_ptys) (str "/a/") before).1.*1 = [str "terminal layouts"].
Proof. vm_compute. reflexivity. Qed.

(** A file with one project, and the preferences that are saved. *)
Definition entry : ProjectEntry :=
  mkProjectEntry (str "p") (str "n") (str "u") (str "o") (str "r") (str "/s") [] ∅ None false false None None.
Definition old : GroveConfig := mkGroveConfig [entry] (Some (str "/d")) None None.
Definition p : GrovePreferences := normalized grove_preferences_default.
Definition app : AppConfig := mkAppConfig (str "/new") None p.
Definition written (c : GroveConfig) : bytes := if bool_decide (cfg_base_dir c = Some (str "/new")) then str "app" else str "preferences".
Definition parsed (b : bytes) : option GroveConfig :=
  if bytes_eqb b (str "old") then Some old
  else if bytes_eqb b (str "app") then Some (mkGroveConfig [entry] (Some (str "/new")) None (Some p))
  else if bytes_eqb b (str "preferences") then Some (mkGroveConfig [entry] (Some (str "/d")) None (Some p))
  else None.
End ConfigFileExamples.
