(* ===== verification/ConfigWriters.v ===== *)
(** Commands that change config.json at the same time (grove-core/src/config.rs and
    git_project.rs): each loads the file, changes a part and saves it; the shells
    run every command on a thread of its own, and no lock is held between the
    load and the save. *)

From S2P Require Import Prelude Utf8 Text Config.

#[local] Open Scope rust_scope.

(** * What a command changes *)

Definition preferences_edit (p : GrovePreferences) (c : GroveConfig) : GroveConfig :=
  mkGroveConfig (projects c) (cfg_base_dir c) (terminal_theme c) (Some (normalized p)).
Definition app_edit (app : AppConfig) (c : GroveConfig) : GroveConfig :=
  mkGroveConfig (projects c) (Some (app_base_dir app)) (app_terminal_theme app) (Some (normalized (app_preferences app))).
(** The commands on the registry change the list of projects. *)
Definition projects_edit (f : list ProjectEntry -> list ProjectEntry) (c : GroveConfig) : GroveConfig :=
  mkGroveConfig (f (projects c)) (cfg_base_dir c) (terminal_theme c) (preferences c).

(** They are what the two saves write. *)
Lemma saves_are_edits decode encode file app p :
  save_app_config_to_path decode encode file app = encode (app_edit app (load_config_from_path decode file)) /\
  save_grove_preferences_to_path decode encode file p = encode (preferences_edit p (load_config_from_path decode file)).
Proof. done. Qed.

(** * The threads *)

Definition edit : Type := GroveConfig -> GroveConfig.
Inductive config_writer := ToLoad (f : edit) | ToSave (f : edit) (loaded : GroveConfig) | HasSaved.
Record Writers := mkWriters {
  on_disk : GroveConfig;
  threads : list config_writer;
  saved : list edit        (* in the order of the saves *)
}.
Definition writers_new (c : GroveConfig) (fs : list edit) : Writers := mkWriters c (ToLoad <$> fs) [].

Inductive write_step : Writers -> Writers -> Prop :=
| wr_load s k f :
    threads s !! k = Some (ToLoad f) ->
    write_step s (mkWriters (on_disk s) (<[k := ToSave f (on_disk s)]> (threads s)) (saved s))
| wr_save s k f c :
    threads s !! k = Some (ToSave f c) ->
    write_step s (mkWriters (f c) (<[k := HasSaved]> (threads s)) (saved s ++ [f])).

(** With a lock, as the store of missions has one, nothing loads while another
    thread is to save. *)
Definition unlocked (s : Writers) : Prop := Forall (fun w => match w with ToSave _ _ => False | _ => True end) (threads s).
Definition locked_step (s s' : Writers) : Prop :=
  write_step s s' /\ (unlocked s \/ exists k f c, threads s !! k = Some (ToSave f c) /\
                        s' = mkWriters (f c) (<[k := HasSaved]> (threads s)) (saved s ++ [f])).

Definition applied (c : GroveConfig) (fs : list edit) : GroveConfig := foldl (fun c f => f c) c fs.

Record locked_inv (c0 : GroveConfig) (s : Writers) : Prop := {
  li_disk : on_disk s = applied c0 (saved s);
  li_loaded k f c : threads s !! k = Some (ToSave f c) -> c = on_disk s;
  li_one k k' f f' c c' : threads s !! k = Some (ToSave f c) -> threads s !! k' = Some (ToSave f' c') -> k = k'
}.

Lemma locked_inv_step c0 s s' : locked_inv c0 s -> locked_step s s' -> locked_inv c0 s'.
Proof.
  intros [D L O] [Hs Hl]. destruct Hs as [s k f Hk|s k f c Hk].
  - destruct Hl as [Hu|(k1 & f1 & c1 & Hk1 & E)]; [|exfalso; apply (f_equal (fun s => length (saved s))) in E; cbn in E; rewrite length_app in E; cbn in E; lia].
    unfold unlocked in Hu. rewrite Forall_lookup in Hu. split; cbn.
    + done.
    + intros k' f' c' [(<- & [= _ <-] & _)|[_ Hk']]%list_lookup_insert_Some; [done|]. by apply Hu in Hk'.
    + intros k1 k2 f1 f2 c1 c2 [(<- & _ & _)|[_ H1]]%list_lookup_insert_Some; [|by apply Hu in H1].
      intros [(<- & _ & _)|[_ H2]]%list_lookup_insert_Some; [done|by apply Hu in H2].
  - split; cbn.
    + unfold applied. rewrite foldl_app. cbn. rewrite (L _ _ _ Hk). by rewrite D.
    + intros k' f' c' [(_ & ? & _)|[Hne Hk']]%list_lookup_insert_Some; [done|]. destruct Hne. by eapply O.
    + intros k1 k2 f1 f2 c1 c2 [(_ & ? & _)|[Hn1 H1]]%list_lookup_insert_Some; [done|]. destruct Hn1. by eapply O.
Qed.

(** Under a lock the configuration is every saved change, one after the other. *)
Theorem locked_writers_lose_nothing c0 fs s :
  rtc locked_step (writers_new c0 fs) s -> on_disk s = applied c0 (saved s).
Proof.
  intros Hs. apply (li_disk c0). eapply rtc_invariant; [exact (locked_inv_step c0)| |exact Hs].
  unfold writers_new. split; cbn; [done|..].
  - intros k f c Hk. rewrite list_lookup_fmap in Hk. by destruct (fs !! k).
  - intros k k' f f' c c' Hk. rewrite list_lookup_fmap in Hk. by destruct (fs !! k).
Qed.

Module ConfigWritersExamples.
Definition entry : ProjectEntry :=
  mkProjectEntry (str "p") (str "n") (str "u") (str "o") (str "r") (str "/s") [] ∅ None false false None None.
Definition add_project : edit := projects_edit (fun l => l ++ [entry]).
Definition save_preferences : edit := preferences_edit grove_preferences_default.

(** A project is added while the preferences are saved: both commands succeed, and
    the project is gone. *)
Example project_is_lost :
  exists s, rtc write_step (writers_new grove_config_default [add_project; save_preferences]) s /\
    threads s = [HasSaved; HasSaved] /\ projects (on_disk s) = [] /\
    projects (applied grove_config_default (saved s)) = [entry].
Proof.
  eexists. split; [|split_and!].
  - eapply rtc_l; [by apply (wr_load _ 0)|]. eapply rtc_l; [by apply (wr_load _ 1)|]. cbn.
    eapply rtc_l; [by eapply (wr_save _ 0)|]. cbn. eapply rtc_l; [by eapply (wr_save _ 1)|]. apply rtc_refl.
  - reflexivity.
  - reflexivity.
  - reflexivity.
Qed.
End ConfigWritersExamples.
