(* ===== verification/Source.v ===== *)
(** The source repository of a project (grove-core/src/git_project.rs): its default
    branch, and the refresh, which puts local changes into a stash, brings the
    default branch up to date and takes the changes back. *)

From S2P Require Import Prelude Utf8 Text Paths Remotes Worktrees Config World.

#[local] Open Scope world_scope.

Section source.
Context (w : World).

Definition lines_of (r : result bytes bytes) (f : bytes -> list bytes) : result (list bytes) bytes :=
  result_map f r.

Definition local_branch_names (source : bytes) : M (result (list bytes) bytes) :=
  let* r := run_git_output w source [str "for-each-ref"; str "--format=%(refname:short)"; str "refs/heads"] in
  ret (lines_of r local_branch_lines).

Definition remote_branch_names (source : bytes) : M (result (list bytes) bytes) :=
  let* r := run_git_output w source
    [str "for-each-ref"; str "--format=%(refname:short)"; str "refs/remotes/origin"] in
  ret (lines_of r remote_branch_lines).

Definition resolve_origin_head (source : bytes) : M (result bytes bytes) :=
  let! r := run_git_output w source [str "symbolic-ref"; str "--short"; str "refs/remotes/origin/HEAD"] in
  ret (match strip_prefix (str "origin/") r with
       | Some branch => Ok branch
       | None => Err (str "Unexpected origin HEAD ref: " ++ r)
       end).

Definition verify_remote_branch (source branch : bytes) : M (result unit bytes) :=
  run_git w source [str "show-ref"; str "--verify"; str "refs/remotes/origin/" ++ branch].

(** The first candidate that the remote has. *)
Fixpoint first_candidate (source : bytes) (candidates : list bytes) : M (option bytes) :=
  match candidates with
  | [] => ret None
  | c :: cs =>
      let* r := verify_remote_branch source c in
      if is_ok r then ret (Some c) else first_candidate source cs
  end.

Definition only_one (r : result (list bytes) bytes) : option bytes :=
  match r with Ok [b] => Some b | _ => None end.

Definition remote_default_branch (source : bytes) : M (result bytes bytes) :=
  let* head := resolve_origin_head source in
  if is_ok head then ret head
  else
    let* local := local_branch_names source in
    match only_one local with
    | Some b => ret (Ok b)
    | None =>
        let* remote := remote_branch_names source in
        match only_one remote with
        | Some b => ret (Ok b)
        | None =>
            let* candidate := first_candidate source [str "main"; str "master"] in
            match candidate with
            | Some c => ret (Ok c)
            | None =>
                let! branch := run_git_output w source [str "branch"; str "--show-current"] in
                if negb (bool_decide (branch = [])) then ret (Ok branch)
                else
                  let* _ := run_git w source [str "remote"; str "set-head"; str "origin"; str "-a"] in
                  let* head := resolve_origin_head source in
                  if is_ok head then ret head
                  else ret (Err (str "Failed to resolve origin default branch for " ++ source))
            end
        end
    end.

(** The branch configured for the project, if the remote has it. *)
Definition configured_default_branch (source : bytes) (base : option bytes) : M (result bytes bytes) :=
  match base with
  | Some branch =>
      let* r := verify_remote_branch source branch in
      if is_ok r then ret (Ok branch) else remote_default_branch source
  | None => remote_default_branch source
  end.

Definition has_local_source_changes (source : bytes) : M bool :=
  ask (fun l => match repo w l source with Some r => has_changes r | None => false end).

Definition create_source_sync_stash (source : bytes) : M (result (option bytes) bytes) :=
  let* changed := has_local_source_changes source in
  if negb changed then ret (Ok None)
  else
    let* label := ask (fun l => str "grove-source-sync-" ++ new_uuid w l source) in
    let! _ := run_git w source [str "stash"; str "push"; str "--include-untracked"; str "-m"; label] in
    let! stash_ref := run_git_output w source [str "rev-parse"; str "-q"; str "--verify"; str "refs/stash"] in
    ret (Ok (Some stash_ref)).

Definition stash_line (stash_ref line : bytes) : option bytes :=
  match split_whitespace line with
  | hash :: selector :: _ => if bytes_eqb hash stash_ref then Some selector else None
  | _ => None
  end.

Definition resolve_stash_selector (source stash_ref : bytes) : M (result bytes bytes) :=
  let! stash_list := run_git_output w source [str "stash"; str "list"; str "--format=%H %gd"] in
  ret (match omap (stash_line stash_ref) (str_lines stash_list) with
       | selector :: _ => Ok selector
       | [] => Err (str "Temporary stash " ++ stash_ref ++ str " is no longer present")
       end).

Definition apply_failed (stash_ref context e : bytes) : bytes :=
  context ++ str ". Restoring local changes from temporary stash " ++ stash_ref ++ str " failed: " ++ e ++
  str ". Your changes are still available in that stash entry. Recover them with `git stash apply " ++
  stash_ref ++ str "` or inspect them with `git stash show -p " ++ stash_ref ++ str "`.".
Definition drop_failed (stash_ref selector context e : bytes) : bytes :=
  context ++ str ". Local changes were restored from temporary stash " ++ stash_ref ++
  str ", but dropping that stash failed: " ++ e ++ str ". You can remove it manually with `git stash drop " ++
  selector ++ str "`.".

Definition stash_apply (stash_ref : bytes) : list bytes := [str "stash"; str "apply"; stash_ref].
Definition stash_drop (selector : bytes) : list bytes := [str "stash"; str "drop"; selector].

Definition restore_source_sync_stash (source stash_ref context : bytes) : M (result unit bytes) :=
  let* applied := run_git w source (stash_apply stash_ref) in
  match applied with
  | Err e => ret (Err (apply_failed stash_ref context e))
  | Ok _ =>
      let! selector := resolve_stash_selector source stash_ref in
      let* dropped := run_git w source (stash_drop selector) in
      ret (match dropped with
           | Err e => Err (drop_failed stash_ref selector context e)
           | Ok _ => Ok tt
           end)
  end.

Definition restore_after_error (source : bytes) (stash : option bytes) (base : bytes) : M (result unit bytes) :=
  match stash with
  | Some stash_ref =>
      let* r := restore_source_sync_stash source stash_ref base in
      ret (match r with Err e => Err (base ++ [LF] ++ e) | Ok _ => Err base end)
  | None => ret (Err base)
  end.

(** The part of the refresh after the stash. *)
Definition sync_default_branch (source default_branch : bytes) (stash : option bytes) : M (result unit bytes) :=
  let* checkout := run_git w source [str "checkout"; default_branch] in
  match checkout with
  | Err e =>
      restore_after_error source stash
        (str "Failed to switch source repo to default branch '" ++ default_branch ++ str "' during sync: " ++ e)
  | Ok _ =>
      let* fetched := run_git w source [str "fetch"; str "--prune"; str "origin"] in
      match fetched with
      | Err e => restore_after_error source stash (str "Failed to fetch origin during source sync: " ++ e)
      | Ok _ =>
          let* pulled := run_git w source [str "pull"; str "--rebase"; str "origin"; default_branch] in
          match pulled with
          | Err e =>
              let* _ := run_git w source [str "rebase"; str "--abort"] in
              restore_after_error source stash
                (str "Rebase failed during source sync (local commits may conflict with upstream): " ++ e)
          | Ok _ =>
              match stash with
              | Some stash_ref =>
                  restore_source_sync_stash source stash_ref
                    (str "Source sync completed, but reapplying local changes failed")
              | None => ret (Ok tt)
              end
          end
      end
  end.

Definition refresh_source_repo (source : bytes) (base_branch : option bytes) : M (result unit bytes) :=
  let! default_branch := configured_default_branch source base_branch in
  let! stash := create_source_sync_stash source in
  sync_default_branch source default_branch stash.

(** ** The state of the repository that the view of a project shows *)

Definition SOURCE_REMOTE_REFRESH_INTERVAL : Z := 60000.
(** [None]: the repository does not open. *)
Definition source_remote_refresh_due (r : option Repo) : bool :=
  match r with
  | None => false
  | Some r =>
      match last_fetch r with
      | Some t => (clock r <? t) || (SOURCE_REMOTE_REFRESH_INTERVAL <=? clock r - t)
      | None => true
      end
  end.
Definition source_head_differs_from_remote (r : option Repo) (default_branch : bytes) : bool :=
  match r with
  | None => false
  | Some r =>
      match head_commit r, reference_commit r (str "refs/remotes/origin/" ++ default_branch) with
      | Some head, Some remote_head => negb (bytes_eqb head remote_head)
      | _, _ => false
      end
  end.

Definition maybe_fetch_source_remote (source : bytes) : M (result unit bytes) :=
  let* due := ask (fun l => source_remote_refresh_due (repo w l source)) in
  if (due : bool) then run_git w source [str "fetch"; str "origin"; str "--prune"; str "--quiet"] else ret (Ok tt).

Definition check_source_behind_remote (source default_branch : bytes) : M bool :=
  let* there := ask (fun l => path_exists w l source) in
  if negb there then ret false
  else
    let* _ := maybe_fetch_source_remote source in
    ask (fun l => source_head_differs_from_remote (repo w l source) default_branch).
End source.

(** * The stash of a refresh *)

Section refresh.
Context (w : World) (source : bytes).

Definition is_stash (e : event) : bool :=
  match e with Git _ (a :: _) => bytes_eqb a (str "stash") | _ => false end.
Definition no_stash (e : event) : Prop := is_stash e = false.

Definition ok_at (before : list event) (args : list bytes) : Prop :=
  exists out err, git w before source args = Some (true, out, err).
Definition stash_push (label : bytes) : list bytes :=
  [str "stash"; str "push"; str "--include-untracked"; str "-m"; label].
Definition stash_list : list bytes := [str "stash"; str "list"; str "--format=%H %gd"].

Lemma run_git_output_run cwd args s :
  exists r, run_git_output w cwd args s = (r, mkSt (log s ++ [Git cwd args]) (disk s)) /\
    (is_ok r = true <-> exists out err, git w (log s) cwd args = Some (true, out, err)).
Proof.
  unfold run_git_output, bind, git_raw, ret. eexists. split; [reflexivity|].
  destruct (git w (log s) cwd args) as [[[[] out] err]|]; cbn; (split; [|by intros (? & ? & ?)]); try done; eauto.
Qed.

(** A run of git: its event, and whether it went well. *)
Lemma run_git_step args s r s' :
  run_git w source args s = (r, s') ->
  s' = mkSt (log s ++ [Git source args]) (disk s) /\
  ((r = Ok tt /\ ok_at (log s) args) \/ (exists e, r = Err e /\ ~ ok_at (log s) args)).
Proof.
  unfold run_git, try_bind. destruct (run_git_output_run source args s) as (o & -> & Ho).
  destruct o as [out|e]; intros [= <- <-]; (split; [done|]); [left|right].
  - split; [done|]. by apply Ho.
  - exists e. split; [done|]. intros Hok. by apply Ho in Hok.
Qed.

(** How taking a stash back ends. [before] is the log when it starts. *)
Inductive restored (before : list event) (stash_ref : bytes) : list event -> result unit bytes -> Prop :=
| kept_in_stash m :
    ~ ok_at before (stash_apply stash_ref) -> contains stash_ref m = true ->
    restored before stash_ref [Git source (stash_apply stash_ref)] (Err m)
| not_listed m :
    ok_at before (stash_apply stash_ref) ->
    restored before stash_ref [Git source (stash_apply stash_ref); Git source stash_list] (Err m)
| not_dropped selector m :
    ok_at before (stash_apply stash_ref) ->
    restored before stash_ref
      [Git source (stash_apply stash_ref); Git source stash_list; Git source (stash_drop selector)] (Err m)
| taken_back selector :
    ok_at before (stash_apply stash_ref) ->
    ok_at (before ++ [Git source (stash_apply stash_ref); Git source stash_list]) (stash_drop selector) ->
    restored before stash_ref
      [Git source (stash_apply stash_ref); Git source stash_list; Git source (stash_drop selector)] (Ok tt).

Lemma restore_spec stash_ref context s r s' :
  restore_source_sync_stash w source stash_ref context s = (r, s') ->
  exists es, log s' = log s ++ es /\ disk s' = disk s /\ restored (log s) stash_ref es r.
Proof.
  unfold restore_source_sync_stash. unfold bind at 1.
  destruct (run_git w source (stash_apply stash_ref) s) as [a s1] eqn:Ea.
  apply run_git_step in Ea as (-> & [[-> Hok]|(e & -> & Hno)]).
  2: { intros [= <- <-]. eexists. split; [reflexivity|]. split; [done|]. apply kept_in_stash; [done|].
       apply contains_iff. unfold apply_failed.
       exists (context ++ str ". Restoring local changes from temporary stash "). eexists. by rewrite <- app_assoc. }
  unfold try_bind at 1. unfold resolve_stash_selector, try_bind, run_git_output, bind, git_raw, ret. cbn [log disk].
  fold stash_list. destruct (git w _ source stash_list) as [[[[] out] err]|]; cbn [ret].
  2,3: intros [= <- <-]; eexists; cbn [log disk]; rewrite <- app_assoc; split_and!; [reflexivity|done|by apply not_listed].
  destruct (omap _ _) as [|selector l]; cbn [ret].
  { intros [= <- <-]; eexists; cbn [log disk]; rewrite <- app_assoc; split_and!; [reflexivity|done|by apply not_listed]. }
  unfold bind. destruct (run_git w source (stash_drop selector) _) as [d s2] eqn:Ed.
  apply run_git_step in Ed as (-> & Hd). cbn [log disk] in *. intros [= <- <-]. eexists. cbn [log disk].
  rewrite <- !app_assoc in *. split_and!; [reflexivity|done|].
  destruct Hd as [[-> Hd]|(e & -> & Hd)]; [by apply taken_back|by apply not_dropped].
Qed.

(** How a refresh ends, as far as the stash is concerned. *)
Inductive refreshed (before : list event) : list event -> result unit bytes -> Prop :=
| without_stash es r : Forall no_stash es -> refreshed before es r
| push_failed pre label m :
    Forall no_stash pre -> ~ ok_at (before ++ pre) (stash_push label) ->
    refreshed before (pre ++ [Git source (stash_push label)]) (Err m)
| ref_unknown pre label args m :
    Forall no_stash pre -> no_stash (Git source args) ->
    refreshed before (pre ++ [Git source (stash_push label); Git source args]) (Err m)
| with_stash pre label args mid es stash_ref r r' :
    Forall no_stash pre -> no_stash (Git source args) -> Forall no_stash mid ->
    ok_at (before ++ pre) (stash_push label) ->
    restored (before ++ pre ++ [Git source (stash_push label); Git source args] ++ mid) stash_ref es r' ->
    (r = Ok tt -> r' = Ok tt) ->
    (forall m, r' = Err m -> exists m', r = Err m' /\ exists a b, m' = a ++ m ++ b) ->
    refreshed before (pre ++ [Git source (stash_push label); Git source args] ++ mid ++ es) r.

Lemma first_candidate_quiet candidates : does no_stash (first_candidate w source candidates).
Proof.
  induction candidates as [|c cs IH]; cbn [first_candidate]; [apply does_ret|].
  apply does_bind; [by apply does_git|]. intros r. destruct (is_ok r); [apply does_ret|exact IH].
Qed.

Ltac quiet :=
  repeat first
    [ apply does_ret | apply does_ask | apply first_candidate_quiet
    | apply does_git; reflexivity | apply does_git_output; reflexivity
    | apply does_try; [|intros ?] | apply does_bind; [|intros ?]
    | match goal with
      | |- does _ (match ?x with _ => _ end) => destruct x
      | |- does _ (if ?x then _ else _) => destruct x
      end ].

Lemma configured_quiet base : does no_stash (configured_default_branch w source base).
Proof.
  unfold configured_default_branch, verify_remote_branch, remote_default_branch, resolve_origin_head,
    local_branch_names, remote_branch_names. quiet.
Qed.

Lemma keeps_disk_first_candidate candidates : keeps_disk (first_candidate w source candidates).
Proof.
  induction candidates as [|c cs IH]; cbn [first_candidate]; [apply disk_ret|].
  apply disk_bind; [by apply disk_git|]. intros r. destruct (is_ok r); [apply disk_ret|exact IH].
Qed.

Lemma keeps_disk_configured base : keeps_disk (configured_default_branch w source base).
Proof.
  unfold configured_default_branch, verify_remote_branch, remote_default_branch, resolve_origin_head,
    local_branch_names, remote_branch_names.
  repeat first
    [ apply disk_ret | apply keeps_disk_first_candidate | apply disk_git | apply disk_git_output
    | apply disk_try; [|intros ?] | apply disk_bind; [|intros ?]
    | match goal with
      | |- keeps_disk (match ?x with _ => _ end) => destruct x
      | |- keeps_disk (if ?x then _ else _) => destruct x
      end ].
Qed.

(** What the part after the stash does with it. *)
Definition settles (before : list event) (stash : option bytes) (es : list event) (r : result unit bytes) : Prop :=
  match stash with
  | None => es = []
  | Some stash_ref => exists r', restored before stash_ref es r' /\ (r = Ok tt -> r' = Ok tt) /\
      (forall m, r' = Err m -> exists m', r = Err m' /\ exists a b, m' = a ++ m ++ b)
  end.

Lemma restore_after_error_spec stash base s r s' :
  restore_after_error w source stash base s = (r, s') ->
  exists es, log s' = log s ++ es /\ disk s' = disk s /\ settles (log s) stash es r.
Proof.
  destruct stash as [stash_ref|]; cbn [restore_after_error settles].
  - unfold bind. destruct (restore_source_sync_stash _ _ _ _ s) as [r' s1] eqn:E.
    apply restore_spec in E as (es & Hl & Hd & Hr). destruct r' as [[]|m]; intros [= <- <-]; exists es; split_and!; try done.
    + exists (Ok tt). by split_and!.
    + exists (Err m). split_and!; [done|done|]. intros m' [= <-]. eexists. split; [reflexivity|].
      exists (base ++ [LF]), []. by rewrite app_nil_r, <- app_assoc.
  - intros [= <- <-]. exists []. by rewrite app_nil_r.
Qed.

Ltac ends Hend E :=
  refine (Hend _ _ _ _ _ _ _ _ E); [|cbn [log]; rewrite <- ?app_assoc; reflexivity|done]; by repeat constructor.

Lemma sync_spec branch stash s r s' :
  sync_default_branch w source branch stash s = (r, s') ->
  exists mid es, log s' = log s ++ mid ++ es /\ disk s' = disk s /\ Forall no_stash mid /\
    settles (log s ++ mid) stash es r.
Proof.
  assert (Hend : forall mid base s0 r s', Forall no_stash mid -> log s0 = log s ++ mid -> disk s0 = disk s ->
    restore_after_error w source stash base s0 = (r, s') ->
    exists mid es, log s' = log s ++ mid ++ es /\ disk s' = disk s /\ Forall no_stash mid /\
      settles (log s ++ mid) stash es r).
  { intros mid base s0 r0 s0' Hm Hl Hd E. apply restore_after_error_spec in E as (es & Hle & Hde & Hs).
    exists mid, es. rewrite Hle, Hl, <- app_assoc. split_and!; [done|congruence|done|by rewrite <- Hl]. }
  unfold sync_default_branch, bind.
  destruct (run_git w source [str "checkout"; branch] s) as [c s1] eqn:Ec. apply run_git_step in Ec as (-> & _).
  destruct c as [[]|e]; [|intros E; ends Hend E].
  destruct (run_git w source [str "fetch"; _; _] _) as [f s2] eqn:Ef. apply run_git_step in Ef as (-> & _). cbn [log disk].
  destruct f as [[]|e]; [|intros E; ends Hend E].
  destruct (run_git w source [str "pull"; _; _; _] _) as [p s3] eqn:Ep. apply run_git_step in Ep as (-> & _). cbn [log disk].
  destruct p as [[]|e].
  - destruct stash as [stash_ref|].
    + intros E. apply restore_spec in E as (es & Hl & Hd & Hr). cbn [log disk] in *.
      exists [Git source [str "checkout"; branch]; Git source [str "fetch"; str "--prune"; str "origin"];
              Git source [str "pull"; str "--rebase"; str "origin"; branch]], es.
      rewrite <- !app_assoc in *. split_and!; [done|done|by repeat constructor|]. exists r. split_and!; [done|done|].
      intros m ->. exists m. split; [done|]. exists [], []. by rewrite app_nil_r.
    + intros [= <- <-]. eexists [_; _; _], []. cbn [log disk]. rewrite <- !app_assoc. split_and!; [reflexivity|done| |done].
      by repeat constructor.
  - destruct (run_git w source [str "rebase"; _] _) as [a s4] eqn:Ea. apply run_git_step in Ea as (-> & _). cbn [log disk].
    intros E. ends Hend E.
Qed.

End refresh.

(** * Examples *)

Module SourceExamples.
Import ToyWorld.

Definition dirty : Repo := mkRepo None [] true None 0 None (fun _ => None).

(** The remote's head is main; [stash] answers the commands on stashes. *)
Definition answers (stash_ref : string) (apply : option (bool * bytes * bytes)) (args : list bytes) :
    option (bool * bytes * bytes) :=
  match args with
  | a :: rest =>
      if bytes_eqb a (str "symbolic-ref") then says "origin/main"
      else if bytes_eqb a (str "rev-parse") then says stash_ref
      else if bytes_eqb a (str "stash") then
        match rest with
        | b :: _ =>
            if bytes_eqb b (str "apply") then apply
            else if bytes_eqb b (str "list") then says "abc stash@{0}"
            else says "No local changes to save"
        | [] => says ""
        end
      else says ""
  | [] => says ""
  end.
Definition w (stash_ref : string) (apply : option (bool * bytes * bytes)) : World :=
  world (answers stash_ref apply) (fun _ => Some dirty) (fun _ => []).


(** When git saves nothing, and says so with success, the newest stash there is
    is taken for the one just made, applied and dropped. *)
Example older_stash_is_taken :
  (refresh_source_repo (w "abc" (says "")) (str "/s") None (start [])).1 = Ok tt /\
  stash_drop (str "stash@{0}") ∈ commands (refresh_source_repo (w "abc" (says "")) (str "/s") None (start [])).2.
Proof.
  split; [vm_compute; reflexivity|].
  set (l := commands _). vm_compute in l. subst l. do 8 apply list_elem_of_further. apply list_elem_of_here.
Qed.

(** When the stash's name cannot be read, the changes stay in it, and the error
    does not say so. *)
Example stash_is_forgotten :
  let answer args := match args with
    | [a; _; _; _] => if bytes_eqb a (str "rev-parse") then fails "interrupted" else answers "abc" (says "") args
    | _ => answers "abc" (says "") args end in
  (refresh_source_repo (world answer (fun _ => Some dirty) (fun _ => [])) (str "/s") None (start [])).1 =
    Err (str "git rev-parse failed: interrupted").
Proof. vm_compute. reflexivity. Qed.
End SourceExamples.
