(* ===== verification/Projects.v ===== *)
(** Projects (grove-core/src/git_project.rs): the registry of projects in the
    configuration, kept in step with the directories that exist, and the commands
    that add, clone, create, remove, order and change projects. *)

From Stdlib Require Import Sorted.
From S2P Require Import Prelude Utf8 Text Paths Json Remotes Worktrees Config World Source.

#[local] Open Scope rust_scope.
#[local] Open Scope world_scope.

(** * Entries *)

Definition same_project_entry (l r : ProjectEntry) : bool :=
  bytes_eqb (pe_id l) (pe_id r) && bytes_eqb (pe_name l) (pe_name r) && bytes_eqb (pe_url l) (pe_url r) &&
  bytes_eqb (pe_org l) (pe_org r) && bytes_eqb (pe_repo l) (pe_repo r) &&
  bytes_eqb (source_path l) (source_path r).

Fixpoint all_same (l r : list ProjectEntry) : bool :=
  match l, r with
  | x :: l, y :: r => same_project_entry x y && all_same l r
  | _, _ => true
  end.
Definition same_project_entries (l r : list ProjectEntry) : bool :=
  Nat.eqb (length l) (length r) && all_same l r.

Definition path_key (e : ProjectEntry) : bytes := normalize_source_path (source_path e).
Definition url_key (e : ProjectEntry) : bytes := normalize_project_url (pe_url e).

Definition find_matching_project (entries : list ProjectEntry) (source : bytes) (url : option bytes) :
    option ProjectEntry :=
  snd <$> list_find (fun e =>
    bytes_eqb (path_key e) (normalize_source_path source) ||
    match url with Some u => bytes_eqb (url_key e) (normalize_project_url u) | None => false end = true) entries.

Definition make_project_entry (id name url org repo source : bytes) : ProjectEntry :=
  mkProjectEntry id name url org repo source [] ∅ None false false None None.

Definition project_entry_from_url (id url source_dir : bytes) (preferred_name : option bytes) :
    result ProjectEntry bytes :=
  let? (_, org, repo) := parse_git_url url in
  Ok (make_project_entry id (default repo preferred_name) url org repo source_dir).

Definition find_by_id (project_id : bytes) (entries : list ProjectEntry) : result ProjectEntry bytes :=
  match list_find (fun e => pe_id e = project_id) entries with
  | Some (_, e) => Ok e
  | None => Err (str "Project not found: " ++ project_id)
  end.

(** The first entry with the id, changed in place. *)
Fixpoint update_by_id (project_id : bytes) (f : ProjectEntry -> ProjectEntry) (entries : list ProjectEntry) :
    option (list ProjectEntry) :=
  match entries with
  | [] => None
  | e :: l => if bytes_eqb (pe_id e) project_id then Some (f e :: l) else cons e <$> update_by_id project_id f l
  end.

Definition with_projects (c : GroveConfig) (ps : list ProjectEntry) : GroveConfig :=
  mkGroveConfig ps (cfg_base_dir c) (terminal_theme c) (preferences c).
Definition with_preferences (c : GroveConfig) (p : GrovePreferences) : GroveConfig :=
  mkGroveConfig (projects c) (cfg_base_dir c) (terminal_theme c) (Some p).
Definition with_category (e : ProjectEntry) (c : option bytes) : ProjectEntry :=
  mkProjectEntry (pe_id e) (pe_name e) (pe_url e) (pe_org e) (pe_repo e) (source_path e) (worktree_order e)
    (stacked_parents e) (base_branch e) (collapsed e) (focused e) c (env_sync e).

(** * Repositories *)

Definition remote_url_for_repo (r : option Repo) (source_dir : bytes) : result bytes bytes :=
  match r with
  | None => Err (str "Failed to open git repository at " ++ source_dir)
  | Some r =>
      match origin_url r with
      | Some u => Ok u
      | None =>
          match omap id (remote_urls r) with
          | u :: _ => Ok u
          | [] => Err (str "No git remote URL found for " ++ source_dir)
          end
      end
  end.

Section reconcile.
Context (dir_exists : bytes -> bool) (children : bytes -> list bytes)
        (repo_at : bytes -> option Repo) (uuid : bytes -> bytes).

Definition project_entry_from_source (source_dir : bytes) : result ProjectEntry bytes :=
  let? url := remote_url_for_repo (repo_at source_dir) source_dir in
  project_entry_from_url (uuid source_dir) url source_dir None.

(** Paths are sorted by their components. *)
Definition component_rank (c : Component) : Z :=
  match c with RootDir => 0 | CurDir => 1 | ParentDir => 2 | Normal _ => 3 end.
Definition component_ltb (a b : Component) : bool :=
  (component_rank a <? component_rank b) ||
  match a, b with Normal a, Normal b => bytes_ltb a b | _, _ => false end.
Fixpoint components_ltb (a b : list Component) : bool :=
  match a, b with
  | _, [] => false
  | [], _ :: _ => true
  | x :: a, y :: b => component_ltb x y || (bool_decide (x = y) && components_ltb a b)
  end.
Fixpoint insert_path (p : bytes) (l : list bytes) : list bytes :=
  match l with
  | [] => [p]
  | x :: l' => if components_ltb (components p) (components x) then p :: l else x :: insert_path p l'
  end.
Definition sort_paths (l : list bytes) : list bytes := foldl (fun acc p => insert_path p acc) [] l.

Definition scan_source_directories (base_dir : bytes) : list bytes :=
  sort_paths (filter (fun d => dir_exists d = true)
    (host_dir ← children base_dir; org_dir ← children host_dir; repo_dir ← children org_dir;
     [path_join repo_dir (str "source")])).

Record Seen := mkSeen { reconciled : list ProjectEntry; seen_paths : gset bytes; seen_urls : gset bytes }.

(** [insert] answers whether the key is new; the second one is not asked if the
    first is not. *)
Definition keep_entry (s : Seen) (e : ProjectEntry) : Seen :=
  if negb (dir_exists (source_path e)) then s
  else if bool_decide (path_key e ∈ seen_paths s) then s
  else
    let paths := {[path_key e]} ∪ seen_paths s in
    if bool_decide (url_key e ∈ seen_urls s) then mkSeen (reconciled s) paths (seen_urls s)
    else mkSeen (reconciled s ++ [e]) paths ({[url_key e]} ∪ seen_urls s).

Definition add_scanned (s : Seen) (source_dir : bytes) : Seen :=
  let source_key := normalize_source_path source_dir in
  if bool_decide (source_key ∈ seen_paths s) then s
  else
    match project_entry_from_source source_dir with
    | Err _ => s
    | Ok e =>
        if bool_decide (url_key e ∈ seen_urls s) then s
        else mkSeen (reconciled s ++ [e]) ({[source_key]} ∪ seen_paths s) ({[url_key e]} ∪ seen_urls s)
    end.

Definition reconcile_project_entries (entries : list ProjectEntry) (base_dir : bytes) : list ProjectEntry :=
  reconciled (foldl add_scanned (foldl keep_entry (mkSeen [] ∅ ∅) entries) (scan_source_directories base_dir)).
End reconcile.

(** * Categories *)

Definition available_project_category_ids (c : GroveConfig) : list bytes :=
  cat_id <$> project_categories (normalized (default grove_preferences_default (preferences c))).

Definition normalize_project_category_id (category : option bytes) (available_ids : list bytes) : option bytes :=
  match category with
  | None => None
  | Some c =>
      let c := trim c in
      if bool_decide (c = []) || bytes_eqb c DEFAULT_PROJECT_CATEGORY_ID then None
      else if bool_decide (c ∈ available_ids) then Some c else None
  end.

Definition reconcile_project_categories (c : GroveConfig) : GroveConfig * bool :=
  let normalized_preferences := normalized (default grove_preferences_default (preferences c)) in
  let available_ids := cat_id <$> project_categories normalized_preferences in
  let preferences_changed :=
    match preferences c with Some p => negb (preferences_eqb p normalized_preferences) | None => false end in
  let c := if preferences_changed then with_preferences c normalized_preferences else c in
  let normalize e := normalize_project_category_id (category_id e) available_ids in
  let projects_changed := existsb (fun e => negb (bool_decide (category_id e = normalize e))) (projects c) in
  (with_projects c ((fun e => with_category e (normalize e)) <$> projects c),
   preferences_changed || projects_changed).

Section commands.
Context (w : World).

(** [base_dir()] reads the configuration file. *)
Definition base_dir_of (c : GroveConfig) : bytes :=
  match cfg_base_dir c with
  | Some d => if bool_decide (trim d = []) then home_base w else d
  | None => home_base w
  end.
Definition base_dir : M bytes := fun s => (base_dir_of (disk s), s).

Definition reconcile_now (entries : list ProjectEntry) (base : bytes) : M (list ProjectEntry) :=
  ask (fun l => reconcile_project_entries (is_dir w l) (child_directories w l) (repo w l) (new_uuid w l) entries base).

Definition load_reconciled_config : M (result GroveConfig bytes) :=
  let* config := load_config in
  let* base := base_dir in
  let* reconciled_projects := reconcile_now (projects config) base in
  let '(config, categories_changed) := reconcile_project_categories config in
  let config' := with_projects config reconciled_projects in
  if negb (same_project_entries (projects config) reconciled_projects) || categories_changed
  then let! _ := save_config w config' in ret (Ok config')
  else ret (Ok config').

Definition project_dir (base host org repo : bytes) : bytes :=
  path_join (path_join (path_join base host) org) repo.

Definition find_project_entry (project_id : bytes) : M (result ProjectEntry bytes) :=
  let! config := load_reconciled_config in lift (find_by_id project_id (projects config)).

Definition register_project_entry (entry : ProjectEntry) : M (result ProjectEntry bytes) :=
  let! config := load_reconciled_config in
  match find_matching_project (projects config) (source_path entry) (Some (pe_url entry)) with
  | Some existing => ret (Ok existing)
  | None =>
      let! _ := save_config w (with_projects config (projects config ++ [entry])) in ret (Ok entry)
  end.

Definition managed_source_dir (e : ProjectEntry) : M (result bytes bytes) :=
  let! (host, org, repo) := lift (parse_git_url (pe_url e)) in
  let* base := base_dir in
  let expected := path_join (project_dir base host org repo) SOURCE_WORKTREE_NAME in
  let* same := ask (fun l => path_eqb (normalized_path (canonicalize w l) (source_path e))
                               (normalized_path (canonicalize w l) expected)) in
  if (same : bool) then ret (Ok (source_path e))
  else ret (Err (str "Refusing to operate on unmanaged source path: " ++ source_path e)).

(** ** The view of a project *)

Record Project := mkProject {
  p_entry : ProjectEntry;                (* id, name, url, org, repo, source path, base branch, flags *)
  p_worktrees : list Worktree;
  source_has_changes : bool;
  source_behind_remote : bool;
  resolved_default_branch : bytes;
  p_category : bytes
}.

Definition get_worktrees (source : bytes) : M (list Worktree) :=
  let* out := git_raw w source [str "worktree"; str "list"; str "--porcelain"] in
  let printed := match out with Some (true, out, _) => Some (from_utf8_lossy out) | _ => None end in
  ask (fun l => get_worktrees_for_project (canonicalize w l) (created w l) source printed).

Definition resolve_project_worktrees (e : ProjectEntry) : M (list Worktree) :=
  let* found := get_worktrees (source_path e) in
  let* visible := ask (fun l => visible_worktrees (canonicalize w l) found (source_path e)) in
  ret (apply_stacked_parent_metadata (apply_worktree_order visible (worktree_order e)) (stacked_parents e)).

Definition project_from_entry (e : ProjectEntry) : M Project :=
  let* worktrees := resolve_project_worktrees e in
  let* there := ask (fun l => path_exists w l (source_path e)) in
  let* changes := has_local_source_changes w (source_path e) in
  let* branch := remote_default_branch w (source_path e) in
  let branch := match branch with Ok b => b | Err _ => str "main" end in
  let* behind := check_source_behind_remote w (source_path e) branch in
  ret (mkProject e worktrees (there && changes) behind branch
         (default DEFAULT_PROJECT_CATEGORY_ID (category_id e))).

Definition and_view (m : M (result ProjectEntry bytes)) : M (result Project bytes) :=
  let! e := m in let* p := project_from_entry e in ret (Ok p).

(** ** Adding projects *)

Definition source_entry (source_dir : bytes) : M (result ProjectEntry bytes) :=
  ask (fun l => project_entry_from_source (repo w l) (new_uuid w l) source_dir).
Definition url_entry (url source_dir : bytes) (name : option bytes) : M (result ProjectEntry bytes) :=
  ask (fun l => project_entry_from_url (new_uuid w l source_dir) url source_dir name).

Definition recover_existing_project (source_dir fallback_url : bytes) (fallback_name : option bytes) :
    M (result ProjectEntry bytes) :=
  let! config := load_reconciled_config in
  match find_matching_project (projects config) source_dir (Some fallback_url) with
  | Some existing => ret (Ok existing)
  | None =>
      let* r := ask (fun l => repo w l source_dir) in
      match r with
      | None =>
          ret (Err (str "Project already exists at " ++ source_dir ++ str " but could not be recovered"))
      | Some _ =>
          let* entry := source_entry source_dir in
          let! entry := (match entry with Ok e => ret (Ok e) | Err _ => url_entry fallback_url source_dir fallback_name end) in
          register_project_entry entry
      end
  end.

(** Where the clone of a URL goes: the project's directory and its source. *)
Definition clone_dirs (url : bytes) : M (result (bytes * bytes) bytes) :=
  let! (host, org, repo) := lift (parse_git_url url) in
  let* base := base_dir in
  let proj_dir := project_dir base host org repo in
  ret (Ok (proj_dir, path_join proj_dir (str "source"))).

(** [git clone] and what follows, up to the view of the entry. *)
Definition clone_and_register (url proj_dir source_dir : bytes) : M (result ProjectEntry bytes) :=
  let* cloned := git_raw w [] [str "clone"; url; source_dir] in
  match cloned with
  | None => ret (Err (str "Failed to run git clone"))
  | Some (false, _, err) =>
      let* _ := emit (RemoveDirAll proj_dir) in
      ret (Err (str "git clone failed: " ++ trim (from_utf8_lossy err)))
  | Some (true, _, _) => let! entry := url_entry url source_dir None in register_project_entry entry
  end.
Definition run_clone_impl (url : bytes) : M (result Project bytes) :=
  and_view (let! (proj_dir, source_dir) := clone_dirs url in clone_and_register url proj_dir source_dir).

(** What is there already, or the directories, which were made. *)
Definition existing_or_prepare (url : bytes) (name : option bytes) (with_source : bool) :
    M (result (ProjectEntry + bytes * bytes) bytes) :=
  let! (proj_dir, source_dir) := clone_dirs url in
  let! config := load_reconciled_config in
  match find_matching_project (projects config) source_dir (Some url) with
  | Some existing => ret (Ok (inl existing))
  | None =>
      let* there := ask (fun l => is_dir w l source_dir) in
      if (there : bool) then let! e := recover_existing_project source_dir url name in ret (Ok (inl e))
      else
        let! _ := create_dir_all w (if with_source then source_dir else proj_dir) in
        let! _ := create_dir_all w (path_join proj_dir (str "worktrees")) in
        ret (Ok (inr (proj_dir, source_dir)))
  end.

Definition add_entry (url : bytes) : M (result ProjectEntry bytes) :=
  let! found := existing_or_prepare url None false in
  match found with
  | inl e => ret (Ok e)
  | inr (proj_dir, source_dir) => clone_and_register url proj_dir source_dir
  end.
Definition add_project_impl (url : bytes) : M (result Project bytes) := and_view (add_entry url).

Inductive StartCloneOutcome :=
| AlreadyExists (p : Project)
| Cloning (id url org repo : bytes).

Definition start_clone_impl (url : bytes) : M (result StartCloneOutcome bytes) :=
  let! (_, org, repo) := lift (parse_git_url url) in
  let! found := existing_or_prepare url None false in
  match found with
  | inl e => let* p := project_from_entry e in ret (Ok (AlreadyExists p))
  | inr _ => ask (fun l => Ok (Cloning (new_uuid w l url) url org repo))
  end.

Definition create_entry (name url : bytes) : M (result ProjectEntry bytes) :=
  let! found := existing_or_prepare url (Some name) true in
  match found with
  | inl e => ret (Ok e)
  | inr (_, source_dir) =>
      let! _ := run_git w source_dir [str "init"] in
      let! _ := run_git w source_dir [str "remote"; str "add"; str "origin"; url] in
      let readme := path_join source_dir (str "README.md") in
      let* wrote := ask (fun l => write_ok w l readme) in
      let* _ := emit (WriteFile readme (str "# " ++ name ++ [LF])) in
      if negb wrote then ret (Err (str "Failed to write README"))
      else
        let! _ := run_git w source_dir [str "add"; str "README.md"] in
        let! _ := run_git w source_dir [str "commit"; str "-m"; str "Initial commit"] in
        let! _ := run_git w source_dir [str "branch"; str "-M"; str "main"] in
        let* _ := run_git w source_dir [str "push"; str "-u"; str "origin"; str "main"] in
        let! entry := url_entry url source_dir (Some name) in
        register_project_entry entry
  end.
Definition create_project_impl (name url : bytes) : M (result Project bytes) := and_view (create_entry name url).

(** ** Changing the registry *)

Definition remove_project_impl (project_id : bytes) : M (result unit bytes) :=
  let* config := load_config in
  match list_find (fun e => pe_id e = project_id) (projects config) with
  | None => ret (Err (str "Project not found: " ++ project_id))
  | Some (idx, entry) =>
      let! source := managed_source_dir entry in
      match parent source with
      | None => ret (Err (str "Invalid managed source path: " ++ source_path entry))
      | Some project_dir =>
          let! _ := save_config w (with_projects config (delete idx (projects config))) in
          let* _ := emit (RemoveDirAll project_dir) in
          ret (Ok tt)
      end
  end.

Definition reorder (project_ids : list bytes) (ps : list ProjectEntry) : list ProjectEntry :=
  omap (fun i => snd <$> list_find (fun e => pe_id e = i) ps) project_ids ++
  filter (fun e => pe_id e ∉ project_ids) ps.

Definition reorder_projects_impl (project_ids : list bytes) : M (result unit bytes) :=
  let! config := load_reconciled_config in
  save_config w (with_projects config (reorder project_ids (projects config))).

(** Load as it is, change one entry, save. *)
Definition change_entry (project_id : bytes) (f : ProjectEntry -> ProjectEntry) : M (result unit bytes) :=
  let* config := load_config in
  match update_by_id project_id f (projects config) with
  | None => ret (Err (str "Project not found: " ++ project_id))
  | Some ps => save_config w (with_projects config ps)
  end.

Definition set_worktree_order_impl (project_id : bytes) (order : list bytes) : M (result unit bytes) :=
  change_entry project_id (fun e => mkProjectEntry (pe_id e) (pe_name e) (pe_url e) (pe_org e) (pe_repo e)
    (source_path e) order (stacked_parents e) (base_branch e) (collapsed e) (focused e) (category_id e) (env_sync e)).
Definition set_project_collapsed_impl (project_id : bytes) (b : bool) : M (result unit bytes) :=
  change_entry project_id (fun e => mkProjectEntry (pe_id e) (pe_name e) (pe_url e) (pe_org e) (pe_repo e)
    (source_path e) (worktree_order e) (stacked_parents e) (base_branch e) b (focused e) (category_id e) (env_sync e)).
Definition set_project_focus_impl (project_id : bytes) (b : bool) : M (result unit bytes) :=
  change_entry project_id (fun e => mkProjectEntry (pe_id e) (pe_name e) (pe_url e) (pe_org e) (pe_repo e)
    (source_path e) (worktree_order e) (stacked_parents e) (base_branch e) (collapsed e) b (category_id e) (env_sync e)).
Definition rename_project_impl (project_id name : bytes) : M (result unit bytes) :=
  let trimmed := trim name in
  if bool_decide (trimmed = []) then ret (Err (str "Project name cannot be empty"))
  else change_entry project_id (fun e => mkProjectEntry (pe_id e) trimmed (pe_url e) (pe_org e) (pe_repo e)
    (source_path e) (worktree_order e) (stacked_parents e) (base_branch e) (collapsed e) (focused e) (category_id e) (env_sync e)).
Definition set_env_sync_impl (project_id : bytes) (include_patterns : list bytes) : M (result unit bytes) :=
  change_entry project_id (fun e => mkProjectEntry (pe_id e) (pe_name e) (pe_url e) (pe_org e) (pe_repo e)
    (source_path e) (worktree_order e) (stacked_parents e) (base_branch e) (collapsed e) (focused e) (category_id e)
    (if bool_decide (include_patterns = []) then None else Some include_patterns)).
Definition with_stacked_parents (f : gmap bytes bytes -> gmap bytes bytes) (e : ProjectEntry) : ProjectEntry :=
  mkProjectEntry (pe_id e) (pe_name e) (pe_url e) (pe_org e) (pe_repo e) (source_path e) (worktree_order e)
    (f (stacked_parents e)) (base_branch e) (collapsed e) (focused e) (category_id e) (env_sync e).

Definition set_base_branch_impl (project_id : bytes) (branch : option bytes) : M (result unit bytes) :=
  let! _ := (match branch with
             | None => ret (Ok tt)
             | Some b =>
                 let! entry := find_project_entry project_id in
                 let! source := managed_source_dir entry in
                 let* there := ask (fun l => path_exists w l source) in
                 if negb there then ret (Err (str "Source directory not found: " ++ source_path entry))
                 else
                   let* r := verify_remote_branch w source b in
                   ret (match r with Ok _ => Ok tt | Err _ => Err (str "Branch '" ++ b ++ str "' not found in remote") end)
             end) in
  change_entry project_id (fun e => mkProjectEntry (pe_id e) (pe_name e) (pe_url e) (pe_org e) (pe_repo e)
    (source_path e) (worktree_order e) (stacked_parents e) branch (collapsed e) (focused e) (category_id e) (env_sync e)).

Definition set_project_category_impl (project_id category : bytes) : M (result unit bytes) :=
  let! config := load_reconciled_config in
  let normalized_category_id :=
    normalize_project_category_id (Some category) (available_project_category_ids config) in
  if negb (bytes_eqb (trim category) DEFAULT_PROJECT_CATEGORY_ID) && bool_decide (normalized_category_id = None)
  then ret (Err (str "Project category not found: " ++ trim category))
  else
    match update_by_id project_id (fun e => with_category e normalized_category_id) (projects config) with
    | None => ret (Err (str "Project not found: " ++ project_id))
    | Some ps => save_config w (with_projects config ps)
    end.

Definition without_category (c : bytes) (p : GrovePreferences) : GrovePreferences :=
  mkGrovePreferences (terminal_link_open_mode p) (project_view_mode p) (collapsed_project_orgs p)
    (project_org_order p) (git_gui_menu_items p) (ide_menu_items p)
    (filter (fun x => cat_id x <> c) (project_categories p)) (daemon_scrollback_bytes p) (legacy_preferred_ide p).

Definition delete_project_category_impl (category : bytes) : M (result unit bytes) :=
  let c := trim category in
  if bool_decide (c = []) || bytes_eqb c DEFAULT_PROJECT_CATEGORY_ID
  then ret (Err (str "Default project category cannot be deleted"))
  else
    let! config := load_reconciled_config in
    let before := normalized (default grove_preferences_default (preferences config)) in
    let after := without_category c before in
    if Nat.eqb (length (project_categories after)) (length (project_categories before))
    then ret (Err (str "Project category not found: " ++ c))
    else
      let ps := (fun e => if bool_decide (category_id e = Some c) then with_category e None else e) <$> projects config in
      save_config w (with_preferences (with_projects config ps) after).

Definition refresh_project_impl (project_id : bytes) : M (result Project bytes) :=
  let! entry := find_project_entry project_id in
  let! source := managed_source_dir entry in
  let* there := ask (fun l => path_exists w l source) in
  if negb there then ret (Err (str "Source directory not found: " ++ source_path entry))
  else
    let! _ := refresh_source_repo w source (base_branch entry) in
    let* p := project_from_entry entry in ret (Ok p).

Definition get_remote_branches_impl (sort : list bytes -> list bytes) (project_id : bytes) :
    M (result (list bytes) bytes) :=
  let! entry := find_project_entry project_id in
  let! source := managed_source_dir entry in
  let* there := ask (fun l => path_exists w l source) in
  if negb there then ret (Err (str "Source directory not found: " ++ source_path entry))
  else
    let* _ := maybe_fetch_source_remote w source in
    let! branches := remote_branch_names w source in
    ret (Ok (sort branches)).
End commands.

(** * The registry *)

Definition clean (dir_exists : bytes -> bool) (l : list ProjectEntry) : Prop :=
  NoDup (path_key <$> l) /\ NoDup (url_key <$> l) /\ Forall (fun e => dir_exists (source_path e) = true) l.

Lemma elem_of_fmap_snoc {A B} (f : A -> B) x l e : x ∈ (f <$> l ++ [e]) <-> x ∈ (f <$> l) \/ x = f e.
Proof. rewrite fmap_app, elem_of_app. change (f <$> [e]) with [f e]. by rewrite list_elem_of_singleton. Qed.

Section registry.
Context (dir_exists : bytes -> bool) (children : bytes -> list bytes)
        (repo_at : bytes -> option Repo) (uuid : bytes -> bytes) (base : bytes).
#[local] Abbreviation reconcile l := (reconcile_project_entries dir_exists children repo_at uuid l base).
#[local] Abbreviation from_source := (project_entry_from_source repo_at uuid).
#[local] Abbreviation keep := (keep_entry dir_exists).
#[local] Abbreviation scanned := (add_scanned repo_at uuid).
#[local] Abbreviation sources := (scan_source_directories dir_exists children base).

(** What has been seen covers what is kept. *)
Definition covers (s : Seen) : Prop :=
  (forall e, e ∈ reconciled s -> path_key e ∈ seen_paths s /\ url_key e ∈ seen_urls s).

Lemma clean_snoc l e :
  clean dir_exists l -> dir_exists (source_path e) = true ->
  path_key e ∉ (path_key <$> l) -> url_key e ∉ (url_key <$> l) -> clean dir_exists (l ++ [e]).
Proof.
  intros (Hp & Hu & Hd) He Hpe Hue. unfold clean. rewrite !fmap_app. split_and!; [by apply NoDup_snoc..|].
  apply Forall_app. split; [done|by constructor].
Qed.

Lemma not_seen s e : covers s -> path_key e ∉ seen_paths s -> path_key e ∉ (path_key <$> reconciled s).
Proof. intros Hc Hn Hin. apply list_elem_of_fmap in Hin as (x & Ex & Hx). apply Hn. rewrite Ex. by apply Hc. Qed.
Lemma not_seen_url s e : covers s -> url_key e ∉ seen_urls s -> url_key e ∉ (url_key <$> reconciled s).
Proof. intros Hc Hn Hin. apply list_elem_of_fmap in Hin as (x & Ex & Hx). apply Hn. rewrite Ex. by apply Hc. Qed.

Lemma covers_snoc s e paths :
  covers s -> paths = {[path_key e]} ∪ seen_paths s ->
  covers (mkSeen (reconciled s ++ [e]) paths ({[url_key e]} ∪ seen_urls s)).
Proof.
  intros Hc -> x [Hx|Hx%list_elem_of_singleton]%elem_of_app; cbn [seen_paths seen_urls]; rewrite !elem_of_union.
  - specialize (Hc x Hx) as [? ?]. tauto.
  - subst. rewrite !elem_of_singleton. tauto.
Qed.

Lemma keep_step s e :
  covers s -> clean dir_exists (reconciled s) ->
  covers (keep s e) /\ clean dir_exists (reconciled (keep s e)) /\
  (reconciled (keep s e) = reconciled s \/ reconciled (keep s e) = reconciled s ++ [e]).
Proof.
  intros Hc Hl. unfold keep_entry. destruct (dir_exists (source_path e)) eqn:Ed; cbn [negb]; [|auto].
  destruct (bool_decide_reflect (path_key e ∈ seen_paths s)) as [|Hp]; [auto|].
  destruct (bool_decide_reflect (url_key e ∈ seen_urls s)) as [|Hu].
  - split; [|auto]. intros x Hx. cbn. specialize (Hc x Hx) as [? ?]. rewrite elem_of_union. tauto.
  - split; [by apply covers_snoc|]. split; [|auto]. apply clean_snoc; auto using not_seen, not_seen_url.
Qed.

Lemma from_source_path d e : from_source d = Ok e -> source_path e = d.
Proof.
  unfold project_entry_from_source, project_entry_from_url.
  destruct (remote_url_for_repo _ _) as [url|]; [|done]. cbn.
  destruct (parse_git_url url) as [[[h o] r]|]; [|done]. cbn. by intros [= <-].
Qed.

Lemma elem_of_insert_path x p l : x ∈ insert_path p l <-> x = p \/ x ∈ l.
Proof.
  induction l as [|y l IH]; cbn; [by rewrite list_elem_of_singleton, elem_of_nil; tauto|].
  destruct (components_ltb _ _); rewrite ?elem_of_cons; [tauto|]. rewrite IH. tauto.
Qed.
Lemma elem_of_sort_paths x l : x ∈ sort_paths l <-> x ∈ l.
Proof.
  unfold sort_paths. assert (Hg : forall acc, x ∈ foldl (fun acc p => insert_path p acc) acc l <-> x ∈ acc \/ x ∈ l).
  { induction l as [|p l IH]; intros acc; cbn; [rewrite elem_of_nil; tauto|].
    rewrite IH, elem_of_insert_path, elem_of_cons. tauto. }
  rewrite Hg, elem_of_nil. tauto.
Qed.
Lemma sources_exist d : d ∈ sources -> dir_exists d = true.
Proof. unfold scan_source_directories. rewrite elem_of_sort_paths, list_elem_of_filter. by intros [? _]. Qed.

(** The keys that a directory adds or that stop it. *)
Definition handled (s : Seen) (d : bytes) : Prop :=
  normalize_source_path d ∈ seen_paths s \/
  match from_source d with Ok e => url_key e ∈ seen_urls s | Err _ => True end.

Lemma scan_step s d :
  dir_exists d = true -> covers s -> clean dir_exists (reconciled s) ->
  covers (scanned s d) /\ clean dir_exists (reconciled (scanned s d)) /\
  (exists new, reconciled (scanned s d) = reconciled s ++ new /\ Forall (fun e => from_source (source_path e) = Ok e) new) /\
  handled (scanned s d) d /\ (forall d', handled s d' -> handled (scanned s d) d').
Proof.
  intros Hd Hc Hl. unfold add_scanned, handled.
  destruct (bool_decide_reflect (normalize_source_path d ∈ seen_paths s)) as [|Hp].
  { split; [done|]. split; [done|]. split; [exists []; by rewrite app_nil_r|]. split; [by left|tauto]. }
  destruct (from_source d) as [e|] eqn:Ee.
  2: { split; [done|]. split; [done|]. split; [exists []; by rewrite app_nil_r|]. split; [by right|tauto]. }
  destruct (bool_decide_reflect (url_key e ∈ seen_urls s)) as [|Hu].
  { split; [done|]. split; [done|]. split; [exists []; by rewrite app_nil_r|]. split; [by right|tauto]. }
  pose proof (from_source_path _ _ Ee) as Hs. cbn [reconciled seen_paths seen_urls].
  assert (Hk : path_key e = normalize_source_path d) by (unfold path_key; by rewrite Hs).
  split; [apply covers_snoc; [done|]; by rewrite Hk|]. split; [|split; [|split]].
  - apply clean_snoc; [done|by rewrite Hs| |by apply not_seen_url]. apply not_seen; [done|by rewrite Hk].
  - exists [e]. split; [done|]. repeat constructor. by rewrite Hs.
  - left. rewrite elem_of_union, elem_of_singleton. tauto.
  - intros d' [Hd'|Hd']; [left; rewrite elem_of_union; tauto|right].
    destruct (from_source d'); [|done]. rewrite elem_of_union. tauto.
Qed.

(** The two passes. *)
Lemma keep_pass entries s :
  covers s -> clean dir_exists (reconciled s) ->
  let s' := foldl keep s entries in
  covers s' /\ clean dir_exists (reconciled s') /\
  exists kept, reconciled s' = reconciled s ++ kept /\ kept `sublist_of` entries.
Proof.
  revert s. induction entries as [|e l IH]; intros s Hc Hl; cbn [foldl].
  { split; [done|]. split; [done|]. exists []. by rewrite app_nil_r. }
  destruct (keep_step s e Hc Hl) as (Hc' & Hl' & Hr). destruct (IH _ Hc' Hl') as (Hc2 & Hl2 & kept & Hk & Hs).
  split; [done|]. split; [done|]. destruct Hr as [Hr|Hr]; rewrite Hk, Hr.
  - exists kept. split; [done|by apply sublist_cons].
  - exists (e :: kept). rewrite <- app_assoc. split; [done|by apply sublist_skip].
Qed.

Lemma scan_pass ds s :
  Forall (fun d => dir_exists d = true) ds -> covers s -> clean dir_exists (reconciled s) ->
  let s' := foldl scanned s ds in
  covers s' /\ clean dir_exists (reconciled s') /\
  (exists new, reconciled s' = reconciled s ++ new /\ Forall (fun e => from_source (source_path e) = Ok e) new) /\
  Forall (handled s') ds /\ (forall d', handled s d' -> handled s' d').
Proof.
  intros Hds. revert s. induction Hds as [|d ds Hd _ IH]; intros s Hc Hl; cbn [foldl].
  { split; [done|]. split; [done|]. split; [exists []; by rewrite app_nil_r|]. split; [constructor|done]. }
  destruct (scan_step s d Hd Hc Hl) as (Hc' & Hl' & (n1 & Hn1 & Hf1) & Hh & Hm).
  destruct (IH _ Hc' Hl') as (Hc2 & Hl2 & (n2 & Hn2 & Hf2) & Hh2 & Hm2).
  split; [done|]. split; [done|]. split; [|split].
  - exists (n1 ++ n2). rewrite Hn2, Hn1, <- app_assoc. split; [done|]. by apply Forall_app.
  - constructor; auto.
  - auto.
Qed.

Lemma covers_start : covers (mkSeen [] ∅ ∅).
Proof. intros e ?%elem_of_nil. done. Qed.
Lemma clean_start : clean dir_exists [].
Proof. split_and!; constructor. Qed.
Lemma sources_Forall : Forall (fun d => dir_exists d = true) sources.
Proof. apply Forall_forall. intros d. apply sources_exist. Qed.

(** A clean registry is kept as it is by the first pass, and nothing else counts
    as seen. *)
Lemma keep_clean l :
  clean dir_exists l ->
  foldl keep (mkSeen [] ∅ ∅) l = mkSeen l (list_to_set (path_key <$> l)) (list_to_set (url_key <$> l)).
Proof.
  intros Hl. assert (Hg : forall done todo ps us, clean dir_exists (done ++ todo) ->
      (forall x, x ∈ ps <-> x ∈ (path_key <$> done)) -> (forall x, x ∈ us <-> x ∈ (url_key <$> done)) ->
      exists ps' us', foldl keep (mkSeen done ps us) todo = mkSeen (done ++ todo) ps' us' /\
        (forall x, x ∈ ps' <-> x ∈ (path_key <$> done ++ todo)) /\ (forall x, x ∈ us' <-> x ∈ (url_key <$> done ++ todo))).
  { intros dn todo. revert dn. induction todo as [|e todo IH]; intros dn ps us Hcl Hps Hus.
    - exists ps, us. rewrite app_nil_r. done.
    - cbn [foldl]. pose proof Hcl as (Hp & Hu & Hd). rewrite fmap_app in Hp, Hu.
      apply NoDup_app in Hp as (_ & Hp & _). apply NoDup_app in Hu as (_ & Hu & _).
      assert (Hde : dir_exists (source_path e) = true).
      { rewrite Forall_forall in Hd. apply Hd, elem_of_app. right. apply list_elem_of_here. }
      assert (keep (mkSeen dn ps us) e = mkSeen (dn ++ [e]) ({[path_key e]} ∪ ps) ({[url_key e]} ∪ us)) as ->.
      { unfold keep_entry. rewrite Hde. cbn [negb seen_paths seen_urls reconciled].
        rewrite bool_decide_eq_false_2; [|rewrite Hps; intros Hin; apply (Hp _ Hin), list_elem_of_here].
        rewrite bool_decide_eq_false_2; [done|rewrite Hus; intros Hin; apply (Hu _ Hin), list_elem_of_here]. }
      destruct (IH (dn ++ [e]) ({[path_key e]} ∪ ps) ({[url_key e]} ∪ us)) as (ps' & us' & Hf & Hps' & Hus').
      + by rewrite <- app_assoc.
      + intros x. rewrite elem_of_union, elem_of_singleton, Hps, elem_of_fmap_snoc. tauto.
      + intros x. rewrite elem_of_union, elem_of_singleton, Hus, elem_of_fmap_snoc. tauto.
      + rewrite <- app_assoc in Hf, Hps', Hus'. eauto. }
  destruct (Hg [] l ∅ ∅ Hl) as (ps & us & Hf & Hps & Hus); [intros; split; [by intros ?%elem_of_empty|by intros ?%elem_of_nil]..|].
  rewrite Hf. cbn [app] in *. f_equal; apply leibniz_equiv; intros x; rewrite elem_of_list_to_set; auto.
Qed.

(** Every key that was seen is that of a project that is kept. *)
Definition belong (s : Seen) : Prop :=
  (forall x, x ∈ seen_paths s -> x ∈ (path_key <$> reconciled s)) /\
  (forall x, x ∈ seen_urls s -> x ∈ (url_key <$> reconciled s)).

Lemma seen_belong ds s : belong s -> belong (foldl scanned s ds).
Proof.
  revert s. induction ds as [|d ds IH]; intros s [Hp Hu]; [done|]. cbn [foldl]. apply IH. unfold add_scanned.
  destruct (bool_decide _); [done|]. destruct (from_source d) as [e|] eqn:E; [|done]. destruct (bool_decide _); [done|].
  split; cbn; intros x; rewrite elem_of_union, elem_of_singleton, elem_of_fmap_snoc.
  - intros [->|?]; [right|left; auto]. unfold path_key. by rewrite (from_source_path _ _ E).
  - intros [->|?]; [by right|left; auto].
Qed.

(** Directories that were handled add nothing to the clean list. *)
Lemma all_handled_stays ds s :
  Forall (handled s) ds -> belong s ->
  let s' := mkSeen (reconciled s) (list_to_set (path_key <$> reconciled s)) (list_to_set (url_key <$> reconciled s)) in
  foldl scanned s' ds = s'.
Proof.
  intros Hds [Hp Hu] s'. induction Hds as [|d ds Hd _ IH]; [done|]. cbn [foldl].
  assert (scanned s' d = s') as ->; [|exact IH]. unfold s', add_scanned, handled in *. cbn [seen_paths seen_urls reconciled].
  case_bool_decide as Hin; [done|]. destruct Hd as [Hd|Hd]; [destruct Hin; rewrite elem_of_list_to_set; auto|].
  destruct (from_source d) as [e|]; [|done]. rewrite bool_decide_eq_true_2; [done|]. rewrite elem_of_list_to_set. auto.
Qed.

(** Whatever the configuration lists, the registry that is used has one
    project for a source directory and one for a URL, and every directory exists:
    it is the listed projects that qualify, in order, then those found on disk.
    From the second load on it no longer changes while the directories do not. *)
Theorem registry_is_reconciled entries :
  clean dir_exists (reconcile entries) /\
  (exists kept new, reconcile entries = kept ++ new /\ kept `sublist_of` entries /\
     Forall (fun e => from_source (source_path e) = Ok e) new) /\
  reconcile (reconcile (reconcile entries)) = reconcile (reconcile entries).
Proof.
  assert (Hspec : forall l, clean dir_exists (reconcile l) /\
    (exists kept new, reconcile l = kept ++ new /\ kept `sublist_of` l /\
       Forall (fun e => from_source (source_path e) = Ok e) new)).
  { intros l. unfold reconcile_project_entries.
    destruct (keep_pass l _ covers_start clean_start) as (Hc & Hl & kept & Hk & Hs).
    destruct (scan_pass sources _ sources_Forall Hc Hl) as (_ & Hl2 & (new & Hn & Hf) & _). split; [done|].
    exists kept, new. by rewrite Hn, Hk. }
  split; [apply Hspec|]. split; [apply Hspec|].
  generalize (reconcile entries), (proj1 (Hspec entries)). intros l Hl.
  assert (Hl' : clean dir_exists (reconcile l)) by apply Hspec.
  unfold reconcile_project_entries at 1. rewrite (keep_clean _ Hl').
  unfold reconcile_project_entries. rewrite (keep_clean _ Hl).
  set (s0 := mkSeen l _ _).
  assert (Hc0 : covers s0).
  { intros e He. cbn. rewrite !elem_of_list_to_set. split; by apply list_elem_of_fmap_2. }
  destruct (scan_pass sources s0 sources_Forall Hc0 Hl) as (Hc & Hcl & _ & Hh & _).
  assert (Hb : belong (foldl scanned s0 sources))
    by (apply seen_belong; split; intros x; cbn; by rewrite elem_of_list_to_set).
  by rewrite (all_handled_stays sources _ Hh Hb).
Qed.
End registry.

(** * What is removed from disk *)

Section removal.
Context (w : World).

Definition no_removal (e : event) : Prop := match e with RemoveDirAll _ => False | _ => True end.

Ltac walk :=
  repeat first
    [ apply does_ret | apply does_ask | apply does_load | apply does_save; exact I | apply does_mkdir; exact I
    | apply does_emit; exact I | apply does_git; exact I | apply does_git_output; exact I | apply does_git_raw; exact I
    | apply does_try; [|intros ?] | apply does_bind; [|intros ?]
    | match goal with
      | |- does _ (match ?x with _ => _ end) => destruct x
      | |- does _ (if ?x then _ else _) => destruct x
      | |- does _ (let '(_, _) := ?x in _) => destruct x
      end ].

Lemma does_base_dir P : does P (base_dir w).
Proof. intros s. exists []. cbn. rewrite app_nil_r. split; [done|constructor]. Qed.

Lemma load_removes_nothing : does no_removal (load_reconciled_config w).
Proof.
  unfold load_reconciled_config. apply does_bind; [apply does_load|intros c]. apply does_bind; [apply does_base_dir|intros b].
  apply does_bind; [apply does_ask|intros ps]. destruct (reconcile_project_categories c) as [c' ch]. walk.
Qed.

Lemma register_removes_nothing e : does no_removal (register_project_entry w e).
Proof. apply does_try; [apply load_removes_nothing|intros c]. walk. Qed.

Lemma recover_removes_nothing d url n : does no_removal (recover_existing_project w d url n).
Proof.
  apply does_try; [apply load_removes_nothing|intros c]. destruct (find_matching_project _ _ _); [apply does_ret|].
  apply does_bind; [apply does_ask|intros [r|]]; [|apply does_ret]. apply does_bind; [apply does_ask|intros x].
  apply does_try; [destruct x; [apply does_ret|apply does_ask]|intros y; apply register_removes_nothing].
Qed.

Lemma prepare_removes_nothing url n b : does no_removal (existing_or_prepare w url n b).
Proof.
  apply does_try.
  - unfold clone_dirs. apply does_try; [apply does_ret|intros [[h o] r]]. apply does_bind; [apply does_base_dir|intros ?]. apply does_ret.
  - intros [d sd]. apply does_try; [apply load_removes_nothing|intros c]. destruct (find_matching_project _ _ _); [apply does_ret|].
    apply does_bind; [apply does_ask|intros [|]]; [|walk]. apply does_try; [apply recover_removes_nothing|intros; apply does_ret].
Qed.

(** The directories that are made are those of the URL. *)
Lemma try_ok {A B} (m : M (result A bytes)) (k : A -> M (result B bytes)) s b s' :
  try_bind m k s = (Ok b, s') -> exists a s1, m s = (Ok a, s1) /\ k a s1 = (Ok b, s').
Proof. unfold try_bind. destruct (m s) as [[a|e] s1]; [eauto|done]. Qed.

Lemma prepared_dirs url n b s d sd s' :
  existing_or_prepare w url n b s = (Ok (inr (d, sd)), s') ->
  exists host org repo, parse_git_url url = Ok (host, org, repo) /\
    d = project_dir (base_dir_of w (disk s)) host org repo.
Proof.
  intros E. apply try_ok in E as ([d' sd'] & s1 & Ed & E).
  unfold clone_dirs, lift, try_bind, bind, ret, base_dir in Ed.
  destruct (parse_git_url url) as [[[host org] repo]|]; [|done]. injection Ed as <- <- <-.
  exists host, org, repo. split; [done|]. apply try_ok in E as (c & s2 & _ & E).
  destruct (find_matching_project _ _ _); [done|]. unfold bind, ask in E.
  destruct (is_dir w (log s2) _).
  - by apply try_ok in E as (x & s3 & _ & [=]).
  - apply try_ok in E as (x & s3 & _ & E). apply try_ok in E as (y & s4 & _ & E). by injection E as <- _ _.
Qed.

(** Adding a project removes nothing but the directory of the URL's own
    host, organisation and repository under the base directory, if the clone
    failed, provided that these three are proper names. *)
Theorem failed_clone_removes_its_directory url host org repo s r s' :
  parse_git_url url = Ok (host, org, repo) -> Forall proper [host; org; repo] ->
  add_entry w url s = (r, s') ->
  exists es, log s' = log s ++ es /\
    forall p, RemoveDirAll p ∈ es -> (exists e, r = Err e) /\
      strip_components (components (base_dir_of w (disk s))) (components p) = Some [Normal host; Normal org; Normal repo].
Proof.
  intros Hp Hprop E. unfold add_entry, try_bind in E.
  destruct (prepare_removes_nothing url None false s) as (es1 & Hl1 & Hn1).
  destruct (existing_or_prepare w url None false s) as [[[e|[d sd]]|m] s1] eqn:Epre; cbn [snd] in Hl1.
  - injection E as <- <-. exists es1. split; [done|]. intros p Hin. by apply (proj1 (Forall_forall _ _) Hn1) in Hin.
  - apply prepared_dirs in Epre as (h & o & r0 & Hp' & Hd). rewrite Hp in Hp'. injection Hp' as <- <- <-.
    assert (Hc : components d = components (base_dir_of w (disk s)) ++ [Normal host; Normal org; Normal repo]).
    { rewrite Hd. unfold project_dir. apply Forall_cons in Hprop as [H1 Hprop]. apply Forall_cons in Hprop as [H2 Hprop].
      apply Forall_cons in Hprop as [H3 _]. rewrite !components_join by done. by rewrite <- !app_assoc. }
    unfold clone_and_register, bind, git_raw in E.
    destruct (git w (log s1) [] _) as [[[[] out] err]|].
    + unfold url_entry, ask, try_bind in E. cbn [log disk] in E.
      destruct (project_entry_from_url _ _ _ _) as [e|m]; [|injection E as <- <-].
      * destruct (register_removes_nothing e (mkSt (log s1 ++ [Git [] [str "clone"; url; sd]]) (disk s1))) as (es2 & Hl2 & Hn2).
        rewrite E in Hl2. cbn [snd log] in Hl2. exists (es1 ++ [Git [] [str "clone"; url; sd]] ++ es2).
        rewrite Hl2, Hl1, <- !app_assoc. split; [done|]. intros p Hin. exfalso.
        rewrite !elem_of_app, list_elem_of_singleton in Hin. rewrite Forall_forall in Hn1, Hn2.
        destruct Hin as [Hin|[Hin|Hin]]; [by apply Hn1 in Hin|done|by apply Hn2 in Hin].
      * exists (es1 ++ [Git [] [str "clone"; url; sd]]). cbn [log]. rewrite Hl1, <- app_assoc. split; [done|]. intros p Hin.
        exfalso. rewrite elem_of_app, list_elem_of_singleton in Hin. rewrite Forall_forall in Hn1.
        destruct Hin as [Hin|Hin]; [by apply Hn1 in Hin|done].
    + unfold emit in E. cbn [ret log] in E. injection E as <- <-.
      exists (es1 ++ [Git [] [str "clone"; url; sd]; RemoveDirAll d]). cbn [log]. rewrite Hl1, <- !app_assoc. split; [done|].
      intros p Hin. split; [eauto|]. rewrite Forall_forall in Hn1.
      apply elem_of_app in Hin as [Hin|Hin]; [by apply Hn1 in Hin|].
      apply elem_of_cons in Hin as [Hin|Hin]; [done|]. apply list_elem_of_singleton in Hin as [= ->].
      rewrite Hc. apply strip_components_app.
    + injection E as <- <-. exists (es1 ++ [Git [] [str "clone"; url; sd]]). cbn [log]. rewrite Hl1, <- app_assoc.
      split; [done|]. intros p Hin. exfalso. rewrite elem_of_app, list_elem_of_singleton in Hin.
      rewrite Forall_forall in Hn1. destruct Hin as [Hin|Hin]; [by apply Hn1 in Hin|done].
  - injection E as <- <-. exists es1. split; [done|]. intros p Hin. by apply (proj1 (Forall_forall _ _) Hn1) in Hin.
Qed.

(** Removing a project deletes the directory above its source, and only if
    that source is where the project's URL belongs under the base directory, the
    entry was taken out of the configuration and that was saved. *)
Theorem removal_follows_the_registry project_id s r s' :
  remove_project_impl w project_id s = (r, s') ->
  (exists e es, r = Err e /\ log s' = log s ++ es /\ Forall no_removal es) \/
  (exists i entry host org repo dir,
     r = Ok tt /\ projects (disk s) !! i = Some entry /\ pe_id entry = project_id /\
     parse_git_url (pe_url entry) = Ok (host, org, repo) /\
     path_eqb (normalized_path (canonicalize w (log s)) (source_path entry))
       (normalized_path (canonicalize w (log s))
          (path_join (project_dir (base_dir_of w (disk s)) host org repo) SOURCE_WORKTREE_NAME)) = true /\
     parent (source_path entry) = Some dir /\
     disk s' = with_projects (disk s) (delete i (projects (disk s))) /\
     log s' = log s ++ [SaveConfig (disk s'); RemoveDirAll dir]).
Proof.
  unfold remove_project_impl, bind at 1, load_config.
  destruct (list_find _ (projects (disk s))) as [[i entry]|] eqn:Ef.
  2: { intros [= <- <-]. left. eexists _, []. rewrite app_nil_r. repeat split. constructor. }
  apply list_find_Some in Ef as (Hi & Hid & _).
  unfold managed_source_dir, lift, try_bind, bind, ask, ret, base_dir.
  destruct (parse_git_url (pe_url entry)) as [[[host org] repo]|m] eqn:Ep.
  2: { intros [= <- <-]. left. eexists _, []. rewrite app_nil_r. repeat split. constructor. }
  destruct (path_eqb _ _) eqn:Eq.
  2: { intros [= <- <-]. left. eexists _, []. rewrite app_nil_r. repeat split. constructor. }
  destruct (parent (source_path entry)) as [dir|] eqn:Edir.
  2: { intros [= <- <-]. left. eexists _, []. rewrite app_nil_r. repeat split. constructor. }
  unfold save_config, emit. destruct (save_fails w (log s)) as [d|]; intros [= <- <-].
  - left. eexists _, [_]. repeat split. by repeat constructor.
  - right. exists i, entry, host, org, repo, dir. cbn [log disk]. by rewrite <- app_assoc.
Qed.
End removal.

(** * Examples *)

Module ProjectsExamples.
Import ToyWorld.

Definition url : bytes := str "https://github.com/a/b.git".
Definition entry (id u path : string) (category : option bytes) : ProjectEntry :=
  with_category (make_project_entry (str id) (str id) (str u) (str "a") (str "b") (str path)) category.

(** No directory exists, and clones fail. *)
Definition failing : World :=
  mkWorld (fun _ _ _ => fails "fatal: not found") (fun _ _ _ => None) (fun _ => None) (fun _ _ => true) (fun _ _ => true)
    (fun _ _ => false) (fun _ _ => false) (fun _ _ => false) (fun _ _ => []) (fun _ _ => None) (fun _ _ => 0)
    (fun _ _ => None) (fun _ p => str "id-of-" ++ p) (fun _ _ _ => None) (str "/home/me/.grove").

Lemma failed_clone_removes_its_directory_witness :
  let s' := (add_entry failing url (start [])).2 in
  RemoveDirAll (str "/home/me/.grove/github.com/a/b") ∈ log s' /\
  strip_components (components (str "/home/me/.grove")) (components (str "/home/me/.grove/github.com/a/b")) =
    Some [Normal (str "github.com"); Normal (str "a"); Normal (str "b")].
Proof.
  assert (Hin : RemoveDirAll (str "/home/me/.grove/github.com/a/b") ∈ log (add_entry failing url (start [])).2).
  { set (l := log _). vm_compute in l. subst l. do 3 apply list_elem_of_further. apply list_elem_of_here. }
  split; [exact Hin|].
  assert (Hproper : Forall proper [str "github.com"; str "a"; str "b"]).
  { repeat apply Forall_cons_2; try apply Forall_nil_2.
    all: split; [|split_and!; discriminate]; match goal with |- 47 ∉ ?l => apply (bool_decide_unpack (47 ∉ l)); vm_compute; exact I end. }
  destruct (failed_clone_removes_its_directory failing url (str "github.com") (str "a") (str "b") (start [])
    (add_entry failing url (start [])).1 (add_entry failing url (start [])).2 eq_refl Hproper
    (surjective_pairing _)) as (es & Hl & Hes).
  cbn [log start app] in Hl. exact (proj2 (Hes _ (eq_rect _ (fun l => _ ∈ l) Hin _ Hl))).
Defined.

Definition mine : ProjectEntry := entry "p" "https://github.com/a/b" "/g/github.com/a/b/source" None.
Lemma removal_follows_the_registry_witness :
  let w := world (fun _ => says "") (fun _ => None) (fun _ => []) in
  let s := start [mine] in
  (remove_project_impl w (str "p") s).1 = Ok tt /\
  exists dir, log (remove_project_impl w (str "p") s).2 =
      [SaveConfig (disk (remove_project_impl w (str "p") s).2); RemoveDirAll dir] /\
    parent (source_path mine) = Some dir.
Proof.
  intros w s. assert (Hr : (remove_project_impl w (str "p") s).1 = Ok tt) by (vm_compute; reflexivity).
  split; [exact Hr|].
  destruct (removal_follows_the_registry w (str "p") s _ _ (surjective_pairing _))
    as [(e & es & He & _)|(i & en & h & o & rp & dir & _ & Hi & _ & _ & _ & Hdir & _ & Hl)];
    [rewrite Hr in He; discriminate|].
  exists dir. split; [exact Hl|]. destruct i as [|i]; [|destruct i; discriminate]. injection Hi as <-. exact Hdir.
Defined.

(** The components of a URL may go up: the clone fails, and what is removed is
    the directory above the base directory. *)
Example failed_clone_removes_above_the_base :
  RemoveDirAll (str "/home/me/.grove/x/../..") ∈ log (add_entry failing (str "https://x/../..") (start [])).2.
Proof.
  set (l := log _). vm_compute in l. subst l. do 3 apply list_elem_of_further. apply list_elem_of_here.
Qed.

(** A world where the first clone makes the directory, and the next ones fail
    because it is there. *)
Definition is_clone (e : event) : bool :=
  match e with Git _ (a :: _) => bytes_eqb a (str "clone") | _ => false end.
Definition once : World :=
  mkWorld (fun l _ args => if existsb is_clone l then fails "fatal: destination path exists" else says "")
    (fun _ _ _ => None) (fun _ => None) (fun _ _ => true) (fun _ _ => true)
    (fun l _ => existsb is_clone l) (fun l _ => existsb is_clone l) (fun _ _ => false) (fun _ _ => []) (fun _ p => Some p)
    (fun _ _ => 0) (fun _ _ => None) (fun _ p => str "id-of-" ++ p) (fun _ _ _ => None) (str "/g").

(** Two clones of one URL are started before either ran: the second one fails and
    removes the project that the first one registered. *)
Example second_clone_removes_the_first :
  let s := (run_clone_impl once url (start_clone_impl once url (start_clone_impl once url (start [])).2).2).2 in
  let s' := (run_clone_impl once url s).2 in
  source_path <$> projects (disk s') = [str "/g/github.com/a/b/source"] /\
  last (log s') = Some (RemoveDirAll (str "/g/github.com/a/b")).
Proof. vm_compute. split; reflexivity. Qed.

(** The category ids are normalised, then the list from before is saved. *)
Example category_stays_unknown :
  let gone := entry "p" "https://github.com/a/b" "/p/source" (Some (str "gone")) in
  let w := world (fun _ => says "") (fun _ => None) (fun _ => []) in
  let s' := (load_reconciled_config w (start [gone])).2 in
  category_id <$> projects (disk s') = [Some (str "gone")] /\ length (log s') = 1%nat /\
  length (log (load_reconciled_config w s').2) = 2%nat.
Proof. vm_compute. split_and!; reflexivity. Qed.

(** A project dropped for its URL comes back at the next load with the URL of its
    repository: the first load does not settle. *)
Example second_load_differs :
  let other := mkRepo (Some (str "https://github.com/a/other")) [] false None 0 None (fun _ => None) in
  let dirs p := if bytes_eqb p (str "/g") then [str "/g/h"] else
                if bytes_eqb p (str "/g/h") then [str "/g/h/a"] else [str "/g/h/a/c"] in
  let load l := reconcile_project_entries (fun _ => true) dirs (fun _ => Some other) (fun p => p) l (str "/g") in
  let l := [entry "p" "https://github.com/a/b" "/p/source" None;
            entry "q" "https://github.com/a/b" "/g/h/a/c/source" None] in
  pe_url <$> load l = [str "https://github.com/a/b"] /\
  pe_url <$> load (load l) = [str "https://github.com/a/b"; str "https://github.com/a/other"].
Proof. vm_compute. split; reflexivity. Qed.
End ProjectsExamples.
