(* ===== verification/Stacks.v ===== *)
(** Commands on worktrees (grove-core/src/git_project.rs): adding one, adding one
    on top of another (a stack), removing one, and the copy of ignored files that
    the user chose into a new one. *)

From S2P Require Import Prelude Utf8 Text Paths Remotes Worktrees Config World Source Projects.

#[local] Open Scope world_scope.

(** * The files to copy *)

Definition TAB : bytes := [9].

(** The pattern and the path of a line ["<source>:<line>:<pattern>\t<path>"]. *)
Definition ignore_rule (line : bytes) : option (bytes * bytes) :=
  '(rule, rel) ← split_once TAB line;
  let rel := trim rel in
  if bool_decide (rel = []) || contains (str "..") rel then None
  else
    let pattern :=
      match split_once (str ":") rule with
      | Some (_, rest) => match split_once (str ":") rest with Some (_, p) => trim p | None => [] end
      | None => []
      end in
    Some (pattern, rel).

Section commands.
Context (w : World).

Definition candidate_files (output : bytes) : list bytes :=
  filter (fun l => l <> [] /\ contains (str "..") l = false) (trim <$> str_lines output).

(** One file that check-ignore named. *)
Definition sync_file (source_dir worktree_dir : bytes) (include : list bytes) (line : bytes) : M (result unit bytes) :=
  match ignore_rule line with
  | None => ret (Ok tt)
  | Some (pattern, rel) =>
      if negb (bool_decide (pattern ∈ include)) then ret (Ok tt)
      else
        let src := path_join source_dir rel in
        let dst := path_join worktree_dir rel in
        let* file := ask (fun l => is_file w l src) in
        if negb file then ret (Ok tt)
        else
          let! _ := (match parent dst with Some p => create_dir_all w p | None => ret (Ok tt) end) in
          let* ok := ask (fun l => write_ok w l dst) in
          let* _ := emit (CopyFile src dst) in
          ret (if (ok : bool) then Ok tt else Err (str "env sync: copy " ++ src))
  end.

Fixpoint sync_lines (source_dir worktree_dir : bytes) (include : list bytes) (ls : list bytes) :
    M (result unit bytes) :=
  match ls with
  | [] => ret (Ok tt)
  | l :: ls =>
      let! _ := sync_file source_dir worktree_dir include l in
      sync_lines source_dir worktree_dir include ls
  end.

Definition sync_env_files (source_dir worktree_dir : bytes) (include : list bytes) : M (result unit bytes) :=
  if bool_decide (include = []) then ret (Ok tt)
  else
    let! output := run_git_output w source_dir
      [str "ls-files"; str "--others"; str "--ignored"; str "--exclude-standard"] in
    let files := candidate_files output in
    if bool_decide (files = []) then ret (Ok tt)
    else
      let* checked := ask (fun l => check_ignore w l source_dir (join [LF] files)) in
      match checked with
      | None => ret (Err (str "git check-ignore failed"))
      | Some out => sync_lines source_dir worktree_dir include (str_lines (from_utf8_lossy out))
      end.

(** A failure is only printed. *)
Definition sync_env (e : ProjectEntry) (source_dir worktree_dir : bytes) : M unit :=
  match env_sync e with
  | None => ret tt
  | Some include => let* _ := sync_env_files source_dir worktree_dir include in ret tt
  end.

(** ** Which patterns are offered *)

Definition SKIP_DIRS : list bytes :=
  str <$> ["node_modules"; "Pods"; "vendor"; ".gradle"; "venv"; ".venv"; "target"; "build"; ".build";
           "DerivedData"; ".next"; ".nuxt"; "__pycache__"]%string.

Definition is_env_relevant_pattern (pattern : bytes) : bool :=
  negb (existsb (eq_ignore_ascii_case (trim_end_matches (str "/") pattern)) SKIP_DIRS).

(** The set is a [BTreeSet]. *)
Definition collect_gitignore_patterns (content : bytes) (patterns : list bytes) : list bytes :=
  foldl (fun ps line =>
    let line := trim line in
    if negb (bool_decide (line = [])) && negb (starts_with (str "#") line) && negb (starts_with (str "!") line) &&
       is_env_relevant_pattern line
    then bt_insert line ps else ps) patterns (str_lines content).

(** * Adding *)

Definition existing_source (e : ProjectEntry) : M (result bytes bytes) :=
  let! source := managed_source_dir w e in
  let* there := ask (fun l => path_exists w l source) in
  ret (if (there : bool) then Ok source else Err (str "Source directory not found: " ++ source_path e)).

Definition worktree_path_of (source name : bytes) : bytes :=
  path_join (path_join (default source (parent source)) (str "worktrees")) name.

Definition run_worktree_add (cwd : bytes) (args : list bytes) (branch_name : bytes) : M (result unit bytes) :=
  let* r := run_git w cwd args in
  ret (match r with Ok _ => Ok tt | Err e => Err (humanize_worktree_add_error branch_name e) end).

Definition worktree_add (path : bytes) (rest : list bytes) : list bytes := [str "worktree"; str "add"; path] ++ rest.
Definition worktree_remove (path : bytes) : list bytes := [str "worktree"; str "remove"; path; str "--force"].
Definition branch_delete (name : bytes) : list bytes := [str "branch"; str "-D"; name].
Definition fetch_prune : list bytes := [str "fetch"; str "--prune"; str "origin"].

Definition new_worktree_args (path name : bytes) (local remote : bool) (default_branch : bytes) : list bytes :=
  if local then worktree_add path [name]
  else if remote then worktree_add path [str "-b"; name; str "origin/" ++ name]
  else worktree_add path [str "-b"; name; str "origin/" ++ default_branch].

Definition add_worktree_impl (project_id name : bytes) : M (result Worktree bytes) :=
  let! _ := lift (validate_branch_name name) in
  let! entry := find_project_entry w project_id in
  let! source := existing_source entry in
  let* _ := run_git w source fetch_prune in
  let! default_branch := configured_default_branch w source (base_branch entry) in
  let path := worktree_path_of source name in
  let! local_branches := local_branch_names w source in
  match find_branch_prefix_conflict local_branches name with
  | Some b => ret (Err (format_branch_prefix_conflict name b))
  | None =>
      let local := bool_decide (name ∈ local_branches) in
      let* remote := (if local then ret (Ok [])
                      else run_git_output w source [str "rev-parse"; str "--verify"; str "origin/" ++ name]) in
      let! _ := run_worktree_add source (new_worktree_args path name local (is_ok remote) default_branch) name in
      let* _ := sync_env entry source path in
      let! _ := change_entry w project_id (with_stacked_parents (delete name)) in
      ret (Ok (mkWorktree name path name None None))
  end.

(** ** Stacks *)

Definition save_stacked_parent_metadata (project_id child_name parent_name : bytes) : M (result unit bytes) :=
  change_entry w project_id (with_stacked_parents (<[child_name := parent_name]>)).

(** Whether it worked is only printed. *)
Definition rollback_stacked_parent_metadata (project_id child_name parent_name : bytes) : M unit :=
  let* config := load_config in
  match list_find (fun e => pe_id e = project_id) (projects config) with
  | None => ret tt
  | Some (_, e) =>
      if negb (bool_decide (stacked_parents e !! child_name = Some parent_name)) then ret tt
      else let* _ := change_entry w project_id (with_stacked_parents (delete child_name)) in ret tt
  end.

Definition cleanup_failed_stacked_worktree_add (source path branch_name : bytes) : M unit :=
  let* there := ask (fun l => path_exists w l path) in
  let* _ := (if (there : bool) then run_git w source (worktree_remove path) else ret (Ok tt)) in
  let* _ := run_git w source (branch_delete branch_name) in
  ret tt.

Definition git_is_ancestor (cwd ancestor descendant : bytes) : M (result bool bytes) :=
  let args := [str "merge-base"; str "--is-ancestor"; ancestor; descendant] in
  let* code := ask (fun l => exit_code w l cwd args) in
  let* out := git_raw w cwd args in
  ret (match out with
       | None => Err (str "Failed to run git merge-base")
       | Some (true, _, _) => Ok true
       | Some (false, _, err) =>
           if bool_decide (code = Some 1) then Ok false
           else Err (str "git merge-base failed: " ++ trim (from_utf8_lossy err))
       end).

Definition not_a_descendant (remote_branch parent_name : bytes) : bytes :=
  str "Created stacked worktree from " ++ remote_branch ++
  str ", but it is not a descendant of parent '" ++ parent_name ++ str "'.".
Definition ancestry_unknown (remote_branch error : bytes) : bytes :=
  str "Created stacked worktree from " ++ remote_branch ++
  str ", but Grove could not verify its parent ancestry: " ++ error.

Definition parent_warning (source parent_head remote_branch parent_name : bytes) (remote_exists : bool) :
    M (option bytes) :=
  if remote_exists then
    let* r := git_is_ancestor source parent_head remote_branch in
    ret (match r with
         | Ok true => None
         | Ok false => Some (not_a_descendant remote_branch parent_name)
         | Err e => Some (ancestry_unknown remote_branch e)
         end)
  else ret None.

(** What is known before anything is changed. *)
Record StackPlan := mkStackPlan {
  sp_entry : ProjectEntry;
  sp_source : bytes;
  sp_parent_path : bytes;
  sp_base_ref : bytes;
  sp_warning : option bytes
}.

Definition plan_stack (project_id parent_name name : bytes) : M (result StackPlan bytes) :=
  let! _ := lift (validate_branch_name name) in
  let! entry := find_project_entry w project_id in
  let! source := existing_source entry in
  let* _ := run_git w source fetch_prune in
  let* worktrees := resolve_project_worktrees w entry in
  match find_worktree_named worktrees parent_name with
  | None => ret (Err (str "Parent worktree not found: " ++ parent_name))
  | Some p =>
      let* there := ask (fun l => path_exists w l (path p)) in
      if negb there then ret (Err (str "Parent worktree path not found: " ++ path p))
      else
        let! local_branches := local_branch_names w source in
        match find_branch_prefix_conflict local_branches name with
        | Some b => ret (Err (format_branch_prefix_conflict name b))
        | None =>
            if bool_decide (name ∈ local_branches) then
              ret (Err (str "Cannot create stacked worktree '" ++ name ++ str "' because branch '" ++ name ++
                str "' already exists locally. Use a new branch name for stacked worktrees."))
            else
              let! parent_head := run_git_output w (path p) [str "rev-parse"; str "HEAD"] in
              let! remote_branches := remote_branch_names w source in
              let remote_exists := bool_decide (name ∈ remote_branches) in
              let remote_branch := str "origin/" ++ name in
              let* warning := parent_warning source parent_head remote_branch parent_name remote_exists in
              ret (Ok (mkStackPlan entry source (path p) (if remote_exists then remote_branch else parent_head) warning))
        end
  end.

Definition add_planned (project_id parent_name name : bytes) (p : StackPlan) : M (result Worktree bytes) :=
  let path := worktree_path_of (sp_source p) name in
  let! _ := save_stacked_parent_metadata project_id name parent_name in
  let* added := run_worktree_add (sp_source p) (worktree_add path [str "-b"; name; sp_base_ref p]) name in
  match added with
  | Err e =>
      let* _ := rollback_stacked_parent_metadata project_id name parent_name in
      let* _ := cleanup_failed_stacked_worktree_add (sp_source p) path name in
      ret (Err e)
  | Ok _ =>
      let* _ := sync_env (sp_entry p) (sp_parent_path p) path in
      ret (Ok (mkWorktree name path name (Some parent_name) (sp_warning p)))
  end.

Definition add_stacked_worktree_impl (project_id parent_name name : bytes) : M (result Worktree bytes) :=
  let! p := plan_stack project_id parent_name name in add_planned project_id parent_name name p.

(** * Removing *)

Definition forget_worktree (name : bytes) (e : ProjectEntry) : ProjectEntry :=
  mkProjectEntry (pe_id e) (pe_name e) (pe_url e) (pe_org e) (pe_repo e) (source_path e)
    (filter (fun n => n <> name) (worktree_order e)) (delete name (stacked_parents e)) (base_branch e)
    (collapsed e) (focused e) (category_id e) (env_sync e).

Definition has_children (name : bytes) (children : list bytes) : bytes :=
  str "Cannot remove worktree '" ++ name ++ str "' because it has stacked children: " ++
  join (str ", ") children ++ str ". Remove child worktrees first.".

Definition remove_worktree_impl (project_id name : bytes) : M (result unit bytes) :=
  let! entry := find_project_entry w project_id in
  let! source := existing_source entry in
  let* worktrees := resolve_project_worktrees w entry in
  match direct_stacked_children worktrees (stacked_parents entry) name with
  | (_ :: _) as children => ret (Err (has_children name children))
  | [] =>
      let path := worktree_path_of source name in
      let* _ := emit (Cleanup path) in
      let! _ := run_git w source (worktree_remove path) in
      let* _ := run_git w source (branch_delete name) in
      change_entry w project_id (forget_worktree name)
  end.
End commands.

(** * Metadata *)

Section laws.
Context (w : World).

Lemma change_entry_run id f s :
  (forall l, save_fails w l = None) ->
  change_entry w id f s =
  match update_by_id id f (projects (disk s)) with
  | None => (Err (str "Project not found: " ++ id), s)
  | Some ps => (Ok tt, mkSt (log s ++ [SaveConfig (with_projects (disk s) ps)]) (with_projects (disk s) ps))
  end.
Proof.
  intros Hs. unfold change_entry, bind, load_config. destruct (update_by_id _ _ _); [|done].
  unfold save_config. by rewrite Hs.
Qed.

(** Two changes of one entry. *)
Lemma update_update id f g l l1 :
  (forall e, pe_id (f e) = pe_id e) -> update_by_id id f l = Some l1 ->
  update_by_id id g l1 = update_by_id id (fun e => g (f e)) l.
Proof.
  intros Hf. revert l1. induction l as [|e l IH]; intros l1; [done|]. cbn [update_by_id].
  destruct (bytes_eqb (pe_id e) id) eqn:E.
  - intros [= <-]. cbn [update_by_id]. by rewrite Hf, E.
  - destruct (update_by_id id f l) as [l2|]; [|done]. cbn. intros [= <-]. cbn. rewrite E. by rewrite (IH l2 eq_refl).
Qed.

Lemma update_id id f l l1 :
  (forall e, e ∈ l -> pe_id e = id -> f e = e) -> update_by_id id f l = Some l1 -> l1 = l.
Proof.
  revert l1. induction l as [|e l IH]; intros l1 Hf; [done|]. cbn [update_by_id].
  destruct (bytes_eqb (pe_id e) id) eqn:E.
  - apply bytes_eqb_eq in E. intros [= <-]. f_equal. apply Hf; [apply list_elem_of_here|done].
  - destruct (update_by_id id f l) as [l2|]; [|done]. cbn. intros [= <-]. f_equal. apply IH; [|done].
    intros x Hx. apply Hf. by apply list_elem_of_further.
Qed.

Lemma update_found id f l l1 :
  (forall e, pe_id (f e) = pe_id e) -> update_by_id id f l = Some l1 ->
  exists i e, list_find (fun e => pe_id e = id) l1 = Some (i, f e) /\ e ∈ l /\ pe_id e = id.
Proof.
  intros Hf. revert l1. induction l as [|e l IH]; intros l1; [done|]. cbn [update_by_id].
  destruct (bytes_eqb (pe_id e) id) eqn:E.
  - apply bytes_eqb_eq in E. intros [= <-]. exists 0%nat, e. cbn. rewrite decide_True by by rewrite Hf.
    split_and!; [done|apply list_elem_of_here|done].
  - destruct (update_by_id id f l) as [l2|]; [|done]. cbn. intros [= <-].
    destruct (IH l2 eq_refl) as (i & x & Hi & Hx & Hid). exists (S i), x. cbn.
    rewrite decide_False by (intros Hx'; by rewrite Hx', bytes_eqb_refl in E). rewrite Hi. cbn.
    split_and!; [done|by apply list_elem_of_further|done].
Qed.

Lemma sync_line_disk a b inc l : keeps_disk (sync_file w a b inc l).
Proof.
  unfold sync_file. destruct (ignore_rule l) as [[p rel]|]; [|apply disk_ret].
  destruct (negb _); [apply disk_ret|]. apply disk_bind; [apply disk_ask|intros f]. destruct f; [|apply disk_ret].
  apply disk_try; [destruct (parent _); [apply disk_mkdir|apply disk_ret]|intros _].
  apply disk_bind; [apply disk_ask|intros ok]. apply disk_bind; [apply disk_emit|intros _]. apply disk_ret.
Qed.
Lemma sync_env_disk e a b : keeps_disk (sync_env w e a b).
Proof.
  unfold sync_env. destruct (env_sync e) as [inc|]; [|apply disk_ret]. apply disk_bind; [|intros; apply disk_ret].
  unfold sync_env_files. destruct (bool_decide _); [apply disk_ret|]. apply disk_try; [apply disk_git_output|intros out].
  destruct (bool_decide _); [apply disk_ret|]. apply disk_bind; [apply disk_ask|intros [x|]]; [|apply disk_ret].
  generalize (str_lines (from_utf8_lossy x)). induction l as [|y l IH]; cbn; [apply disk_ret|].
  apply disk_try; [apply sync_line_disk|intros _; exact IH].
Qed.

Lemma cleanup_disk a b c : keeps_disk (cleanup_failed_stacked_worktree_add w a b c).
Proof.
  unfold cleanup_failed_stacked_worktree_add. apply disk_bind; [apply disk_ask|intros []].
  all: apply disk_bind; [try apply disk_git; apply disk_ret|intros _];
    apply disk_bind; [apply disk_git|intros _]; apply disk_ret.
Qed.

Lemma with_projects_twice c a b : with_projects (with_projects c a) b = with_projects c b.
Proof. done. Qed.
Lemma with_projects_same c : with_projects c (projects c) = c.
Proof. by destruct c. Qed.
Lemma with_stacked_parents_id f e : pe_id (with_stacked_parents f e) = pe_id e.
Proof. done. Qed.

(** Saving the parent and rolling it back. *)
Lemma rollback_restores id child par s1 s :
  (forall l, save_fails w l = None) ->
  (forall e, e ∈ projects (disk s) -> pe_id e = id -> stacked_parents e !! child = None) ->
  (exists ps, update_by_id id (with_stacked_parents (<[child := par]>)) (projects (disk s)) = Some ps /\
     disk s1 = with_projects (disk s) ps) ->
  disk (rollback_stacked_parent_metadata w id child par s1).2 = disk s.
Proof.
  intros Hs Hnone (ps & Hps & Hd). unfold rollback_stacked_parent_metadata, bind, load_config. rewrite Hd. cbn [projects with_projects].
  destruct (update_found _ _ _ _ (with_stacked_parents_id _) Hps) as (i & e & -> & He & Hid).
  cbn [stacked_parents with_stacked_parents]. rewrite bool_decide_eq_true_2 by apply lookup_insert_eq. cbn [negb].
  rewrite change_entry_run by done. rewrite Hd. cbn [projects with_projects].
  rewrite (update_update _ _ _ _ _ (with_stacked_parents_id _) Hps).
  destruct (update_by_id id (fun e => _) (projects (disk s))) as [ps'|] eqn:E; cbn [ret disk].
  - assert (ps' = projects (disk s)) as ->; [|rewrite with_projects_twice; apply with_projects_same].
    eapply update_id; [|exact E]. intros x Hx Hxid. unfold with_stacked_parents. destruct x. cbn in *. f_equal.
    by apply delete_insert_id, (Hnone _ Hx).
  - exfalso. revert E Hps. generalize (projects (disk s)). clear. intros l. revert ps.
    induction l as [|x l IH]; intros ps; [done|]. cbn [update_by_id]. destruct (bytes_eqb _ _); [done|].
    destruct (update_by_id _ (fun e => _) l); [done|]. destruct (update_by_id _ (with_stacked_parents _) l) as [l0|]; [|done].
    intros _ _. by apply (IH l0).
Qed.


(** * What is touched *)

(** What the copy may do. *)
Definition chosen_copy (source_dir worktree_dir : bytes) (include : list bytes) (e : event) : Prop :=
  match e with
  | CopyFile src dst => exists pattern rel, pattern ∈ include /\ contains (str "..") rel = false /\
      src = path_join source_dir rel /\ dst = path_join worktree_dir rel
  | CreateDirAll p => exists rel, contains (str "..") rel = false /\ parent (path_join worktree_dir rel) = Some p
  | Git cwd _ => cwd = source_dir
  | _ => False
  end.

Lemma ignore_rule_descends line pattern rel :
  ignore_rule line = Some (pattern, rel) -> contains (str "..") rel = false.
Proof.
  unfold ignore_rule. destruct (split_once TAB line) as [[rule r]|]; [|done]. cbn [mbind option_bind].
  destruct (bool_decide (trim r = [])); [done|]. destruct (contains (str "..") (trim r)) eqn:E; [done|]. cbn.
  by intros [= _ <-].
Qed.

(** Copying chosen files into a new worktree writes no file but one that
    check-ignore named for a chosen pattern, to the same relative path, and that
    path does not go up. *)
Theorem env_sync_copies_chosen_files source_dir worktree_dir include :
  does (chosen_copy source_dir worktree_dir include) (sync_env_files w source_dir worktree_dir include).
Proof.
  unfold sync_env_files. destruct (bool_decide _); [apply does_ret|].
  apply does_try; [by apply does_git_output|intros out]. destruct (bool_decide _); [apply does_ret|].
  apply does_bind; [apply does_ask|intros [x|]]; [|apply does_ret].
  generalize (str_lines (from_utf8_lossy x)). intros ls. induction ls as [|l ls IH]; cbn [sync_lines]; [apply does_ret|].
  apply does_try; [|intros _; exact IH]. unfold sync_file. destruct (ignore_rule l) as [[pattern rel]|] eqn:E; [|apply does_ret].
  apply ignore_rule_descends in E. destruct (bool_decide_reflect (pattern ∈ include)) as [Hin|]; [|apply does_ret]. cbn [negb].
  apply does_bind; [apply does_ask|intros []]; [|apply does_ret]. cbn [negb].
  apply does_try.
  - destruct (parent (path_join worktree_dir rel)) as [d|] eqn:Ed; [|apply does_ret]. apply does_mkdir. by exists rel.
  - intros _. apply does_bind; [apply does_ask|intros ok]. apply does_bind; [|intros _; apply does_ret].
    apply does_emit. by exists pattern, rel.
Qed.

(** A worktree under which others are stacked is not touched. *)
Lemma children_block_removal id name s r s' entry source worktrees s1 s2 s3 :
  find_project_entry w id s = (Ok entry, s1) -> existing_source w entry s1 = (Ok source, s2) ->
  resolve_project_worktrees w entry s2 = (worktrees, s3) ->
  direct_stacked_children worktrees (stacked_parents entry) name <> [] ->
  remove_worktree_impl w id name s = (r, s') ->
  (exists m, r = Err m) /\ s' = s3.
Proof.
  intros H1 H2 H3 Hne. unfold remove_worktree_impl, try_bind, bind. rewrite H1, H2, H3.
  destruct (direct_stacked_children _ _ _); [done|]. intros [= <- <-]. eauto.
Qed.
End laws.

(** * Examples *)

Module StacksExamples.
Import ToyWorld.

Definition entry : ProjectEntry :=
  make_project_entry (str "p") (str "b") (str "https://github.com/a/b") (str "a") (str "b")
    (str "/g/github.com/a/b/source").
Definition wt_path (n : string) : bytes := str "/g/github.com/a/b/worktrees/" ++ str n.

(** Worktrees p and x; x has another branch checked out, so that the name x is
    free among the branches, but its directory is not. *)
Definition printed : list Entry :=
  [mkEntry (wt_path "p") [Branch (str "p")]; mkEntry (wt_path "x") [Branch (str "other")]].
Definition answers (add : option (bool * bytes * bytes)) (args : list bytes) : option (bool * bytes * bytes) :=
  match args with
  | a :: rest =>
      if bytes_eqb a (str "worktree") then
        match rest with
        | b :: _ =>
            if bytes_eqb b (str "list") then Some (true, porcelain printed, [])
            else if bytes_eqb b (str "add") then add else says ""
        | [] => says ""
        end
      else if bytes_eqb a (str "for-each-ref") then Some (true, unlines [str "p"; str "other"], [])
      else if bytes_eqb a (str "rev-parse") then says "abc"
      else says ""
  | [] => says ""
  end.
Definition w (add : option (bool * bytes * bytes)) : World := world (answers add) (fun _ => None) (fun _ => []).
Definition plan : StackPlan := mkStackPlan entry (source_path entry) (wt_path "p") (str "abc") None.


(** Git refuses to make a worktree where one is, and the clean-up after the
    failure removes that one, by force. *)
Example failed_stack_removes_a_worktree :
  let r := add_stacked_worktree_impl (w (fails "fatal: already exists")) (str "p") (str "p") (str "x") (start [entry]) in
  r.1 = Err (str "git worktree failed: fatal: already exists") /\
  worktree_remove (wt_path "x") ∈ commands r.2.
Proof.
  split; [vm_compute; reflexivity|]. eapply bool_decide_eq_true. vm_compute. reflexivity.
Qed.

(** A name whose parent is recorded from before loses it. *)
Example failed_stack_forgets_an_older_parent :
  let old := with_stacked_parents (<[str "y" := str "q"]>) entry in
  (fun e => stacked_parents e !! str "y") <$> projects (disk
    (add_planned (w (fails "fatal: locked")) (str "p") (str "p") (str "y") plan (start [old])).2) = [None].
Proof. vm_compute. reflexivity. Qed.
End StacksExamples.
