(* ===== verification/Loader.v ===== *)
(** Loading the projects of the registry on several threads, and the commands
    that only read (grove-core/src/git_project.rs): the list of the projects, of
    the worktrees of one, its settings, whether its source has changes, and the
    patterns of files to copy that can be offered. *)

From S2P Require Import Prelude Utf8 Text Paths Remotes Worktrees Config World Source Projects Stacks.

#[local] Open Scope world_scope.

(** * Commands *)

Section commands.
Context (w : World) (read_to_string : list event -> bytes -> option bytes).

Definition list_worktrees_impl (project_id : bytes) : M (result (list Worktree) bytes) :=
  let! entry := find_project_entry w project_id in
  let* ws := resolve_project_worktrees w entry in
  ret (Ok ws).

Definition get_env_sync_impl (project_id : bytes) : M (result (option (list bytes)) bytes) :=
  let! entry := find_project_entry w project_id in
  ret (Ok (env_sync entry)).

Definition is_source_dirty_impl (project_id : bytes) : M (result bool bytes) :=
  let! entry := find_project_entry w project_id in
  let! source_dir := managed_source_dir w entry in
  let* there := ask (fun l => path_exists w l source_dir) in
  if negb there then ret (Ok false)
  else let* changes := has_local_source_changes w source_dir in ret (Ok changes).

(** The patterns of a file, when it can be read. *)
Definition patterns_of (path : bytes) (patterns : list bytes) : M (list bytes) :=
  let* content := ask (fun l => read_to_string l path) in
  ret (match content with Some c => collect_gitignore_patterns c patterns | None => patterns end).
Fixpoint nested_patterns (source_dir : bytes) (rel_paths : list bytes) (patterns : list bytes) : M (list bytes) :=
  match rel_paths with
  | [] => ret patterns
  | rel :: rel_paths =>
      let* patterns := patterns_of (path_join source_dir rel) patterns in
      nested_patterns source_dir rel_paths patterns
  end.
Definition ls_gitignores : list bytes := [str "ls-files"; str "--cached"; str "--"; str "*/.gitignore"].
Definition list_gitignore_patterns_impl (project_id : bytes) : M (result (list bytes) bytes) :=
  let! entry := find_project_entry w project_id in
  let! source_dir := managed_source_dir w entry in
  let* patterns := patterns_of (path_join source_dir (str ".gitignore")) [] in
  let! files := run_git_output w source_dir ls_gitignores in
  let* patterns := nested_patterns source_dir (filter (fun l => l <> []) (trim <$> str_lines files)) patterns in
  let! git_dir := run_git_output w source_dir [str "rev-parse"; str "--git-dir"] in
  (* [join] on an absolute path is that path *)
  let* patterns := patterns_of (path_join source_dir (path_join (trim git_dir) (str "info/exclude"))) patterns in
  ret (Ok patterns).
End commands.

(** * The pool *)

Definition MAX_PROJECT_LOAD_WORKERS : Z := 4.
(** [parallelism] is [None] when the system does not say. *)
Definition project_load_worker_count (parallelism : option Z) (project_count : Z) : Z :=
  Z.max (Z.min (Z.min (default 1 parallelism) MAX_PROJECT_LOAD_WORKERS) project_count) 1.

Section pool.
(** What loading an entry can give; it depends on more than the entry. *)
Context {E R : Type} (loads : E -> R -> Prop).

Inductive worker := Idle | Loading (index : nat) (entry : E) | Finished.
Record pool := mkPool {
  queue : list (nat * E);
  workers : list worker;
  results : list (option R)
}.
Definition pool_new (entries : list E) (worker_count : nat) : pool :=
  mkPool (zip (List.seq 0 (length entries)) entries) (replicate worker_count Idle) (replicate (length entries) None).

Inductive pool_step : pool -> pool -> Prop :=
| ps_take p k i e q :
    workers p !! k = Some Idle -> queue p = (i, e) :: q ->
    pool_step p (mkPool q (<[k := Loading i e]> (workers p)) (results p))
| ps_finish p k :
    workers p !! k = Some Idle -> queue p = [] ->
    pool_step p (mkPool [] (<[k := Finished]> (workers p)) (results p))
| ps_store p k i e r :
    workers p !! k = Some (Loading i e) -> loads e r ->
    pool_step p (mkPool (queue p) (<[k := Idle]> (workers p)) (<[i := Some r]> (results p))).

(** [scope] joins all workers; a missing result is a panic. *)
Definition joined (p : pool) : Prop := Forall (eq Finished) (workers p).
Definition collected (p : pool) : option (list R) := mapM id (results p).

(** One entry or none needs no threads. The outer option of the result is a panic. *)
Inductive projects_from_entries (worker_count : nat) (entries : list E) : option (list R) -> Prop :=
| pf_directly rs : (length entries <= 1)%nat -> Forall2 loads entries rs -> projects_from_entries worker_count entries (Some rs)
| pf_threads p :
    (1 < length entries)%nat -> rtc pool_step (pool_new entries worker_count) p -> joined p ->
    projects_from_entries worker_count entries (collected p).

(** * Every entry is loaded, in its place *)

Record pool_inv (entries : list E) (n : nat) (p : pool) : Prop := {
  po_length : length (results p) = length entries;
  po_workers : length (workers p) = n;
  po_queue : forall i e, (i, e) ∈ queue p -> entries !! i = Some e;
  po_loading : forall k i e, workers p !! k = Some (Loading i e) -> entries !! i = Some e;
  po_stored : forall i r, results p !! i = Some (Some r) -> exists e, entries !! i = Some e /\ loads e r;
  po_all : forall i e, entries !! i = Some e ->
    (i, e) ∈ queue p \/ (exists k, workers p !! k = Some (Loading i e)) \/ exists r, results p !! i = Some (Some r);
  po_done : Finished ∈ workers p -> queue p = []
}.

Lemma elem_of_indexed (entries : list E) i e :
  (i, e) ∈ zip (List.seq 0 (length entries)) entries <-> entries !! i = Some e.
Proof.
  rewrite list_elem_of_lookup. setoid_rewrite lookup_zip_with_Some. split.
  - intros (k & j & e' & [= <- <-] & Hj & He). apply lookup_seq in Hj. destruct Hj as [-> _]. done.
  - intros He. exists i, i, e. split_and!; [done| |done]. apply lookup_seq. split; [done|by eapply lookup_lt_Some].
Qed.

Lemma pool_inv_new entries n : pool_inv entries n (pool_new entries n).
Proof.
  split; cbn.
  - by rewrite length_replicate.
  - by rewrite length_replicate.
  - intros i e. apply elem_of_indexed.
  - intros k i e Hk. by apply lookup_replicate in Hk as [? _].
  - intros i r Hi. by apply lookup_replicate in Hi as [? _].
  - intros i e He. left. by apply elem_of_indexed.
  - intros Hf. apply elem_of_replicate in Hf as [? _]. done.
Qed.

Lemma elem_of_inserted {A} (l : list A) k x y : y ∈ <[k := x]> l -> y = x \/ y ∈ l.
Proof.
  intros (j & Hj)%list_elem_of_lookup. apply list_lookup_insert_Some in Hj as [(_ & -> & _)|[_ Hj]]; [by left|right].
  by eapply list_elem_of_lookup_2.
Qed.

Lemma pool_inv_step entries n p p' : pool_inv entries n p -> pool_step p p' -> pool_inv entries n p'.
Proof.
  intros [L W Q Ld St A D] Hs. destruct Hs as [p k i e q Hk Hq|p k Hk Hq|p k i e r Hk Hr]; split; cbn.
  - done.
  - by rewrite length_insert.
  - intros j e' Hj. apply Q. rewrite Hq. by right.
  - intros k' j e' Hk'. apply list_lookup_insert_Some in Hk' as [(<- & [= <- <-] & _)|[_ Hk']]; [|by eapply Ld].
    apply Q. rewrite Hq. by left.
  - done.
  - intros j e' Hj. destruct (A j e' Hj) as [Hin|[[k' Hk']|Hr]]; [|right; left|by right; right].
    + rewrite Hq in Hin. apply elem_of_cons in Hin as [[= -> ->]|Hin]; [right; left|by left].
      exists k. apply list_lookup_insert_eq. by eapply lookup_lt_Some.
    + exists k'. rewrite list_lookup_insert_ne; [done|]. intros <-. congruence.
  - intros Hf. apply elem_of_inserted in Hf as [?|Hf]; [done|]. specialize (D Hf). congruence.
  - done.
  - by rewrite length_insert.
  - intros j e' Hj. by apply not_elem_of_nil in Hj.
  - intros k' j e' Hk'. apply list_lookup_insert_Some in Hk' as [(_ & ? & _)|[_ Hk']]; [done|by eapply Ld].
  - done.
  - intros j e' Hj. destruct (A j e' Hj) as [Hin|[[k' Hk']|Hr]]; [|right; left|by right; right].
    + rewrite Hq in Hin. by apply not_elem_of_nil in Hin.
    + exists k'. rewrite list_lookup_insert_ne; [done|]. intros <-. congruence.
  - done.
  - by rewrite length_insert.
  - by rewrite length_insert.
  - done.
  - intros k' j e' Hk'. apply list_lookup_insert_Some in Hk' as [(_ & ? & _)|[_ Hk']]; [done|by eapply Ld].
  - intros j r' Hj. apply list_lookup_insert_Some in Hj as [(<- & [= <-] & _)|[_ Hj]]; [|by apply St].
    exists e. split; [by eapply Ld|done].
  - intros j e' Hj. destruct (decide (j = i)) as [->|Hne].
    { right. right. exists r. apply list_lookup_insert_eq. rewrite L. by eapply lookup_lt_Some. }
    destruct (A j e' Hj) as [Hin|[[k' Hk']|[r' Hr']]]; [by left|right; left|right; right].
    + exists k'. rewrite list_lookup_insert_ne; [done|]. intros <-. congruence.
    + exists r'. by rewrite list_lookup_insert_ne.
  - intros Hf. apply elem_of_inserted in Hf as [?|Hf]; [done|]. by apply D.
Qed.

Lemma collected_all (entries : list E) (l : list (option R)) :
  length l = length entries ->
  (forall i e, entries !! i = Some e -> exists r, l !! i = Some (Some r) /\ loads e r) ->
  exists rs, mapM id l = Some rs /\ Forall2 loads entries rs.
Proof.
  revert entries. induction l as [|o l IH]; intros [|e entries] Hl Ha; try done; [by exists []|].
  destruct (Ha 0%nat e eq_refl) as (r & [= ->] & Hr). injection Hl as Hl.
  destruct (IH entries Hl) as (rs & Hm & Hf); [intros i e' He; by apply (Ha (S i))|].
  exists (r :: rs). cbn. rewrite Hm. split; [done|by constructor].
Qed.

Lemma pool_joined entries n p :
  (0 < n)%nat -> pool_inv entries n p -> joined p -> exists rs, collected p = Some rs /\ Forall2 loads entries rs.
Proof.
  intros Hn [L W Q Ld St A D] Hj. unfold joined in Hj. rewrite Forall_forall in Hj.
  assert (Hq : queue p = []).
  { apply D. destruct (workers p) as [|x ws] eqn:Ew; [cbn in W; lia|]. rewrite (Hj x); [by left|by left]. }
  apply collected_all; [done|]. intros i e He. destruct (A i e He) as [Hin|[[k Hk]|[r Hr]]].
  - rewrite Hq in Hin. by apply not_elem_of_nil in Hin.
  - specialize (Hj (Loading i e)). assert (Finished = Loading i e) by (apply Hj; by eapply list_elem_of_lookup_2). done.
  - exists r. split; [done|]. destruct (St i r Hr) as (e' & He' & Hl). congruence.
Qed.

(** Every step brings the threads nearer to their end. *)
Definition weight_of (x : worker) : nat := match x with Idle => 1 | Loading _ _ => 2 | Finished => 0 end.
Definition weight (p : pool) : nat := 2 * length (queue p) + sum_list_with weight_of (workers p).

Lemma weight_insert l k x y :
  l !! k = Some x -> (sum_list_with weight_of (<[k := y]> l) + weight_of x = sum_list_with weight_of l + weight_of y)%nat.
Proof.
  revert k. induction l as [|z l IH]; intros [|k] Hk; try done.
  - injection Hk as ->. cbn. lia.
  - change (<[S k := y]> (z :: l)) with (z :: <[k := y]> l). cbn [sum_list_with]. specialize (IH k Hk). lia.
Qed.
Lemma pool_step_lighter p p' : pool_step p p' -> (weight p' < weight p)%nat.
Proof.
  destruct 1 as [p k i e q Hk Hq|p k Hk Hq|p k i e r Hk Hr]; unfold weight; cbn [queue workers].
  - pose proof (weight_insert _ _ _ (Loading i e) Hk) as Hw. cbn [weight_of] in Hw. rewrite Hq. cbn. lia.
  - pose proof (weight_insert _ _ _ Finished Hk) as Hw. cbn [weight_of] in Hw. rewrite Hq. cbn. lia.
  - pose proof (weight_insert _ _ _ Idle Hk) as Hw. cbn [weight_of] in Hw. lia.
Qed.

Lemma pool_goes_on p : (forall e, exists r, loads e r) -> joined p \/ exists p', pool_step p p'.
Proof.
  intros Ht. set (fin := fun x => match x with Finished => true | _ => false end).
  destruct (decide (Forall (fun x => fin x = true) (workers p))) as [Hf|Hf].
  - left. unfold joined. eapply Forall_impl; [exact Hf|]. by intros [].
  - right. apply not_Forall_Exists in Hf; [|apply _]. apply Exists_exists in Hf as (x & (k & Hk)%list_elem_of_lookup & Hx).
    destruct x as [|i e|]; [| |by destruct Hx].
    + destruct (queue p) as [|[i e] q] eqn:Eq; eexists; [by eapply ps_finish|by eapply ps_take].
    + destruct (Ht e) as [r Hr]. eexists. by eapply ps_store.
Qed.

(** C20: loading the projects on threads is loading them one after the other:
    whatever the threads do, when all have ended there is a result for every
    entry, in its place, that is a result of that entry, so that the expected
    result is never missing; and they do end: every step makes the work left
    smaller, and until all have ended some thread can go on. *)
Theorem projects_are_loaded_in_order parallelism entries o :
  let n := Z.to_nat (project_load_worker_count parallelism (zlen entries)) in
  projects_from_entries n entries o ->
  (exists rs, o = Some rs /\ Forall2 loads entries rs) /\
  (forall p p', pool_step p p' -> (weight p' < weight p)%nat) /\
  (forall p, (forall e, exists r, loads e r) -> joined p \/ exists p', pool_step p p').
Proof.
  intros n Ho. assert (Hn : (0 < n)%nat) by (unfold n, project_load_worker_count; lia).
  split_and!; [|exact pool_step_lighter|exact pool_goes_on].
  destruct Ho as [rs _ Hf|p _ Hp Hj]; [by exists rs|]. eapply pool_joined; [exact Hn| |exact Hj].
  eapply rtc_invariant; [exact (pool_inv_step entries n)|apply pool_inv_new|exact Hp].
Qed.
End pool.

(** At most four threads, and no more than there are projects. *)
Lemma worker_count_bounds parallelism count :
  1 <= project_load_worker_count parallelism count <= 4 /\
  (1 <= count -> project_load_worker_count parallelism count <= count).
Proof. unfold project_load_worker_count, MAX_PROJECT_LOAD_WORKERS. lia. Qed.

Section list_projects.
Context (w : World).
(** The registry is reconciled, then its projects are loaded; what loading an
    entry gives is what [project_from_entry] gives at some moment. *)
Inductive list_projects_impl (parallelism : option Z) (s : St) : option (result (list Project) bytes) -> Prop :=
| lp_refused e : (load_reconciled_config w s).1 = Err e -> list_projects_impl parallelism s (Some (Err e))
| lp_loaded c o :
    (load_reconciled_config w s).1 = Ok c ->
    projects_from_entries (fun e r => exists now, (project_from_entry w e now).1 = r)
      (Z.to_nat (project_load_worker_count parallelism (zlen (projects c)))) (projects c) o ->
    list_projects_impl parallelism s (Ok <$> o).
End list_projects.

Module LoaderExamples.
(** Two threads load three entries, the second one being slow. *)
Definition double (e r : Z) : Prop := r = 2 * e.
Definition p1 : pool (E := Z) (R := Z) := mkPool [] [Finished; Finished] [Some 2; Some 4; Some 6].
Lemma p1_reached : rtc (pool_step double) (pool_new [1; 2; 3] 2) p1.
Proof.
  eapply rtc_l; [by eapply (ps_take double _ 0)|]. eapply rtc_l; [by eapply (ps_take double _ 1)|]. cbn.
  eapply rtc_l; [by eapply (ps_store double _ 0 _ _ 2)|]. eapply rtc_l; [by eapply (ps_take double _ 0)|]. cbn.
  eapply rtc_l; [by eapply (ps_store double _ 0 _ _ 6)|]. eapply rtc_l; [by eapply (ps_finish double _ 0)|]. cbn.
  eapply rtc_l; [by eapply (ps_store double _ 1 _ _ 4)|]. eapply rtc_l; [by eapply (ps_finish double _ 1)|]. apply rtc_refl.
Qed.
Lemma projects_are_loaded_in_order_witness :
  exists rs, collected p1 = Some rs /\ Forall2 double [1; 2; 3] rs.
Proof.
  apply (projects_are_loaded_in_order double (Some 2) [1; 2; 3] (collected p1)).
  apply pf_threads; [vm_compute; lia|exact p1_reached|]. repeat constructor.
Defined.
End LoaderExamples.
