(* ===== verification/Missions.v ===== *)
(** Missions (grove-core/src/mission.rs, worktree_lifecycle.rs, note.rs): sets of
    worktrees, one per project, under one directory. The store is a file that is
    replaced by a rename; the operations that change it hold one lock, reading it
    does not. *)

From S2P Require Import Prelude Utf8 Text Paths Json Protocol Remotes Config World Source Projects Stacks.

#[local] Open Scope rust_scope.
#[local] Open Scope world_scope.

(** * Data *)

Record MissionProject := mkMissionProject { mp_project_id : bytes; mp_branch : bytes; mp_path : bytes }.
Record Mission := mkMission {
  mi_id : bytes;
  mi_name : bytes;
  mi_branch_name : option bytes;
  mi_projects : list MissionProject;
  mission_dir : bytes;
  mi_collapsed : bool
}.
Record PersistedMission := mkPersistedMission {
  ps_id : bytes;
  ps_name : bytes;
  ps_branch_name : option bytes;
  ps_projects : list MissionProject;
  ps_collapsed : bool
}.
Abbreviation MissionStore := (list Mission).
Abbreviation PersistedMissionStore := (list PersistedMission).

#[export] Instance MissionProject_eq_dec : EqDecision MissionProject.
Proof. solve_decision. Defined.
#[export] Instance Mission_eq_dec : EqDecision Mission.
Proof. solve_decision. Defined.
#[export] Instance PersistedMission_eq_dec : EqDecision PersistedMission.
Proof. solve_decision. Defined.

Definition of_persisted (p : PersistedMission) : Mission :=
  mkMission (ps_id p) (ps_name p) (ps_branch_name p) (ps_projects p) [] (ps_collapsed p).
Definition to_persisted (m : Mission) : PersistedMission :=
  mkPersistedMission (mi_id m) (mi_name m) (mi_branch_name m) (mi_projects m) (mi_collapsed m).

(** ** As JSON *)

Definition mission_project_value (p : MissionProject) : Value :=
  object [(str "projectId", Str (mp_project_id p)); (str "branch", Str (mp_branch p)); (str "path", Str (mp_path p))].
Definition mission_project_of (v : Value) : option MissionProject :=
  i ← get "projectId" v ≫= as_str;
  b ← get "branch" v ≫= as_str;
  p ← get "path" v ≫= as_str;
  Some (mkMissionProject i b p).

(** A list of values that all parse, and a field that may be absent. *)
Definition list_of {A} (p : Value -> option A) (v : Value) : option (list A) := as_array v ≫= mapM p.
Definition default_field {A} (k : string) (d : A) (p : Value -> option A) (v : Value) : option A :=
  match get k v with None => Some d | Some x => p x end.

Definition persisted_mission_value (m : PersistedMission) : Value :=
  object ([(str "id", Str (ps_id m)); (str "name", Str (ps_name m))] ++
    some_field "branchName" (Str <$> ps_branch_name m) ++
    [(str "projects", Arr (mission_project_value <$> ps_projects m))] ++
    (if ps_collapsed m then [(str "collapsed", Bool true)] else [])).
Definition persisted_mission_of (v : Value) : option PersistedMission :=
  i ← get "id" v ≫= as_str;
  n ← get "name" v ≫= as_str;
  b ← opt_field "branchName" as_str v;
  ps ← default_field "projects" [] (list_of mission_project_of) v;
  c ← default_field "collapsed" false as_bool v;
  Some (mkPersistedMission i n b ps c).

Definition persisted_store_value (s : PersistedMissionStore) : Value :=
  object [(str "missions", Arr (persisted_mission_value <$> s))].
Definition persisted_store_of (v : Value) : option PersistedMissionStore :=
  default_field "missions" [] (list_of persisted_mission_of) v.

(** ** The file *)

(** What [load_json_file_or_default] finds. *)
Inductive MissionFile :=
| Absent
| Unreadable                              (* not read, not text, or not a store *)
| Holds (s : PersistedMissionStore).

Definition load_missions_from_path (f : MissionFile) : MissionStore :=
  match f with
  | Absent | Unreadable => []
  | Holds s => of_persisted <$> s
  end.

(** * State *)

Record MSt := mkMSt { ms_file : MissionFile; ms_world : St }.
Definition MM : Type -> Type := State MSt.

Definition in_world {A} (m : M A) : MM A := fun s =>
  let '(a, w) := m (ms_world s) in (a, mkMSt (ms_file s) w).
Definition load_store : MM MissionStore := fun s => (load_missions_from_path (ms_file s), s).
Definition put_file (f : MissionFile) : MM unit := fun s => (tt, mkMSt f (ms_world s)).

(** What [World] does not answer: renaming, removing a directory, the entries of
    a directory, the lock, and the random number of the n-th draw. *)
Record MissionWorld := mkMissionWorld {
  mw : World;
  rename_ok : list event -> bytes -> bytes -> bool;
  remove_dir_ok : list event -> bytes -> bool;
  read_dir : list event -> bytes -> list bytes;
  lock_ok : list event -> bool;
  random_u32 : list event -> nat -> Z;
  to_string_pretty : Value -> bytes;
  store_path : bytes;
  missions_dir : bytes
}.

(** [WorktreeLifecycle]: what is told of a removed worktree. Failures are only
    printed. *)
Definition WorktreeLifecycle : Type := list (bytes -> M (result unit bytes)).
Fixpoint cleanup (lc : WorktreeLifecycle) (worktree_path : bytes) : M unit :=
  match lc with
  | [] => ret tt
  | r :: lc => let* _ := r worktree_path in cleanup lc worktree_path
  end.

Definition default_mission_branch_name (mission_id : bytes) : bytes := str "mission/" ++ mission_id.

Definition normalize_branch_name (branch_name : option bytes) : result (option bytes) bytes :=
  match trim <$> branch_name with
  | None | Some [] => Ok None
  | Some name => let? _ := validate_branch_name name in Ok (Some name)
  end.

(** ["{:08x}"] of a [u32]. *)
Definition hex8 (n : Z) : bytes :=
  (fun k => hex_lower_digit (Z.land (Z.shiftr n (4 * k)) 15)) <$> [7; 6; 5; 4; 3; 2; 1; 0].

(** The first mission with the id, changed in place. *)
Fixpoint update_mission (id : bytes) (f : Mission -> Mission) (s : MissionStore) : MissionStore :=
  match s with
  | [] => []
  | m :: s => if bytes_eqb (mi_id m) id then f m :: s else m :: update_mission id f s
  end.
Definition find_mission (id : bytes) (s : MissionStore) : option Mission :=
  snd <$> list_find (fun m => mi_id m = id) s.
Definition with_mission_projects (f : list MissionProject -> list MissionProject) (m : Mission) : Mission :=
  mkMission (mi_id m) (mi_name m) (mi_branch_name m) (f (mi_projects m)) (mission_dir m) (mi_collapsed m).
Definition with_mission_collapsed (c : bool) (m : Mission) : Mission :=
  mkMission (mi_id m) (mi_name m) (mi_branch_name m) (mi_projects m) (mission_dir m) c.
Definition with_mission_dir (d : bytes) (m : Mission) : Mission :=
  mkMission (mi_id m) (mi_name m) (mi_branch_name m) (mi_projects m) d (mi_collapsed m).

Definition mission_not_found (id : bytes) : bytes := str "Mission not found: " ++ id.

Section missions.
Context (W : MissionWorld) (lifecycle : WorktreeLifecycle).

Definition ask_world {A} (f : list event -> A) : MM A := in_world (ask f).
Definition tell (e : event) : MM unit := in_world (emit e).

(** ** Saving *)

Definition save_missions_atomic (p : PersistedMissionStore) : MM (result unit bytes) :=
  let! _ := in_world (match parent (store_path W) with
                      | Some d => create_dir_all (mw W) d
                      | None => ret (Ok tt)
                      end) in
  let tmp_path := with_extension (store_path W) (str "json.tmp") in
  let* written := ask_world (fun l => write_ok (mw W) l tmp_path) in
  let* _ := tell (WriteFile tmp_path (to_string_pretty W (persisted_store_value p))) in
  if negb written then ret (Err (str "Failed to write " ++ tmp_path))
  else
    let* renamed := ask_world (fun l => rename_ok W l tmp_path (store_path W)) in
    let* _ := tell (Rename tmp_path (store_path W)) in
    if (renamed : bool) then let* _ := put_file (Holds p) in ret (Ok tt)
    else let* _ := tell (RemoveFile tmp_path) in ret (Err (str "Failed to persist " ++ store_path W)).

Definition save_missions_to_path (s : MissionStore) : MM (result unit bytes) :=
  save_missions_atomic (to_persisted <$> s).

Definition lock_mission_store_writes : MM (result unit bytes) :=
  let* ok := ask_world (lock_ok W) in
  ret (if (ok : bool) then Ok tt else Err (str "Mission store write lock poisoned")).

(** ** Loading *)

Definition registered (ids : gset bytes) (p : MissionProject) : bool := bool_decide (mp_project_id p ∈ ids).
Definition retain_registered (ids : gset bytes) : list MissionProject -> list MissionProject :=
  filter (fun p => registered ids p = true).

Definition drops_project (ids : gset bytes) (m : Mission) : bool :=
  negb (Nat.eqb (length (retain_registered ids (mi_projects m))) (length (mi_projects m))).

(** The directories are removed in the order of [read_dir]. *)
Fixpoint remove_unknown (known : list bytes) (names : list bytes) : MM unit :=
  match names with
  | [] => ret tt
  | n :: names =>
      let* _ := (if bool_decide (from_utf8_lossy n ∈ known) then ret tt else tell (RemoveDirAll (path_join (missions_dir W) n))) in
      remove_unknown known names
  end.

Definition reconcile_missions (ids : gset bytes) (store : MissionStore) : MM (MissionStore * bool) :=
  let store' := with_mission_projects (retain_registered ids) <$> store in
  let changed := existsb (drops_project ids) store in
  let* there := ask_world (fun l => path_exists (mw W) l (missions_dir W)) in
  let* _ := (if (there : bool) then
               let* names := ask_world (fun l => read_dir W l (missions_dir W)) in
               remove_unknown (mi_id <$> store') names
             else ret tt) in
  ret (store', changed).

Definition set_dirs (store : MissionStore) : MissionStore :=
  (fun m => with_mission_dir (path_join (missions_dir W) (mi_id m)) m) <$> store.

(** What follows the first read of the file, which is not under the lock. *)
Definition load_missions_read (ids : gset bytes) (read : MissionStore) : MM MissionStore :=
  let* (store, changed) := reconcile_missions ids read in
  let* store :=
    (if (changed : bool) then
       let* guard := lock_mission_store_writes in
       match guard with
       | Err _ => ret store
       | Ok _ =>
           let* fresh := load_store in
           let* (fresh, changed) := reconcile_missions ids fresh in
           let* _ := (if (changed : bool) then save_missions_to_path fresh else ret (Ok tt)) in
           ret fresh
       end
     else ret store) in
  ret (set_dirs store).

Definition project_ids : MM (gset bytes) :=
  let* config := in_world load_config in ret (list_to_set (pe_id <$> projects config)).

Definition load_missions : MM MissionStore :=
  let* ids := project_ids in
  let* store := load_store in
  load_missions_read ids store.

(** ** Creating *)

(** One turn of the loop over random ids, at the n-th draw. *)
Definition try_candidate (store : MissionStore) (l : list event) (n : nat) : nat + bytes :=
  let candidate := hex8 (random_u32 W l n) in
  if existsb (fun m => bytes_eqb (mi_id m) candidate) store ||
     path_exists (mw W) l (path_join (missions_dir W) candidate)
  then inl (S n) else inr candidate.

(** [None] is a loop that has not ended within the fuel. *)
Definition create_mission_with_paths (fuel : nat) (name : bytes) (branch_name : option bytes) :
    MM (option (result Mission bytes)) :=
  let* store := load_store in
  match normalize_branch_name branch_name with
  | Err e => ret (Some (Err e))
  | Ok branch_name =>
      let* id := ask_world (fun l => loop (try_candidate store l) fuel 0%nat) in
      match id with
      | None => ret None
      | Some id =>
          let dir := path_join (missions_dir W) id in
          let* r :=
            (let! _ := in_world (create_dir_all (mw W) dir) in
             let mission := mkMission id name branch_name [] dir false in
             let! _ := save_missions_to_path (store ++ [mission]) in
             ret (Ok mission)) in
          ret (Some r)
      end
  end.

Definition create_mission (fuel : nat) (name : bytes) (branch_name : option bytes) :
    MM (option (result Mission bytes)) :=
  let* guard := lock_mission_store_writes in
  match guard with
  | Err e => ret (Some (Err e))
  | Ok _ => create_mission_with_paths fuel name branch_name
  end.

(** ** Adding a project *)

Definition show_ref (r : bytes) : list bytes := [str "show-ref"; str "--verify"; r].
Definition branch_already_exists (source branch_name : bytes) : MM bool :=
  let* local := in_world (run_git_output (mw W) source (show_ref (str "refs/heads/" ++ branch_name))) in
  match local with
  | Ok _ => ret true
  | Err _ =>
      let* remote := in_world (run_git_output (mw W) source (show_ref (str "refs/remotes/origin/" ++ branch_name))) in
      ret (is_ok remote)
  end.

Definition reject_existing_custom_branch (source branch_name : bytes) : MM (result unit bytes) :=
  let* there := branch_already_exists source branch_name in
  ret (if (there : bool) then Err (str "Branch already exists: " ++ branch_name) else Ok tt).

Definition add_new_branch (branch_name path : bytes) : list bytes :=
  [str "worktree"; str "add"; str "-b"; branch_name; path].
Definition add_branch (branch_name path : bytes) : list bytes := [str "worktree"; str "add"; path; branch_name].

Definition make_mission_worktree (custom : bool) (source branch_name path : bytes) : MM (result unit bytes) :=
  if custom then
    let! _ := reject_existing_custom_branch source branch_name in
    in_world (run_git (mw W) source (add_new_branch branch_name path))
  else
    let* there := in_world (run_git_output (mw W) source [str "rev-parse"; str "--verify"; branch_name]) in
    in_world (run_git (mw W) source
      (if is_ok there then add_branch branch_name path else add_new_branch branch_name path)).

Definition add_project_to_mission_with_paths (mission_id project_id source repo_name : bytes) :
    MM (result MissionProject bytes) :=
  let* store := load_store in
  match find_mission mission_id store with
  | None => ret (Err (mission_not_found mission_id))
  | Some mission =>
      if existsb (fun p => bytes_eqb (mp_project_id p) project_id) (mi_projects mission)
      then ret (Err (str "Project already in mission"))
      else
        let branch_name := default (default_mission_branch_name mission_id) (mi_branch_name mission) in
        let path := path_join (path_join (missions_dir W) mission_id) repo_name in
        let* there := ask_world (fun l => path_exists (mw W) l source) in
        if negb there then ret (Err (str "Source directory not found: " ++ source))
        else
          let! _ := in_world (match parent path with
                              | Some d => create_dir_all (mw W) d
                              | None => ret (Ok tt)
                              end) in
          let! _ := make_mission_worktree (bool_decide (is_Some (mi_branch_name mission))) source branch_name path in
          let project := mkMissionProject project_id branch_name path in
          let! _ := save_missions_to_path
            (update_mission mission_id (with_mission_projects (fun ps => ps ++ [project])) store) in
          ret (Ok project)
  end.

Definition find_project_entry_by_id (project_id : bytes) : MM (result ProjectEntry bytes) :=
  let* config := in_world load_config in ret (find_by_id project_id (projects config)).

Definition add_project_to_mission (mission_id project_id : bytes) : MM (result MissionProject bytes) :=
  let! _ := lock_mission_store_writes in
  let! entry := find_project_entry_by_id project_id in
  let! project := add_project_to_mission_with_paths mission_id project_id (source_path entry) (pe_repo entry) in
  let* _ := in_world (sync_env (mw W) entry (source_path entry) (mp_path project)) in
  ret (Ok project).

(** ** Removing *)

Definition remove_if_there (p : bytes) : MM unit :=
  let* there := ask_world (fun l => path_exists (mw W) l p) in
  if (there : bool) then tell (RemoveDirAll p) else ret tt.

Definition remove_mission_worktree (source_path worktree_path branch : bytes) : MM unit :=
  let* there := ask_world (fun l => path_exists (mw W) l source_path) in
  let* _ := (if (there : bool) then
               let* _ := in_world (run_git (mw W) source_path (worktree_remove worktree_path)) in
               let* _ := in_world (run_git (mw W) source_path (branch_delete branch)) in
               ret tt
             else ret tt) in
  remove_if_there worktree_path.

Definition without_project (project_id : bytes) : list MissionProject -> list MissionProject :=
  filter (fun p => mp_project_id p <> project_id).

Definition remove_project_from_mission_with_paths (mission_id project_id : bytes) : MM (result unit bytes) :=
  let* store := load_store in
  match find_mission mission_id store with
  | None => ret (Err (mission_not_found mission_id))
  | Some mission =>
      match list_find (fun p => mp_project_id p = project_id) (mi_projects mission) with
      | None => ret (Err (str "Project not in mission: " ++ project_id))
      | Some (_, project) =>
          let* _ := in_world (cleanup lifecycle (mp_path project)) in
          let* entry := find_project_entry_by_id project_id in
          let* _ := (match entry with
                     | Ok e => remove_mission_worktree (source_path e) (mp_path project) (mp_branch project)
                     | Err _ => remove_if_there (mp_path project)
                     end) in
          save_missions_to_path (update_mission mission_id (with_mission_projects (without_project project_id)) store)
      end
  end.

Definition remove_project_from_mission (mission_id project_id : bytes) : MM (result unit bytes) :=
  let! _ := lock_mission_store_writes in remove_project_from_mission_with_paths mission_id project_id.

Definition set_mission_collapsed (id : bytes) (collapsed : bool) : MM (result unit bytes) :=
  let! _ := lock_mission_store_writes in
  let* store := load_store in
  match find_mission id store with
  | None => ret (Err (mission_not_found id))
  | Some _ => save_missions_to_path (update_mission id (with_mission_collapsed collapsed) store)
  end.

Fixpoint remove_projects (mission_id : bytes) (ids : list bytes) : MM (result unit bytes) :=
  match ids with
  | [] => ret (Ok tt)
  | i :: ids => let! _ := remove_project_from_mission_with_paths mission_id i in remove_projects mission_id ids
  end.

Definition delete_mission_with_lifecycle (id : bytes) : MM (result unit bytes) :=
  let* store := load_store in
  match find_mission id store with
  | None => ret (Err (mission_not_found id))
  | Some mission =>
      let! _ := remove_projects id (mp_project_id <$> mi_projects mission) in
      let dir := path_join (missions_dir W) id in
      let* _ := in_world (cleanup lifecycle dir) in
      let* there := ask_world (fun l => path_exists (mw W) l dir) in
      let! _ := (if (there : bool) then
                   let* ok := ask_world (fun l => remove_dir_ok W l dir) in
                   let* _ := tell (RemoveDirAll dir) in
                   ret (if (ok : bool) then Ok tt else Err (str "Failed to remove mission directory"))
                 else ret (Ok tt)) in
      let* store := load_store in
      save_missions_to_path (filter (fun m => mi_id m <> id) store)
  end.

Definition delete_mission (id : bytes) : MM (result unit bytes) :=
  let! _ := lock_mission_store_writes in delete_mission_with_lifecycle id.
End missions.

(** * The file, through the commands *)

Definition cur (s : MSt) : MissionStore := load_missions_from_path (ms_file s).
Definition clear_dirs (s : MissionStore) : MissionStore := with_mission_dir [] <$> s.

(** Commands that leave the file alone. *)
Definition keeps_file {A} (m : MM A) : Prop := forall s, ms_file (m s).2 = ms_file s.

Lemma file_ret {A} (a : A) : keeps_file (ret a).
Proof. done. Qed.
Lemma file_in_world {A} (m : M A) : keeps_file (in_world m).
Proof. intros s. unfold in_world. by destruct (m (ms_world s)). Qed.
Lemma file_load : keeps_file load_store.
Proof. done. Qed.
Lemma file_bind {A B} (m : MM A) (k : A -> MM B) : keeps_file m -> (forall a, keeps_file (k a)) -> keeps_file (bind m k).
Proof. intros Hm Hk s. unfold bind. specialize (Hm s). destruct (m s) as [a s']. by rewrite Hk. Qed.
Lemma file_try {A B} (m : MM (result A bytes)) (k : A -> MM (result B bytes)) :
  keeps_file m -> (forall a, keeps_file (k a)) -> keeps_file (try_bind m k).
Proof. intros Hm Hk s. unfold try_bind. specialize (Hm s). destruct (m s) as [[a|e] s']; [by rewrite Hk|done]. Qed.
Lemma file_ask {A} (f : list event -> A) : keeps_file (ask_world f).
Proof. apply file_in_world. Qed.
Lemma file_tell e : keeps_file (tell e).
Proof. apply file_in_world. Qed.

Create HintDb missions discriminated.
#[export] Hint Resolve file_ret file_in_world file_load file_ask file_tell : missions.

(** Everything that is not a save. *)
Ltac keeps :=
  intros;
  repeat first
    [ solve [auto with missions]
    | apply file_try; [|intros ?]
    | apply file_bind; [|intros ?]
    | case_match ].

Section files.
Context (W : MissionWorld) (lifecycle : WorktreeLifecycle).

Lemma file_lock : keeps_file (lock_mission_store_writes W).
Proof. unfold lock_mission_store_writes. keeps. Qed.
Lemma file_unknown known names : keeps_file (remove_unknown W known names).
Proof. induction names as [|n names IH]; cbn [remove_unknown]; [apply file_ret|]. keeps. Qed.
Lemma file_reconcile ids store : keeps_file (reconcile_missions W ids store).
Proof. unfold reconcile_missions. keeps. apply file_unknown. Qed.
Lemma file_worktree custom source b p : keeps_file (make_mission_worktree W custom source b p).
Proof. unfold make_mission_worktree, reject_existing_custom_branch, branch_already_exists. keeps. Qed.
Lemma file_entry i : keeps_file (find_project_entry_by_id i).
Proof. unfold find_project_entry_by_id. keeps. Qed.
Lemma file_remove_worktree s p b : keeps_file (remove_mission_worktree W s p b).
Proof. unfold remove_mission_worktree, remove_if_there. keeps. Qed.
Lemma file_if_there p : keeps_file (remove_if_there W p).
Proof. unfold remove_if_there. keeps. Qed.

(** A save replaces the file or leaves it. *)
Lemma save_cases store s r s' :
  save_missions_to_path W store s = (r, s') ->
  match r with Ok _ => cur s' = clear_dirs store | Err _ => ms_file s' = ms_file s end.
Proof.
  unfold save_missions_to_path, save_missions_atomic, try_bind. intros E.
  match type of E with context [in_world ?m s] =>
    pose proof (file_in_world m s) as Hf; destruct (in_world m s) as [[u|e] s1] end; cbn in Hf; [|by injection E as <- <-].
  unfold bind, ask_world, tell, in_world, ask, emit, put_file in E. cbn [ms_file ms_world] in E.
  destruct (write_ok (mw W) _ _); cbn in E; [|by injection E as <- <-].
  destruct (rename_ok W _ _ _); cbn in E; injection E as <- <-; [|done].
  unfold cur, clear_dirs. cbn. rewrite <- list_fmap_compose. done.
Qed.
End files.
#[export] Hint Resolve file_lock file_unknown file_reconcile file_worktree file_entry file_remove_worktree file_if_there : missions.

(** ** What a command may do to the store *)

Section evolution.
(** [R]: what is allowed to become of the store. *)
Context (R : MissionStore -> MissionStore -> Prop) (R_refl : forall a, R a a)
  (R_trans : forall a b c, R a b -> R b c -> R a c).

Definition evolves_from {A} (c : MissionStore) (m : MM A) : Prop := forall s, cur s = c -> R c (cur (m s).2).
Definition evolves {A} (m : MM A) : Prop := forall s, R (cur s) (cur (m s).2).

Lemma file_cur {A} (m : MM A) s : keeps_file m -> cur (m s).2 = cur s.
Proof. intros Hm. unfold cur. by rewrite Hm. Qed.
Lemma from_keep {A} c (m : MM A) : keeps_file m -> evolves_from c m.
Proof. intros Hm s <-. rewrite (file_cur m s Hm). apply R_refl. Qed.
Lemma from_all {A} (m : MM A) : (forall c, evolves_from c m) -> evolves m.
Proof. intros H s. by apply H. Qed.
Lemma from_load {A} c (k : MissionStore -> MM A) : evolves_from c (k c) -> evolves_from c (bind load_store k).
Proof. intros Hk s <-. by apply Hk. Qed.
Lemma from_bind {A B} c (m : MM A) (k : A -> MM B) :
  keeps_file m -> (forall a, evolves_from c (k a)) -> evolves_from c (bind m k).
Proof.
  intros Hm Hk s <-. unfold bind. specialize (Hm s). destruct (m s) as [a s'] eqn:E. cbn in Hm.
  apply Hk. unfold cur. by rewrite Hm.
Qed.
(** The same, with what is known of the answer. *)
Lemma from_bind_post {A B} (P : A -> Prop) c (m : MM A) (k : A -> MM B) :
  keeps_file m -> (forall s, P (m s).1) -> (forall a, P a -> evolves_from c (k a)) -> evolves_from c (bind m k).
Proof.
  intros Hm HP Hk s <-. unfold bind. specialize (Hm s). specialize (HP s).
  destruct (m s) as [a s'] eqn:E. cbn in Hm, HP. apply (Hk a HP). unfold cur. by rewrite Hm.
Qed.
Lemma from_try {A B} c (m : MM (result A bytes)) (k : A -> MM (result B bytes)) :
  keeps_file m -> (forall a, evolves_from c (k a)) -> evolves_from c (try_bind m k).
Proof.
  intros Hm Hk s <-. unfold try_bind. specialize (Hm s). destruct (m s) as [[a|e] s'] eqn:E; cbn in Hm.
  - apply Hk. unfold cur. by rewrite Hm.
  - cbn. assert (cur s' = cur s) as -> by (unfold cur; by rewrite Hm). apply R_refl.
Qed.
Lemma from_save W c store : R c (clear_dirs store) -> evolves_from c (save_missions_to_path W store).
Proof.
  intros HR s <-. destruct (save_missions_to_path W store s) as [r s'] eqn:E. apply save_cases in E. cbn.
  destruct r; [by rewrite E|]. assert (cur s' = cur s) as -> by (unfold cur; by rewrite E). apply R_refl.
Qed.
Lemma from_last {A B} c (m : MM A) (k : A -> MM B) :
  evolves_from c m -> (forall a, keeps_file (k a)) -> evolves_from c (bind m k).
Proof.
  intros Hm Hk s Hs. specialize (Hm s Hs). unfold bind. destruct (m s) as [a s']. by rewrite (file_cur (k a) s').
Qed.
Lemma from_last_try {A B} c (m : MM (result A bytes)) (k : A -> MM (result B bytes)) :
  evolves_from c m -> (forall a, keeps_file (k a)) -> evolves_from c (try_bind m k).
Proof.
  intros Hm Hk s Hs. specialize (Hm s Hs). unfold try_bind. destruct (m s) as [[a|e] s']; [|exact Hm].
  by rewrite (file_cur (k a) s').
Qed.
Lemma evolves_try {A B} (m : MM (result A bytes)) (k : A -> MM (result B bytes)) :
  evolves m -> (forall a, evolves (k a)) -> evolves (try_bind m k).
Proof.
  intros Hm Hk s. specialize (Hm s). unfold try_bind. destruct (m s) as [[a|e] s']; [|done].
  eapply R_trans; [exact Hm|apply Hk].
Qed.
Lemma evolves_bind {A B} (m : MM A) (k : A -> MM B) : evolves m -> (forall a, evolves (k a)) -> evolves (bind m k).
Proof. intros Hm Hk s. specialize (Hm s). unfold bind. destruct (m s) as [a s']. eapply R_trans; [exact Hm|apply Hk]. Qed.
Lemma evolves_keep {A} (m : MM A) : keeps_file m -> evolves m.
Proof. intros Hm. apply from_all. intros c. by apply from_keep. Qed.
End evolution.

(** * What keeps a store well-formed, and its projects in it *)

Section safety.
Context (W : MissionWorld) (lifecycle : WorktreeLifecycle).

Definition worktree_of (m : Mission) (p : MissionProject) : Prop :=
  mp_branch p = default (default_mission_branch_name (mi_id m)) (mi_branch_name m) /\
  exists repo, mp_path p = path_join (path_join (missions_dir W) (mi_id m)) repo.

Definition mission_ok (m : Mission) : Prop :=
  NoDup (mp_project_id <$> mi_projects m) /\ Forall (worktree_of m) (mi_projects m) /\
  (forall b, mi_branch_name m = Some b -> b <> [] /\ trim b = b /\ validate_branch_name b = Ok tt).

Definition store_ok (s : MissionStore) : Prop := NoDup (mi_id <$> s) /\ Forall mission_ok s.
Definition in_store (s : MissionStore) (id : bytes) (p : MissionProject) : Prop :=
  exists m, m ∈ s /\ mi_id m = id /\ p ∈ mi_projects m.

Definition safe (lost : bytes -> MissionProject -> Prop) (a b : MissionStore) : Prop :=
  store_ok a -> store_ok b /\ forall id p, in_store a id p -> lost id p \/ in_store b id p.

Lemma safe_refl lost a : safe lost a a.
Proof. intros Ha. split; [done|]. auto. Qed.
Lemma safe_trans lost a b c : safe lost a b -> safe lost b c -> safe lost a c.
Proof.
  intros Hab Hbc Ha. destruct (Hab Ha) as [Hb H1], (Hbc Hb) as [Hc H2]. split; [done|].
  intros id p Hp. destruct (H1 id p Hp) as [|Hp']; [by left|auto].
Qed.

(** ** Changes of a store *)

Lemma elem_of_clear m s : m ∈ clear_dirs s <-> exists m', m = with_mission_dir [] m' /\ m' ∈ s.
Proof. apply list_elem_of_fmap. Qed.

(** Each mission becomes what [f] makes of it. *)
Lemma map_safe lost f s :
  (forall m, m ∈ s -> mi_id (f m) = mi_id m /\ (mission_ok m -> mission_ok (f m)) /\
    forall p, p ∈ mi_projects m -> lost (mi_id m) p \/ p ∈ mi_projects (f m)) ->
  safe lost s (f <$> s).
Proof.
  intros Hf [Hnd Hall]. split; [split|].
  - assert (mi_id <$> (f <$> s) = mi_id <$> s) as ->; [|done].
    rewrite <- list_fmap_compose. apply list_fmap_ext. intros i m Hm.
    apply (Hf m). by eapply list_elem_of_lookup_2.
  - apply Forall_fmap, Forall_forall. intros m Hm. cbn. apply (Hf m Hm).
    rewrite Forall_forall in Hall. auto.
  - intros id p (m & Hm & <- & Hp). destruct (Hf m Hm) as (Hid & _ & Hk). destruct (Hk p Hp) as [|Hp']; [by left|].
    right. exists (f m). split; [|done]. apply list_elem_of_fmap. eauto.
Qed.

Lemma clear_safe lost s : safe lost s (clear_dirs s).
Proof. apply map_safe. intros m _. split; [done|]. split; [by destruct m|by right]. Qed.

Lemma update_is_map id f s :
  NoDup (mi_id <$> s) -> update_mission id f s = (fun m => if bytes_eqb (mi_id m) id then f m else m) <$> s.
Proof.
  induction s as [|m s IH]; [done|]. cbn [update_mission]. rewrite !fmap_cons.
  intros [Hm Hs]%NoDup_cons. destruct (bytes_eqb (mi_id m) id) eqn:E; f_equal; [|by apply IH].
  apply bytes_eqb_eq in E. rewrite <- (list_fmap_id s) at 1. apply list_fmap_ext. intros i m' Hm'.
  rewrite bytes_eqb_ne; [done|]. intros E'. apply Hm. rewrite E, <- E'. apply list_elem_of_fmap.
  exists m'. split; [done|]. by eapply list_elem_of_lookup_2.
Qed.

Lemma find_mission_unique id s m :
  NoDup (mi_id <$> s) -> m ∈ s -> mi_id m = id -> find_mission id s = Some m.
Proof.
  intros Hnd Hm Hid. unfold find_mission. induction s as [|x s IH]; [by apply not_elem_of_nil in Hm|].
  rewrite fmap_cons in Hnd. apply NoDup_cons in Hnd as [Hx Hs]. cbn [list_find].
  destruct (decide (mi_id x = id)) as [Ex|Ex].
  - apply elem_of_cons in Hm as [->|Hm]; [done|]. destruct Hx. rewrite Ex, <- Hid. apply list_elem_of_fmap. eauto.
  - apply elem_of_cons in Hm as [->|Hm]; [done|]. specialize (IH Hs Hm).
    by destruct (list_find _ s) as [[i y]|].
Qed.

Lemma update_safe lost id f s :
  (forall m, find_mission id s = Some m -> mi_id (f m) = id /\ (mission_ok m -> mission_ok (f m)) /\
    forall p, p ∈ mi_projects m -> lost id p \/ p ∈ mi_projects (f m)) ->
  safe lost s (clear_dirs (update_mission id f s)).
Proof.
  intros Hf Ha. enough (H : safe lost s (update_mission id f s)) by exact (safe_trans _ _ _ _ H (clear_safe _ _) Ha).
  rewrite update_is_map by apply Ha. apply map_safe. intros m Hm. destruct (bytes_eqb (mi_id m) id) eqn:E; [|auto].
  apply bytes_eqb_eq in E. subst id. apply Hf, find_mission_unique; [apply Ha|done..].
Qed.

(** ** The commands *)

Abbreviation from lost := (evolves_from (safe lost)).
Abbreviation evolve lost := (evolves (safe lost)).

Lemma reconcile_value ids store s :
  (reconcile_missions W ids store s).1 =
    (with_mission_projects (retain_registered ids) <$> store, existsb (drops_project ids) store).
Proof.
  unfold reconcile_missions, bind, ret. destruct (ask_world _ s) as [b s1].
  match goal with |- context [let '(_, _) := ?x in _] => by destruct x end.
Qed.

Lemma retain_safe ids s :
  safe (fun _ p => mp_project_id p ∉ ids) s (with_mission_projects (retain_registered ids) <$> s).
Proof.
  apply map_safe. intros m _. split; [done|]. split.
  - intros (Hn & Hw & Hb). split; [|split; [|done]]; cbn [mi_projects with_mission_projects].
    + by apply NoDup_fmap_filter.
    + apply Forall_filtered. eapply Forall_impl; [exact Hw|]. done.
  - intros p Hp. destruct (decide (mp_project_id p ∈ ids)) as [Hi|Hi]; [right|by left].
    cbn. apply list_elem_of_filter. split; [|done]. unfold registered. by apply bool_decide_eq_true_2.
Qed.

Lemma load_read_safe ids read :
  evolve (fun _ p => mp_project_id p ∉ ids) (load_missions_read W ids read).
Proof.
  apply from_all. intros c. unfold load_missions_read.
  apply from_bind; [auto with missions|]. intros [store changed].
  apply from_last; [|keeps]. destruct changed; [|apply from_keep; [apply safe_refl|keeps]].
  apply from_bind; [auto with missions|]. intros [u|e]; [|apply from_keep; [apply safe_refl|keeps]].
  apply from_load. eapply (from_bind_post _ (fun a => a = (_, _))); [auto with missions|intros s; apply reconcile_value|].
  intros a ->. apply from_last; [|keeps]. destruct (existsb _ _); [|apply from_keep; [apply safe_refl|keeps]].
  apply from_save; [apply safe_refl|]. eapply safe_trans; [apply retain_safe|apply clear_safe].
Qed.

(** An id that the loop returns is new. *)
Lemma candidate_is_new store l fuel n id :
  loop (try_candidate W store l) fuel n = Some id ->
  (id ∉ mi_id <$> store) /\ path_exists (mw W) l (path_join (missions_dir W) id) = false.
Proof.
  intros H%loop_loops. eapply (loops_invariant _ (fun _ => True)) in H as (k & _ & Hk); [|done..].
  unfold try_candidate in Hk. destruct (existsb _ _) eqn:E1; [done|]. destruct (path_exists _ _ _) eqn:E2; [done|].
  injection Hk as <-. split; [|done]. by apply existsb_id_false in E1.
Qed.

Lemma create_safe fuel name branch : evolve (fun _ _ => False) (create_mission W fuel name branch).
Proof.
  apply from_all. intros c. unfold create_mission, create_mission_with_paths.
  apply from_bind; [auto with missions|]. intros [u|e]; [|apply from_keep; [apply safe_refl|keeps]].
  apply from_load. destruct (normalize_branch_name branch) as [b|e] eqn:Eb; [|apply from_keep; [apply safe_refl|keeps]].
  eapply (from_bind_post _ (fun id => forall i, id = Some i -> i ∉ mi_id <$> c)); [auto with missions| |].
  { intros s i Hi. cbn in Hi. by apply candidate_is_new in Hi as [Hi _]. }
  intros [id|] Hid; [|apply from_keep; [apply safe_refl|keeps]]. specialize (Hid id eq_refl).
  apply from_last; [|keeps]. apply from_try; [apply safe_refl|keeps|]. intros _. apply from_last_try; [|keeps].
  apply from_save; [apply safe_refl|]. eapply safe_trans; [|apply clear_safe].
  intros [Hnd Hall]. split; [split|].
  - rewrite fmap_app. by apply NoDup_snoc.
  - apply Forall_app. split; [done|]. constructor; [|constructor]. split; [constructor|]. split; [constructor|].
    intros b' Eb'. cbn in Eb'. subst b. revert Eb. unfold normalize_branch_name.
    destruct branch as [v|]; [|done]. cbn. destruct (trim v) as [|x t] eqn:Et; [done|].
    destruct (validate_branch_name (x :: t)) as [[]|] eqn:Ev; [|done]. intros [= <-].
    split; [done|]. split; [rewrite <- Et; apply trim_idemp|done].
  - intros i p (m & Hm & Hi). right. exists m. split; [|done]. apply elem_of_app. by left.
Qed.

Lemma find_mission_id id s m : find_mission id s = Some m -> mi_id m = id /\ m ∈ s.
Proof.
  unfold find_mission. destruct (list_find _ s) as [[i x]|] eqn:E; [|done]. intros [= <-].
  apply list_find_Some in E as (H1 & H2 & _). split; [done|]. by eapply list_elem_of_lookup_2.
Qed.

Lemma add_safe mid pid : evolve (fun _ _ => False) (add_project_to_mission W mid pid).
Proof.
  apply from_all. intros c. unfold add_project_to_mission, add_project_to_mission_with_paths.
  do 2 (apply from_try; [apply safe_refl|auto with missions|]; intros ?).
  apply from_last_try; [|keeps]. apply from_load.
  destruct (find_mission mid c) as [m|] eqn:Em; [|apply from_keep; [apply safe_refl|keeps]].
  destruct (existsb _ _) eqn:Ee; [apply from_keep; [apply safe_refl|keeps]|].
  apply existsb_id_false in Ee. apply from_bind; [keeps|]. intros [|]; [|apply from_keep; [apply safe_refl|keeps]].
  cbn [negb]. do 2 (apply from_try; [apply safe_refl|keeps|]; intros ?). apply from_last_try; [|keeps].
  apply from_save; [apply safe_refl|]. apply update_safe. intros m' [= <-]%(eq_trans (eq_sym Em)).
  apply find_mission_id in Em as [Hid _]. split; [done|]. split.
  - intros (Hn & Hw & Hb). split; [|split; [|done]]; cbn [mi_projects with_mission_projects].
    + rewrite fmap_app. by apply NoDup_snoc.
    + apply Forall_app. split; [done|]. constructor; [|constructor]. split; cbn; [by rewrite Hid|].
      rewrite Hid. eauto.
  - intros p Hp. right. cbn. apply elem_of_app. by left.
Qed.

Lemma remove_safe mid pid :
  evolve (fun id p => id = mid /\ mp_project_id p = pid) (remove_project_from_mission_with_paths W lifecycle mid pid).
Proof.
  apply from_all. intros c. unfold remove_project_from_mission_with_paths. apply from_load.
  destruct (find_mission mid c) as [m|] eqn:Em; [|apply from_keep; [apply safe_refl|keeps]].
  destruct (list_find _ _) as [[i p]|]; [|apply from_keep; [apply safe_refl|keeps]].
  do 3 (apply from_bind; [keeps|]; intros ?). apply from_save; [apply safe_refl|]. apply update_safe.
  intros m' [= <-]%(eq_trans (eq_sym Em)). apply find_mission_id in Em as [Hid _]. split; [done|]. split.
  - intros (Hn & Hw & Hb). split; [|split; [|done]]; cbn [mi_projects with_mission_projects].
    + by apply NoDup_fmap_filter.
    + apply Forall_filtered. eapply Forall_impl; [exact Hw|]. done.
  - intros q Hq. destruct (decide (mp_project_id q = pid)) as [|Hne]; [by left|right].
    cbn. apply list_elem_of_filter. by split.
Qed.

Lemma collapse_safe id b : evolve (fun _ _ => False) (set_mission_collapsed W id b).
Proof.
  apply from_all. intros c. unfold set_mission_collapsed. apply from_try; [apply safe_refl|auto with missions|]. intros _.
  apply from_load. destruct (find_mission id c) as [m|] eqn:Em; [|apply from_keep; [apply safe_refl|keeps]].
  apply from_save; [apply safe_refl|]. apply update_safe. intros m' [= <-]%(eq_trans (eq_sym Em)).
  apply find_mission_id in Em as [Hid _]. split; [done|]. split; [by destruct m|]. by right.
Qed.

Lemma safe_weaken (P Q : bytes -> MissionProject -> Prop) a b :
  (forall id p, P id p -> Q id p) -> safe P a b -> safe Q a b.
Proof. intros HPQ H Ha. destruct (H Ha) as [Hb Hk]. split; [done|]. intros id p Hp. destruct (Hk id p Hp); auto. Qed.

Lemma remove_projects_safe mid ids : evolve (fun id _ => id = mid) (remove_projects W lifecycle mid ids).
Proof.
  induction ids as [|i ids IH]; cbn [remove_projects]; [intros s; apply safe_refl|].
  apply (evolves_try _ (safe_trans _)); [|intros _; apply IH].
  intros s. eapply safe_weaken; [|apply remove_safe]. by intros id p [-> _].
Qed.

Lemma delete_safe mid : evolve (fun id _ => id = mid) (delete_mission_with_lifecycle W lifecycle mid).
Proof.
  unfold delete_mission_with_lifecycle. apply (evolves_bind _ (safe_trans _)); [intros s; apply safe_refl|].
  intros store. destruct (find_mission mid store); [|intros s; apply safe_refl].
  apply (evolves_try _ (safe_trans _)); [apply remove_projects_safe|]. intros _. apply from_all.
  intros c. do 2 (apply from_bind; [keeps|]; intros ?). apply from_try; [apply safe_refl|keeps|]. intros _. apply from_load.
  apply from_save; [apply safe_refl|]. eapply safe_trans; [|apply clear_safe].
  intros [Hnd Hall]. split; [split|].
  - by apply NoDup_fmap_filter.
  - by apply Forall_filtered.
  - intros id p (x & Hx & <- & Hp). destruct (decide (mi_id x = mid)) as [|Hne]; [by left|right].
    exists x. split; [|done]. apply list_elem_of_filter. by split.
Qed.
End safety.

(** * All commands, and reads that are not under the lock *)

Section runs.
Context (W : MissionWorld) (lifecycle : WorktreeLifecycle).

(** A read begins with the registered projects and the file as they are, and
    ends, some time later, with all that follows. The commands hold the lock;
    whatever else happens in the world may happen between any two steps. *)
Inductive MissionOp :=
| ReadBegins
| ReadEnds (i : nat)
| Create (fuel : nat) (name : bytes) (branch_name : option bytes)
| Add (mission_id project_id : bytes)
| Remove (mission_id project_id : bytes)
| SetCollapsed (mission_id : bytes) (c : bool)
| Delete (mission_id : bytes)
| Elsewhere (w : St).

Record Sys := mkSys { sys : MSt; readers : list (gset bytes * MissionStore) }.

Definition exec (op : MissionOp) (x : Sys) : Sys :=
  let run {A} (m : MM A) := mkSys (m (sys x)).2 (readers x) in
  match op with
  | ReadBegins => mkSys (sys x) (readers x ++ [((project_ids (sys x)).1, cur (sys x))])
  | ReadEnds i =>
      match readers x !! i with
      | Some (ids, read) => mkSys (load_missions_read W ids read (sys x)).2 (delete i (readers x))
      | None => x
      end
  | Create fuel name b => run (create_mission W fuel name b)
  | Add m p => run (add_project_to_mission W m p)
  | Remove m p => run (remove_project_from_mission W lifecycle m p)
  | SetCollapsed m c => run (set_mission_collapsed W m c)
  | Delete m => run (delete_mission W lifecycle m)
  | Elsewhere w => mkSys (mkMSt (ms_file (sys x)) w) (readers x)
  end.
Definition run (ops : list MissionOp) (x : Sys) : Sys := foldl (fun x op => exec op x) x ops.

(** The steps that may take project [p] out of mission [id]. *)
Definition may_drop (op : MissionOp) (x : Sys) (id : bytes) (p : MissionProject) : Prop :=
  match op with
  | Remove m i => id = m /\ mp_project_id p = i
  | Delete m => id = m
  | ReadEnds i => exists ids read, readers x !! i = Some (ids, read) /\ mp_project_id p ∉ ids
  | _ => False
  end.

Lemma locked_safe {A} lost (m : MM (result A bytes)) :
  evolves (safe W lost) m -> evolves (safe W lost) (let! _ := lock_mission_store_writes W in m).
Proof.
  intros Hm. apply (evolves_try _ (safe_trans W _)); [|done].
  apply (evolves_keep _ (safe_refl W _)). auto with missions.
Qed.

Lemma exec_safe op x : safe W (may_drop op x) (cur (sys x)) (cur (sys (exec op x))).
Proof.
  destruct op as [|i|fuel name b|m p|m p|m c|m|w]; cbn [exec sys]; try apply safe_refl.
  - destruct (readers x !! i) as [[ids read]|] eqn:E; [|apply safe_refl]. cbn [sys].
    eapply safe_weaken; [|apply (load_read_safe W ids read)]. intros id p Hp. cbn. eauto.
  - apply create_safe.
  - apply add_safe.
  - apply (locked_safe _ (remove_project_from_mission_with_paths W lifecycle m p)). apply remove_safe.
  - apply collapse_safe.
  - apply (locked_safe _ (delete_mission_with_lifecycle W lifecycle m)). apply delete_safe.
Qed.

(** C15: whatever the commands do, in whatever order and with reads of any age in
    between, ids of missions stay distinct, a mission has a project at most once,
    on the mission's branch and in the mission's directory, and custom branch
    names stay valid; and a project that is in a mission stays in it until it is
    removed, or its mission deleted, or a read ends that began when the project
    was not registered. *)
Theorem missions_survive ops x :
  store_ok W (cur (sys x)) ->
  store_ok W (cur (sys (run ops x))) /\
  forall id p, in_store (cur (sys x)) id p ->
    in_store (cur (sys (run ops x))) id p \/
    exists before op after, ops = before ++ op :: after /\ may_drop op (run before x) id p.
Proof.
  revert x. induction ops as [|op ops IH]; intros x Hx; [auto|].
  destruct (exec_safe op x Hx) as [Hok Hkeep]. destruct (IH (exec op x) Hok) as [Hok' Hkeep']. split; [done|].
  intros id p Hp. destruct (Hkeep id p Hp) as [Hd|Hp1].
  - right. by exists [], op, ops.
  - destruct (Hkeep' id p Hp1) as [|(before & op' & after & -> & Hd)]; [by left|].
    right. by exists (op :: before), op', after.
Qed.

(** * What a command has done when it returns *)

Lemma find_update id f s :
  (forall m, mi_id (f m) = mi_id m) -> find_mission id (update_mission id f s) = f <$> find_mission id s.
Proof.
  intros Hf. unfold find_mission. induction s as [|m s IH]; [done|]. cbn [update_mission list_find].
  destruct (bytes_eqb (mi_id m) id) eqn:E.
  - apply bytes_eqb_eq in E. cbn [list_find]. rewrite Hf. by rewrite !decide_True by done.
  - assert (mi_id m <> id) by (intros H; by rewrite H, bytes_eqb_refl in E).
    cbn [list_find]. rewrite !decide_False by done.
    destruct (list_find _ s) as [[i y]|], (list_find _ (update_mission id f s)) as [[j z]|]; cbn in *; congruence.
Qed.

Lemma reupdate id f g s :
  (forall m, mi_id (g m) = mi_id m) -> update_mission id f (update_mission id g s) = update_mission id (f ∘ g) s.
Proof.
  intros Hg. induction s as [|m s IH]; [done|]. cbn [update_mission].
  destruct (bytes_eqb (mi_id m) id) eqn:E; cbn [update_mission]; rewrite ?Hg, E; [done|]. by f_equal.
Qed.

Lemma update_ext id f g s m : find_mission id s = Some m -> f m = g m -> update_mission id f s = update_mission id g s.
Proof.
  intros Hm Hf. revert Hm. unfold find_mission. induction s as [|x s IH]; [done|]. cbn [update_mission list_find].
  destruct (decide (mi_id x = id)) as [E|E].
  - intros [= ->]. apply bytes_eqb_eq in E. by rewrite E, Hf.
  - rewrite bytes_eqb_ne by done. intros H. f_equal. apply IH. by destruct (list_find _ s) as [[i y]|].
Qed.
Lemma update_same id f s m : find_mission id s = Some m -> f m = m -> update_mission id f s = s.
Proof.
  intros Hm Hf. rewrite (update_ext id f (fun m => m) s m Hm Hf). clear. induction s as [|x s IH]; [done|].
  cbn. rewrite IH. by destruct (bytes_eqb _ _).
Qed.

Lemma filter_update id f s :
  (forall m, mi_id (f m) = mi_id m) ->
  filter (fun m => mi_id m <> id) (update_mission id f s) = filter (fun m => mi_id m <> id) s.
Proof.
  intros Hf. induction s as [|m s IH]; [done|]. cbn [update_mission]. destruct (bytes_eqb (mi_id m) id) eqn:E.
  - apply bytes_eqb_eq in E. rewrite !filter_cons_False; [done|tauto|rewrite Hf; tauto].
  - assert (mi_id m <> id) by (intros H; by rewrite H, bytes_eqb_refl in E).
    rewrite !filter_cons_True by done. by f_equal.
Qed.
Lemma filter_clear id s :
  clear_dirs (filter (fun m => mi_id m <> id) s) = filter (fun m => mi_id m <> id) (clear_dirs s).
Proof.
  induction s as [|m s IH]; [done|]. unfold clear_dirs in *. rewrite fmap_cons.
  destruct (decide (mi_id m = id)) as [E|E].
  - rewrite !filter_cons_False; [done|by destruct m; cbn in *; auto|auto].
  - rewrite !filter_cons_True; [|by destruct m|done]. by rewrite fmap_cons, IH.
Qed.

Lemma clear_cur s : clear_dirs (cur s) = cur s.
Proof.
  unfold cur. destruct (ms_file s) as [| |ps]; [done..|]. cbn. unfold clear_dirs.
  rewrite <- list_fmap_compose. done.
Qed.
Lemma clear_update id f s :
  (forall m, f (with_mission_dir [] m) = with_mission_dir [] (f m)) ->
  clear_dirs (update_mission id f s) = update_mission id f (clear_dirs s).
Proof.
  intros Hf. induction s as [|m s IH]; [done|]. cbn [update_mission clear_dirs].
  unfold clear_dirs. rewrite fmap_cons. cbn [update_mission]. destruct (bytes_eqb (mi_id m) id) eqn:E.
  - replace (bytes_eqb (mi_id (with_mission_dir [] m)) id) with true by (by destruct m). by rewrite fmap_cons, Hf.
  - replace (bytes_eqb (mi_id (with_mission_dir [] m)) id) with false by (by destruct m). rewrite fmap_cons. by f_equal.
Qed.
Lemma save_update id f s s0 r s' :
  (forall m, f (with_mission_dir [] m) = with_mission_dir [] (f m)) ->
  save_missions_to_path W (update_mission id f (cur s0)) s = (r, s') ->
  match r with Ok _ => cur s' = update_mission id f (cur s0) | Err _ => cur s' = cur s end.
Proof.
  intros Hf E%save_cases. destruct r; [|by unfold cur; rewrite E].
  by rewrite E, clear_update, clear_cur.
Qed.

(** ** Deleting *)

Definition set_projects (ps : list MissionProject) : Mission -> Mission := with_mission_projects (fun _ => ps).

Lemma cur_keep {A} (m : MM A) s : keeps_file m -> cur (m s).2 = cur s.
Proof. intros Hm. unfold cur. by rewrite Hm. Qed.

Lemma bind_keeps {A B} (m : MM A) (k : A -> MM B) s x :
  keeps_file m -> bind m k s = x -> exists a s1, cur s1 = cur s /\ k a s1 = x.
Proof.
  intros Hm E. unfold bind in E. pose proof (cur_keep m s Hm) as Hc. destruct (m s) as [a s1]. eauto.
Qed.

Lemma try_keeps {A B} (m : MM (result A bytes)) (k : A -> MM (result B bytes)) s r s' :
  try_bind m k s = (r, s') -> keeps_file m ->
  (exists a s1, cur s1 = cur s /\ k a s1 = (r, s')) \/ exists e, r = Err e /\ cur s' = cur s.
Proof.
  intros E Hm. unfold try_bind in E. pose proof (cur_keep m s Hm) as Hc.
  destruct (m s) as [[a|e] s1]; cbn in Hc; [by left; eauto|]. injection E as <- <-. right. eauto.
Qed.

Lemma remove_first id p rest base s r s' m :
  find_mission id base = Some m -> mi_projects m = p :: rest -> NoDup (mp_project_id <$> p :: rest) ->
  cur s = base ->
  remove_project_from_mission_with_paths W lifecycle id (mp_project_id p) s = (r, s') ->
  match r with Ok _ => cur s' = update_mission id (set_projects rest) base | Err _ => cur s' = base end.
Proof.
  intros Hm Hps Hnd Hs E. unfold remove_project_from_mission_with_paths, bind at 1, load_store in E.
  change (load_missions_from_path (ms_file s)) with (cur s) in E. rewrite Hs, Hm, Hps in E. cbn [list_find] in E.
  rewrite decide_True in E by done.
  apply bind_keeps in E as (_ & s1 & H1 & E); [|keeps]. apply bind_keeps in E as (e & s2 & H2 & E); [|keeps].
  apply bind_keeps in E as (_ & s3 & H3 & E); [|keeps]. rewrite <- Hs in E |- *.
  apply save_update in E; [|by intros []]. destruct r; [|congruence].
  rewrite E. rewrite <- Hs in Hm. apply (update_ext _ _ _ _ m Hm). unfold set_projects, with_mission_projects. f_equal.
  rewrite Hps. unfold without_project. rewrite filter_cons_False by auto. rewrite fmap_cons in Hnd.
  apply NoDup_cons in Hnd as [Hp _]. apply filter_all. apply Forall_forall. intros q Hq Eq. apply Hp.
  apply list_elem_of_fmap. by exists q.
Qed.

Lemma remove_rest id base m rest s r s' :
  find_mission id base = Some m -> NoDup (mp_project_id <$> rest) ->
  cur s = update_mission id (set_projects rest) base ->
  remove_projects W lifecycle id (mp_project_id <$> rest) s = (r, s') ->
  match r with
  | Ok _ => cur s' = update_mission id (set_projects []) base
  | Err _ => exists gone left, rest = gone ++ left /\ cur s' = update_mission id (set_projects left) base
  end.
Proof.
  intros Hm. revert s. induction rest as [|p rest IH]; intros s Hnd Hs E; [by injection E as <- <-|].
  cbn [remove_projects fmap list_fmap] in E. unfold try_bind in E.
  destruct (remove_project_from_mission_with_paths W lifecycle id (mp_project_id p) s) as [r1 s1] eqn:E1.
  eapply (remove_first id p rest _ _ _ _ (set_projects (p :: rest) m)) in E1; [|by rewrite find_update, Hm|done..|exact Hs].
  destruct r1 as [u|e].
  - rewrite reupdate in E1 by done. change (_ ∘ _) with (set_projects rest) in E1.
    rewrite fmap_cons in Hnd. apply NoDup_cons in Hnd as [_ Hnd]. specialize (IH s1 Hnd E1 E).
    destruct r; [done|]. destruct IH as (gone & left & -> & Hl). by exists (p :: gone), left.
  - injection E as <- <-. by exists [], (p :: rest).
Qed.

(** Deleting a mission removes its projects one after the other, each from
    the store as soon as its worktree is gone, and then the mission. When it
    fails, every other mission is as it was, and the mission keeps its last
    projects, those not yet removed; so that deleting it again continues. *)
Theorem delete_mission_in_order id s r s' :
  store_ok W (cur s) -> delete_mission W lifecycle id s = (r, s') ->
  match r with
  | Ok _ => (id ∈ mi_id <$> cur s) /\ cur s' = filter (fun m => mi_id m <> id) (cur s)
  | Err _ =>
      cur s' = cur s \/
      exists m gone left, find_mission id (cur s) = Some m /\ mi_projects m = gone ++ left /\
        cur s' = update_mission id (set_projects left) (cur s)
  end.
Proof.
  intros [Hnd Hall] E. unfold delete_mission in E. apply try_keeps in E as [(u & s0 & H0 & E)|(e & -> & H0)];
    [|by left|apply file_lock].
  unfold delete_mission_with_lifecycle, bind at 1, load_store in E.
  change (load_missions_from_path (ms_file s0)) with (cur s0) in E. rewrite H0 in E.
  destruct (find_mission id (cur s)) as [m|] eqn:Hm; [|injection E as <- <-; by left].
  unfold try_bind at 1 in E. destruct (remove_projects _ _ _ _ s0) as [r1 s1] eqn:E1.
  pose proof Hm as [Hid Hin]%find_mission_id.
  assert (Hnp : NoDup (mp_project_id <$> mi_projects m)).
  { rewrite Forall_forall in Hall. by destruct (Hall m Hin). }
  eapply (remove_rest id (cur s) m (mi_projects m)) in E1; [|done..|rewrite H0; symmetry; apply (update_same _ _ _ m Hm); by destruct m].
  destruct r1 as [u1|e]; [|injection E as <- <-; right; destruct E1 as (gone & left & Hl & Hc); by exists m, gone, left].
  apply bind_keeps in E as (_ & s2 & H2 & E); [|keeps]. apply bind_keeps in E as (there & s3 & H3 & E); [|keeps].
  apply try_keeps in E as [(u2 & s4 & H4 & E)|(e & -> & H4)]; [| |keeps].
  2: { right. exists m, (mi_projects m), []. rewrite app_nil_r. split; [done|]. split; [done|congruence]. }
  unfold bind, load_store in E. change (load_missions_from_path (ms_file s4)) with (cur s4) in E.
  apply save_cases in E. destruct r as [u3|e].
  - split; [apply list_elem_of_fmap; by exists m|]. rewrite E, H4, H3, H2, E1.
    rewrite filter_update by done. by rewrite filter_clear, clear_cur.
  - right. exists m, (mi_projects m), []. rewrite app_nil_r. split; [done|]. split; [done|].
    unfold cur at 1. rewrite E. change (load_missions_from_path (ms_file s4)) with (cur s4). congruence.
Qed.
End runs.

(** ** Loading, creating, adding *)

Section outcomes.
Context (W : MissionWorld) (lifecycle : WorktreeLifecycle).

(** What [remove_unknown] appends to the log. *)
Definition unknown_dir (known names : list bytes) (e : event) : Prop :=
  exists n, e = RemoveDirAll (path_join (missions_dir W) n) /\ n ∈ names /\ from_utf8_lossy n ∉ known.

Lemma remove_unknown_log known names s :
  exists es, log (ms_world (remove_unknown W known names s).2) = log (ms_world s) ++ es /\
    Forall (unknown_dir known names) es.
Proof.
  assert (Hg : forall all, (forall n, n ∈ names -> n ∈ all) -> exists es,
    log (ms_world (remove_unknown W known names s).2) = log (ms_world s) ++ es /\ Forall (unknown_dir known all) es).
  { intros all. revert s. induction names as [|n ns IH]; intros s Hall; [exists (@nil event); cbn; rewrite app_nil_r; by split|].
    cbn [remove_unknown]. unfold bind.
    assert (Hns : forall x, x ∈ ns -> x ∈ all) by (intros x Hx; by apply Hall, list_elem_of_further).
    destruct (bool_decide_reflect (from_utf8_lossy n ∈ known)) as [Hk|Hk]; cbn; [by apply IH|].
    destruct (IH (mkMSt (ms_file s) (mkSt (log (ms_world s) ++ [RemoveDirAll (path_join (missions_dir W) n)])
      (disk (ms_world s)))) Hns) as (es & -> & Hes).
    exists (RemoveDirAll (path_join (missions_dir W) n) :: es). cbn. rewrite <- app_assoc. split; [done|].
    constructor; [|done]. exists n. split; [done|]. split; [apply Hall, list_elem_of_here|done]. }
  by apply Hg.
Qed.

Lemma reconcile_keeps ids store s a s' :
  reconcile_missions W ids store s = (a, s') ->
  a = (with_mission_projects (retain_registered ids) <$> store, existsb (drops_project ids) store) /\ cur s' = cur s.
Proof.
  intros E. pose proof (reconcile_value W ids store s) as Hv. pose proof (cur_keep _ s (file_reconcile W ids store)) as Hc.
  rewrite E in Hv, Hc. done.
Qed.

(** A project that is not dropped is not touched. *)
Lemma retain_all ids s :
  existsb (drops_project ids) s = false -> with_mission_projects (retain_registered ids) <$> s = s.
Proof.
  induction s as [|m s IH]; [done|]. cbn [existsb]. intros [Hm Hs]%orb_false_iff. rewrite fmap_cons, (IH Hs). f_equal.
  unfold drops_project in Hm. apply negb_false_iff, Nat.eqb_eq in Hm. destruct m as [i n b ps d c]. cbn in *.
  unfold with_mission_projects. cbn. f_equal. apply sublist_full; [apply sublist_filter|]. apply Nat.eq_le_incl. symmetry. exact Hm.
Qed.

Lemma cur_lock s r s' : lock_mission_store_writes W s = (r, s') -> cur s' = cur s.
Proof. intros E. pose proof (cur_keep _ s (file_lock W)) as H. by rewrite E in H. Qed.

(** A load with nothing in between answers the store with exactly the
    projects that are registered, each mission with its directory, and leaves the
    file as it was or with just that content. *)
Theorem load_answers_registered s store s' :
  load_missions W s = (store, s') ->
  let kept := with_mission_projects
    (retain_registered (list_to_set (pe_id <$> projects (disk (ms_world s))))) <$> cur s in
  store = set_dirs W kept /\ (cur s' = cur s \/ cur s' = kept).
Proof.
  intros E kept. unfold load_missions, bind, project_ids, load_store in E. cbn in E.
  set (ids := list_to_set (pe_id <$> projects (disk (ms_world s)))) in *.
  change (load_missions_from_path (ms_file s)) with (cur s) in E.
  unfold load_missions_read in E.
  assert (Hs : cur (mkMSt (ms_file s) (ms_world s)) = cur s) by done.
  revert E. generalize dependent (mkMSt (ms_file s) (ms_world s)). intros s0 Hs0 E. unfold bind in E.
  destruct (reconcile_missions W ids (cur s) s0) as [a s1] eqn:E1. apply reconcile_keeps in E1 as [-> H1].
  fold kept in E. destruct (existsb (drops_project ids) (cur s)) eqn:Ed.
  2: { injection E as <- <-. split; [done|left; congruence]. }
  destruct (lock_mission_store_writes W s1) as [[u|e] s2] eqn:E2; apply cur_lock in E2.
  2: { injection E as <- <-. split; [done|left; congruence]. }
  unfold load_store in E. change (load_missions_from_path (ms_file s2)) with (cur s2) in E.
  assert (Hc : cur s2 = cur s) by congruence. rewrite Hc in E.
  destruct (reconcile_missions W ids (cur s) s2) as [a s3] eqn:E3. apply reconcile_keeps in E3 as [-> H3].
  fold kept in E. rewrite Ed in E.
  destruct (save_missions_to_path W kept s3) as [r s4] eqn:E4. apply save_cases in E4. injection E as <- <-.
  split; [done|]. destruct r as [u'|e].
  - right. rewrite E4. unfold kept. rewrite <- (clear_cur s) at 2. unfold clear_dirs. rewrite <- !list_fmap_compose. done.
  - left. unfold cur at 1. rewrite E4. change (load_missions_from_path (ms_file s3)) with (cur s3). congruence.
Qed.

(** The loop over random ids ends with the first draw that is free. *)
Lemma create_ends store l fuel n :
  (n < fuel)%nat ->
  (forall k, (k < n)%nat -> exists k', try_candidate W store l k = inl k') ->
  (exists id, try_candidate W store l n = inr id) ->
  exists id, loop (try_candidate W store l) fuel 0%nat = Some id /\ try_candidate W store l n = inr id.
Proof.
  intros Hn Hb [id Hid]. exists id. split; [|done].
  assert (Hg : forall k f, (k <= n)%nat -> (n - k < f)%nat -> loop (try_candidate W store l) f k = Some id).
  { intros k f. revert k. induction f as [|f IH]; intros k Hk Hf; [lia|]. cbn [loop].
    destruct (decide (k = n)) as [->|Hne]; [by rewrite Hid|].
    destruct (Hb k) as [k' Hk']; [lia|]. rewrite Hk'.
    assert (k' = S k) as ->.
    { unfold try_candidate in Hk'. destruct (existsb _ _ || _); [|done]. congruence. }
    apply IH; lia. }
  apply Hg; lia.
Qed.

Definition answers_no (l : list event) (source r : bytes) : Prop :=
  forall out err, git (mw W) l source (show_ref r) <> Some (true, out, err).

Lemma output_refused w cwd args s e s' :
  run_git_output w cwd args s = (Err e, s') -> forall o err, git w (log s) cwd args <> Some (true, o, err).
Proof.
  unfold run_git_output, git_raw, bind, ret. intros E o err E'. rewrite E' in E. by injection E.
Qed.

Lemma reject_ok source b s u s' :
  reject_existing_custom_branch W source b s = (Ok u, s') ->
  exists l1 l2, answers_no l1 source (str "refs/heads/" ++ b) /\ answers_no l2 source (str "refs/remotes/origin/" ++ b).
Proof.
  unfold reject_existing_custom_branch, branch_already_exists. generalize (str "refs/heads/" ++ b) as r1.
  generalize (str "refs/remotes/origin/" ++ b) as r2. intros r2 r1. unfold bind, in_world, ret.
  destruct (run_git_output (mw W) source (show_ref r1) (ms_world s)) as [[o|e] s1] eqn:E1; [done|].
  cbn [ms_world].
  destruct (run_git_output (mw W) source (show_ref r2) s1) as [[o|e2] s2] eqn:E2; [done|]. intros _.
  exists (log (ms_world s)), (log s1). split; [exact (output_refused _ _ _ _ _ _ E1)|exact (output_refused _ _ _ _ _ _ E2)].
Qed.

(** What adding has done to the store; a custom branch was in neither the
    repository nor its remote. *)
Definition added (mid pid source repo : bytes) (before : MissionStore) (p : MissionProject) (after : MissionStore) : Prop :=
  exists m, find_mission mid before = Some m /\ (pid ∉ mp_project_id <$> mi_projects m) /\
    p = mkMissionProject pid (default (default_mission_branch_name mid) (mi_branch_name m))
          (path_join (path_join (missions_dir W) mid) repo) /\
    after = update_mission mid (with_mission_projects (fun ps => ps ++ [p])) before /\
    forall b, mi_branch_name m = Some b -> exists l1 l2,
      answers_no l1 source (str "refs/heads/" ++ b) /\ answers_no l2 source (str "refs/remotes/origin/" ++ b).

Lemma make_custom source b path s u s' :
  make_mission_worktree W true source b path s = (Ok u, s') ->
  exists l1 l2, answers_no l1 source (str "refs/heads/" ++ b) /\ answers_no l2 source (str "refs/remotes/origin/" ++ b).
Proof.
  unfold make_mission_worktree, try_bind.
  destruct (reject_existing_custom_branch W source b s) as [[u6|e6] s6] eqn:E6; [|done]. intros _. by eapply reject_ok.
Qed.

Lemma add_with_paths_outcome mid pid source repo s r s' :
  add_project_to_mission_with_paths W mid pid source repo s = (r, s') ->
  match r with Ok p => added mid pid source repo (cur s) p (cur s') | Err _ => cur s' = cur s end.
Proof.
  intros E. unfold add_project_to_mission_with_paths, bind at 1, load_store in E.
  change (load_missions_from_path (ms_file s)) with (cur s) in E.
  destruct (find_mission mid (cur s)) as [m|] eqn:Hm; [|by injection E as <- <-].
  destruct (existsb _ _) eqn:Ex; [by injection E as <- <-|]. apply existsb_id_false in Ex.
  apply bind_keeps in E as (there & s2 & H2 & E); [|keeps]. destruct there; [|by injection E as <- <-].
  apply try_keeps in E as [(u2 & s3 & H3 & E)|(e2 & -> & H3)]; [|congruence|keeps].
  unfold try_bind at 1 in E. match type of E with context [make_mission_worktree W ?c source ?b ?p s3] =>
    pose proof (cur_keep _ s3 (file_worktree W c source b p)) as H4;
    destruct (make_mission_worktree W c source b p s3) as [[u4|e4] s4] eqn:E4 end; cbn [snd] in H4;
    [|injection E as <- <-; congruence].
  assert (Hc : cur s4 = cur s) by congruence.
  unfold try_bind in E. match type of E with context [save_missions_to_path W ?st s4] =>
    destruct (save_missions_to_path W st s4) as [r5 s5] eqn:E5 end.
  apply save_update in E5; [|by intros []]. destruct r5 as [u5|e5]; injection E as <- <-; [|congruence].
  exists m. split; [done|]. split; [done|]. split; [done|]. split; [done|].
  intros b Hb. rewrite Hb in E4. rewrite bool_decide_eq_true_2 in E4 by eauto. by eapply make_custom.
Qed.

(** Adding a project puts it at the end of its mission, once, on the mission's
    branch, in the directory named like its repository; a custom branch is only
    ever created, never taken over. When adding fails the store is as it was. *)
Theorem add_project_outcome mid pid s r s' :
  add_project_to_mission W mid pid s = (r, s') ->
  match r with
  | Ok p => exists e, find_by_id pid (projects (disk (ms_world s))) = Ok e /\
      added mid pid (source_path e) (pe_repo e) (cur s) p (cur s')
  | Err _ => cur s' = cur s
  end.
Proof.
  intros E. unfold add_project_to_mission in E. unfold try_bind at 1 in E.
  destruct (lock_mission_store_writes W s) as [[u|e] s0] eqn:E0; [|injection E as <- <-; by apply cur_lock in E0].
  assert (s0 = s) as ->.
  { revert E0. unfold lock_mission_store_writes, ask_world, in_world, bind, ask, ret. cbn. intros [= _ <-].
    by destruct s as [f [l d]]. }
  clear E0. unfold try_bind at 1, find_project_entry_by_id, in_world, load_config, bind at 1, ret at 1 in E. cbn [fst snd] in E.
  destruct (find_by_id pid (projects (disk (ms_world s)))) as [e|e] eqn:Ee; [|by injection E as <- <-].
  replace (mkMSt (ms_file s) (ms_world s)) with s in E by (by destruct s).
  unfold try_bind at 1 in E.
  destruct (add_project_to_mission_with_paths W mid pid (source_path e) (pe_repo e) s) as [[p|e1] s1] eqn:E1;
    apply add_with_paths_outcome in E1; [|by injection E as <- <-].
  apply bind_keeps in E as (u1 & s2 & H2 & E); [|apply file_in_world]. injection E as <- <-. exists e. by rewrite H2.
Qed.
End outcomes.

(** * The store as JSON is read back *)

Lemma mission_project_roundtrip p : mission_project_of (mission_project_value p) = Some p.
Proof. by destruct p. Qed.

Lemma persisted_mission_roundtrip m : persisted_mission_of (persisted_mission_value m) = Some m.
Proof.
  destruct m as [i n b ps c]. set (v := persisted_mission_value _).
  assert (H1 : get "id" v = Some (Str i)) by (by destruct b, c).
  assert (H2 : get "name" v = Some (Str n)) by (by destruct b, c).
  assert (H3 : get "branchName" v = Str <$> b) by (by destruct b, c).
  assert (H4 : get "projects" v = Some (Arr (mission_project_value <$> ps))) by (by destruct b, c).
  assert (H5 : get "collapsed" v = if c then Some (Bool true) else None) by (by destruct b, c).
  unfold persisted_mission_of, opt_field, default_field, list_of. rewrite H1, H2, H3, H4, H5.
  cbn [mbind option_bind as_str as_array].
  rewrite (mapM_back _ _ ps mission_project_roundtrip). by destruct b, c.
Qed.

Theorem persisted_store_roundtrip s : persisted_store_of (persisted_store_value s) = Some s.
Proof.
  unfold persisted_store_of, default_field, persisted_store_value, list_of.
  change (get "missions" _) with (Some (Arr (persisted_mission_value <$> s))). cbn [as_array mbind option_bind].
  apply mapM_back, persisted_mission_roundtrip.
Qed.

(** * The resources of a worktree *)

(** Every resource is told, in order, whether or not one before it failed. *)
Lemma cleanup_tells_all (lc : WorktreeLifecycle) p s :
  cleanup lc p s = (tt, foldl (fun s r => (r p s).2) s lc).
Proof.
  revert s. induction lc as [|r lc IH]; intros s; [done|]. cbn [cleanup foldl]. unfold bind.
  destruct (r p s) as [x s1]. apply IH.
Qed.

(** * Notes *)

Abbreviation NoteStore := (gmap bytes bytes).
Definition load_notes (file : option (option NoteStore)) : result NoteStore bytes :=
  match file with
  | None => Ok ∅
  | Some None => Err (str "Failed to parse")
  | Some (Some s) => Ok s
  end.
(** What is written; a file that is not a store is left alone. *)
Definition save_note (key content : bytes) (file : option (option NoteStore)) : result NoteStore bytes :=
  let? store := load_notes file in
  Ok (if bool_decide (trim content = []) then delete key store else <[key := content]> store).
Definition delete_note (key : bytes) (file : option (option NoteStore)) : result NoteStore bytes :=
  let? store := load_notes file in Ok (delete key store).

Lemma save_note_spec key content file store :
  save_note key content file = Ok store ->
  store !! key = (if bool_decide (trim content = []) then None else Some content) /\
  exists old, load_notes file = Ok old /\ forall k, k <> key -> store !! k = old !! k.
Proof.
  unfold save_note. destruct (load_notes file) as [old|e]; [|done]. unfold result_bind. intros [= <-].
  destruct (bool_decide _); (split; [by rewrite ?lookup_delete_eq, ?lookup_insert_eq|]).
  all: exists old; split; [done|]; intros k Hk; by rewrite ?lookup_delete_ne, ?lookup_insert_ne by done.
Qed.

(** * Examples *)

Module MissionsExamples.
Definition home : bytes := str "/h/.grove/missions".
(** A path exists that was created, or has been there from the start. *)
Definition made (l : list event) (p : bytes) : bool :=
  existsb (fun e => match e with CreateDirAll q => bytes_eqb p q | _ => false end) l.
Definition world (answer : list event -> list bytes -> option (bool * bytes * bytes)) : World :=
  mkWorld (fun l _ args => answer l args) (fun _ _ _ => None) (fun _ => None) (fun _ _ => true) (fun _ _ => true)
    (fun l p => made l p || bytes_eqb p home || bytes_eqb p (str "/src")) (fun _ _ => true) (fun _ _ => true) (fun _ _ => [])
    (fun _ p => Some p) (fun _ _ => 0) (fun _ _ => None) (fun _ p => p) (fun _ _ _ => None) (str "/g").
(** Renames succeed as given; the directory holds what was created in it. *)
Definition W (answer : list event -> list bytes -> option (bool * bytes * bytes)) (rename : list event -> bool)
    (names : list event -> list bytes) : MissionWorld :=
  mkMissionWorld (world answer) (fun l _ _ => rename l) (fun _ _ => true) (fun l _ => names l) (fun _ => true)
    (fun _ n => 7 + Z.of_nat n) (fun _ => str "{}") (str "/h/.grove/missions.json") home.

Definition entry : ProjectEntry := make_project_entry (str "p1") (str "r") (str "u") (str "o") (str "repo") (str "/src").
Definition config : GroveConfig := mkGroveConfig [entry] None None None.
Definition start (f : MissionFile) : Sys := mkSys (mkMSt f (mkSt [] config)) [].

Definition git_ok (l : list event) (args : list bytes) : option (bool * bytes * bytes) :=
  match args with
  | a :: _ => if bytes_eqb a (str "show-ref") then Some (false, [], str "not found") else Some (true, [], [])
  | [] => None
  end.
Definition fine : MissionWorld := W git_ok (fun _ => true) (fun _ => []).
Definition id7 : bytes := str "00000007".

(** The premise of the invariant holds in the empty store, and the run is not
    trivial: a mission with one project is there after it. *)
Example missions_survive_witness :
  let x := start Absent in
  let y := run fine [] [Create 5 (str "fix") (Some (str " topic ")); Add id7 (str "p1"); SetCollapsed id7 true] x in
  store_ok fine (cur (sys y)) /\
  cur (sys y) = [mkMission id7 (str "fix") (Some (str "topic"))
                   [mkMissionProject (str "p1") (str "topic") (str "/h/.grove/missions/00000007/repo")] [] true].
Proof.
  cbv zeta. split; [|by vm_compute].
  apply (missions_survive fine [] [Create 5 (str "fix") (Some (str " topic ")); Add id7 (str "p1"); SetCollapsed id7 true] (start Absent)).
  split; constructor.
Defined.

(** A store that cannot be read is taken for an empty one, and every directory
    of a mission is removed. *)
Example unreadable_store_loses_missions :
  let s := sys (start Unreadable) in
  log (ms_world (load_missions (W git_ok (fun _ => true) (fun _ => [id7])) s).2) =
    [RemoveDirAll (path_join home id7)].
Proof. by vm_compute. Qed.

(** A read that began before a mission was created removes its directory, with
    the worktrees in it, and the store still names them. *)
Example late_read_removes_new_mission :
  let w := W git_ok (fun _ => true) (fun l => if made l (path_join home id7) then [id7] else []) in
  let y := run w [] [ReadBegins; Create 5 (str "fix") None; Add id7 (str "p1"); ReadEnds 0] (start Absent) in
  RemoveDirAll (path_join home id7) ∈ log (ms_world (sys y)) /\
  (mi_projects <$> cur (sys y)) = [[mkMissionProject (str "p1") (str "mission/00000007") (str "/h/.grove/missions/00000007/repo")]].
Proof. split; [|by vm_compute]. apply list_elem_of_lookup. exists 10%nat. by vm_compute. Qed.

(** A custom branch that git made stays behind when the store is not saved; from
    then on the project cannot be added. *)
Definition branch_made (l : list event) : bool :=
  existsb (fun e => match e with Git _ (a :: _) => bytes_eqb a (str "worktree") | _ => false end) l.
Definition git_keeps (l : list event) (args : list bytes) : option (bool * bytes * bytes) :=
  if branch_made l then Some (true, [], []) else git_ok l args.
Example failed_add_blocks_the_next :
  let m := mkPersistedMission id7 (str "fix") (Some (str "topic")) [] false in
  let w := W git_keeps (fun l => negb (Nat.eqb (length (filter (fun e => branch_made [e] = true) l)) 1)) (fun _ => []) in
  let s := sys (start (Holds [m])) in
  let '(r1, s1) := add_project_to_mission w id7 (str "p1") s in
  let '(r2, _) := add_project_to_mission w id7 (str "p1") s1 in
  (is_ok r1, cur s1, r2) = (false, cur s, Err (str "Branch already exists: topic")).
Proof. by vm_compute. Qed.
(** The store cannot be saved again after the first of two projects is removed. *)
Definition second : MissionProject :=
  mkMissionProject (str "p2") (str "mission/00000007") (path_join (path_join home id7) (str "b")).
Definition two : MissionFile := Holds [mkPersistedMission id7 (str "fix") None
  [mkMissionProject (str "p1") (str "mission/00000007") (path_join (path_join home id7) (str "a")); second] false].
Definition renames (l : list event) : nat :=
  length (filter (fun e => match e with Rename _ _ => true | _ => false end = true) l).
Definition once : MissionWorld := W git_ok (fun l => Nat.ltb (renames l) 1) (fun _ => []).
Definition before : MSt := sys (start two).
Definition after : result unit bytes * MSt := delete_mission once [] id7 before.

Example delete_mission_in_order_witness :
  is_ok after.1 = false /\ (mi_projects <$> cur after.2) = [[second]] /\ store_ok once (cur before) /\
  match after.1 with
  | Ok _ => (id7 ∈ mi_id <$> cur before) /\ cur after.2 = filter (fun m => mi_id m <> id7) (cur before)
  | Err _ => cur after.2 = cur before \/
      exists m gone left, find_mission id7 (cur before) = Some m /\ mi_projects m = gone ++ left /\
      cur after.2 = update_mission id7 (set_projects left) (cur before)
  end.
Proof.
  assert (H : store_ok once (cur before)).
  { split; [by apply (bool_decide_unpack (NoDup _)); vm_compute|].
    constructor; [|constructor]. split; [|split; [|done]].
    - by apply (bool_decide_unpack (NoDup _)); vm_compute.
    - constructor; [|constructor; [|constructor]]; (split; [done|by eexists]). }
  split; [by vm_compute|]. split; [by vm_compute|]. split; [exact H|].
  apply (delete_mission_in_order once [] id7 before after.1 after.2 H). unfold after. by destruct (delete_mission _ _ _ _).
Defined.
End MissionsExamples.
