(* ===== verification/ProcessEnv.v ===== *)
(** The environment of subprocesses (grove-core/src/process_env.rs): where PATH and
    SSH_AUTH_SOCK come from when the app was started without a shell. What ps,
    launchctl, the shells and the file system answer is the record [System]. *)

From S2P Require Import Prelude Utf8 Text Paths Remotes.

#[local] Open Scope rust_scope.

(** * Reading *)

Definition normalize_env_value (value : option bytes) : option bytes :=
  v ← value;
  let trimmed := trim v in
  if bool_decide (trimmed = []) then None else Some trimmed.

Fixpoint find_map {A B} (f : A -> option B) (l : list A) : option B :=
  match l with
  | [] => None
  | x :: l => match f x with Some y => Some y | None => find_map f l end
  end.

Definition parse_env_var_from_ps_output (output key : bytes) : option bytes :=
  find_map (strip_prefix (key ++ str "=")) (split_whitespace output) ≫= fun v => normalize_env_value (Some v).

Definition is_posix_like_shell (shell : bytes) : bool :=
  existsb (fun s => bytes_eqb (default [] (file_name shell)) (str s)) ["bash"; "zsh"; "sh"; "dash"; "ksh"]%string.

Definition PATH_MARKER : bytes := str "__GROVE_PATH__".
Definition ENV_MARKER : bytes := str "__GROVE_ENV__".
Definition SHELL_ENV_KEYS : list bytes :=
  str <$> ["PATH"; "SSH_AUTH_SOCK"; "GH_TOKEN_SENDBIRD"; "GH_TOKEN_SENDBIRD_PLAYGROUND"; "GH_TOKEN_RICH_AUTOMATION"]%string.

(** The text between the first line that is the marker and the last. *)
Definition between_markers (marker output : bytes) : option bytes :=
  let start_tag := marker ++ [LF] in
  let end_tag := LF :: marker in
  start ← find start_tag output;
  let start := (start + length start_tag)%nat in
  stop ← rfind end_tag output;
  if Nat.leb stop start then None else Some (take (stop - start) (drop start output)).

Definition parse_path_marker (output : bytes) : option bytes :=
  body ← between_markers PATH_MARKER output;
  let path := trim body in
  if bool_decide (path = []) then None else Some path.

Definition env_line (line : bytes) : option (bytes * bytes) :=
  '(key, value) ← split_once (str "=") line;
  v ← normalize_env_value (Some value);
  Some (key, v).

(** [collect] into a map: of equal keys the last one stays. *)
Definition parse_env_marker_output (output : bytes) : gmap bytes bytes :=
  match between_markers ENV_MARKER output with
  | None => ∅
  | Some body => foldl (fun m e => <[e.1 := e.2]> m) ∅ (omap env_line (str_lines body))
  end.

(** ** The command that prints the environment *)

Definition shell_env_snapshot_command : bytes :=
  let marker := shell_quote ENV_MARKER in
  let keys := join (str " ") (shell_quote <$> SHELL_ENV_KEYS) in
  str "printf '%s\n' " ++ marker ++ str "; for key in " ++ keys ++
  str "; do value=" ++ [34] ++ str "$(/usr/bin/printenv " ++ [34] ++ str "$key" ++ [34] ++
  str " 2>/dev/null || true)" ++ [34] ++ str "; printf '%s=%s\n' " ++ [34] ++ str "$key" ++ [34] ++ str " " ++
  [34] ++ str "$value" ++ [34] ++ str "; done; printf '%s\n' " ++ marker.

(** * Merging *)

Definition merge_entry (merged : list bytes) (entry : bytes) : list bytes :=
  let trimmed := trim entry in
  if bool_decide (trimmed = []) || existsb (fun e => bytes_eqb e trimmed) merged then merged
  else merged ++ [trimmed].

Definition merge_path_candidates (primary secondary : option bytes) : option bytes :=
  let merged := foldl (fun merged candidate => foldl merge_entry merged (split_on 58 candidate)) []
    (omap id [primary; secondary]) in
  if bool_decide (merged = []) then None else Some (join (str ":") merged).

(** * Trying again *)

(** [resolver n] is what the n-th call answers; the second component is the number
    of calls, the third the number of pauses between them. *)
Fixpoint retry_from {T} (n remaining : nat) (resolver : nat -> option T) : option T * nat * nat :=
  match remaining with
  | O => (None, 0, 0)%nat
  | S remaining =>
      match resolver n with
      | Some value => (Some value, 1, 0)%nat
      | None =>
          let '(r, calls, pauses) := retry_from (S n) remaining resolver in
          (r, S calls, match remaining with O => pauses | S _ => S pauses end)
      end
  end.
Definition resolve_with_retry {T} (attempts : nat) (resolver : nat -> option T) : option T * nat * nat :=
  retry_from 0 attempts resolver.

Definition LOGIN_SHELL_TIMEOUT : Z := 2000.
Definition LOGIN_SHELL_COMMAND_TIMEOUT : Z := 15000.
Definition LOGIN_SHELL_RETRY_ATTEMPTS : nat := 4.

(** * Waiting for a shell *)

(** What one turn of the loop sees: [try_wait] failed, the child has ended, or it
    runs and so many milliseconds have passed. *)
Inductive ShellPoll :=
| PollFailed (e : bytes)
| Ended (success : bool) (output : option (bytes * bytes))
| Running (elapsed : Z).
Inductive ShellEffect := KillGroup | KillChild | Reap.

(** [None]: the polls given do not reach the end of the loop. *)
Fixpoint wait_shell (interactive : bool) (polls : list ShellPoll) : option (result bytes bytes * list ShellEffect) :=
  match polls with
  | [] => None
  | PollFailed e :: _ => Some (Err (str "Failed to poll shell: " ++ e), [])
  | Ended _ None :: _ => Some (Err (str "Failed to read shell output"), [])
  | Ended success (Some (out, err)) :: _ =>
      Some (if success then Ok (from_utf8_lossy out) else Err (trim (from_utf8_lossy err)), [])
  | Running elapsed :: polls =>
      if LOGIN_SHELL_COMMAND_TIMEOUT <=? elapsed
      then Some (Err (str (if interactive then "interactive" else "login") ++ str " shell command timed out after 15s"),
                 [KillGroup; KillChild; Reap])
      else wait_shell interactive polls
  end.

(** A shell that was started, or the reason it was not. *)
Definition shell_output (shell : option bytes) (interactive : bool) (started : result (list ShellPoll) bytes) :
    option (result bytes bytes * list ShellEffect) :=
  let shell := default (str "/bin/zsh") shell in
  if negb (is_posix_like_shell shell) then Some (Err (str "Unsupported shell: " ++ shell), [])
  else
    match started with
    | Err e => Some (Err (str "Failed to launch shell: " ++ e), [])
    | Ok polls => wait_shell interactive polls
    end.

(** The login shell that prints PATH: its status does not matter. *)
Fixpoint wait_login_shell (polls : list ShellPoll) : option (option bytes * list ShellEffect) :=
  match polls with
  | [] => None
  | PollFailed _ :: _ => Some (None, [])
  | Ended _ output :: _ =>
      Some (match output ≫= fun o => from_utf8 o.1 with Some out => parse_path_marker out | None => None end, [])
  | Running elapsed :: polls =>
      if LOGIN_SHELL_TIMEOUT <=? elapsed then Some (None, [KillChild; Reap]) else wait_login_shell polls
  end.

Definition resolve_login_shell_path_once (shell : option bytes) (started : option (list ShellPoll)) :
    option (option bytes * list ShellEffect) :=
  match shell with
  | None => Some (None, [])
  | Some shell =>
      if negb (is_posix_like_shell shell) then Some (None, [])
      else match started with None => Some (None, []) | Some polls => wait_login_shell polls end
  end.

(** * The sources *)

Record System := mkSystem {
  macos : bool;
  env_var : bytes -> option bytes;                (* variables that are text *)
  launchctl : bytes -> option (bool * bytes);     (* success and output *)
  ps_parent : Z -> option (bool * bytes);
  ps_environment : Z -> option (bool * bytes);
  process_id : Z;
  login_polls : nat -> option (list ShellPoll);   (* the n-th login shell, if it started *)
  interactive_polls : nat -> result (list ShellPoll) bytes;
  is_socket : bytes -> bool;
  is_directory : bytes -> bool;
  home_dir : option bytes;
  grove_zdotdir : option bytes
}.

Section sources.
Context (y : System).

Definition launchctl_getenv (key : bytes) : option bytes :=
  if macos y then
    '(success, out) ← launchctl y key;
    if (success : bool) then normalize_env_value (Some (from_utf8_lossy out)) else None
  else None.

Definition process_parent_id (pid : Z) : option Z :=
  '(success, out) ← ps_parent y pid;
  if (success : bool) then parse_u32 (trim (from_utf8_lossy out)) else None.
Definition process_env_var (pid : Z) (key : bytes) : option bytes :=
  '(success, out) ← ps_environment y pid;
  if (success : bool) then parse_env_var_from_ps_output (from_utf8_lossy out) key else None.

Fixpoint ancestor_from (n : nat) (pid : Z) (key : bytes) : option bytes :=
  match n with
  | O => None
  | S n =>
      parent ← process_parent_id pid;
      if parent <=? 1 then None
      else match process_env_var parent key with
           | Some value => Some value
           | None => ancestor_from n parent key
           end
  end.
Definition ancestor_process_env_var (key : bytes) : option bytes := ancestor_from 8 (process_id y) key.

Definition well_known_path_suffix : option bytes :=
  let dirs :=
    if macos y then str <$> ["/opt/homebrew/bin"; "/opt/homebrew/sbin"; "/usr/local/bin"; "/usr/local/sbin"]%string
    else [str "/usr/local/bin"] ++
         (match home_dir y with Some h => [path_join h (str ".local/bin")] | None => [] end) ++ [str "/snap/bin"] in
  let dirs := filter (fun d => is_directory y d = true) dirs in
  if bool_decide (dirs = []) then None else Some (join (str ":") dirs).

(** The n-th attempts. A shell that outlasts the polls given has not answered. *)
Definition resolve_interactive_shell_env_once (n : nat) : option (gmap bytes bytes) :=
  match shell_output (env_var y (str "SHELL")) true (interactive_polls y n) with
  | Some (Ok output, _) => Some (parse_env_marker_output output)
  | _ => None
  end.
Definition interactive_shell_env : gmap bytes bytes :=
  default ∅ (resolve_with_retry LOGIN_SHELL_RETRY_ATTEMPTS resolve_interactive_shell_env_once).1.1.
Definition resolve_login_shell_path : option bytes :=
  (resolve_with_retry LOGIN_SHELL_RETRY_ATTEMPTS (fun n =>
     resolve_login_shell_path_once (env_var y (str "SHELL")) (login_polls y n) ≫= fst)).1.1.
End sources.

(** The trait that the diagnostics are written against. *)
Class EnvSourceLookup (L : Type) := {
  lookup_process : L -> bytes -> option bytes;
  lookup_launchctl : L -> bytes -> option bytes;
  lookup_ancestor : L -> bytes -> option bytes;
  lookup_interactive : L -> bytes -> option bytes;
  lookup_login_path : L -> option bytes;
  lookup_well_known : L -> option bytes
}.
#[export] Instance SystemEnvSourceLookup : EnvSourceLookup System := {|
  lookup_process := env_var;
  lookup_launchctl := launchctl_getenv;
  lookup_ancestor := ancestor_process_env_var;
  lookup_interactive y key := interactive_shell_env y !! key;
  lookup_login_path := resolve_login_shell_path;
  lookup_well_known := well_known_path_suffix
|}.

Inductive EnvValueSource := Process | Launchctl | AncestorProcess | InteractiveShell.
#[export] Instance EnvValueSource_eq_dec : EqDecision EnvValueSource.
Proof. solve_decision. Defined.

Record EnvSourceSnapshot := mkEnvSourceSnapshot {
  process_env : option bytes;
  launchctl_env : option bytes;
  ancestor_process_env : option bytes;
  interactive_shell_value : option bytes;
  login_shell_env : option bytes;
  well_known_dirs : option bytes
}.
Record PathDiagnostics := mkPathDiagnostics {
  pd_process_env : option bytes;
  pd_interactive_shell_env : option bytes;
  pd_login_shell_env : option bytes;
  preferred_env_source : option EnvValueSource;
  preferred_env_value : option bytes;
  merged_base_value : bytes;
  final_value : bytes
}.
Record SshAuthSockDiagnostics := mkSshAuthSockDiagnostics {
  sd_process_env : option bytes;
  sd_launchctl_env : option bytes;
  sd_ancestor_process_env : option bytes;
  sd_interactive_shell_env : option bytes;
  selected_source : option EnvValueSource;
  selected_value : option bytes
}.
Record ProcessEnvDiagnostics := mkProcessEnvDiagnostics {
  pe_shell : option bytes;
  pe_zdotdir : option bytes;
  pe_grove_zdotdir : option bytes;
  pe_path : PathDiagnostics;
  pe_ssh_auth_sock : SshAuthSockDiagnostics;
  subprocess_env : list (bytes * bytes)
}.

Definition preferred_env_var_selection (s : EnvSourceSnapshot) : option (EnvValueSource * bytes) :=
  match process_env s with
  | Some v => Some (Process, v)
  | None => pair InteractiveShell <$> interactive_shell_value s
  end.

Definition merged_path_value (s : EnvSourceSnapshot) : option bytes :=
  let merged := merge_path_candidates (process_env s) (interactive_shell_value s) in
  let merged := merge_path_candidates merged (login_shell_env s) in
  merge_path_candidates merged (well_known_dirs s).

Definition build_enriched_path (home : option bytes) (base : bytes) : bytes :=
  match home with
  | Some h => path_join h (str ".grove/bin") ++ str ":" ++ base
  | None => base
  end.

Section diagnostics.
Context {L : Type} `{EnvSourceLookup L} (y : System) (lookup : L).

Definition collect_env_snapshot (key : bytes)
    (include_launchctl include_ancestor include_interactive_shell include_login_shell : bool) : EnvSourceSnapshot :=
  mkEnvSourceSnapshot
    (normalize_env_value (lookup_process lookup key))
    (if include_launchctl then lookup_launchctl lookup key else None)
    (if include_ancestor then lookup_ancestor lookup key else None)
    (if include_interactive_shell then lookup_interactive lookup key else None)
    (if include_login_shell then lookup_login_path lookup else None)
    (lookup_well_known lookup).

Definition preferred_env_var (key : bytes) : option bytes :=
  snd <$> preferred_env_var_selection (collect_env_snapshot key false false true false).

Definition validated_shell_ssh_auth_sock (value : option bytes) : option bytes :=
  v ← normalize_env_value value; if is_socket y v then Some v else None.

Definition preferred_ssh_auth_sock_selection (s : EnvSourceSnapshot) : option (EnvValueSource * bytes) :=
  match process_env s, launchctl_env s, validated_shell_ssh_auth_sock (ancestor_process_env s) with
  | Some v, _, _ => Some (Process, v)
  | None, Some v, _ => Some (Launchctl, v)
  | None, None, Some v => Some (AncestorProcess, v)
  | None, None, None => pair InteractiveShell <$> validated_shell_ssh_auth_sock (interactive_shell_value s)
  end.

Definition ssh_snapshot : EnvSourceSnapshot := collect_env_snapshot (str "SSH_AUTH_SOCK") true true true false.
Definition preferred_ssh_auth_sock : option bytes := snd <$> preferred_ssh_auth_sock_selection ssh_snapshot.

Definition path_diagnostics : PathDiagnostics :=
  let snapshot := collect_env_snapshot (str "PATH") false false true true in
  let preferred := preferred_env_var_selection snapshot in
  let merged := default (default [] (env_var y (str "PATH"))) (merged_path_value snapshot) in
  mkPathDiagnostics (process_env snapshot) (interactive_shell_value snapshot) (login_shell_env snapshot)
    (fst <$> preferred) (snd <$> preferred) merged (build_enriched_path (home_dir y) merged).

Definition ssh_auth_sock_diagnostics : SshAuthSockDiagnostics :=
  let selected := preferred_ssh_auth_sock_selection ssh_snapshot in
  mkSshAuthSockDiagnostics (process_env ssh_snapshot) (launchctl_env ssh_snapshot) (ancestor_process_env ssh_snapshot)
    (interactive_shell_value ssh_snapshot) (fst <$> selected) (snd <$> selected).

Definition enriched_path : bytes := final_value path_diagnostics.
Definition subprocess_env_pairs : list (bytes * bytes) :=
  [(str "PATH", enriched_path)] ++
  match preferred_ssh_auth_sock with Some v => [(str "SSH_AUTH_SOCK", v)] | None => [] end.

Definition process_env_diagnostics : ProcessEnvDiagnostics :=
  let path := path_diagnostics in
  let ssh := ssh_auth_sock_diagnostics in
  mkProcessEnvDiagnostics (normalize_env_value (env_var y (str "SHELL"))) (normalize_env_value (env_var y (str "ZDOTDIR")))
    (grove_zdotdir y) path ssh
    ([(str "PATH", final_value path)] ++
     match selected_value ssh with Some v => [(str "SSH_AUTH_SOCK", v)] | None => [] end).
End diagnostics.

(** [GROVE_REAL_ZDOTDIR]: the user's own, unless it is Grove's. *)
Definition grove_real_zdotdir (y : System) : bytes :=
  let real := default [] (env_var y (str "ZDOTDIR")) in
  if negb (bool_decide (real = [])) && negb (bool_decide (grove_zdotdir y = Some real)) then real
  else default [] (home_dir y).
Record ShellCommand := mkShellCommand { sc_program : bytes; sc_args : list bytes; sc_env : list (bytes * bytes) }.
Definition shell_command (y : System) (shell : bytes) (interactive : bool) (command : bytes) : ShellCommand :=
  if interactive then
    mkShellCommand shell [str "-i"; str "-c"; command]
      (match grove_zdotdir y with
       | Some z => [(str "GROVE_REAL_ZDOTDIR", grove_real_zdotdir y); (str "ZDOTDIR", z)]
       | None => []
       end)
  else mkShellCommand shell [str "-l"; str "-c"; command] [].

(** * PATH is the union of its sources *)

(** The entries of a source, and the list without later repetitions. *)
Definition entries (p : bytes) : list bytes := filter (fun e => e <> []) (trim <$> split_on 58 p).
Definition sources (l : list (option bytes)) : list bytes := concat (entries <$> omap id l).
Fixpoint first_occurrences (l : list bytes) : list bytes :=
  match l with
  | [] => []
  | x :: l => x :: filter (fun e => e <> x) (first_occurrences l)
  end.

Lemma elem_of_first x l : x ∈ first_occurrences l <-> x ∈ l.
Proof.
  induction l as [|y l IH]; [done|]. cbn [first_occurrences]. rewrite !elem_of_cons, list_elem_of_filter, IH.
  destruct (decide (x = y)); intuition.
Qed.

Lemma first_NoDup l : NoDup (first_occurrences l).
Proof.
  induction l as [|x l IH]; cbn [first_occurrences]; constructor.
  - rewrite list_elem_of_filter. by intros [? _].
  - by apply NoDup_filter.
Qed.

Lemma filter_first (P : bytes -> Prop) `{forall x, Decision (P x)} l :
  filter P (first_occurrences l) = first_occurrences (filter P l).
Proof.
  induction l as [|x l IH]; [done|]. cbn [first_occurrences]. destruct (decide (P x)) as [Hx|Hx].
  - rewrite !filter_cons_True by done. cbn [first_occurrences]. f_equal. rewrite <- IH.
    rewrite !list_filter_filter. apply list_filter_iff. intros y. tauto.
  - rewrite !filter_cons_False by done. rewrite <- IH. rewrite list_filter_filter. apply list_filter_iff.
    intros y. split; [tauto|]. intros Hy. split; [done|]. by intros ->.
Qed.

Lemma first_app a b : first_occurrences (first_occurrences a ++ b) = first_occurrences (a ++ b).
Proof.
  induction a as [|x a IH]; [done|]. cbn [first_occurrences app]. f_equal.
  rewrite <- IH, !(filter_first _ (_ ++ _)), !filter_app. f_equal. f_equal. rewrite list_filter_filter. apply list_filter_iff. tauto.
Qed.

Definition valid (es : list bytes) : list bytes := filter (fun e => e <> []) (trim <$> es).

Lemma merge_entries acc es :
  foldl merge_entry acc es = acc ++ filter (fun e => e ∉ acc) (first_occurrences (valid es)).
Proof.
  revert acc. induction es as [|x es IH]; intros acc; [by rewrite app_nil_r|]. cbn [foldl]. rewrite IH. clear IH.
  unfold merge_entry, valid. rewrite fmap_cons. destruct (bool_decide_reflect (trim x = [])) as [E|E]; cbn [orb].
  - by rewrite filter_cons_False by (rewrite E; auto).
  - rewrite filter_cons_True by done. cbn [first_occurrences]. set (t := trim x). fold t in E.
    destruct (existsb (fun e => bytes_eqb e t) acc) eqn:Ee.
    + apply (existsb_id id) in Ee. rewrite list_fmap_id in Ee.
      rewrite filter_cons_False by auto. rewrite list_filter_filter. f_equal. apply list_filter_iff.
      intros y. split; [intros Hy; split; [done|by intros ->]|tauto].
    + apply (existsb_id_false id) in Ee. rewrite list_fmap_id in Ee.
      rewrite filter_cons_True by done. rewrite <- app_assoc. cbn. f_equal. f_equal.
      rewrite list_filter_filter. apply list_filter_iff. intros y. rewrite elem_of_app, list_elem_of_singleton. tauto.
Qed.

Lemma merge_sources acc cs :
  foldl (fun merged candidate => foldl merge_entry merged (split_on 58 candidate)) (first_occurrences acc) cs =
  first_occurrences (acc ++ concat (entries <$> cs)).
Proof.
  revert acc. induction cs as [|c cs IH]; intros acc; [by rewrite app_nil_r|]. cbn [foldl fmap list_fmap concat].
  rewrite merge_entries. change (valid (split_on 58 c)) with (entries c).
  assert (forall l, first_occurrences acc ++ filter (fun e => e ∉ first_occurrences acc) (first_occurrences l) =
    first_occurrences (acc ++ l)) as Hm.
  { intros l. induction acc as [|x acc IHa]; [apply filter_all, Forall_forall; intros ? ? ?%elem_of_nil; done|].
    cbn [first_occurrences app]. f_equal. rewrite <- IHa, filter_app. f_equal.
    rewrite list_filter_filter. apply list_filter_iff. intros y. rewrite elem_of_cons, list_elem_of_filter.
    destruct (decide (y = x)); tauto. }
  rewrite Hm, IH. by rewrite <- app_assoc.
Qed.

Definition path_of (es : list bytes) : option bytes :=
  if bool_decide (es = []) then None else Some (join (str ":") es).

Lemma merge_is_union a b : merge_path_candidates a b = path_of (first_occurrences (sources [a; b])).
Proof. unfold merge_path_candidates, path_of, sources. by rewrite (merge_sources [] (omap id [a; b])). Qed.

(** An entry that a source can have. *)
Definition entry_ok (e : bytes) : Prop := e <> [] /\ trim e = e /\ 58 ∉ e.

Lemma elem_of_trim b s : b ∈ trim s -> b ∈ s.
Proof.
  unfold trim. destruct (strip_while_suffix ws_head (length s) s) as [p Hp].
  set (t := strip_while ws_head (length s) s) in *. rewrite Hp, elem_of_app.
  destruct (strip_while_suffix ws_last (length t) (rev t)) as [q Hq]. intros Hb. right.
  rewrite <- (rev_involutive t), Hq. rewrite list_elem_of_In, <- in_rev in *. apply in_app_iff. by right.
Qed.

Lemma entries_ok p : Forall entry_ok (entries p).
Proof.
  apply Forall_forall. intros e [Hne (x & -> & Hx)%list_elem_of_fmap]%list_elem_of_filter.
  split; [done|]. split; [apply trim_idemp|]. intros Hb%elem_of_trim.
  pose proof (split_on_pieces 58 p) as Hp. rewrite Forall_forall in Hp. by apply (Hp x).
Qed.

Lemma sources_ok l : Forall entry_ok (first_occurrences (sources l)).
Proof.
  apply Forall_forall. intros e He. rewrite elem_of_first in He. unfold sources in He. apply list_elem_of_In, in_concat in He.
  destruct He as (es & Hes & He). apply list_elem_of_In, list_elem_of_fmap in Hes as (p & -> & _).
  apply list_elem_of_In in He. pose proof (entries_ok p) as Hp. rewrite Forall_forall in Hp. by apply Hp.
Qed.

Lemma split_joined es : es <> [] -> Forall entry_ok es -> split_on 58 (join (str ":") es) = es.
Proof. intros Hne Hok. apply (split_join 58); [done|]. eapply Forall_impl; [exact Hok|]. by intros e (_ & _ & He). Qed.

Lemma entries_joined es : es <> [] -> Forall entry_ok es -> entries (join (str ":") es) = es.
Proof.
  intros Hne Hok. unfold entries. rewrite split_joined by done. clear Hne.
  induction Hok as [|e es (H1 & H2 & _) Hok IH]; [done|]. rewrite fmap_cons, H2, filter_cons_True by done. by f_equal.
Qed.

Lemma sources_cons a l : sources (a :: l) = sources [a] ++ sources l.
Proof. unfold sources. destruct a as [p|]; [|done]. cbn. by rewrite app_nil_r. Qed.

Lemma sources_path es : Forall entry_ok es -> sources [path_of es] = es.
Proof.
  intros Hok. unfold sources, path_of. destruct (bool_decide_reflect (es = [])) as [->|Hne]; [done|].
  cbn. by rewrite entries_joined, app_nil_r.
Qed.

Lemma merge_nested l b : merge_path_candidates (path_of (first_occurrences (sources l))) b = path_of (first_occurrences (sources (l ++ [b]))).
Proof.
  rewrite merge_is_union. f_equal. rewrite sources_cons, sources_path by apply sources_ok. rewrite first_app. f_equal.
  induction l as [|a l IH]; [done|]. cbn [app]. rewrite (sources_cons a l), (sources_cons a (l ++ [b])), <- app_assoc. by f_equal.
Qed.

(** The PATH of subprocesses is made of the entries of the process, of the
    interactive shell, of the login shell and of the well-known directories, in
    this order, each trimmed and once, at its first place, and no empty entry; it
    is missing only if no source has an entry. *)
Theorem path_is_union s :
  let all := sources [process_env s; interactive_shell_value s; login_shell_env s; well_known_dirs s] in
  merged_path_value s = path_of (first_occurrences all) /\
  (merged_path_value s = None <-> all = []) /\
  (forall p, merged_path_value s = Some p ->
     split_on 58 p = first_occurrences all /\ NoDup (split_on 58 p) /\ Forall entry_ok (split_on 58 p)).
Proof.
  intros all.
  assert (E : merged_path_value s = path_of (first_occurrences all)).
  { unfold merged_path_value. rewrite (merge_is_union (process_env s)).
    by rewrite !merge_nested. }
  split; [done|]. rewrite E. unfold path_of. split.
  - destruct (bool_decide_reflect (first_occurrences all = [])) as [H|H]; (split; [|]); try done.
    + intros _. by destruct all.
    + intros Ha. by rewrite Ha in H.
  - intros p. destruct (bool_decide_reflect (first_occurrences all = [])) as [|H]; [done|]. intros [= <-].
    pose proof (sources_ok [process_env s; interactive_shell_value s; login_shell_env s; well_known_dirs s]) as Hok.
    rewrite split_joined by done. split; [done|]. split; [apply first_NoDup|done].
Qed.

(** * Markers *)

(** No proper suffix of the pattern is a prefix of it. *)
Definition border_free (p : bytes) : bool :=
  forallb (fun k => negb (starts_with (drop k p) p)) (seq 1 (length p - 1)).

Lemma border_free_spec p k : border_free p = true -> (0 < k < length p)%nat -> starts_with (drop k p) p = false.
Proof.
  unfold border_free. rewrite forallb_forall. intros H Hk. apply negb_true_iff, H, in_seq. lia.
Qed.

Lemma overlap_border p k r :
  (0 < k < length p)%nat -> starts_with p (drop k p ++ r) = true -> starts_with (drop k p) p = true.
Proof.
  intros Hk [t Ht]%starts_with_iff. apply starts_with_iff. exists (drop (length p - k) p).
  rewrite <- (take_drop (length p - k) p) at 1. f_equal.
  apply (f_equal (take (length p - k))) in Ht.
  rewrite take_app_le in Ht by (rewrite length_drop; lia). rewrite take_app_le in Ht by lia.
  rewrite <- Ht. by rewrite take_ge by (rewrite length_drop; lia).
Qed.

Lemma no_early p a r k :
  border_free p = true -> contains p a = false -> (k < length a)%nat -> starts_with p (drop k a ++ p ++ r) = false.
Proof.
  intros Hb Hc Hk. destruct (starts_with p (drop k a ++ p ++ r)) eqn:E; [|done]. exfalso.
  apply starts_with_iff in E as [t Ht]. set (d := drop k a) in *.
  assert (Hd : (0 < length d)%nat) by (unfold d; rewrite length_drop; lia).
  destruct (decide (length p <= length d)%nat) as [Hl|Hl].
  - apply (f_equal (take (length p))) in Ht. rewrite take_app_le in Ht by done. rewrite take_app_length in Ht.
    assert (contains p a = true); [|congruence]. apply contains_iff. exists (take k a), (drop (length p) d).
    rewrite <- Ht at 1. rewrite take_drop. unfold d. by rewrite take_drop.
  - assert (Hp : drop (length d) p ++ t = p ++ r).
    { apply (f_equal (drop (length d))) in Ht. rewrite drop_app_length in Ht. rewrite Ht.
      by rewrite drop_app_le by lia. }
    assert (starts_with (drop (length d) p) p = true); [|rewrite border_free_spec in *; [done|done|lia]].
    apply starts_with_iff. exists (drop (length p - length d) p).
    rewrite <- (take_drop (length p - length d) p) at 1. f_equal.
    apply (f_equal (take (length p - length d))) in Hp. rewrite take_app_le in Hp by (rewrite length_drop; lia).
    rewrite take_app_le in Hp by lia. rewrite <- Hp. by rewrite take_ge by (rewrite length_drop; lia).
Qed.

Lemma no_late p r k :
  border_free p = true -> contains p r = false -> (0 < k)%nat -> starts_with p (drop k (p ++ r)) = false.
Proof.
  intros Hb Hc Hk. destruct (starts_with p (drop k (p ++ r))) eqn:E; [|done]. exfalso.
  destruct (decide (k < length p)%nat) as [Hl|Hl].
  - rewrite drop_app_le in E by lia. apply overlap_border in E; [|lia]. by rewrite border_free_spec in E.
  - rewrite drop_app_ge in E by lia. apply starts_with_iff in E as [t Ht].
    assert (contains p r = true); [|congruence]. apply contains_iff. exists (take (k - length p) r), t.
    by rewrite <- Ht, take_drop.
Qed.

Lemma find_at p a r : p <> [] -> border_free p = true -> contains p a = false -> find p (a ++ p ++ r) = Some (length a).
Proof.
  intros Hp Hb Hc.
  assert (Hk : forall k, (k < length a)%nat -> starts_with p (drop k a ++ p ++ r) = false) by (intros; by apply no_early).
  clear Hc. induction a as [|x a IH].
  - destruct p as [|c p]; [done|]. cbn [app find length]. change (c :: p ++ r) with ((c :: p) ++ r). by rewrite starts_with_app.
  - cbn [app find length]. pose proof (Hk 0%nat ltac:(cbn; lia)) as H0. cbn [drop app] in H0. rewrite H0.
    rewrite IH; [done|]. intros k Hl. apply (Hk (S k)). cbn. lia.
Qed.

Lemma rfind_none p s : (forall k, starts_with p (drop k s) = false) -> rfind p s = None.
Proof.
  induction s as [|x s IH]; intros H; pose proof (H 0%nat) as H0; cbn [drop] in H0; cbn [rfind]; [by rewrite H0|].
  rewrite IH by (intros k; apply (H (S k))). by rewrite H0.
Qed.

Lemma rfind_at p a r : p <> [] -> border_free p = true -> contains p r = false -> rfind p (a ++ p ++ r) = Some (length a).
Proof.
  intros Hp Hb Hc. induction a as [|x a IH]; [|cbn [app rfind length]; by rewrite IH].
  destruct p as [|c p]; [done|]. cbn [app rfind length].
  rewrite rfind_none; [change (c :: p ++ r) with ((c :: p) ++ r); by rewrite starts_with_app|].
  intros k. apply (no_late (c :: p) r (S k)); [done|done|lia].
Qed.

Lemma between_at marker noise body rest :
  border_free (marker ++ [LF]) = true -> border_free (LF :: marker) = true ->
  contains (marker ++ [LF]) noise = false -> contains (LF :: marker) rest = false -> body <> [] ->
  between_markers marker (noise ++ (marker ++ [LF]) ++ body ++ (LF :: marker) ++ rest) = Some body.
Proof.
  intros H1 H2 Hn Hr Hb. unfold between_markers. rewrite find_at by (done || by destruct marker). cbn [mbind option_bind].
  set (n := (length noise + length (marker ++ [LF]))%nat).
  assert (E : noise ++ (marker ++ [LF]) ++ body ++ (LF :: marker) ++ rest =
    ((noise ++ marker ++ [LF]) ++ body) ++ (LF :: marker) ++ rest) by by rewrite <- !app_assoc.
  rewrite E at 1. rewrite rfind_at by done. cbn [mbind option_bind].
  assert (Hl : length ((noise ++ marker ++ [LF]) ++ body) = (n + length body)%nat) by (rewrite !length_app; unfold n; rewrite length_app; lia).
  rewrite Hl. destruct (Nat.leb_spec (n + length body) n) as [H|_]; [destruct body; [done|cbn in H; lia]|].
  rewrite E, <- !app_assoc. rewrite (app_assoc noise marker), (app_assoc (noise ++ marker)).
  rewrite drop_app_length' by (unfold n; rewrite !length_app; lia).
  by rewrite take_app_length' by lia.
Qed.

(** ** What the snapshot command prints is read back *)

Definition env_text (kvs : list (bytes * bytes)) : list bytes := (fun e => e.1 ++ str "=" ++ e.2) <$> kvs.
Definition snapshot_output (noise : bytes) (kvs : list (bytes * bytes)) (rest : bytes) : bytes :=
  noise ++ (ENV_MARKER ++ [LF]) ++ join [LF] (env_text kvs) ++ (LF :: ENV_MARKER) ++ rest.
Definition printable (e : bytes * bytes) : Prop :=
  (61 ∉ e.1) /\ (LF ∉ e.1) /\ (LF ∉ e.2) /\ last (e.1 ++ str "=" ++ e.2) <> Some 13.

Lemma str_lines_join ls :
  Forall (fun l => (LF ∉ l) /\ last l <> Some 13 /\ l <> []) ls -> str_lines (join [LF] ls) = ls.
Proof.
  intros Hl. destruct (decide (ls = [])) as [->|Hne]; [done|]. unfold str_lines.
  rewrite split_join; [|done|by eapply Forall_impl; [exact Hl|intros l (H & _)]].
  rewrite filter_all; [|apply Forall_drop; eapply Forall_impl; [exact Hl|intros l (_ & _ & H); exact H]].
  transitivity (take (length ls - 1) ls ++ drop (length ls - 1) ls); [|apply take_drop]. f_equal.
  rewrite <- (list_fmap_id (take (length ls - 1) ls)) at 2. apply list_fmap_ext. intros i l Hi. unfold strip_cr. rewrite bool_decide_eq_false_2; [done|].
  rewrite Forall_forall in Hl. apply Hl. apply list_elem_of_lookup_2 in Hi. by eapply elem_of_take in Hi as (? & ?%list_elem_of_lookup_2 & _).
Qed.

Lemma env_line_text k v : 61 ∉ k -> env_line (k ++ str "=" ++ v) = pair k <$> normalize_env_value (Some v).
Proof.
  intros Hk. unfold env_line. change (str "=") with [61]. cbn [app]. rewrite split_once_first by done.
  cbn [mbind option_bind]. by destruct (normalize_env_value (Some v)).
Qed.

Lemma foldl_insert_lookup (l : list (bytes * bytes)) (m : gmap bytes bytes) k :
  NoDup l.*1 -> foldl (fun m e => <[e.1 := e.2]> m) m l !! k =
    match list_find (fun e => e.1 = k) l with Some (_, e) => Some e.2 | None => m !! k end.
Proof.
  revert m. induction l as [|[k' v] l IH]; intros m; [done|]. rewrite fmap_cons. intros [Hk Hl]%NoDup_cons.
  cbn [foldl list_find fst snd]. rewrite IH by done. destruct (decide (k' = k)) as [->|Hne].
  - destruct (list_find _ l) as [[i e]|] eqn:E; [|by rewrite lookup_insert_eq].
    apply list_find_Some in E as (Hi & Ek & _). destruct Hk. apply list_elem_of_fmap. exists e.
    split; [done|]. by eapply list_elem_of_lookup_2.
  - destruct (list_find _ l) as [[i e]|]; [done|]. by rewrite lookup_insert_ne.
Qed.

Lemma NoDup_fmap_fst_unique (l : list (bytes * bytes)) k v v' : NoDup l.*1 -> (k, v) ∈ l -> (k, v') ∈ l -> v = v'.
Proof.
  intros Hnd (i & Hi)%list_elem_of_lookup (j & Hj)%list_elem_of_lookup.
  assert (i = j) as ->; [|congruence]. eapply NoDup_lookup; [exact Hnd|..]; rewrite list_lookup_fmap.
  - by rewrite Hi.
  - by rewrite Hj.
Qed.

(** The output of the command that prints the environment is read back,
    whatever the user's start-up files print before and after it: each variable
    has its value, trimmed, if that is not blank, and there are no others. *)
Theorem snapshot_is_read_back noise kvs rest :
  contains (ENV_MARKER ++ [LF]) noise = false -> contains (LF :: ENV_MARKER) rest = false ->
  kvs <> [] -> NoDup kvs.*1 -> Forall printable kvs ->
  let env := parse_env_marker_output (snapshot_output noise kvs rest) in
  (forall k v, (k, v) ∈ kvs -> env !! k = normalize_env_value (Some v)) /\
  (forall k, k ∉ kvs.*1 -> env !! k = None).
Proof.
  intros Hn Hr Hne Hnd Hp env.
  assert (Hb : join [LF] (env_text kvs) <> []).
  { destruct kvs as [|[k v] [|e kvs]]; [done|by destruct k|]. cbn. by destruct k. }
  assert (E : env = foldl (fun m e => <[e.1 := e.2]> m) ∅ (omap (fun e => pair e.1 <$> normalize_env_value (Some e.2)) kvs)).
  { unfold env, parse_env_marker_output, snapshot_output. rewrite between_at by done.
    rewrite str_lines_join.
    - f_equal. unfold env_text. clear -Hp. induction Hp as [|[k v] kvs (H & _) Hp IH]; [done|]. cbn [fmap list_fmap omap list_omap fst snd] in IH |- *.
      rewrite env_line_text by done. cbn [fst snd]. destruct (normalize_env_value (Some v)); cbn [fmap option_fmap option_map]; by rewrite IH.
    - apply Forall_fmap. eapply Forall_impl; [exact Hp|]. intros [k v] (H1 & H2 & H3 & H4). cbn [fst snd] in *.
      split; [|split; [done|by destruct k]]. rewrite !elem_of_app. change (str "=") with [61]. rewrite list_elem_of_singleton.
      unfold LF. intuition congruence. }
  assert (Hnd' : NoDup (omap (fun e : bytes * bytes => pair e.1 <$> normalize_env_value (Some e.2)) kvs).*1).
  { clear -Hnd. induction kvs as [|[k v] kvs IH]; [constructor|]. rewrite fmap_cons in Hnd. apply NoDup_cons in Hnd as [Hk Hnd].
    cbn [omap list_omap fst snd]. destruct (normalize_env_value (Some v)) as [t|]; [|by apply IH].
    change (NoDup (k :: (omap (fun e : bytes * bytes => pair e.1 <$> normalize_env_value (Some e.2)) kvs).*1)).
    constructor; [|by apply IH]. intros (e & Ee & (e' & He' & E')%list_elem_of_omap)%list_elem_of_fmap. apply Hk.
    apply list_elem_of_fmap. exists e'. split; [|done]. destruct (normalize_env_value (Some e'.2)); cbn in E'; [|discriminate E'].
    injection E' as <-. done. }
  assert (Hfind : forall k, env !! k = None \/ exists v, (k, v) ∈ kvs /\ env !! k = normalize_env_value (Some v) /\ is_Some (env !! k)).
  { intros k. rewrite E, foldl_insert_lookup by done. destruct (list_find _ _) as [[i [k' t]]|] eqn:Ef; [right|by left].
    apply list_find_Some in Ef as (Hi & Ek & _). cbn in Ek. subst k'. apply list_elem_of_lookup_2, list_elem_of_omap in Hi.
    destruct Hi as ([k' v] & Hkv & Et). cbv beta in Et. cbn [fst snd] in Et. destruct (normalize_env_value (Some v)) eqn:En; [|done].
    injection Et as -> ->. exists v. by rewrite En. }
  split.
  - intros k v Hk. destruct (Hfind k) as [Hnone|(v' & Hv' & Hs & _)].
    + rewrite Hnone. destruct (normalize_env_value (Some v)) as [t|] eqn:En; [|done]. exfalso.
      rewrite E, foldl_insert_lookup in Hnone by done.
      destruct (list_find _ _) as [[i e]|] eqn:Ef; [done|]. apply list_find_None in Ef. rewrite Forall_forall in Ef.
      apply (Ef (k, t)); [|done]. apply list_elem_of_omap. exists (k, v). cbn [fst snd]. by rewrite En.
    + rewrite Hs. f_equal. f_equal. apply (NoDup_fmap_fst_unique kvs k); done.
  - intros k Hk. destruct (Hfind k) as [|(v & Hv & _)]; [done|]. destruct Hk. apply list_elem_of_fmap. by exists (k, v).
Qed.

(** * Retries and waits *)

(** The first answer among the attempts, with the calls it took and one pause
    between two of them. *)
Lemma retry_spec {T} attempts (resolver : nat -> option T) r calls pauses :
  resolve_with_retry attempts resolver = (r, calls, pauses) ->
  match r with
  | Some v => exists k, (k < attempts)%nat /\ resolver k = Some v /\ (forall j, (j < k)%nat -> resolver j = None) /\
      calls = S k /\ pauses = k
  | None => (forall j, (j < attempts)%nat -> resolver j = None) /\ calls = attempts /\ pauses = (attempts - 1)%nat
  end.
Proof.
  unfold resolve_with_retry.
  assert (Hg : forall m n, retry_from n m resolver = (r, calls, pauses) ->
    match r with
    | Some v => exists k, (k < m)%nat /\ resolver (n + k)%nat = Some v /\
        (forall j, (j < k)%nat -> resolver (n + j)%nat = None) /\ calls = S k /\ pauses = k
    | None => (forall j, (j < m)%nat -> resolver (n + j)%nat = None) /\ calls = m /\ pauses = (m - 1)%nat
    end); [|by apply (Hg attempts 0%nat)].
  intros m. revert r calls pauses. induction m as [|m IH]; intros r calls pauses n; cbn [retry_from].
  - intros [= <- <- <-]. split; [intros; lia|done].
  - destruct (resolver n) as [v|] eqn:E.
    { intros [= <- <- <-]. exists 0%nat. rewrite Nat.add_0_r. split; [lia|]. split; [done|]. split; [intros; lia|done]. }
    destruct (retry_from (S n) m resolver) as [[r' c'] p'] eqn:Er. intros [= <- <- <-].
    apply IH in Er. destruct r' as [v|].
    + destruct Er as (k & Hk & Hv & Hj & -> & ->). exists (S k). replace (n + S k)%nat with (S n + k)%nat by lia.
      split; [lia|]. split; [done|]. split; [|split; [done|by destruct m; [lia|]]].
      intros [|j] Hl; [by rewrite Nat.add_0_r|]. replace (n + S j)%nat with (S n + j)%nat by lia. apply Hj. lia.
    + destruct Er as (Hj & -> & ->). split; [|split; [done|destruct m; lia]].
      intros [|j] Hl; [by rewrite Nat.add_0_r|]. replace (n + S j)%nat with (S n + j)%nat by lia. apply Hj. lia.
Qed.

(** A shell that does not end is killed with its group once its time is up. *)
Lemma wait_shell_ends interactive before t after :
  Forall (fun p => match p with Running e => e < LOGIN_SHELL_COMMAND_TIMEOUT | _ => False end) before ->
  LOGIN_SHELL_COMMAND_TIMEOUT <= t ->
  exists e, wait_shell interactive (before ++ Running t :: after) = Some (Err e, [KillGroup; KillChild; Reap]).
Proof.
  intros Hb Ht. induction Hb as [|p before Hp Hb IH]; cbn [app wait_shell].
  - rewrite (proj2 (Z.leb_le _ _)) by done. eauto.
  - destruct p; [done..|]. by rewrite (proj2 (Z.leb_gt _ _)).
Qed.

(** And nothing is killed that ended, or is killed before its time is up. *)
Lemma wait_shell_kills interactive polls r effects :
  wait_shell interactive polls = Some (r, effects) -> effects <> [] ->
  exists before t after, polls = before ++ Running t :: after /\ LOGIN_SHELL_COMMAND_TIMEOUT <= t /\
    Forall (fun p => match p with Running _ => True | _ => False end) before.
Proof.
  induction polls as [|p polls IH]; [done|]. cbn [wait_shell].
  destruct p as [e|s [[o e]|]|t]; try (intros [= <- <-]; done).
  destruct (Z.leb_spec LOGIN_SHELL_COMMAND_TIMEOUT t) as [Ht|Ht]; intros E He.
  - exists [], t, polls. split; [done|]. split; [done|constructor].
  - destruct (IH E He) as (b & t' & a & -> & Ht' & Hb). exists (Running t :: b), t', a.
    split; [done|]. split; [done|by constructor].
Qed.

(** * Which agent is trusted *)

(** The chain of parents of a process, none of them the first. *)
Inductive ancestor (y : System) (pid : Z) : nat -> Z -> Prop :=
| ancestor_parent p : process_parent_id y pid = Some p -> 1 < p -> ancestor y pid 1 p
| ancestor_step n q p : ancestor y pid n q -> process_parent_id y q = Some p -> 1 < p -> ancestor y pid (S n) p.

Lemma ancestor_from_spec y n pid key v :
  ancestor_from y n pid key = Some v ->
  exists k p, (k <= n)%nat /\ ancestor y pid k p /\ process_env_var y p key = Some v /\
    forall j q, (j < k)%nat -> ancestor y pid j q -> process_env_var y q key = None.
Proof.
  assert (Hcons : forall pid p q k, process_parent_id y pid = Some p -> 1 < p -> ancestor y p k q -> ancestor y pid (S k) q).
  { intros pid0 p0 q0 k0 Hp H1 Ha. induction Ha; [eapply ancestor_step; [by apply ancestor_parent|done..]|by eapply ancestor_step]. }
  assert (Hinv : forall pid p q k, process_parent_id y pid = Some p -> ancestor y pid (S (S k)) q -> ancestor y p (S k) q).
  { intros pid0 p0 q0 k0 Hp. revert q0. induction k0 as [|k0 IH]; intros q0 Ha; inversion Ha as [|n0 q' p' Hq Hp' H1]; subst.
    - inversion Hq as [p2 Hp2 H2|? ? ? Hz]; subst; [|by inversion Hz]. apply ancestor_parent; congruence.
    - eapply ancestor_step; [by apply IH|done..]. }
  revert pid. induction n as [|n IH]; intros pid; cbn [ancestor_from]; [done|].
  destruct (process_parent_id y pid) as [p|] eqn:Ep; [|done]. cbn [mbind option_bind].
  destruct (Z.leb_spec p 1) as [|H1]; [done|]. destruct (process_env_var y p key) as [v'|] eqn:Ev.
  - intros [= ->]. exists 1%nat, p. split; [lia|]. split; [by apply ancestor_parent|]. split; [done|].
    intros j q Hj Ha. assert (j = 0%nat) as -> by lia. inversion Ha.
  - intros H. destruct (IH p H) as (k & q & Hk & Ha & Hq & Hbefore). exists (S k), q.
    split; [lia|]. split; [by eapply Hcons|]. split; [done|].
    intros [|[|j]] q' Hj Ha'; [by inversion Ha'|inversion Ha' as [? Hp' _|? ? ? Hz]; subst; [congruence|by inversion Hz]|].
    apply (Hbefore (S j)); [lia|]. by eapply Hinv.
Qed.

(** SSH_AUTH_SOCK is the process's own value, else launchd's, else that of the
    nearest of at most eight ancestors, else the interactive shell's; and the last
    two only if a socket is there. A source is passed over only if it has nothing
    to offer. *)
Theorem agent_socket_is_trusted (y : System) (source : EnvValueSource) (v : bytes) :
  preferred_ssh_auth_sock_selection y (ssh_snapshot y) = Some (source, v) ->
  let key := str "SSH_AUTH_SOCK" in
  match source with
  | Process => normalize_env_value (env_var y key) = Some v
  | Launchctl => normalize_env_value (env_var y key) = None /\ launchctl_getenv y key = Some v
  | AncestorProcess =>
      normalize_env_value (env_var y key) = None /\ launchctl_getenv y key = None /\ is_socket y v = true /\
      exists k p u, (k <= 8)%nat /\ ancestor y (process_id y) k p /\ process_env_var y p key = Some u /\ trim u = v /\
        forall j q, (j < k)%nat -> ancestor y (process_id y) j q -> process_env_var y q key = None
  | InteractiveShell =>
      normalize_env_value (env_var y key) = None /\ launchctl_getenv y key = None /\ is_socket y v = true /\
      validated_shell_ssh_auth_sock y (ancestor_process_env_var y key) = None
  end.
Proof.
  assert (Hval : forall o u, validated_shell_ssh_auth_sock y o = Some u ->
    is_socket y u = true /\ exists w, o = Some w /\ trim w = u).
  { intros [w|] u; [|done]. unfold validated_shell_ssh_auth_sock, normalize_env_value. cbn [mbind option_bind].
    destruct (bool_decide (trim w = [])); [done|]. cbn [mbind option_bind]. destruct (is_socket y (trim w)) eqn:E; [|done].
    intros [= <-]. eauto. }
  unfold preferred_ssh_auth_sock_selection, ssh_snapshot, collect_env_snapshot.
  cbn [process_env launchctl_env ancestor_process_env interactive_shell_value
       lookup_process lookup_launchctl lookup_ancestor lookup_interactive SystemEnvSourceLookup].
  destruct (normalize_env_value (env_var y _)) as [p|] eqn:Ep; [by intros [= <- <-]|].
  destruct (launchctl_getenv y _) as [l|] eqn:El; [by intros [= <- <-]|].
  destruct (validated_shell_ssh_auth_sock y (ancestor_process_env_var y _)) as [a|] eqn:Ea.
  - intros [= <- <-]. apply Hval in Ea as (Hs & u & Hu & Ht). split; [done|]. split; [done|]. split; [done|].
    apply ancestor_from_spec in Hu as (k & q & Hk & Hq & Hv & Hb). exists k, q, u. done.
  - destruct (validated_shell_ssh_auth_sock y (interactive_shell_env y !! _)) as [i|] eqn:Ei; [|done].
    cbn. intros [= <- <-]. apply Hval in Ei as (Hs & _). done.
Qed.

(** * Examples *)

Module ProcessEnvExamples.
(** Started from the desktop: no variables, launchd has none, and the parent, an
    editor, has a socket that is gone; the shell has one that is not. *)
Definition shell_text : bytes :=
  snapshot_output (str "Welcome!") [(str "PATH", str "/opt/bin: /usr/bin :/opt/bin"); (str "SSH_AUTH_SOCK", str "/s")] [LF].
Definition desktop : System := mkSystem true
  (fun k => if bytes_eqb k (str "SHELL") then Some (str "/bin/zsh") else None)
  (fun _ => Some (true, [LF]))
  (fun p => if p =? 100 then Some (true, str " 50 ") else Some (true, str "1"))
  (fun _ => Some (true, str "50 ?? S 0:00 editor SSH_AUTH_SOCK=/gone")) 100
  (fun _ => None)
  (fun n => if Nat.eqb n 0 then Err [] else Ok [Running 10; Ended true (Some (shell_text, []))])
  (fun s => bytes_eqb s (str "/s")) (fun d => bytes_eqb d (str "/usr/local/bin")) (Some (str "/h")) None.

Example desktop_path : enriched_path desktop desktop = str "/h/.grove/bin:/opt/bin:/usr/bin:/usr/local/bin".
Proof. by vm_compute. Qed.

Example agent_socket_is_trusted_witness :
  preferred_ssh_auth_sock_selection desktop (ssh_snapshot desktop) = Some (InteractiveShell, str "/s") /\
  is_socket desktop (str "/s") = true.
Proof.
  assert (H : preferred_ssh_auth_sock_selection desktop (ssh_snapshot desktop) = Some (InteractiveShell, str "/s")) by by vm_compute.
  split; [exact H|]. by destruct (agent_socket_is_trusted desktop InteractiveShell (str "/s") H) as (_ & _ & Hs & _).
Defined.

Example snapshot_is_read_back_witness :
  let kvs := [(str "PATH", str " /bin"); (str "EMPTY", [])] in
  parse_env_marker_output (snapshot_output (str "motd") kvs [LF]) !! str "PATH" = Some (str "/bin").
Proof.
  cbv zeta. refine (eq_trans (proj1 (snapshot_is_read_back (str "motd") [(str "PATH", str " /bin"); (str "EMPTY", [])] [LF] _ _ _ _ _) _ (str " /bin") _) _);
    try (by vm_compute); [| |apply list_elem_of_here].
  - by apply (bool_decide_unpack (NoDup _)); vm_compute.
  - repeat constructor; try (by vm_compute); cbn; rewrite ?not_elem_of_cons; repeat split; try done; try apply not_elem_of_nil.
Defined.

(** When nothing sets PATH and no shell answers, the path ends in an empty entry,
    which stands for the working directory. *)
Example empty_path_names_the_working_directory :
  let bare := mkSystem false (fun _ => None) (fun _ => None) (fun _ => None) (fun _ => None) 2
    (fun _ => None) (fun _ => Err []) (fun _ => false) (fun _ => false) (Some (str "/h")) None in
  split_on 58 (enriched_path bare bare) = [str "/h/.grove/bin"; []].
Proof. by vm_compute. Qed.
End ProcessEnvExamples.
