(* ===== verification/ToolHooks.v ===== *)
(** Hooks and shims (grove-core/src/tool_hooks.rs): the hook configuration that the
    agents are given, and the files that are installed under ~/.grove: the
    launcher, the shims, the shell's start-up files and Claude's plugin. *)

From S2P Require Import Prelude Utf8 Text Paths Json Remotes Config World ProcessEnv.

#[local] Open Scope world_scope.

(** * The hooks *)

Definition HOOK_EVENTS : list string :=
  ["SessionStart"; "UserPromptSubmit"; "PreToolUse"; "PermissionRequest"; "PostToolUse"; "Stop"]%string.
Definition HOOK_TIMEOUT_SECS : Z := 5.
Definition STATUS_PLUGIN_NAME : bytes := str "grove-status".
Definition WRAPPER_MARKER : bytes := str "GROVE_AGENT_WRAPPER".
Definition DQUOTE : Z := 34.

(** [str::replace] of one byte. *)
Definition replace_byte (c : Z) (by_ s : bytes) : bytes := concat ((fun b => if b =? c then by_ else [b]) <$> s).

Definition hook_command (agent_bin : bytes) : bytes :=
  [QUOTE] ++ replace_byte QUOTE [QUOTE; BACKSLASH; QUOTE; QUOTE] (from_utf8_lossy agent_bin) ++ str "' event".

Definition hook_group (command : bytes) : Value :=
  Arr [object [(str "matcher", Str []);
               (str "hooks", Arr [object [(str "type", Str (str "command")); (str "command", Str command);
                                          (str "timeout", Int HOOK_TIMEOUT_SECS)]])]].
Definition claude_hook_groups (agent_bin : bytes) : Value :=
  object ((fun e => (str e, hook_group (hook_command agent_bin))) <$> HOOK_EVENTS).

Definition toml_escape (s : bytes) : bytes :=
  replace_byte DQUOTE [BACKSLASH; DQUOTE] (replace_byte BACKSLASH [BACKSLASH; BACKSLASH] s).
Definition codex_hook_config (command event : bytes) : bytes :=
  str "hooks." ++ event ++ str "=[{hooks=[{type=" ++ [DQUOTE] ++ str "command" ++ [DQUOTE] ++ str ",command=" ++
  [DQUOTE] ++ command ++ [DQUOTE] ++ str ",timeout=5}]}]".
Definition codex_hook_config_args (agent_bin : bytes) : list bytes :=
  let command := toml_escape (hook_command agent_bin) in
  concat ((fun e => [str "-c"; codex_hook_config command (str e)]) <$> HOOK_EVENTS).

(** * The texts that are written. A backquote stands for a double quote. *)

Definition script (s : string) : bytes := (fun b => if b =? 96 then DQUOTE else b) <$> str s.

Definition agent_wrapper_script (tool : bytes) : bytes :=
  script "#!/usr/bin/env bash
# GROVE_AGENT_WRAPPER — Grove-managed " ++ tool ++ script " shim (agent-status design §6).
# execs grove-agent, which claims the pane, installs " ++ tool ++ script "'s own hooks, and execs the
# real " ++ tool ++ script ". No fork, no wait, no trap: a fork-and-wait wrapper deadlocks the pane on
# Ctrl-Z, and a trap cannot survive SIGKILL.
GROVE_AGENT=`${GROVE_BIN_DIR:-$HOME/.grove/bin}/grove-agent`
if [ -x `$GROVE_AGENT` ]; then
  exec `$GROVE_AGENT` launch " ++ tool ++ script " -- `$@`
fi

# grove-agent is not installed — run the real " ++ tool ++ script " anyway (no badge, never a broken
# agent). Scan PATH, skipping this wrapper's own directory.
find_real_" ++ tool ++ script "() {
  local self_dir; self_dir=`$(cd `$(dirname `$0`)` && pwd)`
  local IFS=:; for d in $PATH; do
    [[ `$d` == `$self_dir` ]] && continue
    [[ -x `$d/" ++ tool ++ script "` ]] && printf '%s' `$d/" ++ tool ++ script "` && return 0
  done; return 1
}
REAL=`$(find_real_" ++ tool ++ script ")` || { echo `" ++ tool ++ script ": not found` >&2; exit 127; }
exec `$REAL` `$@`
".

Definition open_wrapper_script : bytes := script "#!/usr/bin/env bash
# Grove-managed open wrapper — routes HTTP(S) URLs through Grove.
GROVE_SOCK=`$HOME/.grove/open-url.sock`
for arg in `$@`; do
  case `$arg` in
    http://*|https://*)
      if [ -S `$GROVE_SOCK` ]; then
        printf '%s' `$arg` | /usr/bin/nc -U `$GROVE_SOCK` -w 1 2>/dev/null
        exit 0
      fi
      exec /usr/bin/open `$@`
      ;;
  esac
done
exec /usr/bin/open `$@`
".

Definition zshenv : bytes := script "# Grove-managed — sources real .zshenv then ensures Grove PATH.
source `${GROVE_REAL_ZDOTDIR:-$HOME}/.zshenv` 2>/dev/null; true
".
Definition zprofile : bytes := script "# Grove-managed — sources real .zprofile.
source `${GROVE_REAL_ZDOTDIR:-$HOME}/.zprofile` 2>/dev/null; true
".
Definition zshrc (grove_bin : bytes) : bytes := script "# Grove-managed — sources real .zshrc then ensures Grove PATH.
source `${GROVE_REAL_ZDOTDIR:-$HOME}/.zshrc` 2>/dev/null; true
export PATH=`" ++ grove_bin ++ script ":$PATH`

# Grove-managed — clear terminal state a TUI leaked when it died without restoring it.
# Grove's PTY is a raw terminal now (tmux used to absorb mouse events for us), so an
# agent killed while mouse reporting was armed would turn every later click at the shell
# prompt into escape-sequence garbage on the command line. Reset at each prompt: mouse
# reporting (1000/1002/1003 + the 1006/1015/1016 encodings), focus reporting (1004),
# cursor visibility, and cursor shape. Deliberately NOT reset: bracketed paste (zsh owns
# it) and the alternate screen (a live TUI's subshell must not be yanked out of it).
grove_reset_tui_state() {
  printf '\e[?1000l\e[?1002l\e[?1003l\e[?1006l\e[?1015l\e[?1016l\e[?1004l\e[?25h\e[0 q'
}
autoload -Uz add-zsh-hook 2>/dev/null && add-zsh-hook precmd grove_reset_tui_state
".
Definition zlogin : bytes := script "# Grove-managed — sources real .zlogin.
source `${GROVE_REAL_ZDOTDIR:-$HOME}/.zlogin` 2>/dev/null; true
".
Definition plugin_manifest : bytes :=
  script "{`name`:`grove-status`,`version`:`1.0.0`,`description`:`Grove agent status hooks`}".

(** A file that carries the marker in what is read of it, at most 4 KiB. *)
Definition has_marker (head : option bytes) : bool :=
  match head with
  | Some h => contains WRAPPER_MARKER (from_utf8_lossy (take 4096 h))
  | None => false
  end.

(** * Installing *)

Record Meta := mkMeta { m_len : Z; m_modified : option Z; m_executable : bool }.

(** What [World] does not answer. *)
Record HookWorld := mkHookWorld {
  hw : World;
  hw_rename_ok : list event -> bytes -> bytes -> bool;
  hw_remove_dir_ok : list event -> bytes -> bool;
  hw_chmod_ok : list event -> bytes -> bool;
  hw_metadata : list event -> bytes -> option Meta;       (* of a file *)
  hw_head : list event -> bytes -> option bytes;          (* its first bytes *)
  hw_help : bytes -> option bytes;                        (* what [--help] prints *)
  hw_home : option bytes;
  hw_debug : bool;
  hw_agent_bin_env : option bytes;
  hw_current_exe : option bytes;
  hw_pid : Z;
  hw_path : bytes                                         (* the enriched PATH *)
}.

Section install.
Context `{JsonText} (W : HookWorld).

Definition grove_bin_dir : option bytes := (fun h => path_join (path_join h (str ".grove")) (str "bin")) <$> hw_home W.
Definition grove_agent_bin : option bytes := (fun d => path_join d (str "grove-agent")) <$> grove_bin_dir.
Definition plugin_dir_of (home : bytes) : bytes :=
  path_join (path_join (path_join home (str ".grove")) (str "plugins")) STATUS_PLUGIN_NAME.
Definition manifest_of (plugin_dir : bytes) : bytes := path_join (path_join plugin_dir (str ".claude-plugin")) (str "plugin.json").
Definition hooks_file_of (plugin_dir : bytes) : bytes := path_join (path_join plugin_dir (str "hooks")) (str "hooks.json").
Definition claude_plugin_dir : option bytes := plugin_dir_of <$> hw_home W.
Definition claude_plugin_is_installed : M bool :=
  match claude_plugin_dir with
  | Some d => ask (fun l => is_file (hw W) l (manifest_of d))
  | None => ret false
  end.

(** The operating system's own words are left out of the errors. *)
Definition write_file (what p content : bytes) : M (result unit bytes) :=
  let* ok := ask (fun l => write_ok (hw W) l p) in
  let* _ := emit (WriteFile p content) in
  ret (if (ok : bool) then Ok tt else Err (str "failed to write " ++ what)).
Definition make_executable (p : bytes) : M (result unit bytes) :=
  let* ok := ask (fun l => hw_chmod_ok W l p) in
  let* _ := emit (SetExecutable p) in
  ret (if (ok : bool) then Ok tt else Err (str "failed to chmod " ++ p)).
Definition write_executable (p content : bytes) : M (result unit bytes) :=
  let! _ := write_file p p content in make_executable p.

Definition grove_agent_source : option bytes :=
  match (if hw_debug W then hw_agent_bin_env W else None) with
  | Some ((_ :: _) as over) => Some over
  | _ => exe ← hw_current_exe W; d ← parent exe; Some (path_join d (str "grove-agent"))
  end.

Definition agent_copy_is_current (src dst : option Meta) : bool :=
  match src, dst with
  | Some s, Some d =>
      (m_len s =? m_len d) &&
      match m_modified s, m_modified d with Some a, Some b => a <=? b | _, _ => false end
  | _, _ => false
  end.

Definition install_grove_agent (bin_dir : bytes) : M (result unit bytes) :=
  match grove_agent_source with
  | None => ret (Ok tt)
  | Some source =>
      let* there := ask (fun l => is_file (hw W) l source) in
      if negb there then ret (Ok tt)
      else
        let dest := path_join bin_dir (str "grove-agent") in
        let* current := ask (fun l => agent_copy_is_current (hw_metadata W l source) (hw_metadata W l dest)) in
        if (current : bool) then ret (Ok tt)
        else
          let tmp := path_join bin_dir (str "grove-agent." ++ show_dec (hw_pid W) ++ str ".tmp") in
          let* copied := ask (fun l => write_ok (hw W) l tmp) in
          let* _ := emit (CopyFile source tmp) in
          if negb copied then ret (Err (str "failed to stage " ++ tmp))
          else
            let! _ := make_executable tmp in
            let* renamed := ask (fun l => hw_rename_ok W l tmp dest) in
            let* _ := emit (Rename tmp dest) in
            if (renamed : bool) then ret (Ok tt)
            else let* _ := emit (RemoveFile tmp) in ret (Err (str "failed to install " ++ dest))
  end.

Definition install_zdotdir (home : bytes) : M (result unit bytes) :=
  let zsh := path_join (path_join home (str ".grove")) (str "zsh") in
  let bin := path_join (path_join home (str ".grove")) (str "bin") in
  let! _ := create_dir_all (hw W) zsh in
  let! _ := write_file (str ".zshenv") (path_join zsh (str ".zshenv")) zshenv in
  let! _ := write_file (str ".zprofile") (path_join zsh (str ".zprofile")) zprofile in
  let! _ := write_file (str ".zshrc") (path_join zsh (str ".zshrc")) (zshrc (from_utf8_lossy bin)) in
  write_file (str ".zlogin") (path_join zsh (str ".zlogin")) zlogin.

Definition grove_zdotdir : M (option bytes) :=
  match hw_home W with
  | None => ret None
  | Some home =>
      let zsh := path_join (path_join home (str ".grove")) (str "zsh") in
      let* there := ask (fun l => is_dir (hw W) l zsh) in
      ret (if (there : bool) then Some (from_utf8_lossy zsh) else None)
  end.

Definition install_claude_plugin (home : bytes) (supported : bool) : M (result unit bytes) :=
  let plugin_dir := plugin_dir_of home in
  if negb supported then
    let* there := ask (fun l => path_exists (hw W) l plugin_dir) in
    if (there : bool) then
      let* ok := ask (fun l => hw_remove_dir_ok W l plugin_dir) in
      let* _ := emit (RemoveDirAll plugin_dir) in
      ret (if (ok : bool) then Ok tt else Err (str "failed to remove " ++ plugin_dir))
    else ret (Ok tt)
  else
    let agent_bin := path_join (path_join (path_join home (str ".grove")) (str "bin")) (str "grove-agent") in
    let! _ := create_dir_all (hw W) (path_join plugin_dir (str ".claude-plugin")) in
    let! _ := create_dir_all (hw W) (path_join plugin_dir (str "hooks")) in
    let! _ := write_file (str "the plugin hooks") (hooks_file_of plugin_dir) (to_string (object [(str "hooks", claude_hook_groups agent_bin)])) in
    write_file (str "the plugin manifest") (manifest_of plugin_dir) plugin_manifest.

(** ** Does this claude know plugins? *)

Definition find_real_binary_outside_grove (tool : bytes) : M (option bytes) :=
  ask (fun l => head (filter (fun c =>
      match hw_metadata W l c with Some m => m_executable m | None => false end && negb (has_marker (hw_head W l c)) = true)
    ((fun d => path_join d tool) <$>
     filter (fun d => match grove_bin_dir with Some b => negb (path_eqb d b) | None => true end = true)
       (split_on 58 (hw_path W))))).

Definition claude_supports_plugin_dir : M bool :=
  let* real := find_real_binary_outside_grove (str "claude") in
  ret (match real ≫= hw_help W with
       | Some out => contains (str "--plugin-dir") (from_utf8_lossy out)
       | None => false
       end).

(** The plugin is installed by a thread of its own: the second answer is what the
    thread does. *)
Definition install : M (result unit bytes) :=
  match hw_home W with
  | None => ret (Ok tt)
  | Some home =>
      let bin_dir := path_join (path_join home (str ".grove")) (str "bin") in
      let! _ := create_dir_all (hw W) bin_dir in
      let! _ := install_grove_agent bin_dir in
      let! _ := write_executable (path_join bin_dir (str "claude")) (agent_wrapper_script (str "claude")) in
      let! _ := write_executable (path_join bin_dir (str "codex")) (agent_wrapper_script (str "codex")) in
      let! _ := write_executable (path_join bin_dir (str "open")) open_wrapper_script in
      let* _ := emit (RemoveFile (path_join bin_dir (str "grove-hook"))) in
      install_zdotdir home
  end.
Definition install_thread : M (result unit bytes) :=
  match hw_home W with
  | None => ret (Ok tt)
  | Some home => let* supported := claude_supports_plugin_dir in install_claude_plugin home supported
  end.
End install.

(** * What an agent makes of the hooks *)

(** The hook command is the launcher's path, as one word whatever is in it,
    and the word event. *)
Theorem hook_command_is_two_words agent_bin :
  sh_word Plain (hook_command agent_bin) = Some (from_utf8_lossy agent_bin, str " event").
Proof.
  unfold hook_command. generalize (from_utf8_lossy agent_bin) as p. intros p. cbn [app sh_word].
  change (ends_word QUOTE) with false. change (QUOTE =? QUOTE) with true. cbn match. unfold replace_byte.
  induction p as [|c p IH].
  - cbn [fmap list_fmap concat app]. change (str "' event") with (QUOTE :: str " event"). cbn [sh_word].
    change (QUOTE =? QUOTE) with true. cbn match. by vm_compute.
  - rewrite fmap_cons. cbn [concat]. rewrite <- app_assoc. destruct (Z.eqb_spec c QUOTE) as [->|Hc].
    + assert (Hq : forall t, sh_word Single ([QUOTE; BACKSLASH; QUOTE; QUOTE] ++ t) = prod_map (cons QUOTE) id <$> sh_word Single t) by done.
      rewrite Hq. exact (f_equal (fmap (M := option) (prod_map (cons QUOTE) id)) IH).
    + cbn [app sh_word]. rewrite (proj2 (Z.eqb_neq c QUOTE) Hc).
      exact (f_equal (fmap (M := option) (prod_map (cons c) id)) IH).
Qed.

(** The rest of a TOML basic string, without the escapes that Grove does not
    write: its value and what follows the closing quote. *)
Fixpoint toml_basic (s : bytes) : option (bytes * bytes) :=
  match s with
  | [] => None
  | c :: t =>
      if c =? DQUOTE then Some ([], t)
      else if c =? BACKSLASH then
        match t with
        | x :: t => if (x =? DQUOTE) || (x =? BACKSLASH) then prod_map (cons x) id <$> toml_basic t else None
        | [] => None
        end
      else prod_map (cons c) id <$> toml_basic t
  end.

Lemma replace_byte_cons c by_ b s : replace_byte c by_ (b :: s) = (if b =? c then by_ else [b]) ++ replace_byte c by_ s.
Proof. done. Qed.
Lemma replace_byte_app c by_ a b : replace_byte c by_ (a ++ b) = replace_byte c by_ a ++ replace_byte c by_ b.
Proof. unfold replace_byte. by rewrite fmap_app, concat_app. Qed.

Lemma toml_escape_back s rest : toml_basic (toml_escape s ++ DQUOTE :: rest) = Some (s, rest).
Proof.
  unfold toml_escape. induction s as [|c s IH]; [done|]. rewrite replace_byte_cons, replace_byte_app, <- app_assoc.
  destruct (Z.eqb_spec c BACKSLASH) as [->|Hb]; [|destruct (Z.eqb_spec c DQUOTE) as [->|Hd]].
  - change (replace_byte DQUOTE [BACKSLASH; DQUOTE] [BACKSLASH; BACKSLASH]) with [BACKSLASH; BACKSLASH].
    exact (f_equal (fmap (M := option) (prod_map (cons BACKSLASH) id)) IH).
  - change (replace_byte DQUOTE [BACKSLASH; DQUOTE] [DQUOTE]) with [BACKSLASH; DQUOTE].
    exact (f_equal (fmap (M := option) (prod_map (cons DQUOTE) id)) IH).
  - unfold replace_byte at 1. cbn [fmap list_fmap concat]. rewrite (proj2 (Z.eqb_neq c DQUOTE) Hd). cbn [app toml_basic].
    rewrite (proj2 (Z.eqb_neq c BACKSLASH) Hb), (proj2 (Z.eqb_neq c DQUOTE) Hd).
    exact (f_equal (fmap (M := option) (prod_map (cons c) id)) IH).
Qed.

(** Both agents are given the same command for the same events. *)
Lemma codex_reads_the_command agent_bin event rest :
  let arg := codex_hook_config (toml_escape (hook_command agent_bin)) event ++ rest in
  exists key tail, arg = str "hooks." ++ event ++ key ++ [DQUOTE] ++ tail /\
    toml_basic tail = Some (hook_command agent_bin, str ",timeout=5}]}]" ++ rest).
Proof.
  cbv zeta. eexists (str "=[{hooks=[{type=" ++ [DQUOTE] ++ str "command" ++ [DQUOTE] ++ str ",command="), _. split.
  - unfold codex_hook_config. rewrite <- !app_assoc. reflexivity.
  - apply toml_escape_back.
Qed.

Lemma claude_runs_the_command agent_bin e :
  e ∈ HOOK_EVENTS -> get e (claude_hook_groups agent_bin) = Some (hook_group (hook_command agent_bin)).
Proof.
  unfold claude_hook_groups. generalize (hook_group (hook_command agent_bin)) as g. intros g He.
  rewrite get_object. unfold HOOK_EVENTS in *.
  repeat (apply elem_of_cons in He as [->|He]; [by vm_compute|]). by apply elem_of_nil in He.
Qed.

(** Every shim that is installed is known for one. *)
Lemma shims_carry_the_marker tool :
  tool ∈ [str "claude"; str "codex"] -> has_marker (Some (agent_wrapper_script tool)) = true.
Proof. intros H. repeat (apply elem_of_cons in H as [->|H]; [by vm_compute|]). by apply elem_of_nil in H. Qed.

(** * What another process sees while files are installed *)

Abbreviation Files := (gmap bytes bytes).
(** An event that has happened, and the states while it happens: a file that is
    written is first cut to nothing and then grows. *)
Definition done_event (f : Files) (e : event) : Files :=
  match e with WriteFile p c => <[p := c]> f | _ => f end.
Definition during (f : Files) (e : event) (f' : Files) : Prop :=
  match e with WriteFile p c => exists n, f' = <[p := take n c]> f | _ => f' = f end.
Definition seen (f : Files) (es : list event) (f' : Files) : Prop :=
  f' = foldl done_event f es \/
  exists before e after, es = before ++ e :: after /\ during (foldl done_event f before) e f'.

Lemma path_join_ends p q : starts_with (str "/") q = false -> exists r, path_join p q = r ++ q.
Proof.
  intros Hq. unfold path_join. rewrite Hq. destruct (_ || _); [by exists p|]. exists (p ++ str "/"). by rewrite <- app_assoc.
Qed.

Lemma manifest_ne_hooks d : manifest_of d <> hooks_file_of d.
Proof.
  unfold manifest_of, hooks_file_of.
  destruct (path_join_ends (path_join d (str ".claude-plugin")) (str "plugin.json")) as [a ->]; [done|].
  destruct (path_join_ends (path_join d (str "hooks")) (str "hooks.json")) as [b ->]; [done|].
  intros E%(f_equal (@rev Z)). rewrite !rev_app_distr in E. vm_compute in E. discriminate E.
Qed.

Section plugin.
Context `{JsonText} (W : HookWorld).

Definition hooks_text (home : bytes) : bytes :=
  to_string (object [(str "hooks", claude_hook_groups
    (path_join (path_join (path_join home (str ".grove")) (str "bin")) (str "grove-agent")))]).
Definition hooks_path (home : bytes) : bytes := hooks_file_of (plugin_dir_of home).
Definition manifest_path (home : bytes) : bytes := manifest_of (plugin_dir_of home).

(** The events of an installation: those of [all] up to the one that fails. *)
Definition plugin_events (home : bytes) : list event :=
  [CreateDirAll (path_join (plugin_dir_of home) (str ".claude-plugin")); CreateDirAll (path_join (plugin_dir_of home) (str "hooks"));
   WriteFile (hooks_path home) (hooks_text home); WriteFile (manifest_path home) plugin_manifest].

Lemma install_plugin_events home s r s' :
  install_claude_plugin W home true s = (r, s') ->
  exists n, (n <= 4)%nat /\ log s' = log s ++ take n (plugin_events home) /\ (is_ok r = true -> n = 4%nat).
Proof.
  unfold install_claude_plugin, write_file, try_bind, bind, create_dir_all, ask, emit, ret. cbn [negb log].
  repeat match goal with |- context [if ?b then _ else _] =>
    lazymatch b with mkdir_ok _ _ _ => destruct b | write_ok _ _ _ => destruct b end end; intros [= <- <-]; cbn [log].
  all: rewrite <- ?app_assoc.
  all: first [exists 1%nat; (split; [lia|]); (split; [reflexivity|done])|exists 2%nat; (split; [lia|]); (split; [reflexivity|done])
    |exists 3%nat; (split; [lia|]); (split; [reflexivity|done])|exists 4%nat; (split; [lia|]); (split; [reflexivity|done])].
Qed.

(** Where the plugin is not installed yet, nobody who looks while it is being
    installed sees its manifest without the complete hooks, wherever the
    installation stops; when it succeeds both are there. *)
Theorem plugin_is_whole_when_seen (home : bytes) (s : St) (r : result unit bytes) (s' : St) (f : Files) :
  f !! manifest_path home = None ->
  install_claude_plugin W home true s = (r, s') ->
  exists es, log s' = log s ++ es /\
    (forall f', seen f es f' -> f' !! manifest_path home <> None -> f' !! hooks_path home = Some (hooks_text home)) /\
    (is_ok r = true -> foldl done_event f es !! manifest_path home = Some plugin_manifest /\
                       foldl done_event f es !! hooks_path home = Some (hooks_text home)).
Proof.
  intros Hf E. apply install_plugin_events in E as (n & Hn & El & Hr).
  exists (take n (plugin_events home)). split; [done|].
  assert (Hne : manifest_path home <> hooks_path home) by apply manifest_ne_hooks.
  assert (Hbefore : forall k f', (k < 4)%nat -> f' = foldl done_event f (take k (plugin_events home)) -> f' !! manifest_path home = None).
  { intros k f' Hk ->. destruct k as [|[|[|[|k]]]]; cbn; rewrite ?lookup_insert_ne by done; done || lia. }
  split.
  - intros f' Hs Hm. destruct Hs as [->|(before & e & after & Ees & Hd)].
    + destruct (decide (n = 4%nat)) as [->|Hn4]; [|destruct Hm; apply (Hbefore n); [lia|done]].
      cbn. by rewrite lookup_insert_ne, lookup_insert_eq by done.
    + assert (Hk : before = take (length before) (plugin_events home) /\ plugin_events home !! length before = Some e).
      { pose proof (f_equal (fun l => l !! length before) Ees) as Hl. pose proof (f_equal (take (length before)) Ees) as Ht.
        cbn beta in Hl. rewrite list_lookup_middle in Hl by done. rewrite take_app_length, take_take in Ht.
        apply lookup_take_Some in Hl as [Hl Hlt]. rewrite Nat.min_l in Ht by lia. done. }
      destruct Hk as [Hb He]. destruct (length before) as [|[|[|[|k]]]]; cbn [plugin_events lookup list_lookup] in He; try done; injection He as <-; subst before.
      * cbn in Hd. subst f'. by rewrite Hf in Hm.
      * cbn in Hd. subst f'. by rewrite Hf in Hm.
      * destruct Hd as [m ->]. cbn in Hm. by rewrite lookup_insert_ne in Hm.
      * destruct Hd as [m ->]. cbn. by rewrite lookup_insert_ne, lookup_insert_eq.
  - intros Hok. rewrite (Hr Hok). cbn. by rewrite lookup_insert_eq, lookup_insert_ne, lookup_insert_eq.
Qed.
End plugin.

(** The launcher at its path is only ever replaced by a rename. *)
Definition not_in_place (dest : bytes) (e : event) : Prop :=
  match e with
  | WriteFile p _ | CopyFile _ p | RemoveFile p => p <> dest
  | RemoveDirAll _ => False
  | _ => True
  end.
Lemma agent_is_renamed_into_place (W : HookWorld) bin_dir :
  does (not_in_place (path_join bin_dir (str "grove-agent"))) (install_grove_agent W bin_dir).
Proof.
  assert (Hne : path_join bin_dir (str "grove-agent." ++ show_dec (hw_pid W) ++ str ".tmp") <> path_join bin_dir (str "grove-agent")).
  { destruct (path_join_ends bin_dir (str "grove-agent")) as [a Ea]; [done|].
    destruct (path_join_ends bin_dir (str "grove-agent." ++ show_dec (hw_pid W) ++ str ".tmp")) as [b Eb]; [done|].
    rewrite Ea, Eb. intros E%(f_equal (@rev Z)). rewrite !rev_app_distr, <- !app_assoc in E. vm_compute in E. discriminate E. }
  unfold install_grove_agent, make_executable.
  repeat first [case_match | apply does_try | apply does_bind | apply does_ret | apply does_ask | intros ?
    | apply does_emit; (exact Hne || exact I)].
Qed.

(** * Examples *)

Module ToolHooksExamples.
Import Json.ToyJson.
Definition w : World := ToyWorld.world (fun _ => None) (fun _ => None) (fun _ => []).
Definition W : HookWorld := mkHookWorld w (fun _ _ _ => true) (fun _ _ => true) (fun _ _ => true) (fun _ _ => None)
  (fun _ _ => None) (fun _ => None) (Some (str "/h")) false None (Some (str "/app/grove")) 7 (str "/bin").
Definition home : bytes := str "/h".

Example plugin_is_whole_when_seen_witness :
  let x := install_claude_plugin W home true (ToyWorld.start []) in
  x.1 = Ok tt /\
  exists es, log x.2 = log (ToyWorld.start []) ++ es /\
    (forall f', seen ∅ es f' -> f' !! manifest_path home <> None -> f' !! hooks_path home = Some (hooks_text home)) /\
    (is_ok x.1 = true -> foldl done_event ∅ es !! manifest_path home = Some plugin_manifest /\
                         foldl done_event ∅ es !! hooks_path home = Some (hooks_text home)).
Proof.
  cbv zeta. split; [by vm_compute|].
  apply (plugin_is_whole_when_seen W home (ToyWorld.start []) (install_claude_plugin W home true (ToyWorld.start [])).1
    (install_claude_plugin W home true (ToyWorld.start [])).2 ∅); [apply lookup_empty|].
  by destruct (install_claude_plugin W home true (ToyWorld.start [])).
Defined.

(** Where the plugin is installed already, its manifest is there while the hooks
    are written anew, and a launch that looks then finds an empty file. *)
Example reinstalled_hooks_are_seen_empty :
  let f : Files := <[manifest_path home := plugin_manifest]> (<[hooks_path home := hooks_text home]> ∅) in
  exists f', seen f (plugin_events home) f' /\ f' !! manifest_path home = Some plugin_manifest /\ f' !! hooks_path home = Some [].
Proof.
  cbv zeta. eexists. split; [right; exists (take 2 (plugin_events home)), (WriteFile (hooks_path home) (hooks_text home)), (drop 3 (plugin_events home));
    split; [done|by exists 0%nat]|].
  cbn [foldl done_event plugin_events take]. split; [|by rewrite lookup_insert_eq].
  rewrite lookup_insert_ne by (intros E; symmetry in E; by apply manifest_ne_hooks in E). by rewrite lookup_insert_eq.
Qed.
End ToolHooksExamples.
