(* ===== verification/Launcher.v ===== *)
(** The launcher (grove-agent): finding the real agent behind the shims, planning
    its arguments, claiming the pane, and relaying one hook event. The process ends
    by becoming the agent, so that a run is the value [Outcome]. *)

From S2P Require Import Prelude Utf8 Text Paths Emulator Agent Json Protocol Server ToolHooks.

#[local] Open Scope rust_scope.

(** * Finding the real binary (resolve.rs) *)

Definition DEPTH_CAP : Z := 8.

Record ResolveCtx := mkResolveCtx {
  path : list bytes;
  ctx_grove_bin : option bytes;
  self_dir : option bytes;
  self_exe : option bytes;
  skip : list bytes;
  depth : Z
}.

(** What the file system answers. *)
Record Disk := mkDisk {
  canonical : bytes -> option bytes;
  is_executable_file : bytes -> bool;
  file_head : bytes -> option bytes
}.

(** The environment of the process. *)
Record Env := mkEnv {
  getenv : bytes -> option bytes;
  current_exe : option bytes;
  home : option bytes
}.

Definition split_paths (s : bytes) : list bytes := split_on 58 s.
Definition join_paths (ps : list bytes) : option bytes :=
  if existsb (fun p => bool_decide (58 ∈ p)) ps then None else Some (join (str ":") ps).

Section resolve.
Context (d : Disk).

Definition grove_bin_dir (e : Env) : option bytes :=
  match getenv e (str "GROVE_BIN_DIR") with
  | Some ((_ :: _) as dir) => Some dir
  | _ => (fun h => path_join (path_join h (str ".grove")) (str "bin")) <$> home e
  end.

Definition from_env (e : Env) : ResolveCtx :=
  let exe := current_exe e ≫= canonical d in
  mkResolveCtx (match getenv e (str "PATH") with Some p => split_paths p | None => [] end)
    (grove_bin_dir e ≫= canonical d) (exe ≫= parent) exe
    (match getenv e (str "GROVE_AGENT_SKIP") with Some s => split_paths s | None => [] end)
    (default 0 (getenv e (str "GROVE_AGENT_DEPTH") ≫= parse_u32)).

Definition is_grove_wrapper (p : bytes) : bool := has_marker (file_head d p).

Definition same (a : bytes) (b : option bytes) : bool := bool_decide (Some a = b).

(** The directory is one of Grove's (D0, D1). *)
Definition own_dir (ctx : ResolveCtx) (dir : bytes) : bool :=
  match canonical d dir with Some c => same c (ctx_grove_bin ctx) || same c (self_dir ctx) | None => false end.
(** The candidate is this program, or was run before in this chain (D2, D4). *)
Definition own_or_skipped (ctx : ResolveCtx) (candidate : bytes) : bool :=
  match canonical d candidate with
  | Some c => same c (self_exe ctx) || ((depth ctx <? DEPTH_CAP) && bool_decide (c ∈ skip ctx))
  | None => false
  end.
Definition acceptable (tool : bytes) (ctx : ResolveCtx) (dir : bytes) : bool :=
  negb (own_dir ctx dir) && is_executable_file d (path_join dir tool) &&
  negb (own_or_skipped ctx (path_join dir tool)) && negb (is_grove_wrapper (path_join dir tool)).

Fixpoint first_acceptable (tool : bytes) (ctx : ResolveCtx) (dirs : list bytes) : option bytes :=
  match dirs with
  | [] => None
  | dir :: dirs => if acceptable tool ctx dir then Some (path_join dir tool) else first_acceptable tool ctx dirs
  end.
Definition find_real_binary (tool : bytes) (ctx : ResolveCtx) : option bytes := first_acceptable tool ctx (path ctx).

Definition child_path (ctx : ResolveCtx) : option bytes :=
  if depth ctx <? DEPTH_CAP then None
  else
    from_utf8_lossy <$> join_paths (filter (fun dir => canonical d dir <> ctx_grove_bin ctx) (path ctx)).

Definition child_skip (ctx : ResolveCtx) (chosen : bytes) : option bytes :=
  let skip :=
    match canonical d chosen with
    | Some c => if bool_decide (c ∈ skip ctx) then skip ctx else skip ctx ++ [c]
    | None => skip ctx
    end in
  from_utf8_lossy <$> join_paths skip.
End resolve.

(** * Planning the arguments (hooks.rs) *)

Inductive Slot := Space (i : nat) | Eq (i : nat).
Definition SETTINGS : bytes := str "--settings".
Definition SETTINGS_EQ : bytes := str "--settings=".

Definition slot_step (n : nat) (found : option Slot) (i : nat) (arg : bytes) : option Slot :=
  if bytes_eqb arg SETTINGS && Nat.ltb (i + 1) n then Some (Space i)
  else if starts_with SETTINGS_EQ arg then Some (Eq i)
  else found.
Fixpoint slots_from (n : nat) (found : option Slot) (i : nat) (args : list bytes) : option Slot :=
  match args with
  | [] => found
  | arg :: args => slots_from n (slot_step n found i arg) (S i) args
  end.
Definition last_settings_slot (args : list bytes) : option Slot := slots_from (length args) None 0 args.

Definition trim_start (s : bytes) : bytes := strip_while ws_head (length s) s.

Definition entries_of (v : option Value) : list (bytes * Value) := default [] (v ≫= as_object).
Definition groups_in (v : option Value) : list Value := default [] (v ≫= as_array).

(** One event's groups: the user's, then Grove's. *)
Definition merge_event (hooks : list (bytes * Value)) (e : bytes * Value) : list (bytes * Value) :=
  let merged := groups_in (obj_get e.1 hooks) ++ groups_in (Some e.2) in
  obj_insert e.1 (Arr merged) (obj_remove e.1 hooks).

Definition HOOKS : bytes := str "hooks".
Definition merge_hook_groups (base groups : Value) : Value :=
  match base with
  | Obj base =>
      let hooks := entries_of (obj_get HOOKS base) in
      let hooks := match as_object groups with Some gs => foldl merge_event hooks gs | None => hooks end in
      Obj (obj_insert HOOKS (Obj hooks) (obj_remove HOOKS base))
  | _ => base
  end.

Section plan.
Context `{JsonText} (read_file : bytes -> option bytes).

Definition load_settings (raw : bytes) : option Value :=
  text ← (if starts_with (str "{") (trim_start raw) then Some raw else read_file raw ≫= from_utf8);
  v ← from_str text;
  match v with Obj _ => Some v | _ => None end.

Definition slot_value (args : list bytes) (s : Slot) : bytes :=
  match s with
  | Space i => default [] (args !! S i)
  | Eq i => drop (length SETTINGS_EQ) (default [] (args !! i))
  end.
Definition put_slot (args : list bytes) (s : Slot) (v : bytes) : list bytes :=
  match s with
  | Space i => <[S i := v]> args
  | Eq i => <[i := SETTINGS_EQ ++ v]> args
  end.

Definition hooks_object (groups : Value) : Value := Obj [(HOOKS, groups)].

Definition plan_claude_settings (user_args : list bytes) (groups : Value) : list bytes :=
  match last_settings_slot user_args with
  | None => [SETTINGS; to_string (hooks_object groups)] ++ user_args
  | Some slot =>
      match load_settings (slot_value user_args slot) with
      | None => user_args
      | Some base => put_slot user_args slot (to_string (merge_hook_groups base groups))
      end
  end.

Definition plan_argv (tool : bytes) (user_args : list bytes) (agent_bin : bytes) (claude_plugin : option bytes) :
    list bytes :=
  if bytes_eqb tool (str "claude") then
    match claude_plugin with
    | Some dir => [str "--plugin-dir"; from_utf8_lossy dir] ++ user_args
    | None => plan_claude_settings user_args (claude_hook_groups agent_bin)
    end
  else if bytes_eqb tool (str "codex") then codex_hook_config_args agent_bin ++ user_args
  else user_args.
End plan.

(** * Talking to the daemon (rpc.rs) *)

(** What one connection meets: whether it is made, whether each write goes
    through, and the lines that are read in time. *)
Record Wire := mkWire {
  connects : bool;
  hello_written : bool;
  ack_line : option bytes;
  request_written : bool;
  reply_line : option bytes
}.

Definition agent_claim_params_value (p : AgentClaimParams) : Value :=
  object [(str "sessionId", Str (acp_session_id p)); (str "tool", Str (acp_tool p))].
Definition agent_event_params_value (p : AgentEventParams) : Value :=
  object ([(str "sessionId", Str (aep_session_id p)); (str "claimId", Str (aep_claim_id p)); (str "event", Str (aep_event p))] ++
    some_field "toolName" (Str <$> aep_tool_name p) ++ [(str "atNs", Int (aep_at_ns p))]).

Section rpc.
Context `{JsonText}.

Definition agent_hello (session_key : bytes) : bytes :=
  encode_ndjson_line (object (hello_fields (mkHello GROVE_DAEMON_PROTOCOL_VERSION session_key (str "agent") Protocol.Agent))).
Definition read_line {T} (of_value : Value -> option T) (line : option bytes) : option T :=
  l ← line; match decode_ndjson_line of_value l with Ok t => Some t | Err _ => None end.

(** The lines that were written, and whether the connection is admitted. *)
Definition open_conn (w : Wire) (session_key : bytes) : list bytes * bool :=
  if negb (connects w) then ([], false)
  else ([agent_hello session_key],
        hello_written w && match read_line hello_ack_of (ack_line w) with Some a => ack_ok a | None => false end).

Definition rpc (w : Wire) (session_key method : bytes) (params : Value) : list bytes * option Value :=
  let '(sent, ok) := open_conn w session_key in
  if negb ok then (sent, None)
  else (sent ++ [encode_ndjson_line (control_value (MRequest (mkRpcRequest 1 method params)))],
        if request_written w then
          match read_line control_of (reply_line w) with
          | Some (MReply r) => rp_result r
          | _ => None
          end
        else None).

Definition claim (w : Wire) (session_key session_id tool : bytes) : list bytes * option bytes :=
  let '(sent, result) := rpc w session_key METHOD_AGENT_CLAIM (agent_claim_params_value (mkAgentClaimParams session_id tool)) in
  (sent, result ≫= fun v => get "claimId" v ≫= as_str).

Definition send_event (w : Wire) (session_key session_id claim_id event : bytes) (tool_name : option bytes) (at_ns : Z) :
    list bytes :=
  (rpc w session_key METHOD_AGENT_EVENT
     (agent_event_params_value (mkAgentEventParams session_id claim_id event tool_name at_ns))).1.

(** * One hook event (event.rs) *)

Definition MAX_STDIN : Z := 1024 * 1024.
Definition BUDGET_MS : Z := 150.

Definition parse_hook_event (raw : bytes) : option (bytes * option bytes) :=
  payload ← from_str raw;
  event ← get "hook_event_name" payload ≫= as_str;
  Some (event, get "tool_name" payload ≫= as_str).
Definition read_hook_event (stdin : bytes) : option (bytes * option bytes) :=
  from_utf8 (take (Z.to_nat MAX_STDIN) stdin) ≫= parse_hook_event.

Definition SOCK_ENV : bytes := str "GROVE_DAEMON_SOCK".
Definition KEY_ENV : bytes := str "GROVE_SESSION_KEY".
Definition SESSION_ENV : bytes := str "GROVE_SESSION_ID".
Definition CLAIM_ENV : bytes := str "GROVE_CLAIM_ID".

(** What the process writes to the socket; it always exits with 0. *)
Definition event_run (e : Env) (w : Wire) (stdin : bytes) (now_ns : Z) : list bytes :=
  match read_hook_event stdin with
  | None => []
  | Some (event, tool_name) =>
      match getenv e SOCK_ENV, getenv e KEY_ENV, getenv e SESSION_ENV, getenv e CLAIM_ENV with
      | Some _, Some key, Some session_id, Some claim_id => send_event w key session_id claim_id event tool_name now_ns
      | _, _, _, _ => []
      end
  end.

(** * Launching (launch.rs) *)

Definition user_args_of (rest : list bytes) : list bytes :=
  match list_find (fun a => a = str "--") rest with
  | Some (i, _) => drop (S i) rest
  | None => rest
  end.

Definition agent_bin_path (e : Env) : bytes :=
  match grove_bin_dir e with Some dir => path_join dir (str "grove-agent") | None => str "grove-agent" end.

(** The claim is waited for at most so long; [in_time] is whether it answered. *)
Definition launch_claim (e : Env) (w : Wire) (in_time : bool) (tool : bytes) : option bytes :=
  match getenv e SOCK_ENV, getenv e KEY_ENV, getenv e SESSION_ENV with
  | Some _, Some key, Some session_id => if in_time then (claim w key session_id tool).2 else None
  | _, _, _ => None
  end.

(** An argument with a NUL is cut there. *)
Definition cstring (v : bytes) : bytes := match position 0 v with Some i => take i v | None => v end.

Inductive Outcome :=
| Exit (code : Z)
| Become (real : bytes) (argv : list bytes) (vars : list (bytes * bytes)).   (* the variables that are set *)

Definition opt_var (k : bytes) (v : option bytes) : list (bytes * bytes) := match v with Some v => [(k, v)] | None => [] end.

Definition exec_vars (d : Disk) (ctx : ResolveCtx) (real : bytes) : list (bytes * bytes) :=
  [(str "GROVE_AGENT_DEPTH", show_dec (wrap 32 (depth ctx + 1)))] ++
  opt_var (str "GROVE_AGENT_SKIP") (child_skip d ctx real) ++ opt_var (str "PATH") (child_path d ctx).

Definition launch_run (d : Disk) (e : Env) (w : Wire) (in_time : bool) (plugin : option bytes) (read_file : bytes -> option bytes)
    (args : list bytes) : Outcome :=
  match args with
  | [] => Exit 2
  | tool :: rest =>
      let ctx := from_env d e in
      match find_real_binary d tool ctx with
      | None => Exit 127
      | Some real =>
          let argv := plan_argv read_file tool (user_args_of rest) (agent_bin_path e) plugin in
          Become (cstring (from_utf8_lossy real)) (cstring <$> tool :: argv)
            (opt_var CLAIM_ENV (launch_claim e w in_time tool) ++ exec_vars d ctx real)
      end
  end.
End rpc.

(** * The binary that is found *)

Section found.
Context (d : Disk).

Lemma first_acceptable_spec tool ctx dirs :
  match first_acceptable d tool ctx dirs with
  | Some real => exists before dir after, dirs = before ++ dir :: after /\ real = path_join dir tool /\
      acceptable d tool ctx dir = true /\ Forall (fun dir => acceptable d tool ctx dir = false) before
  | None => Forall (fun dir => acceptable d tool ctx dir = false) dirs
  end.
Proof.
  induction dirs as [|dir dirs IH]; cbn [first_acceptable]; [constructor|]. destruct (acceptable d tool ctx dir) eqn:E.
  - exists [], dir, dirs. split; [done|]. split; [done|]. split; [done|constructor].
  - destruct (first_acceptable d tool ctx dirs) as [real|]; [|by constructor].
    destruct IH as (b & x & a & -> & Hr & Ha & Hb). exists (dir :: b), x, a. split; [done|]. split; [done|]. split; [done|by constructor].
Qed.

Lemma same_spec a b : same a b = true <-> b = Some a.
Proof. unfold same. rewrite bool_decide_eq_true. split; congruence. Qed.

(** The program that is run is an executable file, the first on PATH that is
    none of Grove's own: not in Grove's directory or the launcher's, not the
    launcher itself under another name, not a shim, and, under the cap, not a
    program that this chain of launches has run before. When there is none, no
    directory on PATH has one. *)
Theorem never_runs_itself tool ctx :
  let fine p dir :=
    is_executable_file d p = true /\ is_grove_wrapper d p = false /\
    (forall c, canonical d dir = Some c -> ctx_grove_bin ctx <> Some c /\ self_dir ctx <> Some c) /\
    (forall c, canonical d p = Some c -> self_exe ctx <> Some c /\ (depth ctx < DEPTH_CAP -> c ∉ skip ctx)) in
  match find_real_binary d tool ctx with
  | Some real => exists before dir after, path ctx = before ++ dir :: after /\ real = path_join dir tool /\ fine real dir /\
      Forall (fun dir => ~ fine (path_join dir tool) dir) before
  | None => Forall (fun dir => ~ fine (path_join dir tool) dir) (path ctx)
  end.
Proof.
  intros fine.
  assert (Hfine : forall dir, acceptable d tool ctx dir = true <-> fine (path_join dir tool) dir).
  { intros dir. unfold acceptable, fine, own_dir, own_or_skipped. rewrite !andb_true_iff, !negb_true_iff.
    assert (H1 : match canonical d dir with Some c => same c (ctx_grove_bin ctx) || same c (self_dir ctx) | None => false end = false <->
      forall c, canonical d dir = Some c -> ctx_grove_bin ctx <> Some c /\ self_dir ctx <> Some c).
    { destruct (canonical d dir) as [c|]; [|split; [done|done]]. rewrite <- not_true_iff_false, orb_true_iff, !same_spec.
      split; [intros Hn c' [= <-]; tauto|]. intros H. specialize (H c eq_refl). tauto. }
    assert (H2 : match canonical d (path_join dir tool) with
        Some c => same c (self_exe ctx) || ((depth ctx <? DEPTH_CAP) && bool_decide (c ∈ skip ctx)) | None => false end = false <->
      forall c, canonical d (path_join dir tool) = Some c -> self_exe ctx <> Some c /\ (depth ctx < DEPTH_CAP -> c ∉ skip ctx)).
    { destruct (canonical d (path_join dir tool)) as [c|]; [|split; [done|done]].
      rewrite <- not_true_iff_false, orb_true_iff, same_spec, andb_true_iff, Z.ltb_lt, bool_decide_eq_true.
      split; [intros Hn c' [= <-]; tauto|]. intros H. specialize (H c eq_refl). tauto. }
    rewrite H1, H2. tauto. }
  assert (Hn : forall l, Forall (fun dir => acceptable d tool ctx dir = false) l -> Forall (fun dir => ~ fine (path_join dir tool) dir) l).
  { intros l Hl. eapply Forall_impl; [exact Hl|]. intros dir Hd Hf. apply Hfine in Hf. congruence. }
  unfold find_real_binary. pose proof (first_acceptable_spec tool ctx (path ctx)) as H.
  destruct (first_acceptable _ _ _ _) as [real|]; [|by apply Hn].
  destruct H as (b & dir & a & Hp & -> & Ha & Hb). exists b, dir, a. split; [done|]. split; [done|].
  split; [by apply Hfine|by apply Hn].
Qed.
End found.

(** * Chains of launches *)

Section chain.
Context (d : Disk) (tool : bytes).

(** The environment after some variables are set. *)
Fixpoint var_value (k : bytes) (vars : list (bytes * bytes)) : option bytes :=
  match vars with
  | [] => None
  | (k', v) :: vars => if bytes_eqb k k' then Some v else var_value k vars
  end.
Definition with_vars (e : Env) (vars : list (bytes * bytes)) : Env :=
  mkEnv (fun k => match var_value k vars with Some v => Some v | None => getenv e k end) (current_exe e) (home e).

(** One launch: what it runs, and the environment it leaves to it. *)
Definition relaunch (e e' : Env) (c : bytes) : Prop :=
  exists real, find_real_binary d tool (from_env d e) = Some real /\ canonical d real = Some c /\
    e' = with_vars e (exec_vars d (from_env d e) real).
(** What was run looks the tool up by its name and meets the shim in Grove's
    directory, which launches again. *)
Definition meets_shim (e : Env) : Prop :=
  exists dir c, dir ∈ path (from_env d e) /\ canonical d dir = Some c /\ ctx_grove_bin (from_env d e) = Some c.

Inductive chain : Env -> list bytes -> Env -> Prop :=
| chain_nil e : chain e [] e
| chain_step e e1 c cs e2 : relaunch e e1 c -> meets_shim e1 -> chain e1 cs e2 -> chain e (c :: cs) e2.

(** Paths are text without colons. *)
Definition plain_path (p : bytes) : Prop := (58 ∉ p) /\ utf8_valid p = true.
Context (canonical_plain : forall p c, canonical d p = Some c -> plain_path c).

Lemma join_plain ps : Forall plain_path ps -> exists j, join_paths ps = Some j /\ utf8_valid j = true /\ (ps <> [] -> split_paths j = ps).
Proof.
  intros Hp. unfold join_paths. exists (join (str ":") ps).
  assert (existsb (fun p => bool_decide (58 ∈ p)) ps = false) as ->.
  { apply not_true_iff_false. intros (p & Hin & Hb)%existsb_exists. apply bool_decide_eq_true in Hb.
    rewrite Forall_forall in Hp. by destruct (Hp p (proj2 (list_elem_of_In _ _) Hin)). }
  split; [done|]. split.
  - induction Hp as [|p ps [_ Hv] Hp IH]; [done|]. destruct ps as [|q ps]; [done|].
    rewrite join_cons by done. rewrite utf8_valid_app by done. rewrite utf8_valid_app by done. exact IH.
  - intros Hne. unfold split_paths. change (str ":") with [58]. induction Hp as [|p ps [Hc _] Hp IH]; [done|].
    destruct ps as [|q ps]; [by apply split_on_piece|]. rewrite join_cons by done. cbn [app].
    rewrite split_on_sep by done. by rewrite IH.
Qed.

Lemma small_depth n : 0 <= n < 9 -> parse_u32 (show_dec n) = Some n.
Proof.
  intros Hn. apply (bool_decide_eq_true_1 (parse_u32 (show_dec n) = Some n)).
  exact (below_cases (fun n => bool_decide (parse_u32 (show_dec n) = Some n)) 9 n eq_refl Hn).
Qed.

Context (canonical_empty : canonical d [] = None).

Definition plain_env (e : Env) : Prop :=
  Forall plain_path (path (from_env d e)) /\ Forall plain_path (skip (from_env d e)).

Section step.
Context (e : Env) (real c : bytes) (Hc : canonical d real = Some c) (Hplain : plain_env e)
  (Hdepth : 0 <= depth (from_env d e) <= DEPTH_CAP).
Let ctx : ResolveCtx := from_env d e.
Let e' : Env := with_vars e (exec_vars d ctx real).

Lemma step_grove_bin : ctx_grove_bin (from_env d e') = ctx_grove_bin ctx.
Proof.
  unfold from_env, grove_bin_dir. cbn [ctx_grove_bin]. unfold e', with_vars. cbn [getenv home].
  unfold exec_vars, opt_var. by destruct (child_skip d ctx real), (child_path d ctx).
Qed.

Lemma step_skip : skip (from_env d e') = if bool_decide (c ∈ skip ctx) then skip ctx else skip ctx ++ [c].
Proof.
  assert (Hs : exists j, child_skip d ctx real = Some j /\
    split_paths j = if bool_decide (c ∈ skip ctx) then skip ctx else skip ctx ++ [c]).
  { unfold child_skip. rewrite Hc. set (l := if bool_decide (c ∈ skip ctx) then skip ctx else skip ctx ++ [c]).
    destruct (join_plain l) as (j & Hj & Hv & Hsp).
    { unfold l. destruct (bool_decide _); [apply Hplain|]. apply Forall_app. split; [apply Hplain|].
      constructor; [by eapply canonical_plain|constructor]. }
    exists j. rewrite Hj. cbn [fmap option_fmap option_map]. rewrite from_utf8_lossy_valid by done. split; [done|]. apply Hsp. unfold l.
    destruct (bool_decide_reflect (c ∈ skip ctx)) as [Hin|]; [by intros Hn; rewrite Hn, elem_of_nil in Hin|by destruct (skip ctx)]. }
  destruct Hs as (j & Hj & Hsp). rewrite <- Hsp. unfold from_env at 1. cbn [skip]. unfold e', with_vars. cbn [getenv].
  unfold exec_vars. by rewrite Hj.
Qed.

Lemma step_depth : depth ctx < DEPTH_CAP -> depth (from_env d e') = depth ctx + 1.
Proof.
  intros Hd. unfold from_env at 1. cbn [depth]. unfold e', with_vars. cbn [getenv]. unfold exec_vars.
  change (var_value (str "GROVE_AGENT_DEPTH") ([(str "GROVE_AGENT_DEPTH", show_dec (wrap 32 (depth ctx + 1)))] ++ _))
    with (Some (show_dec (wrap 32 (depth ctx + 1)))). cbn [mbind option_bind].
  fold ctx in Hdepth. unfold DEPTH_CAP in *. rewrite wrap_small by lia. rewrite small_depth by lia. done.
Qed.

Lemma step_path_same : depth ctx < DEPTH_CAP -> path (from_env d e') = path ctx.
Proof.
  intros Hd. unfold from_env. cbn [path]. unfold e', with_vars. cbn [getenv]. unfold exec_vars, child_path.
  rewrite (proj2 (Z.ltb_lt _ _) Hd). by destruct (child_skip d ctx real).
Qed.

Lemma step_no_shim : DEPTH_CAP <= depth ctx -> ~ meets_shim e'.
Proof.
  intros Hd (dir & c' & Hin & Hcan & Hb). rewrite step_grove_bin in Hb.
  set (kept := filter (fun dir => canonical d dir <> ctx_grove_bin ctx) (path ctx)).
  assert (Hp : exists j, child_path d ctx = Some j /\ (kept <> [] -> split_paths j = kept) /\ (kept = [] -> split_paths j = [[]])).
  { unfold child_path. rewrite (proj2 (Z.ltb_ge _ _) Hd). fold kept.
    destruct (join_plain kept) as (j & Hj & Hv & Hsp); [by apply Forall_filtered, Hplain|].
    exists j. rewrite Hj. cbn [fmap option_fmap option_map]. rewrite from_utf8_lossy_valid by done. split; [done|]. split; [done|].
    intros Hk. rewrite Hk in Hj. injection Hj as <-. done. }
  destruct Hp as (j & Hj & H1 & H2).
  assert (Hpath : path (from_env d e') = split_paths j).
  { unfold from_env. cbn [path]. unfold e', with_vars. cbn [getenv]. unfold exec_vars. rewrite Hj.
    by destruct (child_skip d ctx real). }
  rewrite Hpath in Hin. destruct (decide (kept = [])) as [Hk|Hk].
  - rewrite (H2 Hk), list_elem_of_singleton in Hin. subst dir. congruence.
  - rewrite (H1 Hk) in Hin. apply list_elem_of_filter in Hin as [Hne _]. congruence.
Qed.
End step.

(** C28: launches that come back to the shim in Grove's directory end: from depth n
    there are at most 8 - n of them, and each runs another program, none that
    was run before. *)
Theorem launch_chain_ends e cs e' :
  chain e cs e' -> plain_env e -> 0 <= depth (from_env d e) <= DEPTH_CAP ->
  Z.of_nat (length cs) <= DEPTH_CAP - depth (from_env d e) /\ NoDup cs /\ Forall (fun c => c ∉ skip (from_env d e)) cs.
Proof.
  induction 1 as [e|e e1 c cs e2 (real & Hreal & Hc & ->) Hm Hch IH]; intros Hp Hd.
  { split; [cbn [length]; lia|]. split; constructor. }
  destruct (decide (depth (from_env d e) < DEPTH_CAP)) as [Hlt|Hge].
  2: { exfalso. eapply step_no_shim; [exact Hp|..|exact Hm]. lia. }
  pose proof (step_skip e real c Hc Hp) as Hs. pose proof (step_depth e real Hd Hlt) as Hdep.
  pose proof (step_path_same e real Hlt) as Hpath.
  assert (Hnew : c ∉ skip (from_env d e)).
  { unfold find_real_binary in Hreal. pose proof (first_acceptable_spec d tool (from_env d e) (path (from_env d e))) as H.
    rewrite Hreal in H. destruct H as (b & dir & a & _ & -> & Ha & _). unfold acceptable in Ha.
    rewrite !andb_true_iff, !negb_true_iff in Ha. destruct Ha as [[_ Ho] _]. unfold own_or_skipped in Ho. rewrite Hc in Ho.
    apply orb_false_iff in Ho as [_ Ho]. rewrite (proj2 (Z.ltb_lt _ _) Hlt) in Ho. cbn [andb] in Ho.
    by apply bool_decide_eq_false in Ho. }
  rewrite bool_decide_eq_false_2 in Hs by done.
  destruct IH as (Hl & Hnd & Hall).
  - split; [by rewrite Hpath; apply Hp|]. rewrite Hs. apply Forall_app. split; [apply Hp|].
    constructor; [by eapply canonical_plain|constructor].
  - lia.
  - rewrite Hs in Hall. split; [cbn [length]; lia|]. split.
    + constructor; [|done]. intros Hin. rewrite Forall_forall in Hall. apply (Hall c Hin). rewrite elem_of_app, list_elem_of_singleton. by right.
    + constructor; [done|]. eapply Forall_impl; [exact Hall|]. intros x Hx Hx'. apply Hx. rewrite elem_of_app. by left.
Qed.
End chain.

(** * Settings are merged *)

Lemma merge_event_get k hooks e g :
  obj_get k (merge_event hooks (e, g)) =
    if bool_decide (k = e) then Some (Arr (groups_in (obj_get e hooks) ++ groups_in (Some g))) else obj_get k hooks.
Proof.
  unfold merge_event. cbn [fst snd]. destruct (bool_decide_reflect (k = e)) as [->|Hne]; [apply obj_get_insert_eq|].
  by rewrite obj_get_insert_ne, obj_get_remove_ne.
Qed.

Lemma merge_events_get k gs hooks :
  NoDup gs.*1 ->
  obj_get k (foldl merge_event hooks gs) =
    match obj_get k gs with
    | Some g => Some (Arr (groups_in (obj_get k hooks) ++ groups_in (Some g)))
    | None => obj_get k hooks
    end.
Proof.
  revert hooks. induction gs as [|[e g] gs IH]; intros hooks; [done|]. rewrite fmap_cons. intros [He Hgs]%NoDup_cons.
  cbn [fst] in He. cbn [foldl obj_get]. rewrite IH by done. rewrite merge_event_get. destruct (bool_decide_reflect (k = e)) as [->|Hne].
  - rewrite bytes_eqb_refl. apply obj_get_in in He. by rewrite He.
  - by rewrite bytes_eqb_ne.
Qed.


Lemma groups_ok v : match v with Some v => json_ok v = true | None => True end -> forallb json_ok (groups_in v) = true.
Proof. destruct v as [[]|]; done. Qed.

Lemma merge_ok base gs :
  json_ok (Obj base) = true -> json_ok (Obj gs) = true -> json_ok (merge_hook_groups (Obj base) (Obj gs)) = true.
Proof.
  intros Hb Hg. unfold merge_hook_groups. cbn [as_object]. apply json_insert_ok; [done| |by apply json_remove_ok].
  assert (Hh : json_ok (Obj (entries_of (obj_get HOOKS base))) = true).
  { unfold entries_of. destruct (obj_get HOOKS base) as [[]|] eqn:E; cbn; try done. by eapply json_get_ok in E. }
  revert Hh. generalize (entries_of (obj_get HOOKS base)) as hooks. apply obj_ok in Hg as [Hg _].
  induction Hg as [|[e g] gs [He Hv] Hg IH]; intros hooks Hh; [done|]. cbn [foldl]. apply IH. unfold merge_event. cbn [fst snd] in *.
  apply json_insert_ok; [done| |by apply json_remove_ok]. cbn [json_ok]. rewrite forallb_app, andb_true_iff. split; apply groups_ok; [|done].
  destruct (obj_get e hooks) eqn:E; [by eapply json_get_ok in E|done].
Qed.

(** * The slot *)

Lemma slots_split n i l :
  (forall f, slots_from n f i l = f) \/
  exists a x b s, l = a ++ x :: b /\ (forall f, slot_step n f (i + length a) x = Some s) /\
    (forall f, slots_from n f (S (i + length a)) b = f).
Proof.
  revert i. induction l as [|x l IH]; intros i; [by left|]. destruct (IH (S i)) as [Hq|(a & y & b & s & -> & Hs & Hb)].
  - assert (Hx : (forall f, slot_step n f i x = f) \/ exists s, forall f, slot_step n f i x = Some s).
    { unfold slot_step. destruct (_ && _); [by right; eexists|]. destruct (starts_with _ _); [by right; eexists|by left]. }
    destruct Hx as [Hx|[s Hs]].
    + left. intros f. cbn [slots_from]. by rewrite Hx.
    + right. exists [], x, l, s. cbn [length]. rewrite Nat.add_0_r. done.
  - right. exists (x :: a), y, b, s. cbn [length]. replace (i + S (length a))%nat with (S i + length a)%nat by lia. done.
Qed.

Lemma slots_app n f i a b : slots_from n f i (a ++ b) = slots_from n (slots_from n f i a) (i + length a) b.
Proof.
  revert f i. induction a as [|x a IH]; intros f i; cbn [slots_from app length]; [by rewrite Nat.add_0_r|].
  rewrite IH. f_equal. lia.
Qed.

Lemma slot_step_value n f i v : slot_step n f i (123 :: v) = f.
Proof. done. Qed.

(** The arguments around the slot; the value in it can be replaced. *)
Lemma last_slot_spec args s :
  last_settings_slot args = Some s ->
  (exists a v b, args = a ++ SETTINGS :: v :: b /\ s = Space (length a) /\
     forall t, last_settings_slot (a ++ SETTINGS :: (123 :: t) :: b) = Some s) \/
  (exists a v b, args = a ++ (SETTINGS_EQ ++ v) :: b /\ s = Eq (length a) /\
     forall t, last_settings_slot (a ++ (SETTINGS_EQ ++ t) :: b) = Some s).
Proof.
  unfold last_settings_slot. intros H. destruct (slots_split (length args) 0 args) as [Hq|(a & x & b & s' & -> & Hs & Hb)].
  { by rewrite Hq in H. }
  rewrite slots_app in H. cbn [slots_from] in H. rewrite Hs, Hb in H. injection H as ->. cbn [Nat.add] in Hs, Hb.
  pose proof (Hs None) as Hx. unfold slot_step in Hx. destruct (bytes_eqb x SETTINGS && _) eqn:E.
  - left. injection Hx as <-. apply andb_true_iff in E as [->%bytes_eqb_eq Hl%Nat.ltb_lt].
    rewrite length_app in Hl. destruct b as [|v b]; [cbn [length] in Hl; lia|]. exists a, v, b. split; [done|]. split; [done|]. intros t.
    rewrite slots_app. cbn [slots_from Nat.add]. rewrite slot_step_value.
    assert (Hb' : forall f, slots_from (length (a ++ SETTINGS :: v :: b)) f (S (S (length a))) b = f).
    { intros f. destruct (slots_split (length (a ++ SETTINGS :: v :: b)) (S (S (length a))) b) as [Hq|(a' & y & b' & s & -> & Hs' & Hb')]; [done|].
      specialize (Hb None). cbn [slots_from] in Hb. rewrite slots_app in Hb. cbn [slots_from] in Hb. by rewrite Hs', Hb' in Hb. }
    assert (length (a ++ SETTINGS :: (123 :: t) :: b) = length (a ++ SETTINGS :: v :: b)) as -> by (by rewrite !length_app).
    rewrite Hb'. apply Hs.
  - right. destruct (starts_with SETTINGS_EQ x) eqn:E1; [|done]. injection Hx as <-.
    apply starts_with_iff in E1 as [v ->]. exists a, v, b. split; [done|]. split; [done|]. intros t.
    rewrite slots_app. cbn [slots_from Nat.add].
    assert (length (a ++ (SETTINGS_EQ ++ t) :: b) = length (a ++ (SETTINGS_EQ ++ v) :: b)) as -> by (by rewrite !length_app).
    rewrite Hb. unfold slot_step. assert (bytes_eqb (SETTINGS_EQ ++ t) SETTINGS = false) as -> by done.
    cbn [andb]. by assert (starts_with SETTINGS_EQ (SETTINGS_EQ ++ t) = true) as -> by (apply starts_with_app).
Qed.

Lemma insert_middle {A} (a : list A) x y b : <[length a := y]> (a ++ x :: b) = a ++ y :: b.
Proof. induction a as [|z a IH]; [done|]. change (z :: <[length a := y]> (a ++ x :: b) = z :: a ++ y :: b). by rewrite IH. Qed.
Lemma insert_next {A} (a : list A) k x y b : <[S (length a) := y]> (a ++ k :: x :: b) = a ++ k :: y :: b.
Proof.
  induction a as [|z a IH]; [done|]. change (z :: <[S (length a) := y]> (a ++ k :: x :: b) = z :: a ++ k :: y :: b). by rewrite IH.
Qed.
Lemma lookup_next {A} (a : list A) k x b : (a ++ k :: x :: b) !! S (length a) = Some x.
Proof. induction a as [|z a IH]; [done|]. exact IH. Qed.

Section settings.
Context `{JsonTextLaws} (read_file : bytes -> option bytes).

Lemma load_own m : json_ok (Obj m) = true -> load_settings read_file (to_string (Obj m)) = Some (Obj m).
Proof.
  intros Hm. unfold load_settings. destruct (to_string_object m) as [t Ht].
  assert (starts_with (str "{") (trim_start (to_string (Obj m))) = true) as ->.
  { rewrite Ht. unfold trim_start. rewrite strip_while_none by done. done. }
  cbn [mbind option_bind]. rewrite from_to_string by done. done.
Qed.

(** The settings that Claude takes: the last ones. *)
Definition effective (argv : list bytes) : option Value :=
  s ← last_settings_slot argv; load_settings read_file (slot_value argv s).

Lemma effective_replaced args s m :
  last_settings_slot args = Some s -> json_ok (Obj m) = true ->
  effective (put_slot args s (to_string (Obj m))) = Some (Obj m) /\
  last_settings_slot (put_slot args s (to_string (Obj m))) = Some s.
Proof.
  intros Hs Hm. unfold effective. destruct (to_string_object m) as [t Ht].
  destruct (last_slot_spec args s Hs) as [(a & v & b & -> & -> & Hput)|(a & v & b & -> & -> & Hput)]; cbn [put_slot].
  - rewrite insert_next, Ht, Hput, <- Ht. split; [|done]. cbn [mbind option_bind slot_value].
    rewrite lookup_next. by apply load_own.
  - rewrite insert_middle, Hput. split; [|done]. cbn [mbind option_bind slot_value].
    rewrite list_lookup_middle by done. by apply load_own.
Qed.

Lemma loaded_is_object raw v : load_settings read_file raw = Some v -> exists m, v = Obj m.
Proof.
  unfold load_settings. intros (text & _ & (v' & _ & E)%bind_Some)%bind_Some. destruct v' as [| | | | | |m]; simplify_eq. by exists m.
Qed.

(** With no settings of the user, Grove's are the last. *)
Lemma own_slot args v : last_settings_slot args = None -> last_settings_slot (SETTINGS :: (123 :: v) :: args) = Some (Space 0).
Proof.
  unfold last_settings_slot. cbn [slots_from length]. rewrite slot_step_value. change (slot_step _ None 0 SETTINGS) with (Some (Space 0)).
  intros Hn. generalize (Some (Space 0)) as f. assert (Hgen : forall l n i f, slots_from n None i l = None ->
    slots_from (S (S n)) f (S (S i)) l = f).
  { clear. induction l as [|x l IH]; intros n i f H; [done|]. cbn [slots_from] in *.
    assert (Hx : slot_step n None i x = None).
    { destruct (slot_step n None i x) as [s|] eqn:E; [|done]. exfalso.
      assert (Hp : forall l i f, slots_from n (Some f) i l <> None).
      { clear. induction l as [|y l IH]; intros i f; [done|]. cbn [slots_from]. unfold slot_step. case_match; [apply IH|]. case_match; apply IH. }
      by apply Hp in H. }
    rewrite Hx in H. assert (slot_step (S (S n)) f (S (S i)) x = f) as ->; [|by apply (IH n (S i))].
    unfold slot_step in *. change (S (S i) + 1 <? S (S n))%nat with (i + 1 <? n)%nat. case_match; [done|]. by case_match. }
  intros f. by apply (Hgen args _ 0%nat).
Qed.

Lemma effective_own args m :
  last_settings_slot args = None -> json_ok (Obj m) = true -> effective ([SETTINGS; to_string (Obj m)] ++ args) = Some (Obj m).
Proof.
  intros Hn Hm. unfold effective. destruct (to_string_object m) as [t Ht]. cbn [app]. rewrite Ht, own_slot, <- Ht by done.
  by apply load_own.
Qed.

Lemma hooks_object_ok gs : json_ok (Obj gs) = true -> json_ok (hooks_object (Obj gs)) = true.
Proof. intros Hg. unfold hooks_object. cbn [json_ok forallb fst snd andb fmap list_fmap]. cbn [json_ok] in Hg. by rewrite Hg. Qed.
End settings.

(** The argument that holds the slot's value. *)
Definition slot_arg (s : Slot) : nat := match s with Space i => S i | Eq i => i end.
Lemma put_slot_length args s v : length (put_slot args s v) = length args.
Proof. destruct s; apply length_insert. Qed.
Lemma put_slot_other args s v i : i <> slot_arg s -> put_slot args s v !! i = args !! i.
Proof. intros Hi. destruct s; by apply list_lookup_insert_ne. Qed.

(** What Claude takes of the planned arguments. With no settings of the
    user, Grove's hooks come first and the user's arguments follow unchanged.
    Settings that cannot be loaded are left as they are, with every other
    argument. Otherwise only the last settings change, and what is taken of them
    then is the user's: every key but the hooks, every event Grove does not hook,
    and, at each event that Grove hooks, the user's groups and then Grove's. *)
Theorem settings_are_merged `{JsonTextLaws} read_file args gs :
  json_ok (Obj gs) = true ->
  (forall base, effective read_file args = Some base -> json_ok base = true) ->
  let argv := plan_claude_settings read_file args (Obj gs) in
  match last_settings_slot args, effective read_file args with
  | None, _ => drop 2 argv = args /\ effective read_file argv = Some (hooks_object (Obj gs))
  | Some _, None => argv = args
  | Some slot, Some base =>
      last_settings_slot argv = Some slot /\ length argv = length args /\
      (forall i, i <> slot_arg slot -> argv !! i = args !! i) /\
      exists user merged hooks, base = Obj user /\ effective read_file argv = Some (Obj merged) /\
        (forall k, k <> HOOKS -> obj_get k merged = obj_get k user) /\ obj_get HOOKS merged = Some (Obj hooks) /\
        forall event,
          let own := obj_get event (entries_of (obj_get HOOKS user)) in
          obj_get event hooks =
            match obj_get event gs with Some g => Some (Arr (groups_in own ++ groups_in (Some g))) | None => own end
  end.
Proof.
  intros Hg Hb argv. unfold argv, plan_claude_settings. destruct (last_settings_slot args) as [slot|] eqn:Es.
  - assert (He : effective read_file args = load_settings read_file (slot_value args slot)) by (unfold effective; by rewrite Es).
    rewrite He in Hb. rewrite He. destruct (load_settings read_file (slot_value args slot)) as [base|] eqn:El; [|done].
    destruct (loaded_is_object _ _ _ El) as [user ->]. specialize (Hb _ eq_refl).
    pose proof (merge_ok user gs Hb Hg) as Hm. unfold merge_hook_groups in *. cbn [as_object] in *.
    set (hooks := foldl merge_event (entries_of (obj_get HOOKS user)) gs) in *.
    destruct (effective_replaced read_file args slot _ Es Hm) as [H1 H2]. split; [done|].
    split; [by apply put_slot_length|]. split; [by intros i Hi; apply put_slot_other|].
    exists user, (obj_insert HOOKS (Obj hooks) (obj_remove HOOKS user)), hooks. split; [done|]. split; [done|].
    split; [by intros k Hk; rewrite obj_get_insert_ne, obj_get_remove_ne by done|].
    split; [apply obj_get_insert_eq|]. intros event. unfold hooks. rewrite merge_events_get; [done|].
    by apply object_keys_distinct.
  - split; [done|]. apply effective_own; [done|]. by apply hooks_object_ok.
Qed.

(** * The daemon's answers *)

Section served.
Context {P : Type} `{Vt100 P} {K : Type} `{Kernel K} `{JsonTextLaws}.
Context (sha256 : bytes -> bytes) (se : Server.Env (K := K)) (peer : option Z).
Implicit Types (d : Daemon (P := P)).

Definition agent_request (method : bytes) (params : Value) : Value := control_value (MRequest (mkRpcRequest 1 method params)).

(** A connection on which every line goes through in time, and the daemon after it. *)
Definition served (key method : bytes) (params : Value) d : Daemon * Wire :=
  let (d', r) := agent_line sha256 se peer key (encode_ndjson_line (agent_request method params)) d in
  (d', mkWire true true (Some (encode_ndjson_line (object (hello_ack_fields (answer_hello d (agent_hello key))))))
         true ((fun r => encode_ndjson_line (control_value (MReply r))) <$> r)).

Definition short (v : Value) : Prop := zlen (encode_ndjson_line v) <= MAX_CONTROL_LINE_BYTES.

(** Lines are shorter than the cap, and what is written is UTF-8. *)
Record lines_ok (key method : bytes) (params : Value) (reply : RpcReply) : Prop := mkLinesOk {
  lo_hello : short (object (hello_fields (mkHello GROVE_DAEMON_PROTOCOL_VERSION key (str "agent") Protocol.Agent)));
  lo_ack : short (object (hello_ack_fields hello_ack_ok));
  lo_request : short (agent_request method params);
  lo_reply : short (control_value (MReply reply));
  lo_key : utf8_valid key = true;
  lo_request_ok : json_ok (agent_request method params) = true
}.

Lemma agent_is_welcome d key :
  version d = GROVE_DAEMON_PROTOCOL_VERSION -> utf8_valid key = true ->
  short (object (hello_fields (mkHello GROVE_DAEMON_PROTOCOL_VERSION key (str "agent") Protocol.Agent))) ->
  answer_hello d (agent_hello key) = hello_ack_ok.
Proof.
  intros Hv Hk Hs. unfold answer_hello, agent_hello.
  rewrite (decode_encoded _ _ (mkHello GROVE_DAEMON_PROTOCOL_VERSION key (str "agent") Protocol.Agent)); [..|done].
  - unfold admit_hello. cbn [h_version h_kind is_agent negb andb]. rewrite Hv. by rewrite Z.eqb_refl.
  - vm_compute object. cbn [json_ok forallb fst snd andb fmap list_fmap]. rewrite Hk. by vm_compute.
  - done.
Qed.

(** The call is the daemon's dispatch of the method. *)
Lemma rpc_served d key method params :
  let (d', res) := dispatch_agent_rpc sha256 se peer key method params d in
  let reply := reply_of_result 1 res in
  version d = GROVE_DAEMON_PROTOCOL_VERSION -> lines_ok key method params reply ->
  json_ok (control_value (MReply reply)) = true -> message_ok (MReply reply) ->
  exists w, served key method params d = (d', w) /\
    rpc w key method params = ([agent_hello key; encode_ndjson_line (agent_request method params)],
      match res with Ok v => Some v | Err _ => None end).
Proof.
  destruct (dispatch_agent_rpc sha256 se peer key method params d) as [d' res] eqn:E. cbv zeta. intros Hv Hl Hj Hm.
  assert (Hd : decode_ndjson_line control_of (encode_ndjson_line (agent_request method params)) = Ok (MRequest (mkRpcRequest 1 method params))).
  { apply decode_encoded; [apply Hl|by apply control_roundtrip|apply Hl]. }
  unfold served, agent_line. rewrite Hd. cbn [rq_method rq_params rq_id]. rewrite E.
  eexists. split; [done|]. unfold rpc, open_conn. cbn [connects negb hello_written ack_line request_written reply_line].
  rewrite agent_is_welcome by (done || apply Hl). unfold read_line. cbn [mbind option_bind fmap option_fmap option_map].
  rewrite (decode_encoded hello_ack_of _ hello_ack_ok); [|done|done|apply Hl]. cbn [ack_ok hello_ack_ok andb negb].
  rewrite (decode_encoded control_of _ (MReply (reply_of_result 1 res))); [|done|by apply control_roundtrip|apply Hl].
  by destruct res.
Qed.
End served.

Section claims.
Context {P : Type} `{Vt100 P} {K : Type} `{Kernel K} `{JsonTextLaws}.
Context (sha256 : bytes -> bytes) (se : Server.Env (K := K)) (peer : option Z).
Implicit Types (d : Daemon (P := P)).

Lemma hex_lower_text b : bytes_ok b -> utf8_valid (Protocol.hex_lower b) = true.
Proof.
  intros Hb. apply utf8_valid_ascii. unfold Protocol.hex_lower. apply Forall_concat, Forall_fmap.
  eapply Forall_impl; [exact Hb|]. intros x Hx. destruct (nibble_split x Hx) as (Hn1 & Hn2 & _).
  assert (Hd : forall n, 0 <= n < 16 -> is_ascii (hex_lower_digit n) = true).
  { intros n Hn. unfold hex_lower_digit, is_ascii. destruct (Z.ltb_spec n 10); rewrite andb_true_iff, Z.leb_le, Z.ltb_lt; lia. }
  cbn. constructor; [by apply Hd|]. constructor; [by apply Hd|constructor].
Qed.

Definition claim_errors : list RpcError :=
  session_not_found :: (unauthorized <$> ["bad session key"; "peer pid unreadable"; "claimant is gone"; "session has no pid";
    "session shell is gone"; "claimant is not on this pane's terminal"]%string).
Lemma agent_claim_error key p d e : (agent_claim sha256 se peer key p d).2 = Err e -> e ∈ claim_errors.
Proof.
  unfold agent_claim. destruct (result_bind _ _) as [[h c]|x] eqn:E; [done|]. cbn [snd]. intros [= ->].
  unfold verify_session_key, find_session, ok_or, result_bind in E.
  repeat case_match; simplify_eq; unfold claim_errors; cbn [fmap list_fmap];
    repeat first [apply list_elem_of_here | apply list_elem_of_further].
Qed.

Lemma agent_claim_reply key p d :
  bytes_ok (random se) ->
  let reply := reply_of_result 1 (agent_claim sha256 se peer key p d).2 in
  json_ok (control_value (MReply reply)) = true /\ message_ok (MReply reply).
Proof.
  intros Hr. pose proof (claim_admission sha256 se peer key p d) as Hc. pose proof (agent_claim_error key p d) as He.
  destruct (agent_claim sha256 se peer key p d) as [d' [v|e]]; cbn [snd] in *.
  - destruct Hc as (_ & _ & _ & _ & _ & _ & _ & _ & _ & -> & _). cbn [reply_of_result]. split; [|by split].
    pose proof (hex_lower_text _ Hr) as Hx. unfold new_claim_id. revert Hx. generalize (Protocol.hex_lower (random se)) as id.
    intros id Hx. vm_compute control_value. cbn [json_ok forallb fst snd andb fmap list_fmap]. rewrite Hx. by vm_compute.
  - specialize (He e eq_refl). clear Hc. revert e He. apply Forall_forall. unfold claim_errors. cbn [fmap list_fmap].
    repeat (constructor; [split; [by vm_compute|split; [by split|split; [done|intros e [= <-]; by split]]]|]). constructor.
Qed.

(** The id that the launcher exports is that of the claim the daemon has
    recorded in the pane's session for the launcher's own process, which becomes
    the agent: the key was the session's, and the process is alive on the pane's
    terminal. Without one nothing changed at the daemon. The launcher writes a
    hello and one request, in either case. *)
Theorem claim_is_the_daemons key session_id tool d :
  let p := mkAgentClaimParams session_id tool in
  let params := agent_claim_params_value p in
  version d = GROVE_DAEMON_PROTOCOL_VERSION -> bytes_ok (random se) ->
  lines_ok key METHOD_AGENT_CLAIM params (reply_of_result 1 (agent_claim sha256 se peer key p d).2) ->
  let '(d', w) := served sha256 se peer key METHOD_AGENT_CLAIM params d in
  (claim w key session_id tool).1 = [agent_hello key; encode_ndjson_line (agent_request METHOD_AGENT_CLAIM params)] /\
  match (claim w key session_id tool).2 with
  | Some id =>
      exists h a f pid, key = derive_session_key sha256 (token d) session_id /\
        sessions d !! session_id = Some (Live h) /\ arcs d !! h = Some a /\ may_claim (kernel se) peer a f pid /\
        d' = on_arc (on_agents (fun l => record_agent_claim l (mkAgentClaim id tool pid (start_us f) Idle 0) (kernel se))) h d
  | None => d' = d
  end.
Proof.
  cbv zeta. intros Hv Hr Hl.
  pose proof (rpc_served sha256 se peer d key METHOD_AGENT_CLAIM (agent_claim_params_value (mkAgentClaimParams session_id tool))) as Hs.
  assert (Hd : dispatch_agent_rpc sha256 se peer key METHOD_AGENT_CLAIM (agent_claim_params_value (mkAgentClaimParams session_id tool)) d =
    agent_claim sha256 se peer key (mkAgentClaimParams session_id tool) d) by done.
  rewrite Hd in Hs. pose proof (agent_claim_reply key (mkAgentClaimParams session_id tool) d Hr) as [Hj Hm].
  pose proof (claim_admission sha256 se peer key (mkAgentClaimParams session_id tool) d) as Hc.
  destruct (agent_claim sha256 se peer key (mkAgentClaimParams session_id tool) d) as [d' res].
  destruct (Hs Hv Hl Hj Hm) as (w & -> & Hrpc). unfold claim. rewrite Hrpc. split; [done|]. cbn [snd].
  destruct res as [v|e]; [|exact (proj1 Hc)]. destruct Hc as (h & a & f & pid & _ & Hk & Hse & Ha & Hmay & -> & ->).
  change (get "claimId" (agent_claim_result (new_claim_id (random se))) ≫= as_str) with (Some (new_claim_id (random se))).
  cbn [mbind option_bind]. by exists h, a, f, pid.
Qed.
End claims.

Section events.
Context {P : Type} `{Vt100 P} {K : Type} `{Kernel K} `{JsonTextLaws}.
Context (sha256 : bytes -> bytes) (se : Server.Env (K := K)) (peer : option Z).
Implicit Types (d : Daemon (P := P)).

Lemma event_params_roundtrip p : u64_ok (aep_at_ns p) -> agent_event_params_of (agent_event_params_value p) = Some p.
Proof.
  destruct p as [s c e t n]. cbn [aep_at_ns]. intros Hn. unfold agent_event_params_of.
  assert (opt_field "toolName" as_str (agent_event_params_value (mkAgentEventParams s c e t n)) = Some t) as -> by (by destruct t).
  destruct t; unfold agent_event_params_value; cbn [aep_session_id aep_claim_id aep_event aep_tool_name aep_at_ns]; read_fields.
Qed.

(** One hook fire, from the agent's standard input to the claim: of the payload
    only the event's and the tool's names are used, and what the daemon does is
    apply them to the claims of the pane's session, if the key is that session's
    and the session is live, and nothing otherwise. *)
Theorem event_is_the_daemons (env : Env) stdin now_ns sock key session_id claim_id event tool_name d :
  let p := mkAgentEventParams session_id claim_id event tool_name now_ns in
  let params := agent_event_params_value p in
  getenv env SOCK_ENV = Some sock -> getenv env KEY_ENV = Some key ->
  getenv env SESSION_ENV = Some session_id -> getenv env CLAIM_ENV = Some claim_id ->
  read_hook_event stdin = Some (event, tool_name) -> u64_ok now_ns ->
  version d = GROVE_DAEMON_PROTOCOL_VERSION ->
  lines_ok key METHOD_AGENT_EVENT params (reply_of_result 1 (agent_event sha256 key p d).2) ->
  let '(d', w) := served sha256 se peer key METHOD_AGENT_EVENT params d in
  event_run env w stdin now_ns = [agent_hello key; encode_ndjson_line (agent_request METHOD_AGENT_EVENT params)] /\
  match verify_session_key sha256 d session_id key, find_session d session_id with
  | Ok _, Ok (h, _) => d' = on_arc (on_agents (fun l => (apply_event l claim_id event tool_name now_ns).1)) h d
  | _, _ => d' = d
  end.
Proof.
  cbv zeta. intros He1 He2 He3 He4 Hp Hn Hv Hl.
  pose proof (rpc_served sha256 se peer d key METHOD_AGENT_EVENT
    (agent_event_params_value (mkAgentEventParams session_id claim_id event tool_name now_ns))) as Hs.
  assert (Hd : dispatch_agent_rpc sha256 se peer key METHOD_AGENT_EVENT
      (agent_event_params_value (mkAgentEventParams session_id claim_id event tool_name now_ns)) d =
    agent_event sha256 key (mkAgentEventParams session_id claim_id event tool_name now_ns) d).
  { unfold dispatch_agent_rpc. change (bytes_eqb METHOD_AGENT_EVENT METHOD_AGENT_CLAIM) with false.
    change (bytes_eqb METHOD_AGENT_EVENT METHOD_AGENT_EVENT) with true. cbv iota. unfold parse_params.
    by rewrite event_params_roundtrip. }
  rewrite Hd in Hs. set (p := mkAgentEventParams session_id claim_id event tool_name now_ns) in *.
  assert (Hr : let reply := reply_of_result 1 (agent_event sha256 key p d).2 in
    json_ok (control_value (MReply reply)) = true /\ message_ok (MReply reply)).
  { unfold agent_event. unfold verify_session_key, find_session, result_bind.
    repeat case_match; simplify_eq; (split; [by vm_compute|]); (split; [by split|]); (split; [done|]); intros x [= <-]; by split. }
  unfold event_run. rewrite Hp, He1, He2, He3, He4. unfold send_event.
  destruct (agent_event sha256 key p d) as [d' res] eqn:E. cbn [snd] in *.
  destruct (Hs Hv Hl (proj1 Hr) (proj2 Hr)) as (w & -> & Hrpc). fold p. rewrite Hrpc. split; [done|].
  unfold agent_event in E. cbn [aep_session_id p] in E. destruct (verify_session_key sha256 d session_id key) as [[]|x]; cbn [result_bind] in E.
  - by destruct (find_session d session_id) as [[h a]|y]; injection E as <- <-.
  - by injection E as <- <-.
Qed.
End events.

(** * Examples *)

Module LauncherExamples.
Import Json.ToyJson.

Definition known : list bytes := [str "/g/bin"; str "/g/bin/grove-agent"; str "/a"; str "/a/claude"].
Definition d : Disk := mkDisk (fun p => if bool_decide (p ∈ known) then Some p else None)
  (fun p => bool_decide (p ∈ [str "/g/bin/claude"; str "/a/claude"]))
  (fun p => Some (if bytes_eqb p (str "/g/bin/claude") then WRAPPER_MARKER else [])).
Definition env0 : Env := mkEnv (fun k => var_value k [(str "PATH", str "/g/bin:/a"); (str "GROVE_BIN_DIR", str "/g/bin")])
  (Some (str "/g/bin/grove-agent")) (Some (str "/h")).
Definition env1 : Env := with_vars env0 (exec_vars d (from_env d env0) (str "/a/claude")).

Lemma env0_plain : plain_env d env0.
Proof.
  assert (Hp : Forall plain_path known).
  { repeat (constructor; [split; [apply (bool_decide_eq_true_1 _); by vm_compute|by vm_compute]|]). constructor. }
  rewrite Forall_forall in Hp. split; [|constructor].
  apply (@Forall_cons_2 bytes); [by apply Hp, list_elem_of_here|]. apply (@Forall_cons_2 bytes); [|constructor].
  apply Hp. do 2 apply list_elem_of_further. apply list_elem_of_here.
Qed.
Lemma known_plain p c : canonical d p = Some c -> plain_path c.
Proof.
  cbn [canonical d]. destruct (bool_decide_reflect (p ∈ known)) as [Hin|]; [|done]. intros [= <-].
  assert (Hp : Forall plain_path known).
  { repeat (constructor; [split; [apply (bool_decide_eq_true_1 _); by vm_compute|by vm_compute]|]). constructor. }
  rewrite Forall_forall in Hp. by apply Hp.
Qed.

(** A program that runs itself by its name again: one launch, and no more. *)
Lemma launch_chain_ends_witness :
  chain d (str "claude") env0 [str "/a/claude"] env1 /\ Z.of_nat (length [str "/a/claude"]) <= 8.
Proof.
  assert (Hc : chain d (str "claude") env0 [str "/a/claude"] env1).
  { eapply chain_step; [|..|apply chain_nil].
    - exists (str "/a/claude"). split; [vm_compute; reflexivity|]. split; [vm_compute; reflexivity|reflexivity].
    - exists (str "/g/bin"), (str "/g/bin"). split; [|split; vm_compute; reflexivity].
      apply (bool_decide_eq_true_1 _). by vm_compute. }
  split; [exact Hc|].
  exact (proj1 (launch_chain_ends d (str "claude") known_plain eq_refl env0 [str "/a/claude"] env1 Hc env0_plain
    ltac:(vm_compute; split; discriminate))).
Defined.

Definition offline : Wire := mkWire false false None false None.

(** An agent inherits the list of what the chain has run, and so does every
    command it runs: an agent that is started from within an agent's shell finds
    the only binary there is on the list, and is not found. *)
Example nested_agent_is_not_found :
  launch_run d env0 offline true None (fun _ => None) [str "claude"; str "--"; str "-c"] =
    Become (str "/a/claude") (str "claude" :: plan_claude_settings (fun _ => None) [str "-c"] (claude_hook_groups (str "/g/bin/grove-agent")))
      [(str "GROVE_AGENT_DEPTH", str "1"); (str "GROVE_AGENT_SKIP", str "/a/claude")] /\
  launch_run d env1 offline true None (fun _ => None) [str "claude"; str "--"; str "-p"; str "hi"] = Exit 127.
Proof. by split; vm_compute. Qed.

Definition user : list (bytes * Value) :=
  [(str "env", Null); (HOOKS, Obj [(str "Stop", Arr [Str (str "mine")])])].
Definition groups : list (bytes * Value) := [(str "SessionStart", Arr [Str (str "g")]); (str "Stop", Arr [Str (str "g")])].

Lemma settings_are_merged_witness :
  let args := [str "-p"; SETTINGS; to_string (Obj user); str "hi"] in
  let argv := plan_claude_settings (fun _ => None) args (Obj groups) in
  last_settings_slot argv = Some (Space 1) /\ argv !! 0%nat = Some (str "-p") /\
  exists merged hooks, effective (fun _ => None) argv = Some (Obj merged) /\ obj_get (str "env") merged = Some Null /\
    obj_get HOOKS merged = Some (Obj hooks) /\ obj_get (str "Stop") hooks = Some (Arr [Str (str "mine"); Str (str "g")]).
Proof.
  intros args argv. assert (He : effective (fun _ => None) args = Some (Obj user)) by (vm_compute; reflexivity).
  pose proof (settings_are_merged (fun _ => None) args groups ltac:(vm_compute; reflexivity)
    ltac:(rewrite He; intros base [= <-]; vm_compute; reflexivity)) as Hs.
  cbv zeta in Hs. change (last_settings_slot args) with (Some (Space 1)) in Hs. rewrite He in Hs.
  destruct Hs as (Hl & _ & Ho & u & merged & hooks & [= <-] & Hm & Hk & Hh & Hg).
  split; [exact Hl|]. split; [exact (Ho 0%nat ltac:(discriminate))|]. exists merged, hooks. split; [exact Hm|].
  split; [exact (Hk (str "env") ltac:(discriminate))|]. split; [exact Hh|]. exact (Hg (str "Stop")).
Defined.

Definition sha (b : bytes) : bytes := b ++ replicate 32 0.
Definition kern : FakeKernel := {[ 5 := mkProcFacts 5 100 2 9 ]}.
Definition x0 : srv (P := RecordingVt.t) := srv_new (str "t").
Definition daemon : Daemon (P := RecordingVt.t) :=
  match exec_acts x0 [ACall 0 ServerExamples.p; AResolve 0; AProbe 0 None; ASpawn 0 0 (Some 7); ARegister 0 true; APublish 0] with
  | Some x => dm x
  | None => dm x0
  end.
Definition se : Server.Env (K := FakeKernel) := Server.mkEnv (<[7 := mkProcFacts 7 90 2 9]> kern) false false true [171; 3].
Definition key : bytes := derive_session_key sha (str "t") (str "s").

Lemma claim_is_the_daemons_witness :
  let params := agent_claim_params_value (mkAgentClaimParams (str "s") (str "claude")) in
  let x := served sha se (Some 5) key METHOD_AGENT_CLAIM params daemon in
  let c := claim x.2 key (str "s") (str "claude") in
  c.2 = Some (str "ab03") /\ zlen c.1 = 2 /\
  exists h a f pid, arcs daemon !! h = Some a /\ may_claim (kernel se) (Some 5) a f pid /\
    x.1 = on_arc (on_agents (fun l => record_agent_claim l (mkAgentClaim (str "ab03") (str "claude") pid (start_us f) Idle 0) (kernel se))) h daemon.
Proof.
  cbv zeta. pose proof (claim_is_the_daemons sha se (Some 5) key (str "s") (str "claude") daemon) as H. cbv zeta in H.
  assert (Hid : (claim (served sha se (Some 5) key METHOD_AGENT_CLAIM
    (agent_claim_params_value (mkAgentClaimParams (str "s") (str "claude"))) daemon).2 key (str "s") (str "claude")).2 = Some (str "ab03"))
    by (vm_compute; reflexivity).
  destruct (served _ _ _ _ _ _ _) as [d' w]. cbn [snd] in Hid.
  destruct H as [Hlen Hc]; [vm_compute; reflexivity|repeat constructor; lia| |].
  { split; vm_compute; try discriminate; reflexivity. }
  split; [exact Hid|]. split; [cbn [snd]; by rewrite Hlen|]. rewrite Hid in Hc.
  destruct Hc as (h & a & f & pid & _ & _ & Ha & Hm & Hd). exists h, a, f, pid. split; [exact Ha|]. split; [exact Hm|exact Hd].
Defined.
End LauncherExamples.
