(* ===== verification/ClientCalls.v ===== *)
(** The typed operations of the app's client (grove-core/src/daemon/client.rs):
    its errors, the two handshakes of a connection, every call with the
    parameters it sends and the reply it reads, the notifications, the reader of
    reply lines, and the blocking bridge. Sockets, the token file and the clock
    are observations; the text of a serde error and base64 are arguments. The
    theorems put the lines of the client before the dispatch of the daemon
    ([Server]) and its replies before the client again. *)

From S2P Require Import Prelude Utf8 Text Framing Session History Agent Emulator Json Protocol Client Server.

#[local] Open Scope rust_scope.

(** * Errors *)

Inductive ClientError :=
| NotConnected
| ConnectionLost
| Timeout (method : bytes) (ms : Z)
| Rpc (e : RpcError)
| ProtocolMessage (m : bytes)
| Io (e : bytes).

(** [Display]. *)
Definition error_text (e : ClientError) : bytes :=
  match e with
  | NotConnected => str "daemon client: not connected"
  | ConnectionLost => str "daemon client: connection lost"
  | Timeout method ms => str "daemon client: " ++ method ++ str " timed out after " ++ show_dec ms ++ str "ms"
  | Rpc e => str "daemon rpc error " ++ show_int (code e) ++ str ": " ++ message e
  | ProtocolMessage m => str "daemon client protocol: " ++ m
  | Io e => str "daemon client io: " ++ e
  end.

Inductive BridgeError := AmbientRuntime | ClientFailed (e : ClientError).
Definition bridge_error_text (e : BridgeError) : bytes :=
  match e with
  | AmbientRuntime => str "daemon client: refusing to block on an ambient tokio runtime"
  | ClientFailed e => error_text e
  end.

(** [ClientHandle::block]: the operation is not started in an ambient runtime. *)
Definition block {St T} (ambient : bool) (op : St -> St * result T ClientError) (s : St) : St * result T BridgeError :=
  if ambient then (s, Err AmbientRuntime)
  else match op s with (s, Ok t) => (s, Ok t) | (s, Err e) => (s, Err (ClientFailed e)) end.

(** * Marks of sessions for the wake after a sleep *)

Definition mark_sleep_restore (sid : bytes) (ids : gset bytes) : gset bytes := {[sid]} ∪ ids.
Definition clear_sleep_restore (sid : bytes) (ids : gset bytes) : gset bytes := ids ∖ {[sid]}.
Definition is_sleep_restore (sid : bytes) (ids : gset bytes) : bool := bool_decide (sid ∈ ids).

(** * Reading replies *)

(** The field of a derived struct: an object holds it by name, an array by place. *)
Definition struct_field (i : nat) (k : string) (v : Value) : option Value :=
  match v with Obj m => obj_get (str k) m | Arr l => l !! i | _ => None end.
Definition struct_shape (least most : nat) (v : Value) : bool :=
  match v with
  | Obj _ => true
  | Arr l => Nat.leb least (length l) && Nat.leb (length l) most
  | _ => false
  end.
Definition as_u16 (v : Value) : option Z :=
  match v with Int n => if (0 <=? n) && (n <? 2 ^ 16) then Some n else None | _ => None end.
(** [#[serde(default)]]: an absent field has its default, a present one must parse. *)
Definition or_default {A} (d : A) (p : Value -> option A) (f : option Value) : option A :=
  match f with None => Some d | Some v => p v end.
Definition nullable {A} (p : Value -> option A) (v : Value) : option (option A) :=
  match v with Null => Some None | _ => Some <$> p v end.

Definition cold_payload_default : ColdRestorePayload := mkColdRestorePayload [] 0 0 false None.
(** [ColdRestorePayload::from_result], of the object whose marker was read. *)
Definition cold_payload_of (v : Value) : option ColdRestorePayload :=
  snapshot ← or_default [] as_str (get "snapshot" v);
  cols ← or_default 0 as_u16 (get "cols" v);
  rows ← or_default 0 as_u16 (get "rows" v);
  alt ← or_default false as_bool (get "isAlternateScreen" v);
  tail ← or_default None (nullable as_str) (get "pendingEscapeTailAnsi" v);
  Some (mkColdRestorePayload snapshot cols rows alt tail).
Definition cold_from_result (v : Value) : ColdRestorePayload := default cold_payload_default (cold_payload_of v).

Definition warm_of (v : Value) : option WarmReattach :=
  snapshot ← or_default [] as_str (get "snapshot" v);
  cols ← or_default 0 as_u16 (get "cols" v);
  rows ← or_default 0 as_u16 (get "rows" v);
  alt ← or_default false as_bool (get "isAlternateScreen" v);
  seq ← or_default 0 as_u64 (get "outputSequence" v);
  tail ← or_default None (nullable as_str) (get "pendingEscapeTailAnsi" v);
  flags ← or_default None (nullable as_u32) (get "snapshotKittyKeyboardFlags" v);
  cwd ← or_default None (nullable as_str) (get "cwd" v);
  title ← or_default None (nullable as_str) (get "lastTitle" v);
  degraded ← or_default false as_bool (get "emulatorDegraded" v);
  Some (mkWarmReattach snapshot cols rows alt seq tail flags cwd title degraded).

Definition bool_field (k : string) (v : Value) : bool := default false (get k v ≫= as_bool).

(** What createOrAttach reads of the reply, as [Client.create_finish] takes it. *)
Definition create_reply_of (v : Value) : CreateReply :=
  mkCreateReply (bool_field "isNew" v) (bool_field "isColdRestore" v) (cold_from_result v) (bool_field "isReattach" v) (warm_of v).

Record SessionInfo := mkSessionInfo {
  si_session_id : bytes;
  si_is_alive : bool;
  si_cols : Z;
  si_rows : Z;
  si_pid : option Z
}.
Definition session_info_of (v : Value) : option SessionInfo :=
  if negb (struct_shape 2 5 v) then None else
  id ← struct_field 0 "sessionId" v ≫= as_str;
  alive ← struct_field 1 "isAlive" v ≫= as_bool;
  cols ← or_default 0 as_u16 (struct_field 2 "cols" v);
  rows ← or_default 0 as_u16 (struct_field 3 "rows" v);
  pid ← or_default None (nullable as_u32) (struct_field 4 "pid" v);
  Some (mkSessionInfo id alive cols rows pid).

Record PtyBellEvent := mkBellEvent { be_pty_id : bytes; be_bell : bool; be_ai_status : option bytes }.
Definition bell_event_of (v : Value) : option PtyBellEvent :=
  if negb (struct_shape 3 3 v) then None else
  id ← struct_field 0 "ptyId" v ≫= as_str;
  bell ← struct_field 1 "bell" v ≫= as_bool;
  status ← or_default None (nullable as_str) (struct_field 2 "aiStatus" v);
  Some (mkBellEvent id bell status).

Definition vec_of {A} (p : Value -> option A) (v : Value) : option (list A) := as_array v ≫= mapM p.

(** * The calls *)

Record CreateOrAttach := mkCreateOrAttach {
  co_session_id : bytes;
  co_cwd : option bytes;
  co_cols : Z;
  co_rows : Z;
  co_env : list (bytes * bytes);
  co_scrollback_bytes : option Z
}.

(** A request: its method, its parameters, and what is made of the result. *)
Record Call (A : Type) := mkCall {
  c_method : bytes;
  c_params : Value;
  c_result : Value -> result A ClientError
}.
Arguments mkCall {A} _ _ _.
Arguments c_method {A} _.
Arguments c_params {A} _.
Arguments c_result {A} _ _.

Definition on_session_id (sid : bytes) : Value := object [(str "sessionId", Str sid)].
Definition ignored (v : Value) : result unit ClientError := Ok tt.

(** [env] is collected in a map, so the last value of a name counts. *)
Definition create_params_value (req : CreateOrAttach) : Value :=
  let params := object
    [(str "sessionId", Str (co_session_id req)); (str "cwd", Str (default (str ".") (co_cwd req)));
     (str "cols", Int (co_cols req)); (str "rows", Int (co_rows req));
     (str "env", object ((fun e => (e.1, Str e.2)) <$> co_env req))] in
  match co_scrollback_bytes req with Some n => set "scrollbackBytes" (Int n) params | None => params end.
Definition create_or_attach (req : CreateOrAttach) : Call CreateReply :=
  mkCall (str "createOrAttach") (create_params_value req) (fun v => Ok (create_reply_of v)).

(** [as u16] of a number that may be missing. *)
Definition u16_of (k : string) (v : Value) : Z := wrap 16 (default 0 (get k v ≫= as_u64)).
Definition applied_size (sid : bytes) : Call (Z * Z) :=
  mkCall (str "getAppliedSize") (on_session_id sid) (fun v => Ok (u16_of "cols" v, u16_of "rows" v)).
Definition session_cwd (sid : bytes) : Call (option bytes) :=
  mkCall (str "getCwd") (on_session_id sid) (fun v => Ok (get "cwd" v ≫= as_str)).
Definition clear_history (sid : bytes) : Call unit := mkCall (str "clearHistory") (on_session_id sid) ignored.
Definition connected_clients : Call Z :=
  mkCall (str "getDaemonInfo") Null (fun v => Ok (default 0 (get "connectedClients" v ≫= as_u64))).
Definition kill (sid : bytes) : Call unit := mkCall (str "kill") (on_session_id sid) ignored.
Definition check_pty_spawn_health : Call bool := mkCall (str "checkPtySpawnHealth") Null (fun v => Ok (bool_field "ok" v)).
Definition shutdown (kill_sessions : bool) : Call unit :=
  mkCall (str "shutdown") (object [(str "killSessions", Bool kill_sessions)]) ignored.
Definition checkpoint_all : Call unit := mkCall (str "checkpointAll") Null ignored.

(** * Notifications *)

Definition resize (sid : bytes) (cols rows : Z) : Notify :=
  mkNotify (str "resize") (object [(str "sessionId", Str sid); (str "cols", Int cols); (str "rows", Int rows)]).
Definition set_session_background (sid : bytes) (background : bool) : Notify :=
  mkNotify (str "setSessionBackground") (object [(str "sessionId", Str sid); (str "background", Bool background)]).
Definition ack_cold_restore_notify (sid : bytes) : Notify := mkNotify (str "ackColdRestore") (on_session_id sid).
Definition pause_pty_notify (sid : bytes) : Notify := mkNotify (str "pausePty") (on_session_id sid).
Definition resume_pty_notify (sid : bytes) : Notify := mkNotify (str "resumePty") (on_session_id sid).

(** * Lines and connections *)

(** What the attempt to read the answer to a hello comes to; an empty line is the
    end of the stream. *)
Inductive AckRead := AckLate | AckFailed (e : bytes) | AckLine (line : bytes).
Definition HELLO_TIMEOUT_MS : Z := 5000.

(** One socket: connecting, writing the hello, reading the answer. *)
Record SocketIo := mkSocketIo {
  so_connect : result unit bytes;
  so_write : result unit bytes;
  so_ack : AckRead
}.
Record DaemonClientOptions := mkClientOptions { co_version : Z; co_client_id : bytes }.

Definition io_result {A} (r : result A bytes) : result A ClientError :=
  match r with Ok a => Ok a | Err e => Err (Io e) end.

Section text.
Context `{JsonText} (base64_encode : bytes -> bytes).
(** What serde and the decoder of lines say of what they do not accept. *)
Context (value_error line_error : bytes).

Definition list_sessions : Call (list SessionInfo) :=
  mkCall (str "listSessions") Null (fun v =>
    match vec_of session_info_of v with Some l => Ok l | None => Err (ProtocolMessage value_error) end).
Definition poll_bells : Call (list PtyBellEvent) :=
  mkCall (str "pollBells") Null (fun v =>
    match vec_of bell_event_of v with Some l => Ok l | None => Err (ProtocolMessage value_error) end).
Definition write (sid data : bytes) : Notify :=
  mkNotify (str "write") (object [(str "sessionId", Str sid); (str "dataB64", Str (base64_encode data))]).

Definition request_line {A} (c : Call A) (id : Z) : bytes :=
  encode_ndjson_line (control_value (MRequest (mkRpcRequest id (c_method c) (c_params c)))).
Definition notify_line (n : Notify) : bytes := encode_ndjson_line (control_value (MNotify n)).

(** The caller's answer to the outcome of its request. *)
Definition answer {A} (c : Call A) (r : result Value ClientError) : result A ClientError :=
  let? v := r in c_result c v.

(** [control_reader]: the outcome a line gives to the request of its id. *)
Definition reply_outcome (r : RpcReply) : result Value ClientError :=
  match rp_error r with Some e => Err (Rpc e) | None => Ok (default Null (rp_result r)) end.
Definition reader_line (line : bytes) : option (Z * result Value ClientError) :=
  match decode_ndjson_line control_of line with
  | Ok (MReply r) => Some (rp_id r, reply_outcome r)
  | _ => None
  end.

(** [read_line]: up to and with the line feed. *)
Fixpoint read_line (s : bytes) : bytes * bytes :=
  match s with
  | [] => ([], [])
  | b :: s => if b =? LF then ([b], s) else let (l, r) := read_line s in (b :: l, r)
  end.
(** All that a connection delivers until it ends: a line that is not UTF-8 is an
    error of [read_line], and ends the loop. *)
Fixpoint control_reader (fuel : nat) (input : bytes) : list (Z * result Value ClientError) :=
  match fuel with
  | O => []
  | S fuel =>
      let (line, rest) := read_line input in
      if bool_decide (line = []) then []
      else if negb (utf8_valid line) then []
      else option_list (reader_line line) ++ control_reader fuel rest
  end.

Definition hello_of_options (o : DaemonClientOptions) (kind : ClientKind) (token : bytes) : Hello :=
  mkHello (co_version o) token (co_client_id o) kind.
Definition hello_line (h : Hello) : bytes := encode_ndjson_line (object (hello_fields h)).

Definition read_hello_ack (read : AckRead) : result unit ClientError :=
  match read with
  | AckLate => Err (Timeout (str "hello") HELLO_TIMEOUT_MS)
  | AckFailed e => Err (Io e)
  | AckLine line =>
      if bool_decide (line = []) then Err ConnectionLost
      else match decode_ndjson_line hello_ack_of line with
           | Err _ => Err (ProtocolMessage line_error)
           | Ok ack =>
               if ack_ok ack then Ok tt
               else Err (ProtocolMessage (default (str "hello rejected") (ack_error ack)))
           end
  end.

(** One socket, with the lines that were written on it. *)
Definition open_socket (o : DaemonClientOptions) (token : bytes) (kind : ClientKind) (io : SocketIo) :
    list bytes * result unit ClientError :=
  match io_result (so_connect io) with
  | Err e => ([], Err e)
  | Ok _ =>
      match io_result (so_write io) with
      | Err e => ([], Err e)
      | Ok _ => ([hello_line (hello_of_options o kind token)], read_hello_ack (so_ack io))
      end
  end.

(** The stream socket is opened after the control socket was accepted; the
    connection is installed after both. *)
Definition do_connect (o : DaemonClientOptions) (token_file : result bytes bytes) (control stream : SocketIo)
    (s : Shared) : list bytes * result unit ClientError * Shared :=
  match io_result token_file with
  | Err e => ([], Err e, s)
  | Ok contents =>
      let token := trim contents in
      match open_socket o token Control control with
      | (sent, Err e) => (sent, Err e, s)
      | (sent, Ok _) =>
          match open_socket o token Stream stream with
          | (sent', Err e) => (sent ++ sent', Err e, s)
          | (sent', Ok _) => (sent ++ sent', Ok tt, install (new_generation s))
          end
      end
  end.
End text.

(** * Replies reach their callers *)

Section lines.
Context `{JsonTextLaws}.
Definition message_line (m : ControlMessage) : bytes := encode_ndjson_line (control_value m).
Definition well_formed (m : ControlMessage) : Prop := message_ok m /\ json_ok (control_value m) = true.
Definition fits (m : ControlMessage) : bool := zlen (message_line m) <=? MAX_CONTROL_LINE_BYTES.

Lemma read_line_line text rest :
  Forall (fun b => b <> 10 /\ b <> 13) text -> read_line (text ++ LF :: rest) = (text ++ [LF], rest).
Proof.
  induction 1 as [|b text [Hb _] _ IH]; [done|]. cbn [app read_line].
  rewrite (proj2 (Z.eqb_neq b LF) Hb). by rewrite IH.
Qed.

Lemma message_line_reads m rest : read_line (message_line m ++ rest) = (message_line m, rest).
Proof.
  unfold message_line, encode_ndjson_line. rewrite <- app_assoc. apply read_line_line, to_string_no_break.
Qed.

Lemma decode_message m : well_formed m -> fits m = true -> decode_ndjson_line control_of (message_line m) = Ok m.
Proof. intros [Hm Hj] Hf. apply decode_encoded; [done|by apply control_roundtrip|by apply Z.leb_le]. Qed.

Lemma reader_line_reply r :
  well_formed (MReply r) ->
  reader_line (message_line (MReply r)) = if fits (MReply r) then Some (rp_id r, reply_outcome r) else None.
Proof.
  intros Hr. unfold reader_line. destruct (fits (MReply r)) eqn:Ef; [by rewrite decode_message|].
  unfold fits in Ef. apply Z.leb_gt in Ef. unfold decode_ndjson_line. by rewrite (proj2 (Z.ltb_lt _ _) Ef).
Qed.

Lemma reader_nil fuel : control_reader fuel [] = [].
Proof. by destruct fuel. Qed.

Lemma message_line_length m : (0 < length (message_line m))%nat.
Proof. unfold message_line, encode_ndjson_line. rewrite length_app. cbn. lia. Qed.

Definition outcome_of (r : RpcReply) : option (Z * result Value ClientError) :=
  if fits (MReply r) then Some (rp_id r, reply_outcome r) else None.

(** Whatever replies the daemon writes, one line each, before the connection
    ends, the reader gives each to the request of its id, in their order and
    once; only a line past the cap gives nothing, and costs no line after it.
    As many turns as there are bytes are enough. *)
Theorem replies_reach_their_callers (rs : list RpcReply) :
  Forall (fun r => well_formed (MReply r)) rs ->
  (forall v, json_ok v = true -> utf8_valid (to_string v) = true) ->
  let input := concat ((fun r => message_line (MReply r)) <$> rs) in
  forall fuel, (length input < fuel)%nat -> control_reader fuel input = omap outcome_of rs.
Proof.
  intros Hrs Hu. cbn zeta. induction Hrs as [|r rs Hr _ IH]; intros fuel Hf; [apply reader_nil|].
  destruct fuel as [|fuel]; [lia|]. rewrite fmap_cons in *. cbn [concat] in *. cbn [control_reader].
  rewrite message_line_reads. rewrite bool_decide_false.
  2: { unfold message_line, encode_ndjson_line. by destruct (to_string _). }
  assert (utf8_valid (message_line (MReply r)) = true) as ->.
  { unfold message_line, encode_ndjson_line. rewrite utf8_valid_app; [done|]. apply Hu, Hr. }
  rewrite reader_line_reply by done. cbn [negb]. rewrite IH.
  2: { rewrite length_app in Hf. pose proof (message_line_length (MReply r)). lia. }
  cbn [omap list_omap]. unfold outcome_of at 2. by destruct (fits _).
Qed.
End lines.

Lemma replies_reach_their_callers_witness :
  let r i := reply_ok i (object [(str "ok", Bool true)]) in
  let input := concat ((fun r => @message_line AsciiJson.text (MReply r)) <$> [r 1; r 2]) in
  @control_reader AsciiJson.text (S (length input)) input =
    [(1, Ok (object [(str "ok", Bool true)])); (2, Ok (object [(str "ok", Bool true)]))].
Proof.
  pose proof (@replies_reach_their_callers AsciiJson.text AsciiJson.text_laws
    [reply_ok 1 (object [(str "ok", Bool true)]); reply_ok 2 (object [(str "ok", Bool true)])]
    ltac:(repeat constructor; done || (intros; discriminate))
    (fun v _ => AsciiJson.text_utf8 v) _ (Nat.lt_succ_diag_r _)) as E.
  intros r input. transitivity (omap (@outcome_of AsciiJson.text) [r 1; r 2]); [exact E|vm_compute; reflexivity].
Defined.

(** * The handshakes against the daemon *)

Section connect.
Context {P : Type} `{Vt100 P} {K : Type} `{Kernel K} `{JsonTextLaws}.
Context (value_error line_error : bytes).
Implicit Types (d : Daemon (P := P)) (o : DaemonClientOptions).

(** A socket on which every line goes through in time, with the daemon at its
    other end. *)
Definition daemon_socket d o (token : bytes) (kind : ClientKind) : SocketIo :=
  mkSocketIo (Ok tt) (Ok tt)
    (AckLine (encode_ndjson_line (object (hello_ack_fields (answer_hello d (hello_line (hello_of_options o kind token))))))).

Definition short (v : Value) : Prop := zlen (encode_ndjson_line v) <= MAX_CONTROL_LINE_BYTES.
(** The version is a [u32], the texts are UTF-8, the lines are short. *)
Record hello_fine (h : Hello) (a : HelloAck) : Prop := mkHelloFine {
  hf_version : 0 <= h_version h < 2 ^ 32;
  hf_hello : json_ok (object (hello_fields h)) = true;
  hf_short : short (object (hello_fields h));
  hf_ack : json_ok (object (hello_ack_fields a)) = true;
  hf_ack_short : short (object (hello_ack_fields a))
}.

Lemma bare_hello_roundtrip h : 0 <= h_version h < 2 ^ 32 -> hello_of (object (hello_fields h)) = Some h.
Proof. destruct h as [v t c k]. cbn [h_version]. intros Hv. unfold hello_of. destruct k; read_fields. Qed.
Lemma bare_ack_roundtrip a : hello_ack_of (object (hello_ack_fields a)) = Some a.
Proof. by destruct a as [ok [e|]]. Qed.

Lemma answer_of_hello d h a :
  hello_fine h a ->
  answer_hello d (hello_line h) =
    match admit_hello d h with Welcomed _ => hello_ack_ok | Rejected why => hello_ack_reject why end.
Proof.
  intros Hh. unfold answer_hello, hello_line.
  rewrite (decode_encoded hello_of _ h); [done|apply Hh|by apply bare_hello_roundtrip, Hh|apply Hh].
Qed.

(** The outcome of one socket is the admission of its hello. *)
Definition admission_result (a : Admission) : result unit ClientError :=
  match a with Welcomed _ => Ok tt | Rejected why => Err (ProtocolMessage why) end.

Lemma open_daemon_socket d o token kind :
  let h := hello_of_options o kind token in
  hello_fine h (answer_hello d (hello_line h)) ->
  open_socket line_error o token kind (daemon_socket d o token kind) =
    ([hello_line h], admission_result (admit_hello d h)).
Proof.
  intros h Hh. unfold open_socket, daemon_socket. cbn [so_connect so_write so_ack io_result]. fold h.
  unfold read_hello_ack. rewrite bool_decide_false by (unfold encode_ndjson_line; by destruct (to_string _)).
  rewrite (decode_encoded hello_ack_of _ (answer_hello d (hello_line h))); [|apply Hh|apply bare_ack_roundtrip|apply Hh].
  rewrite (answer_of_hello _ _ _ Hh). by destruct (admit_hello d h).
Qed.

(** Against the daemon, a client of the daemon's version that finds the
    daemon's token in the token file, whatever white space is around it, gets
    its connection: two hellos are written, and the new connection is under a new
    generation with nothing queued. Otherwise the control socket is refused, with
    the daemon's reason as the error; the stream socket is never opened and the
    client is as it was. *)
Theorem connects_iff_admitted d o contents (s : Shared) :
  let token := trim contents in
  let hello kind := hello_of_options o kind token in
  (forall kind, hello_fine (hello kind) (answer_hello d (hello_line (hello kind)))) ->
  do_connect line_error o (Ok contents) (daemon_socket d o token Control) (daemon_socket d o token Stream) s =
    (if bool_decide (co_version o = version d /\ token = Server.token d /\ token <> [])
     then ([hello_line (hello Control); hello_line (hello Stream)], Ok tt, install (new_generation s))
     else ([hello_line (hello Control)], admission_result (admit_hello d (hello Control)), s)).
Proof.
  intros token hello Hf. unfold do_connect. cbn [io_result]. fold token.
  rewrite !open_daemon_socket by apply Hf. fold (hello Control) (hello Stream).
  assert (Hw : forall kind, kind <> Protocol.Agent -> (exists k, admit_hello d (hello kind) = Welcomed k) <->
    co_version o = version d /\ token = Server.token d /\ token <> []).
  { intros kind Hk. split.
    - intros [k [Hv [-> Ht]]%handshake_spec]. cbn in *. destruct Ht as [->|[-> Ht]]; [done|]. done.
    - intros (Hv & Ht & Hn). exists kind. apply handshake_spec. cbn. split; [done|]. split; [done|]. right.
      by rewrite <- Ht. }
  case_bool_decide as Hb.
  - destruct (proj2 (Hw Control ltac:(done)) Hb) as [k1 ->], (proj2 (Hw Stream ltac:(done)) Hb) as [k2 ->]. done.
  - destruct (admit_hello d (hello Control)) as [why|k] eqn:E; [done|]. exfalso. apply Hb, (Hw Control); eauto.
Qed.
End connect.

(** * Calls are the daemon's handlers *)

Section exchange.
Context {P : Type} `{Vt100 P} {K : Type} `{Kernel K} `{JsonTextLaws}.
Context (base64_decode : bytes -> option bytes) (value_error : bytes).
Implicit Types (d : Daemon (P := P)) (e : Env (K := K)).

(** The line of a request before the daemon's dispatch, and the line of the reply
    before the reader that waits under the request's id. *)
Definition exchange {A} e (c : Call A) (id : Z) d : Daemon (P := P) * option (result A ClientError) :=
  match control_line base64_decode e (request_line c id) d with
  | (d, SendReply r) =>
      (d, match reader_line (message_line (MReply r)) with
          | Some (id', out) => if id' =? id then Some (answer c out) else None
          | None => None
          end)
  | (d, _) => (d, None)
  end.

Definition request_of_call {A} (c : Call A) (id : Z) : ControlMessage :=
  MRequest (mkRpcRequest id (c_method c) (c_params c)).
Definition handled {A} e (c : Call A) d : Daemon (P := P) * result Value RpcError :=
  handle_rpc e (c_method c) (c_params c) d.
(** The request and its reply are JSON, and their lines are not too long. *)
Definition carried {A} e (c : Call A) (id : Z) d : Prop :=
  let reply := MReply (reply_of_result id (handled e c d).2) in
  well_formed (request_of_call c id) /\ fits (request_of_call c id) = true /\ well_formed reply /\ fits reply = true.

Definition rpc_outcome {A} (c : Call A) (r : result Value RpcError) : result A ClientError :=
  match r with Ok v => c_result c v | Err x => Err (Rpc x) end.

Lemma exchange_handled {A} e (c : Call A) id d :
  bytes_eqb (c_method c) (str "createOrAttach") = false -> carried e c id d ->
  exchange e c id d = ((handled e c d).1, Some (rpc_outcome c (handled e c d).2)).
Proof.
  intros Hm (Hq & Hqf & Hr & Hrf). unfold exchange, control_line, request_line.
  change (encode_ndjson_line _) with (message_line (request_of_call c id)).
  rewrite decode_message by done. unfold request_of_call at 1. cbn [rq_method rq_params rq_id].
  unfold dispatch_rpc. rewrite Hm. fold (handled e c d). destruct (handled e c d) as [d' r]. cbn [fst snd] in *.
  rewrite reader_line_reply, Hrf by done.
  assert (rp_id (reply_of_result id r) = id) as -> by (by destruct r). rewrite Z.eqb_refl. by destruct r.
Qed.

(** What the daemon's handlers answer of a session, as the client's types have it. *)
Definition sized (d : Daemon (P := P)) : Prop :=
  forall h a, arcs d !! h = Some a ->
    0 <= (session_applied_size (ses a)).1 < 2 ^ 16 /\ 0 <= (session_applied_size (ses a)).2 < 2 ^ 16 /\
    (forall p, shell_pid a = Some p -> 0 <= p < 2 ^ 32).
Definition info_of (a : SessionArc (P := P)) : SessionInfo :=
  mkSessionInfo (Session.id (ses a)) (Session.alive (ses a)) (session_applied_size (ses a)).1
    (session_applied_size (ses a)).2 (shell_pid a).
Definition live_sessions d : list (SessionArc (P := P)) := omap (arc_of d) (live_arcs d).
Definition bell_row e (a : SessionArc (P := P)) : PtyBellEvent :=
  mkBellEvent (Session.id (ses a)) (Session.bell (ses a)) (resolve (agents a) (kernel e)).

Lemma as_u16_Int n : 0 <= n < 2 ^ 16 -> as_u16 (Int n) = Some n.
Proof. unfold as_u16. intros. destruct (Z.leb_spec 0 n), (Z.ltb_spec n (2 ^ 16)); done || lia. Qed.

Lemma session_info_back id alive cols rows (pid : option Z) :
  0 <= cols < 2 ^ 16 -> 0 <= rows < 2 ^ 16 -> (forall p, pid = Some p -> 0 <= p < 2 ^ 32) ->
  session_info_of (object [(str "sessionId", Str id); (str "isAlive", Bool alive); (str "cols", Int cols);
    (str "rows", Int rows); (str "pid", match pid with Some p => Int p | None => Null end)]) =
  Some (mkSessionInfo id alive cols rows pid).
Proof.
  intros Hc Hr Hp. unfold session_info_of. set (v := object _).
  change (struct_shape 2 5 v) with true. change (struct_field 0 "sessionId" v) with (Some (Str id)).
  change (struct_field 1 "isAlive" v) with (Some (Bool alive)). change (struct_field 2 "cols" v) with (Some (Int cols)).
  change (struct_field 3 "rows" v) with (Some (Int rows)).
  change (struct_field 4 "pid" v) with (Some (match pid with Some p => Int p | None => Null end)).
  cbn [negb mbind option_bind as_str as_bool or_default]. rewrite !as_u16_Int by done. cbn [mbind option_bind].
  destruct pid as [p|]; [|done]. cbn [nullable fmap option_fmap option_map]. by rewrite as_u32_Int by (by apply Hp).
Qed.

Lemma bell_event_back id bell status :
  bell_event_of (object [(str "ptyId", Str id); (str "bell", Bool bell); (str "aiStatus", opt Str status)]) =
  Some (mkBellEvent id bell status).
Proof. by destruct status. Qed.

Lemma listed_sessions d :
  sized d -> vec_of session_info_of (rpc_list_sessions d) = Some (info_of <$> live_sessions d).
Proof.
  intros Hs. unfold vec_of, rpc_list_sessions, live_sessions. cbn [as_array mbind option_bind].
  induction (live_arcs d) as [|h hs IH]; [done|]. cbn [omap list_omap].
  destruct (arc_of d h) as [a|] eqn:Ea; cbn [mbind option_bind]; [|exact IH].
  pose proof (Hs h a Ea) as (Hc & Hr & Hp). rewrite fmap_cons. unfold info_of at 1.
  destruct (session_applied_size (ses a)) as [cols rows] eqn:Es. cbn [fst snd mapM] in *.
  rewrite session_info_back by done. cbn [mbind option_bind]. by rewrite IH.
Qed.

Lemma omap_same {A B} (f g : A -> option B) (l : list A) : (forall x, x ∈ l -> f x = g x) -> omap f l = omap g l.
Proof.
  intros Hfg. apply list_omap_ext, Forall_Forall2_diag, Forall_forall. exact Hfg.
Qed.

Lemma polled_bells e hs d :
  NoDup hs -> mapM bell_event_of (poll_arcs e hs d).2 = Some (bell_row e <$> omap (arc_of d) hs).
Proof.
  revert d. induction hs as [|h hs IH]; intros d Hn; [done|]. apply NoDup_cons in Hn as [Hh Hn].
  cbn [poll_arcs omap list_omap]. destruct (arc_of d h) as [a|] eqn:Ea; [|by apply IH]. cbn [take_bell].
  set (d' := on_arc _ h d).
  assert (Hsame : omap (arc_of d') hs = omap (arc_of d) hs).
  { apply omap_same. intros k Hk. unfold arc_of, d', on_arc, set_arcs. cbn [arcs].
    by rewrite lookup_alter_ne by (intros <-; done). }
  specialize (IH d' Hn). destruct (poll_arcs e hs d') as [d2 vs]. cbn [snd] in *. cbn [mapM].
  rewrite bell_event_back. cbn [mbind option_bind]. rewrite IH. rewrite fmap_cons, Hsame. done.
Qed.

Lemma poll_takes_bells e hs d h a :
  arcs (poll_arcs e hs d).1 !! h = Some a ->
  h ∈ hs \/ (forall a, arcs d !! h = Some a -> Session.bell (ses a) = false) -> Session.bell (ses a) = false.
Proof.
  revert d. induction hs as [|k hs IH]; intros d Ha Hh.
  - destruct Hh as [Hh|Hh]; [by apply not_elem_of_nil in Hh|by apply Hh].
  - cbn [poll_arcs] in Ha. destruct (arc_of d k) as [b|] eqn:Eb.
    + cbn [take_bell] in Ha. destruct (poll_arcs e hs _) as [d2 vs] eqn:Ep in Ha. cbn [fst] in Ha.
      eapply (f_equal fst) in Ep. cbn [fst] in Ep. rewrite <- Ep in Ha. apply IH in Ha; [done|].
      destruct (decide (h = k)) as [->|Hne].
      * right. intros a' Ha'. unfold on_arc, set_arcs in Ha'. cbn [arcs] in Ha'.
        rewrite lookup_alter_eq in Ha'. unfold arc_of in Eb. rewrite Eb in Ha'. by injection Ha' as <-.
      * destruct Hh as [[->|Hh]%elem_of_cons|Hh]; [done|by left|]. right. intros a' Ha'.
        unfold on_arc, set_arcs in Ha'. cbn [arcs] in Ha'. rewrite lookup_alter_ne in Ha' by done. by apply Hh.
    + apply IH in Ha; [done|]. destruct Hh as [[->|Hh]%elem_of_cons|Hh]; [|by left|by right].
      right. intros a' Ha'. unfold arc_of in Eb. congruence.
Qed.

Lemma found_session d sid h a : find_session d sid = Ok (h, a) -> arcs d !! h = Some a.
Proof. unfold find_session, arc_of. intros E. repeat case_match; by simplify_eq. Qed.

Lemma size_back cols rows :
  0 <= cols < 2 ^ 16 -> 0 <= rows < 2 ^ 16 ->
  c_result (applied_size []) (object [(str "cols", Int cols); (str "rows", Int rows)]) = Ok (cols, rows).
Proof.
  intros Hc Hr. cbn [c_result applied_size]. unfold u16_of. set (v := object _).
  change (get "cols" v) with (Some (Int cols)). change (get "rows" v) with (Some (Int rows)).
  cbn [mbind option_bind]. rewrite (as_u64_Int cols), (as_u64_Int rows) by (unfold u64_ok; lia). cbn [default from_option].
  unfold wrap. by rewrite (Z.mod_small cols), (Z.mod_small rows).
Qed.

Lemma with_session_found d sid k :
  with_session (on_session_id sid) d k =
    match find_session d sid with Ok (h, a) => k h a | Err x => (d, Err x) end.
Proof. unfold with_session. change (str_param "sessionId" (on_session_id sid)) with (@Ok bytes RpcError sid). done. Qed.

(** C29: every call of the client is the daemon's handler, seen through both lines:
    the size and the directory of a session are those of the session, and an
    unknown session is the daemon's error; the list has exactly the sessions that
    are live, each as it is; the poll answers the bell and the badge of each
    live session and leaves no bell behind; the count is that of the control
    connections; none of them but the poll changes the daemon. *)
Theorem calls_are_the_handlers e d sid id :
  sized d ->
  let of_session {A} (f : SessionArc (P := P) -> A) :=
    match find_session d sid with Ok (_, a) => Ok (f a) | Err x => Err (Rpc x) end in
  (carried e (applied_size sid) id d ->
     exchange e (applied_size sid) id d = (d, Some (of_session (fun a => session_applied_size (ses a))))) /\
  (carried e (session_cwd sid) id d ->
     exchange e (session_cwd sid) id d = (d, Some (of_session (fun a => Server.session_cwd (ses a))))) /\
  (carried e (list_sessions value_error) id d ->
     exchange e (list_sessions value_error) id d = (d, Some (Ok (info_of <$> live_sessions d)))) /\
  (NoDup (live_arcs d) -> carried e (poll_bells value_error) id d ->
     let (d', r) := exchange e (poll_bells value_error) id d in
     r = Some (Ok (bell_row e <$> live_sessions d)) /\
     (forall h a, h ∈ live_arcs d -> arcs d' !! h = Some a -> Session.bell (ses a) = false)) /\
  (u64_ok (connected_controls d) -> carried e connected_clients id d ->
     exchange e connected_clients id d = (d, Some (Ok (connected_controls d)))).
Proof.
  intros Hs of_session. subst of_session. split_and!.
  - intros Hc. rewrite exchange_handled by done. unfold handled.
    assert (handle_rpc e (c_method (applied_size sid)) (c_params (applied_size sid)) d =
      with_session (on_session_id sid) d (fun h a => let (cols, rows) := session_applied_size (ses a) in
        (d, Ok (object [(str "cols", Int cols); (str "rows", Int rows)])))) as -> by reflexivity.
    rewrite with_session_found. destruct (find_session d sid) as [[h a]|x] eqn:Ef; [|done].
    destruct (Hs h a (found_session _ _ _ _ Ef)) as (H1' & H2' & _). destruct (session_applied_size (ses a)) as [cols rows].
    cbn [fst snd rpc_outcome]. by rewrite <- (size_back cols rows).
  - intros Hc. rewrite exchange_handled by done. unfold handled.
    assert (handle_rpc e (c_method (session_cwd sid)) (c_params (session_cwd sid)) d =
      with_session (on_session_id sid) d (fun h a =>
        (d, Ok (object [(str "cwd", opt Str (Server.session_cwd (ses a)))])))) as -> by reflexivity.
    rewrite with_session_found. destruct (find_session d sid) as [[h a]|x]; [|done].
    cbn [fst snd rpc_outcome c_result session_cwd]. by destruct (Server.session_cwd (ses a)).
  - intros Hc. rewrite exchange_handled by done. unfold handled.
    assert (handle_rpc e (c_method (list_sessions value_error)) (c_params (list_sessions value_error)) d =
      (d, Ok (rpc_list_sessions d))) as -> by reflexivity.
    cbn [fst snd rpc_outcome c_result list_sessions]. by rewrite listed_sessions.
  - intros Hn Hc. rewrite exchange_handled by done. unfold handled.
    assert (handle_rpc e (c_method (poll_bells value_error)) (c_params (poll_bells value_error)) d =
      (let (d, v) := rpc_poll_bells e d in (d, Ok v))) as -> by reflexivity.
    pose proof (polled_bells e _ d Hn) as Hp. pose proof (poll_takes_bells e (live_arcs d) d) as Hb.
    unfold rpc_poll_bells. destruct (poll_arcs e (live_arcs d) d) as [d' vs]. cbn [fst snd] in *.
    cbn [rpc_outcome c_result poll_bells]. unfold vec_of. cbn [as_array mbind option_bind]. rewrite Hp.
    split; [done|]. intros h a Hh Ha. apply (Hb h a Ha). by left.
  - intros Hu Hc. rewrite exchange_handled by done. unfold handled.
    assert (handle_rpc e (c_method connected_clients) (c_params connected_clients) d =
      (d, Ok (object [(str "connectedClients", Int (connected_controls d));
                      (str "sessionCount", Int (zlen (live_arcs d)))]))) as -> by reflexivity.
    cbn [fst snd rpc_outcome c_result connected_clients]. set (v := object _).
    change (get "connectedClients" v) with (Some (Int (connected_controls d))). cbn [mbind option_bind].
    by rewrite as_u64_Int.
Qed.
End exchange.

(** * createOrAttach, from the request to what the pane is given *)

Definition env_entries (m : list (bytes * Value)) : list (bytes * bytes) := omap (fun kv => v ← as_str kv.2; Some (kv.1, v)) m.

Lemma env_entries_cons k x m :
  env_entries ((k, x) :: m) = option_list ((k,.) <$> as_str x) ++ env_entries m.
Proof. unfold env_entries. cbn. by destruct (as_str x). Qed.

Lemma env_entries_insert k v m :
  (list_to_map (env_entries (obj_insert k (Str v) m)) : gmap bytes bytes) = <[k := v]> (list_to_map (env_entries m)).
Proof.
  induction m as [|[k' x] m IH]; [done|]. cbn [obj_insert]. destruct (bytes_eqb k k') eqn:E.
  - apply bytes_eqb_eq in E as ->. rewrite !env_entries_cons. destruct (as_str x); cbn; [by rewrite insert_insert_eq|done].
  - assert (k <> k') by (intros ->; by rewrite bytes_eqb_refl in E).
    destruct (bytes_ltb k k'); rewrite !env_entries_cons; [done|]. destruct (as_str x); cbn; [|exact IH].
    rewrite IH. by rewrite insert_insert_ne.
Qed.

Lemma env_of_pairs (l : list (bytes * bytes)) m :
  (list_to_map (env_entries (foldl (fun m f => obj_insert f.1 f.2 m) m ((fun e => (e.1, Str e.2)) <$> l))) : gmap bytes bytes) =
  list_to_map (reverse l ++ env_entries m).
Proof.
  revert m. induction l as [|[k v] l IH]; intros m; [done|]. rewrite fmap_cons. cbn [foldl fst snd].
  rewrite IH, reverse_cons, <- app_assoc. cbn [app]. rewrite !list_to_map_app, env_entries_insert. done.
Qed.

(** Reading a field of an object built by writes to literal keys. *)
Ltac read_gets :=
  repeat match goal with
  | |- context [get ?k ?v] => let r := eval vm_compute in (get k v) in change (get k v) with r
  end;
  cbn [mbind option_bind or_default as_str as_bool nullable fmap option_fmap option_map].

Section create.
Context {P : Type} `{Vt100 P} {K : Type} `{Kernel K}.
Implicit Types (s : Session (P := P)) (e : Env (K := K)).

(** The parameters fit their fields. *)
Definition request_fits (req : CreateOrAttach) : Prop :=
  0 <= co_cols req < 2 ^ 16 /\ 0 <= co_rows req < 2 ^ 16 /\ (forall n, co_scrollback_bytes req = Some n -> u64_ok n).

Lemma u16_param_Int k n v fallback : 0 <= n < 2 ^ 16 -> get k v = Some (Int n) -> u16_param k fallback v = n.
Proof.
  intros Hn Hk. unfold u16_param. rewrite Hk. cbn [mbind option_bind].
  rewrite as_u64_Int by (unfold u64_ok; lia). cbn [default from_option]. unfold wrap. by rewrite Z.mod_small.
Qed.

Lemma create_request_arrives req :
  request_fits req ->
  exists env,
    create_params (create_params_value req) =
      Ok (mkCreateParams (co_session_id req) (default (str ".") (co_cwd req)) (co_cols req) (co_rows req)
            (co_scrollback_bytes req) env) /\
    (list_to_map env : gmap bytes bytes) = list_to_map (reverse (co_env req)).
Proof.
  intros (Hc & Hr & Hb). unfold create_params. set (v := create_params_value req).
  assert (str_param "sessionId" v = Ok (co_session_id req)) as -> by (unfold v, create_params_value; by destruct (co_scrollback_bytes req)).
  assert (Hcols : get "cols" v = Some (Int (co_cols req))) by (unfold v, create_params_value; by destruct (co_scrollback_bytes req)).
  assert (Hrows : get "rows" v = Some (Int (co_rows req))) by (unfold v, create_params_value; by destruct (co_scrollback_bytes req)).
  assert (Hcwd : get "cwd" v ≫= as_str = Some (default (str ".") (co_cwd req))) by (unfold v, create_params_value; by destruct (co_scrollback_bytes req)).
  assert (Hcap : get "scrollbackBytes" v ≫= as_u64 = co_scrollback_bytes req).
  { unfold v, create_params_value. destruct (co_scrollback_bytes req) as [n|]; [|done].
    change (as_u64 (Int n) = Some n). by apply as_u64_Int, Hb. }
  assert (Henv : get "env" v ≫= as_object = as_object (object ((fun x => (x.1, Str x.2)) <$> co_env req)))
    by (unfold v, create_params_value; by destruct (co_scrollback_bytes req)).
  rewrite Hcap, Hcwd, Henv. cbn [result_bind default from_option].
  rewrite (u16_param_Int "cols" _ _ _ Hc Hcols), (u16_param_Int "rows" _ _ _ Hr Hrows).
  eexists. split; [reflexivity|]. cbn [as_object object default from_option]. unfold object. cbn [as_object default from_option].
  pose proof (env_of_pairs (co_env req) []) as Hp. rewrite app_nil_r in Hp. exact Hp.
Qed.

(** What the client is to know of a session it attaches to. *)
Definition text_if_any (b : bytes) : option bytes := if bool_decide (b = []) then None else Some (from_utf8_lossy b).
Definition warm_view e s : WarmReattach :=
  let (snap, s) := session_snapshot (panics e) s default_options in
  match snap with
  | Some snap =>
      mkWarmReattach (from_utf8_lossy (warm_payload snap)) (snap_cols snap) (snap_rows snap) (is_alternate_screen snap)
        (output_sequence snap) (text_if_any (pending_escape_tail snap))
        (if kitty_keyboard_flags snap =? 0 then None else Some (kitty_keyboard_flags snap)) (snap_cwd snap) (snap_title snap) false
  | None =>
      let (cols, rows) := session_applied_size s in
      mkWarmReattach (from_utf8_lossy (ring s)) cols rows false (ingest_seq s) None None None None true
  end.
Definition cold_view (cr : ColdRestore) : ColdRestorePayload :=
  mkColdRestorePayload (from_utf8_lossy (cold_snapshot cr)) (cold_cols cr) (cold_rows cr) (cold_alternate cr)
    (text_if_any (cold_pending_escape_tail cr)).

Definition view_fits (w : WarmReattach) : Prop :=
  0 <= wr_cols w < 2 ^ 16 /\ 0 <= wr_rows w < 2 ^ 16 /\ u64_ok (wr_output_sequence w) /\
  (forall n, wr_kitty_keyboard_flags w = Some n -> 0 <= n < 2 ^ 32).

Definition warm_object (snapshot : bytes) (cols rows : Z) (alt : bool) (seq : Z) (tail : option bytes) (flags : option Z)
    (cwd title : option bytes) : Value :=
  let obj := object [(str "snapshot", Str snapshot); (str "cols", Int cols); (str "rows", Int rows);
    (str "isAlternateScreen", Bool alt); (str "outputSequence", Int seq); (str "isReattach", Bool true)] in
  let obj := set_some "pendingEscapeTailAnsi" tail obj in
  let obj := match flags with Some n => set "snapshotKittyKeyboardFlags" (Int n) obj | None => obj end in
  set "isNew" (Bool false) (set_some "lastTitle" title (set_some "cwd" cwd obj)).

Lemma warm_object_reads snapshot cols rows alt seq tail flags cwd title :
  0 <= cols < 2 ^ 16 -> 0 <= rows < 2 ^ 16 -> u64_ok seq -> (forall n, flags = Some n -> 0 <= n < 2 ^ 32) ->
  warm_of (warm_object snapshot cols rows alt seq tail flags cwd title) =
    Some (mkWarmReattach snapshot cols rows alt seq tail flags cwd title false).
Proof.
  intros Hc Hr Hs Hk. unfold warm_object.
  destruct tail as [t|], flags as [n|], cwd as [c|], title as [l|]; cbn [set_some]; unfold warm_of; read_gets;
    rewrite (as_u16_Int cols), (as_u16_Int rows), (as_u64_Int seq) by done; cbn [mbind option_bind];
    rewrite ?(as_u32_Int n) by (by apply Hk); done.
Qed.
Lemma warm_object_flags snapshot cols rows alt seq tail flags cwd title :
  let v := warm_object snapshot cols rows alt seq tail flags cwd title in
  bool_field "isNew" v = false /\ bool_field "isColdRestore" v = false /\ bool_field "isReattach" v = true.
Proof. unfold warm_object. by destruct tail, flags, cwd, title. Qed.

Definition degraded_object (snapshot : bytes) (cols rows seq : Z) : Value :=
  set "isNew" (Bool false) (object [(str "snapshot", Str snapshot); (str "cols", Int cols); (str "rows", Int rows);
    (str "isAlternateScreen", Bool false); (str "outputSequence", Int seq);
    (str "isReattach", Bool true); (str "emulatorDegraded", Bool true)]).
Lemma degraded_object_reads snapshot cols rows seq :
  0 <= cols < 2 ^ 16 -> 0 <= rows < 2 ^ 16 -> u64_ok seq ->
  warm_of (degraded_object snapshot cols rows seq) = Some (mkWarmReattach snapshot cols rows false seq None None None None true).
Proof.
  intros Hc Hr Hs. unfold degraded_object, warm_of. read_gets.
  by rewrite (as_u16_Int cols), (as_u16_Int rows), (as_u64_Int seq) by done.
Qed.

Lemma degraded_object_flags snapshot cols rows seq :
  let v := degraded_object snapshot cols rows seq in
  bool_field "isNew" v = false /\ bool_field "isColdRestore" v = false /\ bool_field "isReattach" v = true.
Proof. repeat split. Qed.

Definition cold_object (snapshot : bytes) (cols rows : Z) (alt degraded : bool) (tail : option bytes) : Value :=
  let obj := object [(str "isNew", Bool true); (str "isColdRestore", Bool true); (str "snapshot", Str snapshot);
    (str "cols", Int cols); (str "rows", Int rows); (str "isAlternateScreen", Bool alt)] in
  set_some "pendingEscapeTailAnsi" tail (set_if degraded "degraded" (Bool true) obj).
Lemma cold_object_reads snapshot cols rows alt degraded tail :
  0 <= cols < 2 ^ 16 -> 0 <= rows < 2 ^ 16 ->
  cold_from_result (cold_object snapshot cols rows alt degraded tail) = mkColdRestorePayload snapshot cols rows alt tail.
Proof.
  intros Hc Hr. unfold cold_object, cold_from_result.
  destruct tail, degraded; cbn [set_some set_if]; unfold cold_payload_of; read_gets;
    rewrite (as_u16_Int cols), (as_u16_Int rows) by done; reflexivity.
Qed.
Lemma cold_object_flags snapshot cols rows alt degraded tail :
  let v := cold_object snapshot cols rows alt degraded tail in
  bool_field "isNew" v = true /\ bool_field "isColdRestore" v = true /\ bool_field "isReattach" v = false.
Proof. unfold cold_object. by destruct tail, degraded. Qed.

(** The daemon's two replies are those objects. *)
Lemma set_some_if_any k b v : set_if (nonempty b) k (lossy b) v = set_some k (text_if_any b) v.
Proof. unfold set_if, nonempty, text_if_any. by case_bool_decide. Qed.

Lemma attach_reply_object e s :
  set "isNew" (Bool false) (warm_snapshot_json e s).1 =
    let w := warm_view e s in
    if wr_emulator_degraded w then degraded_object (wr_snapshot w) (wr_cols w) (wr_rows w) (wr_output_sequence w)
    else warm_object (wr_snapshot w) (wr_cols w) (wr_rows w) (wr_is_alternate_screen w) (wr_output_sequence w)
           (wr_pending_escape_tail w) (wr_kitty_keyboard_flags w) (wr_cwd w) (wr_last_title w).
Proof.
  unfold warm_view, warm_snapshot_json. destruct (session_snapshot (panics e) s default_options) as [[snap|] s']; cbn [fst].
  - cbn zeta. rewrite set_some_if_any. unfold warm_object. cbn zeta. unfold set_if at 1.
    destruct (kitty_keyboard_flags snap =? 0); reflexivity.
  - destruct (session_applied_size s'); reflexivity.
Qed.

Lemma cold_reply_object cr :
  cold_restore_reply cr = cold_object (from_utf8_lossy (cold_snapshot cr)) (cold_cols cr) (cold_rows cr) (cold_alternate cr)
    (degraded cr) (text_if_any (cold_pending_escape_tail cr)).
Proof. unfold cold_restore_reply. by rewrite set_some_if_any. Qed.

(** CreateOrAttach means the same at both ends. The daemon reads the request
    as it was made, with the last value of each environment variable. A session
    that is live is attached to: the reply says that it is not new and carries
    the screen as it is, or, when the emulator cannot compose it, the raw tail
    marked as degraded. A recovered session comes with what was recovered; a
    session without either has neither. *)
Theorem create_or_attach_agrees (req : CreateOrAttach) e s (cr : ColdRestore) :
  request_fits req -> view_fits (warm_view e s) ->
  0 <= cold_cols cr < 2 ^ 16 -> 0 <= cold_rows cr < 2 ^ 16 ->
  (exists env,
    create_params (create_params_value req) =
      Ok (mkCreateParams (co_session_id req) (default (str ".") (co_cwd req)) (co_cols req) (co_rows req)
            (co_scrollback_bytes req) env) /\
    (list_to_map env : gmap bytes bytes) = list_to_map (reverse (co_env req))) /\
  (let r := create_reply_of (set "isNew" (Bool false) (warm_snapshot_json e s).1) in
   reply_is_new r = false /\ reply_is_cold r = false /\ warm_from_result r = Some (warm_view e s)) /\
  (let r := create_reply_of (create_reply (Some cr) true) in
   reply_is_new r = true /\ reply_is_cold r = true /\ reply_payload r = cold_view cr /\ warm_from_result r = None) /\
  (forall cold, cold = None \/ cold = Some cr ->
   let r := create_reply_of (create_reply cold false) in
   reply_is_new r = true /\ reply_is_cold r = false /\ warm_from_result r = None).
Proof.
  intros Hq (Hc & Hr & Hs & Hk) Hcc Hcr. split; [by apply create_request_arrives|]. split_and!.
  - rewrite attach_reply_object. cbn zeta. set (w := warm_view e s) in *. destruct (wr_emulator_degraded w) eqn:Ed.
    + pose proof (degraded_object_flags (wr_snapshot w) (wr_cols w) (wr_rows w) (wr_output_sequence w)) as (F1 & F2 & F3).
      unfold warm_from_result. cbn [reply_is_new reply_is_cold reply_is_reattach reply_warm create_reply_of].
      rewrite F1, F2, F3, degraded_object_reads by done. split_and!; [done..|]. revert Ed. unfold w, warm_view.
      destruct (session_snapshot _ _ _) as [[snap|] s']; [discriminate|]. by destruct (session_applied_size s').
    + pose proof (warm_object_flags (wr_snapshot w) (wr_cols w) (wr_rows w)
        (wr_is_alternate_screen w) (wr_output_sequence w) (wr_pending_escape_tail w)
        (wr_kitty_keyboard_flags w) (wr_cwd w) (wr_last_title w)) as (F1 & F2 & F3).
      unfold warm_from_result. cbn [reply_is_new reply_is_cold reply_is_reattach reply_warm create_reply_of].
      rewrite F1, F2, F3, warm_object_reads by done. split_and!; [done..|]. f_equal.
      clearbody w. destruct w. cbn in *. by rewrite Ed.
  - unfold create_reply. rewrite cold_reply_object.
    pose proof (cold_object_flags (from_utf8_lossy (cold_snapshot cr)) (cold_cols cr) (cold_rows cr) (cold_alternate cr)
      (degraded cr) (text_if_any (cold_pending_escape_tail cr))) as (F1 & F2 & F3).
    unfold warm_from_result. cbn [reply_is_new reply_is_cold reply_is_reattach reply_payload create_reply_of].
    rewrite F1, F2, F3, cold_object_reads by done. done.
  - intros cold [->| ->]; done.
Qed.
End create.

(** * Notifications *)

Section notify.
Context {P : Type} `{Vt100 P} {K : Type} `{Kernel K} `{JsonTextLaws}.
Context (base64_encode : bytes -> bytes) (base64_decode : bytes -> option bytes).
Context (base64_laws : forall data, base64_decode (base64_encode data) = Some data).
Implicit Types (d : Daemon (P := P)) (e : Env (K := K)).

Definition notified e (n : Notify) d : Daemon (P := P) := (control_line base64_decode e (notify_line n) d).1.
Definition delivered (n : Notify) : Prop := well_formed (MNotify n) /\ fits (MNotify n) = true.

Lemma notify_dispatched e n d :
  delivered n -> control_line base64_decode e (notify_line n) d =
    (dispatch_notify base64_decode e (nt_method n) (nt_params n) d, Nothing).
Proof.
  intros [Hw Hf]. unfold control_line, notify_line. change (encode_ndjson_line _) with (message_line (MNotify n)).
  by rewrite decode_message.
Qed.

Definition on_live (sid : bytes) (f : SessionArc (P := P) -> SessionArc (P := P)) d : Daemon (P := P) :=
  match get_session d sid with Some h => on_arc f h d | None => d end.

Lemma notified_write e sid data d :
  delivered (write base64_encode sid data) ->
  notified e (write base64_encode sid data) d = on_live sid (on_input data) d.
Proof.
  intros Hd. unfold notified. rewrite notify_dispatched by done. cbn [fst nt_method nt_params write].
  unfold dispatch_notify. set (v := object _). change (get "dataB64" v) with (Some (Str (base64_encode data))).
  change (get "sessionId" v) with (Some (Str sid)). cbn [mbind option_bind as_str].
  change (bytes_eqb (str "write") (str "write")) with true. cbv iota. by rewrite base64_laws.
Qed.

Lemma notified_resize e sid cols rows d :
  delivered (resize sid cols rows) -> 0 <= cols < 2 ^ 16 -> 0 <= rows < 2 ^ 16 ->
  notified e (resize sid cols rows) d =
    if (cols =? 0) || (rows =? 0) then d
    else on_live sid (on_session (fun s => (session_resize (refused e) s cols rows).2)) d.
Proof.
  intros Hd Hc Hr. unfold notified. rewrite notify_dispatched by done. cbn [fst nt_method nt_params resize].
  set (v := object _).
  assert (dispatch_notify base64_decode e (str "resize") v d =
    let cols := u16_param "cols" 0 v in let rows := u16_param "rows" 0 v in
    if (cols =? 0) || (rows =? 0) then d
    else on_live sid (on_session (fun s => (session_resize (refused e) s cols rows).2)) d) as -> by reflexivity.
  rewrite (u16_param_Int "cols" cols v 0 Hc eq_refl), (u16_param_Int "rows" rows v 0 Hr eq_refl). done.
Qed.

Lemma arcs_on_arc f h d k : arcs (on_arc f h d) !! k = if decide (h = k) then f <$> arcs d !! h else arcs d !! k.
Proof. unfold on_arc, set_arcs. cbn [arcs]. apply lookup_alter. Qed.
(** Changes of one session compose; one that changes no session is none. *)
Lemma on_arc_compose f g k h d : (forall a, f (g a) = k a) -> on_arc f h (on_arc g h d) = on_arc k h d.
Proof.
  intros Hfg. unfold on_arc at 1 3, set_arcs. f_equal. apply map_eq. intros i.
  rewrite !lookup_alter, !arcs_on_arc. rewrite (decide_True (P := h = h)) by done. destruct (decide (h = i)); [|done]. destruct (arcs d !! h); cbn; by rewrite ?Hfg.
Qed.
Lemma on_arc_none f h d : (forall a, f a = a) -> on_arc f h d = d.
Proof.
  intros Hf. unfold on_arc, set_arcs. destruct d as [? ? ? m]. cbn. f_equal. apply map_eq. intros i.
  rewrite lookup_alter. case_decide as E; [|done]. subst i. destruct (m !! h); cbn; by rewrite ?Hf.
Qed.

Definition typed (datas : list bytes) (a : SessionArc (P := P)) : SessionArc (P := P) :=
  mkArc (ses a) (agents a) (shell_pid a) (input a ++ datas).

(** C30: what the app types reaches the session's writer as it was typed: whatever
    the chunks and their bytes, after the lines of a sequence of writes the
    input handed to the writer has grown by exactly those chunks, in their order,
    and nothing else of the daemon has changed; without a live session they are
    dropped. A size other than zero reaches the session's terminal as it is. *)
Theorem input_arrives_in_order e sid datas cols rows d :
  Forall (fun data => delivered (write base64_encode sid data)) datas ->
  foldl (fun d data => notified e (write base64_encode sid data) d) d datas = on_live sid (typed datas) d /\
  (delivered (resize sid cols rows) -> 0 < cols < 2 ^ 16 -> 0 < rows < 2 ^ 16 ->
   notified e (resize sid cols rows) d =
     on_live sid (on_session (fun s => (session_resize (refused e) s cols rows).2)) d).
Proof.
  intros Hd. split.
  - revert d. induction Hd as [|data datas Hd _ IH]; intros d; cbn [foldl].
    + unfold on_live. destruct (get_session d sid) as [h|]; [|done]. symmetry. apply on_arc_none.
      intros []. unfold typed. cbn. by rewrite app_nil_r.
    + rewrite IH, notified_write by done. unfold on_live at 2 3.
      destruct (get_session d sid) as [h|] eqn:Eh; [|by unfold on_live; rewrite Eh].
      unfold on_live. change (get_session (on_arc (on_input data) h d) sid) with (get_session d sid). rewrite Eh.
      apply on_arc_compose. intros []. unfold typed, on_input. cbn. by rewrite <- app_assoc.
  - intros Hr Hc Hw. rewrite notified_resize by (done || lia).
    rewrite (proj2 (Z.eqb_neq cols 0)), (proj2 (Z.eqb_neq rows 0)) by lia. done.
Qed.
End notify.

(** * Applications *)

Module ClientCallExamples.
Import ServerExamples.
(** The daemon of a run in which one session was created. *)
Definition one_session : Daemon (P := RecordingVt.t) :=
  match exec_acts (K := FakeKernel) x0 (creates 0 0 true) with Some x => dm x | None => dm x0 end.
Definition err : bytes := str "error".
Definition options : DaemonClientOptions := mkClientOptions 1 (str "c").

Lemma hello_is_fine o token kind :
  o = options -> token = str "t" ->
  let h := hello_of_options o kind token in
  hello_fine h (answer_hello (P := RecordingVt.t) (daemon_new (str "t")) (hello_line h)).
Proof. intros -> ->. destruct kind; split; try (vm_compute; (reflexivity || discriminate)); split; reflexivity || discriminate. Qed.

Lemma connects_iff_admitted_witness :
  let d := daemon_new (P := RecordingVt.t) (str "t") in
  (do_connect err options (Ok (str "  t ")) (daemon_socket d options (str "t") Control)
     (daemon_socket d options (str "t") Stream) shared_new).1.2 = Ok tt.
Proof.
  intros d. pose proof (connects_iff_admitted err d options (str "  t ") shared_new
    (fun kind => hello_is_fine options (str "t") kind eq_refl eq_refl)) as E.
  change (trim (str "  t ")) with (str "t") in E. rewrite E. vm_compute. reflexivity.
Defined.

Lemma one_session_sized : sized one_session.
Proof.
  intros h a Ha. destruct h as [|h].
  - assert (E : (fun a => (session_applied_size (ses a), shell_pid a)) <$> arcs one_session !! 0%nat = Some ((80, 24), Some 7))
      by (vm_compute; reflexivity).
    rewrite Ha in E. cbn [fmap option_fmap option_map] in E. injection E as -> ->. cbn [fst snd].
    split; [lia|]. split; [lia|]. intros p [= <-]. lia.
  - exfalso. assert (E : map_to_list (arcs one_session) !! 1%nat = None) by (vm_compute; reflexivity).
    apply elem_of_map_to_list in Ha. destruct (map_to_list (arcs one_session)) as [|x [|y l]] eqn:El; [by apply not_elem_of_nil in Ha| |done].
    assert (x.1 = 0%nat) by (assert (Ex : (map_to_list (arcs one_session)).*1 = [0%nat]) by (vm_compute; reflexivity);
      rewrite El in Ex; by injection Ex).
    apply list_elem_of_singleton in Ha. by subst x.
Qed.

Lemma size_is_carried sid :
  sid = str "s" \/ sid = str "u" -> carried env (applied_size sid) 5 one_session.
Proof.
  assert (Hs : (handled env (applied_size (str "s")) one_session).2 = Ok (object [(str "cols", Int 80); (str "rows", Int 24)]))
    by (vm_compute; reflexivity).
  assert (Hu : (handled env (applied_size (str "u")) one_session).2 = Err session_not_found) by (vm_compute; reflexivity).
  intros [-> | ->]; unfold carried; rewrite ?Hs, ?Hu; clear Hs Hu; (split; [|split; [|split]]).
  2, 4, 6, 8: vm_compute; reflexivity.
  all: split; [|vm_compute; reflexivity]; cbn [message_ok request_of_call reply_of_result reply_ok reply_err rq_id rp_id rp_result rp_error];
    unfold u64_ok; first [lia | split; [lia|split; [discriminate|]]; intros x [= <-]; by split].
Qed.

Lemma calls_are_the_handlers_witness :
  (exchange b64 env (applied_size (str "s")) 5 one_session).2 = Some (Ok (80, 24)) /\
  (exchange b64 env (applied_size (str "u")) 5 one_session).2 = Some (Err (Rpc session_not_found)).
Proof.
  pose proof (proj1 (calls_are_the_handlers b64 err env one_session (str "s") 5 one_session_sized) (size_is_carried _ (or_introl eq_refl))) as Es.
  pose proof (proj1 (calls_are_the_handlers b64 err env one_session (str "u") 5 one_session_sized) (size_is_carried _ (or_intror eq_refl))) as Eu.
  split; [rewrite Es|rewrite Eu]; vm_compute; reflexivity.
Defined.

Definition same_bytes (b : bytes) : bytes := b.
Definition a_request : CreateOrAttach :=
  mkCreateOrAttach (str "s") None 80 24 [(str "A", str "1"); (str "A", str "2")] (Some 4096).
Definition a_session : Session (P := RecordingVt.t) := spawn_with_ring_cap (str "s") 80 24 4096.
Definition recovered : ColdRestore := mkColdRestore (str "old") [] None 80 24 false [] false.

Lemma create_or_attach_agrees_witness :
  (exists p, create_params (create_params_value a_request) = Ok p /\
     (list_to_map (cr_env p) : gmap bytes bytes) !! str "A" = Some (str "2")) /\
  warm_from_result (create_reply_of (set "isNew" (Bool false) (warm_snapshot_json env a_session).1)) =
    Some (mkWarmReattach [] 80 24 false 0 None None None None false).
Proof.
  assert (Hf : request_fits a_request) by (split_and!; [done..|]; intros n [= <-]; by split).
  assert (Hw : warm_view env a_session = mkWarmReattach [] 80 24 false 0 None None None None false) by (vm_compute; reflexivity).
  assert (Hv : view_fits (warm_view env a_session)) by (rewrite Hw; split_and!; try split; (done || lia)).
  destruct (create_or_attach_agrees a_request env a_session recovered Hf Hv ltac:(done) ltac:(done)) as ((es & E & Em) & (_ & _ & Ew) & _).
  split; [|rewrite Ew; exact (f_equal Some Hw)]. eexists. split; [exact E|]. cbn [cr_env]. rewrite Em. vm_compute. reflexivity.
Defined.

Lemma input_arrives_in_order_witness :
  let typed_in := foldl (fun d data => notified b64 env (write same_bytes (str "s") data) d) one_session [str "ls"; str "x"] in
  input <$> arcs typed_in !! 0%nat = Some [str "ls"; str "x"].
Proof.
  intros typed_in.
  assert (Hd : Forall (fun data => delivered (write same_bytes (str "s") data)) [str "ls"; str "x"])
    by (repeat constructor; vm_compute; reflexivity).
  pose proof (proj1 (input_arrives_in_order same_bytes b64 (fun _ => eq_refl) env (str "s") [str "ls"; str "x"] 1 1 one_session Hd)) as E.
  unfold typed_in. rewrite E. vm_compute. reflexivity.
Defined.
End ClientCallExamples.
