(* ===== verification/Global.v ===== *)
(** The one client of the app's process (grove-core/src/daemon/global.rs): its
    configuration, the cell that the first terminal operation fills, and the
    operations that go through it, with the two shells' acknowledgement of a cold
    restore (src-tauri/src/lib.rs). The cell is tokio's OnceCell: one caller at a
    time runs the initialisation, a failure or a dropped call leaves it empty. *)

From S2P Require Import Prelude Utf8 Text Paths Json Protocol Client Server ClientCalls Supervisor.

#[local] Open Scope rust_scope.

(** * Errors and paths *)

(** [os] is the text of the operating system's error, [reason] that of a failed
    spawn. *)
Definition supervisor_error_text (os reason : bytes) (e : SupervisorError) : bytes :=
  let with_tail (m : bytes) tail := match tail with Some t => m ++ str "
log tail:
" ++ t | None => m end in
  match e with
  | Supervisor.Io => str "supervisor io: " ++ os
  | TokenGen => str "supervisor token write: " ++ os
  | BinaryVerify m => str "supervisor binary verify: " ++ m
  | SpawnFailed tail => with_tail (str "daemon spawn failed: " ++ reason) tail
  | ReadinessTimeout tail => with_tail (str "daemon readiness timed out") tail
  end.

Definition runtime_base_dir (slot : option Config) : option bytes := base_dir <$> slot.
Definition default_bin_source_path (current_exe : option bytes) : bytes :=
  default (str "grove-daemon") ((fun dir => path_join dir (str "grove-daemon")) <$> (current_exe ≫= parent)).
(** [runtime_dir] is the fixed place, which can fail to be found. *)
Definition configure_default (slot : option Config) (app_version : bytes) (base_dir_override : option bytes)
    (runtime_dir : result bytes bytes) (current_exe : option bytes) : option Config * result unit bytes :=
  match (match base_dir_override with Some dir => Ok dir | None => runtime_dir end) with
  | Err e => (slot, Err e)
  | Ok dir => (configure slot (mkConfig dir (default_bin_source_path current_exe) app_version), Ok tt)
  end.

(** * Initialisation *)

Definition not_configured : bytes :=
  str "grove daemon is not configured: call grove_core::daemon::configure() at app startup before creating terminals".

Section init.
Context `{JsonText}.
(** Debug builds take the binary from the environment and may run it unsigned. *)
Context (debug allow_unverified : bool) (os reason : bytes).

(** What one attempt finds. *)
Record InitObs := mkInitObs {
  env_override : option bytes;
  ensure_obs : EnsureObs;
  runtime_built : result unit bytes;
  connected_ : result unit ClientError
}.

(** The effects of one attempt and its result; [h] names the handle it builds.
    [None] is an attempt that goes on for ever. *)
Definition init (config : option Config) (o : InitObs) (h : nat) : option (list effect * result nat bytes) :=
  match config with
  | None => Some ([], Err not_configured)
  | Some c =>
      let c := mkConfig (base_dir c) (resolve_bin_source (bin_source_path c) (env_override o) debug) (app_version c) in
      match ensure_running allow_unverified c (ensure_obs o) with
      | None => None
      | Some (fx, Err e) =>
          Some (fx, Err (str "failed to ensure the grove daemon is running: " ++ supervisor_error_text os reason e))
      | Some (fx, Ok _) =>
          match runtime_built o with
          | Err e => Some (fx, Err (str "failed to build the grove daemon client: " ++ e))
          | Ok _ =>
              match connected_ o with
              | Err e => Some (fx, Err (str "failed to connect to the grove daemon: " ++ error_text e))
              | Ok _ => Some (fx, Ok h)
              end
          end
      end
  end.

(** * The cell *)

Inductive ask_pc := Asking | Got (r : result nat bytes).

(** [permit] is the caller that initialises, with the configuration it read;
    [handles] names the next handle, [log] is what the attempts did. *)
Record global := mkGlobal {
  config : option Config;
  cell : option nat;
  permit : option (nat * option Config);
  asks : gmap nat ask_pc;
  handles : nat;
  log : list effect
}.
Definition global_new : global := mkGlobal None None None ∅ 0 [].

Definition filled (r : result nat bytes) (c : option nat) : option nat := match r with Ok h => Some h | Err _ => c end.

Inductive global_step : global -> global -> Prop :=
| g_configure g c :
    global_step g (mkGlobal (configure (config g) c) (cell g) (permit g) (asks g) (handles g) (log g))
| g_ask g n :
    asks g !! n = None ->
    global_step g (mkGlobal (config g) (cell g) (permit g) (<[n := Asking]> (asks g)) (handles g) (log g))
| g_hit g n h :
    asks g !! n = Some Asking -> cell g = Some h ->
    global_step g (mkGlobal (config g) (cell g) (permit g) (<[n := Got (Ok h)]> (asks g)) (handles g) (log g))
| g_begin g n :
    asks g !! n = Some Asking -> cell g = None -> permit g = None ->
    global_step g (mkGlobal (config g) (cell g) (Some (n, config g)) (asks g) (handles g) (log g))
| g_end g n c o fx r :
    permit g = Some (n, c) -> init c o (handles g) = Some (fx, r) ->
    global_step g
      (mkGlobal (config g) (filled r (cell g)) None (<[n := Got r]> (asks g)) (S (handles g)) (log g ++ fx))
| g_drop g n :
    asks g !! n = Some Asking ->
    global_step g
      (mkGlobal (config g) (cell g)
         (match permit g with Some (k, _) => if decide (k = n) then None else permit g | None => None end)
         (delete n (asks g)) (handles g) (log g))
(* [set_global_client] *)
| g_set g :
    global_step g
      (mkGlobal (config g)
         (match cell g, permit g with None, None => Some (handles g) | c, _ => c end)
         (permit g) (asks g) (S (handles g)) (log g)).
End init.

(** * Operations through the cell *)

(** Without a client there is nothing to do; errors are dropped. *)
Definition through {S E} (cell : option nat) (op : S -> S * result unit E) (s : S) : S :=
  match cell with Some _ => (op s).1 | None => s end.

(** [queued] says whether the notification could be queued. *)
Definition ack_op (sid : bytes) (queued : bool) (s : Shared) : Shared * result unit ClientError :=
  (Client.ack_cold_restore s sid, if queued then Ok tt else Err NotConnected).
(** The blocking bridge, in a thread that is or is not within a runtime. *)
Definition ack_cold_restore (cell : option nat) (ambient : bool) (sid : bytes) (queued : bool) (s : Shared) : Shared :=
  through cell (block ambient (ack_op sid queued)) s.
Definition checkpoint_all_sessions (cell : option nat) (op : Shared -> Shared * result unit ClientError) (s : Shared) : Shared :=
  through cell op s.
Definition checkpoint_all_sessions_blocking (cell : option nat) (ambient : bool)
    (op : Shared -> Shared * result unit ClientError) (s : Shared) : Shared :=
  through cell (block ambient op) s.
(** The command of the shells: the thread of [spawn_blocking] is within the
    runtime that spawned it. *)
Definition shell_ack_cold_restore (cell : option nat) (sid : bytes) (queued : bool) (s : Shared) : Shared :=
  ack_cold_restore cell true sid queued s.

(** * One client *)

(** In a release build the environment has no say in which binary runs. *)
Lemma release_ignores_environment `{JsonText} u os reason c o h env :
  init false u os reason c o h =
  init false u os reason c (mkInitObs env (ensure_obs o) (runtime_built o) (connected_ o)) h.
Proof. unfold init, resolve_bin_source. destruct c as [c|]; [|done]. by destruct (env_override o), env. Qed.

Section one_client.
Context `{JsonText} (debug allow_unverified : bool) (os reason : bytes).
#[local] Abbreviation step := (global_step debug allow_unverified os reason).

Record global_inv (g : global) : Prop := {
  gi_got : forall n h, asks g !! n = Some (Got (Ok h)) -> cell g = Some h;
  gi_permit : forall n c, permit g = Some (n, c) ->
    cell g = None /\ asks g !! n = Some Asking /\ (c = None \/ c = config g);
  gi_log : config g = None -> log g = []
}.

Lemma init_unconfigured o h fx r : init debug allow_unverified os reason None o h = Some (fx, r) -> fx = [] /\ r = Err not_configured.
Proof. by intros [= <- <-]. Qed.
Lemma init_handle c o h fx h' : init debug allow_unverified os reason c o h = Some (fx, Ok h') -> h' = h.
Proof.
  unfold init. destruct c; [|done]. destruct (ensure_running _ _ _) as [[fx' [e|e]]|]; try done.
  destruct (runtime_built o), (connected_ o); by intros [= _ ->].
Qed.

Lemma global_inv_step g g' : global_inv g -> step g g' -> global_inv g'.
Proof.
  intros [G Pm L] Hs. destruct Hs as [g c|g n Hn|g n h Hn Hc|g n Hn Hc Hp|g n c o fx r Hp Hi|g n Hn|g];
    split; cbn; intros.
  - by eapply G.
  - destruct (Pm _ _ H0) as (? & ? & [ -> | -> ]); split_and!; try done; [by left|]. destruct (config g); [by right|by left].
  - destruct (config g); [done|]. by apply L.
  - destruct (decide (n0 = n)) as [->|]; [by rewrite lookup_insert_eq in H0|]. rewrite lookup_insert_ne in H0 by done. by eapply G.
  - destruct (Pm _ _ H0) as (? & ? & ?). split_and!; try done. rewrite lookup_insert_ne; [done|congruence].
  - by apply L.
  - destruct (decide (n0 = n)) as [->|].
    + rewrite lookup_insert_eq in H0. congruence.
    + rewrite lookup_insert_ne in H0 by done. by eapply G.
  - destruct (Pm _ _ H0) as (? & ? & ?). congruence.
  - by apply L.
  - by eapply G.
  - injection H0 as <- <-. auto.
  - by apply L.
  - destruct (Pm _ _ Hp) as (Hc & _ & _). destruct (decide (n0 = n)) as [->|].
    + rewrite lookup_insert_eq in H0. injection H0 as ->. done.
    + rewrite lookup_insert_ne in H0 by done. apply G in H0. congruence.
  - done.
  - destruct (Pm _ _ Hp) as (_ & _ & [ -> | -> ]); rewrite L by done; [|rewrite H0 in Hi];
      by apply init_unconfigured in Hi as [-> _].
  - rewrite lookup_delete_Some in H0. destruct H0 as [_ H0]. by eapply G.
  - destruct (permit g) as [[k c']|] eqn:Ep; [|done]. case_decide; [done|]. injection H0 as <- <-.
    destruct (Pm _ _ eq_refl) as (? & ? & ?). split_and!; try done. by rewrite lookup_delete_ne.
  - by apply L.
  - apply G in H0. by rewrite H0.
  - destruct (Pm _ _ H0) as (-> & ? & ?). rewrite H0. auto.
  - by apply L.
Qed.

Lemma step_keeps g g' :
  global_inv g -> step g g' ->
  (forall c, config g = Some c -> config g' = Some c) /\
  (forall h, cell g = Some h -> cell g' = Some h /\ log g' = log g).
Proof.
  intros [G Pm L] Hs. destruct Hs as [g c|g n Hn|g n h Hn Hc|g n Hn Hc Hp|g n c o fx r Hp Hi|g n Hn|g]; cbn.
  all: split; [intros c' Hc'|intros h' Hh']; try done.
  - by rewrite Hc'.
  - destruct (Pm _ _ Hp) as (Hc & _). congruence.
  - by rewrite Hh'.
Qed.

(** C18: the app has one client: every terminal operation that got one got the one
    in the cell, which never changes; two attempts to start or adopt a daemon
    never run at once, and none runs once there is a client; the first
    configuration stays, and without one nothing is done to the system. *)
Theorem one_shared_client g :
  rtc step global_new g ->
  (forall n h, asks g !! n = Some (Got (Ok h)) -> cell g = Some h) /\
  (config g = None -> log g = []) /\
  (forall n c, permit g = Some (n, c) -> asks g !! n = Some Asking /\ forall h, cell g <> Some h) /\
  forall g', rtc step g g' ->
    (forall c, config g = Some c -> config g' = Some c) /\
    (forall h, cell g = Some h -> cell g' = Some h /\ log g' = log g).
Proof.
  intros Hg. assert (Hi : global_inv g).
  { eapply rtc_invariant; [exact global_inv_step| |exact Hg]. by split. }
  split_and!; [apply Hi|apply Hi| |].
  - intros n c Hp. destruct (gi_permit _ Hi n c Hp) as (Hc & Ha & _). split; [done|]. by rewrite Hc.
  - intros g' Hg'. induction Hg' as [g|g k g' Hs Hr IH]; [auto|]. destruct (step_keeps g k Hi Hs) as [K1 K2].
    destruct IH as [I1 I2]; [by eapply rtc_r|by eapply global_inv_step|]. split; [auto|].
    intros h Hh. destruct (K2 h Hh) as [Hk Hl]. destruct (I2 h Hk) as [Hk' Hl']. split; [done|congruence].
Qed.
End one_client.

(** Off a runtime the acknowledgement drops the payload; the shells make it from
    a thread of their runtime, where the bridge refuses: nothing happens, and the
    refusal is dropped. *)
Lemma ack_off_runtime h sid queued s : ack_cold_restore (Some h) false sid queued s = Client.ack_cold_restore s sid.
Proof. by destruct queued. Qed.
Theorem shell_ack_is_refused cell sid queued s : shell_ack_cold_restore cell sid queued s = s.
Proof. by destruct cell. Qed.

Module GlobalExamples.
Import SupervisorExamples.
#[local] Abbreviation gstep := (global_step true true [] []).
Definition adopt : InitObs := mkInitObs None (obs procs []) (Ok tt) (Ok tt).
(** Two operations ask; the first one's attempt adopts the daemon that runs. *)
Definition asked : global := mkGlobal (Some cfg) None (Some (0%nat, Some cfg)) (<[1%nat := Asking]> {[0%nat := Asking]}) 0 [].
Definition served : global :=
  mkGlobal (Some cfg) (Some 0%nat) None (<[1%nat := Got (Ok 0%nat)]> (<[0%nat := Got (Ok 0%nat)]> (asks asked))) 1 [].

Lemma served_reached : rtc gstep global_new served.
Proof.
  eapply rtc_l; [apply (g_configure _ _ _ _ global_new cfg)|]. eapply rtc_l; [by apply (g_ask _ _ _ _ _ 0%nat)|].
  eapply rtc_l; [by apply (g_ask _ _ _ _ _ 1%nat)|]. eapply rtc_l; [by apply (g_begin _ _ _ _ _ 0%nat)|].
  change (rtc gstep asked served). eapply rtc_l.
  { apply (g_end true true [] [] asked 0 (Some cfg) adopt [] (Ok 0%nat)); [reflexivity|]. vm_compute. reflexivity. }
  eapply rtc_l; [by apply (g_hit _ _ _ _ _ 1%nat 0%nat)|]. apply rtc_refl.
Qed.

Lemma one_shared_client_witness : rtc gstep global_new served /\ cell served = Some 0%nat.
Proof.
  split; [exact served_reached|].
  exact (proj1 (one_shared_client true true [] [] served served_reached) 1%nat 0%nat eq_refl).
Defined.
End GlobalExamples.
