(* ===== verification/Panes.v ===== *)
(** The panes of the app (pty.rs): the registry of attached panes, their creation
    across two sockets, what the daemon's stream does to them, closing, the poll
    of bells, the snapshots that are saved of them, and the environment their
    shells are given. The daemon's answers are arguments of the operations. *)

From S2P Require Import Prelude Utf8 Text Paths ClientCalls Client Gc Pty Json Protocol Config World UiStores ToolHooks.

#[local] Open Scope rust_scope.

(** * Data *)

Record CreatePtyRestore := mkRestore {
  re_last_known_cwd : option bytes;
  re_scrollback : option bytes;
  re_scrollback_truncated : option bool
}.
Record CreatePtyRequest := mkCreateRequest {
  rq_pty_id : bytes;
  rq_pane_id : bytes;
  rq_worktree_path : bytes;
  rq_cwd : bytes;
  rq_cols : Z;
  rq_rows : Z;
  rq_restore : option CreatePtyRestore
}.
Inductive CreatePtySessionState := Attached | Created.
Inductive CreatePtyInitialHydrationSource := TmuxCapture | DaemonSnapshot.
Record CreatePtyInitialHydration := mkHydration {
  hy_text : bytes;
  hy_truncated : bool;
  hy_source : CreatePtyInitialHydrationSource;
  hy_snapshot_cols : option Z;
  hy_snapshot_rows : option Z;
  hy_pending_escape_tail : option bytes;
  hy_kitty_keyboard_flags : option Z;
  hy_is_alternate_screen : option bool;
  hy_is_cold_restore : option bool
}.
Record CreatePtyResult := mkCreateResult {
  cp_session_state : CreatePtySessionState;
  cp_initial_hydration : option CreatePtyInitialHydration
}.

(** The part of a pane's state that is not in [Pty.pane]. *)
Record PaneInfo := mkInfo {
  launch_cwd : bytes;
  info_session : bytes;
  last_known_cwd : option bytes;
  pane_cols : Z;
  pane_rows : Z;
  last_ai_status : option bytes
}.
Record PtyRuntimeState := mkRuntime {
  rs_info : PaneInfo;
  rs_scrollback : bytes;
  rs_truncated : bool;
  rs_reader_exited : bool
}.

Definition nonblank (s : option bytes) : option bytes :=
  match trim <$> s with Some (b :: l) => Some (b :: l) | _ => None end.

(** [PtyRuntimeState::new]; a seed is bytes and whether older ones are missing. *)
Definition runtime_new (cwd session : bytes) (cols rows : Z) (restore : option CreatePtyRestore)
    (seed : option (bytes * bool)) : PtyRuntimeState :=
  let '(known, (sb, t)) :=
    match restore with
    | Some r =>
        let t := default false (re_scrollback_truncated r) in
        (nonblank (re_last_known_cwd r),
         match re_scrollback r with
         | Some s => append_scrollback_capped [] t s MAX_SCROLLBACK_BYTES
         | None => ([], t)
         end)
    | None => (None, ([], false))
    end in
  let '(sb, t) :=
    match seed with
    | Some (b, t) => append_scrollback_capped sb t b MAX_SCROLLBACK_BYTES
    | None => (sb, t)
    end in
  mkRuntime (mkInfo cwd session known cols rows None) sb t false.

(** The stream's subscriber with its gate and the state it shares with the
    registry, under a number. *)
Record Adapter := mkAdapter {
  ad_pty_id : bytes;
  ad_session_id : bytes;
  ad_pane : pane;
  ad_info : PaneInfo
}.
Record PtyInstance := mkInstance { in_session : bytes; in_worktree : bytes; in_tracked : nat }.

(** What the client of the daemon was asked to do. *)
Inductive client_call :=
| CallCreate (sid cwd : bytes) (cols rows : Z) (env : list (bytes * bytes)) (scrollback_bytes : Z)
| CallKill (sid : bytes)
| CallWrite (sid data : bytes)
| CallResize (sid : bytes) (cols rows : Z)
| CallClearHistory (sid : bytes)
| CallClearSleepRestore (sid : bytes).

Record App := mkApp {
  registry : gmap bytes PtyInstance;
  adapters : gmap nat Adapter;
  subs : gmap bytes nat;
  calls : list client_call
}.

Definition set_registry (f : gmap bytes PtyInstance -> gmap bytes PtyInstance) (s : App) : App :=
  mkApp (f (registry s)) (adapters s) (subs s) (calls s).
Definition set_adapters (f : gmap nat Adapter -> gmap nat Adapter) (s : App) : App :=
  mkApp (registry s) (f (adapters s)) (subs s) (calls s).
Definition set_subs (f : gmap bytes nat -> gmap bytes nat) (s : App) : App :=
  mkApp (registry s) (adapters s) (f (subs s)) (calls s).
Definition ask_client (c : client_call) (s : App) : App :=
  mkApp (registry s) (adapters s) (subs s) (calls s ++ [c]).

Definition on_pane (f : pane -> pane) (a : Adapter) : Adapter :=
  mkAdapter (ad_pty_id a) (ad_session_id a) (f (ad_pane a)) (ad_info a).
Definition on_info (f : PaneInfo -> PaneInfo) (a : Adapter) : Adapter :=
  mkAdapter (ad_pty_id a) (ad_session_id a) (ad_pane a) (f (ad_info a)).

(** * Arguments *)

Definition required_arg (name : string) (value : bytes) : result bytes bytes :=
  match trim value with [] => Err (str name ++ str " is required") | t => Ok t end.

Section panes.
Context (sha256 : bytes -> bytes) (path_exists is_dir : bytes -> bool).

Definition validate_pty_cwd (cwd : bytes) : result unit bytes :=
  let trimmed := trim cwd in
  if bool_decide (trimmed = []) then Err (str "terminal working directory is empty")
  else if negb (path_exists trimmed) then Err (str "terminal working directory does not exist: " ++ trimmed)
  else if negb (is_dir trimmed) then Err (str "terminal working directory is not a directory: " ++ trimmed)
  else match parent trimmed with
       | None => Err (str "terminal working directory is a filesystem root: " ++ trimmed)
       | Some p => if path_eqb p trimmed then Err (str "terminal working directory is a filesystem root: " ++ trimmed) else Ok tt
       end.

(** * Creating a pane *)

Record create_args := mkArgs { a_pty_id : bytes; a_worktree : bytes; a_cwd : bytes; a_session : bytes }.

(** Up to the first await. *)
Definition create_check (r : CreatePtyRequest) (s : App) : result create_args bytes :=
  let? pty_id := required_arg "ptyId" (rq_pty_id r) in
  let? pane_id := required_arg "paneId" (rq_pane_id r) in
  let? worktree_path := required_arg "worktreePath" (rq_worktree_path r) in
  let? cwd := required_arg "cwd" (rq_cwd r) in
  match registry s !! pty_id with
  | Some _ => Err (str "PTY already exists: " ++ pty_id)
  | None =>
      let? _ := validate_pty_cwd cwd in
      Ok (mkArgs pty_id worktree_path cwd (grove_session_name sha256 worktree_path pane_id))
  end.

(** Once there is a client: the adapter [h] is made and subscribed, then the call
    is made. *)
Definition create_subscribe (r : CreatePtyRequest) (a : create_args) (h : nat) (env : list (bytes * bytes))
    (scrollback_bytes : Z) (s : App) : App :=
  let st := runtime_new (a_cwd a) (a_session a) (rq_cols r) (rq_rows r) None None in
  ask_client (CallCreate (a_session a) (a_cwd a) (rq_cols r) (rq_rows r) env scrollback_bytes)
    (set_subs (<[a_session a := h]>)
       (set_adapters (<[h := mkAdapter (a_pty_id a) (a_session a) (pane_new (rs_scrollback st) (rs_truncated st)) (rs_info st)]>) s)).

Definition unsubscribe_session (sid : bytes) (s : App) : App := set_subs (delete sid) s.

(** [DaemonSinkAdapter::teardown]. *)
Definition teardown_adapter (h : nat) (s : App) : App :=
  match adapters s !! h with
  | Some a =>
      unsubscribe_session (ad_session_id a)
        (set_registry (delete (ad_pty_id a)) (set_adapters (<[h := on_pane teardown a]>) s))
  | None => s
  end.

Definition warm_initial_hydration (w : WarmReattach) : CreatePtyInitialHydration :=
  mkHydration (wr_snapshot w) false DaemonSnapshot (Some (wr_cols w)) (Some (wr_rows w)) (wr_pending_escape_tail w)
    (wr_kitty_keyboard_flags w) (Some (wr_is_alternate_screen w)) None.
Definition cold_initial_hydration (c : ColdRestorePayload) : CreatePtyInitialHydration :=
  mkHydration (cr_snapshot c) false DaemonSnapshot (Some (cr_cols c)) (Some (cr_rows c)) (cr_pending_escape_tail c)
    None (Some (cr_is_alternate_screen c)) (Some true).

Definition runtime_restore_seed (st : CreatePtySessionState) (restore : option CreatePtyRestore) : option CreatePtyRestore :=
  match st with Created => restore | Attached => None end.

(** How the daemon answered: state, hydration, where the snapshot ends. *)
Definition create_outcome (o : CreateOrAttachResult) : CreatePtySessionState * option CreatePtyInitialHydration * option Z :=
  match warm_reattach o, cold_restore o with
  | Some w, _ => (Attached, Some (warm_initial_hydration w), Some (wr_output_sequence w))
  | None, Some c => (Attached, Some (cold_initial_hydration c), None)
  | None, None => (Created, None, None)
  end.

(** The state is reset under the gate that stays as it is. *)
Definition reset_state (st : PtyRuntimeState) (a : Adapter) : Adapter :=
  mkAdapter (ad_pty_id a) (ad_session_id a)
    (mkPane (gate (ad_pane a)) (sent (ad_pane a)) (rs_scrollback st) (rs_truncated st)
       (registered (ad_pane a)) (rs_reader_exited st))
    (rs_info st).

(** After the reply. *)
Definition create_finish_pane (r : CreatePtyRequest) (a : create_args) (h : nat) (reply : result CreateOrAttachResult bytes)
    (s : App) : App * result CreatePtyResult bytes :=
  match reply with
  | Err e => (unsubscribe_session (a_session a) s, Err e)
  | Ok o =>
      let '(state, hydration, snapshot_seq) := create_outcome o in
      let seed := (fun h => (hy_text h, hy_truncated h)) <$> hydration in
      let st := runtime_new (a_cwd a) (a_session a) (rq_cols r) (rq_rows r) (runtime_restore_seed state (rq_restore r)) seed in
      let result := Ok (mkCreateResult state hydration) in
      match adapters s !! h with
      | None => (s, result)
      | Some ad =>
          let ad := reset_state st ad in
          let '(p, exited) := open_gate (ad_pane ad) snapshot_seq in
          let s := set_adapters (<[h := mkAdapter (ad_pty_id ad) (ad_session_id ad) p (ad_info ad)]>) s in
          (if (exited : bool) then teardown_adapter h s
           else set_registry (<[a_pty_id a := mkInstance (a_session a) (a_worktree a) h]>) s,
           result)
      end
  end.
End panes.

(** * The stream *)

Definition stream_data (sid : bytes) (seq : Z) (data : bytes) (s : App) : App :=
  match subs s !! sid with
  | Some h => set_adapters (alter (on_pane (fun p => on_data p seq data)) h) s
  | None => s
  end.
(** With the gate open the pane is torn down at once. *)
Definition stream_exit (sid : bytes) (s : App) : App :=
  match subs s !! sid with
  | None => s
  | Some h =>
      match adapters s !! h with
      | None => s
      | Some a =>
          match gate (ad_pane a) with
          | GateClosed _ _ => set_adapters (<[h := on_pane on_exit a]>) s
          | GateOpen => teardown_adapter h s
          end
      end
  end.

(** * Using a pane *)

Definition SESSION_NOT_FOUND_MESSAGE : bytes := str "SessionNotFound".
Definition is_session_missing (e : ClientError) : bool :=
  match e with Rpc e => bytes_eqb (message e) SESSION_NOT_FOUND_MESSAGE | _ => false end.

Definition session_id_for (id : bytes) (s : App) : option bytes := in_session <$> registry s !! id.
Definition require_session_id (id : bytes) (s : App) : result bytes bytes :=
  match session_id_for id s with Some sid => Ok sid | None => Err (str "PTY not found: " ++ id) end.
Definition map_error {A} (r : result A ClientError) : result A bytes :=
  match r with Ok a => Ok a | Err e => Err (error_text e) end.

Definition write_pty (id data : bytes) (reply : result unit ClientError) (s : App) : App * result unit bytes :=
  match require_session_id id s with
  | Err e => (s, Err e)
  | Ok sid => (ask_client (CallWrite sid data) s, map_error reply)
  end.

Definition set_size (cols rows : Z) (i : PaneInfo) : PaneInfo :=
  mkInfo (launch_cwd i) (info_session i) (last_known_cwd i) cols rows (last_ai_status i).
(** The local geometry is changed before the daemon is asked. *)
Definition resize_pty (id : bytes) (cols rows : Z) (reply : result unit ClientError) (s : App) : App * result unit bytes :=
  match registry s !! id with
  | None => (s, Err (str "PTY not found: " ++ id))
  | Some i =>
      (ask_client (CallResize (in_session i) cols rows)
         (set_adapters (alter (on_info (set_size cols rows)) (in_tracked i)) s), map_error reply)
  end.

Definition applied_pty_size (id : bytes) (reply : result (Z * Z) ClientError) (s : App) : result (option (Z * Z)) bytes :=
  match session_id_for id s with
  | None => Ok None
  | Some _ =>
      match reply with
      | Ok (cols, rows) => Ok (if (0 <? cols) && (0 <? rows) then Some (cols, rows) else None)
      | Err e => if is_session_missing e then Ok None else Err (error_text e)
      end
  end.

Definition clear_mirror (p : pane) : pane := mkPane (gate p) (sent p) [] false (registered p) (reader_exited p).
(** The pane's state is found before the call and cleared after it, whatever the
    registry holds by then. *)
Definition clear_end (i : PtyInstance) (reply : result unit ClientError) (s : App) : App * result unit bytes :=
  match map_error reply with
  | Err e => (s, Err e)
  | Ok _ => (set_adapters (alter (on_pane clear_mirror) (in_tracked i)) s, Ok tt)
  end.
Definition clear_scrollback (id : bytes) (reply : result unit ClientError) (s : App) : App * result unit bytes :=
  match registry s !! id with
  | None => (s, Err (str "PTY not found: " ++ id))
  | Some i => clear_end i reply (ask_client (CallClearHistory (in_session i)) s)
  end.

(** * Closing *)

(** The kill is waited for; the pane may be torn down meanwhile. *)
Definition close_end (id sid : bytes) (reply : result unit ClientError) (s : App) : App * result unit bytes :=
  (match registry s !! id with
   | Some _ => ask_client (CallClearSleepRestore sid) (unsubscribe_session sid (set_registry (delete id) s))
   | None => s
   end, map_error reply).
Definition close_pty (id : bytes) (reply : result unit ClientError) (s : App) : App * result unit bytes :=
  match require_session_id id s with
  | Err e => (s, Err e)
  | Ok sid => close_end id sid reply (ask_client (CallKill sid) s)
  end.

Definition ids_for_worktree (worktree_path : bytes) (s : App) : list bytes :=
  (filter (fun e => in_worktree e.2 = worktree_path) (map_to_list (registry s))).*1.

(** Failures are only printed. *)
Definition close_ptys_for_worktree (worktree_path : bytes) (reply : bytes -> result unit ClientError) (s : App) : App :=
  foldl (fun s id => (close_pty id (reply id) s).1) s (ids_for_worktree worktree_path s).

(** [has_client]: the app has connected to a daemon. *)
Definition close_ptys_for_worktree_blocking (has_client : bool) (worktree_path : bytes) (s : App) : App :=
  let ids := ids_for_worktree worktree_path s in
  let sessions := omap (fun id => session_id_for id s) ids in
  let s := set_registry (fun r => foldr delete r ids) s in
  if has_client then foldl (fun s sid => unsubscribe_session sid (ask_client (CallKill sid) s)) s sessions else s.

(** * The poll of bells *)

Definition set_status (st : option bytes) (i : PaneInfo) : PaneInfo :=
  mkInfo (launch_cwd i) (info_session i) (last_known_cwd i) (pane_cols i) (pane_rows i) st.

Definition bell_delta (pty_id : bytes) (bell : bool) (ai_status last : option bytes) : option PtyBellEvent * option bytes :=
  let ai_changed := negb (bool_decide (ai_status = last)) in
  (if bell || ai_changed then Some (mkBellEvent pty_id bell ai_status) else None,
   if ai_changed then ai_status else last).

(** The daemon's rows by session, the last one of a session counts. *)
Definition rows_of (events : list PtyBellEvent) : gmap bytes (bool * option bytes) :=
  foldl (fun m e => <[be_pty_id e := (be_bell e, be_ai_status e)]> m) ∅ events.

Definition poll_pane (rows : gmap bytes (bool * option bytes)) (x : App * list PtyBellEvent) (e : bytes * PtyInstance) :
    App * list PtyBellEvent :=
  let (s, events) := x in
  let '(bell, ai_status) := default (false, None) (rows !! in_session e.2) in
  match adapters s !! in_tracked e.2 with
  | None => x
  | Some a =>
      let (ev, last) := bell_delta e.1 bell ai_status (last_ai_status (ad_info a)) in
      (set_adapters (<[in_tracked e.2 := on_info (set_status last) a]>) s,
       match ev with Some ev => events ++ [ev] | None => events end)
  end.

(** The panes are listed before the call. *)
Definition poll_end (panes : list (bytes * PtyInstance)) (reply : result (list PtyBellEvent) ClientError) (s : App) :
    App * result (list PtyBellEvent) bytes :=
  match map_error reply with
  | Err e => (s, Err e)
  | Ok events => let (s, out) := foldl (poll_pane (rows_of events)) (s, []) panes in (s, Ok out)
  end.
Definition poll_bell_events (reply : result (list PtyBellEvent) ClientError) (s : App) : App * result (list PtyBellEvent) bytes :=
  if bool_decide (registry s = ∅) then (s, Ok []) else poll_end (map_to_list (registry s)) reply s.

(** * Snapshots *)

Record TerminalPaneSnapshotInput := mkSnapshotInput { si_pane_id : bytes; si_pty_id : option bytes; si_launch_cwd : option bytes }.
Record SaveTerminalSessionSnapshotRequest := mkSaveRequest { sr_worktree_path : bytes; sr_panes : list TerminalPaneSnapshotInput }.

(** What is read of a pane that is attached. *)
Definition runtime_snapshot_for_pty (pty_id : bytes) (s : App) : option (PaneInfo * bytes * bool) :=
  i ← registry s !! pty_id; a ← adapters s !! in_tracked i;
  Some (ad_info a, scrollback (ad_pane a), scrollback_truncated (ad_pane a)).

Definition set_cwd (cwd : bytes) (i : PaneInfo) : PaneInfo :=
  mkInfo (launch_cwd i) (info_session i) (Some cwd) (pane_cols i) (pane_rows i) (last_ai_status i).
Definition cache_last_known_cwd (pty_id cwd : bytes) (s : App) : App :=
  match registry s !! pty_id with
  | Some i => set_adapters (alter (on_info (set_cwd cwd)) (in_tracked i)) s
  | None => s
  end.

(** [daemon_cwd]: what the client answers about a session, if it does. *)
Definition daemon_session_cwd (daemon_cwd : bytes -> option (option bytes)) (sid : bytes) : option bytes :=
  nonblank (daemon_cwd sid ≫= id).

Definition build_pane_snapshot (daemon_cwd : bytes -> option (option bytes)) (input : TerminalPaneSnapshotInput) (s : App) :
    result TerminalPaneSnapshot bytes * App :=
  let runtime :=
    match si_pty_id input with
    | Some id => if bool_decide (trim id = []) then None else runtime_snapshot_for_pty id s
    | None => None
    end in
  let launch :=
    match runtime with
    | Some (i, _, _) => Some (launch_cwd i)
    | None => nonblank (si_launch_cwd input)
    end in
  match launch with
  | None => (Err (str "launchCwd is required when pane " ++ si_pane_id input ++ str " has no live ptyId"), s)
  | Some launch =>
      let known :=
        match runtime with
        | Some (i, _, _) =>
            match daemon_session_cwd daemon_cwd (info_session i) with Some c => Some c | None => last_known_cwd i end
        | None => None
        end in
      let s := match si_pty_id input, known with Some id, Some cwd => cache_last_known_cwd id cwd s | _, _ => s end in
      let '(sb, t) := match runtime with Some (_, sb, t) => (from_utf8_lossy sb, t) | None => ([], false) end in
      let '(restore, source) := match known with Some c => (c, LastKnownCwd) | None => (launch, LaunchCwd) end in
      (Ok (mkPaneSnapshot (trim (si_pane_id input)) sb t launch known restore source), s)
  end.

(** The panes in order; the first one that is refused stops it. *)
Fixpoint snapshot_panes (daemon_cwd : bytes -> option (option bytes)) (seen : list bytes) (panes : list TerminalPaneSnapshotInput)
    (s : App) : result (list TerminalPaneSnapshot) bytes * App :=
  match panes with
  | [] => (Ok [], s)
  | p :: panes =>
      let pane_id := trim (si_pane_id p) in
      if bool_decide (pane_id = []) then (Err (str "paneId is required for every terminal snapshot pane"), s)
      else if bool_decide (pane_id ∈ seen) then (Err (str "Duplicate paneId in terminal snapshot request: " ++ pane_id), s)
      else
        match build_pane_snapshot daemon_cwd p s with
        | (Err e, s) => (Err e, s)
        | (Ok x, s) =>
            match snapshot_panes daemon_cwd (pane_id :: seen) panes s with
            | (Err e, s) => (Err e, s)
            | (Ok xs, s) => (Ok (x :: xs), s)
            end
        end
  end.

Definition put_snapshot (t : TerminalSessionSnapshot) (st : TerminalSessionSnapshotStore) : TerminalSessionSnapshotStore :=
  mkSnapshotStore (st_version st) (<[ts_worktree_path t := t]> (st_worktrees st)).

Definition save_terminal_session_snapshot `{JsonText} (io : Io) (daemon_cwd : bytes -> option (option bytes))
    (request : SaveTerminalSessionSnapshotRequest) (x : App * Fs) : result TerminalSessionSnapshot bytes * (App * Fs) :=
  let (s, f) := x in
  let worktree_path := trim (sr_worktree_path request) in
  if bool_decide (worktree_path = []) then (Err (str "worktreePath is required"), x)
  else
    match sr_panes request with
    | [] =>
        let (r, f) := remove_terminal_session_snapshot_for_worktree io worktree_path f in
        (match r with Ok _ => Ok (mkSessionSnapshot worktree_path []) | Err e => Err e end, (s, f))
    | panes =>
        match snapshot_panes daemon_cwd [] panes s with
        | (Err e, s) => (Err e, (s, f))
        | (Ok ps, s) =>
            let t := mkSessionSnapshot worktree_path ps in
            let (r, f) := update_terminal_session_snapshot_store io (fun st => Ok (tt, put_snapshot t st)) f in
            (match r with Ok _ => Ok t | Err e => Err e end, (s, f))
        end
    end.

(** * The environment of a pane's shell *)

Section env.
Context (sha256 : bytes -> bytes).

(** What the process finds around it. *)
Record EnvFacts := mkEnvFacts {
  ef_pairs : list (bytes * bytes);            (* [subprocess_env_pairs] *)
  ef_var : bytes -> option bytes;
  ef_macos : bool;
  ef_app_version : bytes;
  ef_bin_dir : option bytes;                  (* [tool_hooks::grove_bin_dir] *)
  ef_base : option bytes;                     (* the daemon's runtime directory *)
  ef_token : option bytes;                    (* its token file *)
  ef_zdotdir : option bytes;                  (* [tool_hooks::grove_zdotdir] *)
  ef_home : option bytes
}.
Context (e : EnvFacts).

Definition to_ascii_uppercase (s : bytes) : bytes := (fun b => if in_range 97 122 b then b - 32 else b) <$> s.
Definition is_utf8_locale (locale : bytes) : bool :=
  contains (str "UTF-8") (to_ascii_uppercase locale) || contains (str "UTF8") (to_ascii_uppercase locale).
Definition is_usable_locale (locale : bytes) : bool :=
  negb (bytes_eqb (to_ascii_uppercase locale) (str "UTF-8")) && negb (bytes_eqb (to_ascii_uppercase locale) (str "UTF8")).

Definition locale_in (key : bytes) : option bytes :=
  value ← ef_var e key;
  let trimmed := trim value in
  if negb (bool_decide (trimmed = [])) && is_utf8_locale trimmed && is_usable_locale trimmed then Some trimmed else None.
Definition preferred_utf8_locale : bytes :=
  match omap locale_in [str "LC_ALL"; str "LC_CTYPE"; str "LANG"] with
  | l :: _ => l
  | [] => if ef_macos e then str "en_US.UTF-8" else str "C.UTF-8"
  end.

Definition portable_terminal_env_pairs : list (bytes * bytes) :=
  ef_pairs e ++
  [(str "TERM", str "xterm-256color"); (str "TERM_PROGRAM", str "Grove"); (str "TERM_PROGRAM_VERSION", ef_app_version e);
   (str "LC_ALL", preferred_utf8_locale); (str "LANG", preferred_utf8_locale); (str "LC_CTYPE", preferred_utf8_locale)].

Definition prepend_path_entry (dir path : bytes) : bytes :=
  join (str ":") (dir :: filter (fun entry => entry <> [] /\ entry <> dir) (split_on 58 path)).

Definition daemon_socket_for_env : option bytes := (fun base => from_utf8_lossy (daemon_socket_path base)) <$> ef_base e.
Definition session_key_for_env (session_id : bytes) : option bytes :=
  _ ← ef_base e; token ← ef_token e;
  match trim token with [] => None | t => Some (derive_session_key sha256 t session_id) end.
Definition grove_real_zdotdir : bytes :=
  let real := default [] (ef_var e (str "ZDOTDIR")) in
  if negb (bool_decide (real = [])) && negb (bool_decide (ef_zdotdir e = Some real)) then real
  else default [] (from_utf8_lossy <$> ef_home e).

Definition find_var (key : bytes) (env : list (bytes * bytes)) : option bytes :=
  snd <$> (snd <$> list_find (fun kv => kv.1 = key) env).

Definition daemon_child_env (session_id : bytes) : list (bytes * bytes) :=
  let env := portable_terminal_env_pairs ++ [(str "GROVE_SESSION_ID", session_id)] in
  let env :=
    match ef_bin_dir e with
    | Some dir =>
        let dir := from_utf8_lossy dir in
        let path := default [] (find_var (str "PATH") env) in
        filter (fun kv => kv.1 <> str "PATH") env ++
          [(str "PATH", prepend_path_entry dir path); (str "GROVE_BIN_DIR", dir)]
    | None => env
    end in
  let env := env ++ match daemon_socket_for_env with Some s => [(str "GROVE_DAEMON_SOCK", s)] | None => [] end in
  let env := env ++ match session_key_for_env session_id with Some k => [(str "GROVE_SESSION_KEY", k)] | None => [] end in
  env ++ match ef_zdotdir e with Some z => [(str "GROVE_REAL_ZDOTDIR", grove_real_zdotdir); (str "ZDOTDIR", z)] | None => [] end.
End env.

(** * All of it, interleaved *)

(** Where a call of [create] stands. *)
Inductive create_pc :=
| Checked (r : CreatePtyRequest) (a : create_args)                  (* waiting for the client *)
| Waiting (r : CreatePtyRequest) (a : create_args) (h : nat)        (* subscribed, waiting for the reply *)
| Returned (res : result CreatePtyResult bytes).

Record Sys := mkSys { app : App; creates : gmap nat create_pc }.
Definition sys_new : Sys := mkSys (mkApp ∅ ∅ ∅ []) ∅.

Section system.
Context (sha256 : bytes -> bytes) (path_exists is_dir : bytes -> bool).

Definition create_call (r : CreatePtyRequest) (s : App) : create_pc :=
  match create_check sha256 path_exists is_dir r s with Ok a => Checked r a | Err e => Returned (Err e) end.

(** The awaits of a [create] are where other calls, the stream and teardowns come
    between. The other calls that wait read what they change after the wait. *)
Inductive pane_step : Sys -> Sys -> Prop :=
| ps_call x n r : creates x !! n = None ->
    pane_step x (mkSys (app x) (<[n := create_call r (app x)]> (creates x)))
| ps_no_client x n r a e : creates x !! n = Some (Checked r a) ->
    pane_step x (mkSys (app x) (<[n := Returned (Err e)]> (creates x)))
| ps_subscribe x n r a h env sb : creates x !! n = Some (Checked r a) -> adapters (app x) !! h = None ->
    pane_step x (mkSys (create_subscribe r a h env sb (app x)) (<[n := Waiting r a h]> (creates x)))
| ps_reply x n r a h reply : creates x !! n = Some (Waiting r a h) ->
    pane_step x (let (s, res) := create_finish_pane r a h reply (app x) in
                 mkSys s (<[n := Returned res]> (creates x)))
| ps_data x sid seq data : pane_step x (mkSys (stream_data sid seq data (app x)) (creates x))
| ps_exit x sid : pane_step x (mkSys (stream_exit sid (app x)) (creates x))
| ps_write x id data reply : pane_step x (mkSys (write_pty id data reply (app x)).1 (creates x))
| ps_resize x id c r reply : pane_step x (mkSys (resize_pty id c r reply (app x)).1 (creates x))
| ps_clear x i reply : pane_step x (mkSys (clear_end i reply (app x)).1 (creates x))
| ps_kill x sid : pane_step x (mkSys (ask_client (CallKill sid) (app x)) (creates x))
| ps_close x id sid reply : pane_step x (mkSys (close_end id sid reply (app x)).1 (creates x))
| ps_worktree x c w : pane_step x (mkSys (close_ptys_for_worktree_blocking c w (app x)) (creates x))
| ps_poll x panes reply : pane_step x (mkSys (poll_end panes reply (app x)).1 (creates x))
| ps_snapshot x cwd input : pane_step x (mkSys (build_pane_snapshot cwd input (app x)).2 (creates x)).
End system.

(** * Listed panes are alive *)

Lemma ingest_keeps p d :
  gate (ingest p d) = gate p /\ registered (ingest p d) = registered p /\ reader_exited (ingest p d) = reader_exited p.
Proof. destruct (ingest_sent p d) as (? & _ & ? & ?). done. Qed.

Lemma replay_keeps snap fs p :
  let p' := fold_left (replay_frame snap) fs p in
  gate p' = gate p /\ registered p' = registered p /\ reader_exited p' = reader_exited p.
Proof.
  revert p. induction fs as [|[seq data] fs IH]; intros p; cbn [fold_left]; [done|].
  destruct (IH (replay_frame snap p (seq, data))) as (-> & -> & ->). unfold replay_frame.
  destruct snap as [n|]; [|apply ingest_keeps]. destruct (seq <=? n); [done|]. destruct (_ <? n); apply ingest_keeps.
Qed.

(** What the gate's release leaves. *)
Lemma open_gate_keeps p snap fs ex :
  gate p = GateClosed fs ex -> reader_exited p = false ->
  let '(p', exited) := open_gate p snap in
  exited = ex /\ gate p' = GateOpen /\ reader_exited p' = ex /\ registered p' = (if ex then false else true).
Proof.
  intros Hg Hr. unfold open_gate. rewrite Hg. split; [done|]. destruct ex.
  - cbn [teardown gate reader_exited registered]. split; [|done]. by destruct (replay_keeps snap fs (set_gate p GateOpen)) as (-> & _).
  - destruct (replay_keeps snap fs (register (set_gate p GateOpen))) as (-> & -> & ->). done.
Qed.

Definition listed_ok (s : App) : Prop := forall id i, registry s !! id = Some i ->
  exists a, adapters s !! in_tracked i = Some a /\ ad_pty_id a = id /\ ad_session_id a = in_session i /\
    gate (ad_pane a) = GateOpen /\ registered (ad_pane a) = true /\ reader_exited (ad_pane a) = false.
Definition waiting_ok (s : App) (cs : gmap nat create_pc) : Prop := forall n r a h, cs !! n = Some (Waiting r a h) ->
  exists ad, adapters s !! h = Some ad /\ ad_pty_id ad = a_pty_id a /\ ad_session_id ad = a_session a /\
    (exists fs ex, gate (ad_pane ad) = GateClosed fs ex) /\ reader_exited (ad_pane ad) = false.
Definition waiting_apart (cs : gmap nat create_pc) : Prop := forall n m r a r' a' h,
  cs !! n = Some (Waiting r a h) -> cs !! m = Some (Waiting r' a' h) -> n = m.
Record sys_ok (x : Sys) : Prop := mkSysOk {
  so_listed : listed_ok (app x);
  so_waiting : waiting_ok (app x) (creates x);
  so_apart : waiting_apart (creates x)
}.

(** A change of an adapter that keeps what the invariant reads of it. *)
Definition same_role (a a' : Adapter) : Prop :=
  ad_pty_id a' = ad_pty_id a /\ ad_session_id a' = ad_session_id a /\ reader_exited (ad_pane a') = reader_exited (ad_pane a) /\
  registered (ad_pane a') = registered (ad_pane a) /\
  match gate (ad_pane a), gate (ad_pane a') with
  | GateOpen, GateOpen => True
  | GateClosed _ _, GateClosed _ _ => True
  | _, _ => False
  end.
Definition adapters_kept (s s' : App) : Prop := forall h a, adapters s !! h = Some a ->
  exists a', adapters s' !! h = Some a' /\ same_role a a'.

Lemma same_role_refl a : same_role a a.
Proof. unfold same_role. by destruct (gate (ad_pane a)). Qed.
Lemma kept_refl s s' : adapters s' = adapters s -> adapters_kept s s'.
Proof. intros E h a Ha. exists a. rewrite E. split; [done|apply same_role_refl]. Qed.
Lemma same_role_trans a b c : same_role a b -> same_role b c -> same_role a c.
Proof.
  intros (H1 & H2 & H3 & H4 & H5) (K1 & K2 & K3 & K4 & K5). unfold same_role. repeat (split; [congruence|]).
  by destruct (gate (ad_pane a)), (gate (ad_pane b)), (gate (ad_pane c)).
Qed.
Lemma kept_trans s1 s2 s3 : adapters_kept s1 s2 -> adapters_kept s2 s3 -> adapters_kept s1 s3.
Proof.
  intros H1 H2 h a Ha. destruct (H1 h a Ha) as (b & Hb & Hab). destruct (H2 h b Hb) as (c & Hc & Hbc).
  exists c. split; [done|]. by eapply same_role_trans.
Qed.
Lemma kept_alter s f h :
  (forall a, adapters s !! h = Some a -> same_role a (f a)) -> adapters_kept s (set_adapters (alter f h) s).
Proof.
  intros Hf h' a Ha. cbn [adapters set_adapters]. destruct (decide (h' = h)) as [->|Hne].
  - exists (f a). rewrite lookup_alter_eq, Ha. split; [done|by apply Hf].
  - exists a. rewrite lookup_alter_ne by done. split; [done|apply same_role_refl].
Qed.
Lemma kept_insert s a a' h :
  adapters s !! h = Some a -> same_role a a' -> adapters_kept s (set_adapters (<[h := a']>) s).
Proof.
  intros Hh Hr h' b Hb. cbn [adapters set_adapters]. destruct (decide (h' = h)) as [->|Hne].
  - exists a'. rewrite lookup_insert_eq. simplify_eq. done.
  - exists b. rewrite lookup_insert_ne by done. split; [done|apply same_role_refl].
Qed.

(** Such a change, with entries only leaving the registry, keeps the invariant. *)
Lemma kept_sys_ok s s' cs :
  adapters_kept s s' -> registry s' ⊆ registry s -> sys_ok (mkSys s cs) -> sys_ok (mkSys s' cs).
Proof.
  intros Ha Hr [Hl Hw Hp]. split; [| |done]; cbn [app creates] in *.
  - intros id i Hi. destruct (Hl id i) as (a & H1 & H2 & H3 & H4 & H5 & H6); [by eapply lookup_weaken|].
    destruct (Ha _ _ H1) as (a' & Ha' & E1 & E2 & E3 & E4 & E5). exists a'. rewrite E1, E2, E3, E4. rewrite H4 in E5.
    destruct (gate (ad_pane a')) as [|]; [done|]. by split_and!.
  - intros n r c h Hn. destruct (Hw n r c h Hn) as (a & H1 & H2 & H3 & (fs & ex & H4) & H5).
    destruct (Ha _ _ H1) as (a' & Ha' & E1 & E2 & E3 & E4 & E5). exists a'. rewrite E1, E2, E3. rewrite H4 in E5.
    destruct (gate (ad_pane a')) as [fs' ex'|]; [|done]. split_and!; try done. by exists fs', ex'.
Qed.

(** A call that moves on without waiting. *)
Lemma create_sys_ok s cs n pc :
  (forall r a h, pc <> Waiting r a h) -> sys_ok (mkSys s cs) -> sys_ok (mkSys s (<[n := pc]> cs)).
Proof.
  intros Hpc [Hl Hw Hp]. split; cbn [app creates] in *; [done| |].
  - intros m r a h [[_ E]|[_ E]]%lookup_insert_Some; [by apply Hpc in E|by eapply Hw].
  - intros m k r a r' a' h [[_ E]|[_ E]]%lookup_insert_Some [[_ E']|[_ E']]%lookup_insert_Some; try (by apply Hpc in E); try (by apply Hpc in E').
    by eapply Hp.
Qed.

Lemma teardown_sys_ok h a s cs :
  adapters s !! h = Some a -> gate (ad_pane a) = GateOpen -> sys_ok (mkSys s cs) -> sys_ok (mkSys (teardown_adapter h s) cs).
Proof.
  intros Hh Hg [Hl Hw Hp]. unfold teardown_adapter. rewrite Hh. split; [| |done]; cbn [app creates] in *.
  - intros id i Hi. cbn in Hi. apply lookup_delete_Some in Hi as [Hne Hi]. destruct (Hl id i Hi) as (b & H1 & H2 & H3).
    exists b. split; [|done]. cbn. rewrite lookup_insert_ne; [done|]. intros E. rewrite <- E in H1. congruence.
  - intros n r c h' Hn. destruct (Hw n r c h' Hn) as (b & H1 & H2 & H3 & (fs & ex & H4) & H5). exists b. split; [|by eauto 10].
    cbn. rewrite lookup_insert_ne; [done|]. intros E. rewrite <- E in H1. congruence.
Qed.

Lemma subscribe_sys_ok s cs n r a h env sb :
  cs !! n = Some (Checked r a) -> adapters s !! h = None -> sys_ok (mkSys s cs) ->
  sys_ok (mkSys (create_subscribe r a h env sb s) (<[n := Waiting r a h]> cs)).
Proof.
  intros Hn Hh [Hl Hw Hp]. split; cbn [app creates] in *.
  - intros id i Hi. destruct (Hl id i Hi) as (b & H1 & H2). exists b. split; [|done]. cbn.
    rewrite lookup_insert_ne; [done|]. intros E. rewrite <- E in H1. congruence.
  - intros m r' a' h' [[<- E]|[Hne E]]%lookup_insert_Some.
    + injection E as <- <- <-. eexists. cbn. rewrite lookup_insert_eq. split; [done|]. cbn. by eauto 10.
    + destruct (Hw m r' a' h' E) as (b & H1 & H2). exists b. split; [|done]. cbn. rewrite lookup_insert_ne; [done|]. intros Eh. rewrite <- Eh in H1. congruence.
  - assert (Hfresh : forall m r' a', cs !! m = Some (Waiting r' a' h) -> False).
    { intros m r' a' E. destruct (Hw m r' a' h E) as (b & H1 & _). congruence. }
    intros m k r1 a1 r2 a2 h' [[<- E]|[Hne E]]%lookup_insert_Some [[<- E']|[Hne' E']]%lookup_insert_Some; [done| | |by eapply Hp].
    + injection E as <- <- <-. by apply Hfresh in E'.
    + injection E' as <- <- <-. by apply Hfresh in E.
Qed.

Lemma returned_moves res r a h : Returned res <> Waiting r a h.
Proof. done. Qed.

Lemma finish_sys_ok s cs n r a h reply :
  cs !! n = Some (Waiting r a h) -> sys_ok (mkSys s cs) ->
  sys_ok (let (s', res) := create_finish_pane r a h reply s in mkSys s' (<[n := Returned res]> cs)).
Proof.
  intros Hn Hok. unfold create_finish_pane. destruct reply as [o|e].
  2: { apply create_sys_ok; [done|]. apply (kept_sys_ok s); [by apply kept_refl|done|exact Hok]. }
  destruct (create_outcome o) as [[state hydration] seq]. set (st := runtime_new _ _ _ _ _ _). cbv zeta.
  destruct (so_waiting _ Hok n r a h Hn) as (ad & Had & Hid & Hse & (fs & ex & Hg) & Hr). cbn [app] in Had. rewrite Had.
  assert (Hr0 : reader_exited (ad_pane (reset_state st ad)) = false).
  { cbn [reset_state ad_pane reader_exited]. unfold st, runtime_new. by repeat (case_match; try done). }
  pose proof (open_gate_keeps (ad_pane (reset_state st ad)) seq fs ex Hg Hr0) as Ho.
  destruct (open_gate _ _) as [p exited]. destruct Ho as (-> & Hgp & Hrp & Hreg).
  set (ad' := mkAdapter (ad_pty_id (reset_state st ad)) (ad_session_id (reset_state st ad)) p (ad_info (reset_state st ad))).
  set (s1 := set_adapters (<[h := ad']>) s).
  assert (Hother : forall id i, registry s !! id = Some i -> in_tracked i <> h).
  { intros id i Hi. destruct (so_listed _ Hok id i Hi) as (b & H1 & _ & _ & H4 & _). cbn [app] in H1. intros E. rewrite E in H1. congruence. }
  assert (Hwother : forall m r' a' h', <[n := Returned (Ok (mkCreateResult state hydration))]> cs !! m = Some (Waiting r' a' h') ->
    h' <> h /\ cs !! m = Some (Waiting r' a' h')).
  { intros m r' a' h' [[_ E]|[Hne E]]%lookup_insert_Some; [done|]. split; [|done]. intros ->. apply Hne. by eapply (so_apart _ Hok). }
  assert (H1 : ex = true -> listed_ok (teardown_adapter h s1)).
  { intros _ id i Hi. unfold teardown_adapter in Hi |- *. unfold s1 in *. cbn [adapters set_adapters] in *. rewrite lookup_insert_eq in Hi |- *. cbn in Hi |- *.
    apply lookup_delete_Some in Hi as [Hne Hi]. destruct (so_listed _ Hok id i Hi) as (b & Hb & Hb2). exists b. split; [|done].
    cbn. pose proof (Hother id i Hi). by rewrite !lookup_insert_ne. }
  assert (H2 : ex = false -> listed_ok (set_registry (<[a_pty_id a := mkInstance (a_session a) (a_worktree a) h]>) s1)).
  { intros -> id i Hi. unfold s1 in *. cbn in Hi. apply lookup_insert_Some in Hi as [[<- <-]|[Hne Hi]].
    - exists ad'. cbn. rewrite lookup_insert_eq. split; [done|]. by split_and!.
    - destruct (so_listed _ Hok id i Hi) as (b & Hb & Hb2). exists b. split; [|done]. cbn. pose proof (Hother id i Hi). by rewrite lookup_insert_ne. }
  destruct ex; split; cbn [app creates].
  1: by apply H1.
  3: by apply H2.
  1,3: intros m r' a' h' Hm; destruct (Hwother m r' a' h' Hm) as [Hne E]; destruct (so_waiting _ Hok m r' a' h' E) as (b & Hb & Hb2);
    exists b; (split; [|done]).
  1: unfold teardown_adapter, s1; cbn [adapters set_adapters]; rewrite lookup_insert_eq; cbn; by rewrite !lookup_insert_ne.
  1: unfold s1; cbn; by rewrite lookup_insert_ne.
  all: intros m k r1 a1 r2 a2 h' E1 E2; eapply (so_apart _ Hok); [by apply (Hwother _ _ _ _ E1)|by apply (Hwother _ _ _ _ E2)].
Qed.

Lemma on_data_role seq d a : same_role a (on_pane (fun p => on_data p seq d) a).
Proof.
  unfold same_role. cbn [on_pane ad_pty_id ad_session_id ad_pane]. unfold on_data. destruct (gate (ad_pane a)) as [fs ex|] eqn:E.
  - by cbn.
  - destruct (ingest_keeps (ad_pane a) d) as (H1 & H2 & H3). rewrite H1, H2, H3, E. done.
Qed.
Lemma on_info_role f a : same_role a (on_info f a).
Proof. unfold same_role. cbn. by destruct (gate (ad_pane a)). Qed.
Lemma clear_role a : same_role a (on_pane clear_mirror a).
Proof. unfold same_role. cbn. by destruct (gate (ad_pane a)). Qed.

Lemma poll_kept rows panes s out :
  let x := foldl (poll_pane rows) (s, out) panes in adapters_kept s x.1 /\ registry x.1 = registry s.
Proof.
  revert s out. induction panes as [|e panes IH]; intros s out; cbn [foldl]; [split; [by apply kept_refl|done]|].
  assert (H1 : adapters_kept s (poll_pane rows (s, out) e).1 /\ registry (poll_pane rows (s, out) e).1 = registry s).
  { unfold poll_pane. destruct (default _ _) as [b st]. destruct (adapters s !! in_tracked e.2) as [a|] eqn:E; [|split; [by apply kept_refl|done]].
    destruct (bell_delta _ _ _ _) as [ev last]. split; [|done]. apply kept_insert with a; [done|apply on_info_role]. }
  destruct (poll_pane rows (s, out) e) as [s' out']. destruct (IH s' out') as [H2 H3]. destruct H1 as [H0 H1]. cbn [fst] in *.
  split; [by eapply kept_trans|congruence].
Qed.

Lemma delete_all_subset (r : gmap bytes PtyInstance) ids : foldr delete r ids ⊆ r.
Proof. induction ids as [|i ids IH]; cbn [foldr]; [done|]. etrans; [apply delete_subseteq|done]. Qed.

Lemma worktree_fold_kept sessions s :
  let s' := foldl (fun s sid => unsubscribe_session sid (ask_client (CallKill sid) s)) s sessions in
  adapters s' = adapters s /\ registry s' = registry s /\ calls s' = calls s ++ (CallKill <$> sessions).
Proof.
  revert s. induction sessions as [|sid l IH]; intros s; cbn [foldl fmap list_fmap]; [by rewrite app_nil_r|].
  destruct (IH (unsubscribe_session sid (ask_client (CallKill sid) s))) as (-> & -> & ->). cbn. by rewrite <- app_assoc.
Qed.

Lemma snapshot_kept cwd input s : adapters_kept s (build_pane_snapshot cwd input s).2 /\ registry (build_pane_snapshot cwd input s).2 = registry s.
Proof.
  assert (H : forall p r, adapters_kept s (cache_last_known_cwd p r s) /\ registry (cache_last_known_cwd p r s) = registry s).
  { intros p r. unfold cache_last_known_cwd. destruct (registry s !! p) as [i|]; (split; [|done]); [|by apply kept_refl].
    apply kept_alter. intros. apply on_info_role. }
  assert (H0 : adapters_kept s s /\ registry s = registry s) by (split; [by apply kept_refl|done]).
  unfold build_pane_snapshot. destruct (si_pty_id input) as [pid|]; repeat case_match; cbn [snd]; auto.
Qed.

Section reach.
Context (sha256 : bytes -> bytes) (path_exists is_dir : bytes -> bool).

Lemma step_sys_ok x x' : pane_step sha256 path_exists is_dir x x' -> sys_ok x -> sys_ok x'.
Proof.
  intros Hs Hok. destruct Hs as [x n r Hn|x n r a e Hn|x n r a h env sb Hn Hh|x n r a h reply Hn|x sid seq data|x sid|x id data reply|
    x id c r reply|x i reply|x sid|x id sid reply|x c w|x panes reply|x cwd input]; destruct x as [s cs]; cbn [app creates] in *.
  - apply create_sys_ok; [|done]. unfold create_call. by destruct (create_check _ _ _ _ _).
  - by apply create_sys_ok.
  - by apply subscribe_sys_ok.
  - by apply finish_sys_ok.
  - apply (kept_sys_ok s); [|by unfold stream_data; case_match|done]. unfold stream_data. case_match; [|by apply kept_refl].
    apply kept_alter. intros. apply on_data_role.
  - unfold stream_exit. destruct (subs s !! sid) as [h|]; [|done]. destruct (adapters s !! h) as [a|] eqn:Ha; [|done].
    destruct (gate (ad_pane a)) as [fs ex|] eqn:Eg; [|by eapply teardown_sys_ok].
    apply (kept_sys_ok s); [|done|done]. apply kept_insert with a; [done|]. unfold same_role. cbn. unfold on_exit. rewrite Eg. by cbn.
  - apply (kept_sys_ok s); [|by unfold write_pty; case_match|done]. unfold write_pty. case_match; by apply kept_refl.
  - apply (kept_sys_ok s); [|by unfold resize_pty; case_match|done]. unfold resize_pty. case_match; [|by apply kept_refl].
    apply (kept_trans _ (set_adapters (alter (on_info (set_size c r)) (in_tracked p)) s)); [|by apply kept_refl].
    apply kept_alter. intros. apply on_info_role.
  - apply (kept_sys_ok s); [|by unfold clear_end; case_match|done]. unfold clear_end. case_match; [|by apply kept_refl].
    apply kept_alter. intros. apply clear_role.
  - apply (kept_sys_ok s); [by apply kept_refl|done|done].
  - apply (kept_sys_ok s); [|unfold close_end; case_match; [apply delete_subseteq|done]|done]. unfold close_end. case_match; by apply kept_refl.
  - unfold close_ptys_for_worktree_blocking. set (s1 := set_registry _ s).
    assert (H1 : sys_ok (mkSys s1 cs)) by (apply (kept_sys_ok s); [by apply kept_refl|apply delete_all_subset|done]).
    destruct c; [|done]. destruct (worktree_fold_kept (omap (fun id => session_id_for id s) (ids_for_worktree w s)) s1) as (Ha & Hr & _).
    apply (kept_sys_ok s1); [by apply kept_refl|by rewrite Hr|done].
  - unfold poll_end. destruct (map_error reply) as [events|e]; [|done]. pose proof (poll_kept (rows_of events) panes s []) as Hp. cbv zeta in Hp.
    destruct (foldl _ _ _) as [s' out]. cbn [fst] in *. destruct Hp as [H1 H2]. apply (kept_sys_ok s); [done|by rewrite H2|done].
  - destruct (snapshot_kept cwd input s) as [H1 H2]. apply (kept_sys_ok s); [done|by rewrite H2|done].
Qed.

End reach.

(** * What is saved of a pane and given back *)

Lemma append_capped_bound sb t chunk limit :
  0 <= limit -> zlen sb <= limit -> zlen (append_scrollback_capped sb t chunk limit).1 <= limit.
Proof.
  intros Hl Hs. unfold append_scrollback_capped. destruct (_ || _); [done|]. case_match eqn:E; cbn [fst]; [|lia].
  unfold zlen in *. rewrite length_drop. lia.
Qed.
Lemma append_capped_fits t chunk limit :
  zlen chunk <= limit -> append_scrollback_capped [] t chunk limit = (chunk, t).
Proof.
  intros Hl. unfold append_scrollback_capped. rewrite app_nil_l. destruct (Z.ltb_spec limit (zlen chunk)); [lia|].
  destruct chunk as [|b l]; [by destruct (limit =? 0)|]. by destruct (_ || _) eqn:E; [|done]; exfalso;
  revert E; pose proof (zlen_nonneg l); rewrite zlen_cons in Hl; rewrite (bool_decide_false) by done; rewrite orb_false_r; lia.
Qed.

Definition capped (p : pane) : Prop := zlen (scrollback p) <= MAX_SCROLLBACK_BYTES.
Definition trimmed_cwd (c : option bytes) : Prop := nonblank c = c.
(** What holds of every pane: its mirror is capped, the directory kept for it is
    trimmed and not empty. *)
Definition mirror_ok (a : Adapter) : Prop := capped (ad_pane a) /\ trimmed_cwd (last_known_cwd (ad_info a)).
Definition mirrors_ok (s : App) : Prop := forall h a, adapters s !! h = Some a -> mirror_ok a.

Lemma nonblank_trimmed c : trimmed_cwd (nonblank c).
Proof.
  unfold trimmed_cwd, nonblank. destruct c as [s|]; cbn; [|done]. destruct (trim s) as [|b l] eqn:E; [done|].
  assert (H : trim (b :: l) = b :: l) by (rewrite <- E; apply trim_idemp). cbn [fmap option_fmap option_map]. by rewrite H.
Qed.

Lemma ingest_capped p d : capped p -> capped (ingest p d).
Proof.
  intros Hp. unfold ingest, capped. pose proof (append_capped_bound (scrollback p) (scrollback_truncated p) d MAX_SCROLLBACK_BYTES) as H.
  destruct (append_scrollback_capped _ _ _ _) as [sb t]. cbn [scrollback fst] in *. apply H; [done|exact Hp].
Qed.
Lemma on_data_capped p seq d : capped p -> capped (on_data p seq d).
Proof. intros Hp. unfold on_data. destruct (gate p); [done|by apply ingest_capped]. Qed.
Lemma replay_capped snap fs p : capped p -> capped (fold_left (replay_frame snap) fs p).
Proof.
  revert p. induction fs as [|[seq d] fs IH]; intros p Hp; cbn [fold_left]; [done|]. apply IH. unfold replay_frame.
  repeat case_match; try done; by apply ingest_capped.
Qed.
Lemma open_gate_capped p snap : capped p -> capped (open_gate p snap).1.
Proof.
  intros Hp. unfold open_gate. destruct (match gate p with GateClosed fs ex => (fs, ex) | GateOpen => ([], false) end) as [fs ex].
  assert (H : capped (fold_left (replay_frame snap) fs (if ex then set_gate p GateOpen else register (set_gate p GateOpen))))
    by (apply replay_capped; by destruct ex). by destruct ex.
Qed.
Lemma on_exit_capped p : capped p -> capped (on_exit p).
Proof. intros Hp. unfold on_exit. by destruct (gate p). Qed.

Lemma runtime_new_ok cwd sid cols rows restore seed :
  let st := runtime_new cwd sid cols rows restore seed in
  zlen (rs_scrollback st) <= MAX_SCROLLBACK_BYTES /\ trimmed_cwd (last_known_cwd (rs_info st)).
Proof.
  unfold runtime_new. cbv zeta.
  assert (H : forall sb t d, zlen sb <= MAX_SCROLLBACK_BYTES -> zlen (append_scrollback_capped sb t d MAX_SCROLLBACK_BYTES).1 <= MAX_SCROLLBACK_BYTES)
    by (intros; by apply append_capped_bound).
  assert (H0 : zlen (@nil Z) <= MAX_SCROLLBACK_BYTES) by done.
  assert (Hseed : forall sb t, zlen sb <= MAX_SCROLLBACK_BYTES ->
    zlen (match seed with Some (b, t) => append_scrollback_capped sb t b MAX_SCROLLBACK_BYTES | None => (sb, t) end).1 <= MAX_SCROLLBACK_BYTES)
    by (intros; destruct seed as [[b u]|]; auto).
  destruct restore as [r|].
  - pose proof (nonblank_trimmed (re_last_known_cwd r)) as Hk. destruct (re_scrollback r) as [d|].
    + pose proof (H [] (default false (re_scrollback_truncated r)) d H0) as H1. destruct (append_scrollback_capped [] _ _ _) as [sb1 t1].
      pose proof (Hseed sb1 t1 H1) as H2. by destruct (match seed with Some _ => _ | None => _ end) as [sb2 t2].
    + pose proof (Hseed [] (default false (re_scrollback_truncated r)) H0) as H2. by destruct (match seed with Some _ => _ | None => _ end) as [sb2 t2].
  - pose proof (Hseed [] false H0) as H2. by destruct (match seed with Some _ => _ | None => _ end) as [sb2 t2].
Qed.

Lemma mirrors_same s s' : adapters s' = adapters s -> mirrors_ok s -> mirrors_ok s'.
Proof. unfold mirrors_ok. by intros ->. Qed.
Lemma mirrors_insert s h a : mirror_ok a -> mirrors_ok s -> mirrors_ok (set_adapters (<[h := a]>) s).
Proof. intros Ha Hs h' b Hb. cbn [adapters set_adapters] in Hb. apply lookup_insert_Some in Hb as [[_ <-]|[_ Hb]]; [done|by eapply Hs]. Qed.
Lemma mirrors_alter s h f :
  (forall a, mirror_ok a -> mirror_ok (f a)) -> mirrors_ok s -> mirrors_ok (set_adapters (alter f h) s).
Proof.
  intros Hf Hs h' b Hb. cbn [adapters set_adapters] in Hb. apply lookup_alter_Some in Hb as [(_ & a & Ha & ->)|[_ Hb]]; [apply Hf; by eapply Hs|by eapply Hs].
Qed.

Lemma teardown_mirrors h s : mirrors_ok s -> mirrors_ok (teardown_adapter h s).
Proof.
  intros Hs. unfold teardown_adapter. destruct (adapters s !! h) as [a|] eqn:E; [|done].
  apply (mirrors_same (set_adapters (<[h := on_pane teardown a]>) s)); [done|]. apply mirrors_insert; [|done]. exact (Hs h a E).
Qed.

Lemma finish_mirrors r a h reply s : mirrors_ok s -> mirrors_ok (create_finish_pane r a h reply s).1.
Proof.
  intros Hs. unfold create_finish_pane. destruct reply as [o|e]; [|done]. destruct (create_outcome o) as [[state hy] seq]. cbv zeta.
  destruct (adapters s !! h) as [ad|]; [|done]. set (st := runtime_new _ _ _ _ _ _).
  destruct (runtime_new_ok (a_cwd a) (a_session a) (rq_cols r) (rq_rows r) (runtime_restore_seed state (rq_restore r))
    ((fun h => (hy_text h, hy_truncated h)) <$> hy)) as [H1 H2]. fold st in H1, H2.
  pose proof (open_gate_capped (ad_pane (reset_state st ad)) seq H1) as Hc. destruct (open_gate _ _) as [p ex]. cbn [fst] in *.
  assert (Hm : mirrors_ok (set_adapters (<[h := mkAdapter (ad_pty_id (reset_state st ad)) (ad_session_id (reset_state st ad)) p (ad_info (reset_state st ad))]>) s))
    by (apply mirrors_insert; done).
  destruct ex; [by apply teardown_mirrors|exact Hm].
Qed.

Lemma poll_mirrors rows panes s out : mirrors_ok s -> mirrors_ok (foldl (poll_pane rows) (s, out) panes).1.
Proof.
  revert s out. induction panes as [|e panes IH]; intros s out Hs; cbn [foldl]; [done|].
  assert (H1 : mirrors_ok (poll_pane rows (s, out) e).1).
  { unfold poll_pane. destruct (default _ _) as [b st]. destruct (adapters s !! in_tracked e.2) as [a|] eqn:E; [|done].
    destruct (bell_delta _ _ _ _) as [ev last]. apply mirrors_insert; [exact (Hs _ _ E)|done]. }
  destruct (poll_pane rows (s, out) e) as [s' out']. by apply IH.
Qed.

Lemma snapshot_mirrors cwd input s : mirrors_ok s -> mirrors_ok (build_pane_snapshot cwd input s).2.
Proof.
  intros Hs. assert (H : forall p c, trimmed_cwd (Some c) -> mirrors_ok (cache_last_known_cwd p c s)).
  { intros p c Hc. unfold cache_last_known_cwd. destruct (registry s !! p) as [i|]; [|done]. apply mirrors_alter; [|done]. by intros a [H1 _]. }
  unfold build_pane_snapshot. destruct (si_pty_id input) as [pid|]; [|by repeat case_match].
  destruct (if bool_decide (trim pid = []) then None else runtime_snapshot_for_pty pid s) as [[[i sb] t]|] eqn:E; [|by repeat case_match].
  destruct (bool_decide (trim pid = [])); [done|]. unfold runtime_snapshot_for_pty in E. destruct (registry s !! pid) as [inst|]; [|done].
  cbn in E. destruct (adapters s !! in_tracked inst) as [a|] eqn:Ea; [|done]. injection E as <- <- <-. destruct (Hs _ _ Ea) as [_ Ht].
  assert (Hk : trimmed_cwd (match daemon_session_cwd cwd (info_session (ad_info a)) with Some c => Some c | None => last_known_cwd (ad_info a) end)).
  { destruct (daemon_session_cwd cwd _) eqn:Ed; [|done]. rewrite <- Ed. apply nonblank_trimmed. }
  destruct (match daemon_session_cwd cwd _ with Some c => Some c | None => _ end) as [c|]; cbn [snd]; [by apply H|done].
Qed.

Section kept_mirrors.
Context (sha256 : bytes -> bytes) (path_exists is_dir : bytes -> bool).

Lemma step_mirrors x x' : pane_step sha256 path_exists is_dir x x' -> mirrors_ok (app x) -> mirrors_ok (app x').
Proof.
  intros Hs Hok. destruct Hs as [x n r Hn|x n r a e Hn|x n r a h env sb Hn Hh|x n r a h reply Hn|x sid seq data|x sid|x id data reply|
    x id c r reply|x i reply|x sid|x id sid reply|x c w|x panes reply|x cwd input]; cbn [app]; try done.
  - apply (mirrors_same (set_adapters (<[h := mkAdapter (a_pty_id a) (a_session a) (pane_new [] false) (mkInfo (a_cwd a) (a_session a) None (rq_cols r) (rq_rows r) None)]>) (app x)));
      [done|]. by apply mirrors_insert.
  - pose proof (finish_mirrors r a h reply (app x) Hok) as H. by destruct (create_finish_pane _ _ _ _ _).
  - unfold stream_data. case_match; [|done]. apply mirrors_alter; [|done]. intros ad [H1 H2]. split; [by apply on_data_capped|done].
  - unfold stream_exit. destruct (subs (app x) !! sid) as [h|]; [|done]. destruct (adapters (app x) !! h) as [ad|] eqn:E; [|done].
    destruct (gate (ad_pane ad)); [|by apply teardown_mirrors]. destruct (Hok _ _ E). apply mirrors_insert; [|done]. split; [by apply on_exit_capped|done].
  - unfold write_pty. by case_match.
  - unfold resize_pty. destruct (registry (app x) !! id) as [inst|]; [|done].
    apply (mirrors_same (set_adapters (alter (on_info (set_size c r)) (in_tracked inst)) (app x))); [done|]. by apply mirrors_alter.
  - unfold clear_end. case_match; [|done]. apply mirrors_alter; [|done]. intros ad [_ H2]. by split.
  - unfold close_end. by case_match.
  - unfold close_ptys_for_worktree_blocking. destruct c; [|done]. eapply mirrors_same; [apply worktree_fold_kept|done].
  - unfold poll_end. destruct (map_error reply) as [events|e]; [|done]. pose proof (poll_mirrors (rows_of events) panes (app x) [] Hok) as H.
    by destruct (foldl _ _ _).
  - by apply snapshot_mirrors.
Qed.

Lemma reachable_ok x : rtc (pane_step sha256 path_exists is_dir) sys_new x -> sys_ok x /\ mirrors_ok (app x).
Proof.
  intros Hr. apply (rtc_invariant (pane_step sha256 path_exists is_dir) (fun x => sys_ok x /\ mirrors_ok (app x)) sys_new x); [|split|done].
  - intros y y' [H1 H2] Hs. split; [by eapply step_sys_ok|by eapply step_mirrors].
  - split; cbn; [intros id i Hi|intros n r a h Hn|intros n m r a r' a' h Hn]; inversion Hi || inversion Hn.
  - intros h a Ha. inversion Ha.
Qed.

(** What is saved of a listed pane brings it back. The snapshot of a pane
    whose mirror is UTF-8 text, given to [create] for a session the daemon no
    longer has, gives a pane with the same scrollback, the same mark of what is
    missing, and the directory the snapshot names, which is the daemon's answer
    where there is one. *)
Theorem saved_pane_is_restored x id i input daemon_cwd :
  rtc (pane_step sha256 path_exists is_dir) sys_new x ->
  registry (app x) !! id = Some i -> si_pty_id input = Some id -> trim id <> [] ->
  exists a t s',
    adapters (app x) !! in_tracked i = Some a /\
    build_pane_snapshot daemon_cwd input (app x) = (Ok t, s') /\
    ps_restore_cwd t = default (launch_cwd (ad_info a)) (ps_last_known_cwd t) /\
    (forall c, daemon_session_cwd daemon_cwd (info_session (ad_info a)) = Some c -> ps_last_known_cwd t = Some c) /\
    (utf8_valid (scrollback (ad_pane a)) = true -> forall sid cols rows,
      let back := runtime_new (ps_restore_cwd t) sid cols rows
        (runtime_restore_seed Created (Some (mkRestore (ps_last_known_cwd t) (Some (ps_scrollback t)) (Some (ps_scrollback_truncated t))))) None in
      rs_scrollback back = scrollback (ad_pane a) /\ rs_truncated back = scrollback_truncated (ad_pane a) /\
      last_known_cwd (rs_info back) = ps_last_known_cwd t).
Proof.
  intros Hr Hi Hin Hid. destruct (reachable_ok x Hr) as [Hok Hm]. destruct (so_listed _ Hok id i Hi) as (a & Ha & _).
  destruct (Hm _ _ Ha) as [Hcap Hcwd]. unfold build_pane_snapshot. rewrite Hin, bool_decide_false by done.
  assert (Hrt : runtime_snapshot_for_pty id (app x) = Some (ad_info a, scrollback (ad_pane a), scrollback_truncated (ad_pane a)))
    by (unfold runtime_snapshot_for_pty; rewrite Hi; cbn [mbind option_bind]; by rewrite Ha).
  rewrite Hrt. cbv beta iota zeta.
  set (known := match daemon_session_cwd daemon_cwd (info_session (ad_info a)) with Some c => Some c | None => last_known_cwd (ad_info a) end).
  assert (Hk : nonblank known = known).
  { unfold known. destruct (daemon_session_cwd _ _) eqn:Ed; [|done]. rewrite <- Ed. apply nonblank_trimmed. }
  assert (Hd : forall c, daemon_session_cwd daemon_cwd (info_session (ad_info a)) = Some c -> known = Some c) by (unfold known; by intros c ->).
  exists a. destruct known as [c|]; eexists _, _; (split; [done|]); (split; [reflexivity|]); cbn [ps_restore_cwd ps_last_known_cwd ps_scrollback ps_scrollback_truncated];
    (split; [done|]); (split; [exact Hd|]); intros Hv sid cols rows; unfold runtime_restore_seed, runtime_new;
    cbn [re_last_known_cwd re_scrollback re_scrollback_truncated]; rewrite from_utf8_lossy_valid, append_capped_fits by done;
    cbn [rs_scrollback rs_truncated rs_info last_known_cwd]; by rewrite Hk.
Qed.
End kept_mirrors.

(** * The poll keeps the renderer's view *)

(** What the renderer shows of each pane after the events it was given. *)
Definition view_after (view : gmap bytes (option bytes)) (events : list PtyBellEvent) : gmap bytes (option bytes) :=
  foldl (fun v e => <[be_pty_id e := be_ai_status e]> v) view events.

(** The event a pane gives, of the state before the poll. *)
Definition pane_event (rows : gmap bytes (bool * option bytes)) (s : App) (e : bytes * PtyInstance) : option PtyBellEvent :=
  a ← adapters s !! in_tracked e.2;
  let '(bell, st) := default (false, None) (rows !! in_session e.2) in (bell_delta e.1 bell st (last_ai_status (ad_info a))).1.
Definition polled_status (rows : gmap bytes (bool * option bytes)) (i : PtyInstance) : option bytes :=
  (default (false, None) (rows !! in_session i)).2.

Lemma bell_delta_last id bell st last : (bell_delta id bell st last).2 = st.
Proof. unfold bell_delta. destruct (bool_decide_reflect (st = last)); cbn; congruence. Qed.

(** With distinct handles the panes do not see each other's updates. *)
Lemma poll_fold rows panes s out :
  NoDup (in_tracked <$> panes.*2) ->
  let '(s', out') := foldl (poll_pane rows) (s, out) panes in
  out' = out ++ omap (pane_event rows s) panes /\
  (forall h, h ∉ (in_tracked <$> panes.*2) -> adapters s' !! h = adapters s !! h) /\
  (forall e, e ∈ panes -> adapters s' !! in_tracked e.2 = on_info (set_status (polled_status rows e.2)) <$> adapters s !! in_tracked e.2).
Proof.
  revert s out. induction panes as [|e panes IH]; intros s out; cbn [foldl fmap list_fmap omap list_omap].
  { intros _. rewrite app_nil_r. split_and!; [done..|]. intros e He. by apply not_elem_of_nil in He. }
  intros [Hne Hnd]%NoDup_cons.
  assert (Hstep : exists s1, poll_pane rows (s, out) e = (s1, out ++ option_list (pane_event rows s e)) /\
    adapters s1 !! in_tracked e.2 = on_info (set_status (polled_status rows e.2)) <$> adapters s !! in_tracked e.2 /\
    (forall h, h <> in_tracked e.2 -> adapters s1 !! h = adapters s !! h)).
  { unfold poll_pane, pane_event, polled_status. destruct (adapters s !! in_tracked e.2) as [a|] eqn:Ea; cbn [mbind option_bind].
    - destruct (default _ _) as [bell st] eqn:Ed. pose proof (bell_delta_last e.1 bell st (last_ai_status (ad_info a))) as Hl.
      destruct (bell_delta _ _ _ _) as [ev last]. cbn [snd fst] in *. subst last. eexists. split; [destruct ev; [done|]; cbn; by rewrite app_nil_r|].
      split; [cbn; by rewrite lookup_insert_eq|]. intros h Hh. cbn. by rewrite lookup_insert_ne.
    - destruct (default _ _) as [bell st]. exists s. cbn. rewrite app_nil_r. by rewrite Ea. }
  destruct Hstep as (s1 & -> & He & Ho). specialize (IH s1 (out ++ option_list (pane_event rows s e)) Hnd).
  destruct (foldl _ _ panes) as [s' out']. destruct IH as (-> & IH2 & IH3).
  assert (Hsame : forall e', e' ∈ panes -> adapters s1 !! in_tracked e'.2 = adapters s !! in_tracked e'.2).
  { intros e' He'. apply Ho. intros E. apply Hne. rewrite <- E. by do 2 apply list_elem_of_fmap_2. }
  split; [|split].
  - rewrite <- app_assoc. f_equal. assert (Hom : omap (pane_event rows s1) panes = omap (pane_event rows s) panes).
    { clear -Hsame. induction panes as [|e' panes IH]; [done|]. cbn [omap list_omap].
      assert (E : pane_event rows s1 e' = pane_event rows s e') by (unfold pane_event; rewrite Hsame; [done|by apply list_elem_of_here]).
      rewrite E, IH; [done|]. intros e1 He1. apply Hsame. by apply list_elem_of_further. }
    rewrite Hom. by destruct (pane_event rows s e).
  - intros h [Hh1 Hh2]%not_elem_of_cons. rewrite IH2 by done. by apply Ho.
  - intros e' [->|He']%elem_of_cons; [by rewrite IH2|]. by rewrite IH3, Hsame.
Qed.

Lemma view_other view events id : id ∉ (be_pty_id <$> events) -> view_after view events !! id = view !! id.
Proof.
  revert view. induction events as [|e events IH]; intros view; cbn [fmap list_fmap]; [done|]. intros [Hne Hn]%not_elem_of_cons.
  unfold view_after. cbn [foldl]. fold (view_after (<[be_pty_id e := be_ai_status e]> view) events). rewrite IH by done. by apply lookup_insert_ne.
Qed.
Lemma view_one view events e :
  e ∈ events -> NoDup (be_pty_id <$> events) -> view_after view events !! be_pty_id e = Some (be_ai_status e).
Proof.
  revert view. induction events as [|e' events IH]; intros view; [by intros ?%not_elem_of_nil|]. cbn [fmap list_fmap].
  intros He [Hne Hnd]%NoDup_cons. unfold view_after. cbn [foldl]. fold (view_after (<[be_pty_id e' := be_ai_status e']> view) events).
  apply elem_of_cons in He as [->|He]; [|by apply IH]. rewrite view_other by done. apply lookup_insert_eq.
Qed.

Lemma pane_event_id rows s e ev : pane_event rows s e = Some ev -> be_pty_id ev = e.1.
Proof.
  unfold pane_event. destruct (adapters s !! _) as [a|]; cbn [mbind option_bind]; [|done]. destruct (default _ _) as [bell st]. unfold bell_delta.
  destruct (_ || _); cbn [fst]; [|done]. by intros [= <-].
Qed.
Lemma events_distinct rows s panes : NoDup panes.*1 -> NoDup (be_pty_id <$> omap (pane_event rows s) panes) /\
  (forall id, id ∈ (be_pty_id <$> omap (pane_event rows s) panes) -> id ∈ panes.*1).
Proof.
  induction panes as [|e panes IH]; cbn [fmap list_fmap omap list_omap]; [intros _; split; [constructor|done]|].
  intros [Hne Hnd]%NoDup_cons. destruct (IH Hnd) as [H1 H2]. destruct (pane_event rows s e) as [ev|] eqn:E; cbn [fmap list_fmap].
  - apply pane_event_id in E. rewrite E. split; [constructor; auto|]. intros id [->|Hid]%elem_of_cons; [by apply list_elem_of_here|].
    apply list_elem_of_further. by apply H2.
  - split; [done|]. intros id Hid. apply list_elem_of_further. by apply H2.
Qed.

Lemma handles_distinct s : listed_ok s -> NoDup (in_tracked <$> (map_to_list (registry s)).*2).
Proof.
  intros Hl. rewrite <- list_fmap_compose. apply NoDup_fmap_2_strong; [|apply NoDup_map_to_list].
  intros [id i] [jd j] Hi%elem_of_map_to_list Hj%elem_of_map_to_list E. cbn in E.
  destruct (Hl id i Hi) as (a & Ha & Hid & _). destruct (Hl jd j Hj) as (b & Hb & Hjd & _). congruence.
Qed.

(** The view and the registry agree. *)
Definition view_current (view : gmap bytes (option bytes)) (s : App) : Prop := forall id i a,
  registry s !! id = Some i -> adapters s !! in_tracked i = Some a -> mjoin (view !! id) = last_ai_status (ad_info a).

(** The changes a poll makes, for the pane listed under an id. *)
Lemma poll_pane_spec s events view :
  listed_ok s -> view_current view s ->
  let rows := rows_of events in let out := omap (pane_event rows s) (map_to_list (registry s)) in
  let s' := (poll_end (map_to_list (registry s)) (Ok events) s).1 in
  poll_end (map_to_list (registry s)) (Ok events) s = (s', Ok out) /\ registry s' = registry s /\
  forall id i, registry s !! id = Some i -> exists a, adapters s !! in_tracked i = Some a /\
    adapters s' !! in_tracked i = Some (on_info (set_status (polled_status rows i)) a) /\
    mjoin (view_after view out !! id) = polled_status rows i.
Proof.
  intros Hl Hv rows out s'. unfold s', poll_end. cbn [map_error]. fold rows.
  pose proof (poll_fold rows (map_to_list (registry s)) s [] (handles_distinct s Hl)) as Hf.
  pose proof (poll_kept rows (map_to_list (registry s)) s []) as [_ Hreg].
  destruct (foldl (poll_pane rows) (s, []) _) as [s1 out1]. destruct Hf as (-> & _ & Hf). split; [done|]. split; [exact Hreg|].
  intros id i Hi. destruct (Hl id i Hi) as (a & Ha & _). pose proof (Hf (id, i)) as Hfi. cbn [snd fst] in *.
  exists a. split; [done|]. split; [rewrite Hfi, Ha; [done|by apply elem_of_map_to_list]|].
  destruct (events_distinct rows s (map_to_list (registry s)) (NoDup_fst_map_to_list _)) as [Hnd _]. fold out in Hnd.
  destruct (pane_event rows s (id, i)) as [ev|] eqn:E.
  - pose proof (pane_event_id _ _ _ _ E) as Hid. cbn [fst] in Hid.
    assert (Hev : ev ∈ out) by (apply list_elem_of_omap; exists (id, i); split; [by apply elem_of_map_to_list|done]).
    pose proof (view_one view out ev Hev Hnd) as Hone. rewrite Hid in Hone. rewrite Hone. cbn.
    unfold pane_event in E. cbn [snd fst] in E. rewrite Ha in E. cbn [mbind option_bind] in E. unfold polled_status.
    destruct (default (false, None) (rows !! in_session i)) as [bell st]. unfold bell_delta in E. destruct (_ || _); [|done]. by injection E as <-.
  - rewrite view_other.
    + rewrite (Hv id i a Hi Ha). unfold pane_event in E. cbn [snd fst] in E. rewrite Ha in E. cbn [mbind option_bind] in E. unfold polled_status.
      destruct (default (false, None) (rows !! in_session i)) as [bell st]. unfold bell_delta in E.
      destruct (bool_decide_reflect (st = last_ai_status (ad_info a))); [done|]. cbn [negb] in E. by rewrite orb_true_r in E.
    + intros Hin. apply list_elem_of_fmap in Hin as (ev & Hid & Hev). apply list_elem_of_omap in Hev as ([jd j] & Hj & Eev).
      pose proof (pane_event_id _ _ _ _ Eev) as Hjd. apply elem_of_map_to_list in Hj. cbn [fst] in Hjd. subst jd. rewrite <- Hid in Hj.
      rewrite Hi in Hj. injection Hj as ->. rewrite <- Hid in Eev. congruence.
Qed.

(** The poll of bells tells the renderer just what it does not know. If the
    renderer's view, made of the events of earlier polls, agrees with the panes,
    it does after the poll, and the status of every listed pane is what the daemon
    answered for its session; no pane is named twice. *)
Theorem renderer_view_is_current sha256 path_exists is_dir x view events :
  rtc (pane_step sha256 path_exists is_dir) sys_new x -> view_current view (app x) ->
  exists s' out, poll_bell_events (Ok events) (app x) = (s', Ok out) /\ registry s' = registry (app x) /\
    view_current (view_after view out) s' /\ NoDup (be_pty_id <$> out) /\
    forall id i, registry s' !! id = Some i -> exists a, adapters s' !! in_tracked i = Some a /\
      last_ai_status (ad_info a) = polled_status (rows_of events) i.
Proof.
  intros Hr Hv. destruct (reachable_ok _ _ _ _ Hr) as [[Hl _ _] _]. unfold poll_bell_events.
  destruct (bool_decide_reflect (registry (app x) = ∅)) as [E|_].
  { exists (app x), []. split_and!; [done..|constructor|]. intros id i Hi. rewrite E in Hi. inversion Hi. }
  destruct (poll_pane_spec (app x) events view Hl Hv) as (Hp & Hreg & Hs). eexists _, _. split; [exact Hp|]. split; [exact Hreg|].
  split; [|split; [by apply events_distinct, NoDup_fst_map_to_list|]].
  - intros id i a Hi Ha. rewrite Hreg in Hi. destruct (Hs id i Hi) as (b & _ & Hb & E). rewrite E. rewrite Ha in Hb. by injection Hb as ->.
  - intros id i Hi. rewrite Hreg in Hi. destruct (Hs id i Hi) as (b & _ & Hb & _). eexists. by split.
Qed.

(** * A worktree's panes *)

Lemma worktree_fold_subs sessions s sid :
  subs s !! sid = None -> subs (foldl (fun s sid => unsubscribe_session sid (ask_client (CallKill sid) s)) s sessions) !! sid = None.
Proof.
  revert s. induction sessions as [|x l IH]; intros s Hs; cbn [foldl]; [done|]. apply IH. cbn. rewrite lookup_delete_None. by right.
Qed.
Lemma worktree_fold_unsubscribes sessions s sid :
  sid ∈ sessions -> subs (foldl (fun s sid => unsubscribe_session sid (ask_client (CallKill sid) s)) s sessions) !! sid = None.
Proof.
  revert s. induction sessions as [|x l IH]; intros s; [by intros ?%not_elem_of_nil|]. cbn [foldl].
  intros [->|Hin]%elem_of_cons; [|by apply IH]. apply worktree_fold_subs. cbn. rewrite lookup_delete_None. by left.
Qed.

(** Closing a worktree's panes leaves none of them listed and the others as
    they were, and asks the daemon, where there is one, to kill the session of
    each of them. *)
Theorem worktree_panes_are_closed has_client w s :
  let s' := close_ptys_for_worktree_blocking has_client w s in
  (forall id, registry s' !! id = (i ← registry s !! id; if bool_decide (in_worktree i = w) then None else Some i)) /\
  (forall id i, registry s !! id = Some i -> in_worktree i = w -> has_client = true ->
    CallKill (in_session i) ∈ calls s' /\ subs s' !! in_session i = None) /\
  (has_client = false -> calls s' = calls s).
Proof.
  intros s'. set (ids := ids_for_worktree w s). set (sessions := omap (fun id => session_id_for id s) ids).
  assert (Hids : forall id, id ∈ ids <-> exists i, registry s !! id = Some i /\ in_worktree i = w).
  { intros id. unfold ids, ids_for_worktree. rewrite list_elem_of_fmap. split.
    - intros ([id' i] & -> & [Hw Hi%elem_of_map_to_list]%list_elem_of_filter). by exists i.
    - intros (i & Hi & Hw). exists (id, i). split; [done|]. apply list_elem_of_filter. split; [done|by apply elem_of_map_to_list]. }
  assert (Hreg : forall id, foldr delete (registry s) ids !! id = (i ← registry s !! id; if bool_decide (in_worktree i = w) then None else Some i)).
  { intros id. destruct (decide (id ∈ ids)) as [Hin|Hout].
    - rewrite lookup_foldr_delete by done. apply Hids in Hin as (i & -> & Hw). cbn. by rewrite bool_decide_true.
    - rewrite lookup_foldr_delete_not_elem_of by done. destruct (registry s !! id) as [i|] eqn:Hi; [|done]. cbn.
      rewrite bool_decide_false; [done|]. intros Hw. apply Hout, Hids. by exists i. }
  assert (Hs' : s' = (let s0 := set_registry (fun r => foldr delete r ids) s in
    if has_client then foldl (fun s sid => unsubscribe_session sid (ask_client (CallKill sid) s)) s0 sessions else s0)) by done.
  cbv zeta in Hs'. destruct has_client; rewrite Hs'; [|by split_and!].
  destruct (worktree_fold_kept sessions (set_registry (fun r => foldr delete r ids) s)) as (_ & Hr & Hc). cbv zeta in Hr, Hc.
  split; [rewrite Hr; exact Hreg|]. split; [|done]. intros id i Hi Hw _.
  assert (Hin : in_session i ∈ sessions).
  { apply list_elem_of_omap. exists id. split; [apply Hids; by exists i|]. unfold session_id_for. by rewrite Hi. }
  split; [rewrite Hc; apply elem_of_app; right; by apply list_elem_of_fmap_2|by apply worktree_fold_unsubscribes].
Qed.

(** * The path of a pane's shell *)

Lemma filter_none {A} (P : A -> Prop) `{forall x, Decision (P x)} l : Forall (fun x => ~ P x) l -> filter P l = [].
Proof. induction 1 as [|x l Hx _ IH]; [done|]. by rewrite filter_cons_False. Qed.

(** A shell of a pane has one search path, with grove's own commands first and
    nowhere else in it, no empty entry, and the inherited entries in their order;
    a pane opened from a shell of another pane gets the same path again. *)
Theorem pane_path_has_shims_first sha256 e sid dir :
  ef_bin_dir e = Some dir -> 58 ∉ from_utf8_lossy dir ->
  let inherited := default [] (find_var (str "PATH") (portable_terminal_env_pairs e ++ [(str "GROVE_SESSION_ID", sid)])) in
  let path := prepend_path_entry (from_utf8_lossy dir) inherited in
  filter (fun kv => kv.1 = str "PATH") (daemon_child_env sha256 e sid) = [(str "PATH", path)] /\
  split_on 58 path = from_utf8_lossy dir :: filter (fun p => p <> [] /\ p <> from_utf8_lossy dir) (split_on 58 inherited) /\
  prepend_path_entry (from_utf8_lossy dir) path = path.
Proof.
  intros Hdir Hc inherited path. set (d := from_utf8_lossy dir) in *. set (kept := filter (fun p => p <> [] /\ p <> d) (split_on 58 inherited)).
  assert (Hsplit : split_on 58 path = d :: kept).
  { unfold path, prepend_path_entry. apply (split_join 58); [done|]. constructor; [done|]. apply Forall_filtered, split_on_pieces. }
  assert (Hkept : filter (fun p => p <> [] /\ p <> d) kept = kept).
  { apply filter_all, Forall_forall. intros p Hp. by apply list_elem_of_filter in Hp as [Hp _]. }
  split; [|split; [exact Hsplit|]].
  - unfold daemon_child_env. rewrite Hdir. cbv zeta. fold d. fold inherited. fold path.
    set (base := filter (fun kv => kv.1 <> str "PATH") _).
    assert (E0 : filter (fun kv => kv.1 = str "PATH") base = []).
    { apply filter_none, Forall_forall. intros kv Hkv. by apply list_elem_of_filter in Hkv as [Hkv _]. }
    clearbody base. rewrite !filter_app.
    rewrite E0. by destruct (daemon_socket_for_env e), (session_key_for_env sha256 e sid), (ef_zdotdir e).
  - unfold prepend_path_entry at 1. rewrite Hsplit. rewrite filter_cons_False by (intros [_ H]; done). fold kept. rewrite Hkept. done.
Qed.

(** * Overlapping creations *)

(** Two panes with one id, a host that accepts every directory, the digest taken
    as the text itself. *)
Module Race.
Definition sha (b : bytes) : bytes := b.
Definition yes (_ : bytes) : bool := true.
Abbreviation step := (pane_step sha yes yes).

Definition req (pane : string) : CreatePtyRequest := mkCreateRequest (str "pty-1") (str pane) (str "/w") (str "/w/a") 80 24 None.
Definition args (pane : string) : create_args := mkArgs (str "pty-1") (str "/w") (str "/w/a") (grove_session_name sha (str "/w") (str pane)).
Definition fresh : result CreateOrAttachResult bytes := Ok (Client.mkCreateResult true false None None).

Definition called (n : nat) (pane : string) (x : Sys) : Sys := mkSys (app x) (<[n := create_call sha yes yes (req pane) (app x)]> (creates x)).
Definition waits (n : nat) (pane : string) (h : nat) (x : Sys) : Sys :=
  mkSys (create_subscribe (req pane) (args pane) h [] 0 (app x)) (<[n := Waiting (req pane) (args pane) h]> (creates x)).
Definition replied (n : nat) (pane : string) (h : nat) (x : Sys) : Sys :=
  let (s, res) := create_finish_pane (req pane) (args pane) h fresh (app x) in mkSys s (<[n := Returned res]> (creates x)).

Lemma call_step n pane x : creates x !! n = None -> step x (called n pane x).
Proof. apply ps_call. Qed.
Lemma subscribe_step n pane h x :
  creates x !! n = Some (Checked (req pane) (args pane)) -> adapters (app x) !! h = None -> step x (waits n pane h x).
Proof. apply ps_subscribe. Qed.
Lemma reply_step n pane h x : creates x !! n = Some (Waiting (req pane) (args pane) h) -> step x (replied n pane h x).
Proof. apply ps_reply. Qed.

(** One pane, open. *)
Definition opened : Sys := replied 0 "pane-one" 0 (waits 0 "pane-one" 0 (called 0 "pane-one" sys_new)).
Lemma opened_reachable : rtc step sys_new opened.
Proof.
  eapply rtc_l; [apply (call_step 0 "pane-one"); reflexivity|].
  eapply rtc_l; [apply (subscribe_step 0 "pane-one" 0); [vm_compute; reflexivity|reflexivity]|].
  eapply rtc_l; [apply (reply_step 0 "pane-one" 0); vm_compute; reflexivity|]. apply rtc_refl.
Qed.

(** The check of the id is made before the waits and the entry after them: two
    calls with one id both succeed, and the pane of the first is no longer listed
    while its adapter stays subscribed and its session runs. *)
Definition both : Sys :=
  replied 1 "pane-two" 1 (replied 0 "pane-one" 0 (waits 1 "pane-two" 1 (waits 0 "pane-one" 0 (called 1 "pane-two" (called 0 "pane-one" sys_new))))).
Lemma both_reachable : rtc step sys_new both.
Proof.
  eapply rtc_l; [apply (call_step 0 "pane-one"); reflexivity|].
  eapply rtc_l; [apply (call_step 1 "pane-two"); reflexivity|].
  eapply rtc_l; [apply (subscribe_step 0 "pane-one" 0); [vm_compute; reflexivity|reflexivity]|].
  eapply rtc_l; [apply (subscribe_step 1 "pane-two" 1); [vm_compute; reflexivity|reflexivity]|].
  eapply rtc_l; [apply (reply_step 0 "pane-one" 0); vm_compute; reflexivity|].
  eapply rtc_l; [apply (reply_step 1 "pane-two" 1); vm_compute; reflexivity|]. apply rtc_refl.
Qed.

Theorem overlapping_creates_share_id :
  exists x, rtc step sys_new x /\
    creates x !! 0%nat = Some (Returned (Ok (mkCreateResult Created None))) /\
    creates x !! 1%nat = Some (Returned (Ok (mkCreateResult Created None))) /\
    in_session <$> registry (app x) !! str "pty-1" = Some (a_session (args "pane-two")) /\
    size (registry (app x)) = 1%nat /\
    subs (app x) !! a_session (args "pane-one") = Some 0%nat /\
    gate ∘ ad_pane <$> adapters (app x) !! 0%nat = Some GateOpen.
Proof. exists both. split; [apply both_reachable|]. by split_and!; vm_compute. Qed.

(** A pane that is closed and opened again while the exit of the old child is
    still on the stream socket: the exit reaches the new adapter, whose creation
    then succeeds and lists no pane. *)
Definition closed : Sys := mkSys (close_end (str "pty-1") (a_session (args "pane-one")) (Ok tt) (ask_client (CallKill (a_session (args "pane-one"))) (app opened))).1 (creates opened).
Definition reopening : Sys := waits 1 "pane-one" 1 (called 1 "pane-one" closed).
Definition late_exit : Sys := mkSys (stream_exit (a_session (args "pane-one")) (app reopening)) (creates reopening).

Theorem late_exit_closes_reopened_pane :
  exists x, rtc step sys_new x /\
    creates x !! 1%nat = Some (Returned (Ok (mkCreateResult Created None))) /\ registry (app x) = ∅ /\ subs (app x) = ∅.
Proof.
  exists (replied 1 "pane-one" 1 late_exit). split; [|by split_and!; vm_compute].
  transitivity opened; [apply opened_reachable|].
  set (killed := mkSys (ask_client (CallKill (a_session (args "pane-one"))) (app opened)) (creates opened)).
  apply (rtc_l step _ killed); [apply ps_kill|].
  apply (rtc_l step _ closed); [exact (ps_close sha yes yes killed (str "pty-1") (a_session (args "pane-one")) (Ok tt))|].
  apply (rtc_l step _ (called 1 "pane-one" closed)); [apply call_step; vm_compute; reflexivity|].
  apply (rtc_l step _ reopening); [apply subscribe_step; vm_compute; reflexivity|].
  apply (rtc_l step _ late_exit); [exact (ps_exit sha yes yes reopening (a_session (args "pane-one")))|].
  apply (rtc_l step _ (replied 1 "pane-one" 1 late_exit)); [apply reply_step; vm_compute; reflexivity|]. apply rtc_refl.
Qed.
End Race.

(** * The hypotheses can hold *)


Lemma saved_pane_is_restored_witness :
  exists a t s', adapters (app Race.opened) !! 0%nat = Some a /\
    build_pane_snapshot (fun _ => Some (Some (str "/w/b "))) (mkSnapshotInput (str "pane-one") (Some (str "pty-1")) None) (app Race.opened) = (Ok t, s') /\
    ps_last_known_cwd t = Some (str "/w/b").
Proof.
  destruct (saved_pane_is_restored Race.sha Race.yes Race.yes Race.opened (str "pty-1")
    (mkInstance (a_session (Race.args "pane-one")) (str "/w") 0) (mkSnapshotInput (str "pane-one") (Some (str "pty-1")) None)
    (fun _ => Some (Some (str "/w/b "))) Race.opened_reachable) as (a & t & s' & Ha & Ht & _ & Hk & _);
    [vm_compute; reflexivity|reflexivity|vm_compute; discriminate|].
  exists a, t, s'. split; [exact Ha|]. split; [exact Ht|]. apply Hk. vm_compute. reflexivity.
Defined.

Lemma renderer_view_is_current_witness :
  exists s' out, poll_bell_events (Ok [mkBellEvent (a_session (Race.args "pane-one")) true (Some (str "busy"))]) (app Race.opened) = (s', Ok out) /\
    view_current (view_after ∅ out) s'.
Proof.
  destruct (renderer_view_is_current Race.sha Race.yes Race.yes Race.opened ∅
    [mkBellEvent (a_session (Race.args "pane-one")) true (Some (str "busy"))] Race.opened_reachable) as (s' & out & Hp & _ & Hv & _).
  - intros id i a Hi Ha. assert (E : registry (app Race.opened) = {[str "pty-1" := mkInstance (a_session (Race.args "pane-one")) (str "/w") 0]})
      by (vm_compute; reflexivity). rewrite E in Hi. apply lookup_singleton_Some in Hi as [_ <-]. cbn [in_tracked] in Ha.
    assert (E2 : last_ai_status ∘ ad_info <$> adapters (app Race.opened) !! 0%nat = Some None) by (vm_compute; reflexivity).
    rewrite Ha in E2. cbn in E2. injection E2 as ->. by rewrite lookup_empty.
  - exists s', out. split; [exact Hp|exact Hv].
Defined.

Lemma pane_path_has_shims_first_witness :
  let e := mkEnvFacts [(str "PATH", str "/usr/bin::/g/bin:/bin"); (str "PATH", str "/x")] (fun _ => None) false (str "1.0") (Some (str "/g/bin")) None None None None in
  filter (fun kv => kv.1 = str "PATH") (daemon_child_env Race.sha e (str "s")) = [(str "PATH", str "/g/bin:/usr/bin:/bin")].
Proof.
  intros e. destruct (pane_path_has_shims_first Race.sha e (str "s") (str "/g/bin") eq_refl) as [H _]; [apply (bool_decide_eq_true_1 _); vm_compute; reflexivity|].
  rewrite H. vm_compute. reflexivity.
Defined.
