(* ===== verification/GitDiff.v ===== *)
(** Diffs and partial staging (grove-core/src/git_diff.rs): parsing what git2
    prints, the patches for hunks and for selected lines, the view of a
    conflicted file, file content by lines, and the check of repository paths.
    The events git2 prints and the outcome of running git are arguments; a
    string is the list of its bytes. *)

From S2P Require Import Prelude Utf8 Paths.

Definition CONFLICT_CONTEXT_LINES : nat := 3.
Definition STATUS_CONFLICTED : bytes := str "conflicted".

#[local] Open Scope rust_scope.

(** * Data *)

Record DiffLine := mkDiffLine {
  line_type : bytes;
  content : bytes;
  old_line_number : option Z;
  new_line_number : option Z;
  index : Z
}.

Record DiffHunk := mkDiffHunk {
  header : bytes;
  lines : list DiffLine;
  old_start : Z;
  old_count : Z;
  new_start : Z;
  new_count : Z
}.

Record FileDiff := mkFileDiff {
  path : bytes;
  old_path : option bytes;
  status : bytes;
  hunks : list DiffHunk;
  display_line_count : Z
}.

(** * What git2 prints *)

Inductive Delta := Added | Untracked | Deleted | Renamed | Modified | OtherDelta.

Record HunkInfo := mkHunkInfo {
  h_header : bytes;
  h_old_start : Z;
  h_old_lines : Z;
  h_new_start : Z;
  h_new_lines : Z
}.

(** One call of the closure that [diff.print] runs. *)
Record PrintLine := mkPrintLine {
  new_file : option bytes;
  old_file : option bytes;
  delta_status : Delta;
  hunk : option HunkInfo;
  origin : Z;
  line_content : bytes;
  old_lineno : option Z;
  new_lineno : option Z
}.

Definition status_name (d : Delta) : bytes :=
  match d with
  | Added | Untracked => str "added"
  | Deleted => str "deleted"
  | Renamed => str "renamed"
  | Modified | OtherDelta => str "modified"
  end.

(** [last_mut]. *)
Fixpoint on_last {A} (f : A -> A) (l : list A) : list A :=
  match l with
  | [] => []
  | [x] => [f x]
  | x :: l => x :: on_last f l
  end.

Definition new_hunk (h : HunkInfo) : DiffHunk :=
  mkDiffHunk (trim (default [] (from_utf8 (h_header h)))) [] (h_old_start h) (h_old_lines h)
    (h_new_start h) (h_new_lines h).

Definition push_hunk (h : HunkInfo) (f : FileDiff) : FileDiff :=
  mkFileDiff (path f) (old_path f) (status f) (hunks f ++ [new_hunk h]) (display_line_count f).

Definition push_line (l : DiffLine) (f : FileDiff) : FileDiff :=
  mkFileDiff (path f) (old_path f) (status f)
    (on_last (fun h => mkDiffHunk (header h) (lines h ++ [l]) (old_start h) (old_count h)
                         (new_start h) (new_count h)) (hunks f)) (display_line_count f).

Definition need_hunk (h : HunkInfo) (f : FileDiff) : bool :=
  match last (hunks f) with
  | None => true
  | Some l => negb (old_start l =? h_old_start h) || negb (new_start l =? h_new_start h)
  end.

(** The closure, over the files so far and the running line index. *)
Definition print_step (s : list FileDiff * Z) (e : PrintLine) : list FileDiff * Z :=
  let p := from_utf8_lossy (default [] (new_file e)) in
  let '(files, idx) :=
    if bool_decide (path <$> last s.1 = Some p) then s
    else (s.1 ++ [mkFileDiff p (from_utf8_lossy <$> old_file e) (status_name (delta_status e)) [] 0], 0) in
  if origin e =? 72 (* H *) then
    match hunk e with
    | Some h => (on_last (push_hunk h) files, idx)
    | None => (files, idx)
    end
  else if (origin e =? 43) || (origin e =? 45) || (origin e =? 32) (* + - space *) then
    let files := on_last (fun f =>
      match hunk e with
      | Some h => if need_hunk h f then push_hunk h f else f
      | None => f
      end) files in
    match last files with
    | Some f =>
        match hunks f with
        | [] => (files, idx)
        | _ =>
            let ty := if origin e =? 43 then str "add" else if origin e =? 45 then str "remove"
                      else str "context" in
            let l := mkDiffLine ty (from_utf8_lossy (line_content e)) (old_lineno e) (new_lineno e) idx in
            (on_last (push_line l) files, wrap 32 (idx + 1))
        end
    | None => (files, idx)
    end
  else (files, idx).

(** [error] is the failure of [diff.print], if it fails. *)
Definition parse_diff (printed : list PrintLine) (error : option bytes) : result (list FileDiff) bytes :=
  match error with
  | Some e => Err e
  | None => Ok (foldl print_step ([], 0) printed).1
  end.

(** * Patches *)

Definition is_type (t : string) (l : DiffLine) : bool := bytes_eqb (line_type l) (str t).

Definition terminated (s : bytes) : bytes := if ends_with_lf s then s else s ++ [LF].

Definition file_headers (file_path : bytes) (old : option bytes) : bytes :=
  str "--- a/" ++ default file_path old ++ [LF] ++ str "+++ b/" ++ file_path ++ [LF].

Definition build_hunk_patch (file_path : bytes) (old : option bytes) (h : DiffHunk) : bytes :=
  file_headers file_path old ++ terminated (header h) ++
  concat ((fun l =>
    (if is_type "add" l then [43] else if is_type "remove" l then [45] else [32])
    ++ terminated (content l)) <$> lines h).

Definition format_patch_line (prefix : Z) (c : bytes) : bytes := terminated (prefix :: c).

Record Selection := mkSelection {
  patch_lines : list bytes;
  sel_old_count : Z;
  sel_new_count : Z;
  has_changes : bool
}.

Definition select_line (selected : gset Z) (s : Selection) (l : DiffLine) : Selection :=
  let is_selected := bool_decide (index l ∈ selected) in
  let old1 := wrap 32 (sel_old_count s + 1) in
  let new1 := wrap 32 (sel_new_count s + 1) in
  if is_type "add" l then
    if is_selected
    then mkSelection (patch_lines s ++ [format_patch_line 43 (content l)]) (sel_old_count s) new1 true
    else s
  else if is_type "remove" l then
    if is_selected
    then mkSelection (patch_lines s ++ [format_patch_line 45 (content l)]) old1 (sel_new_count s) true
    else mkSelection (patch_lines s ++ [format_patch_line 32 (content l)]) old1 new1 (has_changes s)
  else mkSelection (patch_lines s ++ [format_patch_line 32 (content l)]) old1 new1 (has_changes s).

Definition hunk_header (old_start old_count new_start new_count : Z) : bytes :=
  str "@@ -" ++ show_dec old_start ++ str "," ++ show_dec old_count ++ str " +" ++
  show_dec new_start ++ str "," ++ show_dec new_count ++ str " @@".

Definition build_selective_patch (file_path : bytes) (old : option bytes) (h : DiffHunk)
    (selected : gset Z) : result bytes bytes :=
  let s := foldl (select_line selected) (mkSelection [] 0 0 false) (lines h) in
  if negb (has_changes s) then Err (str "No changes selected")
  else Ok (file_headers file_path old ++
           hunk_header (old_start h) (sel_old_count s) (new_start h) (sel_new_count s) ++ [LF] ++
           concat (patch_lines s)).

Definition get_hunk (d : FileDiff) (hunk_index : Z) : result DiffHunk bytes :=
  match hunks d !! Z.to_nat hunk_index with
  | Some h => Ok h
  | None =>
      Err (str "Hunk index " ++ show_dec hunk_index ++ str " out of range (file has " ++
           show_dec (zlen (hunks d)) ++ str " hunks)")
  end.

(** What the six operations hand to [apply_patch]: the patch and its flags. [diff]
    is the unstaged diff, or the staged one when unstaging. *)
Definition hunk_op (flags : list string) (diff : result FileDiff bytes) (file_path : bytes)
    (hunk_index : Z) : result (bytes * list string) bytes :=
  let? d := diff in
  let? h := get_hunk d hunk_index in
  Ok (build_hunk_patch file_path (old_path d) h, flags).

Definition stage_hunk_impl := hunk_op ["--cached"]%string.
Definition unstage_hunk_impl := hunk_op ["--cached"; "--reverse"]%string.
Definition discard_hunk_impl := hunk_op ["--reverse"]%string.

Definition lines_op (flags : list string) (diff : result FileDiff bytes) (file_path : bytes)
    (hunk_index : Z) (line_indices : list Z) : result (bytes * list string) bytes :=
  let? d := diff in
  let? h := get_hunk d hunk_index in
  let? patch := build_selective_patch file_path (old_path d) h (list_to_set line_indices) in
  Ok (patch, flags).

Definition stage_lines_impl := lines_op ["--cached"]%string.
Definition unstage_lines_impl := lines_op ["--cached"; "--reverse"]%string.
Definition discard_lines_impl := lines_op ["--reverse"]%string.

(** * Conflicted files *)

(** The inner [while]: the first closing marker at or after position [n]. *)
Fixpoint closing (rest : list bytes) (n : nat) : nat :=
  match rest with
  | [] => n
  | l :: rest => if starts_with (str ">>>>>>>") l then n else closing rest (S n)
  end.

Definition is_open (ls : list bytes) (i : nat) : bool := starts_with (str "<<<<<<<") (nth i ls []).

(** One turn of the outer [while]. *)
Definition ranges_body (ls : list bytes) (s : nat * list (nat * nat)) :
    (nat * list (nat * nat)) + list (nat * nat) :=
  let '(i, ranges) := s in
  let len := length ls in
  if bool_decide (len <= i)%nat then inr ranges
  else if negb (is_open ls i) then inl (S i, ranges)
  else
    let start := (i - CONFLICT_CONTEXT_LINES)%nat in
    let e := closing (drop (S i) ls) (S i) in
    let e := if bool_decide (e < len)%nat then S e else e in
    let e := Nat.min (e + CONFLICT_CONTEXT_LINES) len in
    inl (e,
      match last ranges with
      | Some (_, previous_end) =>
          if bool_decide (start <= previous_end)%nat
          then on_last (fun '(a, b) => (a, Nat.max b e)) ranges
          else ranges ++ [(start, e)]
      | None => ranges ++ [(start, e)]
      end).

Definition conflicted_context_ranges (ls : list bytes) : list (nat * nat) :=
  match loop (ranges_body ls) (S (length ls)) (0%nat, []) with
  | Some ranges =>
      if bool_decide (ranges = []) && negb (bool_decide (ls = [])) then [(0%nat, length ls)] else ranges
  | None => []
  end.

Definition context_line (start : nat) (offset : nat) (c : bytes) : DiffLine :=
  let n := wrap 32 (wrap 32 (Z.of_nat start + 1) + wrap 32 (Z.of_nat offset)) in
  mkDiffLine (str "context") c (Some n) (Some n) (wrap 32 (Z.of_nat (start + offset))).

Definition build_conflicted_hunks (ls : list bytes) : list DiffHunk :=
  (fun '(a, b) =>
    let start_line := wrap 32 (Z.of_nat a + 1) in
    let line_count := wrap 32 (Z.of_nat (b - a)) in
    mkDiffHunk (hunk_header start_line line_count start_line line_count)
      (imap (context_line a) (take (b - a) (drop a ls)))
      start_line line_count start_line line_count)
  <$> conflicted_context_ranges ls.

Definition get_conflicted_working_diff (p : bytes) (ls : list bytes) : FileDiff :=
  mkFileDiff p None STATUS_CONFLICTED (build_conflicted_hunks ls) (wrap 32 (zlen ls)).

(** * Content by lines *)

Definition count_lf (bs : bytes) : Z := zlen (filter (fun b => b = LF) bs).

Definition count_lines (bs : bytes) : Z :=
  if bool_decide (bs = []) then 0
  else
    let newline_count := wrap 32 (count_lf bs) in
    if ends_with_lf bs then newline_count else wrap 32 (newline_count + 1).

Definition decode_lines (bs : bytes) : list bytes := str_lines (from_utf8_lossy bs).

Definition slice_lines (ls : list bytes) (start_line line_count : Z) : list bytes :=
  if (start_line =? 0) || (line_count =? 0) then []
  else
    let start_index := start_line - 1 in
    if zlen ls <=? start_index then []
    else slice ls start_index (Z.min (start_index + line_count) (zlen ls)).

Definition should_track_display_line_count (s : bytes) : bool :=
  negb (bytes_eqb s (str "added") || bytes_eqb s (str "deleted")).

(** * Repository paths *)

Fixpoint check_components (cs : list Component) (has_normal_component : bool) : option bool :=
  match cs with
  | [] => Some has_normal_component
  | Normal _ :: cs => check_components cs true
  | CurDir :: cs => check_components cs has_normal_component
  | _ :: _ => None
  end.

Definition validate_repo_relative_path (p : bytes) : result unit bytes :=
  if bytes_eqb p [] then Err (str "Path is required")
  else
    match check_components (components p) false with
    | Some true => Ok tt
    | _ => Err (str "Invalid repo-relative path: " ++ p)
    end.

(** * Selecting lines *)

(** The two sides of a hunk, and what its old side becomes when only the
    selected changes are made. *)
Definition old_side (ls : list DiffLine) : list bytes :=
  content <$> filter (fun l => is_type "add" l = false) ls.
Definition new_side (ls : list DiffLine) : list bytes :=
  content <$> filter (fun l => is_type "remove" l = false) ls.

Definition keeps_line (selected : gset Z) (l : DiffLine) : bool :=
  if is_type "add" l then bool_decide (index l ∈ selected)
  else if is_type "remove" l then negb (bool_decide (index l ∈ selected))
  else true.
Definition with_selected (selected : gset Z) (ls : list DiffLine) : list bytes :=
  content <$> filter (fun l => keeps_line selected l = true) ls.

Definition is_change (selected : gset Z) (l : DiffLine) : bool :=
  (is_type "add" l || is_type "remove" l) && bool_decide (index l ∈ selected).

(** How a patch program reads the body of a hunk: a first byte, and a line. Lines
    that begin with a space or a minus are matched, lines that begin with a space
    or a plus replace them; reversed, the two change places. *)
Definition matched (body : list bytes) : list bytes :=
  tail <$> filter (fun l => head l = Some 32 \/ head l = Some 45) body.
Definition replaced_by (body : list bytes) : list bytes :=
  tail <$> filter (fun l => head l = Some 32 \/ head l = Some 43) body.

Lemma matched_app a b : matched (a ++ b) = matched a ++ matched b.
Proof. unfold matched. by rewrite filter_app, fmap_app. Qed.
Lemma replacing_app a b : replaced_by (a ++ b) = replaced_by a ++ replaced_by b.
Proof. unfold replaced_by. by rewrite filter_app, fmap_app. Qed.

Lemma terminated_cons c s : s <> [] -> terminated (c :: s) = c :: terminated s.
Proof.
  intros Hs. unfold terminated, ends_with_lf. destruct s as [|x s]; [done|].
  change (last (c :: x :: s)) with (last (x :: s)).
  by destruct (bool_decide (last (x :: s) = Some LF)).
Qed.

(** An empty line of a diff does not occur: git keeps the line feed. *)
Lemma patch_line_tail c s : head (format_patch_line c s) = Some c /\
  (c <> LF -> tail (format_patch_line c s) = terminated s).
Proof.
  unfold format_patch_line. destruct s as [|x s].
  - unfold terminated, ends_with_lf. cbn [last head]. case_bool_decide as H; [|done].
    split; [done|]. intros Hc. congruence.
  - by rewrite terminated_cons.
Qed.

Lemma matched_line c s :
  (c = 32 \/ c = 43 \/ c = 45) ->
  matched [format_patch_line c s] = if bool_decide (c = 43) then [] else [terminated s].
Proof.
  intros Hc. destruct (patch_line_tail c s) as [Hh Ht]. unfold matched.
  revert Hh Ht. generalize (format_patch_line c s). intros p Hh Ht.
  rewrite filter_cons, filter_nil. destruct (decide _) as [Hd|Hd]; rewrite Hh in Hd.
  - rewrite bool_decide_eq_false_2 by (destruct Hd as [[= ->]|[= ->]]; lia).
    cbn. rewrite Ht; [done|]. unfold LF. lia.
  - destruct Hc as [->|[->| ->]]; [destruct Hd; by left|done|destruct Hd; by right].
Qed.

Lemma replacing_line c s :
  (c = 32 \/ c = 43 \/ c = 45) ->
  replaced_by [format_patch_line c s] = if bool_decide (c = 45) then [] else [terminated s].
Proof.
  intros Hc. destruct (patch_line_tail c s) as [Hh Ht]. unfold replaced_by.
  revert Hh Ht. generalize (format_patch_line c s). intros p Hh Ht.
  rewrite filter_cons, filter_nil. destruct (decide _) as [Hd|Hd]; rewrite Hh in Hd.
  - rewrite bool_decide_eq_false_2 by (destruct Hd as [[= ->]|[= ->]]; lia).
    cbn. rewrite Ht; [done|]. unfold LF. lia.
  - destruct Hc as [->|[->| ->]]; [destruct Hd; by left|destruct Hd; by right|done].
Qed.

Lemma is_type_add_remove l : is_type "add" l = true -> is_type "remove" l = false.
Proof.
  unfold is_type, bytes_eqb. rewrite bool_decide_eq_true, bool_decide_eq_false. intros ->. done.
Qed.

Record selects (selected : gset Z) (ls : list DiffLine) (s : Selection) : Prop := {
  se_matched : matched (patch_lines s) = terminated <$> old_side ls;
  se_replacing : replaced_by (patch_lines s) = terminated <$> with_selected selected ls;
  se_old : sel_old_count s = zlen (old_side ls);
  se_new : sel_new_count s = zlen (with_selected selected ls);
  se_changes : has_changes s = existsb (is_change selected) ls;
  se_lines : Forall (fun l => last l = Some LF /\
    (head l = Some 32 \/ head l = Some 43 \/ head l = Some 45)) (patch_lines s)
}.

Lemma last_terminated s : last (terminated s) = Some LF.
Proof. unfold terminated, ends_with_lf. case_bool_decide; [done|by rewrite last_snoc]. Qed.

(** One more line of the hunk that goes into the patch with first byte [c]. *)
Lemma selects_snoc selected ls s l c :
  selects selected ls s -> (c = 32 \/ c = 43 \/ c = 45) ->
  is_type "add" l = bool_decide (c = 43) -> keeps_line selected l = negb (bool_decide (c = 45)) ->
  (is_change selected l = negb (bool_decide (c = 32))) ->
  selects selected (ls ++ [l])
    (mkSelection (patch_lines s ++ [format_patch_line c (content l)])
       (if bool_decide (c = 43) then sel_old_count s else sel_old_count s + 1)
       (if bool_decide (c = 45) then sel_new_count s else sel_new_count s + 1)
       (has_changes s || negb (bool_decide (c = 32)))).
Proof.
  intros [Hm Hr Ho Hn Hc Hl] Hcc Ha Hk Hch.
  assert (Hold : old_side (ls ++ [l]) = old_side ls ++ (if bool_decide (c = 43) then [] else [content l])).
  { unfold old_side. rewrite filter_app, fmap_app. f_equal. rewrite filter_cons, filter_nil, Ha.
    by destruct (bool_decide (c = 43)). }
  assert (Hnew : with_selected selected (ls ++ [l]) =
    with_selected selected ls ++ (if bool_decide (c = 45) then [] else [content l])).
  { unfold with_selected. rewrite filter_app, fmap_app. f_equal. rewrite filter_cons, filter_nil, Hk.
    by destruct (bool_decide (c = 45)). }
  destruct (patch_line_tail c (content l)) as [Hh _].
  split; cbn [patch_lines sel_old_count sel_new_count has_changes].
  - rewrite matched_app, Hm, Hold, fmap_app, matched_line by done. by destruct (bool_decide (c = 43)).
  - rewrite replacing_app, Hr, Hnew, fmap_app, replacing_line by done. by destruct (bool_decide (c = 45)).
  - rewrite Ho, Hold, zlen_app. destruct (bool_decide (c = 43)); zlen_lia.
  - rewrite Hn, Hnew, zlen_app. destruct (bool_decide (c = 45)); zlen_lia.
  - rewrite existsb_app, Hc. cbn. by rewrite Hch, orb_false_r.
  - apply Forall_app. split; [done|]. apply Forall_singleton.
    split; [apply last_terminated|]. rewrite Hh.
    destruct Hcc as [->|[->| ->]]; auto.
Qed.

Lemma select_skips selected ls s l :
  selects selected ls s -> is_type "add" l = true -> keeps_line selected l = false ->
  is_change selected l = false -> selects selected (ls ++ [l]) s.
Proof.
  intros [Hm Hr Ho Hn Hc Hl] Ha Hk Hch.
  assert (Hold : old_side (ls ++ [l]) = old_side ls).
  { unfold old_side. rewrite filter_app, filter_cons, filter_nil, Ha. cbn. by rewrite app_nil_r. }
  assert (Hnew : with_selected selected (ls ++ [l]) = with_selected selected ls).
  { unfold with_selected. rewrite filter_app, filter_cons, filter_nil, Hk. cbn. by rewrite app_nil_r. }
  split; rewrite ?Hold, ?Hnew; try done. rewrite existsb_app, <- Hc. cbn.
  by rewrite Hch, !orb_false_r.
Qed.

Lemma zlen_side_le (P : DiffLine -> Prop) `{forall l, Decision (P l)} ls :
  zlen (content <$> filter P ls) <= zlen ls.
Proof. unfold zlen. rewrite length_fmap. pose proof (length_filter P ls). lia. Qed.

Lemma select_line_spec selected ls s l :
  zlen (ls ++ [l]) < 2 ^ 32 -> selects selected ls s -> selects selected (ls ++ [l]) (select_line selected s l).
Proof.
  intros Hz Hs. pose proof Hs as [_ _ Ho Hn _ _].
  assert (Hz' : zlen (ls ++ [l]) = zlen ls + 1) by zlen_lia.
  assert (Ho' : zlen (old_side ls) <= zlen ls) by apply zlen_side_le.
  assert (Hn' : zlen (with_selected selected ls) <= zlen ls) by apply zlen_side_le.
  pose proof (zlen_nonneg (old_side ls)). pose proof (zlen_nonneg (with_selected selected ls)).
  unfold select_line. rewrite !wrap_small by lia.
  destruct (is_type "add" l) eqn:Ea; [|destruct (is_type "remove" l) eqn:Er].
  - pose proof (is_type_add_remove l Ea) as Er. destruct (bool_decide (index l ∈ selected)) eqn:Ei.
    + pose proof (selects_snoc selected ls s l 43 Hs ltac:(lia)) as Hc. cbn in Hc.
      rewrite orb_true_r in Hc. apply Hc; unfold keeps_line, is_change; by rewrite Ea, ?Er, ?Ei.
    + apply select_skips; [done..| |]; unfold keeps_line, is_change; by rewrite Ea, Ei.
  - destruct (bool_decide (index l ∈ selected)) eqn:Ei.
    + pose proof (selects_snoc selected ls s l 45 Hs ltac:(lia)) as Hc. cbn in Hc.
      rewrite orb_true_r in Hc. apply Hc; unfold keeps_line, is_change; by rewrite Ea, ?Er, ?Ei.
    + pose proof (selects_snoc selected ls s l 32 Hs ltac:(lia)) as Hc. cbn in Hc.
      rewrite orb_false_r in Hc. apply Hc; unfold keeps_line, is_change; by rewrite Ea, ?Er, ?Ei.
  - pose proof (selects_snoc selected ls s l 32 Hs ltac:(lia)) as Hc. cbn in Hc.
    rewrite orb_false_r in Hc. apply Hc; unfold keeps_line, is_change; by rewrite Ea, ?Er.
Qed.

Lemma select_all_spec selected ls :
  zlen ls < 2 ^ 32 -> selects selected ls (foldl (select_line selected) (mkSelection [] 0 0 false) ls).
Proof.
  induction ls as [|l ls IH] using rev_ind; intros Hz; [by split|].
  rewrite foldl_app. cbn [foldl]. apply select_line_spec; [done|]. apply IH.
  rewrite zlen_app in Hz. pose proof (zlen_nonneg [l]). lia.
Qed.


(** * Lines of a file *)

Lemma count_lf_app a b : count_lf (a ++ b) = count_lf a + count_lf b.
Proof. unfold count_lf. by rewrite filter_app, zlen_app. Qed.

Lemma count_lf_nonneg a : 0 <= count_lf a <= zlen a.
Proof. unfold count_lf, zlen. pose proof (length_filter (fun b => b = LF) a). lia. Qed.

(** A byte that is not ASCII is no line feed, and neither is what replaces it. *)
Lemma count_lf_high l : Forall (fun b => 128 <= b) l -> count_lf l = 0.
Proof.
  intros H. unfold count_lf. induction H as [|b l Hb _ IH]; [done|]. rewrite filter_cons.
  rewrite decide_False; [done|]. unfold LF. lia.
Qed.

Lemma last_high l : l <> [] -> Forall (fun b => 128 <= b) l -> last l <> Some LF.
Proof.
  intros Hn H. destruct (last l) as [b|] eqn:E; [|done]. rewrite Forall_forall in H.
  assert (Hb : b ∈ l) by (apply last_Some in E as [l' ->]; apply elem_of_app; right; constructor).
  specialize (H b Hb). unfold LF. intros [= ->]. lia.
Qed.

Lemma nth_cont i t : is_cont (nth i t 0) = true -> 128 <= nth i t 0.
Proof. unfold is_cont. lia. Qed.
Lemma nth_second3 b i t : second3_ok b (nth i t 0) = true -> 128 <= nth i t 0.
Proof. unfold second3_ok, in_range, is_cont. repeat case_match; lia. Qed.
Lemma nth_second4 b i t : second4_ok b (nth i t 0) = true -> 128 <= nth i t 0.
Proof. unfold second4_ok, in_range, is_cont. repeat case_match; lia. Qed.

(** The bytes a replacement character stands for are all above ASCII. *)
Lemma invalid_chunk_high l n :
  utf8_next l = Invalid n -> Forall (fun b => 128 <= b) (take n l).
Proof.
  destruct l as [|b0 t]; [intros [= <-]; constructor|]. unfold utf8_next.
  assert (Hw : utf8_char_width b0 <> 1 -> 128 <= b0).
  { unfold utf8_char_width. destruct (Z.ltb_spec b0 128); [done|lia]. }
  assert (Hlen : forall i, 128 <= nth i t 0 -> (i < length t)%nat).
  { intros i Hi. destruct (decide (i < length t)%nat); [done|]. rewrite nth_overflow in Hi by lia. lia. }
  destruct (Z.eqb_spec (utf8_char_width b0) 1) as [|Hne]; [done|]. specialize (Hw Hne).
  repeat case_match; intros [= <-];
    repeat match goal with
    | H : is_cont _ = true |- _ => apply nth_cont in H
    | H : second3_ok _ _ = true |- _ => apply nth_second3 in H
    | H : second4_ok _ _ = true |- _ => apply nth_second4 in H
    end; cbn [take]; repeat constructor; try done;
    destruct t as [|b1 [|b2 t]]; cbn [nth] in *; try lia; repeat constructor; lia.
Qed.

Definition lossy_chunk (c : bool * bytes) : bytes := if c.1 then c.2 else replacement.

Lemma lossy_chunk_facts l n (c : bool * bytes) :
  (utf8_next l = Valid n /\ c = (true, take n l)) \/ (utf8_next l = Invalid n /\ c = (false, take n l)) ->
  l <> [] ->
  count_lf (lossy_chunk c) = count_lf (take n l) /\ lossy_chunk c <> [] /\
  (last (lossy_chunk c) = Some LF <-> last (take n l) = Some LF).
Proof.
  intros Hc Hl. assert (Hn : take n l <> []).
  { pose proof (utf8_next_len l Hl) as Hlen. destruct Hc as [[E _]|[E _]]; rewrite E in Hlen; cbn in Hlen;
      (destruct l; [done|]); by destruct n; [lia|]. }
  destruct Hc as [[E ->]|[E ->]]; [done|]. apply invalid_chunk_high in E. unfold lossy_chunk. cbn [fst snd].
  split; [by rewrite (count_lf_high (take n l))|]. split; [done|].
  split; [done|]. intros H. by apply last_high in H.
Qed.

Lemma last_app_ne (a b : bytes) : b <> [] -> last (a ++ b) = last b.
Proof. intros H. rewrite last_app. by destruct (last b) eqn:E; [|apply last_None in E]. Qed.

Lemma chunks_lf fuel l :
  (length l <= fuel)%nat ->
  count_lf (concat (lossy_chunk <$> utf8_chunks fuel l)) = count_lf l /\
  (concat (lossy_chunk <$> utf8_chunks fuel l) = [] <-> l = []) /\
  (last (concat (lossy_chunk <$> utf8_chunks fuel l)) = Some LF <-> last l = Some LF).
Proof.
  revert l. induction fuel as [|fuel IH]; intros l Hf.
  - destruct l; cbn in Hf; [done|lia].
  - destruct l as [|b l0]; [done|]. set (l := b :: l0) in *. assert (Hl : l <> []) by done.
    assert (Hstep : exists n c, utf8_chunks (S fuel) l = c :: utf8_chunks fuel (drop n l) /\
      (1 <= n <= length l)%nat /\
      ((utf8_next l = Valid n /\ c = (true, take n l)) \/ (utf8_next l = Invalid n /\ c = (false, take n l)))).
    { pose proof (utf8_next_len l Hl) as Hlen. cbn [utf8_chunks]. subst l.
      destruct (utf8_next (b :: l0)) as [n|n] eqn:E; cbn in Hlen; exists n; eexists;
        (split; [reflexivity|]); (split; [exact Hlen|]); eauto. }
    destruct Hstep as (n & c & -> & Hn & Hc).
    destruct (lossy_chunk_facts l n c Hc Hl) as (H1 & H2 & H3).
    destruct (IH (drop n l)) as (I1 & I2 & I3); [rewrite length_drop; lia|].
    set (rest := concat (lossy_chunk <$> utf8_chunks fuel (drop n l))) in *.
    cbn [fmap list_fmap concat]. fold rest. split_and!.
    + rewrite count_lf_app, I1, H1, <- count_lf_app, take_drop. done.
    + split; [|done]. intros Hx. by apply app_nil in Hx as [Hx _].
    + assert (Hl' : last l = last (take n l ++ drop n l)) by by rewrite take_drop. rewrite Hl'.
      destruct (decide (rest = [])) as [Hr|Hr].
      * pose proof (proj1 I2 Hr) as Hd. by rewrite Hr, Hd, !app_nil_r.
      * assert (Hd : drop n l <> []) by (intros Hd; apply Hr, I2, Hd).
        by rewrite !last_app_ne.
Qed.

Lemma last_lf_counts s : last s = Some LF -> 0 < count_lf s.
Proof.
  intros [s' ->]%last_Some. rewrite count_lf_app. pose proof (count_lf_nonneg s').
  change (count_lf [LF]) with 1. lia.
Qed.

Lemma split_on_lf s :
  zlen (split_on LF s) = count_lf s + 1 /\
  (last (split_on LF s) = Some [] <-> s = [] \/ last s = Some LF).
Proof.
  induction s as [|b s [IH1 IH2]]; [split; [done|]; split; [by left|done]|].
  cbn [split_on]. assert (Hne : split_on LF s <> []).
  { intros H. rewrite H in IH1. pose proof (count_lf_nonneg s). rewrite zlen_nil in IH1. lia. }
  destruct (Z.eqb_spec b LF) as [->|Hb].
  - split; [rewrite zlen_cons, IH1; unfold count_lf; rewrite filter_cons_True by done; zlen_lia|].
    destruct (split_on LF s) as [|p ps] eqn:E; [done|]. change (last ([] :: p :: ps)) with (last (p :: ps)).
    rewrite IH2. destruct s as [|c s]; [split; [by right|by left]|].
    change (last (LF :: c :: s)) with (last (c :: s)). split; (intros [?|?]; [done|by right]).
  - destruct (split_on LF s) as [|p ps] eqn:E; [done|]. split.
    + rewrite zlen_cons. rewrite zlen_cons in IH1. rewrite IH1. unfold count_lf.
      by rewrite filter_cons_False.
    + destruct ps as [|q ps].
      * cbn. split; [done|]. intros [?|Hl]; [done|]. destruct s as [|c s]; [cbn in Hl; congruence|].
        change (last (b :: c :: s)) with (last (c :: s)) in Hl. apply last_lf_counts in Hl.
        rewrite zlen_cons, zlen_nil in IH1. lia.
      * change (last ((b :: p) :: q :: ps)) with (last (p :: q :: ps)). rewrite IH2.
        destruct s as [|c s]; [by cbn in E; simplify_eq|].
        change (last (b :: c :: s)) with (last (c :: s)). split; (intros [?|?]; [done|by right]).
Qed.

(** the line count shown for a file, taken on its bytes, is the number of
    lines the file is later cut into, for any bytes, valid UTF-8 or not. *)
Theorem count_lines_counts_decoded bs :
  zlen bs < 2 ^ 32 -> count_lines bs = wrap 32 (zlen (decode_lines bs)).
Proof.
  intros Hz. destruct (chunks_lf (length bs) bs (le_n _)) as (H1 & H2 & H3).
  fold (from_utf8_lossy bs) in H1, H2, H3.
  change (concat (lossy_chunk <$> utf8_chunks (length bs) bs)) with (from_utf8_lossy bs) in *.
  unfold decode_lines. set (s := from_utf8_lossy bs) in *.
  destruct (split_on_lf s) as [S1 S2].
  pose proof (count_lf_nonneg bs). rewrite H1 in S1. unfold count_lines, ends_with_lf.
  assert (Hlen : zlen (str_lines s) =
    if bool_decide (last (split_on LF s) = Some []) then count_lf bs else count_lf bs + 1).
  { unfold str_lines. rewrite zlen_app. unfold zlen at 1. rewrite length_fmap.
    set (ps := split_on LF s) in *. destruct (last ps) as [q|] eqn:El.
    2: { apply last_None in El. rewrite El, zlen_nil in S1. lia. }
    apply last_Some in El as [ps' El]. rewrite El in *. rewrite length_app. cbn [length].
    replace (length ps' + 1 - 1)%nat with (length ps') by lia.
    rewrite take_app_length, drop_app_length. rewrite zlen_app, zlen_cons, zlen_nil in S1.
    rewrite filter_cons, filter_nil. unfold zlen in *. destruct (decide (q = [])) as [->|Hq].
    - rewrite decide_False by (intros Hf; by apply Hf). rewrite bool_decide_eq_true_2 by done. cbn. lia.
    - rewrite decide_True by done. rewrite bool_decide_eq_false_2 by congruence. cbn [length]. lia. }
  rewrite Hlen. destruct (decide (bs = [])) as [->|Hne].
  - rewrite (bool_decide_eq_true_2 ([] = [])) by done. rewrite bool_decide_eq_true_2; [done|].
    apply S2. left. by apply H2.
  - rewrite (bool_decide_eq_false_2 (bs = [])) by done. rewrite (wrap_small 32 (count_lf bs)) by lia.
    destruct (decide (last bs = Some LF)) as [Hl|Hl].
    + rewrite (bool_decide_eq_true_2 (last bs = _)) by done. rewrite bool_decide_eq_true_2.
      * by rewrite wrap_small by lia.
      * apply S2. right. by apply H3.
    + rewrite (bool_decide_eq_false_2 (last bs = _)) by done. rewrite bool_decide_eq_false_2; [done|].
      rewrite S2. intros [Hs|Hs]; [by apply H2 in Hs|by apply H3 in Hs].
Qed.

Lemma count_lines_counts_decoded_witness :
  count_lines [97; 10; 255; 10; 13] = wrap 32 (zlen (decode_lines [97; 10; 255; 10; 13])) /\
  count_lines [97; 10; 255; 10; 13] = 3.
Proof. split; [apply count_lines_counts_decoded; reflexivity|reflexivity]. Defined.

(** * The view of a conflicted file *)

Lemma on_last_snoc {A} (f : A -> A) l x : on_last f (l ++ [x]) = l ++ [f x].
Proof. induction l as [|y l IH]; [done|]. cbn. rewrite IH. by destruct l. Qed.

Lemma closing_bounds rest n : (n <= closing rest n <= n + length rest)%nat.
Proof.
  revert n. induction rest as [|l rest IH]; intros n; cbn [closing length]; [lia|].
  case_match; [lia|]. specialize (IH (S n)). lia.
Qed.

(** Ranges that are not empty and end within the file, each with lines left out
    before the next one. *)
Definition range_ok (len : nat) (r : nat * nat) : Prop := (r.1 < r.2 <= len)%nat.
Definition separated (rs : list (nat * nat)) : Prop :=
  forall k r r', rs !! k = Some r -> rs !! S k = Some r' -> (r.2 < r'.1)%nat.
Definition in_range_of (rs : list (nat * nat)) (j : nat) : Prop :=
  exists r, r ∈ rs /\ (r.1 <= j < r.2)%nat.

Lemma separated_snoc rs x :
  separated (rs ++ [x]) <-> separated rs /\ (forall y, last rs = Some y -> (y.2 < x.1)%nat).
Proof.
  split.
  - intros H. split.
    + intros k r r' Hr Hr'. apply (H k); by apply lookup_app_l_Some.
    + intros y Hy. rewrite last_lookup in Hy. destruct rs as [|z rs]; [done|].
      apply (H (length rs)); [by apply lookup_app_l_Some|].
      rewrite lookup_app_r by (cbn; lia). cbn [length]. by rewrite Nat.sub_diag.
  - intros [H Hx] k r r' Hr Hr'.
    destruct (decide (S k < length rs)%nat) as [Hk|Hk].
    + rewrite lookup_app_l in Hr by lia. rewrite lookup_app_l in Hr' by lia. by apply (H k).
    + assert (length rs = S k) as Hl.
      { apply lookup_lt_Some in Hr'. rewrite length_app in Hr'. cbn in Hr'. lia. }
      rewrite lookup_app_r, Hl, Nat.sub_diag in Hr' by lia. injection Hr' as <-.
      apply Hx. rewrite last_lookup, Hl. cbn. by rewrite lookup_app_l in Hr by lia.
Qed.

Lemma covered_snoc rs x j : in_range_of (rs ++ [x]) j <-> in_range_of rs j \/ (x.1 <= j < x.2)%nat.
Proof.
  unfold in_range_of. split.
  - intros (r & Hr & Hj). apply elem_of_app in Hr as [Hr|Hr]; [left; eauto|].
    apply list_elem_of_singleton in Hr as ->. by right.
  - intros [(r & Hr & Hj)|Hj]; [exists r|exists x]; (split; [|done]); apply elem_of_app;
      [by left|right; constructor].
Qed.

(** What holds whenever the outer loop is at line [s.1]. *)
Record ranges_inv (ls : list bytes) (s : nat * list (nat * nat)) : Prop := {
  ri_pos : (s.1 <= length ls)%nat;
  ri_ok : Forall (range_ok (length ls)) s.2;
  ri_sep : separated s.2;
  ri_last : forall r, last s.2 = Some r -> (r.2 <= s.1)%nat;
  ri_cover : forall j, (j < s.1)%nat -> is_open ls j = true -> in_range_of s.2 j
}.

(** A range added after all others, and one that continues the last. *)
Lemma ranges_push ls i rs a e :
  ranges_inv ls (i, rs) -> (a <= i < e)%nat -> (e <= length ls)%nat ->
  (forall r, last rs = Some r -> (r.2 < a)%nat) ->
  ranges_inv ls (e, rs ++ [(a, e)]).
Proof.
  intros [Hp Ho Hs Hl Hc] Ha He Hlast. cbn in *. split; cbn.
  - lia.
  - apply Forall_app. split; [done|]. apply Forall_singleton. unfold range_ok. cbn. lia.
  - by apply separated_snoc.
  - intros r. rewrite last_snoc. intros [= <-]. cbn. lia.
  - intros j Hj Hopen. rewrite covered_snoc. cbn. destruct (decide (j < i)%nat); [left; auto|].
    right. lia.
Qed.

Lemma ranges_extend ls i rs a b e :
  ranges_inv ls (i, rs ++ [(a, b)]) -> (i < e <= length ls)%nat ->
  ranges_inv ls (e, rs ++ [(a, Nat.max b e)]).
Proof.
  intros [Hp Ho Hs Hl Hc] He. cbn in *.
  assert (Hbi : (b <= i)%nat) by (apply (Hl (a, b)); by rewrite last_snoc).
  replace (Nat.max b e) with e by lia.
  apply Forall_app in Ho as [Ho1 Ho2]. rewrite Forall_singleton in Ho2. unfold range_ok in Ho2. cbn in Ho2.
  apply separated_snoc in Hs. split; cbn.
  - lia.
  - apply Forall_app. split; [done|]. apply Forall_singleton. unfold range_ok. cbn. lia.
  - by apply separated_snoc.
  - intros r. rewrite last_snoc. intros [= <-]. cbn. lia.
  - intros j Hj Hopen. rewrite covered_snoc. cbn. destruct (decide (j < i)%nat) as [Hji|Hji].
    + specialize (Hc j Hji Hopen). rewrite covered_snoc in Hc. cbn in Hc.
      destruct Hc as [Hc|Hc]; [by left|right; lia].
    + right. lia.
Qed.

Lemma ranges_body_inv ls s s' :
  ranges_inv ls s -> ranges_body ls s = inl s' ->
  ranges_inv ls s' /\ (length ls - s'.1 < length ls - s.1)%nat.
Proof.
  destruct s as [i rs]. intros HI. unfold ranges_body.
  case_bool_decide as Hlen; [done|]. destruct (is_open ls i) eqn:Eo; cbn [negb].
  2: { intros [= <-]. split; [|cbn; lia]. destruct HI as [Hp Ho Hs Hl Hc]. cbn in *.
       split; cbn; try done; [lia|intros r Hr; specialize (Hl r Hr); lia|].
       intros j Hj Hopen. destruct (decide (j = i)) as [->|]; [congruence|]. apply Hc; [lia|done]. }
  pose proof (closing_bounds (drop (S i) ls) (S i)) as Hcl. rewrite length_drop in Hcl.
  set (c := closing _ _) in *.
  set (e := Nat.min ((if bool_decide (c < length ls)%nat then S c else c) + CONFLICT_CONTEXT_LINES)
              (length ls)).
  assert (He : (i < e <= length ls)%nat).
  { unfold e, CONFLICT_CONTEXT_LINES. case_bool_decide; lia. }
  clearbody e. intros [= <-]. split; [|cbn; lia].
  destruct (last rs) as [[a b]|] eqn:El.
  - case_bool_decide as Hs.
    + apply last_Some in El as [rs' ->]. rewrite on_last_snoc. by apply (ranges_extend ls i).
    + apply (ranges_push ls i); [done|lia..|]. intros r. rewrite El. intros [= <-]. cbn. lia.
  - apply (ranges_push ls i); [done|lia..|]. rewrite El. done.
Qed.

(** The loop that cuts a conflicted file into ranges ends within one turn
    per line. The ranges are in order and within the file, none is empty and
    none touches the next; every line that opens a conflict is in one of them,
    and a file with lines has at least one range. *)
Theorem conflicted_ranges_show_every_marker ls :
  let rs := conflicted_context_ranges ls in
  is_Some (loop (ranges_body ls) (S (length ls)) (0%nat, [])) /\
  Forall (range_ok (length ls)) rs /\ separated rs /\
  (forall j, (j < length ls)%nat -> is_open ls j = true -> in_range_of rs j) /\
  (ls <> [] -> rs <> []).
Proof.
  cbn zeta.
  assert (HI : ranges_inv ls (0%nat, [])).
  { split; cbn; [lia|constructor|intros k r r' [=]|done|lia]. }
  destruct (loop_total (ranges_body ls) (fun s => (length ls - s.1)%nat) (ranges_inv ls)
    (S (length ls)) (0%nat, [])) as [r Hr]; [apply ranges_body_inv|done|cbn; lia|].
  unfold conflicted_context_ranges. rewrite Hr. split; [by exists r|].
  apply loop_loops in Hr.
  destruct (loops_invariant (ranges_body ls) (ranges_inv ls) (0%nat, []) r) as ([i rs] & HIr & Hend);
    [intros s s' Hs Hb; by destruct (ranges_body_inv ls s s')|done|done|].
  unfold ranges_body in Hend. case_bool_decide as Hlen; [|by destruct (is_open ls i)].
  injection Hend as ->. destruct HIr as [Hp Ho Hs Hl Hc]. cbn in *.
  destruct (bool_decide (r = [])) eqn:Er; cbn [andb].
  - apply bool_decide_eq_true in Er as ->. case_bool_decide as Hls; cbn [negb].
    + subst ls. split; [done|]. split; [done|]. split; [cbn; lia|done].
    + split; [|split; [|split]].
      * apply Forall_singleton. unfold range_ok. cbn. destruct ls; [done|cbn; lia].
      * intros k x y _ Hy. by destruct k.
      * intros j Hj _. exists (0%nat, length ls). split; [constructor|cbn; lia].
      * done.
  - apply bool_decide_eq_false in Er. split; [done|]. split; [done|]. split; [|done].
    intros j Hj. apply Hc. lia.
Qed.

(** * Parsed diffs *)

Definition file_lines (f : FileDiff) : list DiffLine := concat (lines <$> hunks f).
Definition all_lines (fs : list FileDiff) : list DiffLine := concat (file_lines <$> fs).

(** The events that carry a line, and what is shown of each. *)
Definition is_line (e : PrintLine) : bool :=
  (origin e =? 43) || (origin e =? 45) || (origin e =? 32).
Definition printed_line (e : PrintLine) : bytes * bytes * option Z * option Z :=
  ((if origin e =? 43 then str "add" else if origin e =? 45 then str "remove" else str "context"),
   from_utf8_lossy (line_content e), old_lineno e, new_lineno e).
Definition shown (l : DiffLine) : bytes * bytes * option Z * option Z :=
  (line_type l, content l, old_line_number l, new_line_number l).

Definition numbered (f : FileDiff) : Prop :=
  index <$> file_lines f = seqZ 0 (zlen (file_lines f)).

Lemma push_hunk_lines h f : file_lines (push_hunk h f) = file_lines f.
Proof. unfold file_lines, push_hunk. cbn. rewrite fmap_app, concat_app. cbn. by rewrite !app_nil_r. Qed.

Lemma push_line_lines l f : hunks f <> [] -> file_lines (push_line l f) = file_lines f ++ [l].
Proof.
  intros Hf. destruct (last (hunks f)) as [h|] eqn:El; [|by apply last_None in El].
  apply last_Some in El as [hs El]. unfold file_lines, push_line. cbn [hunks]. rewrite El, on_last_snoc.
  rewrite !fmap_app, !concat_app. cbn. by rewrite !app_nil_r, app_assoc.
Qed.

Lemma all_lines_snoc fs f : all_lines (fs ++ [f]) = all_lines fs ++ file_lines f.
Proof. unfold all_lines. rewrite fmap_app, concat_app. cbn. by rewrite app_nil_r. Qed.

Lemma seqZ_snoc n : 0 <= n -> seqZ 0 (n + 1) = seqZ 0 n ++ [n].
Proof. intros Hn. rewrite seqZ_app by lia. by rewrite Z.add_0_l. Qed.

Lemma numbered_push l f :
  hunks f <> [] -> numbered f -> index l = zlen (file_lines f) -> numbered (push_line l f).
Proof.
  unfold numbered. intros Hf Hn Hi. rewrite push_line_lines, fmap_app, Hn, zlen_app by done.
  change (zlen [l]) with 1. pose proof (zlen_nonneg (file_lines f)). rewrite (seqZ_snoc (zlen (file_lines f))) by done.
  cbn. by rewrite Hi.
Qed.

(** The state of the closure after [es]. *)
Record parsed (es : list PrintLine) (s : list FileDiff * Z) : Prop := {
  pa_shown : shown <$> all_lines s.1 = printed_line <$> filter (fun e => is_line e = true) es;
  pa_numbered : Forall numbered s.1;
  pa_index : s.2 = default 0 ((fun f => zlen (file_lines f)) <$> last s.1);
  pa_bound : s.2 <= zlen es
}.

(** The file an event belongs to is last, whether it was there before or not. *)
Lemma current_file es s e :
  parsed es s ->
  let p := from_utf8_lossy (default [] (new_file e)) in
  exists fs f,
    (if bool_decide (path <$> last s.1 = Some p) then s
     else (s.1 ++ [mkFileDiff p (from_utf8_lossy <$> old_file e) (status_name (delta_status e)) [] 0], 0))
      = (fs ++ [f], zlen (file_lines f)) /\
    shown <$> all_lines (fs ++ [f]) = printed_line <$> filter (fun e => is_line e = true) es /\
    Forall numbered fs /\ numbered f /\ zlen (file_lines f) <= zlen es.
Proof.
  intros [Hs Hn Hi Hb] p. case_bool_decide as Hp.
  - destruct s as [files idx]. cbn in *. destruct (last files) as [f|] eqn:El; [|done].
    apply last_Some in El as [fs ->]. cbn in Hi. subst idx. exists fs, f.
    apply Forall_app in Hn as [H1 H2]. rewrite Forall_singleton in H2. done.
  - exists s.1, (mkFileDiff p (from_utf8_lossy <$> old_file e) (status_name (delta_status e)) [] 0).
    split; [done|]. rewrite all_lines_snoc. cbn. rewrite app_nil_r.
    split; [done|]. split; [done|]. split; [done|]. apply zlen_nonneg.
Qed.

(** A state whose last file has new hunks, but no new line. *)
Lemma parsed_same es e fs f f' :
  is_line e = false -> file_lines f' = file_lines f ->
  shown <$> all_lines (fs ++ [f]) = printed_line <$> filter (fun e => is_line e = true) es ->
  Forall numbered fs -> numbered f -> zlen (file_lines f) <= zlen es ->
  parsed (es ++ [e]) (fs ++ [f'], zlen (file_lines f)).
Proof.
  intros He Hf Hs Hfs Hn Hb. split; cbn [fst snd].
  - rewrite all_lines_snoc, Hf, <- all_lines_snoc, Hs, filter_app, filter_cons, filter_nil, He.
    cbn. by rewrite app_nil_r.
  - apply Forall_app. split; [done|]. apply Forall_singleton. unfold numbered. by rewrite Hf.
  - rewrite last_snoc. cbn. by rewrite Hf.
  - rewrite zlen_app. pose proof (zlen_nonneg [e]). lia.
Qed.

Lemma parsed_push es e fs f l :
  is_line e = true -> shown l = printed_line e -> index l = zlen (file_lines f) -> hunks f <> [] ->
  shown <$> all_lines (fs ++ [f]) = printed_line <$> filter (fun e => is_line e = true) es ->
  Forall numbered fs -> numbered f -> zlen (file_lines f) <= zlen es -> zlen (es ++ [e]) < 2 ^ 32 ->
  parsed (es ++ [e]) (fs ++ [push_line l f], wrap 32 (zlen (file_lines f) + 1)).
Proof.
  intros He Hl Hi Hh Hs Hfs Hn Hb Hz. rewrite zlen_app, zlen_cons, zlen_nil in Hz.
  pose proof (zlen_nonneg (file_lines f)). rewrite wrap_small by lia. split; cbn [fst snd].
  - rewrite all_lines_snoc, push_line_lines, app_assoc, <- all_lines_snoc, fmap_app, Hs by done.
    rewrite filter_app, fmap_app, filter_cons, filter_nil, He. cbn. by rewrite Hl.
  - apply Forall_app. split; [done|]. apply Forall_singleton. by apply numbered_push.
  - rewrite last_snoc. change (zlen (file_lines f) + 1 = zlen (file_lines (push_line l f))).
    rewrite push_line_lines, zlen_app by done. zlen_lia.
  - rewrite zlen_app, zlen_cons, zlen_nil. lia.
Qed.

Lemma print_step_parsed es s e :
  (is_line e = true -> is_Some (hunk e)) -> zlen (es ++ [e]) < 2 ^ 32 ->
  parsed es s -> parsed (es ++ [e]) (print_step s e).
Proof.
  intros Hh Hz Hs. destruct (current_file es s e Hs) as (fs & f & Hc & Hsh & Hfs & Hf & Hb).
  cbn zeta in Hc. unfold print_step. rewrite Hc. fold (is_line e).
  destruct (Z.eqb_spec (origin e) 72) as [E|E].
  - assert (Hl : is_line e = false) by (unfold is_line; rewrite E; done).
    destruct (hunk e); [rewrite on_last_snoc|]; apply (parsed_same es e fs f); auto using push_hunk_lines.
  - destruct (is_line e) eqn:El; [|by apply (parsed_same es e fs f)].
    destruct (Hh eq_refl) as [h ->]. rewrite on_last_snoc, last_snoc.
    set (f' := if need_hunk h f then push_hunk h f else f).
    assert (Hl : file_lines f' = file_lines f) by (unfold f'; destruct (need_hunk h f); [apply push_hunk_lines|done]).
    assert (Hne : hunks f' <> []).
    { assert (Hp : hunks (push_hunk h f) <> []) by (cbn; by destruct (hunks f)).
      unfold f'. destruct (need_hunk h f) eqn:En; [done|]. intros H0.
      unfold need_hunk in En. by rewrite H0 in En. }
    assert (Hn : numbered f') by (unfold numbered; by rewrite Hl).
    destruct (hunks f') as [|h0 hs] eqn:Eh; [done|]. rewrite on_last_snoc, <- Hl.
    apply parsed_push; rewrite ?Hl, ?Eh; try done. by rewrite all_lines_snoc, Hl, <- all_lines_snoc.
Qed.

(** From what git prints, where a line comes with its hunk, parsing builds
    files whose lines, taken in order over all files and hunks, are the printed
    lines, each with its kind, text and line numbers; none is lost, none is
    added and none moves. Within a file the line indices are 0, 1, 2, and so on
    without a gap, so that an index a user selects names one line. *)
Theorem parse_diff_keeps_lines printed :
  Forall (fun e => is_line e = true -> is_Some (hunk e)) printed -> zlen printed < 2 ^ 32 ->
  exists fs,
    parse_diff printed None = Ok fs /\
    shown <$> all_lines fs = printed_line <$> filter (fun e => is_line e = true) printed /\
    Forall (fun f => index <$> file_lines f = seqZ 0 (zlen (file_lines f))) fs.
Proof.
  intros Hh Hz. exists (foldl print_step ([], 0) printed).1. split; [done|].
  assert (H : parsed printed (foldl print_step ([], 0) printed)); [|by destruct H].
  induction printed as [|e es IH] using rev_ind; [by split|].
  rewrite foldl_app. apply Forall_app in Hh as [Hh He]. rewrite Forall_singleton in He.
  apply print_step_parsed; [done|done|]. apply IH; [done|].
  rewrite zlen_app in Hz. pose proof (zlen_nonneg [e]). lia.
Qed.

(** * Accepted paths *)

(** A piece of a path that names an entry. *)
Definition names_entry (q : bytes) : bool :=
  negb (bytes_eqb q [] || bytes_eqb q (str ".") || bytes_eqb q (str "..")).

Lemma check_piece first q cs b :
  check_components (piece_component first q ++ cs) b =
  if bytes_eqb q (str "..") then None else check_components cs (b || names_entry q).
Proof.
  unfold piece_component, names_entry, bytes_eqb.
  destruct (decide (q = [])) as [->|H1]; [by rewrite orb_false_r|].
  rewrite (bool_decide_eq_false_2 (q = [])) by done.
  destruct (decide (q = str ".")) as [->|H2]; [by destruct first, b|].
  rewrite (bool_decide_eq_false_2 (q = str ".")) by done.
  case_bool_decide; [done|]. by destruct b.
Qed.

Lemma check_pieces ps b :
  check_components (concat (piece_component false <$> ps)) b =
  if existsb (fun q => bytes_eqb q (str "..")) ps then None else Some (b || existsb names_entry ps).
Proof.
  revert b. induction ps as [|q ps IH]; intros b; cbn [concat fmap list_fmap existsb check_components].
  - by rewrite orb_false_r.
  - rewrite check_piece, IH. destruct (bytes_eqb q (str "..")); cbn [orb]; [done|].
    by rewrite orb_assoc.
Qed.

Lemma split_on_head sep b s :
  split_on sep (b :: s) =
    if b =? sep then [] :: split_on sep s
    else match split_on sep s with
         | p :: ps => (b :: p) :: ps
         | [] => [[b]]
         end.
Proof. done. Qed.

Lemma check_components_spec p :
  head p <> Some 47 ->
  check_components (components p) false =
  if existsb (fun q => bytes_eqb q (str "..")) (split_on 47 p) then None
  else Some (existsb names_entry (split_on 47 p)).
Proof.
  intros Hp. unfold components. destruct p as [|b p]; [done|].
  pose proof (split_on_head 47 b p) as Hs. destruct (Z.eqb_spec b 47) as [->|Hb]; [done|].
  destruct (split_on 47 (b :: p)) as [|[|x q] ps]; [done|by destruct (split_on 47 p)|].
  rewrite check_piece, check_pieces. cbn [existsb].
  by destruct (bytes_eqb (x :: q) (str "..")).
Qed.

(** The paths a caller may name are exactly the relative ones none of
    whose parts is "..", and at least one of whose parts names an entry: joined
    to a work tree they stay below it, whatever separators and dots they hold. *)
Theorem accepted_paths_stay_inside p :
  validate_repo_relative_path p = Ok tt <->
  head p <> Some 47 /\ ((str "..") ∉ split_on 47 p) /\
  exists q, q ∈ split_on 47 p /\ names_entry q = true.
Proof.
  assert (Hex : forall f l, existsb f l = true <-> exists q : bytes, q ∈ l /\ f q = true).
  { intros f l. rewrite existsb_exists. by setoid_rewrite list_elem_of_In. }
  unfold validate_repo_relative_path. destruct (decide (p = [])) as [->|Hne].
  { split; [done|]. intros (_ & _ & q & Hq & Hn). apply list_elem_of_singleton in Hq as ->. done. }
  unfold bytes_eqb at 1. rewrite bool_decide_eq_false_2 by done.
  destruct (decide (head p = Some 47)) as [Hh|Hh].
  { split; [|tauto]. destruct p as [|b p]; [done|]. injection Hh as ->.
    assert (components (47 :: p) = RootDir :: concat (piece_component false <$> split_on 47 p)) as -> by done.
    done. }
  rewrite check_components_spec by done. rewrite <- (Hex names_entry).
  destruct (existsb (fun q => bytes_eqb q (str "..")) (split_on 47 p)) eqn:Ed.
  - apply Hex in Ed as (q & Hq & Ed). unfold bytes_eqb in Ed. apply bool_decide_eq_true in Ed as ->.
    split; [done|]. tauto.
  - assert ((str "..") ∉ split_on 47 p).
    { intros Hin. assert (existsb (fun q => bytes_eqb q (str "..")) (split_on 47 p) = true) as He;
        [|congruence]. apply Hex. exists (str ".."). split; [done|]. by apply bool_decide_eq_true. }
    destruct (existsb names_entry (split_on 47 p)).
    + split; [by split|done].
    + split; [done|]. by intros (_ & _ & ?).
Qed.

(** * Examples *)

Module GitDiffExamples.

(** A line "a" replaced by a line "b". *)
Definition removed : DiffLine := mkDiffLine (str "remove") [97; LF] (Some 1) None 0.
Definition added : DiffLine := mkDiffLine (str "add") [98; LF] None (Some 1) 1.
Definition change : DiffHunk := mkDiffHunk (str "@@ -1 +1 @@") [removed; added] 1 1 1 1.


(** What is unstaged must be found in the index, which holds the new side, [b].
    With only the added line selected the reversed patch looks for [a] and [b]:
    the removed line that was not selected has become context. *)
Example unstaging_one_line_misses_the_index :
  let d := mkFileDiff (str "f") None (str "modified") [change] 0 in
  exists patch body,
    unstage_lines_impl (Ok d) (str "f") 0 [1] = Ok (patch, ["--cached"; "--reverse"]%string) /\
    patch = file_headers (str "f") None ++ hunk_header 1 1 1 2 ++ [LF] ++ concat body /\
    replaced_by body = [[97; LF]; [98; LF]] /\ new_side (lines change) = [[98; LF]].
Proof.
  cbn zeta. eexists _, [[32; 97; LF]; [43; 98; LF]].
  split; [vm_compute; reflexivity|]. split; [vm_compute; reflexivity|]. split; reflexivity.
Qed.

(** A last line that no line feed ends gives the same patch as one that is ended. *)
Example patch_forgets_missing_newline :
  let l c := mkDiffLine (str "add") c None (Some 1) 0 in
  let h c := mkDiffHunk (str "@@ -0,0 +1 @@") [l c] 0 0 1 1 in
  build_hunk_patch (str "f") None (h [97]) = build_hunk_patch (str "f") None (h [97; LF]) /\
  build_selective_patch (str "f") None (h [97]) {[0]} =
    build_selective_patch (str "f") None (h [97; LF]) {[0]}.
Proof. split; vm_compute; reflexivity. Qed.

(** A conflict that opens right below another: the opening marker is among the
    three lines shown after the first block, and the search goes on below them,
    so that the rest of the second block, its closing marker included, is not
    shown although it fits the file. *)
Example second_conflict_is_cut :
  let ls := str <$> ["<<<<<<< ours"; "a"; "======="; "b"; ">>>>>>> theirs";
                     "<<<<<<< ours"; "c"; "d"; "e"; "======="; "f"; ">>>>>>> theirs"]%string in
  conflicted_context_ranges ls = [(0%nat, 8%nat)] /\ is_open ls 5 = true /\
  starts_with (str ">>>>>>>") (nth 11 ls []) = true.
Proof. split; [|split]; vm_compute; reflexivity. Qed.

(** Two printed lines of one hunk in one file. *)
Definition printed : list PrintLine :=
  let h := Some (mkHunkInfo (str "@@ -1 +1 @@") 1 1 1 1) in
  let e o c := mkPrintLine (Some (str "f")) (Some (str "f")) Modified h o c None None in
  [e 70 []; e 72 (str "@@ -1 +1 @@"); e 45 [97; LF]; e 43 [98; LF]].

Lemma parse_diff_keeps_lines_witness :
  exists fs, parse_diff printed None = Ok fs /\
    shown <$> all_lines fs =
      [(str "remove", [97; LF], None, None); (str "add", [98; LF], None, None)] /\
    Forall (fun f => index <$> file_lines f = seqZ 0 (zlen (file_lines f))) fs.
Proof.
  apply (parse_diff_keeps_lines printed); [|reflexivity].
  repeat constructor; intros _; eexists; reflexivity.
Defined.

(** A line whose index is selected is staged, through the whole operation. *)
Example stage_second_line :
  (let? fs := parse_diff printed None in
   match fs with
   | [f] => stage_lines_impl (Ok f) (str "f") 0 [1]
   | _ => Err []
   end) = Ok (concat (terminated <$> (str <$>
      ["--- a/f"; "+++ b/f"; "@@ -1,1 +1,2 @@"; " a"; "+b"]%string)), ["--cached"%string]).
Proof. vm_compute. reflexivity. Qed.

Example traversal_is_refused :
  validate_repo_relative_path (str "a/../../etc") =
    Err (str "Invalid repo-relative path: a/../../etc") /\
  validate_repo_relative_path (str "./src//lib.rs") = Ok tt.
Proof. split; vm_compute; reflexivity. Qed.

End GitDiffExamples.
