(* ===== verification/GitFiles.v ===== *)
(** What the git panel asks of a work tree and does to it (grove-core/src/
    git_diff.rs): its status and log, the diff of a file with the cache of file
    contents, lines of context, staging and discarding files, and the merge of
    the default branch. The repository as libgit2 shows it is a record of
    answers; git and the file system are the world of [World]. *)

From S2P Require Import Prelude Utf8 Text Paths Config World Source GitDiff.

#[local] Open Scope rust_scope.
#[local] Open Scope world_scope.

Definition FILE_CONTENT_CACHE_LIMIT : nat := 256.

(** * Data *)

Record FileStatus := mkFileStatus { fs_path : bytes; fs_status : bytes; fs_staged : bool }.
Record CommitInfo := mkCommitInfo { ci_hash : bytes; ci_short_hash : bytes; ci_message : bytes; ci_author : bytes; ci_date : bytes }.
Record BehindInfo := mkBehindInfo { behind : Z; bi_default_branch : bytes }.

(** The flags of libgit2's status. *)
Inductive StatusFlag :=
| CONFLICTED | INDEX_NEW | INDEX_MODIFIED | INDEX_DELETED | INDEX_RENAMED | INDEX_TYPECHANGE
| WT_NEW | WT_MODIFIED | WT_DELETED | WT_RENAMED | WT_TYPECHANGE | IGNORED.
#[export] Instance StatusFlag_eq_dec : EqDecision StatusFlag.
Proof. solve_decision. Defined.

Definition Oid : Type := bytes.

(** A diff: how many deltas it has, what printing it reports, and whether printing
    failed. *)
Record GitDiffOut := mkDiffOut { deltas : Z; printed : list PrintLine; print_error : option bytes }.

Record Commit := mkCommit {
  c_message : option bytes;               (* if it is UTF-8 *)
  c_author : option bytes;
  c_seconds : Z;
  c_tree : bytes -> option Oid;           (* [get_path] of its tree *)
  c_parent : option (bytes -> option Oid);
  c_diff : list bytes -> result GitDiffOut bytes    (* to its parent, of these pathspecs *)
}.

(** What an open repository answers. *)
Record GitRepo := mkGitRepo {
  r_status_file : bytes -> option (list StatusFlag);
  r_statuses : bool -> result (list (option bytes * list StatusFlag)) bytes;
    (* untracked files, directories recursed; the argument: renames from HEAD to the index *)
  r_unstaged : option bytes -> result GitDiffOut bytes;     (* index to work tree, of a pathspec *)
  r_staged : bytes -> result GitDiffOut bytes;              (* HEAD, if any, to index *)
  r_head_tree : option (bytes -> option Oid);
  r_head : option (option Oid);                             (* HEAD, and what it points at *)
  r_revwalk : Oid -> result (list (result Oid bytes)) bytes;   (* newest first *)
  r_index : result (bytes -> option Oid) bytes;
  r_find_blob : Oid -> result bytes bytes;
  r_find_commit : bytes -> result Commit bytes              (* by the text of its id *)
}.

(** * Status and log *)

Definition flag (st : list StatusFlag) (f : StatusFlag) : bool := bool_decide (f ∈ st).
Definition intersects (st fs : list StatusFlag) : bool := existsb (flag st) fs.

Definition index_status (st : list StatusFlag) : bytes :=
  if flag st INDEX_NEW then str "added" else if flag st INDEX_DELETED then str "deleted"
  else if flag st INDEX_RENAMED then str "renamed" else str "modified".
Definition worktree_status (st : list StatusFlag) : bytes :=
  if flag st WT_NEW then str "untracked" else if flag st WT_DELETED then str "deleted"
  else if flag st WT_RENAMED then str "renamed" else str "modified".

Definition INDEX_FLAGS : list StatusFlag := [INDEX_NEW; INDEX_MODIFIED; INDEX_DELETED; INDEX_RENAMED].
Definition WORKTREE_FLAGS : list StatusFlag := [WT_NEW; WT_MODIFIED; WT_DELETED; WT_RENAMED].

Definition entry_rows (e : option bytes * list StatusFlag) : list FileStatus :=
  let path := default [] e.1 in
  if flag e.2 CONFLICTED then [mkFileStatus path STATUS_CONFLICTED false]
  else
    (if intersects e.2 INDEX_FLAGS then [mkFileStatus path (index_status e.2) true] else []) ++
    (if intersects e.2 WORKTREE_FLAGS then [mkFileStatus path (worktree_status e.2) false] else []).

Definition get_status_impl (repo : result GitRepo bytes) : result (list FileStatus) bytes :=
  let? r := repo in
  let? entries := r_statuses r true in
  Ok (concat (entry_rows <$> entries)).

Definition trim_end (s : bytes) : bytes := rev (strip_while ws_last (length s) (rev s)).


Definition commit_info (oid : Oid) (c : Commit) : CommitInfo :=
  mkCommitInfo oid (take (Nat.min 7 (length oid)) oid) (trim_end (default [] (c_message c)))
    (default (str "Unknown") (c_author c)) (show_int (c_seconds c)).

Fixpoint log_commits (r : GitRepo) (walk : list (result Oid bytes)) : result (list CommitInfo) bytes :=
  match walk with
  | [] => Ok []
  | o :: walk =>
      let? oid := o in
      let? c := r_find_commit r oid in
      let? cs := log_commits r walk in
      Ok (commit_info oid c :: cs)
  end.

(** The walk is asked for one id more than the limit, which is not looked at. *)
Definition get_commits_impl (repo : result GitRepo bytes) (limit : Z) : result (list CommitInfo) bytes :=
  let? r := repo in
  match r_head r with
  | None => Ok []
  | Some None => Err (str "HEAD has no target")
  | Some (Some oid) =>
      let? walk := r_revwalk r oid in
      log_commits r (take (Z.to_nat limit) walk)
  end.

(** * Which files *)

(** The loop over the listed entries of a path that has no status of its own. *)
Fixpoint all_new (normalized : bytes) (entries : list (option bytes * list StatusFlag)) (found : bool) : bool :=
  match entries with
  | [] => found
  | (None, _) :: es => all_new normalized es found
  | (Some p, st) :: es =>
      if bytes_eqb p normalized || starts_with (normalized ++ str "/") p
      then if flag st WT_NEW then all_new normalized es true else false
      else all_new normalized es found
  end.

Definition is_untracked (r : GitRepo) (path : bytes) : bool :=
  match r_status_file r path with
  | Some st => flag st WT_NEW
  | None =>
      match r_statuses r false with
      | Ok entries => all_new (trim_end_matches (str "/") path) entries false
      | Err _ => false
      end
  end.

Definition is_conflicted (r : GitRepo) (path : bytes) : bool :=
  match r_status_file r path with Some st => flag st CONFLICTED | None => false end.

Definition first_diff (what : string) (file_path : bytes) (d : result GitDiffOut bytes) : result FileDiff bytes :=
  let? d := d in
  let? fs := parse_diff (printed d) (print_error d) in
  match fs with f :: _ => Ok f | [] => Err (str what ++ file_path) end.
Definition get_unstaged_diff (repo : result GitRepo bytes) (file_path : bytes) : result FileDiff bytes :=
  let? r := repo in first_diff "No unstaged diff for " file_path (r_unstaged r (Some file_path)).
Definition get_staged_diff (repo : result GitRepo bytes) (file_path : bytes) : result FileDiff bytes :=
  let? r := repo in first_diff "No staged diff for " file_path (r_staged r file_path).

(** * Contents and their cache *)

Inductive FileContentSource :=
| Missing
| Blob (oid : Oid)
| Workdir (full_path : bytes) (modified_unix_nanos len : Z).
#[export] Instance FileContentSource_eq_dec : EqDecision FileContentSource.
Proof. solve_decision. Defined.
#[export] Instance FileContentSource_countable : Countable FileContentSource.
Proof.
  refine (inj_countable'
    (fun s => match s with Missing => inl None | Blob o => inl (Some o) | Workdir p m l => inr (p, m, l) end)
    (fun x : option Oid + (bytes * Z * Z) => match x with inl None => Missing | inl (Some o) => Blob o | inr (p, m, l) => Workdir p m l end) _).
  by intros [].
Defined.

Record CachedFileContent := mkCached { line_count : Z; cached_lines : option (list bytes) }.
Abbreviation Cache := (gmap FileContentSource CachedFileContent).

(** The files of the work tree, as a call finds them. *)
Record WorkFiles := mkWorkFiles {
  wf_exists : bytes -> bool;
  wf_metadata : bytes -> result (option Z * Z) bytes;   (* nanoseconds since the epoch, if known; length *)
  wf_read : bytes -> result bytes bytes
}.

Definition read_source_bytes (r : GitRepo) (fs : WorkFiles) (source : FileContentSource) : result bytes bytes :=
  match source with
  | Missing => Ok []
  | Blob oid => r_find_blob r oid
  | Workdir full_path _ _ => wf_read fs full_path
  end.

Definition cache_file_content (source : FileContentSource) (entry : CachedFileContent) (cache : Cache) : Cache :=
  let cache := if (FILE_CONTENT_CACHE_LIMIT <=? size cache)%nat && negb (bool_decide (is_Some (cache !! source))) then ∅ else cache in
  <[source := entry]> cache.

(** [read]: [read_source_bytes] of a repository and its files. *)
Definition count_lines_for_source (read : FileContentSource -> result bytes bytes) (source : FileContentSource) :
    State Cache (result Z bytes) := fun cache =>
  match cache !! source with
  | Some c => (Ok (line_count c), cache)
  | None =>
      match read source with
      | Err e => (Err e, cache)
      | Ok bs => (Ok (count_lines bs), cache_file_content source (mkCached (count_lines bs) None) cache)
      end
  end.

Definition slice_lines_for_source (read : FileContentSource -> result bytes bytes) (source : FileContentSource)
    (start_line line_count_ : Z) : State Cache (result (list bytes) bytes) := fun cache =>
  match cache !! source ≫= cached_lines with
  | Some ls => (Ok (slice_lines ls start_line line_count_), cache)
  | None =>
      match read source with
      | Err e => (Err e, cache)
      | Ok bs =>
          let ls := decode_lines bs in
          (Ok (slice_lines ls start_line line_count_),
           cache_file_content source (mkCached (wrap 32 (zlen ls)) (Some ls)) cache)
      end
  end.

(** * Which content is shown *)

Definition read_tree_source (r : GitRepo) (tree : option (bytes -> option Oid)) (path : bytes) : result FileContentSource bytes :=
  match tree with
  | None => Ok Missing
  | Some t => match t path with
              | None => Ok Missing
              | Some oid => let? _ := r_find_blob r oid in Ok (Blob oid)
              end
  end.
Definition read_index_source (r : GitRepo) (path : bytes) : result FileContentSource bytes :=
  let? index := r_index r in
  match index path with
  | None => Ok Missing
  | Some oid => let? _ := r_find_blob r oid in Ok (Blob oid)
  end.
Definition read_workdir_source (fs : WorkFiles) (worktree_path path : bytes) : result FileContentSource bytes :=
  let full_path := path_join worktree_path path in
  if negb (wf_exists fs full_path) then Ok Missing
  else
    let? meta := wf_metadata fs full_path in
    Ok (Workdir (from_utf8_lossy full_path) (default 0 meta.1) meta.2).

Definition or_else (s : FileContentSource) (k : result FileContentSource bytes) : result FileContentSource bytes :=
  match s with Missing => k | s => Ok s end.

Definition get_working_display_source (r : GitRepo) (fs : WorkFiles) (worktree_path path : bytes) (want_staged : bool) :
    result FileContentSource bytes :=
  if want_staged then
    let? index := read_index_source r path in
    or_else index (read_tree_source r (r_head_tree r) path)
  else
    let? workdir := read_workdir_source fs worktree_path path in
    or_else workdir (read_index_source r path).

Definition get_commit_display_source_from_paths (r : GitRepo) (tree : bytes -> option Oid) (parent : option (bytes -> option Oid))
    (path : bytes) (old : option bytes) : result FileContentSource bytes :=
  let? new_source := read_tree_source r (Some tree) path in
  or_else new_source (read_tree_source r parent (default path old)).
Definition get_commit_display_source (r : GitRepo) (tree : bytes -> option Oid) (parent : option (bytes -> option Oid))
    (f : FileDiff) : result FileContentSource bytes :=
  get_commit_display_source_from_paths r tree parent (GitDiff.path f) (old_path f).

(** * Diffs *)

Definition set_line_count (n : Z) (f : FileDiff) : FileDiff := mkFileDiff (GitDiff.path f) (old_path f) (status f) (hunks f) n.

(** The shown length of a diff, for the statuses that have one. *)
Definition with_line_count (read : FileContentSource -> result bytes bytes) (source : FileDiff -> result FileContentSource bytes)
    (f : FileDiff) : State Cache (result FileDiff bytes) :=
  if should_track_display_line_count (status f) then
    let! s := ret (source f) in
    let! n := count_lines_for_source read s in
    ret (Ok (set_line_count n f))
  else ret (Ok f).
Fixpoint with_line_counts (read : FileContentSource -> result bytes bytes) (source : FileDiff -> result FileContentSource bytes)
    (fs : list FileDiff) : State Cache (result (list FileDiff) bytes) :=
  match fs with
  | [] => ret (Ok [])
  | f :: fs =>
      let! f := with_line_count read source f in
      let! fs := with_line_counts read source fs in
      ret (Ok (f :: fs))
  end.

Definition strip_staged (path : bytes) : bytes * bool :=
  match strip_prefix (str "staged:") path with Some p => (p, true) | None => (path, false) end.

Section worktree.
Context (fs : WorkFiles) (worktree_path : bytes).

Definition conflicted_working_diff (r : GitRepo) (path : bytes) : State Cache (result FileDiff bytes) :=
  let! _ := ret (validate_repo_relative_path path) in
  let! source := ret (read_workdir_source fs worktree_path path) in
  let! ls := slice_lines_for_source (read_source_bytes r fs) source 1 u32_max in
  ret (Ok (get_conflicted_working_diff path ls)).

Definition no_changes (path : bytes) : FileDiff := mkFileDiff path None (str "modified") [] 0.

Definition counted_first (r : GitRepo) (path : bytes) (want_staged : bool) (d : GitDiffOut) : State Cache (result FileDiff bytes) :=
  let! files := ret (parse_diff (printed d) (print_error d)) in
  let! files := with_line_counts (read_source_bytes r fs)
    (fun f => get_working_display_source r fs worktree_path (GitDiff.path f) want_staged) files in
  ret (Ok (default (no_changes path) (head files))).

Definition get_working_diff_impl (repo : result GitRepo bytes) (path : bytes) : State Cache (result FileDiff bytes) :=
  let (actual_path, want_staged) := strip_staged path in
  let! r := ret repo in
  if negb want_staged && is_conflicted r actual_path then conflicted_working_diff r actual_path
  else
    let! d := ret (if want_staged then r_staged r actual_path else r_unstaged r (Some actual_path)) in
    if negb want_staged && (deltas d =? 0) && is_untracked r actual_path then
      let! full := ret (r_unstaged r None) in
      let! files := ret (parse_diff (printed full) (print_error full)) in
      match List.find (fun f => bytes_eqb (GitDiff.path f) actual_path) files with
      | Some f => with_line_count (read_source_bytes r fs) (fun f => get_working_display_source r fs worktree_path (GitDiff.path f) want_staged) f
      | None => counted_first r actual_path want_staged d
      end
    else counted_first r actual_path want_staged d.

Definition get_commit_diff_impl (repo : result GitRepo bytes) (commit_hash : bytes) : State Cache (result (list FileDiff) bytes) :=
  let! r := ret repo in
  let! c := ret (r_find_commit r commit_hash) in
  let! d := ret (c_diff c []) in
  let! files := ret (parse_diff (printed d) (print_error d)) in
  with_line_counts (read_source_bytes r fs) (get_commit_display_source r (c_tree c) (c_parent c)) files.

Definition ensure_working_diff_path_allowed (repo : result GitRepo bytes) (path : bytes) (want_staged : bool) : result unit bytes :=
  let check := let? d := (if want_staged then get_staged_diff repo path else get_unstaged_diff repo path) in
               if bytes_eqb (GitDiff.path d) path then Ok tt else Err (str "Path is not part of the requested diff: " ++ path) in
  if want_staged then check else let? r := repo in if is_conflicted r path then Ok tt else check.

Definition ensure_commit_diff_path_allowed (c : Commit) (path : bytes) (old : option bytes) : result unit bytes :=
  let specs := path :: match old with Some p => if bytes_eqb p path then [] else [p] | None => [] end in
  let? d := c_diff c specs in
  let? files := parse_diff (printed d) (print_error d) in
  if existsb (fun f => bytes_eqb (GitDiff.path f) path &&
                match old with None => true | Some p => bool_decide (old_path f = Some p) end) files
  then Ok tt else Err (str "Path is not part of commit diff: " ++ path).

Definition get_working_diff_context_impl (repo : result GitRepo bytes) (path : bytes) (start_line line_count_ : Z) :
    State Cache (result (list bytes) bytes) :=
  let (actual_path, want_staged) := strip_staged path in
  let! _ := ret (validate_repo_relative_path actual_path) in
  let! r := ret repo in
  let! _ := ret (ensure_working_diff_path_allowed repo actual_path want_staged) in
  let! source := ret (get_working_display_source r fs worktree_path actual_path want_staged) in
  slice_lines_for_source (read_source_bytes r fs) source start_line line_count_.

Definition get_commit_diff_context_impl (repo : result GitRepo bytes) (commit_hash path : bytes) (old : option bytes)
    (start_line line_count_ : Z) : State Cache (result (list bytes) bytes) :=
  let! _ := ret (validate_repo_relative_path path) in
  let! _ := ret (match old with Some p => validate_repo_relative_path p | None => Ok tt end) in
  let! r := ret repo in
  let! c := ret (r_find_commit r commit_hash) in
  let! _ := ret (ensure_commit_diff_path_allowed c path old) in
  let! source := ret (get_commit_display_source_from_paths r (c_tree c) (c_parent c) path old) in
  slice_lines_for_source (read_source_bytes r fs) source start_line line_count_.
End worktree.

(** * Staging, discarding and merging *)

Section commands.
Context (w : World).

(** The rest of the world: the repository, and what [remove_path] meets. *)
Context (open_error : list event -> bytes -> option bytes) (repo_at : list event -> bytes -> GitRepo)
  (symlink_is_dir : list event -> bytes -> result bool bytes)    (* [symlink_metadata] *)
  (remove_error : list event -> bytes -> option bytes).

Definition open_repo (l : list event) (worktree_path : bytes) : result GitRepo bytes :=
  match open_error l worktree_path with Some e => Err e | None => Ok (repo_at l worktree_path) end.

Definition run_git_here (worktree_path : bytes) (args : list bytes) : M (result unit bytes) :=
  let* out := git_raw w worktree_path args in
  ret (match out with
       | None => Err (str "Failed to run git")
       | Some (true, _, _) => Ok tt
       | Some (false, _, err) => Err (str "git " ++ join (str " ") args ++ str " failed: " ++ from_utf8_lossy err)
       end).

Definition run_git_with_paths (worktree_path : bytes) (prefix_args file_paths : list bytes) : M (result unit bytes) :=
  match file_paths with
  | [] => ret (Ok tt)
  | _ => run_git_here worktree_path (prefix_args ++ [str "--"] ++ file_paths)
  end.

(** A directory with all it holds, or the entry itself. *)
Definition remove_path (path : bytes) : M (result unit bytes) :=
  let! dir := ask (fun l => symlink_is_dir l path) in
  let* e := ask (fun l => remove_error l path) in
  let* _ := emit (if (dir : bool) then RemoveDirAll path else RemoveFile path) in
  ret (match e with None => Ok tt | Some e => Err e end).

Definition stage_files_impl (worktree_path : bytes) (file_paths : list bytes) : M (result unit bytes) :=
  run_git_with_paths worktree_path [str "add"] file_paths.
Definition stage_file_impl (worktree_path file_path : bytes) := stage_files_impl worktree_path [file_path].

(** Without a first commit there is no HEAD to reset to. *)
Definition unstage_files_impl (worktree_path : bytes) (file_paths : list bytes) : M (result unit bytes) :=
  let* r := run_git_with_paths worktree_path [str "reset"; str "HEAD"] file_paths in
  if is_ok r then ret r else run_git_with_paths worktree_path [str "rm"; str "--cached"] file_paths.
Definition unstage_file_impl (worktree_path file_path : bytes) := unstage_files_impl worktree_path [file_path].

Definition discard_file_impl (worktree_path file_path : bytes) : M (result unit bytes) :=
  let* r := run_git_here worktree_path [str "checkout"; str "--"; file_path] in
  if is_ok r then ret r
  else
    let full_path := path_join worktree_path file_path in
    let* there := ask (fun l => path_exists w l full_path) in
    if (there : bool) then remove_path full_path else ret r.
Fixpoint discard_files_impl (worktree_path : bytes) (file_paths : list bytes) : M (result unit bytes) :=
  match file_paths with
  | [] => ret (Ok tt)
  | p :: ps => let! _ := discard_file_impl worktree_path p in discard_files_impl worktree_path ps
  end.

(** The repository is opened once and asked before each removal. *)
Fixpoint remove_untracked_loop (worktree_path : bytes) (file_paths : list bytes) : M (result unit bytes) :=
  match file_paths with
  | [] => ret (Ok tt)
  | p :: ps =>
      let* untracked := ask (fun l => is_untracked (repo_at l worktree_path) p) in
      if negb untracked then ret (Err (str "'" ++ p ++ str "' is not an untracked file"))
      else
        let full_path := path_join worktree_path p in
        let* there := ask (fun l => path_exists w l full_path) in
        let! _ := (if (there : bool) then remove_path full_path else ret (Ok tt)) in
        remove_untracked_loop worktree_path ps
  end.
Definition remove_untracked_files_impl (worktree_path : bytes) (file_paths : list bytes) : M (result unit bytes) :=
  let! _ := ask (fun l => open_repo l worktree_path) in
  remove_untracked_loop worktree_path file_paths.

(** A patch goes to [git apply] on its standard input. *)
Inductive Applied := SpawnFailed | PipeFailed (e : bytes) | Exited (success : bool) (stderr : bytes).
Context (git_apply : list event -> bytes -> list bytes -> bytes -> Applied).
Definition apply_patch (worktree_path patch : bytes) (extra_args : list bytes) : M (result unit bytes) :=
  let* a := ask (fun l => git_apply l worktree_path extra_args patch) in
  let* _ := emit (Git worktree_path (str "apply" :: extra_args)) in
  ret (match a with
       | SpawnFailed => Err (str "Failed to spawn git apply")
       | PipeFailed e => Err e
       | Exited true _ => Ok tt
       | Exited false err => Err (str "git apply failed: " ++ from_utf8_lossy err)
       end).

(** The six operations on hunks and lines: the diff, the patch of [GitDiff], and
    its application. *)
Definition apply_op (worktree_path : bytes) (op : result (bytes * list string) bytes) : M (result unit bytes) :=
  let! p := ret op in apply_patch worktree_path p.1 (str <$> p.2).
Definition stage_hunk (worktree_path file_path : bytes) (hunk_index : Z) : M (result unit bytes) :=
  let* d := ask (fun l => get_unstaged_diff (open_repo l worktree_path) file_path) in
  apply_op worktree_path (stage_hunk_impl d file_path hunk_index).
Definition unstage_hunk (worktree_path file_path : bytes) (hunk_index : Z) : M (result unit bytes) :=
  let* d := ask (fun l => get_staged_diff (open_repo l worktree_path) file_path) in
  apply_op worktree_path (unstage_hunk_impl d file_path hunk_index).
Definition discard_hunk (worktree_path file_path : bytes) (hunk_index : Z) : M (result unit bytes) :=
  let* d := ask (fun l => get_unstaged_diff (open_repo l worktree_path) file_path) in
  apply_op worktree_path (discard_hunk_impl d file_path hunk_index).
Definition stage_lines (worktree_path file_path : bytes) (hunk_index : Z) (line_indices : list Z) : M (result unit bytes) :=
  let* d := ask (fun l => get_unstaged_diff (open_repo l worktree_path) file_path) in
  apply_op worktree_path (stage_lines_impl d file_path hunk_index line_indices).
Definition unstage_lines (worktree_path file_path : bytes) (hunk_index : Z) (line_indices : list Z) : M (result unit bytes) :=
  let* d := ask (fun l => get_staged_diff (open_repo l worktree_path) file_path) in
  apply_op worktree_path (unstage_lines_impl d file_path hunk_index line_indices).
Definition discard_lines (worktree_path file_path : bytes) (hunk_index : Z) (line_indices : list Z) : M (result unit bytes) :=
  let* d := ask (fun l => get_unstaged_diff (open_repo l worktree_path) file_path) in
  apply_op worktree_path (discard_lines_impl d file_path hunk_index line_indices).

Definition get_behind_count_impl (worktree_path : bytes) : M (result BehindInfo bytes) :=
  let! default_branch := remote_default_branch w worktree_path in
  let! count := run_git_output w worktree_path [str "rev-list"; str "--count"; str "HEAD..origin/" ++ default_branch] in
  ret (match parse_u32 count with
       | Some n => Ok (mkBehindInfo n default_branch)
       | None => Err (str "Failed to parse behind count")
       end).

Definition merge_default_branch_impl (worktree_path : bytes) : M (result unit bytes) :=
  let! default_branch := remote_default_branch w worktree_path in
  let! _ := run_git w worktree_path [str "fetch"; str "origin"] in
  let* merged := run_git w worktree_path [str "merge"; str "origin/" ++ default_branch; str "--no-edit"] in
  match merged with
  | Ok _ => ret (Ok tt)
  | Err e =>
      let* _ := run_git w worktree_path [str "merge"; str "--abort"] in
      ret (Err (str "Merge conflict " ++ [226; 128; 148] ++ str " resolve in terminal. " ++ e))
  end.
End commands.

(** * The cache changes no answer *)

(** A read gives the content of its source, where a source is an object's id, or a
    file with its time of change and length. *)
Definition honest (content : FileContentSource -> bytes) (read : FileContentSource -> result bytes bytes) : Prop :=
  forall s bs, read s = Ok bs -> bs = content s.

(** What the cache goes through: any sources, any reads. *)
Inductive cache_step (content : FileContentSource -> bytes) : Cache -> Cache -> Prop :=
| cache_count read s c : honest content read -> cache_step content c (count_lines_for_source read s c).2
| cache_slice read s a n c : honest content read -> cache_step content c (slice_lines_for_source read s a n c).2.

Record cache_ok (content : FileContentSource -> bytes) (c : Cache) : Prop := mkCacheOk {
  co_size : (size c <= FILE_CONTENT_CACHE_LIMIT)%nat;
  co_entry : forall s e, c !! s = Some e -> line_count e = count_lines (content s) /\
    forall ls, cached_lines e = Some ls -> ls = decode_lines (content s)
}.

Lemma cache_put_size s e c :
  (size c <= FILE_CONTENT_CACHE_LIMIT)%nat -> (size (cache_file_content s e c) <= FILE_CONTENT_CACHE_LIMIT)%nat.
Proof.
  intros Hc. unfold cache_file_content. destruct (Nat.leb_spec FILE_CONTENT_CACHE_LIMIT (size c)) as [Hf|Hf]; cbn [andb].
  - destruct (bool_decide_reflect (is_Some (c !! s))) as [Hs|Hs]; cbn [negb].
    + by rewrite map_size_insert_Some.
    + rewrite map_size_insert_None by apply lookup_empty. rewrite map_size_empty. unfold FILE_CONTENT_CACHE_LIMIT. lia.
  - destruct (c !! s) eqn:E; [rewrite map_size_insert_Some by done; lia|rewrite map_size_insert_None by done; lia].
Qed.

Lemma cache_put_ok content s e c :
  line_count e = count_lines (content s) -> (forall ls, cached_lines e = Some ls -> ls = decode_lines (content s)) ->
  cache_ok content c -> cache_ok content (cache_file_content s e c).
Proof.
  intros He Hl [Hsz Hc]. split; [by apply cache_put_size|]. unfold cache_file_content. intros s' e' [[<- <-]|[_ H]]%lookup_insert_Some; [by split|].
  destruct (_ && _); [inversion H|by apply Hc].
Qed.

Lemma count_ok content read s c :
  honest content read -> cache_ok content c -> cache_ok content (count_lines_for_source read s c).2.
Proof.
  intros Hr Hc. unfold count_lines_for_source. destruct (c !! s); [done|]. destruct (read s) as [bs|e] eqn:E; [|done].
  apply cache_put_ok; [|done|done]. cbn. by rewrite (Hr s bs E).
Qed.
Lemma slice_ok content read s a n c :
  (forall s, zlen (content s) < 2 ^ 32) -> honest content read -> cache_ok content c ->
  cache_ok content (slice_lines_for_source read s a n c).2.
Proof.
  intros Hz Hr Hc. unfold slice_lines_for_source. destruct (c !! s ≫= cached_lines); [done|]. destruct (read s) as [bs|e] eqn:E; [|done].
  rewrite (Hr s bs E). apply cache_put_ok; [|by intros ls [= <-]|done]. cbn [line_count]. symmetry. by apply count_lines_counts_decoded.
Qed.

Lemma cache_reachable content c :
  (forall s, zlen (content s) < 2 ^ 32) -> rtc (cache_step content) ∅ c -> cache_ok content c.
Proof.
  intros Hz Hr. apply (rtc_invariant (cache_step content) (cache_ok content) ∅ c); [|split; [rewrite map_size_empty; unfold FILE_CONTENT_CACHE_LIMIT; lia|intros s e H; inversion H]|done].
  intros x y Hx Hs. destruct Hs; [by apply count_ok|by apply slice_ok].
Qed.

(** The answers, of a cache that is right. *)
Lemma slice_answer content read s a n c ls :
  honest content read -> cache_ok content c -> (slice_lines_for_source read s a n c).1 = Ok ls -> ls = slice_lines (decode_lines (content s)) a n.
Proof.
  intros Hr [_ Hc]. unfold slice_lines_for_source. destruct (c !! s ≫= cached_lines) as [l|] eqn:E.
  - destruct (c !! s) as [e|] eqn:Ee; [|done]. cbn in E. destruct (Hc s e Ee) as [_ H]. rewrite (H l E). by intros [= <-].
  - destruct (read s) as [bs|e] eqn:Es; [|done]. rewrite (Hr s bs Es). by intros [= <-].
Qed.
Lemma count_answer content read s c n :
  honest content read -> cache_ok content c -> (count_lines_for_source read s c).1 = Ok n -> n = count_lines (content s).
Proof.
  intros Hr [_ Hc]. unfold count_lines_for_source. destruct (c !! s) as [e|] eqn:E.
  - destruct (Hc s e E) as [H _]. intros [= <-]. exact H.
  - destruct (read s) as [bs|e] eqn:Es; [|done]. intros [= <-]. by rewrite (Hr s bs Es).
Qed.


(** * Shown lengths and lines of context *)

Lemma try_bind_ok {S A B} (m : State S (result A bytes)) (k : A -> State S (result B bytes)) s b :
  (try_bind m k s).1 = Ok b -> exists a, (m s).1 = Ok a /\ (k a (m s).2).1 = Ok b.
Proof. unfold try_bind. destruct (m s) as [[a|e] s']; [|done]. intros H. by exists a. Qed.

Definition shown_length (content : FileContentSource -> bytes) (source : FileDiff -> result FileContentSource bytes) (f : FileDiff) : Prop :=
  should_track_display_line_count (status f) = true ->
  exists s, source f = Ok s /\ display_line_count f = wrap 32 (zlen (decode_lines (content s))).

Section shown.
Context (content : FileContentSource -> bytes) (Hsmall : forall s, zlen (content s) < 2 ^ 32).
Context (read : FileContentSource -> result bytes bytes) (Hread : honest content read).
(** The source of a file's content is found by its paths. *)
Context (source : FileDiff -> result FileContentSource bytes)
  (Hsource : forall n f, source (set_line_count n f) = source f).

Lemma with_line_count_shows f c f' :
  cache_ok content c -> (with_line_count read source f c).1 = Ok f' -> shown_length content source f'.
Proof using Hsmall Hread Hsource.
  intros Hc. unfold with_line_count. destruct (should_track_display_line_count (status f)) eqn:Et.
  - intros (s & Hs & (n & Hn & H)%try_bind_ok)%try_bind_ok. cbn in Hs, Hn, H. injection H as <-. intros _. exists s.
    rewrite Hsource. split; [done|]. cbn [display_line_count set_line_count]. rewrite (count_answer _ _ _ _ _ Hread Hc Hn). by apply count_lines_counts_decoded.
  - intros [= <-] Hf. congruence.
Qed.
Lemma with_line_count_cache f c : cache_ok content c -> cache_ok content (with_line_count read source f c).2.
Proof using Hread.
  intros Hc. unfold with_line_count, try_bind, ret. destruct (should_track_display_line_count _); [|done]. destruct (source f) as [s|e]; [|done].
  pose proof (count_ok content read s c Hread Hc) as H. by destruct (count_lines_for_source read s c) as [[n|e] c'].
Qed.
Lemma with_line_counts_show files c files' :
  cache_ok content c -> (with_line_counts read source files c).1 = Ok files' -> Forall (shown_length content source) files'.
Proof using Hsmall Hread Hsource.
  revert c files'. induction files as [|f files IH]; intros c files' Hc; cbn [with_line_counts]; [by intros [= <-]|].
  intros (f' & Hf & (fs' & Hfs & H)%try_bind_ok)%try_bind_ok. injection H as <-. constructor; [by eapply with_line_count_shows|].
  eapply IH; [|exact Hfs]. by apply with_line_count_cache.
Qed.
End shown.

(** The length shown for a file of a commit's diff is the number of lines its
    content is cut into when context is asked for, of the side of the commit that
    has the file. *)
Theorem commit_diff_lengths_are_contents content fs repo r c commit_hash cache files :
  (forall s, zlen (content s) < 2 ^ 32) -> honest content (read_source_bytes r fs) -> rtc (cache_step content) ∅ cache ->
  repo = Ok r -> r_find_commit r commit_hash = Ok c ->
  (get_commit_diff_impl fs repo commit_hash cache).1 = Ok files ->
  Forall (shown_length content (get_commit_display_source r (c_tree c) (c_parent c))) files.
Proof.
  intros Hz Hr Hc -> Hf H. unfold get_commit_diff_impl in H. apply try_bind_ok in H as (r' & [= <-] & H). cbn [ret snd] in H.
  apply try_bind_ok in H as (c' & Hc' & H). cbn in Hc'. rewrite Hf in Hc'. injection Hc' as <-. cbn [ret snd] in H.
  apply try_bind_ok in H as (d & _ & H). cbn [ret snd] in H. apply try_bind_ok in H as (fs0 & _ & H). cbn [ret snd] in H.
  eapply with_line_counts_show; [exact Hz|exact Hr|done| |exact H]. by apply cache_reachable.
Qed.

(** Lines of context are only read of a file the caller is shown. When they are
    returned for a path, the path stays inside the work tree, it is in conflict or
    is the first file of the very diff that was asked for (staged or not), and the
    lines are those of the side that is shown, whatever the cache went through. *)
Theorem context_is_of_the_diff content fs worktree_path repo path a n cache ls :
  (forall s, zlen (content s) < 2 ^ 32) ->
  (forall r, repo = Ok r -> honest content (read_source_bytes r fs)) -> rtc (cache_step content) ∅ cache ->
  (get_working_diff_context_impl fs worktree_path repo path a n cache).1 = Ok ls ->
  let '(p, want_staged) := strip_staged path in
  head p <> Some 47 /\ ((str "..") ∉ split_on 47 p) /\
  exists r s, repo = Ok r /\
    (want_staged = false /\ is_conflicted r p = true \/
     exists d, (if want_staged then get_staged_diff repo p else get_unstaged_diff repo p) = Ok d /\ GitDiff.path d = p) /\
    get_working_display_source r fs worktree_path p want_staged = Ok s /\
    ls = slice_lines (decode_lines (content s)) a n.
Proof.
  intros Hz Hr Hc. unfold get_working_diff_context_impl. destruct (strip_staged path) as [p staged].
  intros (u & Hv & (r & Hrepo & (u' & Ha & (s & Hs & H)%try_bind_ok)%try_bind_ok)%try_bind_ok)%try_bind_ok. destruct u. cbn [ret fst snd] in *.
  assert (Hp := proj1 (accepted_paths_stay_inside p) Hv). destruct Hp as (Hp1 & Hp2 & _). split; [done|]. split; [done|].
  exists r, s. split; [done|]. split; [|split; [done|by eapply slice_answer; [by apply Hr|by apply cache_reachable|exact H]]].
  unfold ensure_working_diff_path_allowed in Ha. rewrite Hrepo in Ha. cbn [result_bind] in Ha. rewrite Hrepo.
  destruct staged.
  - right. destruct (get_staged_diff (Ok r) p) as [d|e]; [|done]. cbn in Ha. exists d. split; [done|].
    destruct (bytes_eqb (GitDiff.path d) p) eqn:E; [|done]. by apply bool_decide_eq_true in E.
  - destruct (is_conflicted r p); [by left|]. right. destruct (get_unstaged_diff (Ok r) p) as [d|e]; [|done]. cbn in Ha. exists d. split; [done|].
    destruct (bytes_eqb (GitDiff.path d) p) eqn:E; [|done]. by apply bool_decide_eq_true in E.
Qed.

(** * Merging *)

Definition is_merge (e : event) : bool :=
  match e with Git _ (a :: _) => bytes_eqb a (str "merge") | _ => false end.
Definition no_merge (e : event) : Prop := is_merge e = false.

Section merge.
Context (w : World).

Lemma branch_quiet wt : does no_merge (remote_default_branch w wt).
Proof.
  assert (Hc : forall cs, does no_merge (first_candidate w wt cs)).
  { induction cs as [|c cs IH]; cbn [first_candidate]; [apply does_ret|].
    apply does_bind; [by apply does_try; [apply does_git_output|intros; apply does_ret]|]. intros r. destruct (is_ok r); [apply does_ret|exact IH]. }
  unfold remote_default_branch, local_branch_names, remote_branch_names, resolve_origin_head, run_git.
  repeat first
    [ apply does_ret | apply does_ask | apply Hc | apply does_git_output; reflexivity
    | apply does_try; [|intros ?] | apply does_bind; [|intros ?]
    | match goal with
      | |- does _ (match ?x with _ => _ end) => destruct x
      | |- does _ (if ?x then _ else _) => destruct x
      end ].
Qed.

Lemma merge_git_step wt args s :
  run_git w wt args s =
  (match git w (log s) wt args with
   | None => Err (str "Failed to run git " ++ default [] (head args))
   | Some (true, _, _) => Ok tt
   | Some (false, _, err) => Err (str "git " ++ default [] (head args) ++ str " failed: " ++ trim (from_utf8_lossy err))
   end, mkSt (log s ++ [Git wt args]) (disk s)).
Proof. unfold run_git, run_git_output, try_bind, bind, ret, git_raw. by destruct (git w (log s) wt args) as [[[[] out] err]|]. Qed.

(** A merge of the default branch that does not go through is undone. Either no
    merge was begun, and the call fails; or exactly one was, of the remote's default
    branch, after a fetch that went through: the call succeeds if git did, and
    otherwise the last thing done is to abort the merge. *)
Theorem failed_merge_is_aborted wt s :
  let (r, s') := merge_default_branch_impl w wt s in
  (exists es, log s' = log s ++ es /\ Forall no_merge es /\ is_ok r = false) \/
  (exists es branch, let merge := Git wt [str "merge"; str "origin/" ++ branch; str "--no-edit"] in
     let before := log s ++ es ++ [Git wt [str "fetch"; str "origin"]] in
     Forall no_merge es /\
     ((exists out err, git w before wt [str "merge"; str "origin/" ++ branch; str "--no-edit"] = Some (true, out, err) /\
        r = Ok tt /\ log s' = before ++ [merge]) \/
      (is_ok r = false /\ log s' = before ++ [merge; Git wt [str "merge"; str "--abort"]]))).
Proof.
  destruct (merge_default_branch_impl w wt s) as [r s'] eqn:E. revert E.
  unfold merge_default_branch_impl, try_bind at 1. destruct (branch_quiet wt s) as (es & Hlog & Hes).
  destruct (remote_default_branch w wt s) as [[b|e] s1]; cbn [snd] in Hlog; [|intros [= <- <-]; left; exists es; by rewrite Hlog].
  set (fetch := Git wt [str "fetch"; str "origin"]). unfold try_bind at 1. rewrite merge_git_step.
  destruct (git w (log s1) wt [str "fetch"; str "origin"]) as [[[[] out] err]|]; cbn [log disk].
  2,3: intros [= <- <-]; left; exists (es ++ [fetch]); cbn [log]; rewrite Hlog, app_assoc; (split; [done|]); (split; [|done]); apply Forall_app; by split; [|repeat constructor].
  intros E. right. exists es, b. cbv zeta. split; [done|]. fold fetch. rewrite app_assoc, <- Hlog. revert E. unfold bind, ret. rewrite merge_git_step. cbn [log disk]. fold fetch.
  destruct (git w (log s1 ++ [fetch]) wt [str "merge"; str "origin/" ++ b; str "--no-edit"]) as [[[[] o] e]|]; cbn [log disk].
  1: cbv beta iota; intros E; injection E as <- <-; left; by exists o, e.
  all: rewrite merge_git_step; cbn [log disk]; cbv beta iota; intros E; injection E as <- <-; right; cbn [log]; by rewrite <- app_assoc.
Qed.
End merge.

(** * Removing *)

(** A path that a join keeps below the work tree. *)
Definition stays_inside (p : bytes) : Prop := p <> [] /\ head p <> Some 47 /\ (str "..") ∉ split_on 47 p.

(** What libgit2 says of the paths it lists, and of the paths it finds. *)
Record listed_inside (r : GitRepo) : Prop := mkListedInside {
  li_status : forall p st, r_status_file r p = Some st -> stays_inside p;
  li_entries : forall b es p st, r_statuses r b = Ok es -> (Some p, st) ∈ es -> stays_inside p
}.

(** A path without a status of its own that counts as untracked: something is listed
    at or below it, and all of that is untracked. *)
Lemma all_new_spec n es found :
  all_new n es found = true ->
  (found = true \/ exists p st, (Some p, st) ∈ es /\ (p = n \/ exists q, p = n ++ str "/" ++ q) /\ flag st WT_NEW = true) /\
  forall p st, (Some p, st) ∈ es -> (p = n \/ exists q, p = n ++ str "/" ++ q) -> flag st WT_NEW = true.
Proof.
  revert found. induction es as [|[[p|] st] es IH]; intros found; cbn [all_new].
  - intros ->. split; [by left|]. by intros p st ?%not_elem_of_nil.
  - assert (Hm : bytes_eqb p n || starts_with (n ++ str "/") p = true <-> p = n \/ exists q, p = n ++ str "/" ++ q).
    { rewrite orb_true_iff, starts_with_iff. unfold bytes_eqb. rewrite bool_decide_eq_true. setoid_rewrite <- app_assoc. done. }
    destruct (bytes_eqb p n || starts_with (n ++ str "/") p).
    + destruct (flag st WT_NEW) eqn:Ef; [|done]. intros H. apply IH in H as [_ H]. split.
      * right. exists p, st. split; [by apply list_elem_of_here|]. split; [by apply Hm|done].
      * intros p' st' [[= <- <-]|Hin]%elem_of_cons Hp'; [done|by eapply H].
    + intros H. apply IH in H as [H1 H2]. split.
      * destruct H1 as [H1|(p' & st' & H1 & H1')]; [by left|right]. exists p', st'. split; [by apply list_elem_of_further|done].
      * intros p' st' [[= <- <-]|Hin]%elem_of_cons Hp'; [by apply Hm in Hp'|by eapply H2].
  - intros H. apply IH in H as [H1 H2]. split.
    + destruct H1 as [H1|(p' & st' & H1 & H1')]; [by left|right]. exists p', st'. split; [by apply list_elem_of_further|done].
    + intros p' st' [[=]|Hin]%elem_of_cons Hp'. by eapply H2.
Qed.

Lemma slashes_pieces n : split_on 47 (concat (replicate n (str "/"))) = replicate (S n) [].
Proof. induction n as [|n IH]; [done|]. change (concat (replicate (S n) (str "/"))) with (47 :: concat (replicate n (str "/"))). cbn [split_on]. by rewrite IH. Qed.

Lemma untracked_stays_inside r p : listed_inside r -> is_untracked r p = true -> head p <> Some 47 /\ (str "..") ∉ split_on 47 p.
Proof.
  intros [Hs He] H. unfold is_untracked in H. destruct (r_status_file r p) as [st|] eqn:E; [by apply Hs in E as (_ & H1 & H2)|].
  destruct (r_statuses r false) as [es|] eqn:Ees; [|done]. apply all_new_spec in H as [[H|(p' & st & Hin & Hp' & _)] _]; [done|].
  destruct (He _ _ _ _ Ees Hin) as (Hne & Hh & Hd). set (n := trim_end_matches (str "/") p) in *.
  destruct (trim_end_spec (str "/") p) as (_ & k & Hk); [done|]. fold n in Hk.
  assert (Hn : n <> [] /\ head n <> Some 47 /\ (str "..") ∉ split_on 47 n).
  { destruct Hp' as [->|(q & ->)]; [done|]. change (n ++ str "/" ++ q) with (n ++ 47 :: q) in *. rewrite split_on_app_sep, elem_of_app in Hd.
    destruct n as [|b n']; [by cbn in Hh|]. split_and!; [done|done|]. intros Hn. apply Hd. by left. }
  destruct Hn as (Hn1 & Hn2 & Hn3). rewrite Hk. split; [by destruct n|]. destruct k as [|k]; [by rewrite app_nil_r|].
  change (concat (replicate (S k) (str "/"))) with (47 :: concat (replicate k (str "/"))). rewrite split_on_app_sep, slashes_pieces, elem_of_app.
  intros [H|H]; [done|]. apply elem_of_replicate in H as [H _]. done.
Qed.

Section removing.
Context (w : World) (open_error : list event -> bytes -> option bytes) (repo_at : list event -> bytes -> GitRepo)
  (symlink_is_dir : list event -> bytes -> result bool bytes) (remove_error : list event -> bytes -> option bytes).

Definition removal (path : bytes) (e : event) : Prop := e = RemoveFile path \/ e = RemoveDirAll path.

Lemma remove_path_log p s : exists es, log (remove_path symlink_is_dir remove_error p s).2 = log s ++ es /\
  (es = [] \/ exists e, es = [e] /\ removal p e).
Proof.
  unfold remove_path, try_bind, bind, ask, emit, ret. destruct (symlink_is_dir (log s) p) as [d|e]; cbn [snd log].
  - eexists. split; [reflexivity|]. right. eexists. split; [done|]. destruct d; [by right|by left].
  - exists []. rewrite app_nil_r. split; [done|by left].
Qed.

(** Each thing done by the loop is a removal, of a path of the list that was
    untracked just before. *)
Definition removes_untracked (worktree_path : bytes) (paths : list bytes) (before es : list event) : Prop :=
  forall pre e post, es = pre ++ e :: post -> exists p, p ∈ paths /\ removal (path_join worktree_path p) e /\
    is_untracked (repo_at (before ++ pre) worktree_path) p = true.

Lemma remove_loop_log worktree_path paths s : exists es,
  let x := remove_untracked_loop w repo_at symlink_is_dir remove_error worktree_path paths s in
  log x.2 = log s ++ es /\ removes_untracked worktree_path paths (log s) es /\
  (x.1 = Ok tt -> forall p, p ∈ paths -> exists pre, pre `prefix_of` es /\ is_untracked (repo_at (log s ++ pre) worktree_path) p = true).
Proof.
  assert (Hnil : forall ps b, removes_untracked worktree_path ps b []) by (intros ps b [|x pre] e post E; discriminate E).
  revert s. induction paths as [|p ps IH]; intros s.
  { exists []. cbn. rewrite app_nil_r. split; [done|]. split; [done|]. by intros _ p ?%not_elem_of_nil. }
  set (m := if path_exists w (log s) (path_join worktree_path p) then remove_path symlink_is_dir remove_error (path_join worktree_path p) else ret (Ok tt)).
  assert (E : remove_untracked_loop w repo_at symlink_is_dir remove_error worktree_path (p :: ps) s =
    if negb (is_untracked (repo_at (log s) worktree_path) p) then (Err (str "'" ++ p ++ str "' is not an untracked file"), s)
    else try_bind m (fun _ => remove_untracked_loop w repo_at symlink_is_dir remove_error worktree_path ps) s).
  { cbn [remove_untracked_loop]. unfold bind, ask. by destruct (is_untracked _ p). }
  rewrite E. clear E. cbv zeta. destruct (is_untracked (repo_at (log s) worktree_path) p) eqn:Eu; cbn [negb].
  2: { exists []. rewrite app_nil_r. split; [done|]. split; [apply Hnil|]. discriminate. }
  unfold try_bind.
  assert (Hm : exists es, log (m s).2 = log s ++ es /\ (es = [] \/ exists e, es = [e] /\ removal (path_join worktree_path p) e)).
  { unfold m. destruct (path_exists w _ _); [apply remove_path_log|]. exists []. cbn. rewrite app_nil_r. split; [done|by left]. }
  destruct Hm as (es & Hlog & Hes). destruct (m s) as [[u|e] s1]; cbn [snd] in Hlog.
  - destruct (IH s1) as (es' & Hlog' & Hes' & Hok). exists (es ++ es'). cbv zeta in *. rewrite Hlog', Hlog, <- app_assoc. split; [done|]. split.
    + intros pre e post E. destruct Hes as [->|(e1 & -> & He1)].
      * rewrite Hlog, app_nil_r in Hes'. destruct (Hes' pre e post E) as (q & Hq & Hrest). exists q. split; [by apply list_elem_of_further|done].
      * destruct pre as [|e2 pre]; cbn in E; injection E as -> E.
        -- exists p. rewrite app_nil_r. split; [by apply list_elem_of_here|done].
        -- destruct (Hes' pre e post E) as (q & Hq & Hr & Hu). exists q. split; [by apply list_elem_of_further|]. split; [done|].
           by rewrite Hlog, <- app_assoc in Hu.
    + intros H q [->|Hq]%elem_of_cons; [exists []; rewrite app_nil_r; split; [apply prefix_nil|done]|].
      destruct (Hok H q Hq) as (pre & Hpre & Hu). exists (es ++ pre). split; [by apply prefix_app|]. by rewrite app_assoc, <- Hlog.
  - exists es. split; [done|]. split; [|done]. intros pre e1 post E. destruct Hes as [->|(e2 & -> & He2)]; [by destruct pre|].
    destruct pre as [|e3 [|]]; cbn in E; [|discriminate E..]. injection E as -> _. exists p. rewrite app_nil_r. split; [by apply list_elem_of_here|done].
Qed.

End removing.

(** * Discarding *)

Section discarding.
Context (w : World) (symlink_is_dir : list event -> bytes -> result bool bytes) (remove_error : list event -> bytes -> option bytes).

(** A file is removed only after git refused to check it out. *)
Lemma discard_file_log worktree_path p s :
  let checkout := [str "checkout"; str "--"; p] in
  exists es, log (discard_file_impl w symlink_is_dir remove_error worktree_path p s).2 = log s ++ Git worktree_path checkout :: es /\
    (es = [] \/ exists e, es = [e] /\ removal (path_join worktree_path p) e /\
      forall out err, git w (log s) worktree_path checkout <> Some (true, out, err)).
Proof.
  cbv zeta. set (args := [str "checkout"; str "--"; p]). unfold discard_file_impl. fold args. unfold run_git_here, bind, ask, git_raw, ret.
  destruct (git w (log s) worktree_path args) as [[[[] out] err]|] eqn:E; cbn [is_ok log].
  { exists []. split; [done|by left]. }
  all: destruct (path_exists w _ _); [|exists []; split; [done|by left]];
    destruct (remove_path_log symlink_is_dir remove_error (path_join worktree_path p) (mkSt (log s ++ [Git worktree_path args]) (disk s))) as (es & -> & Hes);
    exists es; cbn [log]; rewrite <- app_assoc; (split; [done|]);
    (destruct Hes as [->|(e & -> & He)]; [by left|right; exists e; by split_and!]).
Qed.
End discarding.

(** * Examples *)

Module GitFilesExamples.
(** A world where git refuses everything and every path exists and is a file. *)
Definition refuses : World :=
  ToyWorld.world (fun _ => ToyWorld.fails "fatal: Unable to create '.git/index.lock': File exists.") (fun _ => None) (fun _ => []).
Definition start : St := ToyWorld.start [].
Definition file (_ : list event) (_ : bytes) : result bool bytes := Ok false.
Definition dir (_ : list event) (_ : bytes) : result bool bytes := Ok true.
Definition no_error (_ : list event) (_ : bytes) : option bytes := None.

(** Any refusal is taken for an untracked file: with the index locked by another
    git, discarding the changes of a tracked file deletes it. *)
Lemma discard_deletes_when_git_is_busy :
  let (r, s) := discard_file_impl refuses file no_error (str "/w") (str "src/main.rs") start in
  r = Ok tt /\ log s = [Git (str "/w") [str "checkout"; str "--"; str "src/main.rs"]; RemoveFile (str "/w/src/main.rs")].
Proof. vm_compute. by split. Qed.

(** The path is not checked: one that leaves the work tree is refused by git and
    then removed. *)
Lemma discard_leaves_the_worktree :
  let (r, s) := discard_file_impl refuses file no_error (str "/w") (str "../notes.txt") start in
  r = Ok tt /\ log s = [Git (str "/w") [str "checkout"; str "--"; str "../notes.txt"]; RemoveFile (str "/w/../notes.txt")].
Proof. vm_compute. by split. Qed.

(** A repository in which [src/new.rs] is untracked and nothing else has changed;
    clean files are not listed, directories have no status of their own. *)
Definition one_new : GitRepo := mkGitRepo
  (fun p => if bytes_eqb p (str "src/new.rs") then Some [WT_NEW] else None)
  (fun _ => Ok [(Some (str "src/new.rs"), [WT_NEW])])
  (fun _ => Err []) (fun _ => Err []) None None (fun _ => Ok []) (Ok (fun _ => None)) (fun _ => Err []) (fun _ => Err []).
Definition repo_at (_ : list event) (_ : bytes) : GitRepo := one_new.

Lemma one_new_listed : listed_inside one_new.
Proof.
  assert (H : stays_inside (str "src/new.rs")) by (apply (bool_decide_eq_true_1 _); vm_compute; reflexivity).
  split.
  - intros p st E. cbn [r_status_file one_new] in E. destruct (bytes_eqb p (str "src/new.rs")) eqn:Eb; [|done].
    by apply bool_decide_eq_true in Eb as ->.
  - intros b es p st [= <-] [= -> ->]%list_elem_of_singleton. exact H.
Qed.

(** A directory is taken as untracked when all that is listed below it is, but
    unchanged tracked files are not listed: removing the untracked files of [src]
    removes all of it. *)
Lemma clean_files_go_with_untracked_ones :
  let (r, s) := remove_untracked_files_impl refuses no_error repo_at dir no_error (str "/w") [str "src"] start in
  r = Ok tt /\ log s = [RemoveDirAll (str "/w/src")].
Proof. vm_compute. by split. Qed.


(** A file that became a symbolic link is no row of the panel. *)
Lemma type_changes_are_not_shown st :
  Forall (fun f => f = INDEX_TYPECHANGE \/ f = WT_TYPECHANGE) st -> forall p, entry_rows (p, st) = [].
Proof.
  intros H p. assert (Hf : forall f, f <> INDEX_TYPECHANGE -> f <> WT_TYPECHANGE -> flag st f = false).
  { intros f H1 H2. apply bool_decide_eq_false. intros Hin. rewrite Forall_forall in H. destruct (H f Hin); done. }
  unfold entry_rows, intersects. cbn [fst snd existsb INDEX_FLAGS WORKTREE_FLAGS]. by rewrite !Hf.
Qed.

(** A repository with one committed file, read twice. *)
Definition text : bytes := str "one" ++ [LF] ++ str "two" ++ [LF].
Definition content (s : FileContentSource) : bytes := match s with Missing => [] | _ => text end.
Definition read (s : FileContentSource) : result bytes bytes := Ok (content s).
Lemma content_small s : zlen (content s) < 2 ^ 32.
Proof. by destruct s. Qed.
Lemma read_honest : honest content read.
Proof. by intros s bs [= <-]. Qed.


(** A diff of [a.txt] with two lines of content after it. *)
Definition printed_a : GitDiffOut :=
  mkDiffOut 1 [mkPrintLine (Some (str "a.txt")) (Some (str "a.txt")) Modified (Some (mkHunkInfo (str "@@ -1 +1 @@") 1 1 1 1)) 43 (str "two" ++ [LF]) None (Some 2)] None.
Definition with_a : GitRepo := mkGitRepo
  (fun _ => None) (fun _ => Ok []) (fun _ => Ok printed_a) (fun _ => Ok printed_a) None None (fun _ => Ok [])
  (Ok (fun _ => Some (str "a"))) (fun _ => Ok text)
  (fun _ => Ok (mkCommit None None 0 (fun _ => Some (str "a")) None (fun _ => Ok printed_a))).
Definition no_files : WorkFiles := mkWorkFiles (fun _ => false) (fun _ => Err []) (fun _ => Err []).
Lemma with_a_honest : honest content (read_source_bytes with_a no_files).
Proof. intros [|o|p m l] bs; cbn; by intros [= <-]. Qed.

Lemma context_is_of_the_diff_witness :
  (get_working_diff_context_impl no_files (str "/w") (Ok with_a) (str "staged:a.txt") 2 1 ∅).1 = Ok [str "two"] /\ head (str "a.txt") <> Some 47.
Proof.
  assert (E : (get_working_diff_context_impl no_files (str "/w") (Ok with_a) (str "staged:a.txt") 2 1 ∅).1 = Ok [str "two"]) by (vm_compute; reflexivity).
  split; [exact E|].
  pose proof (context_is_of_the_diff content no_files (str "/w") (Ok with_a) (str "staged:a.txt") 2 1 ∅ [str "two"] content_small) as H.
  specialize (H ltac:(intros r [= <-]; exact with_a_honest) (rtc_refl _ _) E). exact (proj1 H).
Defined.

Lemma commit_diff_lengths_are_contents_witness :
  exists files, (get_commit_diff_impl no_files (Ok with_a) (str "c") ∅).1 = Ok files /\ display_line_count <$> files = [2] /\
    Forall (shown_length content (get_commit_display_source with_a (fun _ => Some (str "a")) None)) files.
Proof.
  destruct (get_commit_diff_impl no_files (Ok with_a) (str "c") ∅).1 as [files|e] eqn:E; [|exfalso; vm_compute in E; discriminate E].
  exists files. split; [done|]. split; [vm_compute in E; by injection E as <-|].
  exact (commit_diff_lengths_are_contents content no_files (Ok with_a) with_a (mkCommit None None 0 (fun _ => Some (str "a")) None (fun _ => Ok printed_a))
    (str "c") ∅ files content_small with_a_honest (rtc_refl _ _) eq_refl eq_refl E).
Defined.
End GitFilesExamples.
