(* ===== verification/FileBrowser.v ===== *)
(** The file browser (grove-core/src/file_browser.rs): one level of a tree or all
    of it, from git or from the file system, and the classification of a file
    that is opened. What git prints and what the file system answers are
    arguments; a string is the list of its bytes. *)

From stdpp Require Import sorting.
From S2P Require Import Prelude Utf8 Text Paths.

#[local] Open Scope rust_scope.

(** A hard cap on the entries of a deep listing. *)
Definition MAX_DEEP_ENTRIES : Z := 50000.
Definition MAX_TEXT_FILE_SIZE : Z := 10 * 1024 * 1024.
Definition MAX_IMAGE_FILE_SIZE : Z := 20 * 1024 * 1024.
Definition BINARY_PROBE_BYTES : Z := 8192.

Record DirectoryFileEntry := mkEntry { path : bytes; name : bytes; entry_type : bytes; depth : Z }.
Record DeepDirectoryListing := mkListing { entries : list DirectoryFileEntry; truncated : bool }.
Record WorkspaceFileContent := mkFileContent { kind : bytes; content : bytes; size : Z; mime_type : option bytes }.

Definition DIRECTORY : bytes := str "directory".
Definition FILE : bytes := str "file".
Definition is_directory (e : DirectoryFileEntry) : bool := bytes_eqb (entry_type e) DIRECTORY.

(** * Paths *)

(** [trim_matches('/')]. *)
Fixpoint trim_start_slash (s : bytes) : bytes :=
  match s with b :: s' => if b =? 47 then trim_start_slash s' else s | [] => [] end.
Definition trim_slashes (s : bytes) : bytes := trim_end_matches (str "/") (trim_start_slash s).

Fixpoint normal_parts (cs : list Component) : option (list bytes) :=
  match cs with
  | [] => Some []
  | Normal part :: cs => cons part <$> normal_parts cs
  | CurDir :: cs => normal_parts cs
  | _ => None
  end.
Definition normalize_parent_path (parent_path : option bytes) : result bytes bytes :=
  let raw := trim_slashes (default [] parent_path) in
  if bool_decide (raw = []) then Ok []
  else match normal_parts (components raw) with
       | Some parts => Ok (join (str "/") parts)
       | None => Err (str "Parent path must be relative")
       end.

Definition parts_of (p : bytes) : list bytes := filter (fun part => part <> []) (split_on 47 p).
Definition entry_depth (p : bytes) : Z := Z.max 0 (zlen (parts_of p) - 1).

Definition parent_of (p : bytes) : bytes := match rfind (str "/") p with Some i => take i p | None => [] end.
Definition child_of (parent name : bytes) : bytes := if bool_decide (parent = []) then name else parent ++ str "/" ++ name.

(** * Order *)

Definition bytes_cmp (a b : bytes) : comparison := if bytes_ltb a b then Lt else if bytes_ltb b a then Gt else Eq.
Definition bool_cmp (a b : bool) : comparison := match a, b with false, true => Lt | true, false => Gt | _, _ => Eq end.
Definition then_with (c d : comparison) : comparison := match c with Eq => d | _ => c end.

(** Directories first, then by name. *)
Definition entry_cmp (l r : DirectoryFileEntry) : comparison :=
  then_with (bool_cmp (is_directory r) (is_directory l)) (then_with (bytes_cmp (name l) (name r)) (bytes_cmp (path l) (path r))).
Definition deep_cmp (l r : DirectoryFileEntry) : comparison :=
  then_with (bytes_cmp (parent_of (path l)) (parent_of (path r))) (entry_cmp l r).

(** [sort_by], which is stable. *)
Definition not_after (cmp : DirectoryFileEntry -> DirectoryFileEntry -> comparison) (l r : DirectoryFileEntry) : Prop := cmp l r <> Gt.
#[export] Instance not_after_dec cmp l r : Decision (not_after cmp l r).
Proof. unfold not_after. destruct (cmp l r); [left|left|right]; congruence. Defined.
Definition sort_by cmp (l : list DirectoryFileEntry) : list DirectoryFileEntry := merge_sort (not_after cmp) l.
Definition sort_entries := sort_by entry_cmp.
Definition sort_deep_entries := sort_by deep_cmp.

(** * From git *)

(** What [git ls-files] gave: it did not start, it failed, it printed. *)
Inductive GitOutput := NotStarted | Failed (stderr : bytes) | Printed (stdout : bytes).
Definition git_lines (out : GitOutput) : result (list bytes) bytes :=
  match out with
  | NotStarted => Err (str "Failed to list file browser entries: ")
  | Failed err => Err (str "Failed to list file browser entries: " ++ from_utf8_lossy err)
  | Printed out => Ok (filter (fun p => p <> []) (trim_end_matches [13] <$> str_lines (from_utf8_lossy out)))
  end.

Definition values (m : gmap bytes DirectoryFileEntry) : list DirectoryFileEntry := (map_to_list m).*2.

Definition child_step (parent_path : bytes) (m : gmap bytes DirectoryFileEntry) (p : bytes) : gmap bytes DirectoryFileEntry :=
  let remainder := if bool_decide (parent_path = []) then Some p else strip_prefix (parent_path ++ str "/") p in
  match remainder with
  | None => m
  | Some remainder =>
      match parts_of remainder with
      | [] => m
      | part :: _ =>
          let child_path := child_of parent_path part in
          let ty := if contains (str "/") remainder then DIRECTORY else FILE in
          match m !! child_path with
          | Some e => if bytes_eqb ty DIRECTORY then <[child_path := mkEntry (path e) (name e) DIRECTORY (depth e)]> m else m
          | None => <[child_path := mkEntry child_path part ty (entry_depth child_path)]> m
          end
      end
  end.
Definition list_git_children (out : GitOutput) (parent_path : bytes) : result (list DirectoryFileEntry) bytes :=
  let? ls := git_lines out in
  Ok (sort_entries (values (foldl (child_step parent_path) ∅ ls))).

(** The path's own entry and those of the directories above it, where there are
    none yet. *)
Fixpoint insert_parts (current : bytes) (index : Z) (parts : list bytes) (m : gmap bytes DirectoryFileEntry) : gmap bytes DirectoryFileEntry :=
  match parts with
  | [] => m
  | part :: rest =>
      let current := child_of current part in
      let is_file := match rest with [] => true | _ => false end in
      let m := match m !! current with
               | Some _ => m
               | None => <[current := mkEntry current part (if is_file then FILE else DIRECTORY) index]> m
               end in
      insert_parts current (index + 1) rest m
  end.
Definition insert_with_ancestors (m : gmap bytes DirectoryFileEntry) (file_path : bytes) : gmap bytes DirectoryFileEntry :=
  insert_parts [] 0 (parts_of file_path) m.

Definition list_git_deep (out : GitOutput) : result DeepDirectoryListing bytes :=
  let? ls := git_lines out in
  let all := sort_deep_entries (values (foldl insert_with_ancestors ∅ ls)) in
  Ok (mkListing (take (Z.to_nat MAX_DEEP_ENTRIES) all) (MAX_DEEP_ENTRIES <? zlen all)).

(** * From the file system *)

(** [read_dir]: the directory cannot be read, or its entries, of which one may fail,
    with the type of each, which may fail. *)
Record Files := mkFiles {
  is_dir : bytes -> bool;
  read_dir : bytes -> result (list (result (bytes * result bool bytes) bytes)) bytes
}.

Section fs.
Context (fs : Files) (root : bytes).

Fixpoint fs_entries (parent_path : bytes) (l : list (result (bytes * result bool bytes) bytes)) : result (list DirectoryFileEntry) bytes :=
  match l with
  | [] => Ok []
  | Err e :: _ => Err (str "Failed to read directory entry: " ++ e)
  | Ok (raw, ty) :: l =>
      let name := from_utf8_lossy raw in
      if bool_decide (name = []) then fs_entries parent_path l
      else
        match ty with
        | Err e => Err (str "Failed to read file type: " ++ e)
        | Ok d =>
            let? rest := fs_entries parent_path l in
            Ok (mkEntry (child_of parent_path name) name (if (d : bool) then DIRECTORY else FILE)
                  (entry_depth parent_path + if bool_decide (parent_path = []) then 0 else 1) :: rest)
        end
  end.

Definition list_fs_children (parent_path : bytes) : result (list DirectoryFileEntry) bytes :=
  let directory := if bool_decide (parent_path = []) then root else path_join root parent_path in
  if negb (is_dir fs directory) then Err (str "File browser path does not exist")
  else match read_dir fs directory with
       | Err e => Err (str "Failed to read directory: " ++ e)
       | Ok l => let? es := fs_entries parent_path l in Ok (sort_entries es)
       end.

(** One directory's children, until the cap. *)
Fixpoint take_children (children : list DirectoryFileEntry) (queue : list bytes) (result : list DirectoryFileEntry) :
    list bytes * list DirectoryFileEntry * bool :=
  match children with
  | [] => (queue, result, false)
  | c :: children =>
      if MAX_DEEP_ENTRIES <=? zlen result then (queue, result, true)
      else take_children children (if is_directory c then queue ++ [path c] else queue) (result ++ [c])
  end.

Definition deep_body (s : list bytes * list DirectoryFileEntry) : (list bytes * list DirectoryFileEntry) + (list DirectoryFileEntry * bool) :=
  match s.1 with
  | [] => inr (s.2, false)
  | parent :: queue =>
      match list_fs_children parent with
      | Err _ => inl (queue, s.2)
      | Ok children =>
          let '(queue, result, full) := take_children children queue s.2 in
          if (full : bool) then inr (result, true) else inl (queue, result)
      end
  end.

(** The fuel: one turn for the root and one for each entry there can be. *)
Definition list_fs_deep_fuel : nat := Z.to_nat (MAX_DEEP_ENTRIES + 2).
Definition list_fs_deep : option DeepDirectoryListing :=
  (fun r => mkListing (sort_deep_entries r.1) r.2) <$> loop deep_body list_fs_deep_fuel ([[]], []).

Definition list_directory_files_impl (is_git : bool) (ls_files : bytes -> GitOutput) (parent_path : option bytes) :
    result (list DirectoryFileEntry) bytes :=
  if negb (is_dir fs root) then Err (str "File browser root does not exist")
  else
    let? parent_path := normalize_parent_path parent_path in
    if is_git then list_git_children (ls_files (if bool_decide (parent_path = []) then str "." else parent_path)) parent_path
    else list_fs_children parent_path.

Definition list_directory_files_deep_impl (is_git : bool) (ls_files : GitOutput) : option (result DeepDirectoryListing bytes) :=
  if negb (is_dir fs root) then Some (Err (str "File browser root does not exist"))
  else if is_git then Some (list_git_deep ls_files)
  else Ok <$> list_fs_deep.
End fs.

(** * Opening a file *)

Definition extension_of (name : bytes) : option bytes := (fun i => ascii_lower (drop (S i) name)) <$> rfind (str ".") name.
Definition image_types : list (string * string) :=
  [("png", "image/png"); ("jpg", "image/jpeg"); ("jpeg", "image/jpeg"); ("gif", "image/gif"); ("webp", "image/webp");
   ("bmp", "image/bmp"); ("ico", "image/x-icon"); ("svg", "image/svg+xml"); ("avif", "image/avif")]%string.
Definition image_mime_for_name (name : bytes) : option bytes :=
  ext ← extension_of name;
  (fun e => str e.2) <$> List.find (fun e => bytes_eqb (str e.1) ext) image_types.

(** The reads that fill the probe: each gives at most what is missing, nothing at
    the end of the file. *)
Fixpoint fill_probe (filled : bytes) (reads : list (result bytes bytes)) : result bytes bytes :=
  match reads with
  | [] => Ok filled
  | Err e :: _ => Err (str "Failed to read file: " ++ e)
  | Ok r :: reads =>
      if bool_decide (r = []) || (zlen filled + zlen r =? BINARY_PROBE_BYTES) then Ok (filled ++ r)
      else fill_probe (filled ++ r) reads
  end.

Record OpenFile := mkOpenFile {
  of_is_file : bytes -> bool;
  of_size : bytes -> result Z bytes;
  of_read : bytes -> result bytes bytes;
  of_open : bytes -> result (list (result bytes bytes)) bytes      (* what its reads give *)
}.
Definition has_nul (bs : bytes) : bool := bool_decide (0 ∈ bs).

Section read.
Context (base64 : bytes -> bytes) (fs : Files) (files : OpenFile).

Definition plain (kind : string) (size : Z) : WorkspaceFileContent := mkFileContent (str kind) [] size None.

Definition read_workspace_file_impl (root_path file_path : bytes) : result WorkspaceFileContent bytes :=
  if negb (is_dir fs root_path) then Err (str "File browser root does not exist")
  else
    let? relative := normalize_parent_path (Some file_path) in
    if bool_decide (relative = []) then Err (str "File path is required")
    else
      let full_path := path_join root_path relative in
      if negb (of_is_file files full_path) then Err (str "File does not exist")
      else
        let? size := of_size files full_path in
        let name := default relative (last (split_on 47 relative)) in
        match image_mime_for_name name with
        | Some mime =>
            if MAX_IMAGE_FILE_SIZE <? size then Ok (mkFileContent (str "tooLarge") [] size (Some mime))
            else let? bs := of_read files full_path in Ok (mkFileContent (str "image") (base64 bs) size (Some mime))
        | None =>
            let? reads := of_open files full_path in
            let? probe := fill_probe [] reads in
            if has_nul probe then Ok (plain "binary" size)
            else if MAX_TEXT_FILE_SIZE <? size then Ok (plain "tooLarge" size)
            else
              let? bs := of_read files full_path in
              if has_nul bs then Ok (plain "binary" size)
              else Ok (mkFileContent (str "text") (from_utf8_lossy bs) size None)
        end.
End read.

(** * Paths of parts *)

Abbreviation slashed := (join (str "/")).
(** The pieces of a path, none of them empty. *)
Definition piece (p : bytes) : Prop := p <> [] /\ 47 ∉ p.

Lemma slashed_nil qs : Forall piece qs -> slashed qs = [] -> qs = [].
Proof. destruct 1 as [|q qs [Hq _] Hqs]; [done|]. destruct qs as [|q' qs]; cbn; [done|]. by destruct q. Qed.

Lemma child_of_slashed qs p : Forall piece qs -> child_of (slashed qs) p = slashed (qs ++ [p]).
Proof.
  intros Hqs. unfold child_of. destruct (bool_decide_reflect (slashed qs = [])) as [E|E].
  - by apply slashed_nil in E as ->.
  - rewrite join_app; [done| |done]. by intros ->.
Qed.

Lemma split_slashed qs : qs <> [] -> Forall piece qs -> split_on 47 (slashed qs) = qs.
Proof. intros Hne Hqs. apply (split_join 47); [done|]. eapply Forall_impl; [exact Hqs|]. by intros q [_ H]. Qed.
Lemma parts_slashed qs : Forall piece qs -> parts_of (slashed qs) = qs.
Proof.
  intros Hqs. destruct (decide (qs = [])) as [->|Hne]; [done|]. unfold parts_of. rewrite split_slashed by done.
  apply filter_all. eapply Forall_impl; [exact Hqs|]. by intros q [H _].
Qed.
Lemma slashed_inj qs rs : Forall piece qs -> Forall piece rs -> slashed qs = slashed rs -> qs = rs.
Proof. intros Hq Hr E. by rewrite <- (parts_slashed qs Hq), <- (parts_slashed rs Hr), E. Qed.

Lemma parts_pieces p : Forall piece (parts_of p).
Proof.
  apply Forall_forall. intros q [Hq Hin]%list_elem_of_filter. split; [done|].
  pose proof (split_on_pieces 47 p) as H. rewrite Forall_forall in H. by apply H.
Qed.

Lemma rfind_slash_none p : 47 ∉ p -> rfind (str "/") p = None.
Proof.
  induction p as [|b p IH]; [done|]. intros [Hb Hp]%not_elem_of_cons. cbn [rfind]. rewrite (IH Hp). change (str "/") with [47]. cbn [starts_with].
  by destruct (Z.eqb_spec 47 b).
Qed.
Lemma rfind_slash a p : 47 ∉ p -> rfind (str "/") (a ++ 47 :: p) = Some (length a).
Proof.
  intros Hp. induction a as [|b a IH]; cbn [app rfind length].
  - rewrite rfind_slash_none by done. change (str "/") with [47]. done.
  - by rewrite IH.
Qed.
Lemma parent_of_slashed qs p : Forall piece qs -> 47 ∉ p -> parent_of (slashed (qs ++ [p])) = slashed qs.
Proof.
  intros Hqs Hp. unfold parent_of. destruct (decide (qs = [])) as [->|Hne]; [cbn [app join]; by rewrite rfind_slash_none|].
  rewrite join_app by done. cbn [join]. change (slashed qs ++ str "/" ++ p) with (slashed qs ++ 47 :: p).
  rewrite rfind_slash by done. by rewrite take_app_length.
Qed.

(** * Orders *)

Lemma bytes_ltb_prefix a b : b <> [] -> bytes_ltb a (a ++ b) = true.
Proof. intros Hb. induction a as [|x a IH]; cbn; [by destruct b|]. by rewrite Z.ltb_irrefl, Z.eqb_refl, IH. Qed.

Lemma bytes_ltb_trans a b c : bytes_ltb a b = true -> bytes_ltb b c = true -> bytes_ltb a c = true.
Proof. exact (ltb_trans (A := bytes) a b c). Qed.
Lemma bytes_ltb_total a b : bytes_ltb a b = false -> bytes_ltb b a = false -> a = b.
Proof. exact (ltb_total (A := bytes) a b). Qed.

Lemma bytes_cmp_opp a b : bytes_cmp b a = CompOpp (bytes_cmp a b).
Proof.
  unfold bytes_cmp. destruct (bytes_ltb a b) eqn:E1, (bytes_ltb b a) eqn:E2; try done.
  pose proof (bytes_ltb_trans _ _ _ E1 E2) as H. by rewrite bytes_ltb_irrefl in H.
Qed.
Lemma then_opp c d c' d' : c' = CompOpp c -> d' = CompOpp d -> then_with c' d' = CompOpp (then_with c d).
Proof. intros -> ->. by destruct c. Qed.
Lemma entry_cmp_opp l r : entry_cmp r l = CompOpp (entry_cmp l r).
Proof. unfold entry_cmp. repeat apply then_opp; try apply bytes_cmp_opp. by destruct (is_directory l), (is_directory r). Qed.
Lemma deep_cmp_opp l r : deep_cmp r l = CompOpp (deep_cmp l r).
Proof. apply then_opp; [apply bytes_cmp_opp|apply entry_cmp_opp]. Qed.
#[export] Instance not_after_entry_total : Total (not_after entry_cmp).
Proof. intros l r. unfold not_after. rewrite (entry_cmp_opp l r). destruct (entry_cmp l r); [left|left|right]; done. Qed.
#[export] Instance not_after_deep_total : Total (not_after deep_cmp).
Proof. intros l r. unfold not_after. rewrite (deep_cmp_opp l r). destruct (deep_cmp l r); [left|left|right]; done. Qed.

(** What the deep order says of the directories. *)
Definition parent_le (l r : DirectoryFileEntry) : Prop := bytes_ltb (parent_of (path r)) (parent_of (path l)) = false.
Lemma deep_parent_le l r : not_after deep_cmp l r -> parent_le l r.
Proof.
  unfold not_after, parent_le, deep_cmp, bytes_cmp. destruct (bytes_ltb (parent_of (path l)) (parent_of (path r))) eqn:E.
  - intros _. destruct (bytes_ltb (parent_of (path r)) (parent_of (path l))) eqn:E2; [|done].
    pose proof (bytes_ltb_trans _ _ _ E E2) as H. by rewrite bytes_ltb_irrefl in H.
  - by destruct (bytes_ltb (parent_of (path r)) (parent_of (path l))).
Qed.
#[export] Instance parent_le_trans : Transitive parent_le.
Proof.
  intros x y z. unfold parent_le. generalize (parent_of (path x)), (parent_of (path y)), (parent_of (path z)). intros a b c H1 H2.
  destruct (bytes_ltb c a) eqn:E; [|done]. destruct (bytes_ltb b c) eqn:E2.
  - by rewrite (bytes_ltb_trans _ _ _ E2 E) in H1.
  - rewrite (bytes_ltb_total _ _ E2 H2) in H1. congruence.
Qed.

Lemma sort_permutes cmp l : sort_by cmp l ≡ₚ l.
Proof. apply merge_sort_Permutation. Qed.
Lemma elem_of_sorted cmp l e : e ∈ sort_by cmp l <-> e ∈ l.
Proof. by rewrite sort_permutes. Qed.
Lemma deep_sorted l : StronglySorted parent_le (sort_deep_entries l).
Proof.
  apply Sorted_StronglySorted; [exact parent_le_trans|].
  pose proof (Sorted_merge_sort (not_after deep_cmp) l) as H. unfold sort_deep_entries, sort_by.
  induction H as [|x k Hk IH Hx]; constructor; [done|]. destruct Hx; constructor. by apply deep_parent_le.
Qed.

(** What must come before an entry that is kept is kept. *)
Lemma kept_before (R : relation DirectoryFileEntry) l n e e' :
  StronglySorted R l -> e ∈ take n l -> e' ∈ l -> ~ R e e' -> e' ∈ take n l.
Proof.
  intros Hs He He' HR. rewrite <- (take_drop n l) in Hs, He'. apply elem_of_app in He' as [He'|He']; [done|].
  exfalso. apply HR. eapply StronglySorted_app_1_elem_of; done.
Qed.

(** * The deep map *)

(** The entry of the pieces [q], as inserted for a path of the pieces [ps]. *)
Definition deep_entry (q ps : list bytes) : DirectoryFileEntry :=
  mkEntry (slashed q) (default [] (last q)) (if bool_decide (q = ps) then FILE else DIRECTORY) (zlen q - 1).

Lemma insert_parts_spec qs rest m : Forall piece (qs ++ rest) ->
  let m' := insert_parts (slashed qs) (zlen qs) rest m in
  (forall k e, m !! k = Some e -> m' !! k = Some e) /\
  (forall k e, m' !! k = Some e -> m !! k = Some e \/
     exists q r, rest = q ++ r /\ q <> [] /\ k = slashed (qs ++ q) /\ e = deep_entry (qs ++ q) (qs ++ rest)) /\
  (forall q r, rest = q ++ r -> q <> [] -> is_Some (m' !! slashed (qs ++ q))).
Proof.
  revert qs m. induction rest as [|p rest IH]; intros qs m Hp; cbn [insert_parts]; cbv zeta.
  { split_and!; [done|by left|]. intros [|x q] r E Hq; done. }
  assert (Hqs : Forall piece qs) by (by apply Forall_app in Hp as [H _]). rewrite child_of_slashed by done.
  assert (Hp' : Forall piece ((qs ++ [p]) ++ rest)) by (by rewrite <- app_assoc).
  assert (Hlen : zlen qs + 1 = zlen (qs ++ [p])) by (by rewrite zlen_app, zlen_cons, zlen_nil; lia). rewrite Hlen.
  set (k0 := slashed (qs ++ [p])). set (e0 := mkEntry k0 p (match rest with [] => FILE | _ => DIRECTORY end) (zlen qs)).
  set (m1 := match m !! k0 with Some _ => m | None => <[k0 := e0]> m end).
  assert (He0 : e0 = deep_entry (qs ++ [p]) (qs ++ p :: rest)).
  { unfold e0, deep_entry. rewrite last_snoc. cbn [default]. f_equal; [|rewrite <- Hlen; lia].
    destruct rest as [|r rest]; [by rewrite bool_decide_true|]. rewrite bool_decide_false; [done|]. intros [=]%app_inv_head. }
  assert (H1 : forall k e, m !! k = Some e -> m1 !! k = Some e).
  { intros k e Hk. unfold m1. destruct (m !! k0) eqn:E; [done|]. rewrite lookup_insert_ne; [done|]. intros E2. rewrite E2 in E. congruence. }
  assert (H2 : forall k e, m1 !! k = Some e -> m !! k = Some e \/ k = k0 /\ e = e0).
  { intros k e. unfold m1. destruct (m !! k0); [by left|]. intros [[<- <-]|[_ Hk]]%lookup_insert_Some; [by right|by left]. }
  assert (H3 : is_Some (m1 !! k0)).
  { unfold m1. destruct (m !! k0) eqn:E; [by rewrite E|]. by rewrite lookup_insert_eq. }
  assert (Hm : insert_parts k0 (zlen (qs ++ [p])) rest m1 =
    insert_parts (slashed (qs ++ [p])) (zlen (qs ++ [p])) rest m1) by done.
  destruct (IH (qs ++ [p]) m1 Hp') as (I1 & I2 & I3). cbv zeta in *. fold k0 in I1, I2, I3.
  assert (Eif : (if match rest with [] => true | _ :: _ => false end then FILE else DIRECTORY) = match rest with [] => FILE | _ => DIRECTORY end)
    by (by destruct rest). rewrite Eif. fold e0. fold m1. split_and!.
  - intros k e Hk. by apply I1, H1.
  - intros k e [Hk|(q & r & -> & Hq & -> & ->)]%I2.
    + apply H2 in Hk as [Hk|[-> ->]]; [by left|]. right. exists [p], rest. by split_and!.
    + right. exists (p :: q), r. rewrite <- !app_assoc. by split_and!.
  - intros [|x q] r E Hq; [done|]. injection E as <- E. destruct q as [|y q].
    + destruct H3 as [e H3]. exists e. by apply I1.
    + replace (qs ++ p :: y :: q) with ((qs ++ [p]) ++ y :: q) by (by rewrite <- app_assoc). by eapply I3.
Qed.

(** After the paths [pss]: the keys are their prefixes, and each entry is that of
    its prefix in one of them. *)
Definition deep_map (pss : list (list bytes)) (m : gmap bytes DirectoryFileEntry) : Prop :=
  (forall k e, m !! k = Some e -> exists q ps, ps ∈ pss /\ q `prefix_of` ps /\ q <> [] /\ k = slashed q /\ e = deep_entry q ps) /\
  (forall q ps, ps ∈ pss -> q `prefix_of` ps -> q <> [] -> is_Some (m !! slashed q)).

Lemma deep_map_step pss m p : deep_map pss m -> deep_map (pss ++ [parts_of p]) (insert_with_ancestors m p).
Proof.
  intros [H1 H2]. destruct (insert_parts_spec [] (parts_of p) m (parts_pieces p)) as (I1 & I2 & I3). cbv zeta in *.
  change (insert_parts (slashed []) (zlen []) (parts_of p) m) with (insert_with_ancestors m p) in *. split.
  - intros k e [Hk|(q & r & E & Hq & -> & ->)]%I2.
    + destruct (H1 k e Hk) as (q & ps & Hps & Hrest). exists q, ps. split; [apply elem_of_app; by left|done].
    + exists q, (parts_of p). split; [apply elem_of_app; right; by apply list_elem_of_singleton|]. split; [by exists r|]. by split_and!.
  - intros q ps [Hps|Hps]%elem_of_app [r Hr] Hq.
    + destruct (H2 q ps Hps) as [e He]; [by exists r|done|]. exists e. by apply I1.
    + apply list_elem_of_singleton in Hps as ->. by eapply (I3 q r).
Qed.
Lemma deep_map_of ls : deep_map (parts_of <$> ls) (foldl insert_with_ancestors ∅ ls).
Proof.
  assert (H : forall pss m, deep_map pss m -> deep_map (pss ++ (parts_of <$> ls)) (foldl insert_with_ancestors m ls)).
  { induction ls as [|l ls IH]; intros pss m Hm; cbn [foldl fmap list_fmap]; [by rewrite app_nil_r|].
    specialize (IH _ _ (deep_map_step pss m l Hm)). by rewrite <- app_assoc in IH. }
  apply (H [] ∅). split; [intros k e Hk; inversion Hk|]. by intros q ps ?%not_elem_of_nil.
Qed.

Lemma elem_of_values m e : e ∈ values m <-> exists k, m !! k = Some e.
Proof.
  unfold values. rewrite list_elem_of_fmap. split.
  - intros ([k e'] & -> & H%elem_of_map_to_list). by exists k.
  - intros (k & H). exists (k, e). split; [done|by apply elem_of_map_to_list].
Qed.

(** What sorts before an entry stands before it. *)
Lemma stands_before (R : relation DirectoryFileEntry) l i e d :
  StronglySorted R l -> l !! i = Some e -> d ∈ l -> ~ R e d -> d <> e -> exists j, (j < i)%nat /\ l !! j = Some d.
Proof.
  intros Hs Hi Hd HR Hne. assert (Hin : d ∈ take i l).
  { rewrite <- (take_drop (S i) l) in Hs, Hd. apply elem_of_app in Hd as [Hd|Hd].
    - rewrite (take_S_r _ _ e Hi), elem_of_app, list_elem_of_singleton in Hd. by destruct Hd as [Hd| ->].
    - exfalso. apply HR. eapply StronglySorted_app_1_elem_of; [done| |done]. rewrite (take_S_r _ _ e Hi), elem_of_app, list_elem_of_singleton. by right. }
  apply list_elem_of_lookup in Hin as [j Hj]. apply lookup_take_Some in Hj as [Hj Hlt]. by exists j.
Qed.

Lemma deep_entry_facts q ps : Forall piece ps -> q `prefix_of` ps -> q <> [] ->
  exists d n, q = d ++ [n] /\ Forall piece d /\ piece n /\ parts_of (path (deep_entry q ps)) = q /\
    name (deep_entry q ps) = n /\ depth (deep_entry q ps) = entry_depth (path (deep_entry q ps)) /\ parent_of (path (deep_entry q ps)) = slashed d.
Proof.
  intros Hps [r ->] Hq. apply Forall_app in Hps as [Hps _]. destruct q as [|n d _] using rev_ind; [done|]. pose proof Hps as Hps'. apply Forall_app in Hps' as [Hd Hn].
  apply Forall_inv in Hn. exists d, n. split; [done|]. split; [done|]. split; [done|]. split; [by apply parts_slashed|]. split; [|split].
  - unfold deep_entry. cbn [name]. by rewrite last_snoc.
  - unfold deep_entry, entry_depth. cbn [depth path]. rewrite parts_slashed by done. rewrite zlen_app, zlen_cons, zlen_nil. pose proof (zlen_nonneg d). lia.
  - apply parent_of_slashed; [done|apply Hn].
Qed.

(** What is expanded all at once hangs together. Every entry of a deep listing
    names itself: its name is the last piece of its path, its depth the number of
    pieces above. The directory above it is an entry that comes before it, also
    when the listing was cut at the cap; and when nothing was cut, the paths are
    those of the files git printed and of all directories above them. *)
Theorem deep_listing_hangs_together out ls l :
  git_lines out = Ok ls -> list_git_deep out = Ok l ->
  zlen (entries l) <= MAX_DEEP_ENTRIES /\
  (forall e, e ∈ entries l -> parts_of (path e) <> [] /\ last (parts_of (path e)) = Some (name e) /\ depth e = entry_depth (path e)) /\
  (forall i e, entries l !! i = Some e -> parent_of (path e) = [] \/
     exists j d, (j < i)%nat /\ entries l !! j = Some d /\ path d = parent_of (path e)) /\
  (truncated l = false -> forall k, k ∈ path <$> entries l <-> exists p q, p ∈ ls /\ q `prefix_of` parts_of p /\ q <> [] /\ k = slashed q).
Proof.
  unfold list_git_deep. intros -> [= <-]. cbn [entries truncated]. set (m := foldl insert_with_ancestors ∅ ls). set (all := sort_deep_entries (values m)).
  destruct (deep_map_of ls) as [H1 H2]. fold m in H1, H2.
  assert (Hall : forall e, e ∈ all <-> exists k, m !! k = Some e) by (intros e; unfold all, sort_deep_entries; by rewrite elem_of_sorted, elem_of_values).
  assert (Hps : forall ps, ps ∈ parts_of <$> ls -> Forall piece ps) by (intros ps (p & -> & _)%list_elem_of_fmap; apply parts_pieces).
  assert (Htake : forall e, e ∈ take (Z.to_nat MAX_DEEP_ENTRIES) all -> e ∈ all) by (intros e He; rewrite <- (take_drop (Z.to_nat MAX_DEEP_ENTRIES) all), elem_of_app; by left).
  assert (Hsort : StronglySorted parent_le (take (Z.to_nat MAX_DEEP_ENTRIES) all)).
  { pose proof (deep_sorted (values m)) as Hs. fold all in Hs. rewrite <- (take_drop (Z.to_nat MAX_DEEP_ENTRIES) all) in Hs. by apply StronglySorted_app_1_l in Hs. }
  split_and!.
  - unfold zlen. rewrite length_take. unfold MAX_DEEP_ENTRIES. lia.
  - intros e He. apply Htake, Hall in He as (k & Hk). destruct (H1 k e Hk) as (q & ps & Hin & Hpre & Hq & _ & ->).
    destruct (deep_entry_facts q ps (Hps ps Hin) Hpre Hq) as (d & n & Eq & _ & _ & Ep & En & Ed & _). rewrite Ep, En, Ed, Eq, last_snoc.
    split; [by destruct d|done].
  - intros i e Hi. assert (He : e ∈ take (Z.to_nat MAX_DEEP_ENTRIES) all) by (by eapply list_elem_of_lookup_2).
    pose proof (proj1 (Hall e) (Htake e He)) as (k & Hk). destruct (H1 k e Hk) as (q & ps & Hin & Hpre & Hq & _ & E).
    destruct (deep_entry_facts q ps (Hps ps Hin) Hpre Hq) as (d & n & Eq & Hd & Hn & _ & _ & _ & Hpar). rewrite <- E in Hpar.
    destruct (decide (d = [])) as [->|Hdne]; [by left|]. right.
    assert (Hdpre : d `prefix_of` ps) by (etransitivity; [|exact Hpre]; rewrite Eq; by exists [n]).
    destruct (H2 d ps Hin Hdpre Hdne) as (f & Hf). destruct (H1 _ _ Hf) as (q' & ps' & Hin' & Hpre' & Hq' & Ekey & Ef).
    destruct (deep_entry_facts q' ps' (Hps ps' Hin') Hpre' Hq') as (d' & n' & Eq' & Hd' & Hn' & _ & _ & _ & Hpar').
    assert (Epath : path f = slashed d) by (by rewrite Ef, Ekey). rewrite <- Ef in Hpar'.
    assert (Hq'd : q' = d).
    { apply slashed_inj; [|done|by rewrite <- Ekey]. rewrite Eq'. apply Forall_app. by split; [|constructor]. }
    assert (Hlt : bytes_ltb (parent_of (path f)) (parent_of (path e)) = true).
    { rewrite Hpar, Hpar', <- Hq'd, Eq'. destruct (decide (d' = [])) as [->|Hd'ne].
      - cbn [app join]. destruct Hn' as [Hn' _]. by destruct n'.
      - rewrite join_app by done. by apply bytes_ltb_prefix. }
    destruct (stands_before parent_le _ i e f Hsort Hi) as (j & Hj & Hjf).
    + eapply kept_before; [exact (deep_sorted (values m))|exact He|apply Hall; by exists (slashed d)|]. unfold parent_le. by rewrite Hlt.
    + unfold parent_le. by rewrite Hlt.
    + intros ->. by rewrite bytes_ltb_irrefl in Hlt.
    + exists j, f. by rewrite Epath, Hpar.
  - intros Ht k. rewrite firstn_all2 by (unfold zlen in Ht; lia). rewrite list_elem_of_fmap. split.
    + intros (e & -> & (k' & Hk)%Hall). destruct (H1 k' e Hk) as (q & ps & Hin & Hpre & Hq & _ & ->). apply list_elem_of_fmap in Hin as (p & -> & Hp).
      by exists p, q.
    + intros (p & q & Hp & Hpre & Hq & ->). destruct (H2 q (parts_of p)) as (e & He); [by apply list_elem_of_fmap_2|done|done|].
      exists e. split; [|apply Hall; by exists (slashed q)]. destruct (H1 _ _ He) as (q' & ps' & _ & _ & _ & Ek & ->). done.
Qed.

(** * One level of the tree *)

Lemma contains_byte b s : contains [b] s = true <-> b ∈ s.
Proof.
  induction s as [|x s IH]; cbn [contains starts_with]; [by rewrite elem_of_nil|]. rewrite orb_true_iff, IH, elem_of_cons, andb_true_r, Z.eqb_eq. done.
Qed.
Lemma slashed_contains n rest : piece n -> contains (str "/") (slashed (n :: rest)) = bool_decide (rest <> []).
Proof.
  intros [_ Hn]. change (str "/") with [47]. destruct rest as [|r rest].
  - cbn [join]. rewrite bool_decide_false by tauto. destruct (contains [47] n) eqn:E; [by apply contains_byte in E|done].
  - rewrite bool_decide_true by done. apply contains_byte. rewrite join_cons by done. rewrite elem_of_app. right. rewrite elem_of_app. left. by apply list_elem_of_here.
Qed.

Section level.
Context (pp : list bytes) (Hpp : Forall piece pp).

(** The child of the directory [pp] a listed path is or lies under, and which. *)
Definition under (ps : list bytes) : option (bytes * bool) :=
  if bool_decide (pp `prefix_of` ps) then
    match drop (length pp) ps with n :: rest => Some (n, bool_decide (rest <> [])) | [] => None end
  else None.

Lemma under_app n rest : under (pp ++ n :: rest) = Some (n, bool_decide (rest <> [])).
Proof. unfold under. rewrite bool_decide_true by (by exists (n :: rest)). by rewrite drop_app_length. Qed.
Lemma under_inv ps n b : under ps = Some (n, b) -> exists rest, ps = pp ++ n :: rest /\ b = bool_decide (rest <> []).
Proof.
  unfold under. destruct (bool_decide_reflect (pp `prefix_of` ps)) as [[r ->]|]; [|done]. rewrite drop_app_length.
  destruct r as [|x r]; [done|]. intros [= <- <-]. by exists r.
Qed.

Lemma remainder_spec ps : ps <> [] -> Forall piece ps ->
  (if bool_decide (slashed pp = []) then Some (slashed ps) else strip_prefix (slashed pp ++ str "/") (slashed ps)) =
  (if bool_decide (pp `prefix_of` ps /\ drop (length pp) ps <> []) then Some (slashed (drop (length pp) ps)) else None).
Proof using Hpp.
  intros Hne Hps. destruct (bool_decide_reflect (slashed pp = [])) as [E|E].
  { apply slashed_nil in E as ->; [|done]. rewrite bool_decide_true; [done|]. split; [apply prefix_nil|done]. }
  assert (Hppne : pp <> []) by (by intros ->). unfold strip_prefix.
  destruct (bool_decide_reflect (pp `prefix_of` ps /\ drop (length pp) ps <> [])) as [[[r ->] Hr]|Hno].
  - rewrite drop_app_length in *. rewrite join_app, app_assoc by done. rewrite starts_with_app, drop_app_length. done.
  - destruct (starts_with (slashed pp ++ str "/") (slashed ps)) eqn:Es; [|done]. exfalso. apply Hno. apply starts_with_iff in Es as [r Er].
    assert (Eps : ps = pp ++ split_on 47 r).
    { rewrite <- (split_slashed ps), Er, <- app_assoc by done. change (slashed pp ++ str "/" ++ r) with (slashed pp ++ 47 :: r).
      rewrite split_on_app_sep. by rewrite split_slashed. }
    rewrite Eps. split; [by eexists|]. rewrite drop_app_length. apply split_on_nonempty.
Qed.

Lemma child_step_spec ps m : ps <> [] -> Forall piece ps ->
  child_step (slashed pp) m (slashed ps) =
  match under ps with
  | None => m
  | Some (n, b) =>
      let k := slashed (pp ++ [n]) in
      match m !! k with
      | Some e => if (b : bool) then <[k := mkEntry (path e) (name e) DIRECTORY (depth e)]> m else m
      | None => <[k := mkEntry k n (if b then DIRECTORY else FILE) (zlen pp)]> m
      end
  end.
Proof using Hpp.
  intros Hne Hps. unfold child_step. rewrite remainder_spec by done. unfold under.
  destruct (bool_decide_reflect (pp `prefix_of` ps)) as [Hpre|Hpre].
  2: { rewrite bool_decide_false; [done|]. by intros [H _]. }
  destruct (drop (length pp) ps) as [|n rest] eqn:Ed; [rewrite bool_decide_false; [done|]; by intros [_ H]|].
  rewrite bool_decide_true by done. assert (Hr : Forall piece (n :: rest)) by (rewrite <- Ed; by apply Forall_drop).
  rewrite parts_slashed by done. rewrite child_of_slashed by done. rewrite slashed_contains by (by apply Forall_inv in Hr).
  assert (Hd : entry_depth (slashed (pp ++ [n])) = zlen pp).
  { unfold entry_depth. rewrite parts_slashed; [zlen_lia|].
    apply Forall_app. split; [done|]. constructor; [by apply Forall_inv in Hr|constructor]. }
  rewrite Hd. by destruct (bool_decide (rest <> [])).
Qed.

Definition child_entry (us : list (bytes * bool)) (n : bytes) : DirectoryFileEntry :=
  mkEntry (slashed (pp ++ [n])) n (if bool_decide ((n, true) ∈ us) then DIRECTORY else FILE) (zlen pp).
Definition child_map (us : list (bytes * bool)) (m : gmap bytes DirectoryFileEntry) : Prop :=
  forall k e, m !! k = Some e <-> exists n, n ∈ us.*1 /\ k = slashed (pp ++ [n]) /\ e = child_entry us n.

Lemma slashed_child n n' : piece n -> piece n' -> slashed (pp ++ [n]) = slashed (pp ++ [n']) -> n = n'.
Proof using Hpp.
  intros Hn Hn' E. apply slashed_inj in E; [by simplify_list_eq|..]; apply Forall_app; by split; [|constructor].
Qed.
Lemma child_entry_other us n n' b : n <> n' -> child_entry (us ++ [(n', b)]) n = child_entry us n.
Proof.
  intros Hne. unfold child_entry. f_equal. assert (H : (n, true) ∈ us ++ [(n', b)] <-> (n, true) ∈ us).
  { rewrite elem_of_app, list_elem_of_singleton. split; [intros [H|[= E _]]; [done|congruence]|by left]. }
  by rewrite (bool_decide_ext _ _ H).
Qed.

Lemma child_map_step us m ps :
  Forall piece us.*1 -> ps <> [] -> Forall piece ps -> child_map us m -> child_map (us ++ option_list (under ps)) (child_step (slashed pp) m (slashed ps)).
Proof using Hpp.
  intros Hus Hne Hps Hm. rewrite child_step_spec by done. destruct (under ps) as [[n b]|] eqn:Eu; cbn [option_list]; [|by rewrite app_nil_r].
  assert (Hn : piece n). { apply under_inv in Eu as (rest & -> & _). apply Forall_app in Hps as [_ Hps]. by apply Forall_inv in Hps. }
  assert (Hin : forall x, x ∈ (us ++ [(n, b)]).*1 <-> x ∈ us.*1 \/ x = n) by (intros x; rewrite fmap_app, elem_of_app; change ([(n, b)].*1) with [n]; by rewrite list_elem_of_singleton).
  assert (Hinus : forall x, x ∈ us.*1 -> piece x) by (intros x Hx; rewrite Forall_forall in Hus; by apply Hus).
  assert (Hother : forall k e, k <> slashed (pp ++ [n]) -> m !! k = Some e <->
    exists x, x ∈ (us ++ [(n, b)]).*1 /\ k = slashed (pp ++ [x]) /\ e = child_entry (us ++ [(n, b)]) x).
  { intros k e Hk. rewrite (Hm k e). split; intros (x & Hx & -> & ->); exists x.
    - split; [apply Hin; by left|]. split; [done|]. rewrite child_entry_other; [done|]. by intros ->.
    - apply Hin in Hx as [Hx| ->]; [|done]. split; [done|]. split; [done|]. rewrite child_entry_other; [done|]. by intros ->. }
  cbv zeta. set (k0 := slashed (pp ++ [n])) in *.
  assert (Hk0 : forall e, (exists x, x ∈ (us ++ [(n, b)]).*1 /\ k0 = slashed (pp ++ [x]) /\ e = child_entry (us ++ [(n, b)]) x) <->
    e = child_entry (us ++ [(n, b)]) n).
  { intros e. split; [|intros ->; exists n; split_and!; [apply Hin; by right|done|done]]. intros (x & Hx & Ek & ->).
    f_equal. symmetry. apply slashed_child; [done| |exact Ek]. apply Hin in Hx as [Hx| ->]; [by apply Hinus|done]. }
  destruct (m !! k0) as [e0|] eqn:E0.
  - pose proof (proj1 (Hm k0 e0) E0) as (x & Hx & Ek & Ee).
    assert (Hxn : x = n) by (symmetry; apply slashed_child; [done|by apply Hinus|exact Ek]). rewrite Hxn in Ee.
    assert (Hnew : child_entry (us ++ [(n, b)]) n = if b then mkEntry (path e0) (name e0) DIRECTORY (depth e0) else e0).
    { rewrite Ee. unfold child_entry. destruct b; cbn [path name depth].
      - rewrite bool_decide_true; [done|]. apply elem_of_app. right. by apply list_elem_of_singleton.
      - f_equal. assert (H : (n, true) ∈ us ++ [(n, false)] <-> (n, true) ∈ us) by (rewrite elem_of_app, list_elem_of_singleton; split; [by intros [H|[=]]|by left]).
        by rewrite (bool_decide_ext _ _ H). }
    intros k e. destruct (decide (k = k0)) as [->|Hk].
    + rewrite Hk0, Hnew. destruct b; [rewrite lookup_insert_eq|rewrite E0]; (split; [by intros [= <-]|by intros ->]).
    + rewrite <- Hother by done. destruct b; [by rewrite lookup_insert_ne|done].
  - intros k e. destruct (decide (k = k0)) as [->|Hk]; [|rewrite lookup_insert_ne by done; by apply Hother].
    rewrite lookup_insert_eq, Hk0. assert (Hnin : forall b', (n, b') ∉ us).
    { intros b' Hb. assert (H : m !! k0 = Some (child_entry us n)); [|congruence]. apply Hm. exists n. split; [|done].
      apply list_elem_of_fmap. by exists (n, b'). }
    assert (Hnew : child_entry (us ++ [(n, b)]) n = mkEntry k0 n (if b then DIRECTORY else FILE) (zlen pp)).
    { unfold child_entry. f_equal. destruct b.
      - rewrite bool_decide_true; [done|]. apply elem_of_app. right. by apply list_elem_of_singleton.
      - rewrite bool_decide_false; [done|]. intros [H|H%list_elem_of_singleton]%elem_of_app; [by eapply Hnin|done]. }
    rewrite Hnew. split; [by intros [= <-]|by intros ->].
Qed.

Lemma child_map_of pss : Forall (fun ps => ps <> [] /\ Forall piece ps) pss ->
  child_map (omap under pss) (foldl (child_step (slashed pp)) ∅ (slashed <$> pss)).
Proof using Hpp.
  intros Hpss. assert (H : forall us m, Forall piece us.*1 -> child_map us m ->
    child_map (us ++ omap under pss) (foldl (child_step (slashed pp)) m (slashed <$> pss))).
  { induction Hpss as [|ps pss [Hne Hps] Hpss IH]; intros us m Hus Hm; cbn [fmap list_fmap foldl omap list_omap]; [by rewrite app_nil_r|].
    assert (Hus' : Forall piece (us ++ option_list (under ps)).*1).
    { rewrite fmap_app. apply Forall_app. split; [done|]. destruct (under ps) as [[n b]|] eqn:Eu; [|constructor].
      apply under_inv in Eu as (rest & -> & _). apply Forall_app in Hps as [_ Hps]. cbn. constructor; [by apply Forall_inv in Hps|constructor]. }
    specialize (IH _ _ Hus' (child_map_step us m ps Hus Hne Hps Hm)). rewrite <- app_assoc in IH. by destruct (under ps). }
  apply (H [] ∅); [constructor|]. intros k e. split; [intros Hk; inversion Hk|]. by intros (n & Hn%not_elem_of_nil & _).
Qed.
End level.

(** The two views of a repository agree. For what git lists, as long as no
    listed path is also a directory of another, the children shown of a directory
    are exactly the entries of the whole listing, before any cut, that stand in
    it, with the same names, kinds and depths. *)
Theorem levels_agree_with_deep pp pss e :
  Forall piece pp -> Forall (fun ps => ps <> [] /\ Forall piece ps) pss ->
  (forall ps ps', ps ∈ pss -> ps' ∈ pss -> ps `prefix_of` ps' -> ps = ps') ->
  e ∈ values (foldl (child_step (slashed pp)) ∅ (slashed <$> pss)) <->
  e ∈ values (foldl insert_with_ancestors ∅ (slashed <$> pss)) /\ parent_of (path e) = slashed pp.
Proof.
  intros Hpp Hpss Hconf. pose proof (child_map_of pp Hpp pss Hpss) as Hc. pose proof (deep_map_of (slashed <$> pss)) as [H1 H2].
  assert (Eps : parts_of <$> (slashed <$> pss) = pss).
  { clear -Hpss. induction Hpss as [|ps pss [_ Hps] _ IH]; [done|]. rewrite !fmap_cons, parts_slashed by done. by f_equal. }
  rewrite Eps in H1, H2. set (md := foldl insert_with_ancestors ∅ (slashed <$> pss)) in *. set (mc := foldl _ _ _) in *.
  assert (Hpieces : forall ps, ps ∈ pss -> Forall piece ps) by (intros ps Hps; rewrite Forall_forall in Hpss; by apply Hpss).
  (* The two entries of one path are the same. *)
  assert (Hsame : forall n rest, pp ++ n :: rest ∈ pss -> deep_entry (pp ++ [n]) (pp ++ n :: rest) = child_entry pp (omap (under pp) pss) n).
  { intros n rest Hin. unfold deep_entry, child_entry. rewrite last_snoc. cbn [default]. f_equal; [|zlen_lia].
    destruct (bool_decide_reflect (pp ++ [n] = pp ++ n :: rest)) as [E|E].
    - rewrite bool_decide_false; [done|]. intros (ps & Hps & Hu)%list_elem_of_omap. apply under_inv in Hu as (r & -> & Hr).
      symmetry in Hr. apply bool_decide_eq_true in Hr. assert (E2 : pp ++ n :: rest = pp ++ n :: r).
      { apply Hconf; [done|done|]. rewrite <- E. exists r. by rewrite <- app_assoc. }
      rewrite <- E in E2. apply app_inv_head in E2. by injection E2 as <-.
    - rewrite bool_decide_true; [done|]. apply list_elem_of_omap. exists (pp ++ n :: rest). split; [done|]. rewrite under_app. f_equal. f_equal.
      apply bool_decide_eq_true. by intros ->. }
  rewrite !elem_of_values. split.
  - intros (k & (n & Hn & -> & ->)%Hc). apply list_elem_of_fmap in Hn as ([n' b] & -> & Hb). apply list_elem_of_omap in Hb as (ps & Hps & Hu).
    apply under_inv in Hu as (rest & -> & _). cbn [fst]. pose proof (Hpieces _ Hps) as Hp. apply Forall_app in Hp as [_ Hp]. apply Forall_inv in Hp.
    assert (Hpre : pp ++ [n'] `prefix_of` pp ++ n' :: rest) by (exists rest; by rewrite <- app_assoc).
    destruct (H2 (pp ++ [n']) _ Hps Hpre) as (e & He); [by destruct pp|]. destruct (H1 _ _ He) as (q & ps & Hps' & Hpre' & Hq & Ek & Ee).
    assert (Eq : q = pp ++ [n']).
    { symmetry. apply slashed_inj; [apply Forall_app; by split; [|constructor]| |done]. destruct Hpre' as [r Hr]. pose proof (Hpieces _ Hps') as Hp'. rewrite Hr in Hp'. apply Forall_app in Hp' as [Hp' _]. exact Hp'. }
    subst q. destruct Hpre' as [r Hr]. rewrite <- app_assoc in Hr. cbn in Hr. subst ps. rewrite Hsame in Ee by done.
    split; [exists (slashed (pp ++ [n'])); by rewrite He, Ee|]. cbn [path child_entry]. apply parent_of_slashed; [done|apply Hp].
  - intros [(k & Hk) Hpar]. destruct (H1 k e Hk) as (q & ps & Hps & Hpre & Hq & -> & Ee).
    destruct (deep_entry_facts q ps (Hpieces _ Hps) Hpre Hq) as (d & n & Eq & Hd & Hn & _ & _ & _ & Hpar'). rewrite <- Ee, Hpar in Hpar'.
    apply slashed_inj in Hpar'; [|done|done]. subst d q. destruct Hpre as [rest Hr]. rewrite <- app_assoc in Hr. cbn in Hr. subst ps.
    exists (slashed (pp ++ [n])). apply Hc. exists n. split; [|split; [done|by rewrite Ee, Hsame]].
    apply list_elem_of_fmap. exists (n, bool_decide (rest <> [])). split; [done|]. apply list_elem_of_omap. exists (pp ++ n :: rest). split; [done|]. apply under_app.
Qed.

(** * The walk of the file system *)

Section walk.
Context (fs : Files) (root : bytes).

Lemma take_children_spec children queue result queue' result' full :
  take_children children queue result = (queue', result', full) -> zlen result <= MAX_DEEP_ENTRIES ->
  exists got, got `prefix_of` children /\ result' = result ++ got /\ queue' = queue ++ (path <$> filter (fun c => is_directory c = true) got) /\
    zlen result' <= MAX_DEEP_ENTRIES /\ (full = false -> got = children).
Proof.
  revert queue result. induction children as [|c children IH]; intros queue result; cbn [take_children].
  - intros [= <- <- <-] Hz. exists []. cbn. rewrite !app_nil_r. by split_and!.
  - destruct (Z.leb_spec MAX_DEEP_ENTRIES (zlen result)) as [Hf|Hf].
    + intros [= <- <- <-] Hz. exists []. cbn. rewrite !app_nil_r. split; [apply prefix_nil|]. by split_and!.
    + intros E Hz. apply IH in E as (got & Hpre & -> & -> & Hz' & Hfull); [|zlen_lia]. exists (c :: got). rewrite <- !app_assoc.
      split; [by apply prefix_cons|]. split; [done|]. split; [|split; [by rewrite <- app_assoc in Hz'|intros Hff; f_equal; by apply Hfull]].
      destruct (is_directory c) eqn:Ec; [rewrite filter_cons_True by done; cbn; by rewrite <- app_assoc|rewrite filter_cons_False by congruence; done].
Qed.

(** What is waiting to be read are directories that are listed, and each listed
    entry stands in the root or in a listed directory. *)
Record walk_ok (s : list bytes * list DirectoryFileEntry) : Prop := mkWalkOk {
  wo_bound : zlen s.2 <= MAX_DEEP_ENTRIES;
  wo_queue : forall p, p ∈ s.1 -> p = [] \/ exists d, d ∈ s.2 /\ path d = p /\ is_directory d = true;
  wo_parents : forall e, e ∈ s.2 -> exists parent n, path e = child_of parent n /\ name e = n /\
    (parent = [] \/ exists d, d ∈ s.2 /\ path d = parent /\ is_directory d = true)
}.
Definition walk_measure (s : list bytes * list DirectoryFileEntry) : nat := length s.1 + (Z.to_nat MAX_DEEP_ENTRIES - length s.2).

Lemma fs_entries_paths parent l es : fs_entries parent l = Ok es -> forall e, e ∈ es -> path e = child_of parent (name e).
Proof.
  revert es. induction l as [|[[raw [d|x]]|x] l IH]; intros es; cbn [fs_entries]; [by intros [= <-] e ?%not_elem_of_nil| | |done].
  - destruct (bool_decide _); [by apply IH|]. destruct (fs_entries parent l) as [es'|]; [|done]. cbn [result_bind].
    intros [= <-] e [->|He]%elem_of_cons; [done|by eapply IH].
  - destruct (bool_decide _); [by apply IH|done].
Qed.
Lemma children_paths parent es : list_fs_children fs root parent = Ok es -> forall e, e ∈ es -> path e = child_of parent (name e).
Proof.
  unfold list_fs_children. destruct (negb _); [done|]. destruct (read_dir fs _) as [l|]; [|done].
  destruct (fs_entries parent l) as [es'|] eqn:E; [|done]. cbn [result_bind]. intros [= <-] e He. apply elem_of_sorted in He. by eapply fs_entries_paths.
Qed.

(** One turn: what it reads goes to the end of the listing. *)
Lemma deep_turn s : walk_ok s ->
  match deep_body fs root s with
  | inl s' => walk_ok s' /\ (walk_measure s' < walk_measure s)%nat
  | inr (result, full) => walk_ok ([], result)
  end.
Proof.
  intros [Hb Hq Hp]. unfold deep_body. destruct s as [[|parent queue] result]; cbn [fst snd] in *.
  { split; [done| |done]. by intros p ?%not_elem_of_nil. }
  destruct (list_fs_children fs root parent) as [children|] eqn:Ec.
  2: { split; [split; [done| |done]|unfold walk_measure; cbn; lia]. intros p Hin. apply Hq. by apply list_elem_of_further. }
  destruct (take_children children queue result) as [[queue' result'] full] eqn:Et.
  apply take_children_spec in Et as (got & Hpre & -> & -> & Hz & Hfull); [|done].
  assert (Hkeep : forall parent, parent = [] \/ (exists d, d ∈ result /\ path d = parent /\ is_directory d = true) ->
    parent = [] \/ exists d, d ∈ result ++ got /\ path d = parent /\ is_directory d = true).
  { intros x [->|(d & Hd & Hrest)]; [by left|right]. exists d. split; [apply elem_of_app; by left|done]. }
  assert (Hok : forall q, (forall p, p ∈ q -> p ∈ queue \/ p ∈ path <$> filter (fun c => is_directory c = true) got) -> walk_ok (q, result ++ got)).
  { intros q Hsub. split; cbn [fst snd]; [done| |].
    - intros p [Hin|Hin]%Hsub; [apply Hkeep, Hq; by apply list_elem_of_further|]. right.
      apply list_elem_of_fmap in Hin as (d & -> & [Hd Hin]%list_elem_of_filter). exists d. split; [apply elem_of_app; by right|done].
    - intros e [He|He]%elem_of_app.
      + destruct (Hp e He) as (par & n & H1 & H2 & H3). exists par, n. split; [done|]. split; [done|]. by apply Hkeep.
      + exists parent, (name e). split; [|split; [done|apply Hkeep, Hq; by apply list_elem_of_here]].
        eapply children_paths; [done|]. destruct Hpre as [r ->]. apply elem_of_app. by left. }
  destruct full.
  - apply Hok. by intros p ?%not_elem_of_nil.
  - split; [apply Hok; intros p Hin; by apply elem_of_app in Hin|].
    unfold walk_measure. cbn [fst snd length]. rewrite !length_app, length_fmap. pose proof (length_filter (fun c => is_directory c = true) got) as Hf.
    unfold zlen in *. rewrite length_app in Hz. lia.
Qed.

(** C25: the walk of a directory tree ends, whatever the tree is and however it
    changes under the walk: the fuel is one turn for the root and one for each
    entry there can be. The listing is within the cap, and each entry of it is in
    the root or in a directory that is listed too. *)
Theorem fs_walk_ends :
  exists l, list_fs_deep fs root = Some l /\ zlen (entries l) <= MAX_DEEP_ENTRIES /\
    forall e, e ∈ entries l -> exists parent, path e = child_of parent (name e) /\
      (parent = [] \/ exists d, d ∈ entries l /\ path d = parent /\ is_directory d = true).
Proof.
  assert (Hstart : walk_ok ([[]], [])).
  { split; cbn [fst snd]; [done| |by intros e ?%not_elem_of_nil]. intros p ->%list_elem_of_singleton. by left. }
  assert (Hturn : forall s s', walk_ok s -> deep_body fs root s = inl s' -> walk_ok s' /\ (walk_measure s' < walk_measure s)%nat).
  { intros s s' Hs E. pose proof (deep_turn s Hs) as H. by rewrite E in H. }
  destruct (loop_total (deep_body fs root) walk_measure walk_ok list_fs_deep_fuel ([[]], []) Hturn Hstart) as [r Hr].
  { unfold walk_measure, list_fs_deep_fuel. cbn [fst snd length]. unfold MAX_DEEP_ENTRIES. lia. }
  unfold list_fs_deep. rewrite Hr. cbn [fmap option_fmap option_map]. eexists. split; [reflexivity|]. cbn [entries].
  apply loop_loops in Hr. apply (loops_invariant _ walk_ok) in Hr as (s & Hs & E); [|intros s s' Hs E; by apply (Hturn s s')|done].
  pose proof (deep_turn s Hs) as Hend. rewrite E in Hend. destruct r as [result full]. cbn [fst]. destruct Hend as [Hb _ Hp]. cbn [fst snd] in *.
  assert (Hin : forall e, e ∈ sort_deep_entries result <-> e ∈ result) by (intros e; apply elem_of_sorted).
  split; [unfold zlen, sort_deep_entries in *; by rewrite (Permutation_length (sort_permutes deep_cmp result))|].
  intros e He%Hin. destruct (Hp e He) as (parent & n & H1 & H2 & H3). exists parent. rewrite H2. split; [done|].
  destruct H3 as [H3|(d & Hd & H3)]; [by left|right]. exists d. split; [by apply Hin|done].
Qed.
End walk.

(** * The paths the browser is given *)

Lemma trim_start_spec s : exists k, s = replicate k 47 ++ trim_start_slash s /\ head (trim_start_slash s) <> Some 47.
Proof.
  induction s as [|b s (k & E & H)]; [by exists 0%nat|]. cbn [trim_start_slash]. destruct (Z.eqb_spec b 47) as [->|Hb].
  - exists (S k). cbn. by rewrite <- E.
  - exists 0%nat. split; [done|]. cbn. congruence.
Qed.
Lemma split_replicate k p : split_on 47 (replicate k 47 ++ p) = replicate k [] ++ split_on 47 p.
Proof. induction k as [|k IH]; [done|]. cbn [replicate app split_on]. by rewrite IH. Qed.

(** The pieces that are not empty are those of the trimmed text. *)
Lemma trimmed_split s : exists k n, split_on 47 s = replicate k [] ++ split_on 47 (trim_slashes s) ++ replicate n [].
Proof.
  destruct (trim_start_spec s) as (k & E & _). unfold trim_slashes. destruct (trim_end_spec (str "/") (trim_start_slash s)) as (_ & n & En); [done|].
  set (t := trim_end_matches (str "/") (trim_start_slash s)) in *. exists k, n. rewrite E at 1. rewrite split_replicate. f_equal. rewrite En at 1.
  destruct n as [|n]; [by rewrite !app_nil_r|]. change (concat (replicate (S n) (str "/"))) with (47 :: concat (replicate n (str "/"))). rewrite split_on_app_sep. f_equal.
  clear. induction n as [|n IH]; [done|]. change (concat (replicate (S n) (str "/"))) with (47 :: concat (replicate n (str "/"))). cbn [split_on]. by rewrite IH.
Qed.
Lemma trimmed_head s : head (trim_slashes s) <> Some 47.
Proof.
  unfold trim_slashes. destruct (trim_start_spec s) as (_ & _ & H). destruct (trim_end_spec (str "/") (trim_start_slash s)) as (_ & n & En); [done|].
  set (t := trim_end_matches (str "/") (trim_start_slash s)) in *. intros Ht. apply H. rewrite En. by destruct t.
Qed.

Definition kept_pieces (ps : list bytes) : list bytes := filter (fun p => p <> [] /\ p <> str ".") ps.
Lemma normal_pieces ps cs :
  normal_parts (concat (piece_component false <$> ps)) = Some cs -> cs = kept_pieces ps /\ (str "..") ∉ ps.
Proof.
  revert cs. induction ps as [|p ps IH]; intros cs; cbn [fmap list_fmap concat].
  { intros [= <-]. split; [done|apply not_elem_of_nil]. }
  unfold kept_pieces, piece_component at 1. destruct (bytes_eqbP p []) as [->|H1].
  { cbn [app]. intros H. apply IH in H as [-> H]. split; [by rewrite filter_cons_False by (by intros [? ?])|]. by intros [?|?]%elem_of_cons. }
  destruct (bytes_eqbP p (str ".")) as [->|H2].
  { cbn [app]. intros H. apply IH in H as [-> H]. split; [by rewrite filter_cons_False by (by intros [? ?])|]. by intros [?|?]%elem_of_cons. }
  destruct (bytes_eqbP p (str "..")) as [->|H3]; [done|]. cbn [app normal_parts].
  destruct (normal_parts (concat (piece_component false <$> ps))) as [cs'|] eqn:E; cbn [fmap option_fmap option_map]; [|discriminate]. intros [= <-].
  destruct (IH cs' eq_refl) as [-> H]. split; [by rewrite filter_cons_True by done|]. by intros [?|?]%elem_of_cons.
Qed.
Lemma refused_pieces ps : normal_parts (concat (piece_component false <$> ps)) = None -> (str "..") ∈ ps.
Proof.
  induction ps as [|p ps IH]; cbn [fmap list_fmap concat]; [done|]. unfold piece_component at 1.
  destruct (bytes_eqbP p []); [cbn [app]; intros H; by apply list_elem_of_further, IH|].
  destruct (bytes_eqbP p (str ".")); [cbn [app]; intros H; by apply list_elem_of_further, IH|].
  destruct (bytes_eqbP p (str "..")) as [->|]; [intros _; apply list_elem_of_here|]. cbn [app normal_parts].
  destruct (normal_parts _); cbn [fmap option_fmap option_map]; [discriminate|]. intros _. by apply list_elem_of_further, IH.
Qed.

(** The components of a path that does not begin with a slash. *)
Lemma components_relative p : head p <> Some 47 -> p <> [] -> exists first rest, split_on 47 p = first :: rest /\ first <> [] /\
  normal_parts (components p) = normal_parts (concat (piece_component false <$> split_on 47 p)).
Proof.
  intros Hh Hne. unfold components. destruct (split_on 47 p) as [|[|b f] rest] eqn:E; [by apply split_on_nonempty in E| |].
  - exfalso. destruct p as [|b p]; [done|]. cbn [split_on] in E. destruct (Z.eqb_spec b 47) as [->|]; [done|]. by destruct (split_on 47 p).
  - exists (b :: f), rest. split; [done|]. split; [done|]. cbn [fmap list_fmap concat]. unfold piece_component at 1 3. 
    destruct (bytes_eqb (b :: f) []); [done|]. destruct (bytes_eqb (b :: f) (str ".")); [done|]. by destruct (bytes_eqb (b :: f) (str "..")).
Qed.

Lemma proper_piece q : proper q -> piece q.
Proof. by intros (H1 & H2 & _). Qed.
Lemma proper_pieces qs : Forall proper qs -> Forall piece qs.
Proof. intros H. eapply Forall_impl; [exact H|apply proper_piece]. Qed.
Lemma proper_component first q : proper q -> piece_component first q = [Normal q].
Proof. intros (_ & H1 & H2 & H3). unfold piece_component. by rewrite !bytes_eqb_ne by done. Qed.
Lemma components_slashed qs : Forall proper qs -> components (slashed qs) = (Normal <$> qs).
Proof.
  intros Hqs. destruct (decide (qs = [])) as [->|Hne]; [done|]. unfold components. rewrite split_slashed by (done || by apply proper_pieces).
  destruct Hqs as [|q qs Hq Hqs]; [done|]. destruct q as [|b q]; [by destruct Hq as (_ & ? & _)|]. rewrite proper_component by done. cbn [fmap list_fmap app]. f_equal.
  clear Hne Hq. induction Hqs as [|r qs Hr Hqs IH]; [done|]. cbn [fmap list_fmap concat]. rewrite proper_component by done. cbn. by f_equal.
Qed.
Lemma trim_slashed qs : Forall proper qs -> trim_slashes (slashed qs) = slashed qs.
Proof.
  intros Hqs. destruct (decide (qs = [])) as [->|Hne]; [done|]. destruct (trimmed_split (slashed qs)) as (k & n & E).
  rewrite split_slashed in E by (done || by apply proper_pieces).
  assert (Hno : [] ∉ qs) by (intros H; rewrite Forall_forall in Hqs; apply Hqs in H as (_ & H & _); done).
  rewrite E in Hno. destruct k as [|k]; [|exfalso; apply Hno; by apply list_elem_of_here].
  destruct n as [|n]; [|exfalso; apply Hno; rewrite !elem_of_app; right; right; by apply list_elem_of_here].
  cbn [replicate app] in E. rewrite app_nil_r in E.
  transitivity (join [47] (split_on 47 (trim_slashes (slashed qs)))); [symmetry; apply (join_split 47)|]. by rewrite <- E.
Qed.

(** The path the browser is asked for is refused exactly when a part of it is
    "..". Otherwise what is used instead has only names as its parts: joined to the
    root it stays below it; and it stands for itself when it is asked for again. *)
Theorem browser_paths_stay_inside raw :
  match normalize_parent_path raw with
  | Ok p => ((str "..") ∉ split_on 47 (default [] raw)) /\ components p = (Normal <$> parts_of p) /\ Forall proper (parts_of p) /\
      normalize_parent_path (Some p) = Ok p
  | Err _ => (str "..") ∈ split_on 47 (default [] raw)
  end.
Proof.
  assert (Hgood : forall qs, Forall proper qs -> components (slashed qs) = (Normal <$> parts_of (slashed qs)) /\ Forall proper (parts_of (slashed qs)) /\
    normalize_parent_path (Some (slashed qs)) = Ok (slashed qs)).
  { intros qs Hqs. rewrite (parts_slashed qs (proper_pieces qs Hqs)), components_slashed by done. split; [done|]. split; [done|].
    unfold normalize_parent_path. change (default [] (Some (slashed qs))) with (slashed qs). rewrite trim_slashed, components_slashed by done. case_bool_decide as E; [by rewrite E|].
    assert (En : normal_parts (Normal <$> qs) = Some qs) by (clear; induction qs as [|q qs IH]; [done|]; cbn [fmap list_fmap normal_parts]; by rewrite IH). by rewrite En. }
  unfold normalize_parent_path at 1. set (s := default [] raw). destruct (trimmed_split s) as (k & n & Es).
  assert (Hdots : (str "..") ∈ split_on 47 s <-> (str "..") ∈ split_on 47 (trim_slashes s)).
  { rewrite Es, !elem_of_app. split; [|by right; left]. intros [H|[H|H]]; [|done|]; apply elem_of_replicate in H as [H _]; done. }
  destruct (bool_decide_reflect (trim_slashes s = [])) as [E|E].
  - split; [|by apply (Hgood [])]. rewrite Hdots, E. cbn. by intros ?%list_elem_of_singleton.
  - destruct (components_relative (trim_slashes s) (trimmed_head s) E) as (first & rest & _ & _ & ->).
    destruct (normal_parts (concat (piece_component false <$> split_on 47 (trim_slashes s)))) as [cs|] eqn:Ec.
    + apply normal_pieces in Ec as [-> Hnd]. split; [by rewrite Hdots|]. apply Hgood. unfold kept_pieces. apply Forall_forall.
      intros q [[H1 H2] Hq]%list_elem_of_filter. pose proof (split_on_pieces 47 (trim_slashes s)) as Hp. rewrite Forall_forall in Hp.
      split; [by apply Hp|]. split; [done|]. split; [done|]. by intros ->.
    + apply refused_pieces in Ec. by apply Hdots.
Qed.

(** * What is opened *)

Lemma fill_probe_spec filled rs : Forall (fun r => r <> []) rs -> zlen (filled ++ concat rs) <= BINARY_PROBE_BYTES ->
  (zlen filled < BINARY_PROBE_BYTES) -> fill_probe filled ((Ok <$> rs) ++ [Ok []]) = Ok (filled ++ concat rs).
Proof.
  intros Hrs. revert filled. induction Hrs as [|r rs Hr Hrs IH]; intros filled Hz Hf; cbn [fmap list_fmap app concat fill_probe]; [done|].
  cbn [concat] in Hz. rewrite bool_decide_false by done. cbn [orb]. destruct (Z.eqb_spec (zlen filled + zlen r) BINARY_PROBE_BYTES) as [E|E].
  - assert (Hc : concat rs = []) by (apply zlen_zero_nil; rewrite !zlen_app in Hz; pose proof (zlen_nonneg (concat rs)); lia). by rewrite Hc, app_nil_r.
  - rewrite IH; [by rewrite app_assoc|by rewrite <- app_assoc|]. rewrite !zlen_app in Hz. rewrite zlen_app. pose proof (zlen_nonneg (concat rs)). lia.
Qed.

(** The file is what the system calls say of it: its reads give its head in pieces
    of any size. *)
Record serves (files : OpenFile) (p bs : bytes) : Prop := mkServes {
  sv_file : of_is_file files p = true;
  sv_size : of_size files p = Ok (zlen bs);
  sv_read : of_read files p = Ok bs;
  sv_open : exists rs, of_open files p = Ok ((Ok <$> rs) ++ [Ok []]) /\ Forall (fun r => r <> []) rs /\ concat rs = take (Z.to_nat BINARY_PROBE_BYTES) bs
}.

(** What a file of that name and those bytes is shown as. *)
Definition shown_as (base64 : bytes -> bytes) (name bs : bytes) : WorkspaceFileContent :=
  match image_mime_for_name name with
  | Some mime => if MAX_IMAGE_FILE_SIZE <? zlen bs then mkFileContent (str "tooLarge") [] (zlen bs) (Some mime)
                 else mkFileContent (str "image") (base64 bs) (zlen bs) (Some mime)
  | None =>
      if has_nul (if MAX_TEXT_FILE_SIZE <? zlen bs then take (Z.to_nat BINARY_PROBE_BYTES) bs else bs) then mkFileContent (str "binary") [] (zlen bs) None
      else if MAX_TEXT_FILE_SIZE <? zlen bs then mkFileContent (str "tooLarge") [] (zlen bs) None
      else mkFileContent (str "text") (from_utf8_lossy bs) (zlen bs) None
  end.

(** A file is shown as what it is, however its reads are cut: an image by its
    name and size; binary if it has a NUL byte, for which only the head of a file
    over the limit is looked at; otherwise text, all of it and well-formed, up to
    the limit. *)
Theorem opened_file_is_shown base64 fs files root file_path relative bs :
  is_dir fs root = true -> normalize_parent_path (Some file_path) = Ok relative -> relative <> [] ->
  serves files (path_join root relative) bs ->
  read_workspace_file_impl base64 fs files root file_path = Ok (shown_as base64 (default relative (last (split_on 47 relative))) bs).
Proof.
  intros Hd Hn Hne [H1 H2 H3 (rs & H4 & Hrs & H5)]. unfold read_workspace_file_impl, shown_as. rewrite Hd, Hn. cbn [negb result_bind].
  rewrite bool_decide_false, H1, H2 by done. cbn [negb result_bind]. destruct (image_mime_for_name _) as [mime|].
  - destruct (MAX_IMAGE_FILE_SIZE <? zlen bs); [done|]. by rewrite H3.
  - rewrite H4. cbn [result_bind]. rewrite fill_probe_spec; [|done| |done].
    2: { cbn [app]. rewrite H5. unfold zlen. rewrite length_take. unfold BINARY_PROBE_BYTES. lia. }
    cbn [app result_bind]. rewrite H5. destruct (MAX_TEXT_FILE_SIZE <? zlen bs); [by destruct (has_nul _)|]. rewrite H3. cbn [result_bind].
    assert (Hhead : has_nul (take (Z.to_nat BINARY_PROBE_BYTES) bs) = true -> has_nul bs = true).
    { unfold has_nul. rewrite !bool_decide_eq_true. intros H. rewrite <- (take_drop (Z.to_nat BINARY_PROBE_BYTES) bs), elem_of_app. by left. }
    destruct (has_nul (take _ bs)); [by rewrite Hhead|]. by destruct (has_nul bs).
Qed.

(** * Examples *)

Module FileBrowserExamples.
Definition listing (text : bytes) : GitOutput := Printed text.
Definition two_files : bytes := str "src/a.rs" ++ [LF] ++ str "src/lib/b.rs" ++ [LF] ++ str "README.md" ++ [LF].

Lemma deep_listing_hangs_together_witness :
  exists l, list_git_deep (listing two_files) = Ok l /\
    path <$> entries l = [str "src"; str "README.md"; str "src/lib"; str "src/a.rs"; str "src/lib/b.rs"] /\
    (forall e, e ∈ entries l -> depth e = entry_depth (path e)).
Proof.
  destruct (list_git_deep (listing two_files)) as [l|e] eqn:E; [|exfalso; vm_compute in E; discriminate E].
  exists l. split; [done|]. split; [vm_compute in E; injection E as <-; vm_compute; reflexivity|].
  destruct (deep_listing_hangs_together (listing two_files) [str "src/a.rs"; str "src/lib/b.rs"; str "README.md"] l eq_refl E) as (_ & H & _).
  intros e He. by apply H.
Defined.

Definition pieces_of (p : string) : list bytes := parts_of (str p).
Lemma levels_agree_with_deep_witness :
  let pss := [pieces_of "src/a.rs"; pieces_of "src/lib/b.rs"] in
  (mkEntry (str "src/lib") (str "lib") DIRECTORY 1) ∈ values (foldl (child_step (str "src")) ∅ (slashed <$> pss)).
Proof.
  intros pss. apply (levels_agree_with_deep [str "src"] pss).
  - apply (bool_decide_eq_true_1 _). vm_compute. reflexivity.
  - constructor; [split; [done|apply parts_pieces]|]. constructor; [split; [done|apply parts_pieces]|constructor].
  - intros ps ps' [->|[->|[]%not_elem_of_nil]%elem_of_cons]%elem_of_cons [->|[->|[]%not_elem_of_nil]%elem_of_cons]%elem_of_cons [r Hr]; try done;
      vm_compute in Hr; discriminate Hr.
  - split; [|vm_compute; reflexivity]. apply elem_of_values. exists (str "src/lib"). vm_compute. reflexivity.
Defined.

Definition tree : Files := mkFiles (fun _ => true) (fun _ => Ok []).
Definition notes : bytes := str "a note".
Definition one_file : OpenFile := mkOpenFile (fun _ => true) (fun _ => Ok (zlen notes)) (fun _ => Ok notes)
  (fun _ => Ok ((Ok <$> [str "a "; str "note"]) ++ [Ok []])).
Lemma opened_file_is_shown_witness :
  read_workspace_file_impl (fun b => b) tree one_file (str "/w") (str "doc/notes.txt") = Ok (mkFileContent (str "text") notes 6 None).
Proof.
  rewrite (opened_file_is_shown (fun b => b) tree one_file (str "/w") (str "doc/notes.txt") (str "doc/notes.txt") notes); [vm_compute; reflexivity|done| |done|].
  - vm_compute. reflexivity.
  - split; [done..|]. exists [str "a "; str "note"]. split; [done|]. split; [by repeat constructor|]. vm_compute. reflexivity.
Defined.

(** git quotes a path that is not ASCII, unless it is asked not to: the file is
    shown in a directory whose name begins with a quote, and not in its own. *)
Definition quoted : bytes := [34] ++ str "docs/\355\225\234.md" ++ [34; LF].
Lemma names_beyond_ascii_are_shown_quoted :
  (path <$> (match list_git_children (listing quoted) [] with Ok l => l | Err _ => [] end)) = [[34] ++ str "docs"] /\
  list_git_children (listing quoted) (str "docs") = Ok [].
Proof. vm_compute. by split. Qed.

(** A path that is both a file and a directory of another (a file where the index
    still has a directory) is a directory level by level and a file in the whole. *)
Definition replaced : bytes := str "a" ++ [LF] ++ str "a/b" ++ [LF].
Lemma kinds_differ_after_replacement :
  (match list_git_children (listing replaced) [] with Ok l => entry_type <$> l | Err _ => [] end) = [DIRECTORY] /\
  (match list_git_deep (listing replaced) with Ok l => (fun e => (path e, entry_type e)) <$> entries l | Err _ => [] end) =
    [(str "a", FILE); (str "a/b", FILE)].
Proof. vm_compute. by split. Qed.
End FileBrowserExamples.
