(* ===== verification/TmuxSweep.v ===== *)
(** The one-time clean-up of the terminals an older version left in tmux
    (grove-core/src/tmux_sweep.rs). What tmux answers is a function of all the
    commands it was given so far; the marker that the sweep was done is a file. *)

From S2P Require Import Prelude Utf8 Text.

#[local] Open Scope rust_scope.

Definition MARKER_FILENAME : bytes := str "tmux-swept-v1".
Definition GROVE_MANAGED_OPTION : bytes := str "@grove_managed".
Definition GROVE_SESSION_PREFIX : bytes := str "grove-".

Record TmuxServer := mkTmuxServer { socket_name : option bytes }.
Definition user_default : TmuxServer := mkTmuxServer None.
Definition with_socket_name (name : bytes) : TmuxServer := mkTmuxServer (Some name).
Definition command_args (server : TmuxServer) (args : list bytes) : list bytes :=
  match socket_name server with Some socket => str "-L" :: socket :: args | None => args end.

Record SweepReport := mkSweepReport { already_swept : bool; tmux_available : bool; killed : list bytes }.
Definition report_already_swept : SweepReport := mkSweepReport true false [].

Inductive TmuxError := NotFound | Message (m : bytes).

(** What running tmux comes to. *)
Inductive Ran := NoBinary | NotRun (e : bytes) | Output (success : bool) (stdout stderr : bytes).
(** The commands so far, and what is in the directory. *)
Record Sweep := mkSweep { ran : list (list bytes); marker : bool }.
Abbreviation Tmux := (list (list bytes) -> list bytes -> Ran).

Section sweep.
Context (tmux_answers : Tmux) (server : TmuxServer).

Definition tmux (args : list bytes) (s : Sweep) : result (bool * bytes * bytes) TmuxError * Sweep :=
  let args := command_args server args in
  (match tmux_answers (ran s) args with
   | NoBinary => Err NotFound
   | NotRun e => Err (Message (str "failed to execute tmux: " ++ e))
   | Output ok out err => Ok (ok, out, err)
   end, mkSweep (ran s ++ [args]) (marker s)).

Definition output_message (out err : bytes) : bytes :=
  match trim (from_utf8_lossy err) with [] => trim (from_utf8_lossy out) | m => m end.
Definition is_no_server (m : bytes) : bool := contains (str "no server running") m || contains (str "error connecting to") m.
Definition is_session_missing (m : bytes) : bool := contains (str "can't find session") m || is_no_server m.

Definition list_sessions_args : list bytes := [str "list-sessions"; str "-F"; str "#{session_name}"].
Definition show_option_args (session_name option : bytes) : list bytes := [str "show-options"; str "-qv"; str "-t"; session_name; option].
Definition kill_args (session_name : bytes) : list bytes := [str "kill-session"; str "-t"; session_name].

Definition grove_names (out : bytes) : list bytes :=
  filter (fun name => name <> [] /\ starts_with GROVE_SESSION_PREFIX name = true) (trim <$> str_lines (from_utf8_lossy out)).
Definition list_grove_tmux_sessions (s : Sweep) : result (list bytes) TmuxError * Sweep :=
  let (r, s) := tmux list_sessions_args s in
  (match r with
   | Err e => Err e
   | Ok (true, out, _) => Ok (grove_names out)
   | Ok (false, out, err) =>
       let m := output_message out err in
       if is_no_server m then Ok [] else Err (Message (str "failed to list tmux sessions: " ++ m))
   end, s).

Definition session_option (session_name option : bytes) (s : Sweep) : result (Datatypes.option bytes) TmuxError * Sweep :=
  let (r, s) := tmux (show_option_args session_name option) s in
  (match r with
   | Err e => Err e
   | Ok (true, out, _) => Ok (match trim (from_utf8_lossy out) with [] => None | v => Some v end)
   | Ok (false, out, err) =>
       let m := output_message out err in
       if is_session_missing m || bool_decide (m = []) then Ok None
       else Err (Message (str "failed to query tmux option " ++ option ++ str " on " ++ session_name ++ str ": " ++ m))
   end, s).

Definition kill_session_if_exists (session_name : bytes) (s : Sweep) : result unit TmuxError * Sweep :=
  let (r, s) := tmux (kill_args session_name) s in
  (match r with
   | Err e => Err e
   | Ok (true, _, _) => Ok tt
   | Ok (false, out, err) =>
       let m := output_message out err in
       if is_session_missing m then Ok tt else Err (Message (str "failed to kill tmux session " ++ session_name ++ str ": " ++ m))
   end, s).

(** One turn of the loop over the sessions, and whether it leaves the loop; warnings
    are only printed. *)
Definition sweep_one (name : bytes) (killed : list bytes) (s : Sweep) : list bytes * Sweep * bool :=
  let (managed, s) := session_option name GROVE_MANAGED_OPTION s in
  match managed with
  | Ok (Some v) =>
      if bytes_eqb v (str "1") then
        let (r, s) := kill_session_if_exists name s in
        match r with
        | Ok _ => (killed ++ [name], s, false)
        | Err NotFound => (killed, s, true)
        | Err (Message _) => (killed, s, false)
        end
      else (killed, s, false)
  | Ok None => (killed, s, false)
  | Err NotFound => (killed, s, true)
  | Err (Message _) => (killed, s, false)
  end.
Fixpoint sweep_sessions (sessions killed : list bytes) (s : Sweep) : list bytes * Sweep :=
  match sessions with
  | [] => (killed, s)
  | name :: sessions =>
      let '(killed, s, leave) := sweep_one name killed s in
      if (leave : bool) then (killed, s) else sweep_sessions sessions killed s
  end.

Definition sweep_grove_tmux_sessions_on (s : Sweep) : SweepReport * Sweep :=
  let (sessions, s) := list_grove_tmux_sessions s in
  match sessions with
  | Err NotFound => (mkSweepReport false false [], s)
  | Err (Message _) => (mkSweepReport false true [], s)
  | Ok sessions => let (killed, s) := sweep_sessions sessions [] s in (mkSweepReport false true killed, s)
  end.

(** [mkdir_error], [write_error]: what making the directory and writing the marker
    come to. A marker that was written is there. *)
Definition sweep_grove_tmux_sessions_once_on (mkdir_error write_error : option bytes) (s : Sweep) : result SweepReport bytes * Sweep :=
  if marker s then (Ok report_already_swept, s)
  else
    let (report, s) := sweep_grove_tmux_sessions_on s in
    match mkdir_error with
    | Some e => (Err (str "failed to create daemon base dir: " ++ e), s)
    | None =>
        match write_error with
        | Some e => (Err (str "failed to write tmux-sweep marker: " ++ e), s)
        | None => (Ok report, mkSweep (ran s) true)
        end
    end.
End sweep.

Definition sweep_grove_tmux_sessions (t : Tmux) : Sweep -> SweepReport * Sweep := sweep_grove_tmux_sessions_on t user_default.
Definition sweep_grove_tmux_sessions_once (t : Tmux) (mkdir_error write_error : option bytes) : Sweep -> result SweepReport bytes * Sweep :=
  sweep_grove_tmux_sessions_once_on t user_default mkdir_error write_error.

(** * Only managed sessions are killed *)

Section safety.
Context (t : Tmux) (server : TmuxServer).

Definition ask_cmd (name : bytes) : list bytes := command_args server (show_option_args name GROVE_MANAGED_OPTION).
Definition kill_cmd (name : bytes) : list bytes := command_args server (kill_args name).

(** tmux said, after the commands [l], that the session is managed by Grove. *)
Definition said_managed (l : list (list bytes)) (name : bytes) : Prop :=
  exists out err, t l (ask_cmd name) = Output true out err /\ trim (from_utf8_lossy out) = str "1".

(** What the loop over [names] runs, after other commands: each session is asked
    for, and killed right after it was said to be managed. *)
Inductive sweep_log (names : list bytes) : list (list bytes) -> list (list bytes) -> Prop :=
| log_nil before : sweep_log names before []
| log_asked before name l : name ∈ names -> sweep_log names (before ++ [ask_cmd name]) l -> sweep_log names before (ask_cmd name :: l)
| log_killed before name l : name ∈ names -> said_managed before name ->
    sweep_log names (before ++ [ask_cmd name; kill_cmd name]) l -> sweep_log names before (ask_cmd name :: kill_cmd name :: l).

Lemma sweep_one_spec name killed s :
  let '(killed', s', _) := sweep_one t server name killed s in
  marker s' = marker s /\
  (ran s' = ran s ++ [ask_cmd name] /\ killed' = killed \/
   ran s' = ran s ++ [ask_cmd name; kill_cmd name] /\ said_managed (ran s) name /\ (killed' = killed \/ killed' = killed ++ [name])).
Proof.
  assert (Hk : forall s0, (kill_session_if_exists t server name s0).2 = mkSweep (ran s0 ++ [kill_cmd name]) (marker s0)) by done.
  assert (Hm : (session_option t server name GROVE_MANAGED_OPTION s).1 = Ok (Some (str "1")) -> said_managed (ran s) name).
  { unfold session_option, tmux, said_managed. fold (ask_cmd name). destruct (t (ran s) (ask_cmd name)) as [|e|[] out err]; cbn [fst]; try done.
    - intros H. exists out, err. split; [done|]. destruct (trim (from_utf8_lossy out)) as [|b l]; [discriminate H|]. congruence.
    - by destruct (_ || _). }
  assert (Hs : (session_option t server name GROVE_MANAGED_OPTION s).2 = mkSweep (ran s ++ [ask_cmd name]) (marker s)) by done.
  unfold sweep_one. destruct (session_option t server name GROVE_MANAGED_OPTION s) as [r s1]. cbn [fst snd] in Hm, Hs. rewrite Hs.
  destruct r as [[v|]|[|m]]; try (split; [done|by left]). destruct (bytes_eqb v (str "1")) eqn:Ev; [|split; [done|by left]].
  apply bool_decide_eq_true in Ev as ->. specialize (Hk (mkSweep (ran s ++ [ask_cmd name]) (marker s))).
  destruct (kill_session_if_exists t server name _) as [r s2]. cbn [snd ran marker] in Hk. rewrite <- app_assoc in Hk. rewrite Hk.
  destruct r as [[]|[|m]]; (split; [done|]); right; (split; [done|]); (split; [by apply Hm|]); by (left + right).
Qed.

Lemma sweep_sessions_spec names sessions killed s : sessions ⊆ names ->
  let '(killed', s') := sweep_sessions t server sessions killed s in
  marker s' = marker s /\ exists l, ran s' = ran s ++ l /\ sweep_log names (ran s) l /\
    forall x, x ∈ killed' -> x ∈ killed \/ x ∈ sessions /\ kill_cmd x ∈ l.
Proof.
  revert killed s. induction sessions as [|n ns IH]; intros killed s Hsub; cbn [sweep_sessions].
  { split; [done|]. exists []. rewrite app_nil_r. split; [done|]. split; [constructor|]. by left. }
  assert (Hn : n ∈ names) by (apply Hsub, list_elem_of_here).
  assert (Hns : ns ⊆ names) by (intros x Hx; apply Hsub; by apply list_elem_of_further).
  pose proof (sweep_one_spec n killed s) as Hone. destruct (sweep_one t server n killed s) as [[k1 s1] leave]. destruct Hone as [Hmark Hone].
  assert (Hlast : exists l, ran s1 = ran s ++ l /\ (forall l', sweep_log names (ran s1) l' -> sweep_log names (ran s) (l ++ l')) /\
    forall x, x ∈ k1 -> x ∈ killed \/ x = n /\ kill_cmd x ∈ l).
  { destruct Hone as [[Hr ->]|(Hr & Hm & Hk)]; (eexists; split; [exact Hr|]); rewrite Hr; (split; [intros l' H; by constructor|]).
    - by left.
    - intros x Hx. destruct Hk as [->| ->]; [by left|]. apply elem_of_app in Hx as [Hx| ->%list_elem_of_singleton]; [by left|right].
      split; [done|]. apply list_elem_of_further, list_elem_of_here. }
  destruct Hlast as (l & Hr & Hlog & Hk). destruct leave.
  - split; [done|]. exists l. split; [done|]. split; [rewrite <- (app_nil_r l); apply Hlog; constructor|].
    intros x [Hx|[-> Hx]]%Hk; [by left|right]. split; [apply list_elem_of_here|done].
  - specialize (IH k1 s1 Hns). destruct (sweep_sessions t server ns k1 s1) as [k2 s2]. destruct IH as (H1 & l2 & H2 & H3 & H4).
    split; [congruence|]. exists (l ++ l2). split; [by rewrite H2, Hr, app_assoc|]. split; [by apply Hlog|].
    intros x [Hx|[Hx Hx2]]%H4; [apply Hk in Hx as [Hx|[-> Hx]]; [by left|right]|right].
    + split; [apply list_elem_of_here|]. rewrite elem_of_app. by left.
    + split; [by apply list_elem_of_further|]. rewrite elem_of_app. by right.
Qed.

(** C26: the sweep kills only what Grove owns. After the listing it asks for each
    session that was listed under Grove's prefix, in turn, and kills one only
    right after tmux said it is managed by Grove; what it reports as killed was
    killed. *)
Theorem sweep_kills_only_managed s :
  let '(report, s') := sweep_grove_tmux_sessions_on t server s in
  let names := match t (ran s) (command_args server list_sessions_args) with Output true out _ => grove_names out | _ => [] end in
  Forall (fun n => starts_with GROVE_SESSION_PREFIX n = true) names /\ marker s' = marker s /\
  exists l, ran s' = ran s ++ command_args server list_sessions_args :: l /\
    sweep_log names (ran s ++ [command_args server list_sessions_args]) l /\
    forall x, x ∈ killed report -> x ∈ names /\ kill_cmd x ∈ l.
Proof.
  set (listing := command_args server list_sessions_args). unfold sweep_grove_tmux_sessions_on, list_grove_tmux_sessions, tmux. fold listing. cbn [ran marker].
  assert (Hpre : forall out, Forall (fun n => starts_with GROVE_SESSION_PREFIX n = true) (grove_names out)).
  { intros out. apply Forall_forall. by intros n [[_ H] _]%list_elem_of_filter. }
  assert (Hnone : exists l, ran s ++ [listing] = ran s ++ listing :: l /\ sweep_log [] (ran s ++ [listing]) l /\ forall x, x ∈ ([] : list bytes) -> x ∈ ([] : list bytes) /\ kill_cmd x ∈ l).
  { exists []. split; [done|]. split; [constructor|]. by intros x ?%not_elem_of_nil. }
  destruct (t (ran s) listing) as [|e|[] out err].
  1,2: by split_and!.
  - pose proof (sweep_sessions_spec (grove_names out) (grove_names out) [] (mkSweep (ran s ++ [listing]) (marker s)) ltac:(done)) as H.
    destruct (sweep_sessions _ _ _ _ _) as [k s2]. destruct H as (H1 & l & H2 & H3 & H4). cbn [ran marker] in *.
    split; [apply Hpre|]. split; [done|]. exists l. split; [by rewrite H2, <- app_assoc|]. split; [done|]. by intros x [?%not_elem_of_nil|Hx]%H4.
  - destruct (is_no_server (output_message out err)); by split_and!.
Qed.

Lemma sweep_keeps_marker s : marker (sweep_grove_tmux_sessions_on t server s).2 = marker s.
Proof.
  unfold sweep_grove_tmux_sessions_on, list_grove_tmux_sessions, tmux. cbn [ran marker].
  destruct (t (ran s) _) as [|e|[] out err]; try done; [|by destruct (is_no_server _)].
  pose proof (sweep_sessions_spec (grove_names out) (grove_names out) [] (mkSweep (ran s ++ [command_args server list_sessions_args]) (marker s)) ltac:(done)) as H.
  destruct (sweep_sessions _ _ _ _ _) as [k s2]. by destruct H.
Qed.

(** The sweep is done once. A launch that finds the marker runs no command; and
    after a launch whose sweep succeeded no later one runs any, whatever the
    directory and the file system answer then. *)
Theorem sweep_runs_once mkdir_error write_error mkdir_error' write_error' s :
  let '(r, s1) := sweep_grove_tmux_sessions_once_on t server mkdir_error write_error s in
  let '(r', s2) := sweep_grove_tmux_sessions_once_on t server mkdir_error' write_error' s1 in
  (marker s = true -> r = Ok report_already_swept /\ s1 = s) /\
  (is_ok r = true -> r' = Ok report_already_swept /\ s2 = s1) /\
  (is_ok r = false -> marker s1 = false /\ (mkdir_error <> None \/ write_error <> None)).
Proof.
  unfold sweep_grove_tmux_sessions_once_on. pose proof (sweep_keeps_marker s) as Hmark.
  destruct (marker s) eqn:Em; [cbv beta iota; rewrite Em; by split_and!|].
  destruct (sweep_grove_tmux_sessions_on t server s) as [report s1]. cbn [snd] in Hmark.
  destruct mkdir_error as [e|]; [|destruct write_error as [e|]].
  3: by split_and!.
  all: cbv beta iota; rewrite Hmark; destruct (sweep_grove_tmux_sessions_on t server s1) as [report' s2];
    destruct mkdir_error' as [e'|]; [|destruct write_error' as [e'|]]; split_and!; try done; intros _; (split; [done|]); by (left + right).
Qed.
End safety.

Module TmuxSweepExamples.
(** Three sessions, of which two have Grove's prefix and one Grove's mark. *)
Definition answers (_ : list (list bytes)) (args : list bytes) : Ran :=
  match args with
  | c :: rest =>
      if bytes_eqb c (str "list-sessions") then Output true (unlines [str "grove-a"; str "work"; str "grove-notes"]) []
      else if bytes_eqb c (str "show-options") then
        Output true (if bool_decide (str "grove-a" ∈ rest) then str "1" ++ [LF] else []) []
      else Output true [] []
  | [] => NoBinary
  end.
Lemma one_session_is_swept :
  let '(r, s) := sweep_grove_tmux_sessions_once answers None None (mkSweep [] false) in
  r = Ok (mkSweepReport false true [str "grove-a"]) /\ marker s = true /\
  filter (fun c => head c = Some (str "kill-session")) (ran s) = [kill_args (str "grove-a")] /\
  sweep_grove_tmux_sessions_once answers None None s = (Ok report_already_swept, s).
Proof. vm_compute. by split_and!. Qed.
End TmuxSweepExamples.
