(* ===== verification/Cookies.v ===== *)
(** Import of browser cookies (grove-core/src/browser_cookies.rs): finding the
    stores of the browsers, the three readers, the decryption of a Chromium
    value, and the parser of Safari's binary file. SQLite, the key derivation and
    AES in CBC mode are arguments, as are the directories, the files and the
    key chain; where the parser slices a buffer, [None] is a panic. *)

From S2P Require Import Prelude Utf8 Text Protocol.

#[local] Open Scope rust_scope.

Definition CHROMIUM_COOKIE_HMAC_LEN : Z := 32.
Definition CHROMIUM_EPOCH_OFFSET_SECS : Z := 11644473600.
Definition MAC_EPOCH_DELTA_SECS : Z := 978307200.

Record ImportedCookie := mkCookie {
  ck_host : bytes;
  ck_name : bytes;
  ck_value : bytes;
  ck_path : bytes;
  ck_secure : bool;
  ck_http_only : bool;
  ck_expires_utc : option Z;
  ck_same_site : option bytes
}.
Record DetectedBrowser := mkBrowser { br_family : bytes; br_label : bytes; br_available : bool }.
Record ChromiumDef := mkChromiumDef {
  cd_family : bytes;
  cd_label : bytes;
  cd_root : bytes;
  cd_keychain_service : bytes;
  cd_keychain_account : bytes
}.
Definition CHROMIUM_DEFS : list ChromiumDef :=
  [mkChromiumDef (str "chrome") (str "Google Chrome") (str "Google/Chrome") (str "Chrome Safe Storage") (str "Chrome");
   mkChromiumDef (str "arc") (str "Arc") (str "Arc/User Data") (str "Arc Safe Storage") (str "Arc");
   mkChromiumDef (str "brave") (str "Brave") (str "BraveSoftware/Brave-Browser") (str "Brave Safe Storage") (str "Brave");
   mkChromiumDef (str "edge") (str "Microsoft Edge") (str "Microsoft Edge") (str "Microsoft Edge Safe Storage") (str "Microsoft Edge");
   mkChromiumDef (str "chromium") (str "Chromium") (str "Chromium") (str "Chromium Safe Storage") (str "Chromium")].

(** * Where the stores are *)

(** An entry of a directory; [de_dir] is false also when its type is not known. *)
Record DirEntry := mkDirEntry { de_name : bytes; de_dir : bool }.
(** What the functions find: the home directory, the entries of a directory that
    can be read, in the order of the system, the time of a file that is there,
    with the epoch for a time that cannot be read, and whether a path exists. *)
Record Disk := mkDisk {
  home_dir : option bytes;
  read_dir : bytes -> option (list DirEntry);
  modified : bytes -> option Z;
  exists_ : bytes -> bool
}.

Definition app_support_dir (k : Disk) : option bytes :=
  (fun home => path_join (path_join home (str "Library")) (str "Application Support")) <$> home_dir k.

(** The first of the two places in a profile that has a cookie store. *)
Definition profile_db (k : Disk) (dir : bytes) : option (Z * bytes) :=
  let new := path_join (path_join dir (str "Network")) (str "Cookies") in
  let old := path_join dir (str "Cookies") in
  match modified k new with
  | Some t => Some (t, new)
  | None => (fun t => (t, old)) <$> modified k old
  end.
Definition profile_step (k : Disk) (root : bytes) (best : option (Z * bytes)) (e : DirEntry) : option (Z * bytes) :=
  if negb (de_dir e) then best
  else if bytes_eqb (from_utf8_lossy (de_name e)) (str "Guest Profile") ||
          bytes_eqb (from_utf8_lossy (de_name e)) (str "System Profile") then best
  else
    match profile_db k (path_join root (de_name e)) with
    | None => best
    | Some (mtime, db) =>
        match best with
        | Some (t, _) => if t <? mtime then Some (mtime, db) else best
        | None => Some (mtime, db)
        end
    end.
Definition chromium_cookie_path (k : Disk) (def : ChromiumDef) : option bytes :=
  support ← app_support_dir k;
  let root := path_join support (cd_root def) in
  entries ← read_dir k root;
  snd <$> foldl (profile_step k root) None entries.

Definition safari_cookie_path (k : Disk) : option bytes :=
  home ← home_dir k;
  List.find (exists_ k)
    [path_join home (str "Library/Cookies/Cookies.binarycookies");
     path_join home (str "Library/Containers/com.apple.Safari/Data/Library/Cookies/Cookies.binarycookies")].

(** [sort_by_key], which is stable, on three keys; a name that is not UTF-8 has
    the last one. *)
Definition profile_rank (name : bytes) : Z :=
  if negb (utf8_valid name) then 2
  else if contains (str "default-release") name then 0
  else if contains (str "default") name then 1
  else 2.
Definition ranked (r : Z) (names : list bytes) : list bytes := filter (fun n => profile_rank n = r) names.
Definition firefox_cookie_path (k : Disk) : option bytes :=
  support ← app_support_dir k;
  let profiles_root := path_join support (str "Firefox/Profiles") in
  entries ← read_dir k profiles_root;
  let names := de_name <$> filter (fun e => de_dir e = true) entries in
  List.find (exists_ k)
    ((fun n => path_join (path_join profiles_root n) (str "cookies.sqlite")) <$>
       (ranked 0 names ++ ranked 1 names ++ ranked 2 names)).

Definition is_some {A} (o : option A) : bool := match o with Some _ => true | None => false end.
Definition detect_installed_browsers_impl (k : Disk) : list DetectedBrowser :=
  ((fun def => mkBrowser (cd_family def) (cd_label def) (is_some (chromium_cookie_path k def))) <$> CHROMIUM_DEFS)
  ++ [mkBrowser (str "safari") (str "Safari") (is_some (safari_cookie_path k));
      mkBrowser (str "firefox") (str "Firefox") (is_some (firefox_cookie_path k))].

(** * Decryption *)

Definition pkcs7_unpad (data : bytes) : result bytes bytes :=
  match last data with
  | None => Err (str "empty block")
  | Some pad =>
      if (pad =? 0) || (16 <? pad) || (zlen data <? pad) then Err (str "invalid pkcs7 pad length " ++ show_dec pad)
      else if existsb (fun b => negb (b =? pad)) (drop (Z.to_nat (zlen data - pad)) data)
      then Err (str "inconsistent pkcs7 padding")
      else Ok (take (Z.to_nat (zlen data - pad)) data)
  end.

Definition printable_ascii (b : Z) : bool := in_range 32 126 b.
Definition strip_hmac_prefix (plaintext : bytes) : bytes :=
  if zlen plaintext <=? CHROMIUM_COOKIE_HMAC_LEN then plaintext
  else if 8 <=? zlen (filter (fun b => printable_ascii b = false) (take 32 plaintext))
  then drop 32 plaintext else plaintext.

Definition is_digit (b : Z) : bool := in_range 48 57 b.

Definition chromium_micros_to_unix (micros : Z) : option Z :=
  if micros =? 0 then None else Some (Z.quot micros 1000000 - CHROMIUM_EPOCH_OFFSET_SECS).
Definition chromium_same_site (raw : Z) : option bytes :=
  if raw =? 0 then Some (str "no_restriction")
  else if raw =? 1 then Some (str "lax")
  else if raw =? 2 then Some (str "strict")
  else None.
Definition firefox_same_site (raw : Z) : option bytes :=
  if raw =? 0 then Some (str "no_restriction")
  else if raw =? 1 then Some (str "lax")
  else if raw =? 2 then Some (str "strict")
  else None.

(** [strip_prefix('.')], then [to_ascii_lowercase]. *)
Definition bare_host (h : bytes) : bytes := ascii_lower (default h (strip_prefix (str ".") h)).
Definition host_matches_filter (host_key filter_host : bytes) : bool :=
  let cookie_host := bare_host host_key in
  let filter := bare_host filter_host in
  if bool_decide (cookie_host = []) || bool_decide (filter = []) then false
  else bytes_eqb filter cookie_host || ends_with (str "." ++ cookie_host) filter.

(** * Safari's file *)

(** [buf.get(a..b)] gives [None] out of range; the same of [&buf[a..b]] is a
    panic. *)
Definition get_range (buf : bytes) (a b : Z) : option bytes :=
  if (0 <=? a) && (a <=? b) && (b <=? zlen buf) then Some (slice buf a b) else None.

Definition from_be_bytes (l : bytes) : Z := from_le_bytes (rev l).
Definition read_u32_be (buf : bytes) (off : Z) : option Z := from_be_bytes <$> get_range buf off (off + 4).
Definition read_u32_le (buf : bytes) (off : Z) : option Z := from_le_bytes <$> get_range buf off (off + 4).
(** A float is its 64 bits. *)
Definition read_f64_le (buf : bytes) (off : Z) : option Z := from_le_bytes <$> get_range buf off (off + 8).

Fixpoint position (f : Z -> bool) (l : bytes) : option nat :=
  match l with
  | [] => None
  | b :: l => if f b then Some 0%nat else S <$> position f l
  end.

(** The inner option is the result, the outer one whether it panics. *)
Definition read_cstring (buf : bytes) (offset e : Z) : option (option bytes) :=
  if (e <=? offset) || (zlen buf <=? offset) then Some None
  else
    s ← get_range buf offset (Z.min e (zlen buf));
    match position (fun b => b =? 0) s with
    | None => Some None
    | Some nul => t ← get_range s 0 (Z.of_nat nul); Some (Some (from_utf8_lossy t))
    end.

(** [x > 0.0], and [x.round() as i64] of such an [x], which saturates. *)
Definition f64_positive (bits : Z) : bool :=
  (bits / 2 ^ 63 =? 0) && (0 <? bits) && negb ((bits / 2 ^ 52 =? 2047) && negb (bits mod 2 ^ 52 =? 0)).
Definition i64_max : Z := 2 ^ 63 - 1.
Definition f64_round_to_i64 (bits : Z) : Z :=
  let e := bits / 2 ^ 52 in
  let m := bits mod 2 ^ 52 in
  if e =? 2047 then i64_max
  else
    let '(m, x) := if e =? 0 then (m, -1074) else (m + 2 ^ 52, e - 1075) in
    Z.min i64_max (if 0 <=? x then m * 2 ^ x else (m + 2 ^ (- x - 1)) / 2 ^ (- x)).
(** [+] on [i64], which wraps where overflow is not checked. *)
Definition add_i64 (a b : Z) : Z := (a + b + 2 ^ 63) mod 2 ^ 64 - 2 ^ 63.
Definition mac_expiry (bits : Z) : option Z :=
  if f64_positive bits then Some (add_i64 (f64_round_to_i64 bits) MAC_EPOCH_DELTA_SECS) else None.

(** A record that does not parse is [Some None]. *)
Definition if_some {A} (o : option A) (k : A -> option (option ImportedCookie)) : option (option ImportedCookie) :=
  match o with Some a => k a | None => Some None end.
Definition parse_binarycookies_record (buf : bytes) : option (option ImportedCookie) :=
  if zlen buf <? 48 then Some None
  else
    if_some (read_u32_le buf 0) (fun sz =>
    let size := Z.min sz (zlen buf) in
    if size <? 48 then Some None
    else
      if_some (read_u32_le buf 8) (fun flags =>
      if_some (read_u32_le buf 16) (fun url_offset =>
      if_some (read_u32_le buf 20) (fun name_offset =>
      if_some (read_u32_le buf 24) (fun path_offset =>
      if_some (read_u32_le buf 28) (fun value_offset =>
      let expiration := default 0 (read_f64_le buf 40) in
      host ← read_cstring buf url_offset size;
      if_some host (fun host =>
      name ← read_cstring buf name_offset size;
      if_some name (fun name =>
      if bool_decide (name = []) || bool_decide (host = []) then Some None
      else
        value ← read_cstring buf value_offset size;
        path ← read_cstring buf path_offset size;
        Some (Some (mkCookie host name (default [] value) (default (str "/") path)
                (Z.testbit flags 0) (Z.testbit flags 2) (mac_expiry expiration) None)))))))))).

(** One offset of a page. *)
Definition page_cookie (page : bytes) (i : Z) : option (list ImportedCookie) :=
  match read_u32_le page (8 + i * 4) with
  | None => Some []
  | Some offset =>
      if offset <? zlen page then
        record ← get_range page offset (zlen page);
        c ← parse_binarycookies_record record;
        Some (option_list c)
      else Some []
  end.
Definition concat_opt {A} (l : list (option (list A))) : option (list A) := @concat A <$> mapM id l.

Definition parse_binarycookies_page (page : bytes) : option (list ImportedCookie) :=
  if (zlen page <? 8) || negb (bool_decide (read_u32_be page 0 = Some 256)) then Some []
  else
    match read_u32_le page 4 with
    | None => Some []
    | Some cookie_count =>
        if zlen page <? 8 + cookie_count * 4 then Some []
        else concat_opt ((fun i => page_cookie page (Z.of_nat i)) <$> List.seq 0 (Z.to_nat cookie_count))
    end.

(** The sizes are read one after the other, until the file has no more; a turn
    reads four bytes, so there are fewer turns than bytes. *)
Fixpoint read_page_sizes (fuel : nat) (buf : bytes) (count cursor : Z) : option (list Z) :=
  match fuel with
  | O => None
  | S fuel =>
      if count <=? 0 then Some []
      else size ← read_u32_be buf cursor; sizes ← read_page_sizes fuel buf (count - 1) (cursor + 4); Some (size :: sizes)
  end.

Fixpoint parse_pages (buf : bytes) (cursor : Z) (sizes : list Z) : option (list ImportedCookie) :=
  match sizes with
  | [] => Some []
  | size :: sizes =>
      let e := Z.min (Z.min (cursor + size) u64_max) (zlen buf) in
      here ← (if cursor <? e then page ← get_range buf cursor e; parse_binarycookies_page page else Some []);
      rest ← parse_pages buf (cursor + size) sizes;
      Some (here ++ rest)
  end.

(** The count of pages is also what is reserved before any size is read. *)
Definition page_count (buf : bytes) : option Z :=
  if (zlen buf <? 8) || negb (bool_decide (slice buf 0 4 = str "cook")) then None else read_u32_be buf 4.
Definition parse_binarycookies (buf : bytes) : option (list ImportedCookie) :=
  match page_count buf with
  | None => Some []
  | Some count =>
      match read_page_sizes (S (length buf)) buf count 8 with
      | None => Some []
      | Some sizes => parse_pages buf (8 + count * 4) sizes
      end
  end.

(** * The three readers *)

(** What a read does to the outside, in order. *)
Inductive CookieEffect :=
| MakeTempDir
| CopyDb
| CopySidecar (suffix : bytes)
| AskKeychain (service account : bytes)
| RemoveTempDir.

Record RawChromiumRow := mkRawRow {
  host_key : bytes;
  name : bytes;
  value_plain : bytes;
  encrypted_value : bytes;
  path : bytes;
  is_secure : Z;
  is_httponly : Z;
  expires_utc : Z;
  samesite : Z
}.

Section readers.
(** A cell of a row, and the conversions of rusqlite, which can fail. *)
Context {C : Type} (get_string get_bytes : C -> result bytes bytes) (get_i64 : C -> result Z bytes) (null : C).
Context (pbkdf2 : bytes -> bytes) (aes_cbc_decrypt : bytes -> bytes -> bytes -> result bytes bytes).

(** What copying and reading a database comes to. *)
Record DbIo := mkDbIo {
  temp_dir : result unit bytes;
  db_copy : result unit bytes;
  sidecars : list bytes;           (* those of "-wal" and "-shm" that are there *)
  db_open : result unit bytes;
  db_prepare : result unit bytes;
  db_rows : result (list (list C)) bytes
}.
(** The run of [security]: it did not start, it failed, or it printed. *)
Inductive SecurityRun := NotRun (e : bytes) | Denied | Printed (stdout : bytes).

Definition with_context {A} (what : string) (r : result A bytes) : result A bytes :=
  match r with Ok a => Ok a | Err e => Err (str what ++ e) end.

Definition copy_sqlite_to_temp (io : DbIo) : list CookieEffect * result unit bytes :=
  match temp_dir io with
  | Err e => ([], Err (str "could not create temp dir: " ++ e))
  | Ok _ =>
      match db_copy io with
      | Err e => ([MakeTempDir; RemoveTempDir], Err (str "could not copy cookie database: " ++ e))
      | Ok _ => (MakeTempDir :: CopyDb :: (CopySidecar <$> sidecars io), Ok tt)
      end
  end.

Definition cell (row : list C) (i : nat) : C := nth i row null.
Definition or_empty (r : result bytes bytes) : bytes := match r with Ok b => b | Err _ => [] end.
Definition raw_row (row : list C) : result RawChromiumRow bytes :=
  let? host := get_string (cell row 0) in
  let? name := get_string (cell row 1) in
  let plain := or_empty (get_bytes (cell row 2)) in
  let encrypted := or_empty (get_bytes (cell row 3)) in
  let? path := get_string (cell row 4) in
  let? secure := get_i64 (cell row 5) in
  let? httponly := get_i64 (cell row 6) in
  let? expires := get_i64 (cell row 7) in
  let? samesite := get_i64 (cell row 8) in
  Ok (mkRawRow host name plain encrypted path secure httponly expires samesite).

Fixpoint map_rows {A} (f : list C -> result A bytes) (rows : list (list C)) : result (list A) bytes :=
  match rows with
  | [] => Ok []
  | row :: rows => let? a := f row in let? l := map_rows f rows in Ok (a :: l)
  end.
Definition query_chromium_rows (io : DbIo) : result (list RawChromiumRow) bytes :=
  let? _ := with_context "could not open cookie database: " (db_open io) in
  let? _ := with_context "could not read cookies table: " (db_prepare io) in
  let? rows := with_context "could not query cookies: " (db_rows io) in
  map_rows (fun row => with_context "could not read cookie row: " (raw_row row)) rows.

Definition derive_chromium_key (password : bytes) : bytes := pbkdf2 password.

Fixpoint drop_line_ends (l : bytes) : bytes :=
  match l with
  | b :: t => if (b =? 10) || (b =? 13) then drop_line_ends t else l
  | [] => []
  end.
Definition get_keychain_password (run : SecurityRun) : result bytes bytes :=
  match run with
  | NotRun e => Err (str "could not run security: " ++ e)
  | Denied => Err (str "Keychain access denied")
  | Printed stdout =>
      let password := rev (drop_line_ends (rev stdout)) in
      if bool_decide (password = []) then Err (str "Keychain returned an empty password") else Ok password
  end.

Definition decrypt_chromium_value (encrypted key : bytes) : result bytes bytes :=
  match encrypted with
  | v :: d1 :: d2 :: ciphertext =>
      if negb (v =? 118) || negb (is_digit d1) || negb (is_digit d2)
      then Err (str "unsupported cookie encryption version")
      else if bool_decide (ciphertext = []) then Ok []
      else if negb (zlen ciphertext mod 16 =? 0)
      then Err (str "ciphertext length is not a multiple of the block size")
      else
        let? decrypted := with_context "aes-128-cbc decrypt failed: " (aes_cbc_decrypt key (replicate 16 32) ciphertext) in
        let? unpadded := pkcs7_unpad decrypted in
        Ok (strip_hmac_prefix unpadded)
  | _ => Err (str "ciphertext too short")
  end.

Definition passes (host_filter : option bytes) (host : bytes) : bool :=
  match host_filter with Some f => host_matches_filter host f | None => true end.

Definition has_secret (r : RawChromiumRow) : bool := negb (bool_decide (encrypted_value r = [])).
(** [None] for a row that is passed over. *)
Definition row_value (key : option bytes) (r : RawChromiumRow) : option bytes :=
  if has_secret r then
    match key with
    | Some k => match decrypt_chromium_value (encrypted_value r) k with Ok b => Some (from_utf8_lossy b) | Err _ => None end
    | None => None
    end
  else Some (from_utf8_lossy (value_plain r)).
Definition row_cookie (key : option bytes) (host_filter : option bytes) (r : RawChromiumRow) : option ImportedCookie :=
  if negb (passes host_filter (host_key r)) then None
  else
    v ← row_value key r;
    Some (mkCookie (host_key r) (name r) v (path r) (negb (is_secure r =? 0)) (negb (is_httponly r =? 0))
            (chromium_micros_to_unix (expires_utc r)) (chromium_same_site (samesite r))).

Definition read_chromium (k : Disk) (io : DbIo) (security : SecurityRun) (family : bytes) (host_filter : option bytes) :
    list CookieEffect * result (list ImportedCookie) bytes :=
  match List.find (fun d => bytes_eqb (cd_family d) family) CHROMIUM_DEFS with
  | None => ([], Err (str "unknown chromium family: " ++ family))
  | Some def =>
      match chromium_cookie_path k def with
      | None => ([], Err (str "could not resolve home directory"))
      | Some cookie_path =>
          if negb (exists_ k cookie_path) then ([], Err (cd_label def ++ str " cookie store not found"))
          else
            match copy_sqlite_to_temp io with
            | (fx, Err e) => (fx, Err e)
            | (fx, Ok _) =>
                match query_chromium_rows io with
                | Err e => (fx ++ [RemoveTempDir], Err e)
                | Ok rows =>
                    if existsb has_secret rows then
                      let ask := AskKeychain (cd_keychain_service def) (cd_keychain_account def) in
                      match get_keychain_password security with
                      | Err e => (fx ++ [ask; RemoveTempDir], Err e)
                      | Ok password =>
                          (fx ++ [ask; RemoveTempDir],
                           Ok (omap (row_cookie (Some (derive_chromium_key password)) host_filter) rows))
                      end
                    else (fx ++ [RemoveTempDir], Ok (omap (row_cookie None host_filter) rows))
                end
            end
      end
  end.

Definition firefox_row (row : list C) : result ImportedCookie bytes :=
  let? host := get_string (cell row 0) in
  let? expiry := get_i64 (cell row 6) in
  let? name := get_string (cell row 1) in
  let value := or_empty (get_string (cell row 2)) in
  let? path := get_string (cell row 3) in
  let? secure := get_i64 (cell row 4) in
  let? httponly := get_i64 (cell row 5) in
  let? samesite := get_i64 (cell row 7) in
  Ok (mkCookie host name value path (negb (secure =? 0)) (negb (httponly =? 0))
        (if 0 <? expiry then Some expiry else None) (firefox_same_site samesite)).

Definition read_firefox (k : Disk) (io : DbIo) (host_filter : option bytes) :
    list CookieEffect * result (list ImportedCookie) bytes :=
  match firefox_cookie_path k with
  | None => ([], Err (str "Firefox cookie store not found"))
  | Some _ =>
      match copy_sqlite_to_temp io with
      | (fx, Err e) => (fx, Err e)
      | (fx, Ok _) =>
          (fx ++ [RemoveTempDir],
           let? _ := with_context "could not open Firefox cookie database: " (db_open io) in
           let? _ := with_context "could not read moz_cookies: " (db_prepare io) in
           let? rows := with_context "could not query Firefox cookies: " (db_rows io) in
           let? cookies := map_rows (fun row => with_context "could not read Firefox cookie row: " (firefox_row row)) rows in
           Ok (filter (fun c => passes host_filter (ck_host c) = true) cookies))
      end
  end.

(** The outer option is a panic of the parser. *)
Definition read_safari (k : Disk) (file : bytes -> result bytes bytes) (host_filter : option bytes) :
    option (result (list ImportedCookie) bytes) :=
  match safari_cookie_path k with
  | None => Some (Err (str "Safari cookie store not found"))
  | Some cookie_path =>
      match file cookie_path with
      | Err e => Some (Err (str "could not read Safari cookies (grant Full Disk Access): " ++ e))
      | Ok bs => cookies ← parse_binarycookies bs; Some (Ok (filter (fun c => passes host_filter (ck_host c) = true) cookies))
      end
  end.

Definition read_browser_cookies_impl (k : Disk) (io : DbIo) (security : SecurityRun) (file : bytes -> result bytes bytes)
    (family : bytes) (host_filter : option bytes) : option (list CookieEffect * result (list ImportedCookie) bytes) :=
  if existsb (fun d => bytes_eqb (cd_family d) family) CHROMIUM_DEFS
  then Some (read_chromium k io security family host_filter)
  else if bytes_eqb family (str "safari") then pair [] <$> read_safari k file host_filter
  else if bytes_eqb family (str "firefox") then Some (read_firefox k io host_filter)
  else Some ([], Err (str "unknown browser family: " ++ family)).
End readers.

(** * The parser of Safari's file: no panic, and nothing outside a record *)

Lemma get_range_in buf a b : 0 <= a -> a <= b -> b <= zlen buf -> get_range buf a b = Some (slice buf a b).
Proof.
  intros. unfold get_range. destruct (Z.leb_spec 0 a), (Z.leb_spec a b), (Z.leb_spec b (zlen buf)); done || lia.
Qed.
Lemma get_range_some buf a b s :
  get_range buf a b = Some s -> 0 <= a <= b /\ b <= zlen buf /\ s = slice buf a b.
Proof.
  unfold get_range. destruct (Z.leb_spec 0 a), (Z.leb_spec a b), (Z.leb_spec b (zlen buf)); cbn; try done. by intros [= <-].
Qed.

Lemma position_bound f l i : position f l = Some i -> (i < length l)%nat.
Proof.
  revert i. induction l as [|b l IH]; intros i; [done|]. cbn. destruct (f b); [intros [= <-]; lia|].
  destruct (position f l) as [j|]; [|done]. intros [= <-]. specialize (IH j eq_refl). lia.
Qed.

Lemma read_cstring_safe buf offset e : 0 <= offset -> exists r, read_cstring buf offset e = Some r.
Proof.
  intros Ho. unfold read_cstring. destruct (Z.leb_spec e offset), (Z.leb_spec (zlen buf) offset); cbn [orb]; eauto.
  rewrite get_range_in by lia. cbn [mbind option_bind]. generalize (slice buf offset (Z.min e (zlen buf))). intros s.
  destruct (position _ s) as [n|] eqn:En; [|eauto].
  apply position_bound in En. rewrite get_range_in by (unfold zlen; lia). cbn. eauto.
Qed.

Lemma from_le_bytes_nonneg l : bytes_ok l -> 0 <= from_le_bytes l.
Proof. intros Hl. pose proof (from_le_bytes_range l Hl). lia. Qed.

Lemma read_u32_le_range buf off n : bytes_ok buf -> read_u32_le buf off = Some n -> 0 <= n < 2 ^ 32.
Proof.
  unfold read_u32_le. intros Hb. destruct (get_range buf off (off + 4)) as [s|] eqn:E; [|done]. intros [= <-].
  apply get_range_some in E as (Ha & Hl & ->). pose proof (from_le_bytes_range _ (bytes_ok_slice buf off (off + 4) Hb)) as Hr.
  rewrite slice_length in Hr by lia. replace (off + 4 - off) with 4 in Hr by lia. exact Hr.
Qed.
Lemma read_u32_be_range buf off n : bytes_ok buf -> read_u32_be buf off = Some n -> 0 <= n < 2 ^ 32.
Proof.
  unfold read_u32_be. intros Hb. destruct (get_range buf off (off + 4)) as [s|] eqn:E; [|done]. intros [= <-].
  apply get_range_some in E as (Ha & Hl & ->). unfold from_be_bytes.
  assert (Hs : bytes_ok (rev (slice buf off (off + 4)))) by (apply Forall_rev, bytes_ok_slice, Hb).
  pose proof (from_le_bytes_range _ Hs) as Hr. unfold zlen in Hr. rewrite length_rev in Hr. fold (zlen (slice buf off (off + 4))) in Hr.
  rewrite slice_length in Hr by lia. replace (off + 4 - off) with 4 in Hr by lia. exact Hr.
Qed.

Definition safe {A} (o : option A) : Prop := exists a, o = Some a.
Lemma if_some_safe {A} (o : option A) k : (forall a, o = Some a -> safe (k a)) -> safe (if_some o k).
Proof. destruct o; cbn; [auto|]. intros _. by eexists. Qed.
Lemma bind_safe {A B} (o : option A) (k : A -> option B) : safe o -> (forall a, safe (k a)) -> safe (o ≫= k).
Proof. intros [a ->] Hk. apply Hk. Qed.

Lemma record_safe buf : bytes_ok buf -> safe (parse_binarycookies_record buf).
Proof.
  intros Hb. unfold parse_binarycookies_record. destruct (zlen buf <? 48); [by eexists|].
  apply if_some_safe. intros sz Hsz. destruct (_ <? 48); [by eexists|].
  repeat (apply if_some_safe; intros ? ?%read_u32_le_range; [|exact Hb]).
  apply bind_safe; [apply read_cstring_safe; lia|]. intros host. apply if_some_safe. intros host' _.
  apply bind_safe; [apply read_cstring_safe; lia|]. intros name. apply if_some_safe. intros name' _.
  destruct (_ || _); [by eexists|].
  apply bind_safe; [apply read_cstring_safe; lia|]. intros value.
  apply bind_safe; [apply read_cstring_safe; lia|]. intros path. by eexists.
Qed.

Lemma concat_opt_safe {A} (l : list (option (list A))) : Forall safe l -> safe (concat_opt l).
Proof.
  intros Hl. unfold concat_opt. assert (safe (mapM id l)) as [x ->]; [|by eexists].
  induction Hl as [|o l [a ->] _ IH]; [by eexists|]. destruct IH as [x Hx]. exists (a :: x). cbn in *. by rewrite Hx.
Qed.

Lemma page_safe page : bytes_ok page -> safe (parse_binarycookies_page page).
Proof.
  intros Hb. unfold parse_binarycookies_page. destruct (_ || _); [by eexists|].
  destruct (read_u32_le page 4) as [n|]; [|by eexists]. destruct (_ <? _); [by eexists|].
  apply concat_opt_safe, Forall_fmap, Forall_forall. intros i _. unfold compose, page_cookie.
  destruct (read_u32_le page _) as [offset|] eqn:Eo; [|by eexists]. apply read_u32_le_range in Eo; [|done].
  destruct (Z.ltb_spec offset (zlen page)); [|by eexists]. rewrite get_range_in by lia. cbn [mbind option_bind].
  apply bind_safe; [apply record_safe; auto with grove|]. intros c. by eexists.
Qed.

Lemma pages_safe buf sizes cursor :
  bytes_ok buf -> 0 <= cursor -> Forall (fun n => 0 <= n) sizes -> safe (parse_pages buf cursor sizes).
Proof.
  intros Hb Hc Hs. revert cursor Hc. induction Hs as [|n sizes Hn _ IH]; intros cursor Hc; [by eexists|]. cbn [parse_pages].
  apply bind_safe; [|intros here; apply bind_safe; [apply IH; lia|by eexists]].
  set (e := Z.min _ _). destruct (Z.ltb_spec cursor e); [|by eexists].
  rewrite get_range_in by lia. cbn [mbind option_bind]. apply page_safe. auto with grove.
Qed.

Lemma read_page_sizes_range fuel buf count cursor sizes :
  bytes_ok buf -> read_page_sizes fuel buf count cursor = Some sizes -> Forall (fun n => 0 <= n < 2 ^ 32) sizes.
Proof.
  intros Hb. revert count cursor sizes. induction fuel as [|fuel IH]; intros count cursor sizes; [done|]. cbn [read_page_sizes].
  destruct (count <=? 0); [by intros [= <-]|]. destruct (read_u32_be buf cursor) as [n|] eqn:En; [|done]. cbn [mbind option_bind].
  destruct (read_page_sizes fuel buf (count - 1) (cursor + 4)) as [l|] eqn:El; [|done]. intros [= <-].
  constructor; [by eapply read_u32_be_range|by eapply IH].
Qed.

(** The turns suffice: with more of them nothing else is read. *)
Lemma read_page_sizes_fuel buf count cursor fuel fuel' :
  0 <= cursor <= zlen buf -> zlen buf - cursor < 4 * Z.of_nat fuel -> (fuel <= fuel')%nat ->
  read_page_sizes fuel' buf count cursor = read_page_sizes fuel buf count cursor.
Proof.
  revert count cursor fuel'. induction fuel as [|fuel IH]; intros count cursor [|fuel'] Hc Hf Hle; try (done || lia).
  cbn [read_page_sizes]. destruct (count <=? 0); [done|]. unfold read_u32_be. destruct (get_range buf cursor (cursor + 4)) eqn:E; [|done].
  apply get_range_some in E as (_ & Hl & _). cbn [fmap option_fmap option_map mbind option_bind]. by rewrite (IH _ _ fuel') by lia.
Qed.

(** * A file that was written is read back *)

(** What a record holds; the expiry is the bits of a float. *)
Record SafariCookie := mkSafari {
  sc_host : bytes;
  sc_name : bytes;
  sc_path : bytes;
  sc_value : bytes;
  sc_flags : Z;
  sc_expiry : Z
}.
Definition url_at : Z := 56.
Definition name_at (c : SafariCookie) : Z := url_at + (zlen (sc_host c) + 1).
Definition path_at (c : SafariCookie) : Z := name_at c + (zlen (sc_name c) + 1).
Definition value_at (c : SafariCookie) : Z := path_at c + (zlen (sc_path c) + 1).
Definition record_size (c : SafariCookie) : Z := value_at c + (zlen (sc_value c) + 1).
Definition le4 (n : Z) : bytes := to_le_bytes 4 n.
Definition be4 (n : Z) : bytes := rev (to_le_bytes 4 n).
Definition record_fields (c : SafariCookie) : list bytes :=
  [le4 (record_size c); le4 0; le4 (sc_flags c); le4 0; le4 url_at; le4 (name_at c); le4 (path_at c); le4 (value_at c);
   replicate 8 0; to_le_bytes 8 (sc_expiry c); replicate 8 0;
   sc_host c ++ [0]; sc_name c ++ [0]; sc_path c ++ [0]; sc_value c ++ [0]].
Definition encode_record (c : SafariCookie) : bytes := concat (record_fields c).

Definition text_ok (s : bytes) : Prop := utf8_valid s = true /\ (0 ∉ s) /\ bytes_ok s.
Record safari_ok (c : SafariCookie) : Prop := mkSafariOk {
  so_host : text_ok (sc_host c) /\ sc_host c <> [];
  so_name : text_ok (sc_name c) /\ sc_name c <> [];
  so_path : text_ok (sc_path c);
  so_value : text_ok (sc_value c);
  so_flags : 0 <= sc_flags c < 2 ^ 32;
  so_expiry : 0 <= sc_expiry c < 2 ^ 64;
  so_size : record_size c < 2 ^ 32
}.
Definition imported (c : SafariCookie) : ImportedCookie :=
  mkCookie (sc_host c) (sc_name c) (sc_value c) (sc_path c) (Z.testbit (sc_flags c) 0) (Z.testbit (sc_flags c) 2)
    (mac_expiry (sc_expiry c)) None.

(** Reading one of the fields of a concatenation. *)
Lemma concat_at {A} (fs : list (list A)) i f :
  fs !! i = Some f -> concat fs = concat (take i fs) ++ f ++ concat (drop (S i) fs).
Proof.
  intros Hi. rewrite <- (take_drop_middle fs i f Hi) at 1. rewrite concat_app. done.
Qed.
Lemma get_range_at p f r off e : off = zlen p -> e = zlen p + zlen f -> get_range (p ++ f ++ r) off e = Some f.
Proof.
  intros -> ->. rewrite get_range_in; [by rewrite slice_app_exact|auto with grove|zlen_lia|zlen_lia].
Qed.
Lemma get_field fs i f off e :
  fs !! i = Some f -> off = zlen (concat (take i fs)) -> e = off + zlen f -> get_range (concat fs) off e = Some f.
Proof. intros Hi -> ->. rewrite (concat_at fs i f Hi). by apply get_range_at. Qed.

Lemma le4_back n : 0 <= n < 2 ^ 32 -> from_le_bytes (le4 n) = n.
Proof. intros Hn. apply from_to_le_bytes. exact Hn. Qed.
Lemma be4_back n : 0 <= n < 2 ^ 32 -> from_be_bytes (be4 n) = n.
Proof. intros Hn. unfold from_be_bytes, be4. rewrite rev_involutive. by apply from_to_le_bytes. Qed.
Lemma zlen_le4 n : zlen (le4 n) = 4.
Proof. apply zlen_to_le_bytes. Qed.
Lemma zlen_be4 n : zlen (be4 n) = 4.
Proof. unfold zlen, be4. by rewrite length_rev, length_to_le_bytes. Qed.
#[local] Hint Rewrite zlen_le4 zlen_be4 : zlen.

Lemma read_u32_field fs i n off :
  fs !! i = Some (le4 n) -> off = zlen (concat (take i fs)) -> 0 <= n < 2 ^ 32 -> read_u32_le (concat fs) off = Some n.
Proof.
  intros Hi Ho Hn. unfold read_u32_le. rewrite (get_field fs i (le4 n)) by (done || by rewrite zlen_le4).
  cbn [fmap option_fmap option_map]. by rewrite le4_back.
Qed.

Lemma position_nul s r : 0 ∉ s -> position (fun b => b =? 0) (s ++ 0 :: r) = Some (length s).
Proof.
  induction s as [|b s IH]; intros Hs; [done|]. apply not_elem_of_cons in Hs as [Hb Hs]. cbn [app position].
  destruct (Z.eqb_spec b 0); [congruence|]. by rewrite IH.
Qed.

Lemma slice_tail {A} (p r : list A) : slice (p ++ r) (zlen p) (zlen (p ++ r)) = r.
Proof. rewrite <- (app_nil_r r) at 1. apply slice_app_exact; zlen_lia. Qed.

Lemma read_string_at p s r e :
  text_ok s -> e = zlen (p ++ (s ++ [0]) ++ r) ->
  read_cstring (p ++ (s ++ [0]) ++ r) (zlen p) e = Some (Some s).
Proof.
  intros (Hu & H0 & _) ->. set (buf := p ++ (s ++ [0]) ++ r). unfold read_cstring.
  assert (Hl : zlen p < zlen buf) by (unfold buf; zlen_lia). pose proof (zlen_nonneg p).
  destruct (Z.leb_spec (zlen buf) (zlen p)); [lia|]. cbn [orb]. rewrite Z.min_id, get_range_in by lia. cbn [mbind option_bind].
  assert (slice buf (zlen p) (zlen buf) = s ++ 0 :: r) as ->.
  { unfold buf. rewrite slice_tail. by rewrite <- app_assoc. }
  rewrite position_nul by done. rewrite (get_range_at [] s (0 :: r)) by (done || by unfold zlen). cbn [mbind option_bind].
  by rewrite from_utf8_lossy_valid.
Qed.

(** A field of a concatenation that is a string with its end. *)
Lemma read_string_field fs i s off :
  fs !! i = Some (s ++ [0]) -> off = zlen (concat (take i fs)) -> text_ok s ->
  read_cstring (concat fs) off (zlen (concat fs)) = Some (Some s).
Proof. intros Hi -> Hs. rewrite (concat_at fs i _ Hi). by apply read_string_at. Qed.

Lemma zlen_encode c : zlen (encode_record c) = record_size c.
Proof.
  unfold encode_record, record_fields, record_size, value_at, path_at, name_at, url_at. cbn [concat].
  autorewrite with zlen. change (zlen (replicate 8 0)) with 8. lia.
Qed.

Ltac field_offset :=
  unfold record_fields, value_at, path_at, name_at, url_at; cbn [take concat]; autorewrite with zlen;
  change (zlen (replicate 8 0)) with 8; lia.

Lemma parse_encoded c : safari_ok c -> parse_binarycookies_record (encode_record c) = Some (Some (imported c)).
Proof.
  intros [[Hh Hh'] [Hn Hn'] Hp Hv Hf He Hs]. pose proof (zlen_encode c) as Hlen.
  pose proof (zlen_nonneg (sc_host c)); pose proof (zlen_nonneg (sc_name c)); pose proof (zlen_nonneg (sc_path c));
    pose proof (zlen_nonneg (sc_value c)).
  assert (Hpos : 0 <= name_at c /\ name_at c < path_at c /\ path_at c < value_at c /\ value_at c < record_size c /\ 56 < name_at c)
    by (unfold record_size, value_at, path_at, name_at, url_at; lia).
  assert (Hfield : forall i n off, record_fields c !! i = Some (le4 n) -> off = zlen (concat (take i (record_fields c))) ->
    0 <= n < 2 ^ 32 -> read_u32_le (encode_record c) off = Some n) by (intros; by eapply read_u32_field).
  assert (Hstring : forall i s off, record_fields c !! i = Some (s ++ [0]) -> off = zlen (concat (take i (record_fields c))) ->
    text_ok s -> read_cstring (encode_record c) off (record_size c) = Some (Some s)).
  { intros i s off Hi Ho Ht. rewrite <- Hlen. by eapply read_string_field. }
  unfold parse_binarycookies_record. rewrite Hlen. destruct (Z.ltb_spec (record_size c) 48); [lia|].
  rewrite (Hfield 0%nat (record_size c)) by (done || lia). cbn [if_some]. rewrite Z.min_id.
  destruct (Z.ltb_spec (record_size c) 48); [lia|].
  rewrite (Hfield 2%nat (sc_flags c)) by (done || lia). rewrite (Hfield 4%nat url_at) by (done || unfold url_at; lia).
  rewrite (Hfield 5%nat (name_at c)) by (done || lia). rewrite (Hfield 6%nat (path_at c)) by (done || lia).
  rewrite (Hfield 7%nat (value_at c)) by (done || lia). cbn [if_some].
  assert (Hx : read_f64_le (encode_record c) 40 = Some (sc_expiry c)).
  { unfold read_f64_le, encode_record. rewrite (get_field (record_fields c) 9 (to_le_bytes 8 (sc_expiry c))) by done.
    cbn [fmap option_fmap option_map]. f_equal. by apply from_to_le_bytes. }
  rewrite Hx. cbn [default from_option].
  rewrite (Hstring 11%nat (sc_host c) url_at); [|done|field_offset|done]. cbn [mbind option_bind if_some].
  rewrite (Hstring 12%nat (sc_name c) (name_at c)); [|done|field_offset|done].
  cbn [mbind option_bind if_some]. rewrite !bool_decide_false by done. cbn [orb].
  rewrite (Hstring 14%nat (sc_value c) (value_at c)); [|done|field_offset|done].
  cbn [mbind option_bind]. rewrite (Hstring 13%nat (sc_path c) (path_at c)); [|done|field_offset|done].
  done.
Qed.

(** What stands after a record is not read. *)
Lemma get_range_front buf rest a b : b <= zlen buf -> get_range (buf ++ rest) a b = get_range buf a b.
Proof.
  intros Hb. unfold get_range. pose proof (zlen_nonneg rest). rewrite zlen_app.
  destruct (Z.leb_spec 0 a), (Z.leb_spec a b), (Z.leb_spec b (zlen buf)), (Z.leb_spec b (zlen buf + zlen rest)); cbn; try (done || lia).
  by rewrite slice_app_l by lia.
Qed.

Lemma read_cstring_front buf rest off e :
  e <= zlen buf -> 0 <= off -> read_cstring (buf ++ rest) off e = read_cstring buf off e.
Proof.
  intros He Ho. unfold read_cstring. pose proof (zlen_nonneg rest). rewrite zlen_app.
  destruct (Z.leb_spec e off); [done|]. destruct (Z.leb_spec (zlen buf + zlen rest) off), (Z.leb_spec (zlen buf) off); try lia.
  cbn [orb]. rewrite (Z.min_l e (zlen buf)), (Z.min_l e (zlen buf + zlen rest)) by lia. by rewrite get_range_front by lia.
Qed.

Lemma record_is_local buf rest n :
  bytes_ok buf -> read_u32_le buf 0 = Some n -> 48 <= n <= zlen buf ->
  parse_binarycookies_record (buf ++ rest) = parse_binarycookies_record buf.
Proof.
  intros Hb Hn Hl. pose proof (zlen_nonneg rest).
  assert (Hr : forall off, off + 4 <= zlen buf -> read_u32_le (buf ++ rest) off = read_u32_le buf off)
    by (intros; unfold read_u32_le; by rewrite get_range_front).
  assert (Hx : read_f64_le (buf ++ rest) 40 = read_f64_le buf 40) by (unfold read_f64_le; by rewrite get_range_front by lia).
  unfold parse_binarycookies_record. rewrite Hx, !Hr, Hn by lia. cbn [if_some]. rewrite zlen_app.
  destruct (Z.ltb_spec (zlen buf + zlen rest) 48), (Z.ltb_spec (zlen buf) 48); try lia.
  rewrite !Z.min_l by lia. destruct (n <? 48); [done|].
  destruct (read_u32_le buf 8); [|done]. cbn [if_some].
  destruct (read_u32_le buf 16) as [u|] eqn:E1; [|done]. cbn [if_some].
  destruct (read_u32_le buf 20) as [m|] eqn:E2; [|done]. cbn [if_some].
  destruct (read_u32_le buf 24) as [p|] eqn:E3; [|done]. cbn [if_some].
  destruct (read_u32_le buf 28) as [v|] eqn:E4; [|done]. cbn [if_some].
  apply read_u32_le_range in E1, E2, E3, E4; [|done..]. by rewrite !read_cstring_front by lia.
Qed.

(** Pages and files, as the format lays them out; a file may end in more bytes. *)
Definition offsets_of (cs : list SafariCookie) : list Z :=
  (fun i => 8 + 4 * zlen cs + zlen (concat (take i (encode_record <$> cs)))) <$> List.seq 0 (length cs).
Definition encode_page (cs : list SafariCookie) : bytes :=
  (be4 256 ++ le4 (zlen cs)) ++ concat (le4 <$> offsets_of cs) ++ concat (encode_record <$> cs).
Definition encode_file (pages : list (list SafariCookie)) (trailer : bytes) : bytes :=
  (str "cook" ++ be4 (zlen pages)) ++ concat ((fun p => be4 (zlen (encode_page p))) <$> pages)
    ++ concat (encode_page <$> pages) ++ trailer.

Lemma zlen_offsets cs : zlen (concat (le4 <$> offsets_of cs)) = 4 * zlen cs.
Proof.
  assert (H : forall l, zlen (concat (le4 <$> l)) = 4 * zlen l).
  { intros l. induction l as [|x l IH]; [done|]. rewrite fmap_cons. cbn [concat]. autorewrite with zlen. lia. }
  rewrite H. unfold offsets_of, zlen. by rewrite length_fmap, length_seq.
Qed.

Lemma zlen_concat_take_le4 l i : (i <= length l)%nat -> zlen (concat (take i (le4 <$> l))) = 4 * Z.of_nat i.
Proof.
  intros Hi. rewrite <- fmap_take. assert (H : forall l, zlen (concat (le4 <$> l)) = 4 * zlen l).
  { clear. intros l. induction l as [|x l IH]; [done|]. rewrite fmap_cons. cbn [concat]. autorewrite with zlen. lia. }
  rewrite H. unfold zlen. rewrite length_take. lia.
Qed.

Lemma offset_at cs i :
  (i < length cs)%nat -> offsets_of cs !! i = Some (8 + 4 * zlen cs + zlen (concat (take i (encode_record <$> cs)))).
Proof. intros Hi. unfold offsets_of. rewrite list_lookup_fmap, lookup_seq_lt by done. done. Qed.

Lemma encode_record_ok c : Forall byte_ok (sc_host c ++ sc_name c ++ sc_path c ++ sc_value c) -> bytes_ok (encode_record c).
Proof.
  rewrite !Forall_app. intros (H1 & H2 & H3 & H4). unfold bytes_ok, encode_record, record_fields, le4. cbn [concat].
  repeat (apply Forall_app_2; [first [apply to_le_bytes_ok | repeat constructor; unfold byte_ok; lia |
    apply Forall_app_2; [done|repeat constructor; unfold byte_ok; lia]]|]). constructor.
Qed.

Lemma safari_bytes_ok c : safari_ok c -> bytes_ok (encode_record c).
Proof.
  intros [[(_ & _ & H1) _] [(_ & _ & H2) _] (_ & _ & H3) (_ & _ & H4) _ _ _]. apply encode_record_ok.
  by repeat (apply Forall_app_2; [done|]).
Qed.

Lemma parse_encoded_prefix c rest :
  safari_ok c -> parse_binarycookies_record (encode_record c ++ rest) = Some (Some (imported c)).
Proof.
  intros Hc. rewrite (record_is_local _ _ (record_size c)); [by apply parse_encoded|by apply safari_bytes_ok| |].
  - unfold encode_record. apply (read_u32_field _ 0); [done|done|].
    pose proof (zlen_encode c). pose proof (zlen_nonneg (encode_record c)). pose proof (so_size c Hc). lia.
  - rewrite zlen_encode. unfold record_size, value_at, path_at, name_at, url_at.
    pose proof (zlen_nonneg (sc_host c)); pose proof (zlen_nonneg (sc_name c)); pose proof (zlen_nonneg (sc_path c));
      pose proof (zlen_nonneg (sc_value c)). lia.
Qed.

Lemma zlen_encode_page cs :
  zlen (encode_page cs) = 8 + 4 * zlen cs + zlen (concat (encode_record <$> cs)).
Proof. unfold encode_page. rewrite !zlen_app, zlen_offsets, zlen_be4, zlen_le4. lia. Qed.

(** The i-th offset, and the record it leads to. *)
Lemma page_offset cs i :
  (i < length cs)%nat -> zlen (encode_page cs) < 2 ^ 32 ->
  read_u32_le (encode_page cs) (8 + Z.of_nat i * 4) =
    Some (8 + 4 * zlen cs + zlen (concat (take i (encode_record <$> cs)))).
Proof.
  intros Hi Hl. set (o := 8 + _ + _).
  assert (Ho : (le4 <$> offsets_of cs) !! i = Some (le4 o)) by (rewrite list_lookup_fmap, offset_at by done; done).
  unfold read_u32_le, encode_page. rewrite (concat_at _ _ _ Ho), <- !app_assoc.
  rewrite app_assoc, (app_assoc (be4 256 ++ le4 (zlen cs))).
  rewrite get_range_at.
  - cbn [fmap option_fmap option_map]. rewrite le4_back; [done|]. unfold o. rewrite zlen_encode_page in Hl.
    assert (zlen (concat (take i (encode_record <$> cs))) <= zlen (concat (encode_record <$> cs))).
    { rewrite <- (take_drop i (encode_record <$> cs)) at 2. rewrite concat_app, zlen_app. pose proof (zlen_nonneg (concat (drop i (encode_record <$> cs)))). lia. }
    pose proof (zlen_nonneg (concat (take i (encode_record <$> cs)))). pose proof (zlen_nonneg cs). lia.
  - rewrite !zlen_app, zlen_be4, zlen_le4, zlen_concat_take_le4; [lia|]. unfold offsets_of. rewrite length_fmap, length_seq. lia.
  - rewrite !zlen_app, zlen_be4, zlen_le4, zlen_concat_take_le4; [rewrite zlen_le4; lia|]. unfold offsets_of. rewrite length_fmap, length_seq. lia.
Qed.

Lemma page_cookie_back cs i c :
  cs !! i = Some c -> safari_ok c -> zlen (encode_page cs) < 2 ^ 32 ->
  page_cookie (encode_page cs) (Z.of_nat i) = Some [imported c].
Proof.
  intros Hi Hc Hl. pose proof (lookup_lt_Some _ _ _ Hi) as Hlt. unfold page_cookie. rewrite page_offset by done.
  assert (Hr : (encode_record <$> cs) !! i = Some (encode_record c)) by (by rewrite list_lookup_fmap, Hi).
  set (o := 8 + _ + _).
  assert (Hp : encode_page cs = ((be4 256 ++ le4 (zlen cs)) ++ concat (le4 <$> offsets_of cs) ++ concat (take i (encode_record <$> cs)))
    ++ encode_record c ++ concat (drop (S i) (encode_record <$> cs))).
  { unfold encode_page. rewrite (concat_at _ _ _ Hr) at 1. by rewrite <- !app_assoc. }
  assert (Ho : o = zlen ((be4 256 ++ le4 (zlen cs)) ++ concat (le4 <$> offsets_of cs) ++ concat (take i (encode_record <$> cs)))).
  { unfold o. rewrite !zlen_app, zlen_offsets, zlen_be4, zlen_le4. lia. }
  assert (Hpos : 0 < zlen (encode_record c)).
  { rewrite zlen_encode. unfold record_size, value_at, path_at, name_at, url_at.
    pose proof (zlen_nonneg (sc_host c)); pose proof (zlen_nonneg (sc_name c)); pose proof (zlen_nonneg (sc_path c));
      pose proof (zlen_nonneg (sc_value c)). lia. }
  rewrite Hp, Ho. destruct (Z.ltb_spec (zlen ((be4 256 ++ le4 (zlen cs)) ++ concat (le4 <$> offsets_of cs) ++ concat (take i (encode_record <$> cs))))
    (zlen (((be4 256 ++ le4 (zlen cs)) ++ concat (le4 <$> offsets_of cs) ++ concat (take i (encode_record <$> cs))) ++ encode_record c ++ concat (drop (S i) (encode_record <$> cs))))) as [_|H].
  - rewrite get_range_in; [|auto with grove|zlen_lia|lia]. rewrite slice_tail. cbn [mbind option_bind].
    by rewrite parse_encoded_prefix.
  - rewrite (zlen_app _ (encode_record c ++ _)), (zlen_app (encode_record c)) in H.
    pose proof (zlen_nonneg (concat (drop (S i) (encode_record <$> cs)))). lia.
Qed.

Lemma slice_head {A} (m r : list A) e : e = zlen m -> slice (m ++ r) 0 e = m.
Proof. intros ->. exact (slice_app_exact [] m r 0 _ eq_refl eq_refl). Qed.
Lemma get_range_head m r e : e = zlen m -> get_range (m ++ r) 0 e = Some m.
Proof. intros ->. exact (get_range_at [] m r 0 _ eq_refl eq_refl). Qed.

Lemma mapM_singletons {A} (f : nat -> option (list A)) (l : list A) k :
  (forall i x, l !! i = Some x -> f (k + i)%nat = Some [x]) ->
  mapM id (f <$> List.seq k (length l)) = Some ((fun x => [x]) <$> l).
Proof.
  revert k. induction l as [|x l IH]; intros k Hf; [done|]. cbn [length List.seq]. rewrite !fmap_cons. cbn [mapM].
  pose proof (Hf 0%nat x eq_refl) as H0. rewrite Nat.add_0_r in H0. rewrite H0. cbn [id mbind option_bind].
  rewrite (IH (S k)); [done|]. intros i y Hi. replace (S k + i)%nat with (k + S i)%nat by lia. by apply Hf.
Qed.
Lemma concat_singletons {A} (l : list A) : concat ((fun x => [x]) <$> l) = l.
Proof. induction l as [|x l IH]; [done|]. rewrite fmap_cons. cbn. by rewrite IH. Qed.

Lemma parse_encoded_page cs :
  Forall safari_ok cs -> zlen (encode_page cs) < 2 ^ 32 ->
  parse_binarycookies_page (encode_page cs) = Some (imported <$> cs).
Proof.
  intros Hcs Hl. pose proof (zlen_encode_page cs) as Hz. pose proof (zlen_nonneg (concat (encode_record <$> cs))).
  pose proof (zlen_nonneg cs). unfold parse_binarycookies_page.
  assert (Hb : read_u32_be (encode_page cs) 0 = Some 256).
  { unfold read_u32_be, encode_page. rewrite <- app_assoc. rewrite get_range_head by (by rewrite zlen_be4).
    cbn [fmap option_fmap option_map]. by rewrite be4_back. }
  assert (Hn : read_u32_le (encode_page cs) 4 = Some (zlen cs)).
  { unfold read_u32_le, encode_page. rewrite <- app_assoc. rewrite (get_range_at (be4 256)); [|by rewrite zlen_be4|by rewrite zlen_be4, zlen_le4].
    cbn [fmap option_fmap option_map]. rewrite le4_back by lia. done. }
  rewrite Hb, Hn, bool_decide_true by done. cbn [negb]. rewrite orb_false_r.
  destruct (Z.ltb_spec (zlen (encode_page cs)) 8); [lia|]. destruct (Z.ltb_spec (zlen (encode_page cs)) (8 + zlen cs * 4)); [lia|].
  unfold zlen at 1. rewrite Nat2Z.id. rewrite <- (length_fmap imported cs). unfold concat_opt.
  rewrite (mapM_singletons _ (imported <$> cs)); [cbn; by rewrite concat_singletons|].
  intros i x Hi. rewrite list_lookup_fmap in Hi. destruct (cs !! i) as [c|] eqn:Ec; [|done]. injection Hi as <-. cbn [Nat.add].
  apply page_cookie_back; [done| |done]. by eapply Forall_lookup_1.
Qed.

Lemma parse_encoded_pages p pages trailer :
  let buf := p ++ concat (encode_page <$> pages) ++ trailer in
  Forall (Forall safari_ok) pages -> Forall (fun cs => zlen (encode_page cs) < 2 ^ 32) pages -> zlen buf <= u64_max ->
  parse_pages buf (zlen p) ((fun cs => zlen (encode_page cs)) <$> pages) = Some (imported <$> concat pages).
Proof.
  cbv zeta. intros Ho Hl. revert p. induction Ho as [|cs pages Hcs _ IH]; intros p Hu; [done|].
  inversion Hl as [|? ? Hl1 Hl2]; subst. rewrite !fmap_cons in *. cbn [concat parse_pages] in *. rewrite <- app_assoc in *.
  pose proof (zlen_encode_page cs) as Hz. pose proof (zlen_nonneg (concat (encode_record <$> cs))). pose proof (zlen_nonneg cs).
  pose proof (zlen_nonneg (concat (encode_page <$> pages) ++ trailer)). pose proof (zlen_nonneg p).
  assert (Hbuf : zlen (p ++ encode_page cs ++ concat (encode_page <$> pages) ++ trailer) =
    zlen p + (zlen (encode_page cs) + zlen (concat (encode_page <$> pages) ++ trailer))) by (by rewrite !zlen_app).
  rewrite Z.min_l by lia. rewrite Z.min_l by lia. destruct (Z.ltb_spec (zlen p) (zlen p + zlen (encode_page cs))); [|lia].
  rewrite get_range_at by done. cbn [mbind option_bind]. rewrite parse_encoded_page by done. cbn [mbind option_bind].
  specialize (IH Hl2 (p ++ encode_page cs)). rewrite <- app_assoc, (zlen_app p (encode_page cs)) in IH. rewrite IH by done. cbn [mbind option_bind].
  by rewrite fmap_app.
Qed.

Lemma read_encoded_sizes p (sizes : list Z) rest fuel :
  Forall (fun n => 0 <= n < 2 ^ 32) sizes -> (length sizes < fuel)%nat ->
  read_page_sizes fuel (p ++ concat (be4 <$> sizes) ++ rest) (zlen sizes) (zlen p) = Some sizes.
Proof.
  intros Hs. revert p fuel. induction Hs as [|n sizes Hn _ IH]; intros p [|fuel] Hf; try (cbn in Hf; lia); [done|].
  cbn [read_page_sizes]. rewrite fmap_cons. cbn [concat]. rewrite <- app_assoc. pose proof (zlen_nonneg sizes).
  rewrite zlen_cons. destruct (Z.leb_spec (1 + zlen sizes) 0); [lia|]. unfold read_u32_be.
  rewrite get_range_at by (done || by rewrite zlen_be4). cbn [fmap option_fmap option_map mbind option_bind]. rewrite be4_back by done.
  specialize (IH (p ++ be4 n) fuel). rewrite <- app_assoc, (zlen_app p (be4 n)), zlen_be4 in IH.
  replace (1 + zlen sizes - 1) with (zlen sizes) by lia. by rewrite IH by (cbn in Hf; lia).
Qed.

Lemma zlen_be4s (sizes : list Z) : zlen (concat (be4 <$> sizes)) = zlen sizes * 4.
Proof. induction sizes as [|x l IH]; [done|]. rewrite fmap_cons. cbn [concat]. rewrite zlen_app, zlen_be4, IH, zlen_cons. lia. Qed.

Definition page_sizes (pages : list (list SafariCookie)) : list Z := (fun cs => zlen (encode_page cs)) <$> pages.
Lemma encode_file_sizes pages trailer :
  encode_file pages trailer = (str "cook" ++ be4 (zlen pages)) ++ concat (be4 <$> page_sizes pages) ++ concat (encode_page <$> pages) ++ trailer.
Proof. unfold encode_file, page_sizes. by rewrite <- list_fmap_compose. Qed.
Lemma zlen_page_sizes pages : zlen (page_sizes pages) = zlen pages.
Proof. unfold page_sizes, zlen. by rewrite length_fmap. Qed.

Lemma page_count_encoded pages trailer : zlen pages < 2 ^ 32 -> page_count (encode_file pages trailer) = Some (zlen pages).
Proof.
  intros Hn. unfold page_count, encode_file. rewrite <- app_assoc, zlen_app, (zlen_app (be4 _)), zlen_be4.
  match goal with |- context [(?a <? 8)] => match a with _ + (4 + zlen ?l) => pose proof (zlen_nonneg l) end; destruct (Z.ltb_spec a 8) as [Hx|_] end.
  { change (zlen (str "cook")) with 4 in Hx. lia. }
  cbn [orb]. rewrite slice_head by done. rewrite bool_decide_true by done. cbn [negb]. unfold read_u32_be.
  rewrite get_range_at by (done || by rewrite zlen_be4). cbn [fmap option_fmap option_map]. rewrite be4_back; [done|].
  pose proof (zlen_nonneg pages). lia.
Qed.

Lemma parse_encoded_file pages trailer :
  Forall (Forall safari_ok) pages -> Forall (fun cs => zlen (encode_page cs) < 2 ^ 32) pages ->
  zlen pages < 2 ^ 32 -> zlen (encode_file pages trailer) <= u64_max ->
  parse_binarycookies (encode_file pages trailer) = Some (imported <$> concat pages).
Proof.
  intros Ho Hl Hn Hu. unfold parse_binarycookies. rewrite page_count_encoded by done.
  pose proof (encode_file_sizes pages trailer) as He.
  assert (Hhead : zlen (str "cook" ++ be4 (zlen pages)) = 8) by (by rewrite zlen_app, zlen_be4).
  pose proof (read_encoded_sizes (str "cook" ++ be4 (zlen pages)) (page_sizes pages) (concat (encode_page <$> pages) ++ trailer)
    (S (length (encode_file pages trailer)))) as Hr.
  rewrite zlen_page_sizes, Hhead, <- He in Hr. rewrite Hr.
  - rewrite He in Hu |- *. rewrite app_assoc in Hu |- *.
    pose proof (parse_encoded_pages _ pages trailer Ho Hl Hu) as Hp.
    by rewrite zlen_app, Hhead, zlen_be4s, zlen_page_sizes in Hp.
  - unfold page_sizes. apply Forall_fmap. eapply Forall_impl; [exact Hl|]. intros cs Hcs. split; [apply zlen_nonneg|exact Hcs].
  - pose proof (zlen_be4s (page_sizes pages)) as Hz. pose proof (f_equal zlen He) as Hlen.
    rewrite zlen_app, (zlen_app (concat (be4 <$> _))), Hz, Hhead in Hlen.
    pose proof (zlen_nonneg (concat (encode_page <$> pages) ++ trailer)). unfold zlen in *. lia.
Qed.

Lemma parse_never_panics file : bytes_ok file -> exists cs, parse_binarycookies file = Some cs.
Proof.
  intros Hf. unfold parse_binarycookies. destruct (page_count file) as [count|] eqn:Ec; [|by eexists].
  destruct (read_page_sizes _ _ _ _) as [sizes|] eqn:Es; [|by eexists]. apply read_page_sizes_range in Es; [|done].
  apply pages_safe; [done| |eapply Forall_impl; [exact Es|]; cbn; lia].
  unfold page_count in Ec. destruct (_ || _); [done|]. apply read_u32_be_range in Ec; [lia|done].
Qed.

(** C27: a Safari file is read back whole. Whatever cookies are laid out in pages,
    with any bytes behind the last page, the parser gives exactly those cookies,
    in order, with their fields, flags and expiry. And the parser never panics:
    on any file at all, however its counts, sizes and offsets lie, no slice is out
    of range; and what a record gives is a function of that record alone. *)
Theorem binarycookies_are_read_back (pages : list (list SafariCookie)) (trailer : bytes) :
  Forall (Forall safari_ok) pages -> Forall (fun cs => zlen (encode_page cs) < 2 ^ 32) pages ->
  zlen pages < 2 ^ 32 -> zlen (encode_file pages trailer) <= u64_max ->
  parse_binarycookies (encode_file pages trailer) = Some (imported <$> concat pages) /\
  (forall file, bytes_ok file -> exists cs, parse_binarycookies file = Some cs) /\
  (forall record rest n, bytes_ok record -> read_u32_le record 0 = Some n -> 48 <= n <= zlen record ->
     parse_binarycookies_record (record ++ rest) = parse_binarycookies_record record).
Proof.
  intros Ho Hl Hn Hu. split; [by apply parse_encoded_file|]. split; [exact parse_never_panics|exact record_is_local].
Qed.

(** * Decryption *)

Lemma last_replicate (n : nat) (x : Z) (l : bytes) : (0 < n)%nat -> last (l ++ replicate n x) = Some x.
Proof. intros Hn. destruct n as [|n]; [lia|]. replace (S n) with (n + 1)%nat by lia. rewrite replicate_add, app_assoc. apply last_snoc. Qed.

Lemma existsb_other (x : Z) l : existsb (fun b => negb (b =? x)) l = false <-> l = replicate (length l) x.
Proof.
  induction l as [|b l IH]; [done|]. cbn. rewrite orb_false_iff, negb_false_iff, Z.eqb_eq, IH. split.
  - intros [-> E]. by rewrite <- E.
  - intros [= -> E]. split; [done|]. by rewrite <- E at 1.
Qed.

(** Exactly the paddings are removed: one to sixteen bytes, each of them their
    number. *)
Theorem unpad_spec data x :
  bytes_ok data ->
  pkcs7_unpad data = Ok x <-> exists n, (1 <= n <= 16)%nat /\ data = x ++ replicate n (Z.of_nat n).
Proof.
  intros Hb. unfold pkcs7_unpad. split.
  - destruct (last data) as [pad|] eqn:El; [|done]. assert (Hp : byte_ok pad).
    { apply last_Some in El as [l ->]. apply Forall_app in Hb as [_ Hb]. by inversion Hb. }
    unfold byte_ok in Hp.
    destruct (Z.eqb_spec pad 0), (Z.ltb_spec 16 pad), (Z.ltb_spec (zlen data) pad); cbn [orb]; try done.
    destruct (existsb _ _) eqn:Ee; [done|]. intros [= <-]. exists (Z.to_nat pad). split; [lia|].
    apply existsb_other in Ee. rewrite length_drop in Ee. rewrite Z2Nat.id by lia.
    rewrite <- (take_drop (Z.to_nat (zlen data - pad)) data) at 1. f_equal. rewrite Ee. f_equal. unfold zlen in *. lia.
  - intros (n & Hn & ->). rewrite last_replicate by lia. unfold zlen. rewrite length_app, length_replicate.
    destruct (Z.eqb_spec (Z.of_nat n) 0), (Z.ltb_spec 16 (Z.of_nat n)), (Z.ltb_spec (Z.of_nat (length x + n)) (Z.of_nat n)); try lia.
    cbn [orb]. replace (Z.to_nat (Z.of_nat (length x + n) - Z.of_nat n)) with (length x) by lia.
    rewrite drop_app_length, take_app_length. rewrite (proj2 (existsb_other _ _)); [done|]. by rewrite length_replicate.
Qed.

Definition pad16 (x : bytes) : bytes := let n := (16 - length x mod 16)%nat in x ++ replicate n (Z.of_nat n).
Lemma unpad_pad x : bytes_ok x -> pkcs7_unpad (pad16 x) = Ok x.
Proof.
  intros Hx. pose proof (Nat.mod_upper_bound (length x) 16 ltac:(lia)).
  apply unpad_spec; [|exists (16 - length x mod 16)%nat; split; [lia|done]].
  unfold pad16. apply Forall_app_2; [done|]. apply Forall_replicate. unfold byte_ok. lia.
Qed.
Lemma pad16_length x : zlen (pad16 x) mod 16 = 0 /\ 0 < zlen (pad16 x).
Proof.
  pose proof (Nat.mod_upper_bound (length x) 16 ltac:(lia)). pose proof (Nat.div_mod (length x) 16 ltac:(lia)) as Hd.
  unfold pad16, zlen. rewrite length_app, length_replicate. split; [|lia].
  replace (Z.of_nat (length x + (16 - length x mod 16))) with ((Z.of_nat (length x / 16) + 1) * 16) by lia.
  apply Z_mod_mult.
Qed.

Definition unprintables (l : bytes) : Z := zlen (filter (fun b => printable_ascii b = false) l).

Section decrypt.
Context (aes_cbc_encrypt : bytes -> bytes -> bytes -> bytes) (aes_cbc_decrypt : bytes -> bytes -> bytes -> result bytes bytes).
(** CBC over a block cipher: whole blocks come back, and keep their length. *)
Context (cbc_laws : forall key iv x, zlen x mod 16 = 0 ->
  aes_cbc_decrypt key iv (aes_cbc_encrypt key iv x) = Ok x /\ zlen (aes_cbc_encrypt key iv x) = zlen x).

Definition encrypt_v10 (key plaintext : bytes) : bytes :=
  str "v10" ++ aes_cbc_encrypt key (replicate 16 32) (pad16 plaintext).

Lemma decrypt_encrypted key plaintext :
  bytes_ok plaintext -> decrypt_chromium_value aes_cbc_decrypt (encrypt_v10 key plaintext) key = Ok (strip_hmac_prefix plaintext).
Proof.
  intros Hp. destruct (pad16_length plaintext) as [Hm Hl]. destruct (cbc_laws key (replicate 16 32) _ Hm) as [Hd Hz].
  unfold encrypt_v10. set (ct := aes_cbc_encrypt _ _ _) in *. change (str "v10" ++ ct) with (118 :: 49 :: 48 :: ct).
  unfold decrypt_chromium_value. change (is_digit 49) with true. change (is_digit 48) with true. change (118 =? 118) with true. cbn [negb orb].
  rewrite bool_decide_false by (intros E; rewrite E, zlen_nil in Hz; lia).
  rewrite Hz, Hm, Z.eqb_refl. cbn [negb]. rewrite Hd. cbn [with_context result_bind]. rewrite unpad_pad by done. done.
Qed.

(** A value that Chromium encrypted is decrypted: as it is when it has the form of
    older versions and no binary start, and without the hash in front of it when
    it has the form of newer ones. *)
Theorem cookie_value_is_recovered key value hash :
  bytes_ok value -> bytes_ok hash -> zlen hash = 32 -> 8 <= unprintables hash ->
  (zlen value <= 32 \/ unprintables (take 32 value) < 8 ->
   decrypt_chromium_value aes_cbc_decrypt (encrypt_v10 key value) key = Ok value) /\
  (value <> [] -> decrypt_chromium_value aes_cbc_decrypt (encrypt_v10 key (hash ++ value)) key = Ok value).
Proof.
  intros Hv Hh Hl Hu. unfold unprintables in *. split.
  - intros Hc. rewrite decrypt_encrypted by done. f_equal. unfold strip_hmac_prefix, CHROMIUM_COOKIE_HMAC_LEN.
    destruct (Z.leb_spec (zlen value) 32); [done|]. destruct (Z.leb_spec 8 (zlen (filter (fun b => printable_ascii b = false) (take 32 value)))); [|done]. lia.
  - intros Hne. rewrite decrypt_encrypted by (by apply Forall_app_2). f_equal. unfold strip_hmac_prefix, CHROMIUM_COOKIE_HMAC_LEN.
    assert (length hash = 32%nat) as H32 by (unfold zlen in Hl; lia).
    rewrite <- H32. rewrite take_app_length, drop_app_length, zlen_app, Hl.
    destruct (Z.leb_spec (32 + zlen value) 32) as [Hx|_].
    + destruct value; [done|]. rewrite zlen_cons in Hx. pose proof (zlen_nonneg value). lia.
    + by destruct (Z.leb_spec 8 (zlen (filter (fun b => printable_ascii b = false) hash))); [|lia].
Qed.

(** Of a newer version's cookie with an empty value the hash is imported as the
    value. *)
Theorem empty_value_becomes_hash key hash :
  bytes_ok hash -> zlen hash = 32 -> decrypt_chromium_value aes_cbc_decrypt (encrypt_v10 key (hash ++ [])) key = Ok hash.
Proof.
  intros Hh Hl. rewrite app_nil_r, decrypt_encrypted by done. f_equal. unfold strip_hmac_prefix. by rewrite Hl.
Qed.
End decrypt.

(** * Which hosts pass *)

Definition labels (h : bytes) : list bytes := split_on 46 h.

Lemma join_labels ls c : ls <> [] -> join [46] (ls ++ split_on 46 c) = join [46] ls ++ str "." ++ c.
Proof.
  intros Hne. induction ls as [|l ls IH]; [done|]. pose proof (split_on_nonempty 46 c) as Hs. cbn [app].
  rewrite join_cons by (intros E; apply app_eq_nil in E as [_ ?]; done). destruct (decide (ls = [])) as [->|Hl].
  - cbn [app]. by rewrite join_split.
  - rewrite IH by done. rewrite join_cons by done. by rewrite <- !app_assoc.
Qed.

(** A cookie passes the filter of a host exactly when the labels of its domain
    are the last labels of the host, leading dot and case apart: a host gets its
    own cookies and those of its parent domains; not those of a name that only
    ends alike, nor those of its subdomains. *)
Theorem host_filter_is_domain_suffix host_key filter_host :
  host_matches_filter host_key filter_host = true <->
  bare_host host_key <> [] /\ bare_host filter_host <> [] /\
  labels (bare_host host_key) `suffix_of` labels (bare_host filter_host).
Proof.
  unfold host_matches_filter. set (c := bare_host host_key). set (f := bare_host filter_host).
  destruct (decide (c = [])) as [Hc|Hc]; [rewrite bool_decide_true by done; split; [done|by intros [? _]]|].
  destruct (decide (f = [])) as [Hf|Hf]; [rewrite (bool_decide_true (f = [])) by done; rewrite orb_true_r; split; [done|by intros (_ & ? & _)]|].
  rewrite !bool_decide_false by done. cbn [orb]. rewrite orb_true_iff, bytes_eqb_eq, ends_with_iff. split.
  - intros [->|[r Hr]]; (split; [done|split; [done|]]); [by exists []|]. exists (labels r). unfold labels.
    rewrite Hr. exact (split_on_app_sep 46 r c).
  - intros (_ & _ & [ls Hls]). unfold labels in Hls. pose proof (join_split 46 f) as Hf'. rewrite Hls in Hf'.
    destruct (decide (ls = [])) as [->|Hne]; [left; rewrite <- Hf'; apply join_split|right].
    exists (join [46] ls). rewrite <- Hf'. by apply join_labels.
Qed.

(** * The import as a whole *)

(** The store that [chromium_cookie_path] considers in an entry. *)
Definition eligible (k : Disk) (root : bytes) (e : DirEntry) : option (Z * bytes) :=
  if negb (de_dir e) then None
  else if bytes_eqb (from_utf8_lossy (de_name e)) (str "Guest Profile") ||
          bytes_eqb (from_utf8_lossy (de_name e)) (str "System Profile") then None
  else profile_db k (path_join root (de_name e)).

Lemma profile_step_candidate k root best e :
  profile_step k root best e =
    match eligible k root e, best with
    | None, _ => best
    | Some (t', p), Some (t, _) => if t <? t' then Some (t', p) else best
    | Some x, None => Some x
    end.
Proof.
  unfold profile_step, eligible. destruct (de_dir e); [|by destruct best]. cbn [negb].
  destruct (_ || _); [by destruct best|]. destruct (profile_db _ _) as [[t' p]|]; [|by destruct best]. by destruct best as [[t q]|].
Qed.

Lemma newest_of_entries k root es best :
  match foldl (profile_step k root) best es with
  | None => best = None /\ (forall e, e ∈ es -> eligible k root e = None)
  | Some (t, p) =>
      (best = Some (t, p) \/ exists e, e ∈ es /\ eligible k root e = Some (t, p)) /\
      (forall t0 p0, best = Some (t0, p0) -> t0 <= t) /\
      (forall e t' p', e ∈ es -> eligible k root e = Some (t', p') -> t' <= t)
  end.
Proof.
  revert best. induction es as [|e es IH]; intros best; cbn [foldl].
  - destruct best as [[t p]|]; [|split; [done|intros e He; by apply not_elem_of_nil in He]].
    split_and!; [by left|intros ? ? [= -> _]; lia|intros e ? ? He; by apply not_elem_of_nil in He].
  - specialize (IH (profile_step k root best e)). pose proof (profile_step_candidate k root best e) as Hs.
    destruct (foldl _ _ es) as [[t p]|].
    + destruct IH as (H1 & H2 & H3).
      assert (Hb : forall t0 p0, best = Some (t0, p0) -> t0 <= t).
      { intros t0 p0 ->. destruct (eligible k root e) as [[t' q]|]; [|by eapply H2].
        destruct (Z.ltb_spec t0 t'); [specialize (H2 _ _ Hs); lia|by eapply H2]. }
      assert (He : forall t' p', eligible k root e = Some (t', p') -> t' <= t).
      { intros t' p' Ec. rewrite Ec in Hs. destruct best as [[t0 p0]|]; [|by eapply H2].
        destruct (Z.ltb_spec t0 t'); [by eapply H2|]. specialize (Hb _ _ eq_refl). lia. }
      split_and!; [|done|].
      * destruct H1 as [H1|(e' & Hin & Hc)]; [|right; exists e'; split; [by apply elem_of_cons; right|done]].
        rewrite H1 in Hs. destruct (eligible k root e) as [[t' q]|] eqn:Ec; [|by left].
        destruct best as [[t0 p0]|]; [destruct (t0 <? t'); [|by left]|];
          injection Hs as -> ->; right; exists e; split; [apply list_elem_of_here|done|apply list_elem_of_here|done].
      * intros e' t' p' [->|Hin]%elem_of_cons Hc; [by eapply He|by eapply H3].
    + destruct IH as [H1 H2]. rewrite H1 in Hs. destruct (eligible k root e) as [[t' q]|] eqn:Ec.
      * destruct best as [[t0 p0]|]; [by destruct (t0 <? t')|done].
      * split; [done|]. intros e' [->|Hin]%elem_of_cons; [done|by apply H2].
Qed.

(** The store that is chosen is one of a profile that is neither the guest's nor
    the system's, and none of these was modified later; none is chosen only when
    there is none. *)
Theorem newest_profile_is_read k def support entries :
  app_support_dir k = Some support -> read_dir k (path_join support (cd_root def)) = Some entries ->
  let root := path_join support (cd_root def) in
  match chromium_cookie_path k def with
  | Some p => exists e t, e ∈ entries /\ eligible k root e = Some (t, p) /\
      forall e' t' p', e' ∈ entries -> eligible k root e' = Some (t', p') -> t' <= t
  | None => forall e, e ∈ entries -> eligible k root e = None
  end.
Proof.
  intros Hs He root. unfold chromium_cookie_path. rewrite Hs. cbn [mbind option_bind]. rewrite He. cbn [mbind option_bind]. fold root.
  pose proof (newest_of_entries k root entries None) as Hn. destruct (foldl _ _ entries) as [[t p]|]; cbn [fmap option_fmap option_map].
  - destruct Hn as ([|(e & H1 & H2)] & _ & H3); [done|]. exists e, t. by split_and!.
  - apply Hn.
Qed.

Section import.
Context {C : Type} (get_string get_bytes : C -> result bytes bytes) (get_i64 : C -> result Z bytes) (null : C).
Context (pbkdf2 : bytes -> bytes) (aes_cbc_decrypt : bytes -> bytes -> bytes -> result bytes bytes).

(** Nothing was done, or the temporary directory was made first and removed last. *)
Definition bracketed (fx : list CookieEffect) : Prop :=
  fx = [] \/ exists mid, fx = MakeTempDir :: mid ++ [RemoveTempDir] /\ (MakeTempDir ∉ mid) /\ (RemoveTempDir ∉ mid).

Lemma copy_effects io :
  match copy_sqlite_to_temp (C := C) io with
  | (fx, Err _) => bracketed fx /\ (forall s a, AskKeychain s a ∉ fx)
  | (fx, Ok _) => exists mid, fx = MakeTempDir :: mid /\ (forall x, x ∈ mid -> x = CopyDb \/ exists s, x = CopySidecar s)
  end.
Proof.
  unfold copy_sqlite_to_temp. destruct (temp_dir io) as [u|e]; [destruct (db_copy io) as [u'|e]|].
  - eexists. split; [done|]. intros x [->|Hx]%elem_of_cons; [by left|]. apply list_elem_of_fmap in Hx as (s & -> & _). eauto.
  - split; [right; exists []; split_and!; [done|apply not_elem_of_nil|apply not_elem_of_nil]|].
    intros s a [?|[?|?]%elem_of_cons]%elem_of_cons; [done..|by eapply not_elem_of_nil].
  - split; [by left|]. intros s a. apply not_elem_of_nil.
Qed.

Lemma bracket_mid mid extra :
  (forall x, x ∈ mid -> x = CopyDb \/ exists s, x = CopySidecar s) -> (forall x, x ∈ extra -> exists s a, x = AskKeychain s a) ->
  bracketed ((MakeTempDir :: mid) ++ extra ++ [RemoveTempDir]).
Proof.
  intros Hm He. right. exists (mid ++ extra). split; [by rewrite <- app_assoc|].
  split; intros [Hx|Hx]%elem_of_app; [destruct (Hm _ Hx) as [|[? ?]]|destruct (He _ Hx) as (? & ? & ?)|
    destruct (Hm _ Hx) as [|[? ?]]|destruct (He _ Hx) as (? & ? & ?)]; done.
Qed.

Lemma row_cookie_passes key f r c : row_cookie aes_cbc_decrypt key f r = Some c -> passes f (ck_host c) = true.
Proof.
  unfold row_cookie. destruct (passes f (host_key r)) eqn:E; [|done]. cbn [negb]. destruct (row_value _ key r); [|done].
  cbn. by intros [= <-].
Qed.
Lemma imported_pass key f rows : Forall (fun c => passes f (ck_host c) = true) (omap (row_cookie aes_cbc_decrypt key f) rows).
Proof. apply Forall_forall. intros c (r & _ & Hr)%list_elem_of_omap. by eapply row_cookie_passes. Qed.

Let chromium := read_chromium get_string get_bytes get_i64 null pbkdf2 aes_cbc_decrypt.
Let firefox := read_firefox get_string get_i64 null.
Let rows_of (io : DbIo (C := C)) := query_chromium_rows get_string get_bytes get_i64 null io.

Definition asks (fx : list CookieEffect) : Prop := exists s a, AskKeychain s a ∈ fx.
Lemma asks_mid fx mid : fx = MakeTempDir :: mid ->
  (forall x, x ∈ mid -> x = CopyDb \/ exists s, x = CopySidecar s) -> ~ asks (fx ++ [RemoveTempDir]).
Proof.
  intros -> Hm (s & a & Hx). cbn [app] in Hx.
  apply elem_of_cons in Hx as [|Hx]; [done|]. apply elem_of_app in Hx as [Hx|Hx]; [by destruct (Hm _ Hx) as [|[? ?]]|].
  apply elem_of_cons in Hx as [|Hx]; [done|by apply not_elem_of_nil in Hx].
Qed.

Lemma chromium_import k io security family f :
  let (fx, r) := chromium k io security family f in
  bracketed fx /\ (asks fx -> exists rows, rows_of io = Ok rows /\ existsb has_secret rows = true) /\
  (forall cookies, r = Ok cookies -> Forall (fun c => passes f (ck_host c) = true) cookies).
Proof.
  assert (Hnone : bracketed [] /\ (asks [] -> exists rows, rows_of io = Ok rows /\ existsb has_secret rows = true)).
  { split; [by left|]. intros (s & a & Hx). by apply not_elem_of_nil in Hx. }
  unfold chromium, read_chromium. destruct (List.find _ _) as [def|]; [|split; [|split]; [apply Hnone|apply Hnone|done]].
  destruct (chromium_cookie_path k def) as [p|]; [|split; [|split]; [apply Hnone|apply Hnone|done]].
  destruct (negb _); [split; [|split]; [apply Hnone|apply Hnone|done]|].
  pose proof (copy_effects io) as Hc. destruct (copy_sqlite_to_temp io) as [fx [u|e]].
  2: { destruct Hc as [Hb Ha]. split; [done|]. split; [|done]. intros (s & a & Hx). by apply Ha in Hx. }
  destruct Hc as (mid & -> & Hm). fold (rows_of io). destruct (rows_of io) as [rows|e] eqn:Er.
  2: { split; [by apply (bracket_mid mid []); [|intros ? ?%not_elem_of_nil]|]. split; [|done]. intros Ha. by eapply asks_mid in Ha. }
  destruct (existsb has_secret rows) eqn:Es.
  - assert (Hb : bracketed ((MakeTempDir :: mid) ++ [AskKeychain (cd_keychain_service def) (cd_keychain_account def); RemoveTempDir])).
    { apply (bracket_mid mid [_]); [done|]. intros x [->|?%not_elem_of_nil]%elem_of_cons; [eauto|done]. }
    destruct (get_keychain_password security) as [pw|e]; (split; [done|split; [by eauto|]]); [|done].
    intros cookies [= <-]. apply imported_pass.
  - split; [by apply (bracket_mid mid []); [|intros ? ?%not_elem_of_nil]|]. split; [intros Ha; by eapply asks_mid in Ha|].
    intros cookies [= <-]. apply imported_pass.
Qed.

Lemma firefox_import k io f :
  let (fx, r) := firefox k io f in
  bracketed fx /\ ~ asks fx /\ (forall cookies, r = Ok cookies -> Forall (fun c => passes f (ck_host c) = true) cookies).
Proof.
  unfold firefox, read_firefox. destruct (firefox_cookie_path k) as [p|].
  2: { split; [by left|]. split; [|done]. intros (s & a & Hx). by apply not_elem_of_nil in Hx. }
  pose proof (copy_effects io) as Hc. destruct (copy_sqlite_to_temp io) as [fx [u|e]].
  2: { destruct Hc as [Hb Ha]. split; [done|]. split; [|done]. intros (s & a & Hx). by apply Ha in Hx. }
  destruct Hc as (mid & -> & Hm). split; [by apply (bracket_mid mid []); [|intros ? ?%not_elem_of_nil]|].
  split; [intros Ha; by eapply asks_mid in Ha|]. intros cookies Hr.
  apply result_bind_ok in Hr as (? & _ & Hr). apply result_bind_ok in Hr as (? & _ & Hr). apply result_bind_ok in Hr as (? & _ & Hr).
  apply result_bind_ok in Hr as (l & _ & [= <-]). apply Forall_forall. intros c [Hp _]%list_elem_of_filter. exact Hp.
Qed.

(** An import leaves nothing behind and asks for nothing it does not need.
    Whatever fails on the way, a temporary copy of a cookie store that was made is
    removed, as the last thing; the key chain is asked only for a Chromium store
    in which a value is encrypted; and of a host that was asked for, only cookies
    that apply to it are imported. *)
Theorem import_cleans_up k io security file family f fx r :
  read_browser_cookies_impl get_string get_bytes get_i64 null pbkdf2 aes_cbc_decrypt k io security file family f = Some (fx, r) ->
  bracketed fx /\
  (asks fx -> exists rows, query_chromium_rows get_string get_bytes get_i64 null io = Ok rows /\ existsb has_secret rows = true) /\
  (forall cookies, r = Ok cookies -> Forall (fun c => passes f (ck_host c) = true) cookies).
Proof.
  assert (Hnone : bracketed [] /\ (asks [] -> exists rows, rows_of io = Ok rows /\ existsb has_secret rows = true)).
  { split; [by left|]. intros (s & a & Hx). by apply not_elem_of_nil in Hx. }
  unfold read_browser_cookies_impl. destruct (existsb _ CHROMIUM_DEFS).
  { intros [= E]. pose proof (chromium_import k io security family f) as Hc. unfold chromium in Hc. by rewrite E in Hc. }
  destruct (bytes_eqb family (str "safari")).
  { destruct (read_safari k file f) as [r'|] eqn:Es; [|done]. intros [= <- <-]. split; [apply Hnone|]. split; [apply Hnone|].
    intros cookies ->. unfold read_safari in Es. destruct (safari_cookie_path k); [|done]. destruct (file _); [|done].
    destruct (parse_binarycookies _) as [cs|]; [|done]. injection Es as <-. apply Forall_forall.
    intros c [Hp _]%list_elem_of_filter. exact Hp. }
  destruct (bytes_eqb family (str "firefox")).
  { intros [= E]. pose proof (firefox_import k io f) as Hc. unfold firefox in Hc. rewrite E in Hc. destruct Hc as (H1 & H2 & H3).
    split; [done|]. split; [intros Ha; by destruct (H2 Ha)|done]. }
  intros [= <- <-]. split; [apply Hnone|]. split; [apply Hnone|done].
Qed.

(** A column that does not convert to bytes gives an empty value, silently. *)
Theorem unconverted_value_is_empty (row : list C) e r :
  get_bytes (cell null row 2) = Err e -> get_bytes (cell null row 3) = Ok [] ->
  raw_row get_string get_bytes get_i64 null row = Ok r ->
  row_value aes_cbc_decrypt None r = Some [].
Proof.
  intros Hp He Hr. unfold raw_row in Hr.
  repeat (apply result_bind_ok in Hr as (? & _ & Hr)). injection Hr as <-. unfold row_value, has_secret. cbn [encrypted_value value_plain].
  rewrite Hp, He. done.
Qed.
End import.

(** * Applications *)

Module CookieExamples.
Definition a_cookie : SafariCookie :=
  mkSafari (str ".example.com") (str "session") (str "/") (str "abc123") 1 (1053 * 2 ^ 52).
Lemma a_cookie_ok : safari_ok a_cookie.
Proof.
  assert (Ht : forall s, utf8_valid s = true -> existsb (fun b => b =? 0) s = false ->
    forallb (fun b => (0 <=? b) && (b <? 256)) s = true -> text_ok s).
  { intros s Hu H0 Hb. split; [done|]. split.
    - intros Hx. rewrite <- not_true_iff_false in H0. apply H0, existsb_exists. exists 0. split; [by apply list_elem_of_In|done].
    - apply Forall_forall. intros b Hx. rewrite forallb_forall in Hb. apply list_elem_of_In, Hb in Hx. unfold byte_ok. lia. }
  split; try (split; [|discriminate]); try (apply Ht; vm_compute; reflexivity); split || idtac; vm_compute; reflexivity || discriminate.
Qed.

Lemma binarycookies_are_read_back_witness :
  parse_binarycookies (encode_file [[a_cookie]; [a_cookie; a_cookie]] [1; 2; 3]) =
    Some [imported a_cookie; imported a_cookie; imported a_cookie].
Proof.
  apply (binarycookies_are_read_back [[a_cookie]; [a_cookie; a_cookie]] [1; 2; 3]).
  - repeat first [exact a_cookie_ok | apply Forall_nil_2 | apply Forall_cons_2].
  - repeat constructor; vm_compute; reflexivity.
  - vm_compute. reflexivity.
  - vm_compute. discriminate.
Defined.

(** A cell is a text, a blob or a number; a text is not read as bytes. *)
Inductive Cell := Text (s : bytes) | Blob (b : bytes) | Number (n : Z).
Definition get_string (c : Cell) : result bytes bytes := match c with Text s => Ok s | _ => Err (str "type") end.
Definition get_bytes (c : Cell) : result bytes bytes := match c with Blob b => Ok b | _ => Err (str "type") end.
Definition get_i64 (c : Cell) : result Z bytes := match c with Number n => Ok n | _ => Err (str "type") end.

Definition home : Disk :=
  mkDisk (Some (str "/h"))
    (fun d => if bytes_eqb d (str "/h/Library/Application Support/Google/Chrome")
              then Some [mkDirEntry (str "Guest Profile") true; mkDirEntry (str "Default") true; mkDirEntry (str "Local State") false] else None)
    (fun p => if bytes_eqb p (str "/h/Library/Application Support/Google/Chrome/Default/Cookies") then Some 5 else None)
    (fun p => bytes_eqb p (str "/h/Library/Application Support/Google/Chrome/Default/Cookies")).
Definition plain_row (host : string) : list Cell :=
  [Text (str host); Text (str "n"); Text (str "v"); Blob []; Text (str "/"); Number 1; Number 0; Number 0; Number 1].
Definition db : DbIo (C := Cell) :=
  mkDbIo (Ok tt) (Ok tt) [str "-wal"] (Ok tt) (Ok tt) (Ok [plain_row ".example.com"; plain_row "example.org"]).

Definition chrome_import :=
  read_browser_cookies_impl get_string get_bytes get_i64 (Number 0) (fun p => p) (fun _ _ b => Ok b) home db Denied
    (fun _ => Err (str "denied")) (str "chrome") (Some (str "www.example.com")).
Definition imported_row : ImportedCookie :=
  mkCookie (str ".example.com") (str "n") [] (str "/") true false None (Some (str "lax")).

Lemma import_cleans_up_witness :
  chrome_import = Some ([MakeTempDir; CopyDb; CopySidecar (str "-wal"); RemoveTempDir], Ok [imported_row]) /\
  bracketed [MakeTempDir; CopyDb; CopySidecar (str "-wal"); RemoveTempDir].
Proof.
  assert (E : chrome_import = Some ([MakeTempDir; CopyDb; CopySidecar (str "-wal"); RemoveTempDir], Ok [imported_row]))
    by (vm_compute; reflexivity).
  split; [exact E|]. exact (proj1 (import_cleans_up get_string get_bytes get_i64 (Number 0) (fun p => p) (fun _ _ b => Ok b)
    home db Denied (fun _ => Err (str "denied")) (str "chrome") (Some (str "www.example.com")) _ _ E)).
Defined.

(** A store that is absent is reported as a home directory that is. *)
Example absent_store_blames_home :
  (read_chromium get_string get_bytes get_i64 (Number 0) (fun p => p) (fun _ _ b => Ok b) home db Denied (str "brave") None).2 =
    Err (str "could not resolve home directory").
Proof. vm_compute. reflexivity. Qed.

(** A cookie that expires at infinity has expired before the epoch. *)
Example infinite_expiry_wraps : mac_expiry (2047 * 2 ^ 52) = Some (- 9223372035876468609).
Proof. vm_compute. reflexivity. Qed.

(** Eight bytes make the parser reserve room for four billion pages. *)
Example eight_bytes_reserve_billions :
  page_count (str "cook" ++ [255; 255; 255; 255]) = Some 4294967295 /\
  parse_binarycookies (str "cook" ++ [255; 255; 255; 255]) = Some [].
Proof. split; vm_compute; reflexivity. Qed.
End CookieExamples.
