(* ===== verification/Ide.v ===== *)
(** Opening a directory in an IDE (grove-core/src/ide.rs) and the socket on which
    pages are opened (url_open.rs). Which programs start and how they end is a
    function of the command; splitting a command line is the crate shlex, an
    argument. *)

From S2P Require Import Prelude Utf8 Text Protocol Config.

#[local] Open Scope rust_scope.

Inductive IdeLaunchPlatform := MacOs | Other.
Inductive MacOsLaunchTarget := AppName (name : bytes) | BundleId (id : bytes).
Record MenuItemDefinition := mkDefinition {
  md_id : bytes;
  macos_targets : list MacOsLaunchTarget;
  non_macos_commands : list bytes
}.
Record LaunchCommand := mkLaunch {
  lc_program : bytes;
  lc_args : list bytes;
  lc_display : bytes;
  wait_for_exit : bool
}.

Definition XCODE_MACOS_TARGETS := [AppName (str "Xcode"); BundleId (str "com.apple.dt.Xcode")].
Definition ANDROID_STUDIO_MACOS_TARGETS :=
  [AppName (str "Android Studio"); BundleId (str "com.google.android.studio");
   BundleId (str "com.google.android.studio-EAP"); AppName (str "Android Studio Preview")].
Definition CURSOR_MACOS_TARGETS := [AppName (str "Cursor")].
Definition VSCODE_MACOS_TARGETS := [AppName (str "Visual Studio Code")].
Definition SUBLIME_MACOS_TARGETS := [AppName (str "Sublime Text")].
Definition SOURCETREE_MACOS_TARGETS := [AppName (str "Sourcetree"); BundleId (str "com.torusknot.SourceTreeNotMAS")].
Definition FORK_MACOS_TARGETS := [AppName (str "Fork"); BundleId (str "com.DanPristupov.Fork")].
Definition WEBSTORM_MACOS_TARGETS := [AppName (str "WebStorm"); BundleId (str "com.jetbrains.WebStorm")].
Definition INTELLIJ_MACOS_TARGETS :=
  [BundleId (str "com.jetbrains.intellij"); BundleId (str "com.jetbrains.intellij.ce");
   AppName (str "IntelliJ IDEA"); AppName (str "IntelliJ IDEA CE")].

Definition MENU_ITEM_DEFINITIONS : list MenuItemDefinition :=
  [mkDefinition (str "webstorm") WEBSTORM_MACOS_TARGETS [str "webstorm"];
   mkDefinition (str "vscode") VSCODE_MACOS_TARGETS [str "code"];
   mkDefinition (str "xcode") XCODE_MACOS_TARGETS [];
   mkDefinition (str "android-studio") ANDROID_STUDIO_MACOS_TARGETS [str "studio"];
   mkDefinition (str "intellij") INTELLIJ_MACOS_TARGETS
     [str "idea"; str "intellij-idea-ultimate"; str "intellij-idea-community"];
   mkDefinition (str "cursor") CURSOR_MACOS_TARGETS [str "cursor"];
   mkDefinition (str "sublime") SUBLIME_MACOS_TARGETS [str "subl"];
   mkDefinition (str "sourcetree") SOURCETREE_MACOS_TARGETS [];
   mkDefinition (str "fork") FORK_MACOS_TARGETS []].

Definition menu_item_definition (id : bytes) : option MenuItemDefinition :=
  List.find (fun d => bytes_eqb (md_id d) id) MENU_ITEM_DEFINITIONS.

Definition quote : bytes := [34].
Definition open_app_command (app_name path : bytes) : LaunchCommand :=
  mkLaunch (str "open") [str "-a"; app_name; path] (str "open -a " ++ quote ++ app_name ++ quote) true.
Definition open_bundle_command (bundle_id path : bytes) : LaunchCommand :=
  mkLaunch (str "open") [str "-b"; bundle_id; path] (str "open -b " ++ bundle_id) true.
Definition cli_command (program path : bytes) : LaunchCommand := mkLaunch program [path] program false.

Definition unsupported (item : IdeMenuItem) : bytes := str "Unsupported menu item '" ++ item_id item ++ str "'".
Definition resolve_macos_launch_commands (item : IdeMenuItem) (path : bytes) : result (list LaunchCommand) bytes :=
  match menu_item_definition (item_id item) with
  | None => Err (unsupported item)
  | Some d =>
      Ok ((fun t => match t with AppName n => open_app_command n path | BundleId b => open_bundle_command b path end)
            <$> macos_targets d)
  end.
Definition resolve_non_macos_launch_commands (item : IdeMenuItem) (path : bytes) : result (list LaunchCommand) bytes :=
  match menu_item_definition (item_id item) with
  | None => Err (unsupported item)
  | Some d =>
      match non_macos_commands d with
      | [] => Err (str "Menu item '" ++ item_id item ++ str "' is only supported on macOS")
      | programs => Ok ((fun p => cli_command p path) <$> programs)
      end
  end.

(** The end of a process that was waited for. *)
Record Output := mkOutput { success : bool; exit_code : option Z; stderr : bytes }.
(** What starting a command comes to; the output is that of a command that is
    waited for. *)
Inductive Spawned := SpawnFailed (e : bytes) | SpawnedWith (o : Output).

Definition launch_failed (c : LaunchCommand) : bytes := str "Failed to launch IDE with `" ++ lc_display c ++ str "`: ".
Definition spawn_launch_command (spawn : LaunchCommand -> Spawned) (c : LaunchCommand) : result unit bytes :=
  match spawn c with
  | SpawnFailed e => Err (launch_failed c ++ e)
  | SpawnedWith o =>
      if negb (wait_for_exit c) then Ok tt
      else if success o then Ok tt
      else
        let status := match exit_code o with Some n => str "exit code " ++ show_int n | None => str "terminated by signal" end in
        let err := trim (from_utf8_lossy (stderr o)) in
        if bool_decide (err = []) then Err (launch_failed c ++ status)
        else Err (launch_failed c ++ err ++ str " (" ++ status ++ str ")")
  end.

Section shlex.
Context (shlex_split : bytes -> option (list bytes)).

Definition parse_open_command (open_command path : bytes) : result LaunchCommand bytes :=
  match shlex_split open_command with
  | None => Err (str "Invalid menu item openCommand: " ++ open_command)
  | Some [] => Err (str "Menu item openCommand cannot be empty")
  | Some (program :: args) => Ok (mkLaunch program (args ++ [path]) open_command (bytes_eqb program (str "open")))
  end.

Definition resolve_launch_commands (item : IdeMenuItem) (platform : IdeLaunchPlatform) (path : bytes) :
    result (list LaunchCommand) bytes :=
  match trim <$> open_command item with
  | Some ((_ :: _) as open_command) => let? c := parse_open_command open_command path in Ok [c]
  | _ =>
      match platform with
      | MacOs => resolve_macos_launch_commands item path
      | Other => resolve_non_macos_launch_commands item path
      end
  end.

(** The commands that were started, and the result. *)
Fixpoint try_commands (spawn : LaunchCommand -> Spawned) (last_error : option bytes) (item : IdeMenuItem)
    (commands : list LaunchCommand) : list LaunchCommand * result unit bytes :=
  match commands with
  | [] => ([], Err (default (str "Failed to launch menu item '" ++ item_id item ++ str "'") last_error))
  | c :: commands =>
      match spawn_launch_command spawn c with
      | Ok _ => ([c], Ok tt)
      | Err e => let (tried, r) := try_commands spawn (Some e) item commands in (c :: tried, r)
      end
  end.
Definition open_in_ide_menu_item (spawn : LaunchCommand -> Spawned) (platform : IdeLaunchPlatform) (path : bytes)
    (item : IdeMenuItem) : list LaunchCommand * result unit bytes :=
  match resolve_launch_commands item platform path with
  | Err e => ([], Err e)
  | Ok commands => try_commands spawn None item commands
  end.
End shlex.

(** * Pages to open *)

(** What one connection delivers: text, or a read that failed. *)
Definition url_of_stream (read : option bytes) : option bytes :=
  buf ← read;
  let url := trim buf in
  if bool_decide (url = []) then None else Some url.
(** The urls the sink is given, over the connections in their order. *)
Definition urls_opened (streams : list (option bytes)) : list bytes := omap url_of_stream streams.

(** * Theorems *)

Section theorems.
Context (shlex_split : bytes -> option (list bytes)).

(** The path is the last argument of every command. *)
Lemma path_is_last item platform path cs c :
  resolve_launch_commands shlex_split item platform path = Ok cs -> c ∈ cs -> last (lc_args c) = Some path.
Proof.
  assert (Hm : forall cs c, resolve_macos_launch_commands item path = Ok cs -> c ∈ cs -> last (lc_args c) = Some path).
  { intros ds d. unfold resolve_macos_launch_commands. destruct (menu_item_definition _); [|done]. intros [= <-].
    intros (t & -> & _)%list_elem_of_fmap. by destruct t. }
  assert (Ho : forall cs c, resolve_non_macos_launch_commands item path = Ok cs -> c ∈ cs -> last (lc_args c) = Some path).
  { intros ds d. unfold resolve_non_macos_launch_commands. destruct (menu_item_definition _); [|done].
    destruct (non_macos_commands _); [done|]. intros [= <-] (t & -> & _)%(list_elem_of_fmap (fun p => cli_command p path) (_ :: _)). done. }
  unfold resolve_launch_commands. destruct (trim <$> open_command item) as [[|b t]|]; [by destruct platform; eauto| |by destruct platform; eauto].
  intros (x & Hx & [= <-])%result_bind_ok ->%list_elem_of_singleton. unfold parse_open_command in Hx.
  destruct (shlex_split _) as [[|p args]|]; try done. injection Hx as <-. apply last_snoc.
Qed.

Lemma tried_until_one_launches spawn item e cs tried r :
  try_commands spawn e item cs = (tried, r) ->
  (r = Ok tt /\ exists pre c post, cs = pre ++ c :: post /\ tried = pre ++ [c] /\ spawn_launch_command spawn c = Ok tt /\
     Forall (fun c => spawn_launch_command spawn c <> Ok tt) pre) \/
  (exists text, r = Err text /\ tried = cs /\ Forall (fun c => spawn_launch_command spawn c <> Ok tt) cs /\
     (forall c, last cs = Some c -> spawn_launch_command spawn c = Err text)).
Proof.
  revert e tried r. induction cs as [|c cs IH]; intros e tried r; cbn [try_commands].
  - intros [= <- <-]. right. eexists. split_and!; [done|done|constructor|done].
  - destruct (spawn_launch_command spawn c) as [[]|x] eqn:Ec.
    + intros [= <- <-]. left. split; [done|]. exists [], c, cs. by split_and!.
    + destruct (try_commands spawn (Some x) item cs) as [t' r'] eqn:Et. intros [= <- <-].
      destruct (IH _ _ _ Et) as [(-> & pre & d & post & -> & -> & Hd & Hp)|(text & -> & -> & Hf & Hl)].
      * left. split; [done|]. exists (c :: pre), d, post. split_and!; [done..|]. constructor; [by rewrite Ec|done].
      * right. exists text. split_and!; [done|done|constructor; [by rewrite Ec|done]|].
        intros d Hd. destruct cs as [|c2 cs]; [|by apply Hl]. injection Hd as <-. cbn [try_commands] in Et. by simplify_eq.
Qed.

(** Opening tries the commands of the menu item in their order, each with the
    directory as its last argument, until one launches; the error is that of the
    last one, when none does. *)
Theorem ide_is_the_first_that_launches spawn platform path item cs tried r :
  resolve_launch_commands shlex_split item platform path = Ok cs ->
  open_in_ide_menu_item shlex_split spawn platform path item = (tried, r) ->
  Forall (fun c => last (lc_args c) = Some path) tried /\
  ((r = Ok tt /\ exists pre c post, cs = pre ++ c :: post /\ tried = pre ++ [c] /\ spawn_launch_command spawn c = Ok tt /\
      Forall (fun c => spawn_launch_command spawn c <> Ok tt) pre) \/
   (exists text, r = Err text /\ tried = cs /\ (forall c, last cs = Some c -> spawn_launch_command spawn c = Err text))).
Proof.
  intros Hr. unfold open_in_ide_menu_item. rewrite Hr. intros Ht. destruct (tried_until_one_launches _ _ _ _ _ _ Ht) as
    [(-> & pre & c & post & -> & -> & Hc & Hp)|(text & -> & -> & Hf & Hl)].
  - split; [|by left; split; [done|]; exists pre, c, post]. apply Forall_forall. intros d Hd.
    eapply path_is_last; [exact Hr|]. apply elem_of_app in Hd as [Hd| ->%list_elem_of_singleton]; apply elem_of_app; [by left|right; left].
  - split; [|by right; exists text]. apply Forall_forall. intros d Hd. by eapply path_is_last.
Qed.

(** Every known item has a command on macOS, and its id names it alone. *)
Lemma known_items_resolve d path :
  d ∈ MENU_ITEM_DEFINITIONS -> exists c cs, resolve_launch_commands shlex_split (mkIdeMenuItem (md_id d) None None) MacOs path = Ok (c :: cs).
Proof.
  revert d. apply Forall_forall. unfold MENU_ITEM_DEFINITIONS.
  repeat (constructor; [eexists _, _; reflexivity|]). constructor.
Qed.
End theorems.

Example blank_command_is_no_command :
  resolve_launch_commands (fun _ => None) (mkIdeMenuItem (str "cursor") None (Some (str "  "))) Other (str "/p") =
    Ok [cli_command (str "cursor") (str "/p")].
Proof. reflexivity. Qed.
