(* ===== verification/Browser.v ===== *)
(** The browser tabs of the desktop shell (src-tauri/src/browser.rs): the registry
    of web views, the commands of the front end on them, and what a page can make
    the app do by navigating. Tauri is an arbitrary function of the calls made so
    far, with its table of labels; the crate url is an interface. *)

From S2P Require Import Prelude Utf8 Text Json World.

#[local] Open Scope world_scope.

(** The crate url: parsing, the scheme in lower case, the text of a URL and the
    decoded pairs of its query. *)
Class UrlCrate := {
  Url : Type;
  parse_url : bytes -> result Url bytes;
  url_scheme : Url -> bytes;
  url_text : Url -> bytes;
  query_pairs : Url -> list (bytes * bytes)
}.

(** An [f64], as the bits that are passed on. *)
Definition f64 : Type := Z.
Record Bounds := mkBounds { b_x : f64; b_y : f64; b_width : f64; b_height : f64 }.
(** A web view is known by the number of the call that made it. *)
Record BrowserEntry := mkBrowserEntry { be_webview : nat; be_bounds : option Bounds }.

(** What the front end is told. *)
Inductive AppEvent :=
| BrowserNav (tab_id url : bytes) (title : option bytes) (loading title_only : bool)
| BrowserNewWindow (opener_tab_id url : bytes)
| BrowserGrab (tab_id data : bytes)
| BrowserFind (tab_id : bytes) (active total : Z)
| BrowserFindOpen (tab_id : bytes)
| BrowserFavicon (tab_id page_url favicon_url : bytes).

Definition GUEST_MENU_SCHEME : bytes := str "grovemenu".
Definition GUEST_GRAB_SCHEME : bytes := str "grovegrab".
Definition GUEST_FIND_SCHEME : bytes := str "grovefind".
Definition GUEST_FAVICON_SCHEME : bytes := str "grovefavicon".
Definition GUEST_SPA_SCHEME : bytes := str "grovespa".

Section browser.
Context `{UrlCrate}.

Definition scheme_in (schemes : list string) (url : Url) : bool :=
  existsb (fun s => bytes_eqb (url_scheme url) (str s)) schemes.
Definition scheme_allowed : Url -> bool := scheme_in ["http"; "https"; "about"; "data"; "blob"; "file"]%string.

(** ** The state *)

Inductive call :=
| AddChild (label : bytes) (url : Url) (b : Bounds)
| LoadUrl (webview : nat) (url : Url)
| EvalScript (webview : nat) (script : bytes)
| Reload (webview : nat)
| SetPosition (webview : nat) (x y : f64)
| SetSize (webview : nat) (width height : f64)
| ShowView (webview : nat)
| HideView (webview : nat)
| CloseView (webview : nat)
| OrderView (webview : nat) (behind : bool)
| Inspect (webview : nat) (tab_id : bytes)
| Tell (e : AppEvent)
| OpenExternal (url : bytes).

(** What Tauri and the system answer after the calls so far. *)
Record Shell := mkShell {
  answer : list call -> call -> result unit bytes;
  main_window : list call -> bool;
  on_main_thread : list call -> bool
}.
(** The registry; Tauri's table of the web views by their labels; the calls. The
    mutex of the registry is not poisoned: nothing panics under it. *)
Record Browsers := mkBrowsers {
  tabs : gmap bytes BrowserEntry;
  webviews : gmap bytes nat;
  calls : list call
}.
Definition BM : Type -> Type := State Browsers.

Definition label_of (tab_id : bytes) : bytes := str "browser-" ++ tab_id.

Section commands.
Context (sh : Shell).

Definition put_call (c : call) (s : Browsers) : Browsers := mkBrowsers (tabs s) (webviews s) (calls s ++ [c]).
Definition do_call (c : call) : BM (result unit bytes) := fun s => (answer sh (calls s) c, put_call c s).
(** A call whose failure is ignored. *)
Definition call_ (c : call) : BM unit := fun s => (tt, put_call c s).
Definition entry_of (tab_id : bytes) : BM (option BrowserEntry) := fun s => (tabs s !! tab_id, s).
Definition set_tabs (f : gmap bytes BrowserEntry -> gmap bytes BrowserEntry) : BM unit := fun s =>
  (tt, mkBrowsers (f (tabs s)) (webviews s) (calls s)).

(** A label is given once. *)
Definition add_child (label : bytes) (url : Url) (b : Bounds) : BM (result nat bytes) := fun s =>
  let c := AddChild label url b in
  let v := length (calls s) in
  match webviews s !! label with
  | Some _ => (Err (str "a webview with label `" ++ label ++ str "` already exists"), put_call c s)
  | None =>
      match answer sh (calls s) c with
      | Ok _ => (Ok v, mkBrowsers (tabs s) (<[label := v]> (webviews s)) (calls s ++ [c]))
      | Err e => (Err e, put_call c s)
      end
  end.
Definition close_view (tab_id : bytes) (v : nat) : BM (result unit bytes) := fun s =>
  let c := CloseView v in
  match answer sh (calls s) c with
  | Ok _ => (Ok tt, mkBrowsers (tabs s) (delete (label_of tab_id) (webviews s)) (calls s ++ [c]))
  | Err e => (Err e, put_call c s)
  end.

(** ** The commands *)

Definition checked_url (url : bytes) : result Url bytes :=
  match parse_url url with
  | Err e => Err (str "Invalid URL: " ++ e)
  | Ok parsed =>
      if scheme_in ["http"; "https"; "file"]%string parsed then Ok parsed
      else Err (str "Refusing to load non-http(s)/file URL: " ++ url_text parsed)
  end.

Definition browser_create (tab_id url : bytes) (bounds : Bounds) : BM (result unit bytes) :=
  let! parsed := ret (checked_url url) in
  let* entry := entry_of tab_id in
  match entry with
  | Some entry =>
      let* _ := set_tabs (insert tab_id (mkBrowserEntry (be_webview entry) (Some bounds))) in
      do_call (LoadUrl (be_webview entry) parsed)
  | None =>
      let! _ := fun s => (if main_window sh (calls s) then Ok tt else Err (str "main window not found"), s) in
      let! _ := fun s =>
        (if on_main_thread sh (calls s) then Ok tt else Err (str "browser_create must run on the main thread"), s) in
      let! v := add_child (label_of tab_id) parsed bounds in
      let* _ := set_tabs (insert tab_id (mkBrowserEntry v (Some bounds))) in
      ret (Ok tt)
  end.

(** Nothing, for a tab that is not there. *)
Definition with_entry (tab_id : bytes) (k : BrowserEntry -> BM (result unit bytes)) : BM (result unit bytes) :=
  let* entry := entry_of tab_id in
  match entry with Some e => k e | None => ret (Ok tt) end.

Definition browser_set_behind (tab_id : bytes) (behind : bool) : BM (result unit bytes) :=
  with_entry tab_id (fun e => let* _ := call_ (OrderView (be_webview e) behind) in ret (Ok tt)).
Definition browser_navigate (tab_id url : bytes) : BM (result unit bytes) :=
  let! parsed := ret (checked_url url) in
  with_entry tab_id (fun e => do_call (LoadUrl (be_webview e) parsed)).
Definition browser_go_back (tab_id : bytes) : BM (result unit bytes) :=
  with_entry tab_id (fun e => do_call (EvalScript (be_webview e) (str "history.back()"))).
Definition browser_go_forward (tab_id : bytes) : BM (result unit bytes) :=
  with_entry tab_id (fun e => do_call (EvalScript (be_webview e) (str "history.forward()"))).
Definition browser_reload (tab_id : bytes) : BM (result unit bytes) :=
  with_entry tab_id (fun e => do_call (Reload (be_webview e))).
Definition browser_set_grab_mode (tab_id : bytes) (enabled : bool) : BM (result unit bytes) :=
  with_entry tab_id (fun e => do_call (EvalScript (be_webview e)
    (if enabled then str "window.__groveGrabArm&&window.__groveGrabArm()"
     else str "window.__groveGrabDisarm&&window.__groveGrabDisarm()"))).

Definition show_bool (b : bool) : bytes := if b then str "true" else str "false".
Definition find_script `{JsonText} (query : bytes) (forward find_next : bool) : bytes :=
  str "window.__groveFind&&window.__groveFind(" ++ to_string (Str query) ++ str "," ++ show_bool forward ++ str "," ++
  show_bool find_next ++ str ")".
Definition browser_find `{JsonText} (tab_id query : bytes) (forward find_next : bool) : BM (result unit bytes) :=
  with_entry tab_id (fun e => do_call (EvalScript (be_webview e) (find_script query forward find_next))).
Definition browser_stop_find (tab_id : bytes) : BM (result unit bytes) :=
  with_entry tab_id (fun e => do_call (EvalScript (be_webview e) (str "window.__groveFindStop&&window.__groveFindStop()"))).

Definition browser_set_bounds (tab_id : bytes) (bounds : Bounds) : BM (result unit bytes) :=
  with_entry tab_id (fun e =>
    let* _ := set_tabs (insert tab_id (mkBrowserEntry (be_webview e) (Some bounds))) in
    let! _ := do_call (SetPosition (be_webview e) (b_x bounds) (b_y bounds)) in
    do_call (SetSize (be_webview e) (b_width bounds) (b_height bounds))).
Definition browser_set_visible (tab_id : bytes) (visible : bool) : BM (result unit bytes) :=
  with_entry tab_id (fun e => do_call (if visible then ShowView (be_webview e) else HideView (be_webview e))).
Definition browser_close (tab_id : bytes) : BM (result unit bytes) :=
  with_entry tab_id (fun e => let* _ := set_tabs (delete tab_id) in close_view tab_id (be_webview e)).
Definition browser_open_devtools (tab_id : bytes) : BM (result unit bytes) :=
  with_entry tab_id (fun e => let* _ := call_ (Inspect (be_webview e) tab_id) in ret (Ok tt)).

(** The map is drained in some order. *)
Fixpoint close_each (l : list (bytes * BrowserEntry)) : BM unit :=
  match l with
  | [] => ret tt
  | (tab_id, e) :: l => let* _ := close_view tab_id (be_webview e) in close_each l
  end.
Definition browser_close_all : BM (result unit bytes) := fun s =>
  (let* _ := set_tabs (fun _ => ∅) in let* _ := close_each (map_to_list (tabs s)) in ret (Ok tt)) s.

(** ** What a page does *)

(** The last value of a key, as a loop over the pairs leaves it. *)
Definition last_value (key : string) (pairs : list (bytes * bytes)) : option bytes :=
  foldl (fun v p => if bytes_eqb p.1 (str key) then Some p.2 else v) None pairs.
Definition first_value (key : string) (pairs : list (bytes * bytes)) : option bytes :=
  snd <$> List.find (fun p => bytes_eqb p.1 (str key)) pairs.

Definition is_web (url : bytes) : bool :=
  match parse_url url with Ok u => scheme_in ["http"; "https"]%string u | Err _ => false end.

Definition handle_guest_menu_action (tab_id raw_url : bytes) : BM unit :=
  match parse_url raw_url with
  | Err _ => ret tt
  | Ok parsed =>
      let action := default [] (last_value "action" (query_pairs parsed)) in
      let target_url := last_value "url" (query_pairs parsed) in
      if bytes_eqb action (str "inspect") then
        fun s => match webviews s !! label_of tab_id with
                 | Some v => call_ (Inspect v tab_id) s
                 | None => (tt, s)
                 end
      else if bytes_eqb action (str "open-external") then
        match target_url with
        | Some url => if is_web url then call_ (OpenExternal url) else ret tt
        | None => ret tt
        end
      else if bytes_eqb action (str "new-tab") then
        match target_url with
        | Some url => if is_web url then call_ (Tell (BrowserNewWindow tab_id url)) else ret tt
        | None => ret tt
        end
      else ret tt
  end.

Definition emit_nav (tab_id url : bytes) (title : option bytes) (loading title_only : bool) : BM unit :=
  call_ (Tell (BrowserNav tab_id url title loading title_only)).

Definition grab_message (tab_id : bytes) (pairs : list (bytes * bytes)) : BM unit :=
  call_ (Tell (BrowserGrab tab_id (default [] (first_value "data" pairs)))).
Definition find_message (tab_id : bytes) (pairs : list (bytes * bytes)) : BM unit :=
  let count key := default 0 (last_value key pairs ≫= parse_u32) in
  if bool_decide (last_value "open" pairs = Some (str "1")) then call_ (Tell (BrowserFindOpen tab_id))
  else call_ (Tell (BrowserFind tab_id (count "active"%string) (count "total"%string))).
Definition favicon_message (tab_id : bytes) (pairs : list (bytes * bytes)) : BM unit :=
  let favicon_url := default [] (last_value "favicon" pairs) in
  if bool_decide (favicon_url = []) then ret tt
  else call_ (Tell (BrowserFavicon tab_id (default [] (last_value "page" pairs)) favicon_url)).
Definition spa_message (tab_id : bytes) (pairs : list (bytes * bytes)) : BM unit :=
  let kind := default [] (last_value "kind" pairs) in
  let nav_url := default [] (last_value "url" pairs) in
  let title := match last_value "title" pairs with Some [] | None => None | Some t => Some t end in
  if bool_decide (nav_url = []) then ret tt
  else if bytes_eqb kind (str "push") then
    let* _ := emit_nav tab_id nav_url title true false in emit_nav tab_id nav_url title false false
  else if bytes_eqb kind (str "replace") || bytes_eqb kind (str "pop") then emit_nav tab_id nav_url title false false
  else ret tt.

(** Whether the navigation goes on. It is asked for the frames of a page too. *)
Definition on_navigation (tab_id : bytes) (url : Url) : BM bool :=
  let scheme := url_scheme url in
  let denied (m : BM unit) := let* _ := m in ret false in
  if bytes_eqb scheme GUEST_MENU_SCHEME then denied (handle_guest_menu_action tab_id (url_text url))
  else if bytes_eqb scheme GUEST_GRAB_SCHEME then denied (grab_message tab_id (query_pairs url))
  else if bytes_eqb scheme GUEST_FIND_SCHEME then denied (find_message tab_id (query_pairs url))
  else if bytes_eqb scheme GUEST_FAVICON_SCHEME then denied (favicon_message tab_id (query_pairs url))
  else if bytes_eqb scheme GUEST_SPA_SCHEME then denied (spa_message tab_id (query_pairs url))
  else ret (scheme_allowed url).

Definition on_page_load (tab_id : bytes) (started : bool) (url : Url) : BM unit :=
  emit_nav tab_id (url_text url) None started false.
(** The text is empty when the web view does not say its URL. *)
Definition on_document_title_changed (tab_id : bytes) (url : option Url) (title : bytes) : BM unit :=
  emit_nav tab_id (match url with Some u => url_text u | None => [] end) (Some title) false true.
(** A window is never made. *)
Definition on_new_window (tab_id : bytes) (url : Url) : BM unit :=
  if scheme_in ["http"; "https"]%string url then call_ (Tell (BrowserNewWindow tab_id (url_text url))) else ret tt.

Inductive guest_event :=
| Navigates (url : Url)
| PageLoads (started : bool) (url : Url)
| TitleChanges (url : option Url) (title : bytes)
| WantsWindow (url : Url).

(** Whether something is loaded for it, and what it does. *)
Definition guest (tab_id : bytes) (e : guest_event) : BM bool :=
  match e with
  | Navigates url => on_navigation tab_id url
  | PageLoads started url => let* _ := on_page_load tab_id started url in ret false
  | TitleChanges url title => let* _ := on_document_title_changed tab_id url title in ret false
  | WantsWindow url => let* _ := on_new_window tab_id url in ret false
  end.

(** ** The inspector *)

(** The thread that opens it: whether the inspector could be reached, and what it
    says at each look; 30 looks, a tenth of a second apart. *)
Inductive inspector_call := Connect | IsConnected | Detach | ShowInspector | OpenDocked.
Fixpoint await_connection (looks : nat) (says : list (option bool)) : list inspector_call * bool :=
  match looks with
  | O => ([], false)
  | S looks =>
      match says with
      | Some true :: _ => ([IsConnected], true)
      | _ :: says => let '(l, c) := await_connection looks says in (IsConnected :: l, c)
      | [] => let '(l, c) := await_connection looks [] in (IsConnected :: l, c)
      end
  end.
Definition detached_devtools (connect_selector : option bool) (says : list (option bool)) : list inspector_call :=
  match connect_selector with
  | None => [OpenDocked]
  | Some there =>
      (if there then Connect else ShowInspector) :: (await_connection 30 says).1 ++ [Detach; ShowInspector]
  end.
(** Its last act, when the inspector could be reached. *)
Definition restore_bounds (v : nat) (tab_id : bytes) : BM unit :=
  let* entry := entry_of tab_id in
  match entry ≫= be_bounds with
  | Some b => let* _ := call_ (SetPosition v (b_x b) (b_y b)) in call_ (SetSize v (b_width b) (b_height b))
  | None => ret tt
  end.
End commands.
End browser.

(** * The machine *)

Inductive command :=
| CCreate (tab_id url : bytes) (bounds : Bounds)
| CSetBehind (tab_id : bytes) (behind : bool)
| CNavigate (tab_id url : bytes)
| CGoBack (tab_id : bytes)
| CGoForward (tab_id : bytes)
| CReload (tab_id : bytes)
| CGrab (tab_id : bytes) (enabled : bool)
| CFind (tab_id query : bytes) (forward find_next : bool)
| CStopFind (tab_id : bytes)
| CSetBounds (tab_id : bytes) (bounds : Bounds)
| CSetVisible (tab_id : bytes) (visible : bool)
| CClose (tab_id : bytes)
| CDevtools (tab_id : bytes)
| CCloseAll.

Section machine.
Context `{UrlCrate} `{JsonText} (sh : Shell).

Definition run_command (c : command) : BM (result unit bytes) :=
  match c with
  | CCreate t u b => browser_create sh t u b
  | CSetBehind t b => browser_set_behind t b
  | CNavigate t u => browser_navigate sh t u
  | CGoBack t => browser_go_back sh t
  | CGoForward t => browser_go_forward sh t
  | CReload t => browser_reload sh t
  | CGrab t b => browser_set_grab_mode sh t b
  | CFind t q f n => browser_find sh t q f n
  | CStopFind t => browser_stop_find sh t
  | CSetBounds t b => browser_set_bounds sh t b
  | CSetVisible t b => browser_set_visible sh t b
  | CClose t => browser_close sh t
  | CDevtools t => browser_open_devtools t
  | CCloseAll => browser_close_all sh
  end.

(** A page acts as long as its web view is there, listed or not; an inspector
    puts the bounds back some time after it was opened. *)
Inductive browser_step : Browsers -> Browsers -> Prop :=
| bs_command c s : browser_step s (run_command c s).2
| bs_guest t v e s : webviews s !! label_of t = Some v -> browser_step s (guest t e s).2
| bs_inspected v t s : Inspect v t ∈ calls s -> browser_step s (restore_bounds v t s).2.
Definition browsers_new : Browsers := mkBrowsers ∅ ∅ [].

(** ** What a page is kept from *)

Definition event_tab (e : AppEvent) : bytes :=
  match e with
  | BrowserNav t _ _ _ _ | BrowserNewWindow t _ | BrowserGrab t _ | BrowserFind t _ _ | BrowserFindOpen t
  | BrowserFavicon t _ _ => t
  end.
(** [views] are the web views that are there. *)
Definition guest_may (views : gmap bytes nat) (t : bytes) (c : call) : Prop :=
  match c with
  | Tell e =>
      event_tab e = t /\
      match e with
      | BrowserNewWindow _ url => is_web url = true \/ exists u, url = url_text u /\ scheme_in ["http"; "https"]%string u = true
      | _ => True
      end
  | OpenExternal url => is_web url = true
  | Inspect v t' => t' = t /\ views !! label_of t = Some v
  | _ => False
  end.

(** Only calls that satisfy [P] are made, and nothing else changes. *)
Definition only {A : Type} (P : gmap bytes nat -> call -> Prop) (m : BM A) : Prop :=
  forall s, tabs (m s).2 = tabs s /\ webviews (m s).2 = webviews s /\
    exists cs, calls (m s).2 = calls s ++ cs /\ Forall (P (webviews s)) cs.

Lemma only_ret {A : Type} P (a : A) : only P (ret a).
Proof. intros s. split_and!; [done|done|]. exists []. split; [by rewrite app_nil_r|constructor]. Qed.
Lemma only_call P c : (forall views, P views c) -> only P (call_ c).
Proof. intros Hc s. split_and!; [done|done|]. exists [c]. split; [done|by constructor]. Qed.
Lemma only_bind {A B : Type} P (m : BM A) (k : A -> BM B) : only P m -> (forall a, only P (k a)) -> only P (bind m k).
Proof.
  intros Hm Hk s. unfold bind. destruct (Hm s) as (Ht & Hw & cs & Hcs & Hp). destruct (m s) as [a s1]. cbn in *.
  destruct (Hk a s1) as (Ht1 & Hw1 & cs1 & Hcs1 & Hp1). rewrite Ht1, Hw1, Hcs1, Hcs. split_and!; [done|done|].
  exists (cs ++ cs1). rewrite app_assoc. split; [done|]. apply Forall_app. split; [done|by rewrite <- Hw].
Qed.
Create HintDb guest discriminated.
#[local] Hint Resolve only_ret only_call : guest.

Lemma menu_is_confined t raw : only (fun views => guest_may views t) (handle_guest_menu_action t raw).
Proof.
  unfold handle_guest_menu_action. destruct (parse_url raw) as [u|e]; [|apply only_ret].
  destruct (bytes_eqb _ (str "inspect")).
  { intros s. destruct (webviews s !! label_of t) as [v|] eqn:Ev; [|exact (only_ret (fun views => guest_may views t) tt s)].
    split_and!; [done|done|]. exists [Inspect v t]. split; [done|]. by repeat constructor. }
  destruct (last_value "url" (query_pairs u)) as [url|]; [|by repeat case_match; apply only_ret].
  destruct (bytes_eqb _ _); [|destruct (bytes_eqb _ _); [|apply only_ret]];
    (destruct (is_web url) eqn:Ew; [|apply only_ret]); apply only_call; intros views; cbn; auto.
Qed.

Lemma messages_are_confined t pairs :
  let P := fun views => guest_may views t in
  only P (grab_message t pairs) /\ only P (find_message t pairs) /\ only P (favicon_message t pairs) /\ only P (spa_message t pairs).
Proof.
  cbn zeta. split_and!; unfold grab_message, find_message, favicon_message, spa_message, emit_nav; repeat case_match;
    try apply only_bind; intros; try apply only_ret; apply only_call; intros views; by cbn.
Qed.

Lemma guest_only t e : only (fun views => guest_may views t) (guest t e).
Proof.
  destruct e as [url|st url|o title|url]; cbn [guest].
  - pose proof (messages_are_confined t (query_pairs url)) as Hm. cbn zeta in Hm. destruct Hm as (H1 & H2 & H3 & H4).
    unfold on_navigation. repeat case_match; try apply only_ret; apply only_bind; intros; try apply only_ret; try done.
    apply menu_is_confined.
  - apply only_bind; [by apply only_call|intros; apply only_ret].
  - apply only_bind; [by apply only_call|intros; apply only_ret].
  - apply only_bind; [|intros; apply only_ret]. unfold on_new_window. destruct (scheme_in _ url) eqn:Eu; [|apply only_ret].
    apply only_call. intros views. cbn. split; [done|]. right. by exists url.
Qed.

(** C7: whatever a page does, by navigating itself or a frame, loading, naming
    itself or asking for a window: nothing is loaded but under the six schemes,
    no window is made, no tab and no web view changes, no script runs; the app
    tells the front end something of the page's own tab, opens a page elsewhere
    only under http or https, and an inspector only of that tab. What is let
    through does nothing else, and what does something is not let through. *)
Theorem guests_are_confined (t : bytes) (e : guest_event) (s : Browsers) :
  let '(loaded, s') := guest t e s in
  tabs s' = tabs s /\ webviews s' = webviews s /\
  (exists cs, calls s' = calls s ++ cs /\ Forall (guest_may (webviews s) t) cs) /\
  (loaded = true -> s' = s /\ exists url, e = Navigates url /\ scheme_allowed url = true).
Proof.
  pose proof (guest_only t e) as Ho. specialize (Ho s). destruct (guest t e s) as [loaded s'] eqn:E. cbn in Ho. destruct Ho as (H1 & H2 & H3).
  split_and!; [done|done|done|]. intros ->.
  destruct e as [url|st url|o title|url]; cbn [guest] in E; unfold bind, ret in E.
  - unfold on_navigation, bind, ret in E. repeat (case_match; simplify_eq). split; [done|]. by exists url.
  - unfold on_page_load, emit_nav, call_ in E. by simplify_eq.
  - unfold on_document_title_changed, emit_nav, call_ in E. by simplify_eq.
  - destruct (on_new_window t url s); by simplify_eq.
Qed.

(** ** What the app does *)

Definition app_scripts : list bytes :=
  [str "history.back()"; str "history.forward()"; str "window.__groveGrabArm&&window.__groveGrabArm()";
   str "window.__groveGrabDisarm&&window.__groveGrabDisarm()"; str "window.__groveFindStop&&window.__groveFindStop()"].
Definition app_call_ok (c : call) : Prop :=
  match c with
  | AddChild _ url _ | LoadUrl _ url => scheme_in ["http"; "https"; "file"]%string url = true
  | EvalScript _ script => script ∈ app_scripts \/ exists q f n, script = find_script q f n
  | OpenExternal url => is_web url = true
  | _ => True
  end.
Record browsers_inv (s : Browsers) : Prop := {
  bi_entry t e : tabs s !! t = Some e -> webviews s !! label_of t = Some (be_webview e);
  bi_view l v : webviews s !! l = Some v -> exists url b, calls s !! v = Some (AddChild l url b);
  bi_calls : Forall app_call_ok (calls s)
}.

Lemma label_inj t t' : label_of t = label_of t' -> t = t'.
Proof. unfold label_of. apply app_inv_head. Qed.

Lemma inv_call c s : app_call_ok c -> browsers_inv s -> browsers_inv (put_call c s).
Proof.
  intros Hc [H1 H2 H3]. split; cbn; [done| |apply Forall_app; by repeat constructor].
  intros l v Hl. destruct (H2 l v Hl) as (u & b & Hv). exists u, b. by apply lookup_app_l_Some.
Qed.
Lemma inv_do_call c s : app_call_ok c -> browsers_inv s -> browsers_inv (do_call sh c s).2.
Proof. apply inv_call. Qed.
Lemma inv_with_entry t k s :
  (forall e s, browsers_inv s -> tabs s !! t = Some e -> browsers_inv (k e s).2) ->
  browsers_inv s -> browsers_inv (with_entry t k s).2.
Proof.
  intros Hk Hi. unfold with_entry, bind, entry_of. destruct (tabs s !! t) as [e|] eqn:E; [by apply Hk|done].
Qed.
Lemma inv_entry t v b s :
  webviews s !! label_of t = Some v -> browsers_inv s ->
  browsers_inv (mkBrowsers (<[t := mkBrowserEntry v b]> (tabs s)) (webviews s) (calls s)).
Proof.
  intros Hv [H1 H2 H3]. split; cbn; [|done|done]. intros t' e [[<- <-]|[_ Ht]]%lookup_insert_Some; [done|by apply H1].
Qed.
Lemma inv_close_view t v s :
  tabs s !! t = None -> webviews s !! label_of t = Some v -> browsers_inv s -> browsers_inv (close_view sh t v s).2.
Proof.
  intros Ht Hv Hi. unfold close_view. destruct (answer _ _ _); [|by apply inv_call].
  apply (inv_call (CloseView v)) in Hi as [H1 H2 H3]; [|done]. split; cbn in *; [| |done].
  - intros t' e Ht'. rewrite lookup_delete_ne; [by apply H1|]. intros ->%label_inj. congruence.
  - intros l v' [_ Hl]%lookup_delete_Some. by apply H2.
Qed.
Lemma inv_delete t s : browsers_inv s -> browsers_inv (mkBrowsers (delete t (tabs s)) (webviews s) (calls s)).
Proof. intros [H1 H2 H3]. split; cbn; [|done|done]. intros t' e [_ Ht]%lookup_delete_Some. by apply H1. Qed.

Lemma inv_add_child t url b s :
  scheme_in ["http"; "https"; "file"]%string url = true -> browsers_inv s ->
  let '(r, s') := add_child sh (label_of t) url b s in
  browsers_inv s' /\ tabs s' = tabs s /\ match r with Ok v => webviews s' !! label_of t = Some v | Err _ => True end.
Proof.
  intros Hu Hi. unfold add_child. destruct (webviews s !! label_of t) as [v|] eqn:Ev; [by split; [apply inv_call|]|].
  destruct (answer _ _ _); [|by split; [apply inv_call|]].
  apply (inv_call (AddChild (label_of t) url b)) in Hi as [H1 H2 H3]; [|done]. split; [split; cbn in *|]; [| |done|].
  - intros t' e Ht'. rewrite lookup_insert_ne; [by apply H1|]. intros E%label_inj. subst t'. rewrite (H1 _ _ Ht') in Ev. done.
  - intros l v [[<- <-]|[_ Hl]]%lookup_insert_Some; [|by apply H2]. exists url, b.
    rewrite lookup_app_r, Nat.sub_diag by lia. done.
  - split; [done|]. cbn. apply lookup_insert_eq.
Qed.

Lemma checked_url_ok url u : checked_url url = Ok u -> scheme_in ["http"; "https"; "file"]%string u = true.
Proof. unfold checked_url. by destruct (parse_url url), (scheme_in _ _) eqn:E; intros; simplify_eq. Qed.

Lemma inv_create t url b s : browsers_inv s -> browsers_inv (browser_create sh t url b s).2.
Proof.
  intros Hi. unfold browser_create, try_bind at 1, ret. destruct (checked_url url) as [u|e] eqn:Eu; [|done].
  apply checked_url_ok in Eu. unfold bind at 1, entry_of. destruct (tabs s !! t) as [e|] eqn:Et.
  - unfold bind, set_tabs. apply inv_do_call; [done|]. apply inv_entry; [by apply (bi_entry s)|done].
  - unfold try_bind. destruct (main_window _ _); [|done]. destruct (on_main_thread _ _); [|done].
    pose proof (inv_add_child t u b s Eu Hi) as Ha. destruct (add_child _ _ _ _ _) as [[v|e] s1]; [|by apply Ha].
    destruct Ha as (Hi1 & _ & Hv). unfold bind, set_tabs. by apply inv_entry.
Qed.
Lemma inv_navigate t url s : browsers_inv s -> browsers_inv (browser_navigate sh t url s).2.
Proof.
  intros Hi. unfold browser_navigate, try_bind, ret. destruct (checked_url url) as [u|e] eqn:Eu; [|done].
  apply checked_url_ok in Eu. apply inv_with_entry; [|done]. intros. by apply inv_do_call.
Qed.
Lemma inv_set_bounds t b s : browsers_inv s -> browsers_inv (browser_set_bounds sh t b s).2.
Proof.
  apply inv_with_entry. clear s. intros e s Hi Ht. unfold bind, set_tabs, try_bind.
  assert (Hi1 : browsers_inv (mkBrowsers (<[t := mkBrowserEntry (be_webview e) (Some b)]> (tabs s)) (webviews s) (calls s))).
  { apply inv_entry; [by apply (bi_entry s)|done]. }
  unfold do_call. cbn [calls]. destruct (answer _ _ _); [|by apply inv_call]. cbn. by apply inv_call, inv_call.
Qed.
Lemma inv_close t s : browsers_inv s -> browsers_inv (browser_close sh t s).2.
Proof.
  apply inv_with_entry. clear s. intros e s Hi Ht. unfold bind, set_tabs.
  apply inv_close_view; [apply lookup_delete_eq|by apply (bi_entry s)|by apply inv_delete].
Qed.

(** Closing them all, one after the other. *)
Lemma close_each_spec l : forall s,
  browsers_inv s -> tabs s = ∅ -> NoDup l.*1 ->
  Forall (fun p => webviews s !! label_of p.1 = Some (be_webview p.2)) l ->
  let s' := (close_each sh l s).2 in
  browsers_inv s' /\ tabs s' = ∅ /\
  forall lb, webviews s' !! lb <> None -> webviews s !! lb <> None /\
    ((forall cs v, answer sh cs (CloseView v) = Ok tt) -> forall p, p ∈ l -> label_of p.1 <> lb).
Proof.
  induction l as [|[t e] l IH]; intros s Hi Ht Hnd Hl; cbn [close_each]; cbn zeta.
  { split_and!; [done|done|]. intros lb Hlb. split; [done|]. intros _ p Hp. by apply not_elem_of_nil in Hp. }
  apply Forall_cons in Hl as [He Hl]. apply NoDup_cons in Hnd as [Hnin Hnd]. cbn in He.
  assert (Hi1 : browsers_inv (close_view sh t (be_webview e) s).2) by (apply inv_close_view; [by rewrite Ht|done|done]).
  unfold bind. unfold close_view in *. destruct (answer sh (calls s) (CloseView (be_webview e))) as [[]|er] eqn:Ea; cbn in Hi1.
  - destruct (IH _ Hi1) as (H1 & H2 & H3); [done|done| |].
    + apply Forall_forall. intros [t' e'] Hp. rewrite Forall_forall in Hl. cbn. rewrite lookup_delete_ne; [by apply (Hl (t', e'))|].
      intros E%label_inj. subst t'. apply Hnin, list_elem_of_fmap. by exists (t, e').
    + split_and!; [done|done|]. intros lb Hlb. destruct (H3 lb Hlb) as [Hd Hc]. cbn in Hd.
      destruct (decide (lb = label_of t)) as [->|Hne]; [by rewrite lookup_delete_eq in Hd|]. rewrite lookup_delete_ne in Hd by done.
      split; [done|]. intros Hall p [->|Hp]%elem_of_cons; [done|by apply Hc].
  - destruct (IH _ Hi1) as (H1 & H2 & H3); [done|done|done|]. split_and!; [done|done|].
    intros lb Hlb. destruct (H3 lb Hlb) as [Hd _]. split; [done|]. intros Hall. by rewrite Hall in Ea.
Qed.

Lemma inv_append s s' cs :
  tabs s' = tabs s -> webviews s' = webviews s -> calls s' = calls s ++ cs -> Forall app_call_ok cs ->
  browsers_inv s -> browsers_inv s'.
Proof.
  intros Et Ew Ec Hcs [H1 H2 H3]. split; rewrite ?Et, ?Ew, ?Ec; [done| |by apply Forall_app].
  intros l v Hl. destruct (H2 l v Hl) as (u & b & Hv). exists u, b. by apply lookup_app_l_Some.
Qed.
Lemma inv_guest t e s : browsers_inv s -> browsers_inv (guest t e s).2.
Proof.
  intros Hi. destruct (guest_only t e s) as (Ht & Hw & cs & Hcs & Hp). apply (inv_append s _ cs); try done.
  eapply Forall_impl; [exact Hp|]. by intros [].
Qed.
Lemma inv_restore v t s : browsers_inv s -> browsers_inv (restore_bounds v t s).2.
Proof.
  intros Hi. unfold restore_bounds, bind, entry_of. destruct (tabs s !! t ≫= be_bounds); [|done].
  unfold call_. cbn. by apply inv_call, inv_call.
Qed.

Lemma close_all_spec s :
  browsers_inv s ->
  let s' := (browser_close_all sh s).2 in
  browsers_inv s' /\ tabs s' = ∅ /\
  forall lb, webviews s' !! lb <> None -> webviews s !! lb <> None /\
    ((forall cs v, answer sh cs (CloseView v) = Ok tt) -> forall t e, tabs s !! t = Some e -> label_of t <> lb).
Proof.
  intros Hi. unfold browser_close_all, bind, set_tabs, ret. cbn zeta.
  set (s0 := mkBrowsers ∅ (webviews s) (calls s)).
  assert (Hi0 : browsers_inv s0) by (destruct Hi as [H1 H2 H3]; split; [done|exact H2|exact H3]).
  pose proof (close_each_spec (map_to_list (tabs s)) s0 Hi0 eq_refl (NoDup_fst_map_to_list _)) as Hc. cbn zeta in Hc.
  destruct (close_each sh (map_to_list (tabs s)) s0) as [[] s1] eqn:E. destruct Hc as (H1 & H2 & H3).
  - apply Forall_forall. intros [t e] Hp%elem_of_map_to_list. by apply (bi_entry s).
  - cbn in *. split_and!; [done|done|]. intros lb Hlb. destruct (H3 lb Hlb) as [Hd Hc]. split; [done|].
    intros Hall t e Ht. apply (Hc Hall (t, e)). by apply elem_of_map_to_list.
Qed.

Lemma inv_command c s : browsers_inv s -> browsers_inv (run_command c s).2.
Proof.
  intros Hi. destruct c; cbn [run_command];
    [by apply inv_create| |by apply inv_navigate| | | | | | |by apply inv_set_bounds| |by apply inv_close| |by apply close_all_spec].
  all: apply inv_with_entry; [|done]; intros e0 s0 Hi0 _; unfold bind, call_, ret; cbn [snd]; apply inv_call; try exact Hi0.
  all: cbn [app_call_ok].
  - done.
  - left. by apply (bool_decide_eq_true_1 (_ ∈ _)).
  - left. by apply (bool_decide_eq_true_1 (_ ∈ _)).
  - done.
  - left. by destruct enabled; apply (bool_decide_eq_true_1 (_ ∈ _)).
  - right. by eexists _, _, _.
  - left. by apply (bool_decide_eq_true_1 (_ ∈ _)).
  - by destruct visible.
  - done.
Qed.
Lemma browsers_step_inv s s' : browsers_inv s -> browser_step s s' -> browsers_inv s'.
Proof. intros Hi Hs. revert Hi. destruct Hs; intros Hi; [by apply inv_command|by apply inv_guest|by apply inv_restore]. Qed.
Lemma browsers_new_inv : browsers_inv browsers_new.
Proof. split; cbn; [done|done|constructor]. Qed.

(** ** No web view is lost *)

Definition all_listed (s : Browsers) : Prop :=
  forall lb, webviews s !! lb <> None -> exists t, lb = label_of t /\ tabs s !! t <> None.
Context (Hclose : forall cs v, answer sh cs (CloseView v) = Ok tt).

Lemma listed_same s s' : tabs s' = tabs s -> webviews s' = webviews s -> all_listed s -> all_listed s'.
Proof. unfold all_listed. by intros -> ->. Qed.
Lemma listed_with_entry t k s :
  (forall e s, tabs s !! t = Some e -> all_listed s -> all_listed (k e s).2) -> all_listed s -> all_listed (with_entry t k s).2.
Proof. intros Hk Hi. unfold with_entry, bind, entry_of. destruct (tabs s !! t) as [e|] eqn:E; [by apply Hk|done]. Qed.
Lemma listed_insert t e s : all_listed s -> all_listed (mkBrowsers (<[t := e]> (tabs s)) (webviews s) (calls s)).
Proof.
  intros Hl lb Hlb. destruct (Hl lb Hlb) as (t' & -> & Ht'). exists t'. split; [done|]. cbn.
  destruct (decide (t = t')) as [->|Hne]; [by rewrite lookup_insert_eq|by rewrite lookup_insert_ne].
Qed.

Lemma listed_create t url b s : all_listed s -> all_listed (browser_create sh t url b s).2.
Proof.
  intros Hl. unfold browser_create, try_bind at 1, ret. destruct (checked_url url) as [u|e]; [|done].
  unfold bind at 1, entry_of. destruct (tabs s !! t) as [e|] eqn:Et.
  - unfold bind, set_tabs, do_call. by apply (listed_insert t (mkBrowserEntry (be_webview e) (Some b))).
  - unfold try_bind. destruct (main_window _ _); [|done]. destruct (on_main_thread _ _); [|done].
    unfold add_child. destruct (webviews s !! label_of t); [done|]. destruct (answer _ _ _); [|done].
    unfold bind, set_tabs, ret. cbn. intros lb Hlb. cbn in *. destruct (decide (lb = label_of t)) as [->|Hne].
    + exists t. split; [done|]. by rewrite lookup_insert_eq.
    + rewrite lookup_insert_ne in Hlb by done. destruct (Hl lb Hlb) as (t' & -> & Ht'). exists t'. split; [done|].
      rewrite lookup_insert_ne; [done|]. intros ->. done.
Qed.
Lemma listed_close t s : all_listed s -> all_listed (browser_close sh t s).2.
Proof.
  apply listed_with_entry. clear s. intros e s Ht Hl. unfold bind, set_tabs, close_view. cbn [calls]. rewrite Hclose. cbn.
  intros lb Hlb. cbn in *. destruct (decide (lb = label_of t)) as [->|Hne]; [by rewrite lookup_delete_eq in Hlb|].
  rewrite lookup_delete_ne in Hlb by done. destruct (Hl lb Hlb) as (t' & -> & Ht'). exists t'. split; [done|].
  rewrite lookup_delete_ne; [done|]. by intros ->.
Qed.
Lemma listed_close_all s : browsers_inv s -> all_listed s -> webviews (browser_close_all sh s).2 = ∅.
Proof.
  intros Hi Hl. destruct (close_all_spec s Hi) as (_ & _ & Hc). apply map_eq. intros lb. rewrite lookup_empty.
  destruct (webviews (browser_close_all sh s).2 !! lb) as [v|] eqn:E; [|done].
  destruct (Hc lb) as [Hd Hn]; [by rewrite E|]. destruct (Hl lb Hd) as (t & -> & Ht).
  destruct (tabs s !! t) as [e|] eqn:Et; [|done]. by destruct (Hn Hclose t e Et).
Qed.

Lemma listed_step s s' : browsers_inv s -> browser_step s s' -> all_listed s -> all_listed s'.
Proof.
  intros Hi Hs. revert Hi. destruct Hs as [c s|t v e s Hv|v t s Hv]; intros Hi Hl.
  - destruct c; cbn [run_command];
      [by apply listed_create| | | | | | | | | | |by apply listed_close| |].
    all: try (apply listed_with_entry; [|done]; intros e0 s0 _ Hl0; exact Hl0).
    + unfold browser_navigate, try_bind, ret. destruct (checked_url url); [|done].
      apply listed_with_entry; [|done]. intros e0 s0 _ Hl0. exact Hl0.
    + apply listed_with_entry; [|done]. intros e0 s0 _ Hl0. unfold bind, set_tabs, try_bind, do_call. cbn [calls].
      destruct (answer _ _ _); by apply (listed_insert tab_id (mkBrowserEntry (be_webview e0) (Some bounds)) s0).
    + intros lb Hlb. by rewrite listed_close_all in Hlb.
  - destruct (guest_only t e s) as (Ht & Hw & _). by apply (listed_same s).
  - unfold restore_bounds, bind, entry_of. by destruct (tabs s !! t ≫= be_bounds).
Qed.
End machine.

Section registry.
Context `{UrlCrate} `{JsonText} (sh : Shell).

(** C17: in every state that commands, pages and inspectors lead to, each tab is
    listed with the web view under its own label, and no two tabs share one; the
    app itself has loaded nothing but http, https and file, run no script but its
    own, and opened outside only http and https. When no close fails, every
    web view is listed, and closing all leaves none. *)
Theorem registry_is_the_views s :
  rtc (browser_step sh) browsers_new s ->
  (forall t e, tabs s !! t = Some e -> webviews s !! label_of t = Some (be_webview e)) /\
  (forall t e t' e', tabs s !! t = Some e -> tabs s !! t' = Some e' -> be_webview e = be_webview e' -> t = t') /\
  Forall app_call_ok (calls s) /\
  ((forall cs v, answer sh cs (CloseView v) = Ok tt) ->
   (forall lb, webviews s !! lb <> None -> exists t, lb = label_of t /\ tabs s !! t <> None) /\
   webviews (browser_close_all sh s).2 = ∅).
Proof.
  intros Hr. assert (Hi : browsers_inv s).
  { eapply rtc_invariant; [exact (browsers_step_inv sh)|exact browsers_new_inv|exact Hr]. }
  pose proof Hi as [H1 H2 H3]. split_and!; [done| |done|].
  - intros t e t' e' Ht Ht' Hv. apply H1 in Ht, Ht'. rewrite Hv in Ht.
    destruct (H2 _ _ Ht) as (u & b & Hc), (H2 _ _ Ht') as (u' & b' & Hc').
    apply label_inj. congruence.
  - intros Hclose. assert (Hl : browsers_inv s /\ all_listed s).
    { eapply (rtc_invariant (browser_step sh) (fun s => browsers_inv s /\ all_listed s)); [| |exact Hr].
      - intros x y [Hx Hlx] Hxy. split; [by eapply browsers_step_inv|by eapply listed_step].
      - split; [apply browsers_new_inv|]. intros lb Hlb. cbn in Hlb. by rewrite lookup_empty in Hlb. }
    destruct Hl as [_ Hl]. split; [exact Hl|]. by apply listed_close_all.
Qed.

(** The text that is searched for is one literal of the script. *)
Lemma find_query_is_a_literal `{!JsonTextLaws} query forward find_next :
  utf8_valid query = true ->
  exists literal rest, find_script query forward find_next = str "window.__groveFind&&window.__groveFind(" ++ literal ++ str "," ++ rest /\
    from_str literal = Some (Str query) /\ Forall (fun b => b <> 10 /\ b <> 13) literal.
Proof.
  intros Hq. exists (to_string (Str query)), (show_bool forward ++ str "," ++ show_bool find_next ++ str ")").
  split; [done|]. split; [by apply from_to_string|apply to_string_no_break].
Qed.
End registry.

(** * Examples *)

Module BrowserExamples.
Import Json.AsciiJson.

(** A scheme, a rest, and pairs after the question mark. *)
#[local] Instance toy_url : UrlCrate := {
  Url := bytes * bytes;
  parse_url b := match split_once (str ":") b with Some u => Ok u | None => Err (str "relative URL without a base") end;
  url_scheme := fst;
  url_text u := u.1 ++ str ":" ++ u.2;
  query_pairs u :=
    match split_once (str "?") u.2 with
    | Some (_, q) => omap (split_once (str "=")) (split_on 38 q)
    | None => []
    end
}.
Definition at_ease : Shell := mkShell (fun _ _ => Ok tt) (fun _ => true) (fun _ => true).
Definition zero : Bounds := mkBounds 0 0 0 0.
Definition one_tab : Browsers := (run_command at_ease (CCreate (str "a") (str "https://x.org/") zero) browsers_new).2.
Definition two_tabs : Browsers := (run_command at_ease (CCreate (str "b") (str "https://y.org/") zero) one_tab).2.

Lemma registry_is_the_views_witness :
  webviews two_tabs !! str "browser-b" = Some 1%nat /\ webviews (browser_close_all at_ease two_tabs).2 = ∅.
Proof.
  split; [vm_compute; reflexivity|].
  apply (registry_is_the_views at_ease two_tabs); [|intros; reflexivity].
  eapply rtc_l; [apply (bs_command at_ease (CCreate (str "a") (str "https://x.org/") zero))|].
  eapply rtc_l; [apply (bs_command at_ease (CCreate (str "b") (str "https://y.org/") zero))|apply rtc_refl].
Defined.

Definition good_url : toy_url.(Url) := (str "https", str "//z.org/").
Lemma guests_are_confined_witness : guest (str "a") (Navigates good_url) one_tab = (true, one_tab).
Proof.
  pose proof (guests_are_confined (str "a") (Navigates good_url) one_tab) as Hg.
  assert (Hl : (guest (str "a") (Navigates good_url) one_tab).1 = true) by (vm_compute; reflexivity).
  destruct (guest (str "a") (Navigates good_url) one_tab) as [loaded s'].
  cbn in Hl. subst loaded. destruct Hg as (_ & _ & _ & Hs). by destruct (Hs eq_refl) as [-> _].
Defined.

(** A frame of a page, an advertisement say, that navigates to the scheme of the
    route observer: the front end is told that the page is now elsewhere. *)
Example frame_overwrites_the_address :
  guest (str "a") (Navigates (str "grovespa", str "//n?kind=push&url=https://bank.example/")) one_tab =
    (false, put_call (Tell (BrowserNav (str "a") (str "https://bank.example/") None false false))
              (put_call (Tell (BrowserNav (str "a") (str "https://bank.example/") None true false)) one_tab)).
Proof. vm_compute. reflexivity. Qed.

(** A page that is only loaded opens another in the default browser. *)
Example page_opens_another_browser :
  calls (guest (str "a") (Navigates (str "grovemenu", str "//m?action=open-external&url=https://evil.example/")) one_tab).2 =
    calls one_tab ++ [OpenExternal (str "https://evil.example/")].
Proof. vm_compute. reflexivity. Qed.

(** A web view that is not closed keeps its label, and its tab cannot be made again. *)
Definition stuck : Shell :=
  mkShell (fun _ c => match c with CloseView _ => Err (str "busy") | _ => Ok tt end) (fun _ => true) (fun _ => true).
Example failed_close_loses_the_tab :
  let s := (run_command stuck (CClose (str "a")) one_tab).2 in
  tabs s = ∅ /\ webviews s !! str "browser-a" = Some 0%nat /\
  (run_command stuck (CClose (str "a")) s).1 = Ok tt /\
  (run_command stuck (CCreate (str "a") (str "https://x.org/") zero) s).1 =
    Err (str "a webview with label `browser-a` already exists").
Proof. vm_compute. done. Qed.

(** A tab that is not there and a URL that is refused. *)
Example unknown_tab_is_no_no_op :
  (run_command at_ease (CNavigate (str "c") (str "tauri://localhost")) one_tab).1 =
    Err (str "Refusing to load non-http(s)/file URL: tauri://localhost").
Proof. vm_compute. reflexivity. Qed.
End BrowserExamples.
