(* ===== verification/DesktopShell.v ===== *)
(** Small parts of the desktop shell: the permissions of macOS that tools in a
    terminal need (src-tauri/src/dev_permissions.rs), the cookies that are put
    into the store of the web views (browser_cookie_inject.rs, and the command of
    browser.rs), and the clone that goes on in the background (src-tauri/src/lib.rs).
    What macOS answers is a record. *)

From S2P Require Import Prelude Utf8 Text Cookies.

#[local] Open Scope rust_scope.

(** * Permissions *)

Definition DEV_PERMISSION_IDS : list bytes :=
  [str "microphone"; str "camera"; str "screen"; str "accessibility"; str "full-disk-access"].
Record DevPermissionState := mkPermission { dp_id : bytes; dp_status : bytes }.
Record DevPermissionRequestResult := mkRequestResult {
  dr_id : bytes;
  dr_status : bytes;
  opened_system_settings : bool
}.

Inductive media := Audio | Video.
(** The authorization of a kind of media when it is read, whether the bundle says
    what it is used for, what the prompt comes to ([false] too if the answer is
    lost), and whether Safari's bookmarks open. *)
Record MacOS := mkMacOS {
  authorization : media -> Z;
  usage_described : media -> bool;
  media_granted : media -> bool;
  screen_preflight : bool;
  process_trusted : bool;
  bookmarks_open : option bool        (* [None]: HOME is not set *)
}.
Inductive perm_effect := Prompt (m : media) | OpenPane (url : bytes).

Definition privacy_pane_url (id : bytes) : bytes :=
  let pane s := str "x-apple.systempreferences:com.apple.preference.security?" ++ str s in
  if bytes_eqb id (str "camera") then pane "Privacy_Camera"%string
  else if bytes_eqb id (str "microphone") then pane "Privacy_Microphone"%string
  else if bytes_eqb id (str "screen") then pane "Privacy_ScreenCapture"%string
  else if bytes_eqb id (str "accessibility") then pane "Privacy_Accessibility"%string
  else if bytes_eqb id (str "full-disk-access") then pane "Privacy_AllFiles"%string
  else str "x-apple.systempreferences:com.apple.settings.PrivacySecurity.extension".

Section macos.
Context (os : MacOS).

Definition media_status (m : media) : bytes :=
  let raw := authorization os m in
  if raw =? 0 then str "not-determined"
  else if raw =? 1 then str "restricted"
  else if raw =? 2 then str "denied"
  else if raw =? 3 then str "granted"
  else str "unknown".
Definition granted_or_unknown (b : bool) : bytes := if b then str "granted" else str "unknown".
Definition screen_status : bytes := granted_or_unknown (screen_preflight os).
Definition accessibility_status : bytes := granted_or_unknown (process_trusted os).
Definition full_disk_status : bytes := granted_or_unknown (default false (bookmarks_open os)).

Definition permission_status (id : bytes) : bytes :=
  if bytes_eqb id (str "microphone") then media_status Audio
  else if bytes_eqb id (str "camera") then media_status Video
  else if bytes_eqb id (str "screen") then screen_status
  else if bytes_eqb id (str "accessibility") then accessibility_status
  else if bytes_eqb id (str "full-disk-access") then full_disk_status
  else str "unsupported".

Definition request_media (id : bytes) (m : media) : list perm_effect * DevPermissionRequestResult :=
  let pane := OpenPane (privacy_pane_url id) in
  if negb (usage_described os m) then ([pane], mkRequestResult id (media_status m) true)
  else if media_granted os m then ([Prompt m], mkRequestResult id (str "granted") false)
  else
    let status := media_status m in
    if existsb (bytes_eqb status) [str "denied"; str "restricted"; str "unknown"]
    then ([Prompt m; pane], mkRequestResult id status true)
    else ([Prompt m], mkRequestResult id status false).

Definition request_permission (id : bytes) : list perm_effect * DevPermissionRequestResult :=
  let pane := OpenPane (privacy_pane_url id) in
  if bytes_eqb id (str "microphone") then request_media id Audio
  else if bytes_eqb id (str "camera") then request_media id Video
  else if bytes_eqb id (str "accessibility") then
    if process_trusted os then ([], mkRequestResult id (str "granted") false)
    else ([pane], mkRequestResult id (str "unknown") true)
  else ([pane], mkRequestResult id (permission_status id) true).
End macos.

(** [None]: another system. *)
Definition dev_permissions_status (os : option MacOS) : list DevPermissionState :=
  (fun id => mkPermission id (match os with Some os => permission_status os id | None => str "unsupported" end)) <$>
    DEV_PERMISSION_IDS.
Definition dev_permissions_request (os : option MacOS) (id : bytes) : list perm_effect * DevPermissionRequestResult :=
  let unsupported := ([], mkRequestResult id (str "unsupported") false) in
  if bool_decide (id ∈ DEV_PERMISSION_IDS) then
    match os with Some os => request_permission os id | None => unsupported end
  else unsupported.

(** * Cookies into the store of the web views *)

(** [NSString]s are made from C strings: no NUL is left. *)
Definition ns_string (s : bytes) : bytes := filter (fun b => b <> 0) s.
Inductive ns_value := NsString (s : bytes) | NsDate (seconds : Z).
Definition cookie_properties (c : ImportedCookie) : list (bytes * ns_value) :=
  [(str "Name", NsString (ns_string (ck_name c))); (str "Value", NsString (ns_string (ck_value c)));
   (str "Domain", NsString (ns_string (ck_host c)));
   (str "Path", NsString (ns_string (if bool_decide (ck_path c = []) then str "/" else ck_path c)));
   (str "Version", NsString (str "0"))] ++
  (if ck_secure c then [(str "Secure", NsString (str "TRUE"))] else []) ++
  match ck_expires_utc c with Some unix => [(str "Expires", NsDate unix)] | None => [] end.

(** Whether this is the main thread, whether there is a store, and which
    properties make a cookie. *)
Record CookieStore := mkCookieStore {
  cs_main_thread : bool;
  cs_data_store : bool;
  cs_cookie_store : bool;
  makes_cookie : list (bytes * ns_value) -> bool
}.
(** What is set, in order, and the count that is answered. *)
Definition set_cookies (st : CookieStore) (cookies : list ImportedCookie) : list (list (bytes * ns_value)) * Z :=
  if negb (cs_main_thread st) || negb (cs_data_store st) || negb (cs_cookie_store st) then ([], 0)
  else
    let set := filter (fun p => makes_cookie st p = true) (cookie_properties <$> cookies) in
    (set, zlen set).

(** [hop]: the work is taken to the main thread, and the count comes back within ten
    seconds, or an error does. *)
Definition browser_import_cookies (read : result (list ImportedCookie) bytes) (hop : result (option bytes) bytes) (st : CookieStore) :
    list (list (bytes * ns_value)) * result Z bytes :=
  match read with
  | Err e => ([], Err e)
  | Ok [] => ([], Ok 0)
  | Ok cookies =>
      match hop with
      | Err e => ([], Err e)
      | Ok late =>
          let '(set, count) := set_cookies st cookies in
          (set, match late with None => Ok count | Some e => Err e end)
      end
  end.

(** * Laws *)

(** What a request may come to: a prompt only with its description, and settings
    that are said to be open exactly when the pane of the permission was. *)
Definition fair (os : option MacOS) (id : bytes) (x : list perm_effect * DevPermissionRequestResult) : Prop :=
  dr_id x.2 = id /\
  (forall m, Prompt m ∈ x.1 -> exists mac, os = Some mac /\ usage_described mac m = true) /\
  (opened_system_settings x.2 = true <-> OpenPane (privacy_pane_url id) ∈ x.1) /\
  (forall url, OpenPane url ∈ x.1 -> url = privacy_pane_url id).

Lemma fair_nothing os id status : fair os id ([], mkRequestResult id status false).
Proof. split_and!; cbn; [done|set_solver..]. Qed.
Lemma fair_pane os id status : fair os id ([OpenPane (privacy_pane_url id)], mkRequestResult id status true).
Proof. split_and!; cbn; [done|set_solver..]. Qed.
Lemma fair_prompt mac id m status :
  usage_described mac m = true -> fair (Some mac) id ([Prompt m], mkRequestResult id status false).
Proof. intros Hu. split_and!; cbn; [done| |set_solver..]. intros m' [= ->]%list_elem_of_singleton. by exists mac. Qed.
Lemma fair_both mac id m status :
  usage_described mac m = true ->
  fair (Some mac) id ([Prompt m; OpenPane (privacy_pane_url id)], mkRequestResult id status true).
Proof.
  intros Hu. split_and!; cbn; [done| |set_solver..]. intros m' [[= ->]|Hm]%elem_of_cons; [by exists mac|set_solver].
Qed.
Lemma fair_media mac id m : fair (Some mac) id (request_media mac id m).
Proof.
  unfold request_media. destruct (usage_described mac m) eqn:Eu; cbn [negb]; [|apply fair_pane].
  destruct (media_granted mac m); [by apply fair_prompt|]. destruct (existsb _ _); [by apply fair_both|by apply fair_prompt].
Qed.

(** A prompt is only asked for where the bundle says what it is for, without which
    macOS kills the process; settings are said to be open exactly when they were
    opened, on the pane of the permission; an unknown name does nothing. *)
Theorem prompts_are_described (os : option MacOS) (id : bytes) :
  fair os id (dev_permissions_request os id) /\ (id ∉ DEV_PERMISSION_IDS -> (dev_permissions_request os id).1 = []).
Proof.
  unfold dev_permissions_request. case_bool_decide as Hid; [|split; [apply fair_nothing|done]]. split; [|done].
  destruct os as [mac|]; [|apply fair_nothing]. unfold request_permission.
  repeat (destruct (bytes_eqb id _); [try apply fair_media|]); [|apply fair_pane].
  destruct (process_trusted mac); [apply fair_nothing|apply fair_pane].
Qed.

Lemma status_is_known (os : option MacOS) :
  dp_id <$> dev_permissions_status os = DEV_PERMISSION_IDS /\
  Forall (fun p => dp_status p ∈ [str "not-determined"; str "restricted"; str "denied"; str "granted"; str "unknown"; str "unsupported"])
    (dev_permissions_status os).
Proof.
  split; [by destruct os|]. unfold dev_permissions_status, DEV_PERMISSION_IDS. rewrite Forall_fmap.
  apply Forall_forall. intros id _. cbn. destruct os as [os|]; [|set_solver].
  unfold permission_status, media_status, screen_status, accessibility_status, full_disk_status, granted_or_unknown.
  repeat case_match; set_solver.
Qed.

(** Every cookie that is set is one that was read, with a path and no NUL, and the
    count is that of what was set; off the main thread nothing is. *)
Lemma imported_cookies_are_set read hop st :
  let '(set, r) := browser_import_cookies read hop st in
  (forall n, r = Ok n -> n = zlen set) /\
  (forall p, p ∈ set -> exists cookies c, read = Ok cookies /\ c ∈ cookies /\ p = cookie_properties c) /\
  (cs_main_thread st = false -> set = []).
Proof.
  unfold browser_import_cookies. destruct read as [[|c cs]|e]; [by split_and!; intros; simplify_eq; set_solver| |by split_and!; intros; simplify_eq; set_solver].
  destruct hop as [late|e]; [|by split_and!; intros; simplify_eq; set_solver].
  unfold set_cookies. destruct (negb _ || _ || _) eqn:E; split_and!.
  - intros n. by destruct late; intros [= <-].
  - intros p Hp. by apply not_elem_of_nil in Hp.
  - done.
  - intros n. by destruct late; intros [= <-].
  - intros p Hp. apply list_elem_of_filter in Hp as [_ (c' & -> & Hc)%list_elem_of_fmap]. by exists (c :: cs), c'.
  - intros Hm. by rewrite Hm in E.
Qed.
