(* ===== verification/Theme.v ===== *)
(** The theme of the system's terminal (grove-core/src/terminal_theme.rs): colours
    and font are read from the exported preferences. The floating-point unit and
    the crate base64 are an interface; what the command [defaults] prints is an
    observation. *)

From S2P Require Import Prelude Utf8 Text.

#[local] Open Scope rust_scope.

(** [f64]: parsing, the byte of a component, [x < 1.0], and the byte of a channel
    blended with white. *)
Class Floats := {
  F : Type;
  parse_f64 : bytes -> option F;
  f_one : F;
  f_twelve : F;
  below_one : F -> bool;
  component_byte : F -> Z;          (* (x.clamp(0.0, 1.0) * 255.0).round() as u8 *)
  blended_byte : Z -> F -> Z        (* (c * a + 255.0 * (1.0 - a)) as u8, a the softened opacity *)
}.
Class Base64 := { base64_decode : bytes -> option bytes }.

Definition FALLBACK_PROFILE : bytes := str "Basic".
Definition ANSI_KEYS : list bytes :=
  [str "ANSIBlackColor"; str "ANSIRedColor"; str "ANSIGreenColor"; str "ANSIYellowColor"; str "ANSIBlueColor";
   str "ANSIMagentaColor"; str "ANSICyanColor"; str "ANSIWhiteColor"; str "ANSIBrightBlackColor";
   str "ANSIBrightRedColor"; str "ANSIBrightGreenColor"; str "ANSIBrightYellowColor"; str "ANSIBrightBlueColor";
   str "ANSIBrightMagentaColor"; str "ANSIBrightCyanColor"; str "ANSIBrightWhiteColor"].

Section theme.
Context `{Floats} `{Base64}.

(** The sixteen ANSI colours in their standard order. *)
Record TerminalTheme := mkTheme {
  th_background : bytes;
  th_foreground : bytes;
  th_cursor : bytes;
  th_ansi : list bytes;
  th_font_family : bytes;
  th_font_size : F
}.
Definition DEFAULT_TERMINAL_FONT_FAMILY : bytes :=
  let q s := [34] ++ str s ++ [34] ++ str ", " in
  q "SF Mono"%string ++ q "Monaco"%string ++ q "Menlo"%string ++ q "Consolas"%string ++ q "Liberation Mono"%string ++
  q "DejaVu Sans Mono"%string ++ q "Noto Sans Mono CJK KR"%string ++ q "Noto Sans Mono CJK SC"%string ++
  q "Noto Sans Mono CJK TC"%string ++ q "Noto Sans Mono CJK JP"%string ++ str "monospace".
Definition terminal_theme_default : TerminalTheme :=
  mkTheme (str "#1a2024") (str "#d4dbd8") (str "#a8d8b8")
    [str "#1a2024"; str "#e06c75"; str "#98c379"; str "#e5c07b"; str "#61afef"; str "#c678dd"; str "#56b6c2"; str "#d4dbd8";
     str "#5c6370"; str "#e88388"; str "#a8d8b8"; str "#f0d89d"; str "#7ec8f0"; str "#d49ee6"; str "#6fcfdb"; str "#ecf0ed"]
    DEFAULT_TERMINAL_FONT_FAMILY f_twelve.

(** ** Colours in the exported preferences *)

Definition key_tag (k : bytes) : bytes := str "<key>" ++ k ++ str "</key>".
(** [&s[s.find(needle)?..]]. *)
Definition from_found (needle s : bytes) : option bytes := (fun i => drop i s) <$> find needle s.

Definition is_ascii_digit (b : Z) : bool := in_range 48 57 b.
(** The printable text at the start. *)
Fixpoint up_to_control (s : bytes) : bytes :=
  match s with
  | [] => []
  | b :: t => if b <? 32 then [] else b :: up_to_control t
  end.
Definition components_of (s : bytes) : option (list F) := mapM parse_f64 (split_whitespace s).
(** The first place from which three numbers or more are written. *)
Fixpoint find_floats (after_marker : bytes) : option (list F) :=
  match after_marker with
  | [] => None
  | b :: t =>
      let here :=
        if is_ascii_digit b then
          s ← from_utf8 (up_to_control after_marker);
          parts ← components_of s;
          if (3 <=? length parts)%nat then Some parts else None
        else None in
      match here with Some f => Some f | None => find_floats t end
  end.

(** The outer option: [None] is a slice whose end is before its start. *)
Definition extract_nscolor (xml profile key : bytes) : option (option (F * F * F * option F)) :=
  match from_found (key_tag profile) xml ≫= from_found (key_tag key) with
  | None => Some None
  | Some after_key =>
      match find (str "<data>") after_key, find (str "</data>") after_key with
      | Some s, Some data_end =>
          let data_start := (s + 6)%nat in
          if (data_end <? data_start)%nat then None
          else
            let b64 := concat (split_whitespace (take (data_end - data_start) (drop data_start after_key))) in
            Some (
              bs ← base64_decode b64;
              marked ← from_found (str "NSRGB") bs;
              parts ← find_floats (drop 5 marked);
              match parts with
              | r :: g :: b :: rest => Some (r, g, b, head rest)
              | _ => None
              end)
      | _, _ => Some None
      end
  end.

Definition hex2 (n : Z) : bytes :=
  let digit d := if d <? 10 then 48 + d else 87 + d in [digit (n / 16); digit (n mod 16)].
Definition hex_color (r g b : Z) : bytes := str "#" ++ hex2 r ++ hex2 g ++ hex2 b.
Definition floats_to_hex (r g b : F) : bytes := hex_color (component_byte r) (component_byte g) (component_byte b).

Definition read_color (xml profile key : bytes) : option (option (F * F * F * option F)) :=
  c ← extract_nscolor xml profile key;
  match c with
  | Some c => Some (Some c)
  | None => extract_nscolor xml FALLBACK_PROFILE key
  end.
Definition read_color_hex (xml profile key : bytes) : option (option bytes) :=
  match read_color xml profile key with
  | Some c => Some (option_map (fun c => floats_to_hex c.1.1.1 c.1.1.2 c.1.2) c)
  | None => None
  end.

(** Two hexadecimal digits, or a plus sign and one, 0 when they are not. *)
Definition hex_byte (s : bytes) : Z :=
  match s with
  | [43; b] => default 0 (hex_digit b)
  | [a; b] => match hex_digit a, hex_digit b with Some x, Some y => 16 * x + y | _, _ => 0 end
  | _ => 0
  end.
Fixpoint trim_hashes (s : bytes) : bytes := match s with 35 :: t => trim_hashes t | _ => s end.
Definition blend_with_opacity (hex : bytes) (opacity : F) : bytes :=
  let hex := trim_hashes hex in
  if zlen hex <? 6 then str "#" ++ hex
  else
    let channel i := blended_byte (hex_byte (take 2 (drop i hex))) opacity in
    hex_color (channel 0%nat) (channel 2%nat) (channel 4%nat).

(** ** Detection *)

(** What [defaults] prints for the profile, the export, and the two font
    settings; [None]: it fails. *)
Record Defaults := mkDefaults {
  df_profile : option bytes;
  df_export : option bytes;
  df_font : option bytes;
  df_font_size : option bytes
}.
Definition trimmed (out : option bytes) : option bytes :=
  out ← out; let s := trim (from_utf8_lossy out) in if bool_decide (s = []) then None else Some s.
Definition get_default_profile_name (d : Defaults) : option bytes := trimmed (df_profile d).
Definition export_terminal_plist (d : Defaults) : option bytes := from_utf8_lossy <$> df_export d.
Definition read_font_settings (d : Defaults) : option bytes * option F :=
  (trimmed (df_font d), out ← df_font_size d; parse_f64 (trim (from_utf8_lossy out))).

Fixpoint ansi_colors (xml profile : bytes) (keys dflt : list bytes) : option (list bytes) :=
  match keys, dflt with
  | key :: keys, d :: dflt =>
      c ← read_color_hex xml profile key;
      cs ← ansi_colors xml profile keys dflt;
      Some (default d c :: cs)
  | _, _ => Some dflt
  end.
Definition background_of (c : F * F * F * option F) : bytes :=
  let '(r, g, b, alpha) := c in
  let hex := floats_to_hex r g b in
  let a := default f_one alpha in
  if below_one a then blend_with_opacity hex a else hex.

(** The theme and whether it was detected; [None] is a panic. *)
Definition detect_terminal_theme (d : Defaults) : option (TerminalTheme * bool) :=
  let theme := terminal_theme_default in
  match get_default_profile_name d, export_terminal_plist d with
  | Some profile, Some xml =>
      bg ← read_color xml profile (str "BackgroundColor");
      fg ← read_color_hex xml profile (str "TextColor");
      cursor ← read_color_hex xml profile (str "CursorColor");
      ansi ← ansi_colors xml profile ANSI_KEYS (th_ansi theme);
      let '(font, size) := read_font_settings d in
      Some (mkTheme (from_option background_of (th_background theme) bg)
              (default (th_foreground theme) fg) (default (th_cursor theme) cursor) ansi
              (default (th_font_family theme) font) (default (th_font_size theme) size),
            match bg with Some _ => true | None => false end)
  | _, _ => Some (theme, false)
  end.
End theme.

(** * Colours are colours, and well-formed text is no panic *)

Definition byte_hex (b : Z) : bool := in_range 48 57 b || in_range 97 102 b.
Definition is_color (c : bytes) : Prop := exists hex, c = 35 :: hex /\ length hex = 6%nat /\ Forall (fun b => byte_hex b = true) hex.

Section laws.
Context `{Floats} `{Base64}.
(** [as u8] gives a byte. *)
Context (Hc : forall x, 0 <= component_byte x < 256) (Hb : forall c x, 0 <= blended_byte c x < 256).

Lemma hex2_ok n : 0 <= n < 256 -> length (hex2 n) = 2%nat /\ Forall (fun b => byte_hex b = true) (hex2 n).
Proof.
  intros Hn. split; [done|]. unfold hex2. assert (0 <= n / 16 < 16) by (split; [apply Z.div_pos|apply Z.div_lt_upper_bound]; lia).
  pose proof (Z.mod_pos_bound n 16). repeat constructor; unfold byte_hex, in_range; case_match; lia.
Qed.
Lemma hex_color_ok r g b : 0 <= r < 256 -> 0 <= g < 256 -> 0 <= b < 256 -> is_color (hex_color r g b).
Proof.
  intros [Lr Fr]%hex2_ok [Lg Fg]%hex2_ok [Lb Fb]%hex2_ok. exists (hex2 r ++ hex2 g ++ hex2 b).
  split; [done|]. rewrite !length_app, Lr, Lg, Lb. split; [done|]. by repeat (apply Forall_app; split).
Qed.
Lemma blend_ok r g b x : is_color (blend_with_opacity (floats_to_hex r g b) x).
Proof.
  assert (Hk : is_color (floats_to_hex r g b)) by by apply hex_color_ok. destruct Hk as (hex & -> & Hl & Hf).
  unfold blend_with_opacity. cbn [trim_hashes].
  assert (Ht : trim_hashes hex = hex).
  { destruct hex as [|c hex]; [done|]. apply Forall_cons in Hf as [Hf _]. cbn [trim_hashes].
    destruct (decide (c = 35)) as [->|Hne]; [done|]. destruct c as [|p|p]; try done.
    do 6 (destruct p as [p|p|]; try done). }
  rewrite Ht. rewrite (proj2 (Z.ltb_ge _ _)) by (unfold zlen; lia). by apply hex_color_ok.
Qed.
Lemma background_ok c : is_color (background_of c).
Proof.
  destruct c as [[[r g] b] alpha]. unfold background_of. case_match; [apply blend_ok|by apply hex_color_ok].
Qed.
Lemma read_color_hex_ok xml profile key c : read_color_hex xml profile key = Some (Some c) -> is_color c.
Proof.
  unfold read_color_hex. destruct (read_color xml profile key) as [[[[[r g] b] a]|]|]; intros [= <-]. by apply hex_color_ok.
Qed.
Lemma ansi_ok xml profile keys : forall dflt cs,
  ansi_colors xml profile keys dflt = Some cs -> Forall is_color dflt -> Forall is_color cs /\ length cs = length dflt.
Proof.
  induction keys as [|key keys IH]; intros [|d dflt] cs; cbn [ansi_colors]; [by intros [= <-]..|].
  destruct (read_color_hex xml profile key) as [c|] eqn:Ek; [|done]. cbn [mbind option_bind].
  destruct (ansi_colors xml profile keys dflt) as [cs'|] eqn:Ec; [|done]. intros [= <-] [Hd Hds]%Forall_cons.
  destruct (IH _ _ Ec Hds) as [Hcs Hl]. split; [|by cbn; rewrite Hl]. constructor; [|done].
  destruct c as [c|]; [by eapply read_color_hex_ok|done].
Qed.
End laws.

(** In a property list every end of data closes data that is no key's. *)
Definition found_at (needle s : bytes) (i : nat) : Prop := starts_with needle (drop i s) = true.
Definition data_is_closed (xml : bytes) : Prop :=
  forall i, found_at (str "</data>") xml i ->
    exists j, (j < i)%nat /\ found_at (str "<data>") xml j /\ forall k, (j <= k < i)%nat -> ~ found_at (str "<key>") xml k.

Lemma found_where needle s k : find needle s = Some k -> found_at needle s k.
Proof.
  unfold found_at. revert k. induction s as [|b s IH]; intros k; cbn [find].
  - destruct (starts_with needle []) eqn:E; [by intros [= <-]|done].
  - destruct (starts_with needle (b :: s)) eqn:E; [by intros [= <-]|].
    destruct (find needle s) as [k'|]; [|done]. intros [= <-]. by apply IH.
Qed.
Lemma find_leftmost needle s k j : find needle s = Some k -> found_at needle s j -> (k <= j)%nat.
Proof.
  unfold found_at. revert k j. induction s as [|b s IH]; intros k j; cbn [find].
  - destruct (starts_with needle []) eqn:E; [intros [= <-]; lia|done].
  - destruct (starts_with needle (b :: s)) eqn:E; [intros [= <-]; lia|].
    destruct (find needle s) as [k'|] eqn:Ef; [|done]. intros [= <-]. destruct j as [|j]; [by rewrite drop_0, E|].
    intros Hj. apply le_n_S. by apply IH.
Qed.
Lemma found_drop needle s i j : found_at needle (drop i s) j <-> found_at needle s (i + j).
Proof. unfold found_at. by rewrite drop_drop. Qed.
Lemma found_prefix p q s i : found_at (p ++ q) s i -> found_at p s i.
Proof.
  unfold found_at. rewrite !starts_with_iff. intros [r Hr]. exists (q ++ r). by rewrite Hr, <- app_assoc.
Qed.
(** A tag does not begin within another. *)
Lemma tags_apart s j i : found_at (str "<data>") s j -> found_at (str "</data>") s i -> (j < i)%nat -> (j + 6 <= i)%nat.
Proof.
  unfold found_at. rewrite !starts_with_iff. intros [r Hr] [r' Hr'] Hji.
  destruct (decide (i < j + 6)%nat) as [Hlt|]; [|lia]. exfalso.
  assert (Hd : drop i s = drop (i - j) (str "<data>" ++ r)) by (rewrite <- Hr, drop_drop; f_equal; lia).
  rewrite Hr' in Hd. assert (Hk : (0 < i - j < 6)%nat) by lia. revert Hd Hk. generalize (i - j)%nat. intros k Hd Hk.
  do 6 (destruct k as [|k]; [lia || done|]). lia.
Qed.

Section no_panic.
Context `{Floats} `{Base64}.

Lemma extract_no_panic xml profile key : data_is_closed xml -> exists c, extract_nscolor xml profile key = Some c.
Proof.
  intros Hx. unfold extract_nscolor, from_found.
  destruct (find (key_tag profile) xml) as [p|] eqn:Ep; cbn [fmap option_fmap option_map mbind option_bind]; [|eauto].
  destruct (find (key_tag key) (drop p xml)) as [q|] eqn:Eq; cbn [fmap option_fmap option_map]; [|eauto].
  rewrite drop_drop. set (n := (p + q)%nat).
  destruct (find (str "<data>") (drop n xml)) as [s|] eqn:Es; [|eauto].
  destruct (find (str "</data>") (drop n xml)) as [e|] eqn:Ee; [|eauto].
  assert (Hkey : found_at (str "<key>") xml n).
  { apply found_where in Eq. apply found_drop in Eq. by apply found_prefix in Eq. }
  pose proof (found_where _ _ _ Ee) as He. apply found_drop in He.
  destruct (Hx _ He) as (j & Hj & Hd & Hno).
  assert (Hnj : (n < j)%nat).
  { destruct (decide (n < j)%nat); [done|]. exfalso. destruct (decide (n = n + e)%nat) as [E0|].
    - replace e with 0%nat in He by lia. rewrite Nat.add_0_r in He. unfold found_at in He, Hkey.
      apply starts_with_iff in He as [r1 H1], Hkey as [r2 H2]. rewrite H1 in H2. done.
    - apply (Hno n); [lia|done]. }
  assert (Hs : (s <= j - n)%nat).
  { apply (find_leftmost _ _ _ _ Es). apply found_drop. by replace (n + (j - n))%nat with j by lia. }
  pose proof (tags_apart _ _ _ Hd He Hj). destruct (_ <? _)%nat eqn:El; [|eauto].
  apply Nat.ltb_lt in El. lia.
Qed.
End no_panic.

Section detection.
Context `{Floats} `{Base64}.

Lemma read_color_total xml profile key : data_is_closed xml -> exists c, read_color xml profile key = Some c.
Proof.
  intros Hx. unfold read_color. destruct (extract_no_panic xml profile key Hx) as [[c|] ->]; [by eexists|].
  by apply extract_no_panic.
Qed.
Lemma read_hex_total xml profile key : data_is_closed xml -> exists c, read_color_hex xml profile key = Some c.
Proof. intros Hx. unfold read_color_hex. destruct (read_color_total xml profile key Hx) as [c ->]. eauto. Qed.
Lemma ansi_total xml profile keys : forall dflt, data_is_closed xml -> exists cs, ansi_colors xml profile keys dflt = Some cs.
Proof.
  induction keys as [|key keys IH]; intros [|d dflt] Hx; cbn [ansi_colors]; eauto.
  destruct (read_hex_total xml profile key Hx) as [c ->], (IH dflt Hx) as [cs ->]. by eexists.
Qed.
Lemma default_colors_ok : Forall is_color (th_background terminal_theme_default :: th_foreground terminal_theme_default ::
  th_cursor terminal_theme_default :: th_ansi terminal_theme_default).
Proof.
  repeat (apply Forall_cons_2; [eexists; split; [reflexivity|split; [reflexivity|]]; repeat constructor|]). constructor.
Qed.

(** Whatever the terminal says in well-formed preferences, detection ends with a
    theme of which every colour is a colour, all sixteen there; and it says that
    it detected one only when there is a background in them. *)
Theorem detected_theme_is_whole (d : Defaults) :
  (forall x, 0 <= component_byte x < 256) -> (forall c x, 0 <= blended_byte c x < 256) ->
  (forall xml, export_terminal_plist d = Some xml -> data_is_closed xml) ->
  exists th detected, detect_terminal_theme d = Some (th, detected) /\
    Forall is_color (th_background th :: th_foreground th :: th_cursor th :: th_ansi th) /\ length (th_ansi th) = 16%nat /\
    (detected = false -> th_background th = th_background terminal_theme_default) /\
    (get_default_profile_name d = None \/ export_terminal_plist d = None -> th = terminal_theme_default /\ detected = false).
Proof.
  intros Hc Hb Hx. unfold detect_terminal_theme.
  pose proof default_colors_ok as Hd. apply Forall_cons in Hd as [D1 Hd]. apply Forall_cons in Hd as [D2 Hd]. apply Forall_cons in Hd as [D3 D4].
  destruct (get_default_profile_name d) as [profile|] eqn:Ep; [|eexists _, _; split_and!; [reflexivity|exact default_colors_ok|done|done|done]].
  destruct (export_terminal_plist d) as [xml|] eqn:Ee; [|eexists _, _; split_and!; [reflexivity|exact default_colors_ok|done|done|done]].
  specialize (Hx xml eq_refl).
  destruct (read_color_total xml profile (str "BackgroundColor") Hx) as [bg ->].
  destruct (read_color_hex xml profile (str "TextColor")) as [fg|] eqn:Ef; [|by destruct (read_hex_total xml profile (str "TextColor") Hx); congruence].
  destruct (read_color_hex xml profile (str "CursorColor")) as [cu|] eqn:Ec; [|by destruct (read_hex_total xml profile (str "CursorColor") Hx); congruence].
  destruct (ansi_colors xml profile ANSI_KEYS (th_ansi terminal_theme_default)) as [ansi|] eqn:Ea;
    [|by destruct (ansi_total xml profile ANSI_KEYS (th_ansi terminal_theme_default) Hx); congruence].
  destruct (ansi_ok Hc xml profile ANSI_KEYS _ _ Ea D4) as [Hansi Hlen].
  cbn [mbind option_bind]. destruct (read_font_settings d) as [font size]. eexists _, _. split_and!; [reflexivity| | | |].
  - cbn. constructor; [destruct bg; [by apply background_ok|done]|].
    constructor; [destruct fg; [by eapply read_color_hex_ok|done]|]. constructor; [destruct cu; [by eapply read_color_hex_ok|done]|done].
  - exact Hlen.
  - by destruct bg.
  - by intros [?|?].
Qed.
End detection.

Module ThemeExamples.
(** Floats by their text, in whole numbers, and data in which a comma stands for
    a blank. *)
#[local] Instance toy_floats : Floats := {
  F := Z;
  parse_f64 := parse_u32;
  f_one := 1;
  f_twelve := 12;
  below_one x := x <? 1;
  component_byte x := x mod 256;
  blended_byte c x := (c + x) mod 256
}.

Definition color_entry (key data : string) : bytes := key_tag (str key) ++ str "<data>" ++ str data ++ str "</data>".
Definition export : bytes :=
  key_tag (str "Mine") ++ str "<dict>" ++ color_entry "BackgroundColor" "NSRGB:1,2,3" ++ str "</dict>" ++
  key_tag (str "Red") ++ str "<dict>" ++ color_entry "CursorColor" "NSRGB:255,0,0" ++ str "</dict>" ++
  key_tag (str "Basic") ++ str "<dict>" ++ color_entry "CursorColor" "NSRGB:7,7,7" ++ str "</dict>".
#[local] Instance comma_base64 : Base64 := { base64_decode b := Some ((fun b => if b =? 44 then 32 else b) <$> b) }.

(** The profile has no cursor colour. What is found is that of the next profile
    in the file, not that of Basic. *)
Example colour_of_another_profile :
  read_color_hex export (str "Mine") (str "CursorColor") = Some (Some (str "#ff0000")) /\
  read_color_hex export FALLBACK_PROFILE (str "CursorColor") = Some (Some (str "#070707")).
Proof. split; vm_compute; reflexivity. Qed.
(** A profile whose name is escaped in the export is not found in it. *)
Example escaped_name_is_not_found :
  extract_nscolor (key_tag (str "A &amp; B") ++ color_entry "CursorColor" "NSRGB:1,2,3") (str "A & B") (str "CursorColor") = Some None.
Proof. vm_compute. reflexivity. Qed.
(** Data that is closed before it is opened is a slice that panics. *)
Example unbalanced_data_panics :
  extract_nscolor (key_tag (str "Mine") ++ key_tag (str "TextColor") ++ str "</data><data>") (str "Mine") (str "TextColor") = None.
Proof. vm_compute. reflexivity. Qed.

Lemma detected_theme_is_whole_witness :
  exists th, detect_terminal_theme (mkDefaults None None None None) = Some (th, false) /\ length (th_ansi th) = 16%nat.
Proof.
  destruct (detected_theme_is_whole (mkDefaults None None None None)) as (th & b & H1 & _ & H2 & _ & H3).
  - intros x. apply Z.mod_pos_bound. lia.
  - intros c x. apply Z.mod_pos_bound. lia.
  - done.
  - exists th. destruct (H3 (or_introl eq_refl)) as [_ ->]. by split.
Defined.
End ThemeExamples.
